(* ===== verification/_CoqProject ===== *)
-Q . S2P
Prelude.v
PyStr.v
Dict.v
RadUtil.v
TopSort.v
CheckStyle.v
PyOptparse.v
PyNum.v
Timeline.v
Renderer.v
Graphic.v
GridWindow.v
VizThread.v
VizModel.v
VizScene.v
VizNode.v
VizPlugins.v
VizConsole.v
PyOs.v
Ns3Targets.v
Ns3Cache.v
Ns3Main.v
PyPath.v
ModuleTemplates.v
CreateModule.v
BindingScan.v
BindingGen.v
PyXml.v
PyFloat.v
RadFloat.v
FlowMon.v
Fog.v
FogPolicy.v
Graficos.v
Uavs.v
RunSims.v
Workers.v
WorkersSpec.v
ExamplesFile.v
Report.v
Runner.v
TestOptions.v
