(* ===== verification/Prelude.v ===== *)
(** * Verification of the Python tools of the repository: overview and prelude

    The repository is a fork of the ns-3 network simulator.  Its simulator is
    C++; this development verifies the Python tools around it that have a logic
    of their own.  The definitions are a shallow embedding: pure functions are
    Rocq functions, code that can raise returns [res], and code with a state or
    effects is in the state monad [stm], where an exception keeps the effects
    that came before it.  Everything is executable.

    ** Files, in dependency order

    - [Prelude]: results and exceptions, the state monad, Python indices and
      slices, counting and order in lists, finite graphs; the hint databases
      [py] and [pyrw].
    - [PyStr], [PyOptparse], [PyNum], [PyFloat], [PyOs], [PyPath], [PyXml], [Dict]:
      the parts of Python that the tools use: strings and integers in digits;
      option parsers, with the language of command lines they accept; integers
      mixed with floats; floats with infinities and NaN; [os.path], [fnmatch],
      decoding and formats; [pathlib] and a tree of directories and files, with
      the operations that can fail; element trees; dictionaries as an interface
      ([DictOps], [DictLaws]) with an insertion-ordered and a hashed instance.
    - [RadUtil], [RadFloat]: bindings/python/rad_util.py, the helpers on binary
      strings, numbers and sequences; areas, quantiles, units and ranges of floats.
    - [TopSort]: bindings/python/topsort.py.  [topsort], [topsort_levels] and
      [find_cycles] over the dictionary interface, so for every iteration order.
    - [CheckStyle]: utils/check-style.py.  Patches ([PatchChunkLine],
      [PatchChunk], [Patch]), [parse_patchset], the trailing-whitespace pass, and
      the driver ([indent], [indent_files], [run_as_main]) over a file system.
    - [BindingScan], [BindingGen]: bindings/python and the customizations of
      modules.  The header and the annotations of a declaration in both scanners,
      and the sections, which are ordered by [TopSort.topsort]; smart pointers,
      callbacks, the classes left out, and the steps of the generator.
    - [Timeline], [Renderer], [Graphic], [GridWindow]: utils/grid.py.  The data
      model and the trace reader; the layout and drawing of legend, scale and timelines as
      lists of cairo calls; the graphic and the mouse handlers of the widget; the
      buttons and dialogs of the main window.
    - [ModuleTemplates], [CreateModule]: utils/create-module.py.  The templates of
      a new module and [str.format]; the functions that write the files, and
      [main] over names and directories.
    - [VizThread]: src/visualizer/visualizer/core.py, the simulation thread and
      what the GTK thread shares with it, as a step relation, with the handlers
      that look at the simulator without its lock (also plugins/olsr.py) and the
      dialogs that run a main loop of their own.
    - [VizModel]: src/visualizer/visualizer, what is displayed: the windows of
      samples and the pools of arrows (core.py), the selection and the nodes of
      interest (core.py), the links of the topology (core.py, base.py) and of
      wireless stations (plugins/wifi_intrastructure_link.py), the statistics of
      interfaces (plugins/interface_statistics.py), the rulers (hud.py).
    - [VizScene]: the places of nodes and channels, the lines of their links, the
      growing canvas, dragging and the view of all nodes (core.py, base.py).
    - [VizNode], [VizPlugins], [VizConsole]: the look of a node with its icon and
      label (core.py, svgitem.py); loading plugins, their tables of routes and
      packets and the filter of packets (base.py, plugins); the console with its
      colors, history, completion and keys (ipython_view.py, which runs on its own:
      core.py misspells its import).
    - [Ns3Targets], [Ns3Cache], [Ns3Main]: the wrapper ns3.  Shortcuts of programs
      and build targets; the search for a cmake cache, its settings and the forced
      refresh; the merged arguments, the configuration, and [main] from the
      checks to the program that is run.
    - [FlowMon]: src/flow-monitor/examples/flowmon-parse-results.py.  The
      statistics of flows, their classification and probes, and the report.
    - [Fog], [FogPolicy]: src/Fog4VR.  [concatenarServers], the table of servers
      that four scripts compute, and what they and the other scripts do with
      it: the weights of the analytic hierarchy process, the choice of a
      server, the delay matrix and the stall counts.
    - [Graficos]: src/Fog4VR/graficos2.py and graficos.py, the statistics of the
      results: bitrates, switches, throughput, stalls, cost, fairness.
    - [Uavs]: scratch/uavs_ag.py.  Fitness, coverage and the genetic search for
      the movements of drones, over a heap of NumPy arrays that the solutions
      refer to, with the random draws as streams.
    - [RunSims]: src/Fog4VR/Run.py, which starts many simulations in batches.
    - [Workers], [WorkersSpec], [ExamplesFile], [Report], [Runner], [TestOptions]:
      test.py and utils.py.  Jobs, the worker threads and queues; an abstract pool
      of jobs that the threads refine; the readers of list and flag files; the text
      and HTML reports; [run_tests] itself; the options, the configuration in the
      lock file and [main], and the options of check-style.py.

    ** How the parts of test.py interact

    [TestOptions.main] parses the command line into the record [options] and calls
    [run_tests], which reads the record [config] from the lock file
    ([TestOptions.read_ns3_config], [TestOptions.config_of]).
    [Runner.prepare] is [run_tests] from there up to the start of the threads: it builds,
    sets up the environment, finds the examples ([ExamplesFile]) and the suites,
    and returns the list of jobs and the number of processors.
    [Workers.step] is one step of the threads from there to the last [join]: one
    operation on a queue, the end of one process, one [join] or the delivery of a
    SIGINT.  The jobs that main got are then the argument of
    [Runner.finish_tests], which counts them, writes results.xml, calls the
    translators of [Report] and returns the exit status.  The code handles each
    result as it arrives; as it touches nothing that the workers use, the model
    handles them after the last one.  What the external processes do to files is
    not constrained in the verdict theorem.  Exceptions in a worker end it, as in
    Python; the theorems that need it say that no launched command raises.

    ** What the theorems show

    - Test runner: every job comes back exactly once in every interleaving, the
      threads never deadlock and always end, they refine a pool of jobs even
      when commands raise, the verdict and the counters do not
      depend on the scheduling, results.xml holds one entry per result, the
      suites and examples that run are the ones the lists say, the reports are
      complete, and the HTML is balanced exactly in a characterised case.  Every
      value of the options can be given and is read back, exactly the command lines
      of a grammar are accepted, and the configuration that cmake writes is the one
      that is read, for strings that need no escapes and without equals signs in
      the directories of the sources and of the build.
    - Sorting and cycles: [topsort] and [topsort_levels] are correct and raise
      [CycleError] exactly on cycles, [find_cycles] yields each elementary cycle
      once up to rotation.
    - Bindings: both scanners find the header of a file below ns3; what the hook
      does to classes and functions is characterised, also the second time; the
      sections follow the dependencies under Python 2, while under Python 3 the
      script always ends with an exception; every spelling of a smart pointer has the
      same normal form; which callbacks get a class, and which stay in use
      without; the generator keeps its order and the search path.
    - Patches: printing and parsing are inverse, the whitespace pass changes only
      what it should on aligned chunks, and the check of a file means what it
      says except when debugging.
    - Traces and drawing: the reader is total, searches and bounds are
      characterised, drawing fits the computed layout, drags keep their
      invariants.
    - New modules: whatever fails in writing it, a module is written as a whole or
      not at all, unless what was written cannot be removed; without failures the script makes exactly the modules named;
      its exit status says nothing about that.
    - Flows: statistics, classifications and probes reach the flow they are for,
      in order; the loss ratio and the hop count are in their ranges; the report
      has five lines per flow up to the first flow that cannot be shown.
    - Servers: on a log that can be read the table is the one the log describes
      (nearest holders, rescaled columns, NaN for a constant one), and its
      [IndexError] and [ValueError] are characterised; each policy prints a server that its own rule prefers;
      stalls and delays are counted and stored completely.
    - Drones: the operators keep the population well formed, the recorded
      fitness never decreases, moves stay in reach, the shortcut through the
      nearest drone is the maximum, and crossover copies.
    - Batches: every simulation is started once, as soon as the free processors
      add up to the runs; without a processor the loop never ends.
    - Wrapper: a shortcut stands for a characterised program; running a program
      builds its target first and stops at the first failure; a dry run runs
      nothing but a refresh that is due and writes nothing but the settings of a
      forced refresh; the arguments for cmake say what the switches say; a forced
      refresh that fails can be repeated without loss of settings as long as its
      cache is found again.
    - Statistics: each segment is counted once under its server, except the last
      of each client; the bitrate interpolates the ladder of levels; means of
      columns are over the shortest log; where the script ends with an exception
      or a NaN is characterised.
    - Visualizer: the simulator never runs while a handler that takes the lock looks
      at it (three handlers do not take it), is at most one period ahead, and neither waiting for it nor closing the window hangs.  The
      visible arrows are the pairs that transmitted, at their mean rates, and none
      is lost; the selected node, the links of stations and their access points
      stay consistent; lines join the places of their ends and nodes are within the
      canvas, a dragged node follows the pointer and the scaled view shows all
      nodes; the look of a node follows its state; plugins are loaded once, up to
      the first that fails; the console walks through the history within
      its ends; a ruler has four to nine round marks that cover its axis.
    - Helpers: round trips, enumeration and arithmetic of rad_util; quantiles are
      bounded and monotone, trimming keeps the middle half, a unit is always found,
      a range of floats ends exactly with a positive step or from the start.

    Lemmas and theorems on behaviour that the code does not mean to have are kept
    as well: they state the code as it is.

    ** Fuel

    Loops that are not structural take fuel and return [None] without it.
    [topsort] and [topsort_levels] supply the number of elements, [gcf] the
    smaller argument, the searches of [Timeline] the length of the list,
    [ScaleRenderer.layout] the logarithm of the span: each is proved enough.
    [find_cycles], [binary_range], [float_range] and the batches of [RunSims] take the fuel as
    an argument, and their theorems give the bound from which the result is
    there; [VizModel.exponent] searches with the logarithms of the fraction and
    [VizModel.ticks] with ten marks, which is proved enough;
    [BindingScan.relative_loop] takes the length of the path, which is proved enough;
    [Ns3Main.build_targets] follows a list that its own loop extends once,
    with a fuel that is proved enough; [AutoValor] counts its passes down as the code does.  The threads have no
    fuel: every step lowers [Workers.weight].

    ** Python versions

    topsort.py, rad_util.py and grid.py are Python 2 ([has_key], [list.sort] with
    a comparison function, pygtk): [/] on integers floors.  The other files are
    Python 3 (ns3modulescan.py is modelled under both, where they differ).  Floats are exact rationals, with infinities and NaN in the files
    on [PyFloat]; rounding is not modelled.

    ** What is not modelled

    External programs and libraries are parameters (uncrustify, patch, git, the
    test programs, cairo's text extents, the XML parser, [eval], the solver of
    pliLocal.py, random numbers, the load average, which file operations fail).
    Not modelled: the functions of rad_util.py on the clock and on modules;
    the messages of optparse; the signal
    handler's registration; debug text on the standard error stream of
    check-style.py; interleaving of the workers' prints with main's;
    directories, as opposed to files; the argparse declarations, help texts and
    printed output of the ns3 wrapper (what argparse returns is the record
    [args]); what cmake changes in the lock file while the wrapper runs; tooltips, the construction of windows and the drawing of the
    visualizer; pybindgen and pygccxml, the wrappers that are registered with them
    by name only, and the generated modules; the figure of uavs_ag.py, the plots of
    graficos.py and graficos2.py (what the plots show is modelled, for the
    functions listed there) and the other scripts that plot with pandas or
    matplotlib. *)
From Stdlib Require Export ZArith Lia Sorted.
From stdpp Require Export base list numbers option sorting sets relations.

(** ** Results of Python computations

    A Python expression either produces a value or raises an exception.  The
    exception type is a parameter, because some functions raise exceptions
    that carry data. *)
Inductive res (E A : Type) : Type :=
  | Ok (a : A)
  | Raise (e : E).
Arguments Ok {E A} a.
Arguments Raise {E A} e.

(** The built-in exceptions that the modelled code can raise; [sys.exit(n)] is
    [SystemExit n]. *)
Inductive exn : Type :=
  | KeyError | IndexError | ValueError | TypeError | AttributeError
  | NameError | UnboundLocalError | ZeroDivisionError | GenericException
  | OSError | OverflowError | StopIteration | AssertionError | RuntimeError
  | SystemExit (code : Z).

#[export] Instance exn_eq_dec : EqDecision exn.
Proof. solve_decision. Defined.

#[export] Instance res_eq_dec {E A} `{EqDecision E, EqDecision A} :
  EqDecision (res E A).
Proof. solve_decision. Defined.

#[export] Instance res_ret {E} : MRet (res E) := fun A a => Ok a.
#[export] Instance res_bind {E} : MBind (res E) := fun A B f m =>
  match m with Ok a => f a | Raise e => Raise e end.
#[export] Instance res_fmap {E} : FMap (res E) := fun A B f m =>
  match m with Ok a => Ok (f a) | Raise e => Raise e end.

Definition is_ok {E A} (r : res E A) : bool :=
  match r with Ok _ => true | Raise _ => false end.

(** Lift an option into a result. *)
Definition res_of_option {E A} (e : E) (o : option A) : res E A :=
  match o with Some a => Ok a | None => Raise e end.

(** The two development-wide databases: [py] holds facts used by [eauto],
    [pyrw] equations used by [autorewrite]. *)
Create HintDb py discriminated.
Create Rewrite HintDb pyrw.

Section res_laws.
Context {E : Type}.

Lemma bind_ok_inv {A B} (m : res E A) (f : A → res E B) b :
  m ≫= f = Ok b → ∃ a, m = Ok a ∧ f a = Ok b.
Proof. destruct m; cbn; [eauto|discriminate]. Qed.

Lemma fmap_ok_inv {A B} (m : res E A) (f : A → B) b :
  f <$> m = Ok b → ∃ a, m = Ok a ∧ b = f a.
Proof. destruct m; cbn; intros; simplify_eq; eauto. Qed.

Lemma res_of_option_ok {A} (e : E) (o : option A) a :
  res_of_option e o = Ok a ↔ o = Some a.
Proof. destruct o; cbn; split; intros; simplify_eq; done. Qed.

(** A loop over a list that threads a state and may raise. *)
Fixpoint fold_res {A S} (f : S → A → res E S) (s : S) (l : list A) : res E S :=
  match l with
  | [] => Ok s
  | x :: l => match f s x with Ok s' => fold_res f s' l | Raise e => Raise e end
  end.

Lemma fold_res_app {A S} (f : S → A → res E S) s l1 l2 :
  fold_res f s (l1 ++ l2) = fold_res f s l1 ≫= λ s', fold_res f s' l2.
Proof.
  revert s; induction l1 as [|x l1 IH]; intros s; cbn; [done|].
  destruct (f s x); [apply IH|done].
Qed.

(** The rule of the loop: an invariant indexed by the elements already seen
    and those still to come. *)
Lemma fold_res_inv {A S} (f : S → A → res E S) (I : list A → list A → S → Prop) :
  (∀ pre x post s, I pre (x :: post) s →
     ∃ s', f s x = Ok s' ∧ I (pre ++ [x]) post s') →
  ∀ l pre s, I pre l s → ∃ s', fold_res f s l = Ok s' ∧ I (pre ++ l) [] s'.
Proof.
  intros Hstep l; induction l as [|x l IH]; intros pre s HI; cbn.
  - exists s. by rewrite app_nil_r.
  - destruct (Hstep _ _ _ _ HI) as (s' & -> & HI').
    destruct (IH _ _ HI') as (s'' & -> & HI''). exists s''.
    by rewrite <-app_assoc in HI''.
Qed.
End res_laws.

(** A closed decidable statement, by evaluating its decision. *)
Ltac by_decision := apply (bool_decide_unpack _); vm_compute; exact I.

(** Step through one monadic bind of a hypothesis. *)
Ltac res_inv :=
  repeat match goal with
  | H : _ ≫= _ = Ok _ |- _ => apply bind_ok_inv in H as (? & ? & ?)
  | H : _ <$> _ = Ok _ |- _ => apply fmap_ok_inv in H as (? & ? & ?)
  | H : res_of_option _ _ = Ok _ |- _ => apply res_of_option_ok in H
  | H : Ok _ = Ok _ |- _ => injection H as H
  | H : Raise _ = Ok _ |- _ => discriminate H
  | H : Ok _ = Raise _ |- _ => discriminate H
  end; simplify_eq.

(** ** Collecting results *)

Fixpoint mapM_res {E A B} (f : A → res E B) (l : list A) : res E (list B) :=
  match l with
  | [] => Ok []
  | x :: l => y ← f x; ys ← mapM_res f l; mret (y :: ys)
  end.

Lemma mapM_res_app {E A B} (f : A → res E B) l1 l2 ys :
  mapM_res f (l1 ++ l2) = Ok ys →
  ∃ y1 y2, mapM_res f l1 = Ok y1 ∧ mapM_res f l2 = Ok y2 ∧ ys = y1 ++ y2.
Proof.
  revert ys. induction l1 as [|x l1 IH]; intros ys; cbn; [eauto|].
  intros (y & Hy & (zs & Hzs & [= <-])%bind_ok_inv)%bind_ok_inv.
  apply IH in Hzs as (y1 & y2 & H1 & H2 & ->). exists (y :: y1), y2.
  cbn. by rewrite Hy, H1.
Qed.
Lemma mapM_res_snoc {E A B} (f : A → res E B) l x ys y :
  mapM_res f l = Ok ys → f x = Ok y → mapM_res f (l ++ [x]) = Ok (ys ++ [y]).
Proof.
  revert ys. induction l as [|z l IH]; intros ys; cbn.
  - intros [= <-] Hx. cbn. by rewrite Hx.
  - intros (w & Hw & (ws & Hws & [= <-])%bind_ok_inv)%bind_ok_inv Hx. cbn.
    by rewrite Hw, (IH _ Hws Hx).
Qed.
Lemma mapM_res_length {E A B} (f : A → res E B) l ys : mapM_res f l = Ok ys → length ys = length l.
Proof.
  revert ys. induction l as [|x l IH]; intros ys; cbn; [by intros [= <-]|].
  intros (y & Hy & (zs & Hzs & [= <-])%bind_ok_inv)%bind_ok_inv. cbn. f_equal. by apply IH.
Qed.
Lemma mapM_res_fmap {E A B} (f : A → res E B) g l :
  (∀ x, x ∈ l → f x = Ok (g x)) → mapM_res f l = Ok (g <$> l).
Proof.
  induction l as [|x l IH]; intros Hl; cbn; [done|].
  rewrite Hl by set_solver. cbn. rewrite IH by set_solver. done.
Qed.

Lemma mapM_res_pointwise {E A B} (f : A → res E B) (P : nat → A → B → Prop) l :
  (∀ i x, l !! i = Some x → ∃ y, f x = Ok y ∧ P i x y) →
  ∃ ys, mapM_res f l = Ok ys ∧ ∀ i x, l !! i = Some x → ∃ y, ys !! i = Some y ∧ P i x y.
Proof.
  revert P. induction l as [|x l IH]; intros P Hl; cbn [mapM_res]; [by exists []|].
  destruct (Hl 0%nat x eq_refl) as (y & Hy & HP). destruct (IH (λ i, P (S i))) as (ys & Hys & HPs).
  { intros i z Hi. by apply (Hl (S i)). }
  exists (y :: ys). rewrite Hy, Hys. split; [done|]. intros [|i] z Hz; [|by apply HPs].
  cbn in Hz. injection Hz as <-. by exists y.
Qed.
Lemma mapM_res_elem {E A B} (f : A → res E B) l ys y :
  mapM_res f l = Ok ys → y ∈ ys → ∃ x, x ∈ l ∧ f x = Ok y.
Proof.
  revert ys. induction l as [|x l IH]; intros ys; cbn; [by intros [= <-] ?%elem_of_nil|].
  intros (z & Hz & (zs & Hzs & [= <-])%bind_ok_inv)%bind_ok_inv [->|Hy]%elem_of_cons.
  - exists x. split; [left|done].
  - destruct (IH zs Hzs Hy) as (x' & ? & ?). exists x'. split; [by right|done].
Qed.

(** A loop that first reads each element: the values can be read before it. *)
Lemma fold_res_mapM {E A B S} (f : A → res E B) (h : S → A → res E S) (k : S → B → res E S) s l ys :
  (∀ s x y, f x = Ok y → h s x = k s y) → mapM_res f l = Ok ys → fold_res h s l = fold_res k s ys.
Proof.
  intros Hh. revert s ys. induction l as [|x l IH]; intros s ys; cbn; [by intros [= <-]|].
  intros (y & Hy & (zs & Hzs & [= <-])%bind_ok_inv)%bind_ok_inv. rewrite (Hh _ _ _ Hy). cbn.
  destruct (k s y); cbn; [by apply IH|done].
Qed.
Lemma fold_res_concat {E A S} (k : S → A → res E S) s ls :
  fold_res (fold_res k) s ls = fold_res k s (concat ls).
Proof.
  revert s. induction ls as [|l ls IH]; intros s; cbn; [done|]. rewrite fold_res_app.
  destruct (fold_res k s l); cbn; [apply IH|done].
Qed.

(** ** Stateful computations

    A computation over a state [S]: an exception keeps the effects that came
    before it. *)
Definition stm (S A : Type) : Type := S → res exn A * S.

#[export] Instance stm_ret {S} : MRet (stm S) := fun A a s => (Ok a, s).
#[export] Instance stm_bind {S} : MBind (stm S) := fun A B f m s =>
  match m s with
  | (Ok a, s) => f a s
  | (Raise e, s) => (Raise e, s)
  end.

Definition st_get {S} : stm S S := fun s => (Ok s, s).
Definition st_put {S} (s : S) : stm S unit := fun _ => (Ok tt, s).
Definition st_modify {S} (f : S → S) : stm S unit := fun s => (Ok tt, f s).
Definition st_raise {S A} (e : exn) : stm S A := fun s => (Raise e, s).
Definition st_lift {S A} (r : res exn A) : stm S A := fun s => (r, s).
Definition st_when {S} (b : bool) (m : stm S unit) : stm S unit := if b then m else mret tt.

(** A [for] loop run for its effects, and one that collects values. *)
Fixpoint st_for {S A} (f : A → stm S unit) (l : list A) : stm S unit :=
  match l with
  | [] => mret tt
  | x :: l => _ ← f x; st_for f l
  end.
Fixpoint st_map {S A B} (f : A → stm S B) (l : list A) : stm S (list B) :=
  match l with
  | [] => mret []
  | x :: l => y ← f x; ys ← st_map f l; mret (y :: ys)
  end.

(** A loop that threads a local value besides the state. *)
Fixpoint st_fold {S A B} (f : B → A → stm S B) (b : B) (l : list A) : stm S B :=
  match l with
  | [] => mret b
  | x :: l => b ← f b x; st_fold f b l
  end.

Lemma stm_bind_ok {S A B} (m : stm S A) (f : A → stm S B) s b s' :
  (m ≫= f) s = (Ok b, s') ↔ ∃ a s1, m s = (Ok a, s1) ∧ f a s1 = (Ok b, s').
Proof.
  unfold mbind, stm_bind. destruct (m s) as [[a|e] s1]; split; intros Hm.
  - eauto.
  - destruct Hm as (? & ? & ? & ?). by simplify_eq.
  - done.
  - destruct Hm as (? & ? & ? & ?). by simplify_eq.
Qed.

Lemma st_bind_step {S A B} (m : stm S A) (f : A → stm S B) s a s1 :
  m s = (Ok a, s1) → (m ≫= f) s = f a s1.
Proof. intros Hm. unfold mbind, stm_bind. by rewrite Hm. Qed.

Lemma st_bind_raise {S A B} (m : stm S A) (f : A → stm S B) s e s1 :
  m s = (Raise e, s1) → (m ≫= f) s = (Raise e, s1).
Proof. intros Hm. unfold mbind, stm_bind. by rewrite Hm. Qed.

(** The rules of the loops: an invariant on the local value and the state that
    every pass keeps without raising. *)
Lemma st_fold_inv {S A B} (f : B → A → stm S B) (I : B → S → Prop) l :
  (∀ b x s, x ∈ l → I b s → ∃ b' s', f b x s = (Ok b', s') ∧ I b' s') →
  ∀ b s, I b s → ∃ b' s', st_fold f b l s = (Ok b', s') ∧ I b' s'.
Proof.
  induction l as [|x l IH]; intros Hf b s HI; cbn; [by exists b, s|].
  destruct (Hf b x s) as (b' & s' & Hx & HI'); [by left|done|].
  rewrite (st_bind_step _ _ _ _ _ Hx). apply IH; [|done]. intros; apply Hf; [by right|done].
Qed.
Lemma st_for_inv {S A} (f : A → stm S unit) (I : S → Prop) l :
  (∀ x s, x ∈ l → I s → ∃ s', f x s = (Ok tt, s') ∧ I s') →
  ∀ s, I s → ∃ s', st_for f l s = (Ok tt, s') ∧ I s'.
Proof.
  induction l as [|x l IH]; intros Hf s HI; cbn; [by exists s|].
  destruct (Hf x s) as (s' & Hx & HI'); [by left|done|].
  rewrite (st_bind_step _ _ _ _ _ Hx). apply IH; [|done]. intros; apply Hf; [by right|done].
Qed.
Lemma st_for_app {S A} (f : A → stm S unit) l1 l2 s :
  st_for f (l1 ++ l2) s = (_ ← st_for f l1; st_for f l2) s.
Proof.
  unfold mbind, stm_bind. revert s. induction l1 as [|x l1 IH]; intros s; cbn; [done|].
  unfold mbind, stm_bind. destruct (f x s) as [[[]|e] s1]; [|done]. by rewrite IH.
Qed.
Lemma st_fold_app {S A B} (f : B → A → stm S B) b l1 l2 s :
  st_fold f b (l1 ++ l2) s = (b ← st_fold f b l1; st_fold f b l2) s.
Proof.
  unfold mbind, stm_bind. revert b s. induction l1 as [|x l1 IH]; intros b s; cbn; [done|].
  unfold mbind, stm_bind. destruct (f b x s) as [[b'|e] s1]; [apply IH|done].
Qed.
(** The collecting loop: [I] holds of the values so far. *)
Lemma st_map_inv {S A B} (f : A → stm S B) (I : list B → S → Prop) l :
  (∀ ys x s, x ∈ l → I ys s → ∃ y s', f x s = (Ok y, s') ∧ I (ys ++ [y]) s') →
  ∀ ys s, I ys s → ∃ zs s', st_map f l s = (Ok zs, s') ∧ length zs = length l ∧ I (ys ++ zs) s'.
Proof.
  induction l as [|x l IH]; intros Hf ys s HI; cbn.
  - exists [], s. by rewrite app_nil_r.
  - destruct (Hf ys x s) as (y & s' & Hx & HI'); [by left|done|].
    destruct (IH ltac:(intros; apply Hf; [by right|done]) (ys ++ [y]) s' HI') as (zs & s'' & Hz & Hl & HI'').
    exists (y :: zs), s''. rewrite (st_bind_step _ _ _ _ _ Hx), (st_bind_step _ _ _ _ _ Hz).
    cbn. split_and!; [done|by f_equal|]. by rewrite <-app_assoc in HI''.
Qed.
(** A collecting loop that only reads. *)
Lemma st_map_read {S A B} (f : A → stm S B) (g : A → B) l s :
  (∀ x, x ∈ l → f x s = (Ok (g x), s)) → st_map f l s = (Ok (g <$> l), s).
Proof.
  induction l as [|x l IH]; intros Hf; cbn; [done|].
  rewrite (st_bind_step _ _ _ _ _ (Hf x ltac:(by left))).
  rewrite (st_bind_step _ _ _ _ _ (IH ltac:(intros; apply Hf; by right))). done.
Qed.

(** ** Python lists: indices and slices *)

(** [l[i]] for an integer [i]: negative indices count from the end. *)
Definition py_index {A} (l : list A) (i : Z) : option nat :=
  let n := Z.of_nat (length l) in
  if (0 <=? i)%Z && (i <? n)%Z then Some (Z.to_nat i)
  else if (i <? 0)%Z && (- n <=? i)%Z then Some (Z.to_nat (i + n))
  else None.

Definition py_get {A} (l : list A) (i : Z) : option A :=
  j ← py_index l i; l !! j.

(** The position a slice bound denotes in a list of length [n]. *)
Definition slice_pos (n : nat) (i : Z) : nat :=
  if (i <? 0)%Z then Z.to_nat (i + Z.of_nat n) else Nat.min (Z.to_nat i) n.

(** [l[a:b]] *)
Definition py_slice {A} (l : list A) (a b : Z) : list A :=
  let a' := slice_pos (length l) a in
  let b' := slice_pos (length l) b in
  take (b' - a') (drop a' l).

(** [l[:b]] and [l[a:]] *)
Definition py_slice_to {A} (l : list A) (b : Z) : list A :=
  take (slice_pos (length l) b) l.
Definition py_slice_from {A} (l : list A) (a : Z) : list A :=
  drop (slice_pos (length l) a) l.

Lemma py_slice_nat {A} (l : list A) (a b : nat) :
  (a ≤ b)%nat → (b ≤ length l)%nat →
  py_slice l (Z.of_nat a) (Z.of_nat b) = take (b - a) (drop a l).
Proof.
  intros Hab Hb. unfold py_slice, slice_pos.
  rewrite !(proj2 (Z.ltb_ge _ _)) by lia.
  rewrite !Nat2Z.id. by rewrite !Nat.min_l by lia.
Qed.

Lemma py_get_nat {A} (l : list A) (i : nat) : py_get l (Z.of_nat i) = l !! i.
Proof.
  unfold py_get, py_index.
  destruct (decide (i < length l)%nat) as [Hi|Hi].
  - rewrite (proj2 (Z.leb_le _ _)), (proj2 (Z.ltb_lt _ _)) by lia. cbn.
    by rewrite Nat2Z.id.
  - rewrite (proj2 (Z.ltb_ge (Z.of_nat i) (Z.of_nat (length l)))) by lia.
    rewrite andb_false_r, (proj2 (Z.ltb_ge (Z.of_nat i) 0)) by lia. cbn.
    symmetry. apply lookup_ge_None_2. lia.
Qed.

Lemma py_get_last {A} (l : list A) : py_get l (-1) = last l.
Proof.
  unfold py_get, py_index. rewrite last_lookup.
  destruct l as [|x l]; [done|]. cbn [length].
  rewrite (proj2 (Z.leb_gt 0 (-1))) by lia. cbn [andb].
  rewrite (proj2 (Z.ltb_lt (-1) 0)), (proj2 (Z.leb_le _ (-1))) by lia. cbn [andb].
  replace (Z.to_nat (-1 + Z.of_nat (S (length l)))) with (length l) by lia. done.
Qed.
#[export] Hint Rewrite @py_get_nat @py_get_last : pyrw.

(** ** Occurrence counting and order of occurrence *)
Section occ.
Context {A : Type} `{EqDecision A}.

(** Number of occurrences of [x] in [l]. *)
Definition count (x : A) (l : list A) : nat := length (filter (x =.) l).

Lemma count_nil x : count x [] = 0%nat.
Proof. done. Qed.

Lemma count_cons x y l :
  count x (y :: l) = ((if decide (x = y) then 1 else 0) + count x l)%nat.
Proof. unfold count. rewrite filter_cons. by case_decide. Qed.

Lemma count_app x l1 l2 : count x (l1 ++ l2) = (count x l1 + count x l2)%nat.
Proof. unfold count. by rewrite filter_app, length_app. Qed.

Lemma count_pos x l : x ∈ l ↔ (0 < count x l)%nat.
Proof.
  induction l as [|y l IH].
  - split; [by intros ?%elem_of_nil|cbn; lia].
  - rewrite elem_of_cons, count_cons, IH. case_decide; subst; split; intros; auto with lia.
    destruct H0; [done|lia].
Qed.

Lemma count_0 x l : x ∉ l ↔ count x l = 0%nat.
Proof. rewrite count_pos. lia. Qed.

Lemma count_perm l k : (∀ x, count x l = count x k) → l ≡ₚ k.
Proof.
  revert k. induction l as [|x l IH]; intros k Hk.
  - destruct k as [|y k]; [done|]. specialize (Hk y).
    rewrite count_nil, count_cons, decide_True in Hk by done. lia.
  - assert (x ∈ k) as (k1 & k2 & ->)%list_elem_of_split.
    { apply count_pos. rewrite <-Hk, count_cons, decide_True by done. lia. }
    rewrite <-Permutation_middle. f_equiv. apply IH. intros y. specialize (Hk y).
    rewrite count_app, !count_cons in Hk. rewrite count_app. lia.
Qed.

(** [before l x y]: [l] splits at an occurrence of [x] with [y] after it and
    [y] not before it. *)
Definition before (l : list A) (x y : A) : Prop :=
  ∃ l1 l2, l = l1 ++ x :: l2 ∧ y ∈ l2 ∧ y ∉ l1.

Lemma before_snoc_r l x y :
  x ∈ l → y ∉ l → before (l ++ [y]) x y.
Proof.
  intros (l1 & l2 & ->)%list_elem_of_split Hy.
  exists l1, (l2 ++ [y]). rewrite <-app_assoc. cbn. split; [done|].
  rewrite elem_of_app, list_elem_of_singleton. set_solver.
Qed.

Lemma before_app l l' x y : before l x y → before (l ++ l') x y.
Proof.
  intros (l1 & l2 & -> & ? & ?). exists l1, (l2 ++ l').
  rewrite <-app_assoc. cbn. set_solver.
Qed.

(** In a list without duplicates [before] is a strict order on positions. *)
Lemma before_lookup l x y :
  NoDup l → before l x y ↔ ∃ i j, l !! i = Some x ∧ l !! j = Some y ∧ (i < j)%nat.
Proof.
  intros Hnd. split.
  - intros (l1 & l2 & -> & [j Hj]%list_elem_of_lookup & Hy1).
    exists (length l1), (length l1 + S j)%nat. repeat split; [|..|lia].
    + by apply list_lookup_middle.
    + rewrite lookup_app_r by lia.
      by replace (length l1 + S j - length l1)%nat with (S j) by lia.
  - intros (i & j & Hi & Hj & Hij).
    exists (take i l), (drop (S i) l). split_and!.
    + by rewrite take_drop_middle.
    + apply list_elem_of_lookup. exists (j - S i)%nat. rewrite lookup_drop.
      by replace (S i + (j - S i))%nat with j by lia.
    + intros [k Hk]%list_elem_of_lookup.
      assert (k < i)%nat by (apply lookup_lt_Some in Hk; rewrite length_take in Hk; lia).
      rewrite lookup_take_lt in Hk by done.
      pose proof (NoDup_lookup _ _ _ _ Hnd Hk Hj). lia.
Qed.
End occ.
#[export] Hint Rewrite @count_nil @count_cons @count_app : pyrw.

(** ** Finite graphs *)
Section graphs.
Context {A : Type} `{EqDecision A} (R : relation A).

(** Consecutive elements are related. *)
Fixpoint chained (l : list A) : Prop :=
  match l with
  | x :: (y :: _) as rest => R x y ∧ chained rest
  | _ => True
  end.

Lemma chained_cons x l : chained (x :: l) ↔ (∀ y, head l = Some y → R x y) ∧ chained l.
Proof.
  destruct l as [|y l]; cbn; [by split|]. split; [intros [? ?]; split; [|done]; naive_solver|].
  intros [HR ?]. auto.
Qed.

Lemma chained_app l1 l2 :
  chained (l1 ++ l2) ↔
  chained l1 ∧ chained l2 ∧ (∀ x y, last l1 = Some x → head l2 = Some y → R x y).
Proof.
  induction l1 as [|x [|x' l1] IH].
  - cbn. split; [intros; split_and!; [done|done|naive_solver]|tauto].
  - change ([x] ++ l2) with (x :: l2). rewrite chained_cons. cbn. split.
    + intros [HR ?]. split_and!; [done..|]. intros ? y [= <-]. apply HR.
    + intros (_ & ? & HR). split; [|done]. intros y. by apply HR.
  - change ((x :: x' :: l1) ++ l2) with (x :: x' :: (l1 ++ l2)).
    change (chained (x :: x' :: l1 ++ l2)) with (R x x' ∧ chained ((x' :: l1) ++ l2)).
    rewrite IH. change (last (x :: x' :: l1)) with (last (x' :: l1)). cbn [chained]. tauto.
Qed.

Lemma chained_snoc l x : chained (l ++ [x]) ↔ chained l ∧ ∀ y, last l = Some y → R y x.
Proof. rewrite chained_app. cbn. naive_solver. Qed.

Lemma chained_tc l i j x y :
  chained l → l !! i = Some x → l !! j = Some y → (i < j)%nat → tc R x y.
Proof.
  revert i j x. induction l as [|z l IH]; intros i j x Hc Hi Hj Hij; [done|].
  apply chained_cons in Hc as [HR Hc]. destruct j as [|j]; [lia|]. cbn in Hj.
  destruct i as [|i]; [|apply (IH i j x); auto; lia]. injection Hi as ->.
  destruct l as [|w l]; [done|]. destruct j as [|j].
  - injection Hj as ->. apply tc_once. by apply HR.
  - apply (tc_l _ _ w); [by apply HR|]. apply (IH 0%nat (S j) w); auto; lia.
Qed.

(** A non-empty finite set in which everything has a predecessor holds a
    cycle. *)
Lemma serial_cycle (S : list A) :
  S ≠ [] → (∀ x, x ∈ S → ∃ y, y ∈ S ∧ R y x) → ∃ x, x ∈ S ∧ tc R x x.
Proof.
  intros Hne Hser.
  assert (∀ n, ∃ l, length l = n ∧ l ⊆ S ∧ chained l) as Hpath.
  { intros n. induction n as [|n (l & Hl & HlS & Hc)].
    - exists []. split_and!; [done|set_solver|done].
    - assert (∃ y, y ∈ S ∧ ∀ x, head l = Some x → R y x) as (y & Hy & HR).
      { destruct l as [|x l]; cbn.
        - destruct S as [|s S']; [done|]. exists s. split; [by left|done].
        - destruct (Hser x) as (y & Hy & HR); [apply HlS; by left|].
          exists y. split; [done|]. by intros ? [= <-]. }
      exists (y :: l). split_and!; [cbn; lia|set_solver|by apply chained_cons]. }
  destruct (Hpath (Datatypes.S (length S))) as (l & Hl & HlS & Hc).
  destruct (decide (NoDup l)) as [Hnd|Hnd].
  { exfalso. apply (NoDup_submseteq _ S) in Hnd; [|intros x Hx; by apply HlS].
    apply submseteq_length in Hnd. lia. }
  assert (∃ i j x, (i < j)%nat ∧ l !! i = Some x ∧ l !! j = Some x) as (i & j & x & Hij & Hi & Hj).
  { clear -Hnd EqDecision0. induction l as [|y l IH]; [destruct Hnd; constructor|].
    destruct (decide (y ∈ l)) as [[j Hj]%list_elem_of_lookup|Hy].
    - exists 0%nat, (Datatypes.S j), y. split_and!; [lia|done..].
    - destruct IH as (i & j & x & ? & ? & ?).
      { intros Hl. apply Hnd. by apply NoDup_cons. }
      exists (Datatypes.S i), (Datatypes.S j), x. split_and!; [lia|done..]. }
  exists x. split; [apply HlS; by apply list_elem_of_lookup_2 in Hi|].
  by apply (chained_tc l i j).
Qed.
End graphs.
