(* ===== verification/PyStr.v ===== *)
(** * Python strings

    Byte strings as lists of characters, with the operations of [str] that the
    modelled code uses: splitting, joining, stripping, substring tests, and the
    conversions between integers and digit strings.  [str] lifts a literal. *)
From Stdlib Require Import Ascii.
From stdpp Require Export strings.
From S2P Require Export Prelude.
Open Scope Z_scope.

Abbreviation pystr := (list ascii).

(** A string literal as a list of characters. *)
Definition str (s : string) : pystr := String.list_ascii_of_string s.
Arguments str s%_string.

(** ** Tests *)

Fixpoint startswith (p s : pystr) : bool :=
  match p, s with
  | [], _ => true
  | a :: p, b :: s => bool_decide (a = b) && startswith p s
  | _ :: _, [] => false
  end.

Definition endswith (p s : pystr) : bool := startswith (rev p) (rev s).

(** [p in s] *)
Fixpoint contains (p s : pystr) : bool :=
  startswith p s || match s with [] => false | _ :: s => contains p s end.

Lemma startswith_spec p s : startswith p s = true ↔ ∃ t, s = p ++ t.
Proof.
  revert s; induction p as [|a p IH]; intros s; cbn; [split; eauto|].
  destruct s as [|b s]; [by split; [|intros [? [=]]]|].
  rewrite andb_true_iff, bool_decide_eq_true, IH. split.
  - intros [-> [t ->]]. by exists t.
  - intros [t [= -> ->]]. eauto.
Qed.

Lemma contains_char c s : contains [c] s = bool_decide (c ∈ s).
Proof.
  induction s as [|a s IH]; cbn; [done|]. rewrite IH.
  apply Bool.eq_iff_eq_true. rewrite orb_true_iff, andb_true_r, !bool_decide_eq_true, elem_of_cons.
  done.
Qed.

Lemma startswith_app p t : startswith p (p ++ t) = true.
Proof. apply startswith_spec. eauto. Qed.

Lemma contains_spec p s : contains p s = true ↔ ∃ u v, s = u ++ p ++ v.
Proof.
  induction s as [|b s IH].
  - unfold contains. rewrite orb_false_r, startswith_spec. split.
    + intros [t ->]. by exists [], t.
    + intros (u & v & H). symmetry in H. apply app_nil in H as [-> H]. eauto.
  - cbn [contains]. rewrite orb_true_iff, IH, startswith_spec. split.
    + intros [[t ->]|(u & v & ->)]; [by exists [], t|by exists (b :: u), v].
    + intros ([|c u] & v & H); cbn in H; [eauto|]. injection H as -> ->. eauto.
Qed.

(** ** Splitting and joining *)

(** [s.split(c)] *)
Fixpoint split_char (c : ascii) (s : pystr) : list pystr :=
  match s with
  | [] => [[]]
  | a :: s =>
      if decide (a = c) then [] :: split_char c s
      else match split_char c s with
           | w :: ws => (a :: w) :: ws
           | [] => [[a]]
           end
  end.

(** The two halves around the first [c], if there is one: [s.split(c, 1)]. *)
Fixpoint split_once (c : ascii) (s : pystr) : option (pystr * pystr) :=
  match s with
  | [] => None
  | a :: s =>
      if decide (a = c) then Some ([], s)
      else '(l, r) ← split_once c s; Some (a :: l, r)
  end.

(** [sep.join(ws)] *)
Fixpoint join (sep : pystr) (ws : list pystr) : pystr :=
  match ws with
  | [] => []
  | [w] => w
  | w :: ws => w ++ sep ++ join sep ws
  end.

Lemma split_char_nonnil c s : split_char c s ≠ [].
Proof. destruct s; cbn; [done|]. case_decide; [done|]. by case_match. Qed.

Lemma join_split_char c s : join [c] (split_char c s) = s.
Proof.
  induction s as [|a s IH]; [done|]. cbn.
  pose proof (split_char_nonnil c s). case_decide as Ha.
  - subst. destruct (split_char c s) eqn:E; [done|]. cbn. by rewrite <-IH.
  - destruct (split_char c s) as [|w [|w' ws]] eqn:E; [done|..]; cbn in *; by rewrite <-IH.
Qed.

Lemma split_char_no c s : c ∉ s → split_char c s = [s].
Proof.
  induction s as [|a s IH]; intros Hc; [done|]. cbn. apply not_elem_of_cons in Hc as [? ?].
  rewrite decide_False by done. by rewrite IH.
Qed.

Lemma split_char_app c s t : c ∉ s → split_char c (s ++ c :: t) = s :: split_char c t.
Proof.
  induction s as [|a s IH]; intros Hc; cbn; [by rewrite decide_True|].
  apply not_elem_of_cons in Hc as [? ?]. rewrite decide_False by done. by rewrite IH.
Qed.

Lemma split_char_app_sep c s t : split_char c (s ++ c :: t) = split_char c s ++ split_char c t.
Proof.
  induction s as [|a s IH]; cbn; [by rewrite decide_True|]. rewrite IH. case_decide; [done|].
  by destruct (split_char c s) eqn:E; [apply split_char_nonnil in E|].
Qed.

Lemma split_char_has_no c s : Forall (λ w, c ∉ w) (split_char c s).
Proof.
  induction s as [|a s IH]; cbn.
  - apply Forall_singleton, not_elem_of_nil.
  - case_decide; [constructor; [apply not_elem_of_nil|done]|].
    destruct IH as [|w ws Hw Hws]; constructor; try done; [|].
    + by apply not_elem_of_cons; split; [congruence|apply not_elem_of_nil].
    + by apply not_elem_of_cons; split; [congruence|].
Qed.

Lemma split_char_inj c s t : split_char c s = split_char c t → s = t.
Proof. intros H. by rewrite <-(join_split_char c s), H, join_split_char. Qed.

(** Splitting undoes joining when no field holds the separator. *)
Lemma split_char_join c ws :
  ws ≠ [] → Forall (λ w, c ∉ w) ws → split_char c (join [c] ws) = ws.
Proof.
  intros Hne Hall. induction Hall as [|w ws Hw Hall IH]; [done|].
  destruct ws as [|w' ws]; [by apply split_char_no|].
  change (join [c] (w :: w' :: ws)) with (w ++ c :: join [c] (w' :: ws)).
  rewrite split_char_app by done. by rewrite IH.
Qed.

Lemma split_once_spec c s l r :
  split_once c s = Some (l, r) ↔ s = l ++ c :: r ∧ c ∉ l.
Proof.
  revert l; induction s as [|a s IH]; intros l; cbn.
  - split; [done|]. intros [H _]. by destruct l.
  - case_decide as Ha.
    + subst. split; [intros; simplify_eq; split; [done|apply not_elem_of_nil]|].
      intros [H Hc]. destruct l as [|b l]; cbn in H; simplify_eq; [done|].
      by apply not_elem_of_cons in Hc as [? _].
    + destruct (split_once c s) as [[l' r']|] eqn:E; cbn; split.
      * intros; simplify_eq. destruct (proj1 (IH l') eq_refl) as [-> ?].
        split; [done|]. apply not_elem_of_cons; auto.
      * intros [H Hc]. destruct l as [|b l]; cbn in H; simplify_eq.
        apply not_elem_of_cons in Hc as [_ Hc].
        pose proof (proj2 (IH l) (conj eq_refl Hc)). by simplify_eq.
      * done.
      * intros [H Hc]. destruct l as [|b l]; cbn in H; simplify_eq.
        apply not_elem_of_cons in Hc as [_ Hc].
        by specialize (proj2 (IH l) (conj eq_refl Hc)).
Qed.

Lemma split_once_None c s : split_once c s = None ↔ c ∉ s.
Proof.
  induction s as [|a s IH]; cbn; [split; [intros; apply not_elem_of_nil|done]|].
  rewrite not_elem_of_cons. case_decide.
  - split; [done|]. intros [? _]. by subst.
  - destruct (split_once c s) as [[]|]; cbn; split; try done.
    + intros [_ Hc]. by apply IH in Hc.
    + intros _. split; [auto|]. by apply IH.
Qed.

(** ** Lines *)

Definition newline : ascii := "010"%char.

(** [f.readlines()]: the lines with their ends. *)
Fixpoint readlines (s : pystr) : list pystr :=
  match s with
  | [] => []
  | c :: s' =>
      if decide (c = newline) then [c] :: readlines s'
      else match readlines s' with
           | l :: ls => (c :: l) :: ls
           | [] => [[c]]
           end
  end.

(** ** Stripping *)

(** The characters [str.strip] removes. *)
Definition is_space (a : ascii) : bool :=
  let n := nat_of_ascii a in
  (n =? 32)%nat || ((9 <=? n)%nat && (n <=? 13)%nat).

Fixpoint lstrip (s : pystr) : pystr :=
  match s with
  | [] => []
  | a :: s' => if is_space a then lstrip s' else s
  end.

Definition strip (s : pystr) : pystr := rev (lstrip (rev (lstrip s))).

(** ** Digits and integers *)

(** The character of a digit below 16, in lower case. *)
Definition digit_char (d : Z) : ascii :=
  if d <? 10 then ascii_of_nat (48 + Z.to_nat d) else ascii_of_nat (87 + Z.to_nat d).

(** The value of a digit character, in any base up to 36. *)
Definition digit_of (a : ascii) : option Z :=
  let n := Z.of_nat (nat_of_ascii a) in
  if (48 <=? n) && (n <=? 57) then Some (n - 48)
  else if (97 <=? n) && (n <=? 122) then Some (n - 87)
  else if (65 <=? n) && (n <=? 90) then Some (n - 55)
  else None.

Definition is_digit_in (b : Z) (a : ascii) : bool :=
  match digit_of a with Some d => d <? b | None => false end.

(** The digits of [n >= 0] in base [b], most significant first, before [acc].
    [fuel] bounds the number of digits. *)
Fixpoint digits_go (b : Z) (fuel : nat) (n : Z) (acc : pystr) : pystr :=
  match fuel with
  | O => acc
  | S fuel =>
      let acc := digit_char (n mod b) :: acc in
      if n <? b then acc else digits_go b fuel (n / b) acc
  end.

Definition digits_fuel (n : Z) : nat := S (Z.to_nat (Z.log2 n)).

(** ['%d' % z] and [str(z)] in base 10; [digits 16] is the body of [hex]. *)
Definition digits (b n : Z) : pystr := digits_go b (digits_fuel n) n [].
Definition str_of_Z (z : Z) : pystr :=
  if z <? 0 then "-"%char :: digits 10 (- z) else digits 10 z.

(** The value of a digit string (characters that are not digits count 0). *)
Definition digits_val (b : Z) (s : pystr) : Z :=
  fold_left (λ acc a, b * acc + default 0 (digit_of a)) s 0.

(** [int(s, b)]: surrounding white space, an optional sign, at least one
    digit, and nothing else. *)
Definition py_int (b : Z) (s : pystr) : res exn Z :=
  let '(sgn, body) :=
    match strip s with
    | a :: t => if decide (a = "-"%char) then (-1, t)
                else if decide (a = "+"%char) then (1, t) else (1, a :: t)
    | [] => (1, [])
    end in
  match body with
  | [] => Raise ValueError
  | _ => if forallb (is_digit_in b) body then Ok (sgn * digits_val b body)
         else Raise ValueError
  end.

Lemma digit_of_char d : 0 <= d < 16 → digit_of (digit_char d) = Some d.
Proof.
  intros H. assert (d = 0 ∨ d = 1 ∨ d = 2 ∨ d = 3 ∨ d = 4 ∨ d = 5 ∨ d = 6 ∨ d = 7
    ∨ d = 8 ∨ d = 9 ∨ d = 10 ∨ d = 11 ∨ d = 12 ∨ d = 13 ∨ d = 14 ∨ d = 15) as Hd by lia.
  by repeat (destruct Hd as [->|Hd]; [reflexivity|]); subst.
Qed.

Lemma digits_val_cons b a s :
  digits_val b (a :: s) = default 0 (digit_of a) * b ^ Z.of_nat (length s) + digits_val b s.
Proof.
  unfold digits_val. cbn [fold_left].
  assert (∀ acc, fold_left (λ acc a, b * acc + default 0 (digit_of a)) s acc
    = acc * b ^ Z.of_nat (length s)
      + fold_left (λ acc a, b * acc + default 0 (digit_of a)) s 0) as Hgen.
  { induction s as [|a' s IH]; intros acc; cbn -[Z.of_nat]; [lia|].
    rewrite (IH (b * acc + _)), (IH (b * 0 + _)).
    rewrite Nat2Z.inj_succ, Z.pow_succ_r by lia. ring. }
  rewrite Hgen. f_equal. ring.
Qed.

Lemma digits_go_val b fuel n acc :
  1 < b <= 16 → 0 <= n < b ^ Z.of_nat fuel →
  digits_val b (digits_go b fuel n acc)
  = n * b ^ Z.of_nat (length acc) + digits_val b acc.
Proof.
  intros Hb. revert n acc. induction fuel as [|fuel IH]; intros n acc Hn.
  - change (Z.of_nat 0) with 0 in Hn. rewrite Z.pow_0_r in Hn. cbn [digits_go].
    assert (n = 0) as -> by lia. lia.
  - cbn [digits_go].
    pose proof (Z.mod_pos_bound n b ltac:(lia)).
    assert (default 0 (digit_of (digit_char (n mod b))) = n mod b) as Hd
      by (rewrite digit_of_char by lia; done).
    destruct (Z.ltb_spec n b).
    + rewrite digits_val_cons, Hd, Z.mod_small by lia. done.
    + rewrite Nat2Z.inj_succ, Z.pow_succ_r in Hn by lia. rewrite IH.
      * rewrite digits_val_cons, Hd. cbn [length].
        rewrite Nat2Z.inj_succ, Z.pow_succ_r by lia.
        rewrite (Z.div_mod n b) at 3 by lia. ring.
      * split; [apply Z.div_pos; lia|]. apply Z.div_lt_upper_bound; lia.
Qed.

Lemma digits_fuel_enough b n : 1 < b → 0 <= n → n < b ^ Z.of_nat (digits_fuel n).
Proof.
  intros Hb Hn. unfold digits_fuel.
  destruct (Z.eq_dec n 0) as [->|Hn0].
  { apply Z.pow_pos_nonneg; lia. }
  pose proof (Z.log2_spec n ltac:(lia)) as [_ Hlt]. pose proof (Z.log2_nonneg n).
  rewrite Nat2Z.inj_succ, Z2Nat.id by lia.
  eapply Z.lt_le_trans; [exact Hlt|]. apply Z.pow_le_mono_l; lia.
Qed.

(** Printing an integer and reading the digits back gives the integer. *)
Lemma digits_val_digits b n : 1 < b <= 16 → 0 <= n → digits_val b (digits b n) = n.
Proof.
  intros Hb Hn. unfold digits. rewrite digits_go_val; [cbn; lia|done|].
  split; [done|]. apply digits_fuel_enough; lia.
Qed.

(** The characters [digits] prints. *)
Definition base_char (b : Z) (a : ascii) : Prop := ∃ d, 0 <= d < b ∧ a = digit_char d.

Lemma digits_go_chars b fuel n acc :
  0 < b → Forall (base_char b) acc → Forall (base_char b) (digits_go b fuel n acc).
Proof.
  intros Hb. revert n acc. induction fuel as [|fuel IH]; intros n acc Hacc; [done|].
  cbn [digits_go].
  assert (Forall (base_char b) (digit_char (n mod b) :: acc)).
  { constructor; [|done]. exists (n mod b). split; [|done]. by apply Z.mod_pos_bound. }
  case_match; [done|]. by apply IH.
Qed.

Lemma digits_chars b n : 0 < b → Forall (base_char b) (digits b n).
Proof. intros. by apply digits_go_chars. Qed.

(** A decidable property of the sixteen digit characters, by enumeration. *)
Lemma base_char_forall (P : ascii → bool) b :
  b <= 16 → forallb (λ d, P (digit_char (Z.of_nat d))) (seq 0 16) = true →
  ∀ a, base_char b a → P a = true.
Proof.
  intros Hb HP a (d & Hd & ->). rewrite forallb_forall in HP.
  specialize (HP (Z.to_nat d)). rewrite Z2Nat.id in HP by lia. apply HP.
  apply in_seq. lia.
Qed.

Lemma base_char_digit_in b a : b <= 16 → base_char b a → is_digit_in b a = true.
Proof.
  intros Hb (d & Hd & ->). unfold is_digit_in. rewrite digit_of_char by lia.
  apply Z.ltb_lt. lia.
Qed.

Lemma base_char_not_space b a : b <= 16 → base_char b a → is_space a = false.
Proof.
  intros Hb Ha. apply negb_true_iff.
  by apply (base_char_forall (λ a, negb (is_space a)) b).
Qed.

Lemma digits_val_app b s t :
  digits_val b (s ++ t) = digits_val b s * b ^ Z.of_nat (length t) + digits_val b t.
Proof.
  induction s as [|a s IH]; cbn [app]; [by unfold digits_val at 2|].
  rewrite !digits_val_cons, IH, length_app, Nat2Z.inj_add, Z.pow_add_r by lia. ring.
Qed.

(** Stripping leaves a string alone when it holds no white space. *)
Lemma lstrip_spaces s t : Forall (λ a, is_space a = true) s → lstrip (s ++ t) = lstrip t.
Proof. induction 1 as [|a s Ha Hs IH]; [done|]. cbn. by rewrite Ha. Qed.
Lemma lstrip_id s : Forall (λ a, is_space a = false) s → lstrip s = s.
Proof. intros [|a t Ha Ht]; cbn; [done|]. by rewrite Ha. Qed.

Lemma strip_id s : Forall (λ a, is_space a = false) s → strip s = s.
Proof.
  intros Hs. unfold strip. rewrite (lstrip_id s) by done. rewrite lstrip_id.
  - apply rev_involutive.
  - by rewrite <-Permutation_rev.
Qed.

(** Reading a non-empty digit string. *)
Lemma digit_in_not_space b a : is_digit_in b a = true → is_space a = false.
Proof.
  unfold is_digit_in, digit_of, is_space. set (n := nat_of_ascii a). intros Hd.
  destruct ((48 <=? Z.of_nat n) && (Z.of_nat n <=? 57)) eqn:H1,
    ((97 <=? Z.of_nat n) && (Z.of_nat n <=? 122)) eqn:H2,
    ((65 <=? Z.of_nat n) && (Z.of_nat n <=? 90)) eqn:H3; try done;
    apply orb_false_iff; rewrite andb_false_iff, Nat.eqb_neq, !Nat.leb_gt; lia.
Qed.

Lemma py_int_digit_in b s :
  s ≠ [] → Forall (λ c, is_digit_in b c = true) s → py_int b s = Ok (digits_val b s).
Proof.
  intros Hne Hs. unfold py_int. rewrite strip_id.
  2:{ eapply Forall_impl; [exact Hs|]. intros a. by apply digit_in_not_space. }
  assert (forallb (is_digit_in b) s = true) as Hall.
  { apply forallb_forall. intros a Ha%list_elem_of_In. exact (proj1 (Forall_forall _ _) Hs a Ha). }
  destruct Hs as [|a t Ha Ht]; [done|].
  rewrite !decide_False by (intros ->; cbv in Ha; discriminate). rewrite Hall. f_equal. lia.
Qed.

Lemma py_int_digits b s :
  b <= 16 → s ≠ [] → Forall (base_char b) s → py_int b s = Ok (digits_val b s).
Proof.
  intros Hb Hne Hs. apply py_int_digit_in; [done|]. eapply Forall_impl; [exact Hs|].
  intros a. by apply base_char_digit_in.
Qed.

Lemma digits_go_nonnil b fuel n acc : acc ≠ [] → digits_go b fuel n acc ≠ [].
Proof.
  revert n acc. induction fuel as [|fuel IH]; intros n acc H; [done|]. cbn [digits_go].
  case_match; [done|]. by apply IH.
Qed.

Lemma digits_nonnil b n : digits b n ≠ [].
Proof.
  unfold digits, digits_fuel. cbn [digits_go].
  destruct (n <? b); [|apply digits_go_nonnil]; intros [=].
Qed.
