(* ===== verification/Dict.v ===== *)
(** * Python dictionaries

    [DictOps]/[DictLaws] is the interface the modelled code uses: lookup,
    assignment, [del], and iteration over the keys in some order.  The laws
    leave the iteration order open (it is arbitrary in Python 2), so what is
    proved against the interface holds for every order.  Two implementations
    discharge the laws: [PyDict], which keeps insertion order (the order of
    Python 3.7 and later), and stdpp's [gmap]. *)
From stdpp Require Import gmap.
From S2P Require Export Prelude.

(** ** The interface *)

Class DictOps (K : Type) (D : Type → Type) := {
  dempty : ∀ {V}, D V;
  dget : ∀ {V}, K → D V → option V;
  dset : ∀ {V}, K → V → D V → D V;
  ddel : ∀ {V}, K → D V → D V;
  dkeys : ∀ {V}, D V → list K;
}.

Class DictLaws (K : Type) (D : Type → Type) `{EqDecision K, DictOps K D} := {
  dget_empty {V} k : dget k (dempty : D V) = None;
  dget_set {V} k k' v (d : D V) :
    dget k (dset k' v d) = if decide (k = k') then Some v else dget k d;
  dget_del {V} k k' (d : D V) :
    dget k (ddel k' d) = if decide (k = k') then None else dget k d;
  dkeys_nodup {V} (d : D V) : NoDup (dkeys d);
  dkeys_spec {V} k (d : D V) : k ∈ dkeys d ↔ is_Some (dget k d);
}.

#[export] Hint Rewrite @dget_empty @dget_set @dget_del : pyrw.

Section derived.
Context {K : Type} {D : Type → Type} `{DictLaws K D}.

(** [d.has_key(k)] and [k in d] *)
Definition dhas {V} (k : K) (d : D V) : bool := bool_decide (is_Some (dget k d)).

(** [d[k]], which raises [KeyError] on an absent key; [d.get(k, v)]. *)
Definition dlookup {V} (k : K) (d : D V) : res exn V := res_of_option KeyError (dget k d).
Definition dget_or {V} (v : V) (k : K) (d : D V) : V := default v (dget k d).

(** [del d[k]] *)
Definition ddelete {V} (k : K) (d : D V) : res exn (D V) :=
  if dhas k d then Ok (ddel k d) else Raise KeyError.

(** Two dictionaries with the same bindings, whatever their key orders. *)
Definition dict_equiv {V} (d1 d2 : D V) : Prop := ∀ k, dget k d1 = dget k d2.

#[export] Instance dict_equiv_equiv {V} : Equivalence (dict_equiv (V:=V)).
Proof. split.
  - by intros d k.
  - by intros d1 d2 Hd k.
  - intros d1 d2 d3 H12 H23 k. by rewrite H12. Qed.

Lemma dhas_true {V} k (d : D V) : dhas k d = true ↔ is_Some (dget k d).
Proof. apply bool_decide_eq_true. Qed.
Lemma dhas_false {V} k (d : D V) : dhas k d = false ↔ dget k d = None.
Proof. unfold dhas. rewrite bool_decide_eq_false. by rewrite <-eq_None_not_Some. Qed.

Lemma dhas_keys {V} k (d : D V) : dhas k d = true ↔ k ∈ dkeys d.
Proof. by rewrite dhas_true, dkeys_spec. Qed.

Lemma dkeys_nil {V} (d : D V) : dkeys d = [] ↔ ∀ k, dget k d = None.
Proof.
  split.
  - intros Hd k. apply eq_None_not_Some. rewrite <-dkeys_spec, Hd. apply not_elem_of_nil.
  - intros Hd. apply elem_of_nil_inv. intros k. rewrite dkeys_spec, Hd. by intros [].
Qed.

(** Assignment and deletion respect the bindings, and the two orders agree up
    to permutation. *)
#[export] Instance dset_proper {V} :
  Proper (eq ==> eq ==> dict_equiv ==> dict_equiv (V:=V)) dset.
Proof. intros k ? <- v ? <- d1 d2 Hd k'. by rewrite !dget_set, Hd. Qed.
#[export] Instance ddel_proper {V} :
  Proper (eq ==> dict_equiv ==> dict_equiv (V:=V)) ddel.
Proof. intros k ? <- d1 d2 Hd k'. by rewrite !dget_del, Hd. Qed.

Lemma dkeys_perm {V} (d1 d2 : D V) : dict_equiv d1 d2 → dkeys d1 ≡ₚ dkeys d2.
Proof.
  intros Hd. apply NoDup_Permutation; [apply dkeys_nodup..|].
  intros k. by rewrite !dkeys_spec, Hd.
Qed.

Lemma dset_comm {V} k1 k2 (v1 v2 : V) d :
  k1 ≠ k2 → dict_equiv (dset k1 v1 (dset k2 v2 d)) (dset k2 v2 (dset k1 v1 d)).
Proof. intros Hne k. rewrite !dget_set. repeat case_decide; congruence. Qed.
End derived.

(** ** Insertion-ordered dictionaries *)

Section assoc.
Context {K : Type} `{EqDecision K} {V : Type}.

Fixpoint aget (k : K) (l : list (K * V)) : option V :=
  match l with
  | [] => None
  | (k', v) :: l => if decide (k = k') then Some v else aget k l
  end.

(** Assignment keeps the position of an existing key and appends a new one. *)
Fixpoint aset (k : K) (v : V) (l : list (K * V)) : list (K * V) :=
  match l with
  | [] => [(k, v)]
  | (k', v') :: l => if decide (k = k') then (k', v) :: l else (k', v') :: aset k v l
  end.

Definition adel (k : K) (l : list (K * V)) : list (K * V) :=
  filter (λ p, p.1 ≠ k) l.

Lemma aset_keys_elem k k' v l : k' ∈ (aset k v l).*1 ↔ k' = k ∨ k' ∈ l.*1.
Proof.
  induction l as [|[k1 v1] l IH]; cbn.
  - by rewrite list_elem_of_singleton, elem_of_nil; intuition.
  - case_decide; cbn; rewrite !elem_of_cons; [subst; tauto|]. rewrite IH. tauto.
Qed.

Lemma aset_nodup k v l : NoDup l.*1 → NoDup (aset k v l).*1.
Proof.
  induction l as [|[k1 v1] l IH]; cbn; intros Hnd.
  - apply NoDup_singleton.
  - apply NoDup_cons in Hnd as [Hk Hnd]. case_decide; cbn; apply NoDup_cons; split; auto.
    rewrite aset_keys_elem. intros [->|?]; done.
Qed.

Lemma adel_nodup k l : NoDup l.*1 → NoDup (adel k l).*1.
Proof.
  unfold adel. induction l as [|[k1 v1] l IH]; intros Hnd; [done|].
  apply NoDup_cons in Hnd as [Hk Hnd]. rewrite filter_cons. case_decide; cbn; [|auto].
  apply NoDup_cons; split; [|auto]. intros Hin. apply Hk.
  apply list_elem_of_fmap in Hin as (p & -> & [_ Hp]%list_elem_of_filter).
  change (p.1 ∈ l.*1). by apply list_elem_of_fmap_2.
Qed.

Lemma aget_aset k k' v l :
  aget k (aset k' v l) = if decide (k = k') then Some v else aget k l.
Proof.
  induction l as [|[k1 v1] l IH]; cbn; [done|].
  destruct (decide (k' = k1)) as [->|]; cbn; [by repeat case_decide|].
  rewrite IH. repeat case_decide; congruence.
Qed.

Lemma aget_adel k k' l :
  aget k (adel k' l) = if decide (k = k') then None else aget k l.
Proof.
  unfold adel. induction l as [|[k1 v1] l IH]; [by cbn; case_decide|].
  rewrite filter_cons. destruct (decide (k1 = k')) as [->|Hk1].
  - rewrite decide_False by (cbn; auto). rewrite IH. cbn. repeat case_decide; congruence.
  - rewrite decide_True by done. cbn [aget]. rewrite IH. repeat case_decide; congruence.
Qed.

Lemma aget_keys k l : k ∈ l.*1 ↔ is_Some (aget k l).
Proof.
  induction l as [|[k1 v1] l IH]; cbn.
  - rewrite elem_of_nil. split; [done|by intros []].
  - rewrite elem_of_cons, IH. case_decide; [|tauto].
    split; [by eexists|by left].
Qed.
End assoc.

(** The items in insertion order, without duplicate keys. *)
Record PyDict (K V : Type) : Type := MkDict {
  items : list (K * V);
  items_nodup : NoDup items.*1;
}.
Arguments MkDict {K V} items items_nodup.
Arguments items {K V} _.
Arguments items_nodup {K V} _.

#[export] Instance pydict_ops {K} `{EqDecision K} : DictOps K (PyDict K) := {
  dempty V := MkDict [] NoDup_nil_2;
  dget V k d := aget k (items d);
  dset V k v d := MkDict (aset k v (items d)) (aset_nodup k v _ (items_nodup d));
  ddel V k d := MkDict (adel k (items d)) (adel_nodup k _ (items_nodup d));
  dkeys V d := (items d).*1;
}.

#[export] Instance pydict_laws {K} `{EqDecision K} : DictLaws K (PyDict K).
Proof.
  split; intros; cbn.
  - done.
  - apply aget_aset.
  - apply aget_adel.
  - apply items_nodup.
  - apply aget_keys.
Qed.

(** ** Hash-ordered dictionaries *)

#[export] Instance gmap_ops {K} `{Countable K} : DictOps K (gmap K) := {
  dempty V := ∅;
  dget V k d := d !! k;
  dset V k v d := <[k := v]> d;
  ddel V k d := delete k d;
  dkeys V d := (map_to_list d).*1;
}.

#[export] Instance gmap_laws {K} `{Countable K} : DictLaws K (gmap K).
Proof.
  split; intros; cbn.
  - apply lookup_empty.
  - rewrite lookup_insert. repeat case_decide; congruence.
  - rewrite lookup_delete. repeat case_decide; congruence.
  - apply NoDup_fst_map_to_list.
  - split.
    + intros ([k' v] & -> & Hin)%list_elem_of_fmap. apply elem_of_map_to_list in Hin. eauto.
    + intros [v Hv]. apply list_elem_of_fmap. exists (k, v).
      by rewrite elem_of_map_to_list.
Qed.
