(* ===== verification/RadUtil.v ===== *)
(** * Models bindings/python/rad_util.py

    The helper functions of [rad_util.py] on integers, strings and lists.  The
    module is Python 2 code: [/] on two integers rounds towards minus
    infinity. Not modelled: the functions that need the clock, the random
    number generator, module reflection or float formatting ([timestamp],
    [random_vec], [getmodule], [nice_units], [float_range], [pt2str]). *)
From Stdlib Require Import Ascii.
From S2P Require Export PyStr Dict.
Open Scope Z_scope.

(** ** Binary strings *)

Definition hex2bin : list (ascii * pystr) :=
  [ ("0"%char, str "0000"); ("1"%char, str "0001"); ("2"%char, str "0010"); ("3"%char, str "0011");
    ("4"%char, str "0100"); ("5"%char, str "0101"); ("6"%char, str "0110"); ("7"%char, str "0111");
    ("8"%char, str "1000"); ("9"%char, str "1001"); ("a"%char, str "1010"); ("b"%char, str "1011");
    ("c"%char, str "1100"); ("d"%char, str "1101"); ("e"%char, str "1110"); ("f"%char, str "1111") ].

(** The built-in [hex]; a Python 2 [long] gets the suffix [L]. *)
Definition py_hex (long : bool) (i : Z) : pystr :=
  (if i <? 0 then str "-0x" ++ digits 16 (- i) else str "0x" ++ digits 16 i)
  ++ (if long then str "L" else []).

Definition lower_char (a : ascii) : ascii :=
  let n := nat_of_ascii a in
  if (65 <=? n)%nat && (n <=? 90)%nat then ascii_of_nat (n + 32) else a.
Definition lower (s : pystr) : pystr := lower_char <$> s.

(** [s.replace(c, '')] *)
Definition remove_char (c : ascii) (s : pystr) : pystr := filter (λ a, a ≠ c) s.

Definition int2bin (long : bool) (i n : Z) : res exn pystr :=
  let hexs := py_slice_from (remove_char "l"%char (lower (py_hex long i))) 2 in
  parts ← fold_res (λ acc x, b ← res_of_option KeyError (aget x hex2bin);
                             Ok (acc ++ [b])) [] hexs;
  let result := mjoin parts in
  if bool_decide ("1"%char ∈ py_slice_to result (- n)) then Raise ValueError
  else
    let result := py_slice_from result (- n) in
    Ok (replicate (Z.to_nat (n - Z.of_nat (length result))) "0"%char ++ result).

Definition bin2int (s : pystr) : res exn Z := py_int 2 s.

Definition reverse (s : pystr) : pystr := rev s.

Definition lsb (x n : Z) : Z := Z.land x (2 ^ n - 1).
Definition gray_encode (i : Z) : Z := Z.lxor i (Z.shiftr i 1).

(** [binary_range]: [v] is the current number, least significant bit first;
    [toggle] are the carries. One inner pass adds one to [v]. *)
Fixpoint toggle_loop (fuel : nat) (bits i : nat) (v : pystr) (toggle : list bool)
    : pystr * list bool :=
  match fuel with
  | O => (v, toggle)
  | S fuel =>
      if (i <? bits)%nat && default false (toggle !! i) then
        match v !! i with
        | Some a =>
            if decide (a = "0"%char)
            then toggle_loop fuel bits (S i) (<[i:="1"%char]> v) (<[S i:=false]> toggle)
            else toggle_loop fuel bits (S i) (<[i:="0"%char]> v) (<[S i:=true]> toggle)
        | None => (v, toggle)
        end
      else (v, toggle)
  end.

Definition toggle_init (bits : nat) : list bool := true :: replicate bits false.

Fixpoint binary_range_loop (fuel bits : nat) (l : list pystr) (v : pystr)
    (toggle : list bool) : option (list pystr) :=
  if default false (toggle !! bits) then Some l
  else match fuel with
       | O => None
       | S fuel =>
           let '(v', toggle') := toggle_loop bits bits 0 v (toggle_init bits) in
           binary_range_loop fuel bits (l ++ [rev v]) v' toggle'
       end.

Definition binary_range (fuel bits : nat) : option (list pystr) :=
  binary_range_loop fuel bits [] (replicate bits "0"%char) (toggle_init bits).

(** ** Lists *)

(** [zip] over the rows: stops at the shortest row. *)
Fixpoint zip_rows {A} (fuel : nat) (rows : list (list A)) : list (list A) :=
  match fuel with
  | O => []
  | S fuel =>
      match mapM head rows with
      | Some hs => hs :: zip_rows fuel (tail <$> rows)
      | None => []
      end
  end.

Definition transpose {A} (matrix : list (list A)) : list (list A) :=
  match matrix with [] => [] | r :: _ => zip_rows (length r) matrix end.

(** [new_list.insert(i, item)] for [i] up to the length. *)
Definition insert_at {A} (i : nat) (x : A) (l : list A) : list A :=
  take i l ++ x :: drop i l.

Fixpoint permutations {A} (input_list : list A) : list (list A) :=
  match input_list with
  | item :: (_ :: _) as rest =>
      sub_list ← permutations rest;
      (λ i, insert_at i item sub_list) <$> seq 0 (length input_list)
  | _ => [input_list]
  end.

Section seqs.
Context {A : Type} `{EqDecision A}.

(** The indexes at which [seq1] holds [head_item]. *)
Definition start_indexes (head_item : A) (seq1 : list A) : list nat :=
  filter (λ i, seq1 !! i = Some head_item) (seq 0 (length seq1)).

Definition is_rotated (seq1 seq2 : list A) : res exn bool :=
  if negb (length seq1 =? length seq2)%nat then Ok false
  else
    match seq2 with
    | [] => Raise IndexError
    | head_item :: _ =>
        let double_seq1 := seq1 ++ seq1 in
        Ok (existsb (λ i, bool_decide
              (take (length seq1) (drop i double_seq1) = seq2))
            (start_indexes head_item seq1))
    end.

(** The two loops of [find_common_fixes]; [i] counts up to [common_len]. *)
Fixpoint prefix_loop (fuel i : nat) (s1 s2 pre : list A) : list A :=
  match fuel with
  | O => pre
  | S fuel =>
      match s1 !! i, s2 !! i with
      | Some a, Some b =>
          if decide (a = b) then prefix_loop fuel (S i) s1 s2 (pre ++ [a]) else pre
      | _, _ => pre
      end
  end.

Fixpoint suffix_loop (fuel i : nat) (s1 s2 suf : list A) : list A :=
  match fuel with
  | O => suf
  | S fuel =>
      match py_get s1 (- Z.of_nat i), py_get s2 (- Z.of_nat i) with
      | Some a, Some b =>
          if decide (a = b) then suffix_loop fuel (S i) s1 s2 (suf ++ [a]) else suf
      | _, _ => suf
      end
  end.

Definition find_common_fixes (s1 s2 : list A) : list A * list A :=
  let common_len := Nat.min (length s1) (length s2) in
  (prefix_loop common_len 0 s1 s2 [], rev (suffix_loop common_len 1 s1 s2 [])).

(** [uniquify]: unhashable items make the dictionary raise [TypeError], and
    the function falls back to a list. *)
Fixpoint uniq_loop (seen seq : list A) : list A :=
  match seq with
  | [] => []
  | x :: seq => if decide (x ∈ seen) then uniq_loop seen seq
                else x :: uniq_loop (x :: seen) seq
  end.

Fixpoint uniq_append (result seq : list A) : list A :=
  match seq with
  | [] => result
  | x :: seq => uniq_append (if decide (x ∈ result) then result else result ++ [x]) seq
  end.

Definition uniquify (hashable : A → bool) (seq : list A) (preserve_order : bool) : list A :=
  if forallb hashable seq then
    if preserve_order then uniq_loop [] seq
    else dkeys (foldl (λ (d : PyDict A Z) x, dset x 0 d) dempty seq)
  else uniq_append [] seq.
End seqs.

Definition reverse_dict {K V} `{EqDecision K, EqDecision V} (d : PyDict K V) : PyDict V K :=
  foldl (λ r '(k, v), dset v k r) dempty (items d).

(** ** Arithmetic *)

(** The Euclidean loop of [gcf] on integers; [%] is the floored remainder. *)
Fixpoint gcf_loop (fuel : nat) (result remainder : Z) : option Z :=
  if remainder =? 0 then Some (Z.abs result)
  else match fuel with
       | O => None
       | S fuel => gcf_loop fuel remainder (result mod remainder)
       end.

Definition gcf (a b : Z) : option Z :=
  gcf_loop (S (Z.abs_nat (Z.min a b))) (Z.max a b) (Z.min a b).

Definition lcm (a b : Z) : option Z :=
  denom ← gcf a b; Some (if denom =? 0 then 0 else a * (b / denom)).

Definition reduce_fraction (fraction : Z * Z) : option (res exn (Z * Z)) :=
  let '(numerator, denominator) := fraction in
  g ← gcf numerator denominator;
  let common_factor := Z.abs g in
  Some (if common_factor =? 0 then Raise ZeroDivisionError
        else Ok (numerator / common_factor, denominator / common_factor)).

(** [round_grid] on integers. [off_grid >= grid / 2.0] is compared doubled. *)
Definition round_grid (value grid mode : Z) : res exn Z :=
  if grid =? 0 then Raise ZeroDivisionError else
  let off_grid := value mod grid in
  add_one ←
    (if mode =? 0 then Ok (if grid <=? 2 * off_grid then 1 else 0)
     else if (mode =? 1) && negb (off_grid =? 0) then Ok 1
     else if (mode =? -1) && negb (off_grid =? 0) then Ok 0
     else Raise UnboundLocalError);
  Ok ((value / grid + add_one) * grid).

(** ** Command lines *)

(** The values [get_args] stores. *)
Inductive arg_value := ArgStr (s : pystr) | ArgNone | ArgList (l : list pystr).

(** [re.sub(r'^-+', '', arg)] *)
Fixpoint strip_dashes (s : pystr) : pystr :=
  match s with
  | a :: s' => if decide (a = "-"%char) then strip_dashes s' else s
  | [] => []
  end.

Definition get_args_step (st : PyDict pystr arg_value * list pystr) (arg : pystr)
    : PyDict pystr arg_value * list pystr :=
  let '(d, args) := st in
  if startswith (str "-") arg then
    match split_char "="%char (strip_dashes arg) with
    | [k; v] => (dset k (ArgStr v) d, args)
    | k :: _ => (dset k ArgNone d, args)
    | [] => (d, args)
    end
  else (d, args ++ [arg]).

Definition get_args (argv : list pystr) : PyDict pystr arg_value :=
  let '(d, args) := foldl get_args_step (dempty, []) argv in
  dset (str "args") (ArgList args) d.

Example gcf_doc : gcf 12 34 = Some 2. Proof. reflexivity. Qed.
Example gcf_doc2 : gcf (-2) 4 = Some 2. Proof. reflexivity. Qed.
Example int2bin_doc : int2bin false 123 8 = Ok (str "01111011"). Proof. reflexivity. Qed.
Example int2bin_doc3 : int2bin true 123 8 = Ok (str "01111011"). Proof. reflexivity. Qed.
Example int2bin_doc2 : int2bin false 15 2 = Raise ValueError. Proof. reflexivity. Qed.
Example perm_doc : length (permutations [1;2;3]) = 6%nat. Proof. reflexivity. Qed.
Example range_doc : binary_range 4 2 = Some [str "00"; str "01"; str "10"; str "11"].
Proof. reflexivity. Qed.
Example fixes_doc : find_common_fixes (str "abcelephantdef") (str "abccowdef")
  = (str "abc", str "def").
Proof. reflexivity. Qed.

(** ** Greatest common factor *)

Lemma gcf_loop_spec fuel r s :
  (Z.abs_nat s < fuel)%nat → gcf_loop fuel r s = Some (Z.gcd r s).
Proof.
  revert r s. induction fuel as [|fuel IH]; intros r s Hf; [lia|]. cbn [gcf_loop].
  destruct (Z.eqb_spec s 0) as [->|Hs].
  - by rewrite Z.gcd_0_r.
  - rewrite IH.
    + by rewrite Z.gcd_comm, Z.gcd_mod, Z.gcd_comm by done.
    + destruct (Z.lt_ge_cases s 0).
      * pose proof (Z.mod_neg_bound r s). lia.
      * pose proof (Z.mod_pos_bound r s). lia.
Qed.

Lemma gcf_gcd a b : gcf a b = Some (Z.gcd a b).
Proof.
  unfold gcf. rewrite gcf_loop_spec by lia. f_equal.
  destruct (Z.le_ge_cases a b).
  - rewrite Z.max_r, Z.min_l by lia. apply Z.gcd_comm.
  - by rewrite Z.max_l, Z.min_r by lia.
Qed.

(** ** Rotations *)

Section seq_lemmas.
Context {A : Type} `{EqDecision A}.
Implicit Types l s : list A.

Lemma take_drop_double l i :
  (i ≤ length l)%nat → take (length l) (drop i (l ++ l)) = drop i l ++ take i l.
Proof.
  intros Hi. rewrite drop_app_le by done.
  rewrite take_app. rewrite take_ge by (rewrite length_drop; lia). f_equal.
  rewrite length_drop. f_equal. lia.
Qed.

(** [s2] is a rotation of [s1]. *)
Definition rotation s1 s2 : Prop :=
  ∃ i, (i ≤ length s1)%nat ∧ s2 = drop i s1 ++ take i s1.

Lemma is_rotated_rotation s1 s2 :
  s2 ≠ [] → ∃ b, is_rotated s1 s2 = Ok b ∧ (b = true ↔ rotation s1 s2).
Proof.
  intros Hne. unfold is_rotated, start_indexes. destruct (Nat.eqb_spec (length s1) (length s2)) as [Hl|Hl];
    cbn [negb].
  - destruct s2 as [|a s2]; [done|]. eexists; split; [done|].
    rewrite existsb_exists. split.
    + intros (i & Hi & Heq%bool_decide_eq_true). apply list_elem_of_In in Hi.
      apply list_elem_of_filter in Hi as [_ Hi%elem_of_seq].
      exists i. split; [lia|]. by rewrite <-take_drop_double by lia.
    + intros (i & Hi & Heq).
      destruct (decide (i = length s1)) as [->|Hi'].
      * rewrite drop_all, firstn_all in Heq. cbn in Heq. subst s1.
        exists 0%nat. rewrite <-list_elem_of_In, list_elem_of_filter, elem_of_seq.
        cbn [length]. split_and!; [done|lia|lia|]. apply bool_decide_eq_true.
        change (take (length (a :: s2)) (drop 0 ((a :: s2) ++ a :: s2)) = a :: s2).
        rewrite take_drop_double by lia. by rewrite drop_0, app_nil_r.
      * exists i. rewrite <-list_elem_of_In, list_elem_of_filter, elem_of_seq.
        split_and!; [|lia|lia|].
        -- destruct (drop i s1) as [|b t] eqn:Hd.
           { apply (f_equal length) in Hd. rewrite length_drop in Hd. cbn in Hd. lia. }
           cbn in Heq. injection Heq as <- _.
           rewrite <-(Nat.add_0_r i), <-lookup_drop, Hd. done.
        -- apply bool_decide_eq_true. by rewrite take_drop_double by lia.
  - eexists; split; [done|]. split; [done|]. intros (i & Hi & ->). destruct Hl.
    rewrite length_app, length_drop, length_take. lia.
Qed.

(** ** Common prefixes and suffixes *)

Lemma prefix_loop_spec fuel i s1 s2 :
  (i + fuel = Nat.min (length s1) (length s2))%nat → take i s1 = take i s2 →
  ∃ n, prefix_loop fuel i s1 s2 (take i s1) = take n s1
    ∧ take n s1 = take n s2
    ∧ (n ≤ Nat.min (length s1) (length s2))%nat
    ∧ (n = Nat.min (length s1) (length s2) ∨ s1 !! n ≠ s2 !! n).
Proof.
  revert i. induction fuel as [|fuel IH]; intros i Hf Ht; cbn [prefix_loop].
  - exists i. split_and!; auto; try lia.
  - destruct (lookup_lt_is_Some_2 s1 i ltac:(lia)) as [a Ha].
    destruct (lookup_lt_is_Some_2 s2 i ltac:(lia)) as [b Hb].
    rewrite Ha, Hb. case_decide as Hab.
    + subst b. rewrite <-(take_S_r _ _ _ Ha).
      apply IH; [lia|]. by rewrite (take_S_r _ _ _ Ha), (take_S_r _ _ _ Hb), Ht.
    + exists i. split_and!; auto; [lia|]. right. congruence.
Qed.

Lemma py_get_neg l i :
  (0 < i ≤ length l)%nat → py_get l (- Z.of_nat i) = l !! (length l - i)%nat.
Proof.
  intros Hi. unfold py_get, py_index.
  rewrite (proj2 (Z.leb_gt 0 _)) by lia. cbn [andb].
  rewrite (proj2 (Z.ltb_lt _ 0)), (proj2 (Z.leb_le _ _)) by lia. cbn.
  f_equal. lia.
Qed.

Lemma suffix_loop_prefix fuel i s1 s2 suf :
  (i + fuel = Nat.min (length s1) (length s2))%nat →
  suffix_loop fuel (S i) s1 s2 suf = prefix_loop fuel i (rev s1) (rev s2) suf.
Proof.
  revert i suf. induction fuel as [|fuel IH]; intros i suf Hf; [done|].
  cbn [suffix_loop prefix_loop]. rewrite !py_get_neg by lia.
  assert (∀ l, (i < length l)%nat → rev l !! i = l !! (length l - S i)%nat) as Hrev.
  { intros l Hl. rewrite rev_alt. by apply reverse_lookup. }
  rewrite <-!Hrev by lia.
  destruct (rev s1 !! i), (rev s2 !! i); try done. case_decide; [|done].
  rewrite IH by lia. done.
Qed.

(** [p] is the longest common prefix of [s1] and [s2]. *)
Definition longest_common_prefix p s1 s2 : Prop :=
  p `prefix_of` s1 ∧ p `prefix_of` s2 ∧
  ∀ q, q `prefix_of` s1 → q `prefix_of` s2 → q `prefix_of` p.

Lemma take_longest n s1 s2 :
  take n s1 = take n s2 → (n ≤ Nat.min (length s1) (length s2))%nat →
  (n = Nat.min (length s1) (length s2) ∨ s1 !! n ≠ s2 !! n) →
  longest_common_prefix (take n s1) s1 s2.
Proof.
  intros Ht Hn Hstop. split_and!.
  - exists (drop n s1). by rewrite take_drop.
  - exists (drop n s2). by rewrite Ht, take_drop.
  - intros q [t1 H1] [t2 H2]. destruct (decide (length q ≤ n)%nat) as [Hq|Hq].
    + exists (take (n - length q) t1).
      rewrite H1, take_app, take_ge by lia. done.
    + exfalso. destruct Hstop as [->|Hstop].
      * rewrite H1, H2, !length_app in Hq. lia.
      * apply Hstop. rewrite H1, H2, !lookup_app_l by lia. done.
Qed.

Lemma prefix_loop_longest s1 s2 :
  longest_common_prefix
    (prefix_loop (Nat.min (length s1) (length s2)) 0 s1 s2 []) s1 s2.
Proof.
  destruct (prefix_loop_spec (Nat.min (length s1) (length s2)) 0 s1 s2) as (n & Hn & ? & ? & ?);
    [lia|done|]. change (take 0 s1) with (@nil A) in Hn. rewrite Hn. by apply take_longest.
Qed.
End seq_lemmas.

(** ** Permutations *)

Lemma insert_at_perm {A} i (x : A) l : insert_at i x l ≡ₚ x :: l.
Proof. unfold insert_at. by rewrite <-Permutation_middle, take_drop. Qed.

Lemma insert_at_split {A} (x : A) l1 l2 :
  insert_at (length l1) x (l1 ++ l2) = l1 ++ x :: l2.
Proof.
  unfold insert_at. by rewrite take_app_length, drop_app_length.
Qed.

Lemma permutations_cons {A} (x y : A) l :
  permutations (x :: y :: l) =
  permutations (y :: l) ≫= λ s, (λ i, insert_at i x s) <$> seq 0 (length (x :: y :: l)).
Proof. done. Qed.

Lemma permutations_length {A} (l s : list A) : s ∈ permutations l → length s = length l.
Proof.
  revert s. induction l as [|x [|y l] IH]; intros s.
  - by intros ->%list_elem_of_singleton.
  - by intros ->%list_elem_of_singleton.
  - rewrite permutations_cons. intros (t & Hs & Ht)%list_elem_of_bind.
    apply list_elem_of_fmap in Hs as (i & -> & _).
    rewrite insert_at_perm. cbn. f_equal. by apply IH.
Qed.

Lemma permutations_perm {A} (l s : list A) : s ∈ permutations l ↔ s ≡ₚ l.
Proof.
  revert s. induction l as [|x [|y l] IH]; intros s.
  - cbn [permutations]. rewrite list_elem_of_singleton. split; [by intros ->|]. apply Permutation_nil_r.
  - cbn [permutations]. rewrite list_elem_of_singleton. split; [by intros ->|].
    by intros ->%Permutation_singleton_r.
  - rewrite permutations_cons, list_elem_of_bind. split.
    + intros (t & (i & -> & _)%list_elem_of_fmap & Ht). rewrite insert_at_perm.
      constructor. by apply IH.
    + intros Hs. assert (x ∈ s) as (s1 & s2 & ->)%list_elem_of_split
        by (rewrite Hs; left).
      exists (s1 ++ s2). assert (s1 ++ s2 ≡ₚ y :: l) as Hp.
      { apply (Permutation_cons_inv (a := x)). by rewrite Permutation_middle. }
      split; [|by apply IH]. apply list_elem_of_fmap. exists (length s1).
      rewrite insert_at_split. split; [done|]. apply elem_of_seq.
      apply Permutation_length in Hp. rewrite length_app in Hp. cbn in *. lia.
Qed.

Lemma permutations_count {A} (l : list A) : length (permutations l) = fact (length l).
Proof.
  induction l as [|x [|y l] IH]; [done..|].
  rewrite permutations_cons. change (fact (length (x :: y :: l))) with
    (length (x :: y :: l) * fact (length (y :: l)))%nat. rewrite <-IH.
  generalize (permutations (y :: l)) (length (x :: y :: l)). intros ll n.
  induction ll as [|s ll IHl]; [by rewrite Nat.mul_0_r|].
  rewrite bind_cons, length_app, length_fmap, length_seq, IHl. cbn [length]. lia.
Qed.

(** ** Duplicate removal *)

Section uniq.
Context {A : Type} `{EqDecision A}.
Implicit Types l s : list A.

Lemma uniq_loop_elem seen l x : x ∈ uniq_loop seen l ↔ x ∈ l ∧ x ∉ seen.
Proof.
  revert seen. induction l as [|y l IH]; intros seen; cbn.
  - rewrite elem_of_nil. tauto.
  - case_decide; rewrite ?elem_of_cons, IH, ?not_elem_of_cons; rewrite ?elem_of_cons.
    + split; [tauto|]. intros [[->|?] ?]; tauto.
    + destruct (decide (x = y)) as [->|]; tauto.
Qed.

Lemma uniq_loop_nodup seen l : NoDup (uniq_loop seen l).
Proof.
  revert seen. induction l as [|y l IH]; intros seen; cbn; [constructor|].
  case_decide; [apply IH|]. apply NoDup_cons. split; [|apply IH].
  rewrite uniq_loop_elem. intros [_ Hy]. apply Hy. by left.
Qed.

Lemma uniq_loop_sublist seen l : uniq_loop seen l `sublist_of` l.
Proof.
  revert seen. induction l as [|y l IH]; intros seen; cbn; [done|].
  case_decide; by constructor.
Qed.

Lemma uniq_loop_seen_ext s1 s2 l :
  (∀ x, x ∈ s1 ↔ x ∈ s2) → uniq_loop s1 l = uniq_loop s2 l.
Proof.
  revert s1 s2. induction l as [|y l IH]; intros s1 s2 Hs; cbn; [done|].
  destruct (decide (y ∈ s1)), (decide (y ∈ s2)); try (exfalso; apply n || apply n0; by apply Hs); auto.
  f_equal. apply IH. intros x. by rewrite !elem_of_cons, Hs.
Qed.

(** The list fallback computes what the ordered dictionary path computes. *)
Lemma uniq_append_loop s l : uniq_append s l = s ++ uniq_loop s l.
Proof.
  revert s. induction l as [|y l IH]; intros s; cbn; [by rewrite app_nil_r|].
  case_decide; rewrite IH; [done|]. rewrite <-app_assoc. cbn. do 2 f_equal.
  apply uniq_loop_seen_ext. intros x. set_solver.
Qed.

Lemma uniq_dict_elem (d : PyDict A Z) l x :
  x ∈ dkeys (foldl (λ (d : PyDict A Z) x, dset x 0 d) d l) ↔ x ∈ l ∨ x ∈ dkeys d.
Proof.
  revert d. induction l as [|y l IH]; intros d; cbn [foldl].
  - rewrite elem_of_nil. tauto.
  - rewrite IH, elem_of_cons, !dkeys_spec, dget_set. case_decide; subst.
    + split; [tauto|]. intros _. right. eauto.
    + tauto.
Qed.

(** Whatever the path taken, the result has the elements of the input, once. *)
Lemma uniquify_elems hashable l o :
  NoDup (uniquify hashable l o) ∧ ∀ x, x ∈ uniquify hashable l o ↔ x ∈ l.
Proof.
  unfold uniquify. destruct (forallb hashable l); [destruct o|].
  - split; [apply uniq_loop_nodup|]. intros x. rewrite uniq_loop_elem.
    split; [tauto|]. intros; split; [done|apply not_elem_of_nil].
  - split; [apply dkeys_nodup|]. intros x. rewrite uniq_dict_elem.
    split; [|tauto]. intros [?|[? Hd]%dkeys_spec]; [done|]. by rewrite dget_empty in Hd.
  - rewrite uniq_append_loop. cbn [app]. split; [apply uniq_loop_nodup|]. intros x.
    rewrite uniq_loop_elem. split; [tauto|]. intros; split; [done|apply not_elem_of_nil].
Qed.
End uniq.

(** ** Binary strings *)

Definition bit_char (a : ascii) : Prop := a = "0"%char ∨ a = "1"%char.

Lemma bit_value a :
  bit_char a → (a = "0"%char ∧ default 0 (digit_of a) = 0)
    ∨ (a = "1"%char ∧ default 0 (digit_of a) = 1).
Proof. intros [->| ->]; [by left|by right]. Qed.

Lemma digits_val_bits_bound s :
  Forall bit_char s → 0 <= digits_val 2 s < 2 ^ Z.of_nat (length s).
Proof.
  induction 1 as [|a s Ha Hs IH]; [cbn; lia|].
  rewrite digits_val_cons. cbn [length]. rewrite Nat2Z.inj_succ, Z.pow_succ_r by lia.
  destruct (bit_value a Ha) as [[_ ->]|[_ ->]]; lia.
Qed.

(** A bit string is positive exactly when it holds a 1. *)
Lemma digits_val_bits_pos s :
  Forall bit_char s → "1"%char ∈ s ↔ 0 < digits_val 2 s.
Proof.
  induction 1 as [|a s Ha Hs IH]; [cbn; split; [by intros ?%elem_of_nil|lia]|].
  rewrite digits_val_cons, elem_of_cons. pose proof (digits_val_bits_bound s Hs).
  pose proof (Z.pow_pos_nonneg 2 (Z.of_nat (length s))).
  destruct (bit_value a Ha) as [[-> ->]|[-> ->]]; rewrite ?IH; [|split; [lia|by left]].
  split; [intros [?|?]; [done|lia]|]. right. lia.
Qed.

(** Expanding each hexadecimal digit keeps the value. *)
Lemma hex2bin_digit a :
  base_char 16 a → ∃ s, aget a hex2bin = Some s ∧ Forall bit_char s ∧ length s = 4%nat
    ∧ digits_val 2 s = default 0 (digit_of a).
Proof.
  intros Ha.
  pose (P := λ a, match aget a hex2bin with
                  | Some s => forallb (λ c, bool_decide (c = "0"%char ∨ c = "1"%char)) s
                      && (length s =? 4)%nat && (digits_val 2 s =? default 0 (digit_of a))
                  | None => false end).
  assert (P a = true) as HP by (by apply (base_char_forall P 16)). subst P. cbn beta in HP.
  destruct (aget a hex2bin) as [s|]; [|done]. exists s.
  rewrite !andb_true_iff, forallb_forall in HP. destruct HP as [[Hall Hl] Hv].
  split_and!; [done| |by apply Nat.eqb_eq|by apply Z.eqb_eq].
  apply Forall_forall. intros c Hc%list_elem_of_In.
  by apply (bool_decide_eq_true_1 _ (Hall c Hc)).
Qed.

Lemma hex2bin_fold hs acc :
  Forall (base_char 16) hs →
  ∃ parts, fold_res (λ acc x, b ← res_of_option KeyError (aget x hex2bin);
                              Ok (acc ++ [b])) acc hs = Ok (acc ++ parts)
    ∧ Forall bit_char (mjoin parts) ∧ digits_val 2 (mjoin parts) = digits_val 16 hs
    ∧ length (mjoin parts) = (4 * length hs)%nat.
Proof.
  intros Hs. revert acc. induction Hs as [|a hs Ha Hs IH]; intros acc.
  - exists []. cbn. split_and!; auto. by rewrite app_nil_r.
  - destruct (hex2bin_digit a Ha) as (s & Hg & Hb & Hl & Hv).
    destruct (IH (acc ++ [s])) as (parts & Hf & Hb' & Hv' & Hl').
    exists (s :: parts). cbn [fold_res]. rewrite Hg. cbn [res_of_option mbind res_bind].
    rewrite Hf, <-app_assoc. change (mjoin (s :: parts)) with (s ++ mjoin parts).
    split_and!; [done|by apply Forall_app| |rewrite length_app; cbn [length]; lia].
    rewrite digits_val_app, digits_val_cons, Hv, Hv', Hl'. f_equal. f_equal.
    rewrite Nat2Z.inj_mul. by rewrite Z.pow_mul_r by lia.
Qed.

(** The hexadecimal digits that remain of [hex(i)] after the cleaning. *)
Lemma hex_digits_cleaned long i :
  0 <= i → py_slice_from (remove_char "l"%char (lower (py_hex long i))) 2 = digits 16 i.
Proof.
  intros Hi. unfold py_hex. rewrite (proj2 (Z.ltb_ge i 0)) by done.
  assert (remove_char "l" (lower ((str "0x" ++ digits 16 i) ++ (if long then str "L" else [])))
    = str "0x" ++ digits 16 i) as ->.
  { unfold lower, remove_char. rewrite !fmap_app, !filter_app.
    assert (∀ s, Forall (base_char 16) s →
      filter (λ a, a ≠ "l"%char) (lower_char <$> s) = s) as Hid.
    { induction 1 as [|a s Ha Hs IH]; [done|]. rewrite fmap_cons.
      pose (P := λ a, bool_decide (lower_char a = a ∧ a ≠ "l"%char)).
      assert (P a = true) as HP by (by apply (base_char_forall P 16)).
      apply bool_decide_eq_true in HP as [Heq Hne].
      rewrite Heq, filter_cons, decide_True by done. by f_equal. }
    rewrite (Hid (digits 16 i)) by (by apply digits_chars).
    generalize (digits 16 i). intros ds. destruct long; cbn; by rewrite app_nil_r. }
  unfold py_slice_from, slice_pos. cbn -[Nat.min].
  by rewrite Nat.min_l by (cbn; lia).
Qed.

(** The function on a non-negative integer and a positive width. *)
Lemma int2bin_cases long i n :
  0 <= i → 0 < n →
  ∃ r, Forall bit_char r ∧ digits_val 2 r = i
    ∧ int2bin long i n =
      (if i <? 2 ^ n then
         let t := drop (length r - Z.to_nat n) r in
         Ok (replicate (Z.to_nat n - length t) "0"%char ++ t)
       else Raise ValueError).
Proof.
  intros Hi Hn. unfold int2bin. rewrite hex_digits_cleaned by done.
  destruct (hex2bin_fold (digits 16 i) []) as (parts & -> & Hb & Hv & _);
    [by apply digits_chars|]. rewrite digits_val_digits in Hv by lia.
  exists (mjoin parts). cbn [app mbind res_bind]. generalize dependent (mjoin parts).
  intros r Hb Hv. split_and!; [done..|].
  unfold py_slice_to, py_slice_from, slice_pos. rewrite (proj2 (Z.ltb_lt (- n) 0)) by lia.
  replace (Z.to_nat (- n + Z.of_nat (length r))) with (length r - Z.to_nat n)%nat by lia.
  rewrite <-(take_drop (length r - Z.to_nat n) r), digits_val_app in Hv.
  set (hi := take _ r) in *. set (lo := drop _ r) in *.
  assert (Forall bit_char hi ∧ Forall bit_char lo) as [Hhi Hlo].
  { apply Forall_app. subst hi lo. by rewrite take_drop. }
  pose proof (digits_val_bits_bound lo Hlo) as Hlob.
  pose proof (digits_val_bits_bound hi Hhi) as Hhib.
  assert (length lo ≤ Z.to_nat n)%nat by (subst lo; rewrite length_drop; lia).
  assert (hi = [] ∨ length lo = Z.to_nat n) as Hcut.
  { destruct (decide (length r ≤ Z.to_nat n)%nat); [left|right].
    - subst hi. by replace (length r - Z.to_nat n)%nat with 0%nat by lia.
    - subst lo. rewrite length_drop. lia. }
  assert (2 ^ Z.of_nat (length lo) <= 2 ^ n) as Hpow by (apply Z.pow_le_mono_r; lia).
  destruct (Z.ltb_spec i (2 ^ n)) as [Hlt|Hge].
  - rewrite bool_decide_eq_false_2.
    + do 2 f_equal. f_equal. lia.
    + rewrite (digits_val_bits_pos hi Hhi). destruct Hcut as [->|Hc]; [cbn; lia|].
      rewrite Hc, Z2Nat.id in Hv, Hlob by lia. nia.
  - rewrite bool_decide_eq_true_2; [done|].
    apply (digits_val_bits_pos hi Hhi). destruct Hcut as [Hc|Hc].
    + rewrite Hc in Hv. cbn in Hv. lia.
    + rewrite Hc, Z2Nat.id in Hv, Hlob by lia. nia.
Qed.

Lemma digits_val_zeros k s : digits_val 2 (replicate k "0"%char ++ s) = digits_val 2 s.
Proof. induction k as [|k IH]; [done|]. cbn [replicate app]. by rewrite digits_val_cons, IH. Qed.

Lemma bit_char_base a : bit_char a → base_char 2 a.
Proof. intros [->| ->]; [by exists 0|by exists 1]. Qed.

Lemma int2bin_ok long i n :
  0 <= i < 2 ^ n → 0 < n →
  ∃ s, int2bin long i n = Ok s ∧ Z.of_nat (length s) = n ∧ Forall bit_char s
    ∧ bin2int s = Ok i.
Proof.
  intros Hi Hn. destruct (int2bin_cases long i n) as (r & Hr & Hv & ->); [lia..|].
  rewrite (proj2 (Z.ltb_lt i _)) by lia. cbn zeta.
  set (t := drop _ r).
  assert (length t ≤ Z.to_nat n)%nat by (subst t; rewrite length_drop; lia).
  assert (digits_val 2 r = digits_val 2 t) as Hvt.
  { rewrite <-(take_drop (length r - Z.to_nat n) r), digits_val_app. fold t.
    pose proof (digits_val_bits_bound t (Forall_drop _ _ _ Hr)).
    pose proof (digits_val_bits_bound (take (length r - Z.to_nat n) r) (Forall_take _ _ _ Hr)).
    destruct (decide (length r ≤ Z.to_nat n)%nat).
    - by replace (length r - Z.to_nat n)%nat with 0%nat by lia.
    - assert (Z.of_nat (length t) = n) as Ht by (subst t; rewrite length_drop; lia).
      rewrite <-(take_drop (length r - Z.to_nat n) r), digits_val_app in Hv. fold t in Hv.
      rewrite Ht in *. set (h := digits_val 2 (take _ r)) in *.
      assert (h = 0) as -> by nia. done. }
  assert (Forall bit_char (replicate (Z.to_nat n - length t) "0"%char ++ t)) as Hb.
  { apply Forall_app. split; [apply Forall_replicate; by left|by apply Forall_drop]. }
  eexists. split_and!; [done| |done|].
  - rewrite length_app, length_replicate. lia.
  - unfold bin2int. rewrite py_int_digits.
    + by rewrite digits_val_zeros, <-Hvt, Hv.
    + lia.
    + intros Hnil. apply (f_equal length) in Hnil.
      rewrite length_app, length_replicate in Hnil. cbn in Hnil. lia.
    + eapply Forall_impl; [exact Hb|apply bit_char_base].
Qed.

(** ** Gray code *)

Lemma lxor_double a b c d :
  Z.lxor (2 * a + Z.b2z c) (2 * b + Z.b2z d) = 2 * Z.lxor a b + Z.b2z (xorb c d).
Proof.
  apply Z.bits_inj'. intros n Hn. rewrite Z.lxor_spec.
  destruct (Z.eq_dec n 0) as [->|Hn0].
  - by rewrite !Z.testbit_0_r.
  - replace n with (Z.succ (n - 1)) by lia.
    by rewrite !Z.testbit_succ_r, Z.lxor_spec by lia.
Qed.

Lemma lxor_succ_ones i : 0 <= i → ∃ k, 0 <= k ∧ Z.lxor i (i + 1) = Z.ones (k + 1).
Proof.
  induction i as [i IH] using (well_founded_induction (Z.lt_wf 0)). intros Hi.
  pose proof (Z.div2_odd i) as Hodd. rewrite Z.div2_div in Hodd.
  assert (0 <= i / 2) by (apply Z.div_pos; lia).
  destruct (Z.odd i).
  - cbn [Z.b2z] in Hodd. destruct (IH (i / 2)) as (k & Hk & IHk); [lia|lia|].
    exists (k + 1). split; [lia|].
    assert (Z.lxor i (i + 1) = 2 * Z.lxor (i / 2) (i / 2 + 1) + Z.b2z (xorb true false)) as ->
      by (rewrite <-lxor_double; f_equal; cbn [Z.b2z]; lia).
    rewrite IHk, !Z.ones_equiv. cbn [xorb Z.b2z].
    replace (k + 1 + 1) with (Z.succ (k + 1)) by lia. rewrite Z.pow_succ_r by lia. lia.
  - cbn [Z.b2z] in Hodd. exists 0. split; [lia|].
    assert (Z.lxor i (i + 1) = 2 * Z.lxor (i / 2) (i / 2) + Z.b2z (xorb false true)) as ->
      by (rewrite <-lxor_double; f_equal; cbn [Z.b2z]; lia).
    by rewrite Z.lxor_nilpotent.
Qed.

Lemma gray_ones k : 0 <= k → gray_encode (Z.ones (k + 1)) = 2 ^ k.
Proof.
  intros Hk. unfold gray_encode. apply Z.bits_inj'. intros n Hn.
  rewrite Z.lxor_spec, Z.shiftr_spec, !Z.testbit_ones_nonneg by lia.
  rewrite Z.pow2_bits_eqb by lia.
  destruct (Z.ltb_spec n (k + 1)), (Z.ltb_spec (n + 1) (k + 1)), (Z.eqb_spec k n);
    done || lia.
Qed.

Lemma gray_lxor i j :
  Z.lxor (gray_encode i) (gray_encode j) = gray_encode (Z.lxor i j).
Proof.
  unfold gray_encode. rewrite Z.shiftr_lxor.
  rewrite !Z.lxor_assoc. f_equal. rewrite <-!Z.lxor_assoc. f_equal. apply Z.lxor_comm.
Qed.

(** ** Counting in binary *)

Fixpoint lsb_val (v : pystr) : Z :=
  match v with [] => 0 | a :: v => default 0 (digit_of a) + 2 * lsb_val v end.

Lemma lsb_val_rev v : digits_val 2 (rev v) = lsb_val v.
Proof.
  induction v as [|a v IH]; [done|]. cbn [rev lsb_val].
  rewrite digits_val_app, IH. rewrite digits_val_cons. cbn [length].
  change (digits_val 2 []) with 0. change (Z.of_nat 0) with 0.
  change (Z.of_nat 1) with 1. lia.
Qed.

Lemma toggle_loop_spec fuel i w bits tg :
  Forall bit_char w → bits = (i + length w)%nat → (length w ≤ fuel)%nat →
  length tg = S bits → tg !! i = Some true →
  (∀ j, (i < j ≤ bits)%nat → tg !! j = Some false) →
  ∃ u c tg', toggle_loop fuel bits i (replicate i "0"%char ++ w) tg
               = (replicate i "0"%char ++ u, tg')
    ∧ length u = length w ∧ Forall bit_char u ∧ tg' !! bits = Some c
    ∧ lsb_val u + (if c : bool then 2 ^ Z.of_nat (length w) else 0) = lsb_val w + 1.
Proof.
  intros Hw. revert fuel i tg. induction Hw as [|a w Ha Hw IH];
    intros fuel i tg -> Hf Hl Ht Hz; cbn [length] in *.
  - exists [], true, tg. rewrite Nat.add_0_r in *. cbn [length lsb_val].
    destruct fuel; cbn [toggle_loop]; rewrite ?Nat.ltb_irrefl; done.
  - destruct fuel as [|fuel]; [lia|]. cbn [toggle_loop].
    rewrite (proj2 (Nat.ltb_lt i _)), Ht by lia. cbn [default andb].
    assert (∀ x (y : ascii), (replicate i "0"%char ++ x :: w) !! i = Some x
      ∧ <[i:=y]> (replicate i "0"%char ++ x :: w) = replicate i "0"%char ++ y :: w) as Hi.
    { intros x y. split.
      - apply list_lookup_middle. by rewrite length_replicate.
      - rewrite insert_app_r_alt; rewrite length_replicate; [|done].
        by rewrite Nat.sub_diag. }
    destruct Ha as [->| ->].
    + destruct (Hi "0"%char "1"%char) as [-> ->]. rewrite decide_True by done.
      exists ("1"%char :: w), false, (<[S i:=false]> tg). split_and!.
      * destruct fuel; cbn [toggle_loop]; [done|].
        rewrite list_lookup_insert_eq by lia. by rewrite andb_false_r.
      * done.
      * constructor; [by right|done].
      * destruct (decide (S i = i + S (length w))%nat) as [->|Hne].
        -- rewrite list_lookup_insert_eq; [done|lia].
        -- rewrite list_lookup_insert_ne by done. apply Hz. lia.
      * cbn [lsb_val]. change (default 0 (digit_of "1")) with 1.
        change (default 0 (digit_of "0")) with 0. lia.
    + destruct (Hi "1"%char "0"%char) as [-> ->]. rewrite decide_False by done.
      replace (replicate i "0"%char ++ "0"%char :: w) with (replicate (S i) "0"%char ++ w)
        by (by rewrite replicate_S_end, <-app_assoc).
      destruct (IH fuel (S i) (<[S i:=true]> tg)) as (u & c & tg' & -> & Hlu & Hu & Hc & Hv);
        [lia|lia|by rewrite length_insert|..].
      { apply list_lookup_insert_eq. lia. }
      { intros j Hj. rewrite list_lookup_insert_ne by lia. apply Hz. lia. }
      exists ("0"%char :: u), c, tg'. split_and!; cbn [length]; auto.
      * by rewrite replicate_S_end, <-app_assoc.
      * constructor; [by left|done].
      * cbn [lsb_val]. change (default 0 (digit_of "1")) with 1.
        change (default 0 (digit_of "0")) with 0. rewrite Nat2Z.inj_succ, Z.pow_succ_r by lia.
        destruct c; lia.
Qed.

Lemma toggle_init_lookup bits j :
  (0 < j ≤ bits)%nat → toggle_init bits !! j = Some false.
Proof. intros Hj. destruct j; [lia|]. apply lookup_replicate_2. lia. Qed.

Lemma lsb_val_bound v : Forall bit_char v → 0 <= lsb_val v < 2 ^ Z.of_nat (length v).
Proof.
  intros Hv. rewrite <-lsb_val_rev, <-length_rev. apply digits_val_bits_bound.
  by rewrite <-Permutation_rev.
Qed.

Lemma binary_range_loop_spec fuel bits l v tg :
  Forall bit_char v → length v = bits → tg !! bits = Some false →
  2 ^ Z.of_nat bits <= lsb_val v + Z.of_nat fuel →
  ∃ l', binary_range_loop fuel bits l v tg = Some (l ++ l')
    ∧ lsb_val v + Z.of_nat (length l') = 2 ^ Z.of_nat bits
    ∧ ∀ j s, l' !! j = Some s → length s = bits ∧ Forall bit_char s
        ∧ digits_val 2 s = lsb_val v + Z.of_nat j.
Proof.
  intros Hv Hl. revert v tg l Hv Hl.
  induction fuel as [|fuel IH]; intros v tg l Hv Hl Ht Hf.
  { pose proof (lsb_val_bound v Hv). rewrite Hl in *. lia. }
  cbn [binary_range_loop]. rewrite Ht. cbn [default].
  destruct (toggle_loop_spec bits 0 v bits (toggle_init bits))
    as (u & c & tg' & Hloop & Hlu & Hu & Hc & Hval); auto; try lia.
  { cbn. by rewrite length_replicate. }
  { intros j Hj. by apply toggle_init_lookup. }
  cbn [replicate app] in Hloop. rewrite Hloop.
  assert (length (rev v) = bits ∧ Forall bit_char (rev v) ∧ digits_val 2 (rev v) = lsb_val v)
    as Hfirst.
  { split_and!; [by rewrite length_rev|by rewrite <-Permutation_rev|apply lsb_val_rev]. }
  destruct c; cbv iota in Hval.
  - exists [rev v]. split_and!.
    + destruct fuel; cbn [binary_range_loop]; by rewrite Hc.
    + pose proof (lsb_val_bound u Hu). pose proof (lsb_val_bound v Hv).
      rewrite Hl in *. cbn [length]. lia.
    + intros [|j] s; [|done]. intros [= <-]. rewrite Z.add_0_r. exact Hfirst.
  - destruct (IH u tg' (l ++ [rev v])) as (l' & -> & Hlen & Hall); [done|lia|done|lia|].
    exists (rev v :: l'). rewrite <-app_assoc. split_and!; [done|cbn [length]; lia|].
    intros [|j] s Hs.
    + injection Hs as <-. rewrite Z.add_0_r. exact Hfirst.
    + destruct (Hall j s Hs) as (? & ? & ?). split_and!; [done..|lia].
Qed.

(** ** Transposition *)

(** A matrix whose rows all have [m] entries. *)
Definition rectangular {A} (m : nat) (rows : list (list A)) : Prop :=
  Forall (λ r, length r = m) rows.

Lemma zip_rows_lookup {A} m (rows : list (list A)) j :
  rectangular m rows → rows ≠ [] →
  length (zip_rows m rows) = m ∧
  ∀ c, zip_rows m rows !! j = Some c → ∀ i, c !! i = rows !! i ≫= (.!! j).
Proof.
  revert rows j. induction m as [|m IH]; intros rows j Hrec Hne; [by split|].
  cbn [zip_rows].
  assert (∃ hs, mapM head rows = Some hs ∧ ∀ i, hs !! i = rows !! i ≫= (.!! 0%nat))
    as (hs & -> & Hhs).
  { clear Hne IH. induction Hrec as [|r rows Hr Hrec IHr]; [by exists []|].
    destruct IHr as (hs & Hm & Hhs). destruct r as [|a r]; [done|].
    exists (a :: hs). cbn. rewrite Hm. split; [done|]. intros [|i]; [done|apply Hhs]. }
  assert (rectangular m (tail <$> rows)) as Hrec'.
  { apply Forall_fmap. eapply Forall_impl; [exact Hrec|]. intros [|a r]; cbn; lia. }
  split.
  - cbn [length]. f_equal. apply (IH _ 0%nat); [done|]. by destruct rows.
  - intros c Hc i. destruct j as [|j].
    + injection Hc as <-. apply Hhs.
    + destruct (IH (tail <$> rows) j Hrec') as [_ Hl]; [by destruct rows|].
      rewrite (Hl c Hc i), list_lookup_fmap. destruct (rows !! i) as [r|] eqn:Hr; [|done].
      cbn. by destruct r.
Qed.

(** ** The argument parser *)

Lemma get_args_fold argv d args :
  ∃ d', foldl get_args_step (d, args) argv
    = (d', args ++ filter (λ a, startswith (str "-") a = false) argv).
Proof.
  revert d args. induction argv as [|a argv IH]; intros d args; cbn [foldl].
  - exists d. by rewrite app_nil_r.
  - rewrite filter_cons. unfold get_args_step at 2.
    destruct (startswith (str "-") a) eqn:Ha.
    + rewrite decide_False by done.
      destruct (split_char "=" (strip_dashes a)) as [|k [|v [|]]]; apply IH.
    + rewrite decide_True by done. destruct (IH d (args ++ [a])) as [d' ->].
      exists d'. by rewrite <-app_assoc.
Qed.

(** The words without a leading dash end up, in order, under ['args'],
    whatever the options are called. *)
Lemma get_args_positional argv :
  dget (str "args") (get_args argv)
  = Some (ArgList (filter (λ a, startswith (str "-") a = false) argv)).
Proof.
  unfold get_args. destruct (get_args_fold argv dempty []) as [d' ->].
  rewrite dget_set. by rewrite decide_True.
Qed.

(** ** Properties *)

(** [int2bin] on a non-negative integer and a positive width: when the
    value fits, the result has exactly [n] bits and [bin2int] reads the value
    back; otherwise it raises [ValueError]. *)
Theorem int2bin_roundtrip long i n :
  0 <= i → 0 < n →
  if i <? 2 ^ n
  then ∃ s, int2bin long i n = Ok s ∧ Z.of_nat (length s) = n ∧ Forall bit_char s
         ∧ bin2int s = Ok i
  else int2bin long i n = Raise ValueError.
Proof.
  intros Hi Hn. destruct (Z.ltb_spec i (2 ^ n)).
  - by apply int2bin_ok.
  - destruct (int2bin_cases long i n) as (r & _ & _ & ->); [done..|].
    by rewrite (proj2 (Z.ltb_ge _ _)).
Qed.

Lemma int2bin_roundtrip_witness :
  ∃ s, int2bin false 123 8 = Ok s ∧ Z.of_nat (length s) = 8 ∧ Forall bit_char s
    ∧ bin2int s = Ok 123.
Proof. refine (int2bin_roundtrip false 123 8 _ _); lia. Defined.

(** [gcf] terminates on all integers with the greatest common divisor,
    and [lcm] is, up to sign, the least common multiple. *)
Theorem gcf_lcm_correct a b :
  gcf a b = Some (Z.gcd a b) ∧ ∃ m, lcm a b = Some m ∧ Z.abs m = Z.lcm a b.
Proof.
  split; [apply gcf_gcd|]. unfold lcm. rewrite gcf_gcd. cbn [mbind option_bind].
  eexists; split; [done|]. unfold Z.lcm. destruct (Z.eqb_spec (Z.gcd a b) 0) as [E|E].
  - apply Z.gcd_eq_0 in E as [-> ->]. done.
  - done.
Qed.

(** [reduce_fraction] keeps the ratio and leaves no common factor; it
    raises [ZeroDivisionError] exactly on (0, 0). *)
Theorem reduce_fraction_lowest n d :
  ∃ r, reduce_fraction (n, d) = Some r ∧
  match r with
  | Ok (p, q) => Z.gcd p q = 1 ∧ p * d = q * n
  | Raise e => e = ZeroDivisionError ∧ n = 0 ∧ d = 0
  end.
Proof.
  unfold reduce_fraction. rewrite gcf_gcd. cbn [mbind option_bind].
  eexists; split; [done|]. pose proof (Z.gcd_nonneg n d).
  destruct (Z.eqb_spec (Z.abs (Z.gcd n d)) 0) as [E|E].
  - split; [done|]. apply Z.gcd_eq_0. lia.
  - rewrite Z.abs_eq by done. split; [apply Z.gcd_div_gcd; lia|].
    destruct (Z.gcd_divide_l n d) as [p Hp]. destruct (Z.gcd_divide_r n d) as [q Hq].
    set (g := Z.gcd n d) in *. rewrite Hp, Hq, !Z.div_mul by lia. lia.
Qed.

(** [is_rotated] decides whether the second sequence is a rotation of the
    first, and raises [IndexError] exactly when both are empty. *)
Theorem is_rotated_correct {A} `{EqDecision A} (seq1 seq2 : list A) :
  match is_rotated seq1 seq2 with
  | Ok b => b = true ↔ rotation seq1 seq2
  | Raise e => e = IndexError ∧ seq1 = [] ∧ seq2 = []
  end.
Proof.
  destruct seq2 as [|a s2].
  - destruct seq1; cbn; [done|]. split; [done|]. intros (i & Hi & Hd).
    apply (f_equal length) in Hd. rewrite length_app, length_drop, length_take in Hd.
    cbn in *. lia.
  - destruct (is_rotated_rotation seq1 (a :: s2)) as (b & -> & Hb); done.
Qed.

(** [find_common_fixes] returns the longest common prefix and the longest
    common suffix. *)
Theorem find_common_fixes_longest {A} `{EqDecision A} (s1 s2 : list A) :
  let '(p, s) := find_common_fixes s1 s2 in
  longest_common_prefix p s1 s2 ∧ longest_common_prefix (rev s) (rev s1) (rev s2).
Proof.
  unfold find_common_fixes. cbn zeta. split; [apply prefix_loop_longest|].
  rewrite rev_involutive, suffix_loop_prefix by lia.
  rewrite <-(length_rev s1), <-(length_rev s2). apply prefix_loop_longest.
Qed.

(** [permutations] lists exactly the permutations of its argument, [n!]
    of them. *)
Theorem permutations_correct {A} (l : list A) :
  (∀ s, s ∈ permutations l ↔ s ≡ₚ l) ∧ length (permutations l) = fact (length l).
Proof. split; [intros; apply permutations_perm|apply permutations_count]. Qed.

(** [uniquify] returns every element once on each of its paths; with
    [preserve_order], and on unhashable items, the first occurrences in order. *)
Theorem uniquify_correct {A} `{EqDecision A} (hashable : A → bool) (l : list A) (o : bool) :
  NoDup (uniquify hashable l o) ∧ (∀ x, x ∈ uniquify hashable l o ↔ x ∈ l)
  ∧ (o = true ∨ forallb hashable l = false → uniquify hashable l o = uniq_loop [] l
       ∧ uniquify hashable l o `sublist_of` l).
Proof.
  destruct (uniquify_elems hashable l o) as [Hnd Hel]. split_and!; [done..|].
  intros Ho. assert (uniquify hashable l o = uniq_loop [] l) as ->.
  { unfold uniquify. rewrite uniq_append_loop. cbn [app].
    destruct (forallb hashable l), o; intuition done. }
  split; [done|apply uniq_loop_sublist].
Qed.

(** [binary_range bits] stops after [2^bits] rounds and lists the numbers
    below [2^bits] in order, each written with [bits] binary digits. *)
Theorem binary_range_counts bits fuel :
  (0 < bits)%nat → 2 ^ Z.of_nat bits <= Z.of_nat fuel →
  ∃ l, binary_range fuel bits = Some l ∧ Z.of_nat (length l) = 2 ^ Z.of_nat bits
  ∧ ∀ j s, l !! j = Some s → length s = bits ∧ Forall bit_char s
      ∧ digits_val 2 s = Z.of_nat j.
Proof.
  intros Hb Hf. unfold binary_range.
  assert (lsb_val (replicate bits "0"%char) = 0) as Hz.
  { rewrite <-lsb_val_rev. clear. induction bits as [|b IH]; [done|].
    cbn [replicate rev]. by rewrite digits_val_app, IH. }
  destruct (binary_range_loop_spec fuel bits [] (replicate bits "0"%char) (toggle_init bits))
    as (l & Hl & Hlen & Hall).
  - apply Forall_replicate. by left.
  - apply length_replicate.
  - apply toggle_init_lookup. lia.
  - lia.
  - rewrite Hz in *. exists l. split_and!; [done|lia|exact Hall].
Qed.

Lemma binary_range_counts_witness :
  ∃ l, binary_range 8 3 = Some l ∧ Z.of_nat (length l) = 8
  ∧ ∀ j s, l !! j = Some s → length s = 3%nat ∧ Forall bit_char s
      ∧ digits_val 2 s = Z.of_nat j.
Proof. refine (binary_range_counts 3 8 _ _); cbn; lia. Defined.

(** Consecutive numbers have Gray codes that differ in exactly one bit. *)
Theorem gray_encode_adjacent i :
  0 <= i → ∃ k, 0 <= k ∧ Z.lxor (gray_encode i) (gray_encode (i + 1)) = 2 ^ k.
Proof.
  intros Hi. destruct (lxor_succ_ones i Hi) as (k & Hk & E). exists k.
  by rewrite gray_lxor, E, gray_ones.
Qed.

Lemma gray_encode_adjacent_witness :
  ∃ k, 0 <= k ∧ Z.lxor (gray_encode 7) (gray_encode 8) = 2 ^ k.
Proof. refine (gray_encode_adjacent 7 _). lia. Defined.

(** [transpose] of a rectangular matrix exchanges the indices. *)
Lemma transpose_lookup {A} m (matrix : list (list A)) i j :
  rectangular m matrix → matrix ≠ [] → (j < m)%nat →
  transpose matrix !! j ≫= (.!! i) = matrix !! i ≫= (.!! j).
Proof.
  intros Hrec Hne Hj. destruct matrix as [|r rows]; [done|]. cbn [transpose].
  pose proof (Forall_inv Hrec) as Hr. cbn beta in Hr. rewrite Hr.
  destruct (zip_rows_lookup m (r :: rows) j Hrec Hne) as [Hl Hz].
  destruct (lookup_lt_is_Some_2 (zip_rows m (r :: rows)) j) as [c Hc]; [lia|].
  rewrite Hc. by apply Hz.
Qed.

(** A width of zero is not checked: the slice [result[:-0]] is empty and
    [result[-0:]] is everything, so no digit is cut and nothing is raised. *)
Lemma int2bin_width_zero : int2bin false 15 0 = Ok (str "1111").
Proof. reflexivity. Qed.

(** Rounding up (or down) a value that is already on the grid raises
    [UnboundLocalError]: neither branch assigns [add_one]. *)
Lemma round_grid_on_grid value grid mode :
  grid ≠ 0 → value mod grid = 0 → mode = 1 ∨ mode = -1 →
  round_grid value grid mode = Raise UnboundLocalError.
Proof.
  intros Hg Hv Hm. unfold round_grid. rewrite (proj2 (Z.eqb_neq _ _) Hg), Hv.
  by destruct Hm as [-> | ->].
Qed.
