(* ===== verification/TopSort.v ===== *)
(** * Models bindings/python/topsort.py

    Topological sorting and cycle search, over the dictionary interface of
    [Dict].  Dictionary iteration order is whatever [dkeys] returns, so every
    theorem holds for every order.  Loops whose bound is not structural take
    fuel and return [None] when it runs out; [topsort] and [topsort_levels]
    supply enough, which is proved. *)
From S2P Require Export RadUtil.
Open Scope Z_scope.

(** ** The functions *)

Section defs.
Context {A : Type} {D : Type → Type} `{DictLaws A D}.

(** What the functions raise: [CycleError] with the arguments [topsort] or
    [topsort_levels_core] gives it, or the [KeyError] of a failed dictionary
    access. *)
Inductive topsort_error : Type :=
  | CycleError (answer : list A) (num_parents : D Z) (children : D (list A))
  | LevelsCycleError (num_parents : D Z) (children : D (list A))
  | DictKeyError.

(** One round of the loop that fills the two dictionaries. *)
Definition build_step (st : D Z * D (list A)) (pair : A * A) : D Z * D (list A) :=
  let '(num_parents, children) := st in
  let '(parent, child) := pair in
  let num_parents := if dhas parent num_parents then num_parents
                     else dset parent 0 num_parents in
  let num_parents := if dhas child num_parents then num_parents
                     else dset child 0 num_parents in
  let num_parents := dset child (dget_or 0 child num_parents + 1) num_parents in
  (num_parents, dset parent (dget_or [] parent children ++ [child]) children).

Definition build (pairlist : list (A * A)) : D Z * D (list A) :=
  foldl build_step (dempty, dempty) pairlist.

(** [[x for x in num_parents.keys() if num_parents[x] == 0]] *)
Definition zero_keys (num_parents : D Z) : list A :=
  filter (λ x, dget x num_parents = Some 0) (dkeys num_parents).

(** [num_parents[child] -= 1]; the pair is the dictionary and the children
    whose count reached zero, in order. *)
Definition decr_step (st : D Z * list A) (child : A) : res topsort_error (D Z * list A) :=
  let '(num_parents, zeros) := st in
  match dget child num_parents with
  | Some n =>
      let n := n - 1 in
      Ok (dset child n num_parents, if decide (n = 0) then zeros ++ [child] else zeros)
  | None => Raise DictKeyError
  end.

(** The body of the loop over [answer] for one parent. *)
Definition topsort_body (parent : A) (num_parents : D Z) (children : D (list A))
    : res topsort_error (D Z * list A * D (list A)) :=
  if dhas parent num_parents then
    let num_parents := ddel parent num_parents in
    match dget parent children with
    | Some cs =>
        '(num_parents, zeros) ← fold_res decr_step (num_parents, []) cs;
        Ok (num_parents, zeros, ddel parent children)
    | None => Ok (num_parents, [], children)
    end
  else Raise DictKeyError.

(** [answer] grows inside the loop: [visited] is the part iterated over, and
    [todo] the part still to come. *)
Fixpoint topsort_loop (fuel : nat) (visited todo : list A) (num_parents : D Z)
    (children : D (list A)) : option (res topsort_error (list A)) :=
  match todo with
  | [] =>
      Some (if decide (dkeys num_parents = []) then Ok visited
            else Raise (CycleError visited num_parents children))
  | parent :: todo =>
      match fuel with
      | O => None
      | S fuel =>
          match topsort_body parent num_parents children with
          | Ok (num_parents, zeros, children) =>
              topsort_loop fuel (visited ++ [parent]) (todo ++ zeros) num_parents children
          | Raise e => Some (Raise e)
          end
      end
  end.

Definition topsort (pairlist : list (A * A)) : option (res topsort_error (list A)) :=
  let '(num_parents, children) := build pairlist in
  topsort_loop (length (dkeys num_parents)) [] (zero_keys num_parents) num_parents children.

(** The generator [topsort_levels_core]: the levels it yields, then how it
    ends ([Ok tt] for [StopIteration]). *)
Definition level_step (st : D Z * D (list A)) (level_parent : A)
    : res topsort_error (D Z * D (list A)) :=
  let '(num_parents, children) := st in
  '(num_parents, _, children) ← topsort_body level_parent num_parents children;
  Ok (num_parents, children).

Fixpoint levels_loop (fuel : nat) (num_parents : D Z) (children : D (list A))
    : option (list (list A) * res topsort_error unit) :=
  match zero_keys num_parents with
  | [] => Some ([], if decide (dkeys num_parents = []) then Ok tt
                    else Raise (LevelsCycleError num_parents children))
  | level_parents =>
      match fuel with
      | O => None
      | S fuel =>
          match fold_res level_step (num_parents, children) level_parents with
          | Ok (num_parents, children) =>
              '(levels, r) ← levels_loop fuel num_parents children;
              Some (level_parents :: levels, r)
          | Raise e => Some ([level_parents], Raise e)
          end
      end
  end.

Definition topsort_levels_core (num_parents : D Z) (children : D (list A))
    : option (list (list A) * res topsort_error unit) :=
  levels_loop (length (dkeys num_parents)) num_parents children.

Definition topsort_levels (pairlist : list (A * A)) : option (list (list A) * res topsort_error unit) :=
  let '(num_parents, children) := build pairlist in
  topsort_levels_core num_parents children.

(** [find_cycles]: the state of the search, and one pass over the children of
    the last node of a path. *)
Record search := MkSearch {
  cycles : list (list A);
  visited_nodes : list A;
  paths : list (list A);
}.

(** [path[path.index(child):]] *)
Fixpoint from_index (child : A) (path : list A) : list A :=
  match path with
  | [] => []
  | x :: rest => if decide (x = child) then path else from_index child rest
  end.

Definition is_dup (cycle : list A) (cycles : list (list A)) : bool :=
  existsb (λ other, match is_rotated other cycle with Ok b => b | Raise _ => false end) cycles.

Definition child_step (path : list A) (s : search) (child : A) : search :=
  if decide (child ∈ path) then
    let cycle := from_index child path in
    if is_dup cycle (cycles s) then s
    else MkSearch (cycles s ++ [cycle]) (visited_nodes s) (paths s)
  else MkSearch (cycles s) (child :: visited_nodes s) ((path ++ [child]) :: paths s).

(** The [while paths] loop; the head of [paths s] is the top of the stack. *)
Fixpoint path_loop (fuel : nat) (parent_children : D (list A)) (s : search) : option search :=
  match paths s with
  | [] => Some s
  | path :: rest =>
      match fuel with
      | O => None
      | S fuel =>
          let s := MkSearch (cycles s) (visited_nodes s) rest in
          match last path ≫= λ parent, dget parent parent_children with
          | Some children => path_loop fuel parent_children (foldl (child_step path) s children)
          | None => path_loop fuel parent_children s
          end
      end
  end.

Fixpoint roots_loop (fuel : nat) (parent_children : D (list A)) (roots : list A) (s : search)
    : option search :=
  match roots with
  | [] => Some s
  | parent :: roots =>
      if decide (parent ∈ visited_nodes s) then roots_loop fuel parent_children roots s
      else
        s ← path_loop fuel parent_children
              (MkSearch (cycles s) (visited_nodes s) [[parent]]);
        roots_loop fuel parent_children roots s
  end.

(** The cycles yielded, in order. *)
Definition find_cycles (fuel : nat) (parent_children : D (list A)) : option (list (list A)) :=
  cycles <$> roots_loop fuel parent_children (dkeys parent_children) (MkSearch [] [] []).
End defs.
Arguments topsort_error : clear implicits.
Arguments search : clear implicits.

(** The examples of the documentation strings, in insertion order. *)
Example topsort_doc1 :
  topsort (D := PyDict nat) [(1,2); (3,4); (5,6); (1,3); (1,5); (1,6); (2,5)]%nat
  = Some (Ok [1; 2; 3; 5; 4; 6]%nat).
Proof. vm_compute. reflexivity. Qed.
Example topsort_levels_doc1 :
  topsort_levels (D := PyDict nat) [(1,2); (3,4); (5,6); (1,3); (1,5); (1,6); (2,5)]%nat
  = Some ([[1]; [2; 3]; [4; 5]; [6]]%nat, Ok tt).
Proof. vm_compute. reflexivity. Qed.
Example find_cycles_doc :
  find_cycles 20 (foldl (λ d '(k, v), dset k v d) (dempty : PyDict nat (list nat))
    [(0,[1]); (1,[3]); (2,[3]); (3,[0;1])]%nat)
  = Some [[0;1;3]; [1;3]]%nat.
Proof. vm_compute. reflexivity. Qed.

(** ** Dependency graphs *)

Section spec.
Context {A : Type} `{EqDecision A}.
Implicit Types (E : list (A * A)) (V : list A).

(** The elements of a pair list, its edges, and the successors of an element
    in order. *)
Definition nodes E : list A := E.*1 ++ E.*2.
Definition edge E (p c : A) : Prop := (p, c) ∈ E.
Definition succs E (p : A) : list A := (filter (λ e, e.1 = p) E).*2.

#[export] Instance edge_dec E : RelDecision (edge E).
Proof. unfold RelDecision, edge. intros p c. apply _. Defined.

(** Predecessors of [x] outside [V], counted with multiplicity. *)
Definition live_parents E V (x : A) : Z :=
  Z.of_nat (length (filter (λ e, e.2 = x ∧ e.1 ∉ V) E)).

Definition cyclic E : Prop := ∃ x, tc (edge E) x x.

(** [V] holds the predecessors of its elements. *)
Definition closed E V : Prop := ∀ p c, edge E p c → c ∈ V → p ∈ V.

Lemma edge_nodes E p c : edge E p c → p ∈ nodes E ∧ c ∈ nodes E.
Proof.
  intros He. unfold nodes. rewrite !elem_of_app. split; [left|right].
  - change p with (p, c).1. by apply list_elem_of_fmap_2.
  - change c with (p, c).2. by apply list_elem_of_fmap_2.
Qed.

Lemma succs_elem E p c : c ∈ succs E p ↔ edge E p c.
Proof.
  unfold succs, edge. rewrite list_elem_of_fmap. split.
  - intros ([p' c'] & -> & [Hp ?]%list_elem_of_filter). cbn in *. by subst.
  - intros He. exists (p, c). split; [done|]. by apply list_elem_of_filter.
Qed.

Lemma succs_nonnil E p : succs E p ≠ [] ↔ p ∈ E.*1.
Proof.
  split.
  - destruct (succs E p) as [|c cs] eqn:Hs; [done|]. intros _.
    assert (edge E p c) as He by (apply succs_elem; rewrite Hs; left). apply list_elem_of_fmap. by exists (p, c).
  - intros ([q c] & -> & He)%list_elem_of_fmap Hn. cbn in Hn. apply (succs_elem E q c) in He. rewrite Hn in He.
    by apply elem_of_nil in He.
Qed.

Lemma live_parents_nonneg E V x : 0 <= live_parents E V x.
Proof. unfold live_parents. lia. Qed.

Lemma live_parents_0 E V x :
  live_parents E V x = 0 ↔ ∀ p, edge E p x → p ∈ V.
Proof.
  unfold live_parents, edge. split.
  - intros H0 p Hp. destruct (decide (p ∈ V)) as [|Hn]; [done|exfalso].
    assert ((p, x) ∈ filter (λ e, e.2 = x ∧ e.1 ∉ V) E) as Hin
      by (by apply list_elem_of_filter).
    destruct (filter _ E); [by apply elem_of_nil in Hin|done].
  - intros Hall. destruct (filter _ E) as [|[p c] l] eqn:Hf; [done|exfalso].
    assert ((p, c) ∈ filter (λ e, e.2 = x ∧ e.1 ∉ V) E) as Hin by (rewrite Hf; left).
    apply list_elem_of_filter in Hin as [[Hc Hn] Hin]. cbn in *. subst. eauto.
Qed.

(** Visiting [p] removes its edges from the counts. *)
Lemma live_parents_visit E V p x :
  p ∉ V →
  live_parents E (V ++ [p]) x = live_parents E V x - Z.of_nat (count x (succs E p)).
Proof.
  intros Hp. unfold live_parents, succs. induction E as [|[q c] E IH]; [done|].
  rewrite !filter_cons. cbn [fst snd].
  destruct (decide (q = p)) as [->|Hqp].
  - rewrite (decide_False (P := c = x ∧ p ∉ (V ++ [p]))) by set_solver.
    rewrite fmap_cons, count_cons. destruct (decide (c = x)) as [->|Hc].
    + rewrite (decide_True (P := x = x ∧ p ∉ V)), decide_True by done. cbn [length]. lia.
    + rewrite (decide_False (P := c = x ∧ p ∉ V)) by tauto. cbn [snd].
      rewrite decide_False by congruence. lia.
  - destruct (decide (c = x ∧ q ∉ V)) as [[-> HqV]|Hn].
    + rewrite (decide_True (P := x = x ∧ q ∉ (V ++ [p]))) by set_solver. cbn [length]. lia.
    + rewrite (decide_False (P := c = x ∧ q ∉ (V ++ [p]))); [lia|]. intros [-> Hq].
      apply Hn. split; [done|]. set_solver.
Qed.

(** Positions of an order that respects the edges grow along paths. *)
Lemma before_tc E l x y :
  NoDup l → (∀ p c, edge E p c → before l p c) → tc (edge E) x y → before l x y.
Proof.
  intros Hnd Hord. induction 1 as [x y He|x y z He _ IH]; [by apply Hord|].
  apply before_lookup in IH as (i & j & Hi & Hj & Hij); [|done].
  apply Hord, before_lookup in He as (i' & j' & Hi' & Hj' & Hij'); [|done].
  apply before_lookup; [done|]. exists i', j. split_and!; [done..|].
  pose proof (NoDup_lookup _ _ _ _ Hnd Hi Hj'). lia.
Qed.

Lemma ordered_acyclic E l :
  NoDup l → (∀ p c, edge E p c → before l p c) → ¬ cyclic E.
Proof.
  intros Hnd Hord [x Hx]. apply (before_tc E l) in Hx; [|done..].
  apply before_lookup in Hx as (i & j & Hi & Hj & Hij); [|done].
  pose proof (NoDup_lookup _ _ _ _ Hnd Hi Hj). lia.
Qed.

(** What is left when nothing outside [V] has all its parents in [V]. *)
Lemma stuck_cyclic E V :
  (∀ x, x ∈ nodes E → x ∉ V → live_parents E V x ≠ 0) →
  (∃ x, x ∈ nodes E ∧ x ∉ V) → cyclic E.
Proof.
  intros Hpos (x0 & Hx0 & Hn0).
  destruct (serial_cycle (edge E) (filter (λ x, x ∉ V) (nodes E))) as (x & _ & Hx).
  - intros Hf. assert (x0 ∈ filter (λ x, x ∉ V) (nodes E)) as Hin
      by (by apply list_elem_of_filter).
    rewrite Hf in Hin. by apply elem_of_nil in Hin.
  - intros x [Hn Hx]%list_elem_of_filter. specialize (Hpos x Hx Hn).
    destruct (decide (Exists (λ e, e.2 = x ∧ e.1 ∉ V) E)) as [Hex|Hno].
    + apply Exists_exists in Hex as ([p c] & He & Hc & Hp). cbn in *. subst.
      exists p. split; [|done]. apply list_elem_of_filter. split; [done|].
      by apply (edge_nodes E p x).
    + exfalso. apply Hpos, live_parents_0. intros p Hp.
      destruct (decide (p ∈ V)) as [|Hnp]; [done|]. exfalso. apply Hno, Exists_exists.
      by exists (p, x).
  - by exists x.
Qed.
End spec.

(** ** The counting algorithm *)

Section algorithm.
Context {A : Type} {D : Type → Type} `{DictLaws A D}.
Implicit Types (E : list (A * A)) (V : list A).

(** A dictionary of counts [f] on the elements satisfying [P]. *)
Definition counted (P : A → Prop) `{∀ x, Decision (P x)} (f : A → Z) (np : D Z) : Prop :=
  ∀ x, dget x np = if decide (P x) then Some (f x) else None.

(** [if not num_parents.has_key(p): num_parents[p] = 0] *)
Lemma counted_ensure P `{∀ x, Decision (P x)} f np p :
  counted P f np → (¬ P p → f p = 0) →
  counted (λ x, P x ∨ x = p) f (if dhas p np then np else dset p 0 np).
Proof.
  intros Hnp Hf x. destruct (dhas p np) eqn:Hp.
  - apply dhas_true in Hp. rewrite Hnp in Hp. rewrite Hnp.
    destruct (decide (P p)); [|by destruct Hp].
    repeat case_decide; try done; exfalso; naive_solver.
  - apply dhas_false in Hp. rewrite dget_set, Hnp. rewrite Hnp in Hp.
    destruct (decide (P p)) as [|Hn]; [done|].
    repeat case_decide; try (exfalso; naive_solver); subst; f_equal; auto.
    symmetry. auto.
Qed.

(** The dictionaries hold the counts and the successors of what is not yet
    visited. *)
Definition dicts_ok E V (np : D Z) (ch : D (list A)) : Prop :=
  counted (λ x, x ∈ nodes E ∧ x ∉ V) (live_parents E V) np
  ∧ (∀ p, dget p ch = if decide (p ∈ E.*1 ∧ p ∉ V) then Some (succs E p) else None).

Lemma nodes_snoc E p c x : x ∈ nodes (E ++ [(p, c)]) ↔ (x ∈ nodes E ∨ x = p) ∨ x = c.
Proof. unfold nodes. rewrite !fmap_app. cbn. set_solver. Qed.

Lemma live_parents_snoc E p c x :
  live_parents (E ++ [(p, c)]) [] x = live_parents E [] x + (if decide (x = c) then 1 else 0).
Proof.
  unfold live_parents. rewrite filter_app, length_app, filter_cons. cbn.
  destruct (decide (x = c)) as [->|Hx].
  - rewrite decide_True by (split; [done|apply not_elem_of_nil]). cbn. lia.
  - rewrite decide_False by (intros [? _]; congruence). cbn. lia.
Qed.

Lemma succs_snoc E p c q :
  succs (E ++ [(p, c)]) q = succs E q ++ (if decide (p = q) then [c] else []).
Proof.
  unfold succs. rewrite filter_app, fmap_app, filter_cons. cbn. by destruct (decide (p = q)).
Qed.

Lemma live_parents_fresh E x : x ∉ nodes E → live_parents E [] x = 0.
Proof. intros Hx. apply live_parents_0. intros q Hq. by apply edge_nodes in Hq as [_ ?]. Qed.

Lemma build_step_counts E p c np ch :
  dicts_ok E [] np ch →
  counted (λ x, x ∈ nodes (E ++ [(p, c)]) ∧ x ∉ []) (live_parents (E ++ [(p, c)]) [])
    (build_step (np, ch) (p, c)).1.
Proof.
  intros [Hnp _] x. cbn [build_step fst].
  assert (¬ (p ∈ nodes E ∧ p ∉ []) → live_parents E [] p = 0) as Hp.
  { intros Hn. apply live_parents_fresh. intros ?. apply Hn.
    split; [done|apply not_elem_of_nil]. }
  pose proof (counted_ensure _ _ _ p Hnp Hp) as Hnp1.
  assert (¬ ((c ∈ nodes E ∧ c ∉ []) ∨ c = p) → live_parents E [] c = 0) as Hc.
  { intros Hn. apply live_parents_fresh. intros ?. apply Hn. left.
    split; [done|apply not_elem_of_nil]. }
  pose proof (counted_ensure _ _ _ c Hnp1 Hc) as Hnp2.
  set (np2 := if dhas c _ then _ else _) in *. clearbody np2.
  rewrite dget_set. unfold dget_or. rewrite !Hnp2, live_parents_snoc.
  assert (x ∉ []) by apply not_elem_of_nil.
  rewrite (decide_True (P := (_ ∨ c = p) ∨ c = c)) by auto.
  destruct (decide (x = c)) as [->|Hx].
  - rewrite decide_True; [done|]. split; [apply nodes_snoc; auto|done].
  - rewrite Z.add_0_r.
    repeat case_decide; try done; exfalso; rewrite nodes_snoc in *; naive_solver.
Qed.

Lemma build_step_children E p c np ch q :
  dicts_ok E [] np ch →
  dget q (build_step (np, ch) (p, c)).2
  = if decide (q ∈ (E ++ [(p, c)]).*1 ∧ q ∉ []) then Some (succs (E ++ [(p, c)]) q) else None.
Proof.
  intros [_ Hch]. cbn [build_step snd]. rewrite dget_set. unfold dget_or.
  rewrite !Hch, succs_snoc. assert (q ∉ []) by apply not_elem_of_nil.
  assert (q ∈ (E ++ [(p, c)]).*1 ↔ q ∈ E.*1 ∨ q = p) as Hq.
  { rewrite fmap_app. cbn. set_solver. }
  destruct (decide (q = p)) as [->|Hqp].
  - rewrite (decide_True (P := p ∈ (E ++ [(p, c)]).*1 ∧ _)) by (split; [apply Hq; auto|done]).
    rewrite (decide_True (P := p = p)) by done. do 2 f_equal.
    destruct (decide (p ∈ E.*1 ∧ p ∉ [])) as [|Hn]; [done|]. cbn.
    symmetry. apply elem_of_nil_inv. intros x Hx. apply Hn. split; [|done].
    apply succs_elem in Hx. change p with (p, x).1. by apply list_elem_of_fmap_2.
  - rewrite (decide_False (P := p = q)), app_nil_r by congruence.
    repeat case_decide; try done; exfalso; naive_solver.
Qed.

Lemma build_ok E : dicts_ok E [] (build (D := D) E).1 (build E).2.
Proof.
  unfold build. induction E as [|[p c] E IH] using rev_ind.
  { cbn. split; intros x; rewrite dget_empty, decide_False; [done| |done|];
      unfold nodes; cbn; intros [Hx _]; by apply elem_of_nil in Hx. }
  rewrite foldl_app. cbn [foldl]. destruct (foldl _ _ E) as [np ch]. cbn [fst snd] in IH.
  split; [by apply build_step_counts|]. intros q. by apply build_step_children.
Qed.

Arguments decr_step : simpl never.

(** Decrementing along [cs] when every count is large enough: the counts drop
    by the number of occurrences, and those that end at zero are reported
    once. *)
Lemma decr_fold cs (np : D Z) zs :
  (∀ c, c ∈ cs → ∃ k, dget c np = Some k ∧ Z.of_nat (count c cs) <= k) →
  ∃ np' new, fold_res decr_step (np, zs) cs = Ok (np', zs ++ new)
    ∧ (∀ x, dget x np' = (λ k, k - Z.of_nat (count x cs)) <$> dget x np)
    ∧ NoDup new
    ∧ (∀ x, x ∈ new ↔ x ∈ cs ∧ dget x np = Some (Z.of_nat (count x cs))).
Proof.
  revert np zs. induction cs as [|c cs IH]; intros np zs Hk.
  { exists np, []. rewrite app_nil_r. split_and!; [done| |constructor|].
    - intros x. rewrite count_nil. destruct (dget x np); cbn; [|done]. f_equal. lia.
    - intros x. rewrite elem_of_nil. tauto. }
  destruct (Hk c) as (k & Hc & Hkc); [by left|]. rewrite count_cons, decide_True in Hkc by done.
  cbn [fold_res]. unfold decr_step at 1. rewrite Hc.
  destruct (IH (dset c (k - 1) np) (if decide (k - 1 = 0) then zs ++ [c] else zs))
    as (np' & new & Hf & Hnp' & Hnd & Hnew).
  { intros x Hx. destruct (Hk x) as (kx & Hx1 & Hkx); [by right|]. rewrite dget_set.
    rewrite count_cons in Hkx. destruct (decide (x = c)) as [->|]; [|eauto with lia].
    exists (k - 1). split; [done|]. simplify_eq. lia. }
  exists np', ((if decide (k - 1 = 0) then [c] else []) ++ new). split_and!.
  - rewrite Hf. case_decide; [by rewrite <-app_assoc|done].
  - intros x. rewrite Hnp', dget_set, count_cons. destruct (decide (x = c)) as [->|].
    + rewrite Hc. cbn. f_equal. lia.
    + destruct (dget x np); cbn; [|done]. f_equal; lia.
  - case_decide as Hz; [|done]. apply NoDup_cons. split; [|done]. rewrite Hnew.
    intros [Hin _]. apply count_pos in Hin. lia.
  - intros x. rewrite elem_of_app, Hnew, dget_set, elem_of_cons, count_cons.
    destruct (decide (x = c)) as [->|Hxc].
    + rewrite Hc. destruct (decide (k - 1 = 0)) as [Hz|Hz].
      * split; [|by left; left]. intros _. split; [by left|]. f_equal. lia.
      * rewrite elem_of_nil. split.
        -- intros [[]|[_ [= ?]]]. split; [by left|]. f_equal. lia.
        -- intros [_ [= ?]]. right. split; [|f_equal; lia]. apply count_pos. lia.
    + replace (0 + count x cs)%nat with (count x cs) by lia.
      split; [|intros [[?|?] ?]; [done|by right]].
      intros [Hx|[? ?]]; [|auto]. case_decide; [|by apply elem_of_nil in Hx].
      by apply list_elem_of_singleton in Hx.
Qed.

(** Visiting an element whose parents are all visited. *)
Lemma topsort_body_ok E V np ch p :
  dicts_ok E V np ch → closed E V → p ∈ nodes E → p ∉ V → live_parents E V p = 0 →
  ∃ np' zs ch', topsort_body p np ch = Ok (np', zs, ch')
    ∧ dicts_ok E (V ++ [p]) np' ch' ∧ NoDup zs
    ∧ (∀ x, x ∈ zs ↔ x ∈ succs E p ∧ live_parents E (V ++ [p]) x = 0).
Proof.
  intros [Hnp Hch] Hcl Hp HpV Hp0. unfold topsort_body.
  assert (dhas p np = true) as ->.
  { apply dhas_true. rewrite Hnp, decide_True by done. eauto. }
  assert (∀ c, c ∈ succs E p → c ∈ nodes E ∧ c ∉ V ∧ c ≠ p) as Hsucc.
  { intros c Hc%succs_elem. split; [by apply (edge_nodes E p c)|].
    split; [intros HcV; by apply HpV, (Hcl p c)|]. intros ->.
    by apply HpV, (proj1 (live_parents_0 E V p) Hp0). }
  assert (∀ x, live_parents E (V ++ [p]) x
             = live_parents E V x - Z.of_nat (count x (succs E p))) as Hlive
    by (intros x; by apply live_parents_visit).
  assert (∀ np', (∀ x, dget x np' = (λ k, k - Z.of_nat (count x (succs E p)))
                         <$> dget x (ddel p np)) →
     counted (λ x, x ∈ nodes E ∧ x ∉ (V ++ [p])) (live_parents E (V ++ [p])) np') as Hcounted.
  { intros np' Hnp' x. rewrite Hnp', dget_del, Hnp, Hlive.
    assert (x ∉ (V ++ [p]) ↔ x ∉ V ∧ x ≠ p) by set_solver.
    repeat case_decide; try done; exfalso; naive_solver. }
  assert (∀ q, dget q (ddel p ch)
               = if decide (q ∈ E.*1 ∧ q ∉ (V ++ [p])) then Some (succs E q) else None) as Hdel.
  { intros q. rewrite dget_del, Hch. assert (q ∉ (V ++ [p]) ↔ q ∉ V ∧ q ≠ p) by set_solver.
    repeat case_decide; try done; exfalso; naive_solver. }
  destruct (dget p ch) as [cs|] eqn:Hpc.
  - assert (cs = succs E p) as -> by (rewrite Hch in Hpc; by case_decide; simplify_eq).
    destruct (decr_fold (succs E p) (ddel p np) []) as (np' & zs & -> & Hnp' & Hnd & Hzs).
    { intros c Hc. destruct (Hsucc c Hc) as (? & ? & ?).
      rewrite dget_del, Hnp, decide_False, decide_True by done.
      eexists; split; [done|]. specialize (Hlive c).
      pose proof (live_parents_nonneg E (V ++ [p]) c). lia. }
    cbn [mbind res_bind app]. eexists _, _, _. split_and!; [done|by split; auto|done|].
    intros x. rewrite Hzs, Hlive. split; intros [Hx Hk]; (split; [done|]);
      destruct (Hsucc x Hx) as (? & ? & ?);
      rewrite dget_del, Hnp, decide_False, decide_True in * by done;
      [injection Hk; lia|f_equal; lia].
  - assert (succs E p = []) as Hnil.
    { apply elem_of_nil_inv. intros c Hc%succs_elem. rewrite Hch, decide_True in Hpc; [done|].
      split; [|done]. change p with (p, c).1. by apply list_elem_of_fmap_2. }
    eexists _, _, _. split_and!; [done|split|constructor|].
    + apply Hcounted. intros x. rewrite Hnil, count_nil. destruct (dget x (ddel p np)); cbn; [|done].
      f_equal. lia.
    + intros q. rewrite <-Hdel, dget_del. by case_decide; subst.
    + intros x. rewrite Hnil, elem_of_nil. tauto.
Qed.

Lemma closed_visit E V p :
  closed E V → live_parents E V p = 0 → closed E (V ++ [p]).
Proof.
  intros Hcl Hp0 q c He Hc. apply elem_of_app in Hc as [Hc| ->%list_elem_of_singleton].
  - apply elem_of_app. left. eauto.
  - apply elem_of_app. left. by apply (proj1 (live_parents_0 E V p) Hp0).
Qed.

(** The state of the main loop. *)
Definition ready E V (todo : list A) : Prop :=
  ∀ x, x ∈ todo ↔ x ∈ nodes E ∧ x ∉ V ∧ live_parents E V x = 0.

Definition ordered E V : Prop := ∀ p c, edge E p c → c ∈ V → before V p c.

Lemma ordered_visit E V p :
  p ∉ V → ordered E V → live_parents E V p = 0 → ordered E (V ++ [p]).
Proof.
  intros Hp Ho Hp0 q c He [Hc| ->%list_elem_of_singleton]%elem_of_app.
  - by apply before_app, Ho.
  - apply before_snoc_r; [|done]. by apply (proj1 (live_parents_0 E V p) Hp0).
Qed.

(** The successors of [p] that become ready join the queue. *)
Lemma ready_visit E V p todo zs :
  closed E V → p ∉ V → ready E V (p :: todo) → NoDup (p :: todo) →
  (∀ x, x ∈ zs ↔ x ∈ succs E p ∧ live_parents E (V ++ [p]) x = 0) → NoDup zs →
  ready E (V ++ [p]) (todo ++ zs) ∧ NoDup (todo ++ zs).
Proof.
  intros Hcl HpV Hr [Hpt Hnd]%NoDup_cons Hzs Hndz.
  assert (live_parents E V p = 0) as Hp0 by (apply (proj1 (Hr p)); by left).
  assert (∀ x, live_parents E (V ++ [p]) x
             = live_parents E V x - Z.of_nat (count x (succs E p))) as Hlive
    by (intros x; by apply live_parents_visit).
  assert (∀ x, x ∈ todo → x ∉ zs) as Hdisj.
  { intros x Hx [Hs _]%Hzs. destruct (proj1 (Hr x)) as (_ & HxV & Hx0); [by right|].
    apply HpV. apply (proj1 (live_parents_0 E V x) Hx0). by apply succs_elem. }
  split; [|by apply NoDup_app].
  intros x. rewrite elem_of_app, Hzs, not_elem_of_app, not_elem_of_cons.
  assert (x ∈ todo ↔ (x ∈ nodes E ∧ x ∉ V ∧ live_parents E V x = 0) ∧ x ≠ p) as ->.
  { specialize (Hr x). rewrite elem_of_cons in Hr. split.
    - intros Hx. split; [by apply Hr; right|]. by intros ->.
    - intros [Hx Hxp]. by apply Hr in Hx as [?|?]. }
  pose proof (live_parents_nonneg E (V ++ [p]) x). specialize (Hlive x).
  destruct (decide (x ∈ succs E p)) as [Hs|Hs].
  - assert (x ≠ p) as Hxp.
    { intros ->. apply succs_elem in Hs. by apply HpV, (proj1 (live_parents_0 E V p) Hp0). }
    assert (x ∉ V) by (intros HxV; apply HpV, (Hcl p x); [by apply succs_elem|done]).
    assert (x ∈ nodes E) by (apply succs_elem in Hs; by apply (edge_nodes E p x)).
    pose proof (proj1 (count_pos _ _) Hs). split.
    + intros [[(_ & _ & Hx) _]|[_ Hx]]; [lia|]. split_and!; auto using not_elem_of_nil.
    + intros (_ & _ & Hx). auto.
  - apply count_0 in Hs as Hcnt. rewrite Hcnt, Z.sub_0_r in Hlive. rewrite Hlive.
    split; [intros [[(? & ? & ?) ?]|[? _]]; [|done]|]; [split_and!; auto using not_elem_of_nil|].
    intros (? & (? & ? & _) & ?). auto.
Qed.

(** What the loop returns, from any state it can be in. *)
Lemma topsort_loop_ok E fuel V todo np ch N :
  dicts_ok E V np ch → closed E V → ready E V todo → NoDup V → NoDup todo →
  V ⊆ nodes E → ordered E V →
  (∀ V', NoDup V' → V' ⊆ nodes E → (length V' ≤ N)%nat) → (N ≤ fuel + length V)%nat →
  ∃ V' np' ch', topsort_loop fuel V todo np ch =
      Some (if decide (dkeys np' = []) then Ok V' else Raise (CycleError V' np' ch'))
    ∧ dicts_ok E V' np' ch' ∧ closed E V' ∧ ready E V' [] ∧ NoDup V'
    ∧ V' ⊆ nodes E ∧ ordered E V'.
Proof.
  intros Hd Hcl Hr HV Ht Hsub Ho HN. revert V todo np ch Hd Hcl Hr HV Ht Hsub Ho.
  induction fuel as [|fuel IH]; intros V [|p todo] np ch Hd Hcl Hr HV Ht Hsub Ho Hf.
  - cbn. eexists _, _, _. split_and!; done.
  - exfalso. destruct (proj1 (Hr p)) as (Hp & HpV & _); [by left|].
    assert (NoDup (p :: V)) as Hnd by (by apply NoDup_cons).
    apply HN in Hnd; [|set_solver]. cbn in *. lia.
  - cbn. eexists _, _, _. split_and!; done.
  - destruct (proj1 (Hr p)) as (Hp & HpV & Hp0); [by left|].
    destruct (topsort_body_ok E V np ch p) as (np' & zs & ch' & Hb & Hd' & Hnz & Hz); [done..|].
    cbn [topsort_loop]. rewrite Hb.
    destruct (ready_visit E V p todo zs) as [Hr' Ht']; [done..|].
    apply IH; auto.
    + by apply closed_visit.
    + apply NoDup_app. split_and!; [done| |apply NoDup_singleton].
      intros x Hx ->%list_elem_of_singleton. done.
    + set_solver.
    + by apply ordered_visit.
    + rewrite length_app. cbn. lia.
Qed.

(** The number of dictionary keys bounds the nodes that can be visited. *)
Lemma build_bound E V' :
  NoDup V' → V' ⊆ nodes E → (length V' ≤ length (dkeys (build (D := D) E).1))%nat.
Proof.
  intros Hnd Hsub. apply submseteq_length, NoDup_submseteq; [done|].
  intros x Hx. apply dkeys_spec. destruct (build_ok E) as [Hnp _].
  rewrite Hnp, decide_True; [eauto|]. split; [by apply Hsub|apply not_elem_of_nil].
Qed.

Lemma zero_keys_ready E V np ch : dicts_ok E V np ch → ready E V (zero_keys np).
Proof.
  intros [Hnp _] x. unfold zero_keys. rewrite list_elem_of_filter, dkeys_spec, Hnp.
  case_decide as Hx; split.
  - intros [[= ?] _]. tauto.
  - intros (_ & _ & ->). eauto.
  - by intros [? _].
  - tauto.
Qed.

Lemma zero_keys_nodup (np : D Z) : NoDup (zero_keys np).
Proof. apply NoDup_filter, dkeys_nodup. Qed.

Lemma dkeys_done E V np ch :
  dicts_ok E V np ch → dkeys np = [] ↔ ∀ x, x ∈ nodes E → x ∈ V.
Proof.
  intros [Hnp _]. rewrite dkeys_nil. split.
  - intros Hk x Hx. specialize (Hk x). rewrite Hnp in Hk.
    destruct (decide (x ∈ V)); [done|]. by rewrite decide_True in Hk.
  - intros Hall x. rewrite Hnp, decide_False; [done|]. intros [? Hx]. by apply Hx, Hall.
Qed.

(** When nothing is ready and something is left, the pairs are cyclic. *)
Lemma stuck_keys_cyclic E V np ch :
  dicts_ok E V np ch → ready E V [] → dkeys np ≠ [] → cyclic E.
Proof.
  intros Hd Hr Hk. apply (stuck_cyclic E V).
  - intros x Hx HxV Hp0. by apply (elem_of_nil x), Hr.
  - destruct Hd as [Hnp _]. destruct (dkeys np) as [|x ks] eqn:Hks; [done|].
    assert (x ∈ dkeys np) as [v Hv]%dkeys_spec by (rewrite Hks; left).
    rewrite Hnp in Hv. case_decide; [eauto|done].
Qed.

(** A key left over has a parent that is left over too. *)
Lemma leftover_parent E V np ch x :
  dicts_ok E V np ch → ready E V [] → x ∈ dkeys np →
  ∃ p, edge E p x ∧ p ∈ dkeys np.
Proof.
  intros [Hnp _] Hr [v Hv]%dkeys_spec. rewrite Hnp in Hv. case_decide as Hx; [|done].
  destruct (decide (Exists (λ e, e.2 = x ∧ e.1 ∉ V) E)) as [Hex|Hno].
  - apply Exists_exists in Hex as ([p c] & He & Hc & Hp). cbn in *. subst.
    exists p. split; [done|]. apply dkeys_spec. rewrite Hnp, decide_True; [eauto|].
    split; [by apply (edge_nodes E p x)|done].
  - exfalso. apply (elem_of_nil x), Hr. split_and!; [tauto|tauto|].
    apply live_parents_0. intros p Hp. destruct (decide (p ∈ V)) as [|Hnp']; [done|].
    exfalso. apply Hno, Exists_exists. by exists (p, x).
Qed.

(** The complete description of [topsort]. *)
Lemma topsort_result E :
  ∃ V np ch, topsort (D := D) E =
      Some (if decide (dkeys np = []) then Ok V else Raise (CycleError V np ch))
    ∧ dicts_ok E V np ch ∧ ready E V [] ∧ NoDup V ∧ V ⊆ nodes E ∧ ordered E V.
Proof.
  unfold topsort. pose proof (build_ok E) as Hd. pose proof (build_bound E) as HN.
  destruct (build E) as [np ch]. cbn [fst snd] in *.
  destruct (topsort_loop_ok E (length (dkeys np)) [] (zero_keys np) np ch (length (dkeys np)))
    as (V & np' & ch' & -> & ? & _ & ? & ? & ? & ?); auto; [..|by exists V, np', ch'].
  - intros p c _ Hc. by apply elem_of_nil in Hc.
  - by apply (zero_keys_ready E [] np ch).
  - constructor.
  - apply zero_keys_nodup.
  - intros x Hx. by apply elem_of_nil in Hx.
  - intros p c _ Hc. by apply elem_of_nil in Hc.
  - cbn. lia.
Qed.

(** ** Levels *)

(** Visiting a whole level: every member stays ready while the others are
    visited. *)
Lemma level_fold_ok E level V np ch :
  dicts_ok E V np ch → closed E V → NoDup level →
  (∀ x, x ∈ level → x ∈ nodes E ∧ x ∉ V ∧ live_parents E V x = 0) →
  ∃ np' ch', fold_res level_step (np, ch) level = Ok (np', ch')
    ∧ dicts_ok E (V ++ level) np' ch' ∧ closed E (V ++ level).
Proof.
  revert V np ch. induction level as [|p level IH]; intros V np ch Hd Hcl Hnd Hl.
  - exists np, ch. by rewrite app_nil_r.
  - apply NoDup_cons in Hnd as [Hpl Hnd]. destruct (Hl p) as (Hp & HpV & Hp0); [by left|].
    destruct (topsort_body_ok E V np ch p) as (np' & zs & ch' & Hb & Hd' & _ & _); [done..|].
    cbn [fold_res]. unfold level_step at 1. rewrite Hb. cbn [mbind res_bind].
    replace (V ++ p :: level) with ((V ++ [p]) ++ level) by (by rewrite <-app_assoc).
    apply IH; [done|by apply closed_visit|done|].
    intros x Hx. destruct (Hl x) as (? & ? & Hx0); [by right|].
    split_and!; [done| |].
    + apply not_elem_of_app. split; [done|]. apply not_elem_of_cons.
      split; [by intros ->|apply not_elem_of_nil].
    + apply live_parents_0. intros q Hq. apply elem_of_app. left.
      by apply (proj1 (live_parents_0 E V x) Hx0).
Qed.

(** The levels after [V]: each non-empty, disjoint, holding exactly the
    elements whose parents are all in [V] and the earlier levels. *)
Fixpoint levels_ok E V (levels : list (list A)) : Prop :=
  match levels with
  | [] => ready E V []
  | level :: levels =>
      level ≠ [] ∧ NoDup level ∧ ready E V level ∧ levels_ok E (V ++ level) levels
  end.

Lemma levels_loop_ok E fuel V np ch N :
  dicts_ok E V np ch → closed E V → NoDup V → V ⊆ nodes E →
  (∀ V', NoDup V' → V' ⊆ nodes E → (length V' ≤ N)%nat) → (N ≤ fuel + length V)%nat →
  ∃ levels np' ch', levels_loop fuel np ch =
      Some (levels, if decide (dkeys np' = []) then Ok tt else Raise (LevelsCycleError np' ch'))
    ∧ levels_ok E V levels ∧ dicts_ok E (V ++ mjoin levels) np' ch'.
Proof.
  intros Hd Hcl HV Hsub HN. revert V np ch Hd Hcl HV Hsub.
  induction fuel as [|fuel IH]; intros V np ch Hd Hcl HV Hsub Hf;
    pose proof (zero_keys_ready E V np ch Hd) as Hr; pose proof (zero_keys_nodup np) as Hnd;
    cbn [levels_loop]; destruct (zero_keys np) as [|p rest].
  - exists [], np, ch. cbn. rewrite app_nil_r. done.
  - exfalso. destruct (proj1 (Hr p)) as (Hp & HpV & _); [by left|].
    assert (NoDup (p :: V)) as Hnd' by (by apply NoDup_cons).
    apply HN in Hnd'; [|set_solver]. cbn in *. lia.
  - exists [], np, ch. cbn. rewrite app_nil_r. done.
  - destruct (level_fold_ok E (p :: rest) V np ch) as (np' & ch' & -> & Hd' & Hcl'); [done..| |].
    { intros x. apply Hr. }
    destruct (IH (V ++ p :: rest) np' ch') as (levels & np'' & ch'' & -> & Hlev & Hd''); auto.
    + apply NoDup_app. split_and!; [done| |done]. intros x HxV Hx%Hr. tauto.
    + intros x [?|Hx%Hr]%elem_of_app; [by apply Hsub|tauto].
    + rewrite length_app. cbn. lia.
    + exists ((p :: rest) :: levels), np'', ch''. split_and!; [done|by split_and!|].
      change (mjoin ((p :: rest) :: levels)) with ((p :: rest) ++ mjoin levels).
      by rewrite app_assoc.
Qed.

(** Everything in the levels is new and has its parents in earlier levels. *)
Lemma levels_ok_flat E V levels :
  levels_ok E V levels → NoDup (mjoin levels) ∧
  ∀ x, x ∈ mjoin levels → x ∈ nodes E ∧ x ∉ V.
Proof.
  revert V. induction levels as [|l levels IH]; intros V Hok.
  - split; [constructor|]. intros x Hx. by apply elem_of_nil in Hx.
  - destruct Hok as (_ & Hnd & Hr & Hok). destruct (IH _ Hok) as [Hnd' Hin].
    change (mjoin (l :: levels)) with (l ++ mjoin levels). split.
    + apply NoDup_app. split_and!; [done| |done]. intros x Hx Hx'.
      apply Hin in Hx' as [_ Hx']. apply Hx', elem_of_app. by right.
    + intros x [Hx|Hx]%elem_of_app; [apply Hr in Hx; tauto|].
      apply Hin in Hx as [? Hx]. split; [done|]. intros ?. apply Hx, elem_of_app. by left.
Qed.

Lemma levels_ok_lookup E V levels i l c :
  levels_ok E V levels → levels !! i = Some l → c ∈ l →
  (∀ p, edge E p c → p ∈ V ∨ ∃ j m, (j < i)%nat ∧ levels !! j = Some m ∧ p ∈ m)
  ∧ (∀ j m, levels !! j = Some m → S j = i → ∃ p, edge E p c ∧ p ∈ m).
Proof.
  revert V i. induction levels as [|k levels IH]; intros V i Hok Hi Hc; [done|].
  destruct Hok as (Hne & Hnd & Hr & Hok). destruct i as [|i].
  - injection Hi as ->. split; [|intros; lia]. intros p Hp. left.
    destruct (proj1 (Hr c) Hc) as (_ & _ & Hp0). by apply (proj1 (live_parents_0 E V c) Hp0).
  - cbn in Hi. destruct (IH _ _ Hok Hi Hc) as [Hpar Hprev]. split.
    + intros p Hp. destruct (Hpar p Hp) as [[?|Hk]%elem_of_app|(j & m & ? & ? & ?)].
      * by left.
      * right. exists 0%nat, k. split_and!; [lia|done..].
      * right. exists (S j), m. split_and!; [lia|done..].
    + intros [|j] m Hj Hji; [|apply (Hprev j m); [done|lia]].
      injection Hj as <-. assert (i = 0%nat) as -> by lia.
      destruct levels as [|l' levels]; [done|]. injection Hi as <-.
      destruct Hok as (_ & _ & Hr' & _). destruct (proj1 (Hr' c) Hc) as (Hcn & HcV & Hc0).
      destruct (decide (Exists (λ p, edge E p c) k)) as [Hex|Hno].
      { apply Exists_exists in Hex as (p & Hp & He). eauto. }
      exfalso. apply HcV, elem_of_app. right. apply Hr. split_and!; [done| |].
      * intros ?. apply HcV, elem_of_app. by left.
      * apply live_parents_0. intros p Hp.
        pose proof (proj1 (live_parents_0 E (V ++ k) c) Hc0 p Hp) as [?|Hpk]%elem_of_app; [done|].
        exfalso. apply Hno, Exists_exists. eauto.
Qed.

Lemma topsort_levels_result E :
  ∃ levels np ch, topsort_levels (D := D) E =
      Some (levels, if decide (dkeys np = []) then Ok tt else Raise (LevelsCycleError np ch))
    ∧ levels_ok E [] levels ∧ dicts_ok E (mjoin levels) np ch ∧ ready E (mjoin levels) [].
Proof.
  unfold topsort_levels, topsort_levels_core. pose proof (build_ok E) as Hd.
  pose proof (build_bound E) as HN. destruct (build E) as [np ch]. cbn [fst snd] in *.
  destruct (levels_loop_ok E (length (dkeys np)) [] np ch (length (dkeys np)))
    as (levels & np' & ch' & -> & Hlev & Hd'); auto.
  - intros p c _ Hc. by apply elem_of_nil in Hc.
  - constructor.
  - intros x Hx. by apply elem_of_nil in Hx.
  - cbn. lia.
  - exists levels, np', ch'. split_and!; [done..|].
    assert (∀ V, levels_ok E V levels → ready E (V ++ mjoin levels) []) as Hend.
    { clear. induction levels as [|l levels IH]; intros V; cbn [levels_ok].
      - by rewrite app_nil_r.
      - intros (_ & _ & _ & Hok). change (mjoin (l :: levels)) with (l ++ mjoin levels).
        rewrite app_assoc. by apply IH. }
    by apply (Hend []).
Qed.
End algorithm.

(** ** Cycle search *)

Section rotations.
Context {A : Type}.
Implicit Types s : list A.

Lemma rotation_split s1 s2 : rotation s1 s2 ↔ ∃ a b, s1 = a ++ b ∧ s2 = b ++ a.
Proof.
  split.
  - intros (i & _ & ->). exists (take i s1), (drop i s1). by rewrite take_drop.
  - intros (a & b & -> & ->). exists (length a).
    rewrite drop_app_length, take_app_length, length_app. split; [lia|done].
Qed.

#[export] Instance rotation_equiv : Equivalence (rotation (A := A)).
Proof.
  split.
  - intros s. apply rotation_split. exists [], s. by rewrite app_nil_r.
  - intros s1 s2 (a & b & -> & ->)%rotation_split. apply rotation_split. eauto.
  - intros s1 s2 s3 (a & b & -> & ->)%rotation_split (c & d & Heq & ->)%rotation_split.
    apply rotation_split. apply app_eq_inv in Heq as [(e & -> & ->)|(e & -> & ->)].
    + exists (a ++ c), e. by rewrite <-!app_assoc.
    + exists e, (d ++ b). by rewrite <-!app_assoc.
Qed.
End rotations.

Section cycles.
Context {A : Type} {D : Type → Type} `{DictLaws A D}.
Implicit Types (p q r c : list A).

Lemma from_index_split (x : A) p :
  x ∈ p → ∃ pre, p = pre ++ from_index x p ∧ x ∉ pre ∧ head (from_index x p) = Some x.
Proof.
  induction p as [|y p IH]; [by intros ?%elem_of_nil|].
  cbn. intros Hx. case_decide as Hyx.
  - subst. exists []. split_and!; [done|apply not_elem_of_nil|done].
  - apply elem_of_cons in Hx as [?|Hx]; [congruence|]. destruct (IH Hx) as (pre & Heq & Hn & Hh).
    exists (y :: pre). cbn. rewrite <-Heq. split_and!; [done| |done].
    apply not_elem_of_cons. auto.
Qed.

Lemma from_index_app (x : A) p q : x ∉ p → from_index x (p ++ x :: q) = x :: q.
Proof.
  induction p as [|y p IH]; cbn; intros Hx; [by rewrite decide_True|].
  apply not_elem_of_cons in Hx as [? ?]. rewrite decide_False by done. auto.
Qed.

Lemma is_dup_spec c (cs : list (list A)) :
  c ≠ [] → is_dup c cs = true ↔ ∃ o, o ∈ cs ∧ rotation o c.
Proof.
  intros Hne. unfold is_dup. rewrite existsb_exists. split.
  - intros (o & Ho & Hr). exists o. split; [by apply list_elem_of_In|].
    destruct (is_rotated_rotation o c Hne) as (b & Hb & Hiff). rewrite Hb in Hr. by apply Hiff.
  - intros (o & Ho & Hr). exists o. split; [by apply list_elem_of_In|].
    destruct (is_rotated_rotation o c Hne) as (b & -> & Hiff). by apply Hiff.
Qed.

Context (parent_children : D (list A)).

(** The graph the dictionary describes. *)
Definition child_of (x y : A) : Prop := ∃ cs, dget x parent_children = Some cs ∧ y ∈ cs.

(** All nodes, and a bound on the number of children. *)
Definition all_nodes : list A :=
  remove_dups (dkeys parent_children ++
    (dkeys parent_children ≫= λ x, dget_or [] x parent_children)).
Definition max_children : nat :=
  foldr Nat.max 0%nat ((λ x, length (dget_or [] x parent_children)) <$> dkeys parent_children).

Definition simple_path p : Prop :=
  p ≠ [] ∧ NoDup p ∧ chained child_of p ∧ p ⊆ all_nodes.

(** An elementary cycle, without the repeated last node. *)
Definition elementary_cycle c : Prop :=
  simple_path c ∧ ∀ x y, last c = Some x → head c = Some y → child_of x y.

Lemma child_of_nodes x y : child_of x y → x ∈ dkeys parent_children ∧ y ∈ all_nodes.
Proof.
  intros (cs & Hx & Hy). assert (x ∈ dkeys parent_children) as Hk by (apply dkeys_spec; eauto).
  split; [done|]. apply elem_of_remove_dups, elem_of_app. right.
  apply list_elem_of_bind. exists x. unfold dget_or. by rewrite Hx.
Qed.

Lemma max_children_bound x cs :
  dget x parent_children = Some cs → (length cs ≤ max_children)%nat.
Proof.
  intros Hx. assert (x ∈ dkeys parent_children) as Hk by (apply dkeys_spec; eauto).
  unfold max_children. induction (dkeys parent_children) as [|y ks IH].
  - by apply elem_of_nil in Hk.
  - cbn. apply elem_of_cons in Hk as [<-|Hk]; [|specialize (IH Hk); lia].
    unfold dget_or at 1. rewrite Hx. cbn. lia.
Qed.

Lemma simple_path_snoc p x y :
  simple_path p → last p = Some x → child_of x y → y ∉ p → simple_path (p ++ [y]).
Proof.
  intros (Hne & Hnd & Hch & Hsub) Hl Hxy Hy. split_and!.
  - intros []%app_nil. done.
  - apply NoDup_app. split_and!; [done| |apply NoDup_singleton].
    by intros z Hz ->%list_elem_of_singleton.
  - apply chained_snoc. split; [done|]. intros z Hz. by simplify_eq.
  - intros z [Hz| ->%list_elem_of_singleton]%elem_of_app; [by apply Hsub|].
    by apply (child_of_nodes x y).
Qed.

(** Closing a simple path on one of its nodes gives an elementary cycle. *)
Lemma from_index_cycle p x y :
  simple_path p → last p = Some x → child_of x y → y ∈ p → elementary_cycle (from_index y p).
Proof.
  intros (Hne & Hnd & Hch & Hsub) Hl Hxy Hy.
  destruct (from_index_split y p Hy) as (pre & Heq & Hpre & Hh).
  set (c := from_index y p) in *. assert (c ≠ []) by (by destruct c). rewrite Heq in *.
  apply NoDup_app in Hnd as (_ & _ & Hnd). apply chained_app in Hch as (_ & Hch & _).
  split; [split_and!; auto|].
  - intros z Hz. apply Hsub, elem_of_app. by right.
  - intros u v Hu Hv. rewrite last_app in Hl. rewrite Hu in Hl. by simplify_eq.
Qed.

(** The cycle [c] is listed, from some starting point. *)
Definition covered (cs : list (list A)) c : Prop := ∃ o, o ∈ cs ∧ rotation o c.

(** Entries that are elementary cycles, none a rotation of an earlier one. *)
Definition good_cycles (cs : list (list A)) : Prop :=
  Forall elementary_cycle cs ∧
  ∀ i j o c, cs !! i = Some o → cs !! j = Some c → (i < j)%nat → ¬ rotation o c.

(** Every simple path that extends [q] has been looked at. *)
Definition explored (cs : list (list A)) q : Prop :=
  ∀ r x y, simple_path (q ++ r) → last (q ++ r) = Some x → child_of x y → y ∈ q ++ r →
           covered cs (from_index y (q ++ r)).

Lemma covered_mono cs cs' c : cs ⊆ cs' → covered cs c → covered cs' c.
Proof. intros Hsub (o & ? & ?). exists o. auto. Qed.

Lemma explored_mono cs cs' q : cs ⊆ cs' → explored cs q → explored cs' q.
Proof. intros Hsub Hq r x y ????. eapply covered_mono; eauto. Qed.

(** A path is explored once its own children and its extensions are. *)

Lemma good_cycles_snoc cs c :
  good_cycles cs → elementary_cycle c → (∀ o, o ∈ cs → ¬ rotation o c) →
  good_cycles (cs ++ [c]).
Proof.
  intros [Hel Hrot] Hc Hnew. split; [by apply Forall_app; auto|].
  intros i j o c' Hi Hj Hij. apply lookup_snoc_Some in Hj as [[Hj Hj']|[-> <-]].
  - rewrite lookup_app_l in Hi by lia. eauto.
  - rewrite lookup_app_l in Hi by lia. apply Hnew. by apply list_elem_of_lookup_2 in Hi.
Qed.

(** One pass over the children of a path's last node. *)
Lemma children_pass path x kids s :
  simple_path path → last path = Some x → (∀ k, k ∈ kids → child_of x k) →
  good_cycles (cycles s) →
  let s' := foldl (child_step path) s kids in
  let fresh := list.reverse (filter (λ k, k ∉ path) kids) in
  good_cycles (cycles s') ∧ cycles s ⊆ cycles s' ∧
  (∀ k, k ∈ kids → k ∈ path → covered (cycles s') (from_index k path)) ∧
  visited_nodes s' = fresh ++ visited_nodes s ∧
  paths s' = ((λ k, path ++ [k]) <$> fresh) ++ paths s.
Proof.
  intros Hp Hl. revert s. induction kids as [|k kids IH]; intros s Hk Hg s' fresh.
  { subst s' fresh. cbn. split_and!; [done..|by intros ? ?%elem_of_nil|done|done]. }
  subst s'. cbn [foldl]. set (s1 := child_step path s k).
  assert (child_of x k) as Hxk by (apply Hk; by left).
  assert (good_cycles (cycles s1) ∧ cycles s ⊆ cycles s1 ∧
          (k ∈ path → covered (cycles s1) (from_index k path)) ∧
          visited_nodes s1 = (if decide (k ∉ path) then [k] else []) ++ visited_nodes s ∧
          paths s1 = ((λ k, path ++ [k]) <$> (if decide (k ∉ path) then [k] else [])) ++ paths s)
    as (Hg1 & Hsub1 & Hcov1 & Hv1 & Hp1).
  { subst s1. unfold child_step. destruct (decide (k ∈ path)) as [Hkp|Hkp].
    - rewrite (decide_False (P := k ∉ path)) by tauto.
      pose proof (from_index_cycle path x k Hp Hl Hxk Hkp) as Hel.
      assert (from_index k path ≠ []) as Hne by apply Hel.
      destruct (is_dup _ _) eqn:Hd; cbn.
      + apply is_dup_spec in Hd; [|done]. split_and!; auto.
      + split_and!; [|set_solver| |done|done].
        * apply good_cycles_snoc; [done..|]. intros o Ho Hr.
          assert (is_dup (from_index k path) (cycles s) = true) as Ht by (apply is_dup_spec; eauto).
          congruence.
        * intros _. exists (from_index k path). split; [set_solver|reflexivity].
    - rewrite (decide_True (P := k ∉ path)) by done. cbn. split_and!; done. }
  destruct (IH s1) as (Hg' & Hsub' & Hcov' & Hv' & Hp'); [intros; apply Hk; by right|done|].
  split_and!; [done|set_solver| | |].
  - intros k' [->|Hk']%elem_of_cons Hin; [|auto]. eapply covered_mono; eauto.
  - rewrite Hv', Hv1. subst fresh. rewrite filter_cons.
    case_decide; rewrite ?reverse_cons, <-?app_assoc; done.
  - rewrite Hp', Hp1. subst fresh. rewrite filter_cons.
    case_decide; rewrite ?reverse_cons, ?fmap_app, <-?app_assoc; done.
Qed.

Lemma explored_step cs q x :
  last q = Some x →
  (∀ y, child_of x y → y ∈ q → covered cs (from_index y q)) →
  (∀ y, child_of x y → y ∉ q → explored cs (q ++ [y])) →
  explored cs q.
Proof.
  intros Hq Hin Hout r u y Hp Hl Hxy Hy. destruct r as [|z r].
  { rewrite app_nil_r in *. simplify_eq. auto. }
  pose proof Hp as (Hne & Hnd & Hch & Hsub).
  assert (child_of x z ∧ z ∉ q) as [Hxz Hz].
  { apply chained_app in Hch as (_ & _ & Hch). apply NoDup_app in Hnd as (_ & Hd & _).
    split; [auto|]. intros Hzq. apply (Hd z Hzq). by left. }
  replace (q ++ z :: r) with ((q ++ [z]) ++ r) in * by (by rewrite <-app_assoc).
  by apply (Hout z Hxz Hz r u y).
Qed.

Implicit Types path : list A.
(** The weight of the stack bounds the rounds of [path_loop]: a path of length
    [n] makes at most [max_children] paths of length [S n]. *)
Definition path_weight p : nat := (S max_children ^ (S (length all_nodes) - length p))%nat.
Definition stack_weight (ps : list (list A)) : nat := foldr (λ p n, path_weight p + n)%nat 0%nat ps.
Definition search_bound : nat := (S max_children ^ length all_nodes)%nat.

Lemma simple_path_length p : simple_path p → (length p ≤ length all_nodes)%nat.
Proof.
  intros (_ & Hnd & _ & Hsub). apply (NoDup_submseteq _ all_nodes) in Hnd; [|done].
  by apply submseteq_length.
Qed.

Lemma path_weight_step p ks :
  simple_path p → (length ks ≤ max_children)%nat →
  (stack_weight ((λ k, p ++ [k]) <$> ks) < path_weight p)%nat.
Proof.
  intros Hp Hks. pose proof (simple_path_length p Hp) as Hlen.
  assert (∃ m, length all_nodes = length p + m)%nat as [m Hm]
    by (exists (length all_nodes - length p)%nat; lia).
  assert (path_weight p = S max_children * S max_children ^ m)%nat as ->.
  { unfold path_weight. rewrite Hm.
    by replace (S (length p + m) - length p)%nat with (S m) by lia. }
  assert (∀ k, path_weight (p ++ [k]) = S max_children ^ m)%nat as Hk.
  { intros k. unfold path_weight. rewrite length_app, Hm. cbn [length]. f_equal. lia. }
  assert (0 < S max_children ^ m)%nat as Hpos by (apply Nat.neq_0_lt_0, Nat.pow_nonzero; lia).
  assert (stack_weight ((λ k, p ++ [k]) <$> ks) = length ks * S max_children ^ m)%nat as ->.
  { clear Hks. induction ks as [|k ks IH]; [done|]. rewrite fmap_cons.
    unfold stack_weight in *. cbn [foldr length]. rewrite IH, Hk. lia. }
  nia.
Qed.

Lemma path_weight_pos p : (0 < path_weight p)%nat.
Proof. apply Nat.neq_0_lt_0, Nat.pow_nonzero. lia. Qed.

Lemma stack_weight_app ps qs : stack_weight (ps ++ qs) = (stack_weight ps + stack_weight qs)%nat.
Proof. unfold stack_weight. induction ps; cbn in *; lia. Qed.

(** The list of children of [x], and those a pass adds to the stack. *)
Definition kids (x : A) : list A := dget_or [] x parent_children.
Definition fresh_kids path (x : A) : list A := list.reverse (filter (λ k, k ∉ path) (kids x)).

Lemma kids_spec x k : k ∈ kids x ↔ child_of x k.
Proof.
  unfold kids, child_of, dget_or. destruct (dget x parent_children); cbn; [naive_solver|].
  split; [by intros ?%elem_of_nil|naive_solver].
Qed.

Lemma fresh_kids_spec path x k : k ∈ fresh_kids path x ↔ child_of x k ∧ k ∉ path.
Proof.
  unfold fresh_kids. rewrite elem_of_reverse, list_elem_of_filter, kids_spec. tauto.
Qed.

Lemma fresh_kids_length path x : (length (fresh_kids path x) ≤ max_children)%nat.
Proof.
  unfold fresh_kids, kids, dget_or. rewrite length_reverse.
  pose proof (length_filter (λ k, k ∉ path) (default [] (dget x parent_children))).
  destruct (dget x parent_children) as [l|] eqn:Hd; cbn in *; [|lia].
  pose proof (max_children_bound x l Hd). lia.
Qed.

Lemma fresh_kids_simple path x :
  simple_path path → last path = Some x →
  Forall simple_path ((λ k, path ++ [k]) <$> fresh_kids path x).
Proof.
  intros Hp Hx. apply Forall_fmap, Forall_forall. intros k [??]%fresh_kids_spec.
  by apply (simple_path_snoc path x).
Qed.

(** What one run of [path_loop] guarantees. *)
Definition search_ok (s s' : search A) : Prop :=
  paths s' = [] ∧ good_cycles (cycles s') ∧ cycles s ⊆ cycles s' ∧
  visited_nodes s ⊆ visited_nodes s' ∧
  (∀ q, q ∈ paths s → explored (cycles s') q) ∧
  (∀ v, v ∈ visited_nodes s' → v ∈ visited_nodes s ∨
     ∃ q p, q ∈ paths s ∧ simple_path (q ++ p) ∧ last p = Some v).

(** One round of [path_loop] followed by the rest of the search. *)
Lemma search_ok_round cs vs path rest x s1 s' :
  simple_path path → last path = Some x →
  cs ⊆ cycles s1 → visited_nodes s1 = fresh_kids path x ++ vs →
  (∀ k, k ∈ kids x → k ∈ path → covered (cycles s1) (from_index k path)) →
  paths s1 = ((λ k, path ++ [k]) <$> fresh_kids path x) ++ rest →
  search_ok s1 s' → search_ok (MkSearch cs vs (path :: rest)) s'.
Proof.
  intros Hp Hx Hs1 Hv1 Hc1 Hp1 (Hp' & Hg' & Hc' & Hv' & He' & Hr').
  unfold search_ok. cbn [cycles visited_nodes paths].
  split_and!; [done|done|set_solver|rewrite Hv1 in Hv'; set_solver| |].
  - intros q [->|Hq]%elem_of_cons; [|apply He'; rewrite Hp1; apply elem_of_app; by right].
    apply (explored_step _ path x Hx).
    + intros y Hy Hin. eapply covered_mono; [exact Hc'|]. apply Hc1; [|done]. by apply kids_spec.
    + intros y Hy Hin. apply He'. rewrite Hp1. apply elem_of_app. left.
      apply list_elem_of_fmap. exists y. split; [done|]. by apply fresh_kids_spec.
  - intros v Hv. destruct (Hr' v Hv) as [Hv2|(q & p & Hq & Hqp & Hpv)].
    + rewrite Hv1 in Hv2. apply elem_of_app in Hv2 as [Hf|?]; [|by left]. right.
      apply fresh_kids_spec in Hf as [??]. exists path, [v].
      split_and!; [by left|by apply (simple_path_snoc path x)|done].
    + right. rewrite Hp1 in Hq. apply elem_of_app in Hq as [Hq|Hq].
      * apply list_elem_of_fmap in Hq as (k & -> & Hk). exists path, (k :: p).
        split_and!; [by left|by rewrite <-app_assoc in Hqp|].
        change (k :: p) with ([k] ++ p). by rewrite last_app, Hpv.
      * exists q, p. split_and!; [by right|done|done].
Qed.

Lemma search_ok_done s : paths s = [] → good_cycles (cycles s) → search_ok s s.
Proof.
  intros Hps Hg. unfold search_ok. rewrite Hps.
  split_and!; try done; [by intros ? ?%elem_of_nil|auto].
Qed.

Lemma path_loop_ok fuel s :
  (stack_weight (paths s) ≤ fuel)%nat → Forall simple_path (paths s) → good_cycles (cycles s) →
  ∃ s', path_loop fuel parent_children s = Some s' ∧ search_ok s s'.
Proof.
  revert s. induction fuel as [|fuel IH]; intros [cs vs [|path rest]] Hw Hps Hg.
  - eexists. split; [done|]. by apply search_ok_done.
  - exfalso. cbn [paths] in Hw. change (path :: rest) with ([path] ++ rest) in Hw.
    rewrite stack_weight_app in Hw. pose proof (path_weight_pos path).
    change (stack_weight [path]) with (path_weight path + 0)%nat in Hw. lia.
  - eexists. split; [done|]. by apply search_ok_done.
  - cbn [path_loop paths cycles visited_nodes] in *.
    apply Forall_cons in Hps as [Hp Hps].
    destruct (last path) as [x|] eqn:Hx; [|by apply last_None in Hx as ->; destruct Hp].
    set (s1 := foldl (child_step path) (MkSearch cs vs rest) (kids x)).
    replace (match _ with Some _ => _ | None => _ end) with (path_loop fuel parent_children s1)
      by (unfold s1, kids, dget_or; cbn; by destruct (dget x parent_children)).
    destruct (children_pass path x (kids x) (MkSearch cs vs rest)) as (Hg1 & Hs1 & Hc1 & Hv1 & Hp1);
      [done|done|by intros; apply kids_spec|done|]. cbn [cycles visited_nodes paths] in *.
    fold s1 in Hg1, Hs1, Hc1, Hv1, Hp1. fold (fresh_kids path x) in Hv1, Hp1.
    destruct (IH s1) as (s' & Hs' & Hok); [|rewrite Hp1; apply Forall_app; auto using fresh_kids_simple|done|].
    { rewrite Hp1, stack_weight_app. pose proof (fresh_kids_length path x) as Hlen.
      pose proof (path_weight_step path _ Hp Hlen).
      change (stack_weight (path :: rest)) with (path_weight path + stack_weight rest)%nat in Hw. lia. }
    exists s'. split; [done|]. by apply (search_ok_round _ _ _ _ x s1).
Qed.

(** [v] is on a simple path from an explored root. *)
Definition reached (cs : list (list A)) (v : A) : Prop :=
  ∃ (r : A) (p : list A), explored cs [r] ∧ simple_path (r :: p) ∧ last (r :: p) = Some v.

Lemma reached_mono cs cs' v : cs ⊆ cs' → reached cs v → reached cs' v.
Proof. intros Hs (r & p & He & ?). exists r, p. split; [by eapply explored_mono|done]. Qed.

Lemma simple_path_root (r : A) : r ∈ dkeys parent_children → simple_path [r].
Proof.
  intros Hr. split_and!; [done|apply NoDup_singleton|done|].
  intros z ->%list_elem_of_singleton. apply elem_of_remove_dups, elem_of_app. by left.
Qed.

Lemma roots_loop_ok fuel (roots : list A) s :
  (search_bound ≤ fuel)%nat → roots ⊆ dkeys parent_children → good_cycles (cycles s) →
  (∀ v, v ∈ visited_nodes s → reached (cycles s) v) →
  ∃ s', roots_loop fuel parent_children roots s = Some s' ∧
    good_cycles (cycles s') ∧ cycles s ⊆ cycles s' ∧ (∀ r : A, r ∈ roots → reached (cycles s') r).
Proof.
  intros Hfuel. revert s. induction roots as [|r roots IH]; intros s Hroots Hg Hv.
  { exists s. split_and!; [done..|]. by intros ? ?%elem_of_nil. }
  cbn [roots_loop]. assert (simple_path [r]) as Hr by (apply simple_path_root, Hroots; by left).
  assert (roots ⊆ dkeys parent_children) as Hroots' by (intros z Hz; apply Hroots; by right).
  destruct (decide (r ∈ visited_nodes s)) as [Hrv|Hrv].
  - destruct (IH s Hroots' Hg Hv) as (s' & Hs' & Hg' & Hc' & Hr'). exists s'. split_and!; [done..|].
    intros r' [->|?]%elem_of_cons; [|auto]. eapply reached_mono; eauto.
  - destruct (path_loop_ok fuel (MkSearch (cycles s) (visited_nodes s) [[r]]))
      as (s1 & Hs1 & _ & Hg1 & Hc1 & _ & He1 & Hv1); [|by apply Forall_singleton|done|].
    { cbn [paths]. change (stack_weight [[r]]) with (path_weight [r] + 0)%nat. unfold path_weight. cbn [length].
      replace (S (length all_nodes) - 1)%nat with (length all_nodes) by lia.
      unfold search_bound in Hfuel. lia. }
    cbn [cycles visited_nodes paths] in *.
    assert (explored (cycles s1) [r]) as Her by (apply He1; by left).
    destruct (IH s1 Hroots' Hg1) as (s' & Hs' & Hg' & Hc' & Hr').
    { intros v Hvv. destruct (Hv1 v Hvv) as [Hvs|(q & p & ->%list_elem_of_singleton & Hqp & Hl)].
      - eapply reached_mono; eauto.
      - exists r, p. split_and!; [done|done|]. change (r :: p) with ([r] ++ p).
        by rewrite last_app, Hl. }
    exists s'. rewrite Hs1. split_and!; [done|done|set_solver|].
    intros r' [->|?]%elem_of_cons; [|auto]. exists r, []. split_and!; [|done|done].
    by eapply explored_mono.
Qed.

(** Elementary cycles have no distinguished start. *)
Lemma elementary_cycle_rotate (a b : list A) : elementary_cycle (a ++ b) → elementary_cycle (b ++ a).
Proof.
  destruct a as [|x a]; [by rewrite app_nil_r|]. destruct b as [|y b]; [by rewrite app_nil_r|].
  intros [(_ & Hnd & Hch & Hsub) Hback].
  apply chained_app in Hch as (Ha & Hb & Hab). split; [split_and!; [done| | |]|].
  - rewrite (Permutation_app_comm (y :: b)). done.
  - apply chained_app. split_and!; [done..|]. intros u v Hu [= <-]. apply Hback; [|done].
    by rewrite last_app, Hu.
  - intros z Hz. apply Hsub. rewrite elem_of_app in *. tauto.
  - intros u v Hu [= <-]. apply Hab; [|done]. rewrite last_app in Hu.
    by destruct (last (x :: a)) eqn:Hl; [|apply last_None in Hl].
Qed.


Lemma elementary_cycle_keys c v : elementary_cycle c → v ∈ c → v ∈ dkeys parent_children.
Proof.
  intros Hc (a & b & ->)%list_elem_of_split.
  replace (a ++ v :: b) with ((a ++ [v]) ++ b) in Hc by (by rewrite <-app_assoc).
  apply elementary_cycle_rotate in Hc as [_ Hback]. rewrite app_assoc in Hback.
  destruct (head ((b ++ a) ++ [v])) as [y|] eqn:Hy; [|by apply head_None in Hy as []%app_nil].
  destruct (child_of_nodes v y); [|done]. apply Hback; [|done]. by rewrite last_snoc.
Qed.

(** The first element of a list with a decidable property. *)
Lemma first_split (P : A → Prop) `{∀ x, Decision (P x)} (l : list A) x :
  x ∈ l → P x → ∃ pre (u : A) post, l = pre ++ u :: post ∧ P u ∧ ∀ z, z ∈ pre → ¬ P z.
Proof.
  induction l as [|y l IH]; [by intros ?%elem_of_nil|]. intros Hx Px.
  destruct (decide (P y)) as [Hy|Hy].
  - exists [], y, l. split_and!; [done..|]. by intros ? ?%elem_of_nil.
  - apply elem_of_cons in Hx as [->|Hx]; [done|].
    destruct (IH Hx Px) as (pre & u & post & -> & Hu & Hpre).
    exists (y :: pre), u, post. split_and!; [done..|]. intros z [->|?]%elem_of_cons; auto.
Qed.

(** A path to a cycle followed by the cycle is a simple path. *)
Lemma lasso_simple (pre : list A) (u : A) (post : list A) (c : list A) :
  simple_path (pre ++ u :: post) → elementary_cycle (u :: c) → (∀ z, z ∈ pre → z ∉ u :: c) →
  simple_path (pre ++ u :: c).
Proof.
  intros (_ & Hnd & Hch & Hsub) [(_ & Hndc & Hchc & Hsubc) _] Hdis. split_and!.
  - intros []%app_nil. done.
  - apply NoDup_app in Hnd as (? & _ & _). by apply NoDup_app.
  - apply chained_app in Hch as (? & _ & Hlink). apply chained_app. auto.
  - intros z [Hz|Hz]%elem_of_app; [|by apply Hsubc]. apply Hsub, elem_of_app. by left.
Qed.

(** Every elementary cycle through a reached node is listed. *)
Lemma reached_covered cs c v :
  elementary_cycle c → v ∈ c → reached cs v → covered cs c.
Proof.
  intros Hc Hv (r & p & Her & Hp & Hl).
  destruct (first_split (λ z, z ∈ c) (r :: p) v) as (pre & u & post & Heq & Hu & Hpre);
    [by apply last_Some_elem_of|done|].
  apply list_elem_of_split in Hu as (c1 & c2 & ->).
  apply elementary_cycle_rotate in Hc. cbn [app] in Hc.
  assert (∀ z, z ∈ pre → z ∉ u :: (c2 ++ c1)) as Hdis.
  { intros z Hz Hin. apply (Hpre z Hz). set_solver. }
  rewrite Heq in Hp. pose proof (lasso_simple _ _ _ _ Hp Hc Hdis) as Hsp.
  assert (∃ rest, pre ++ u :: c2 ++ c1 = [r] ++ rest) as [rest Hrest].
  { destruct pre as [|r' pre]; cbn in Heq; simplify_eq; cbn; eauto. }
  destruct (last (u :: c2 ++ c1)) as [x|] eqn:Hx; [|by apply last_None in Hx].
  destruct (Her rest x u) as (o & Ho & Hrot).
  - by rewrite <-Hrest.
  - by rewrite <-Hrest, last_app, Hx.
  - by apply Hc.
  - rewrite <-Hrest. set_solver.
  - exists o. split; [done|]. rewrite <-Hrest, from_index_app in Hrot.
    + rewrite Hrot. apply rotation_split. by exists (u :: c2), c1.
    + intros Hup. apply (Hdis u Hup). by left.
Qed.

(** [find_cycles] with enough fuel. *)
Lemma find_cycles_ok fuel :
  (search_bound ≤ fuel)%nat →
  ∃ cs, find_cycles fuel parent_children = Some cs ∧ good_cycles cs ∧
        ∀ c, elementary_cycle c → covered cs c.
Proof.
  intros Hfuel.
  destruct (roots_loop_ok fuel (dkeys parent_children) (MkSearch [] [] []))
    as (s & Hs & Hg & _ & Hr); [done|done| |by intros ? ?%elem_of_nil|].
  { split; [done|]. intros i j o c Hi. done. }
  exists (cycles s). unfold find_cycles. rewrite Hs. split_and!; [done..|].
  intros c Hc. pose proof Hc as [[Hne _] _]. destruct c as [|v c]; [done|].
  apply (reached_covered _ _ v); [done|by left|]. apply Hr.
  apply (elementary_cycle_keys (v :: c)); [done|by left].
Qed.
End cycles.

Section levels_order.
Context {A : Type} `{EqDecision A}.
Implicit Types (E : list (A * A)).

Lemma levels_nonempty E V levels : levels_ok E V levels → [] ∉ levels.
Proof.
  revert V. induction levels as [|l levels IH]; intros V; [intros _; apply not_elem_of_nil|].
  intros (Hne & _ & _ & Hok). apply not_elem_of_cons. split; [done|eauto].
Qed.

(** Concatenated, the levels are in dependency order. *)
Lemma levels_ordered_from E V levels :
  levels_ok E V levels → NoDup (V ++ mjoin levels) → ordered E V → ordered E (V ++ mjoin levels).
Proof.
  revert V. induction levels as [|l levels IH]; intros V Hok Hnd Hord; [by rewrite app_nil_r|].
  destruct Hok as (_ & _ & Hr & Hok). change (mjoin (l :: levels)) with (l ++ mjoin levels) in *.
  rewrite app_assoc in *. apply IH; [done..|].
  intros p c He [Hc|Hc]%elem_of_app; [by apply before_app, Hord|].
  apply Hr in Hc as Hc'. destruct Hc' as (_ & HcV & Hp0).
  apply (proj1 (live_parents_0 E V c) Hp0) in He as HpV.
  apply list_elem_of_split in HpV as (v1 & v2 & ->). exists v1, (v2 ++ l).
  rewrite <-app_assoc. cbn. set_solver.
Qed.

Lemma levels_ordered E levels : levels_ok E [] levels → ordered E (mjoin levels).
Proof.
  intros Hok. destruct (levels_ok_flat _ _ _ Hok) as [Hnd _].
  apply (levels_ordered_from E [] levels Hok Hnd). intros p c _ []%elem_of_nil.
Qed.
End levels_order.

(** ** Properties *)

Section properties.
Context {A : Type} {D : Type → Type} `{DictLaws A D}.
Implicit Types (E : list (A * A)).

Lemma cyclic_leftover E V (np : D Z) (ch : D (list A)) :
  dicts_ok E V np ch → ready E V [] → NoDup V → V ⊆ nodes E → ordered E V →
  dkeys np ≠ [] ↔ cyclic E.
Proof.
  intros Hd Hr Hnd Hsub Hord. split; [by apply (stuck_keys_cyclic E V np ch)|].
  intros Hcyc Hnil. apply (ordered_acyclic E V) in Hcyc; [done|done|].
  intros p c He. apply Hord; [done|]. apply (dkeys_done E V np ch) in Hd as [Hdone _].
  apply Hdone; [done|]. by apply (edge_nodes E p c).
Qed.

Lemma leftover_keys E V (np : D Z) (ch : D (list A)) x :
  dicts_ok E V np ch → x ∈ dkeys np ↔ x ∈ nodes E ∧ x ∉ V.
Proof.
  intros [Hnp _]. rewrite dkeys_spec. split; [intros [v Hv]|intros Hx].
  - rewrite Hnp in Hv. by case_decide.
  - rewrite Hnp, decide_True by done. eauto.
Qed.

(** C6: [topsort] returns a list exactly when the pairs are acyclic, and the
    list holds every element once, each parent before its children. *)
Theorem topsort_sorts E :
  (cyclic E ↔ ∀ l, topsort (D := D) E ≠ Some (Ok l)) ∧
  ∀ l, topsort (D := D) E = Some (Ok l) →
    NoDup l ∧ (∀ x, x ∈ l ↔ x ∈ nodes E) ∧ ∀ p c, edge E p c → before l p c.
Proof.
  destruct (topsort_result E) as (V & np & ch & Ht & Hd & Hr & Hnd & Hsub & Hord).
  pose proof (cyclic_leftover E V np ch Hd Hr Hnd Hsub Hord) as Hcyc. rewrite Ht. split.
  - rewrite <-Hcyc. case_decide as Hk; split; try done. intros Hl. by destruct (Hl V).
  - intros l Hl. case_decide as Hk; [|done]. simplify_eq.
    pose proof (proj1 (dkeys_done E l np ch Hd) Hk) as Hall.
    split_and!; [done|intros x; split; auto|]. intros p c He. apply Hord; [done|].
    apply Hall. by apply (edge_nodes E p c).
Qed.

(** C7: on cyclic pairs [topsort] raises [CycleError] (never [KeyError], and it
    never loops): the exception holds the sorted part and the dictionaries of
    the elements left over, each of which has a parent left over; [num_parents]
    has the number of such parents for each, and [children] the list of children,
    in the order of the pairs, for exactly those that have any. *)
Theorem topsort_reports_cycles E :
  cyclic E →
  ∃ l np ch, topsort (D := D) E = Some (Raise (CycleError l np ch)) ∧
    NoDup l ∧ (∀ x, x ∈ dkeys np ↔ x ∈ nodes E ∧ x ∉ l) ∧
    (∀ p c, edge E p c → c ∈ l → before l p c) ∧
    (∀ x, x ∈ dkeys np → dget x np = Some (live_parents E l x) ∧
                         ∃ p, edge E p x ∧ p ∈ dkeys np) ∧
    (∀ x, dget x ch = if decide (x ∈ dkeys np ∧ succs E x ≠ []) then Some (succs E x) else None).
Proof.
  intros Hcyc. destruct (topsort_result E) as (V & np & ch & Ht & Hd & Hr & Hnd & Hsub & Hord).
  exists V, np, ch. rewrite Ht. rewrite decide_False by by apply (cyclic_leftover E V np ch).
  split_and!; [done|done|intros; by apply (leftover_keys E V np ch)|done| |].
  - intros x Hx. split; [|by apply (leftover_parent E V np ch)].
    apply (leftover_keys E V np ch x Hd) in Hx. destruct Hd as [Hnp _].
    by rewrite Hnp, decide_True.
  - intros x. rewrite (proj2 Hd x). apply decide_ext.
    rewrite (leftover_keys E V np ch x Hd), succs_nonnil. unfold nodes. rewrite elem_of_app. tauto.
Qed.

(** The generator [topsort_levels] yields disjoint non-empty levels; an
    element of a level has all its parents in earlier levels and, after the
    first level, one in the level just before; it ends normally, with every
    element yielded, exactly when the pairs are acyclic, and with [CycleError]
    otherwise. *)
Theorem topsort_levels_correct E :
  ∃ levels r, topsort_levels (D := D) E = Some (levels, r) ∧
    NoDup (mjoin levels) ∧ [] ∉ levels ∧
    (∀ i l c, levels !! i = Some l → c ∈ l →
       c ∈ nodes E ∧
       (∀ p, edge E p c → ∃ j m, (j < i)%nat ∧ levels !! j = Some m ∧ p ∈ m) ∧
       (∀ j m, levels !! j = Some m → S j = i → ∃ p, edge E p c ∧ p ∈ m)) ∧
    (r = Ok tt ↔ ¬ cyclic E) ∧ (r = Ok tt ↔ ∀ x, x ∈ nodes E → x ∈ mjoin levels) ∧
    (cyclic E ↔ ∃ np ch, r = Raise (LevelsCycleError np ch)).
Proof.
  destruct (topsort_levels_result E) as (levels & np & ch & Ht & Hlev & Hd & Hr).
  eexists levels, _. split; [exact Ht|]. destruct (levels_ok_flat _ _ _ Hlev) as [Hnd Hin].
  pose proof (levels_ordered E levels Hlev) as Hord.
  pose proof (cyclic_leftover E _ np ch Hd Hr Hnd (λ x Hx, proj1 (Hin x Hx)) Hord) as Hcyc.
  split_and!; [done|by apply (levels_nonempty E [])| | | |].
  - intros i l c Hi Hc. destruct (levels_ok_lookup _ _ _ _ _ _ Hlev Hi Hc) as [Hp Hprev].
    split; [|split; [|done]].
    + apply Hin. apply list_elem_of_join. exists l. by apply list_elem_of_lookup_2 in Hi.
    + intros p He. destruct (Hp p He) as [[]%elem_of_nil|?]; done.
  - rewrite <-Hcyc. case_decide as Hk; split; try done. by intros _ [].
  - rewrite <-(dkeys_done E _ np ch Hd). by case_decide.
  - rewrite <-Hcyc. case_decide as Hk; split; try done; [by intros (? & ? & ?)|eauto].
Qed.

(** C32: [find_cycles] on a parent-to-children dictionary ends, and yields every
    elementary cycle of the graph exactly once up to rotation. *)
Theorem find_cycles_correct (parent_children : D (list A)) fuel :
  (search_bound parent_children ≤ fuel)%nat →
  ∃ cs, find_cycles fuel parent_children = Some cs ∧
    (∀ c, c ∈ cs → elementary_cycle parent_children c) ∧
    (∀ c, elementary_cycle parent_children c → ∃ o, o ∈ cs ∧ rotation o c) ∧
    (∀ i j o c, cs !! i = Some o → cs !! j = Some c → rotation o c → i = j).
Proof.
  intros Hfuel. destruct (find_cycles_ok parent_children fuel Hfuel) as (cs & Hcs & [Hel Hrot] & Hcov).
  exists cs. split_and!; [done|by apply Forall_forall|done|].
  intros i j o c Hi Hj Hr. destruct (Nat.lt_trichotomy i j) as [Hij|[?|Hji]]; [|done|].
  - by destruct (Hrot i j o c Hi Hj Hij).
  - symmetry in Hr. by destruct (Hrot j i c o Hj Hi Hji).
Qed.
End properties.

(** ** Witnesses *)

Lemma topsort_sorts_witness :
  topsort (D := PyDict nat) [(1,2); (1,3); (3,2)]%nat = Some (Ok [1; 3; 2]%nat) ∧
  NoDup [1; 3; 2]%nat ∧
  (∀ x, x ∈ [1; 3; 2]%nat ↔ x ∈ nodes [(1,2); (1,3); (3,2)]%nat) ∧
  ∀ p c, edge [(1,2); (1,3); (3,2)]%nat p c → before [1; 3; 2]%nat p c.
Proof.
  split; [vm_compute; reflexivity|].
  apply (proj2 (topsort_sorts (D := PyDict nat) [(1,2); (1,3); (3,2)]%nat)).
  vm_compute. reflexivity.
Defined.

Lemma topsort_reports_cycles_witness :
  ∃ l np ch, topsort (D := PyDict nat) [(0,1); (1,2); (2,1)]%nat = Some (Raise (CycleError l np ch)) ∧
    NoDup l ∧ (∀ x, x ∈ dkeys np ↔ x ∈ nodes [(0,1); (1,2); (2,1)]%nat ∧ x ∉ l) ∧
    (∀ p c, edge [(0,1); (1,2); (2,1)]%nat p c → c ∈ l → before l p c) ∧
    (∀ x, x ∈ dkeys np → dget x np = Some (live_parents [(0,1); (1,2); (2,1)]%nat l x) ∧
                         ∃ p, edge [(0,1); (1,2); (2,1)]%nat p x ∧ p ∈ dkeys np) ∧
    (∀ x, dget x ch = if decide (x ∈ dkeys np ∧ succs [(0,1); (1,2); (2,1)]%nat x ≠ [])
                      then Some (succs [(0,1); (1,2); (2,1)]%nat x) else None).
Proof.
  apply (topsort_reports_cycles (D := PyDict nat) [(0,1); (1,2); (2,1)]%nat).
  exists 1%nat. apply (tc_l _ _ 2%nat).
  - right. left.
  - apply tc_once. right. right. left.
Defined.

Lemma topsort_levels_correct_witness :
  topsort_levels (D := PyDict nat) [(1,2); (1,3); (3,2)]%nat = Some ([[1]; [3]; [2]]%nat, Ok tt) ∧
  ∃ levels r, topsort_levels (D := PyDict nat) [(1,2); (1,3); (3,2)]%nat = Some (levels, r) ∧
    NoDup (mjoin levels).
Proof.
  split; [vm_compute; reflexivity|].
  destruct (topsort_levels_correct (D := PyDict nat) [(1,2); (1,3); (3,2)]%nat)
    as (levels & r & ? & ? & _).
  exists levels, r. split; assumption.
Defined.

Lemma find_cycles_correct_witness :
  let g := dset 1%nat [0; 1]%nat (dset 0%nat [1]%nat (dempty : PyDict nat (list nat))) in
  find_cycles 9 g = Some [[0; 1]; [1]]%nat ∧
  ∃ cs, find_cycles 9 g = Some cs ∧
    (∀ c, c ∈ cs → elementary_cycle g c) ∧
    (∀ c, elementary_cycle g c → ∃ o, o ∈ cs ∧ rotation o c) ∧
    (∀ i j o c, cs !! i = Some o → cs !! j = Some c → rotation o c → i = j).
Proof.
  intros g. split; [vm_compute; reflexivity|].
  apply (find_cycles_correct g 9). vm_compute. lia.
Defined.

(** The comment "Everything in num_parents has at least one child" does not
    hold: 3 is left over without children.  What every element left over has is
    a parent. *)
Example topsort_leftover_childless :
  match topsort (D := PyDict nat) [(1,2); (2,1); (2,3)]%nat with
  | Some (Raise (CycleError _ num_parents children)) =>
      dget 3%nat num_parents = Some 1 ∧ dget 3%nat children = None
  | _ => False
  end.
Proof. vm_compute. auto. Qed.
