(* ===== verification/CheckStyle.v ===== *)
(** * Models utils/check-style.py

    Unified diffs as [Patch] values: parsing, writing, the pass that takes
    trailing-whitespace changes out of a diff, and the driver around the
    external tools [uncrustify], [patch], [git] and [difflib].

    A Python line object is reachable from the chunk and from the lists that
    [src()] and [dst()] return; the model names it by its position in the
    chunk, so an update through either list is an update of the chunk. *)
From Stdlib Require Import Ascii.
From stdpp Require Import gmap countable.
From S2P Require Export TopSort.
Open Scope Z_scope.

(** ** Regular expressions used *)

Fixpoint strip_prefix (p s : pystr) : option pystr :=
  match p, s with
  | [], _ => Some s
  | a :: p, b :: s => if decide (a = b) then strip_prefix p s else None
  | _ :: _, [] => None
  end.

(** A group of any characters, then [$]: up to the end, or to a newline that
    ends the string. *)
Definition re_rest (s : pystr) : option pystr :=
  let t := match last s with
           | Some c => if decide (c = newline) then take (pred (length s)) s else s
           | None => s
           end in
  if decide (newline ∈ t) then None else Some t.

Definition re_line (p line : pystr) : option pystr := strip_prefix p line ≫= re_rest.

(** [([0-9]+)] followed by a character that is not a digit. *)
Fixpoint span_digits (s : pystr) : pystr * pystr :=
  match s with
  | a :: s' => if is_digit_in 10 a then let '(d, r) := span_digits s' in (a :: d, r) else ([], s)
  | [] => ([], [])
  end.

Definition re_digits (s : pystr) : option (pystr * pystr) :=
  let '(d, r) := span_digits s in
  match d with [] => None | _ => Some (d, r) end.

(** [^@@ -([0-9]+),([0-9]+) \+([0-9]+),([0-9]+) @@]: groups 1 and 3. *)
Definition re_chunk_start (line : pystr) : option (pystr * pystr) :=
  s ← strip_prefix (str "@@ -") line;
  '(src_pos, s) ← re_digits s;
  s ← strip_prefix (str ",") s;
  '(_, s) ← re_digits s;
  s ← strip_prefix (str " +") s;
  '(dst_pos, s) ← re_digits s;
  s ← strip_prefix (str ",") s;
  '(_, s) ← re_digits s;
  _ ← strip_prefix (str " @@") s;
  Some (src_pos, dst_pos).

(** Any characters, then blanks, then [$]: the first group is greedy, so the
    second is the last character alone. *)
Definition is_blank (c : ascii) : bool := bool_decide (c = " "%char ∨ c = "009"%char).

Definition re_trailing_whitespace (line : pystr) : option (pystr * pystr) :=
  t ← re_rest line;
  c ← last t;
  if is_blank c then Some (take (pred (length t)) t, [c]) else None.

(** ** Patch lines, chunks and patches *)

Definition SRC : Z := 1.
Definition DST : Z := 2.
Definition BOTH : Z := 3.

Record PatchChunkLine := MkLine { line_type : Z; line_text : pystr }.

Definition new_line : PatchChunkLine := MkLine 0 [].
Definition set_src (l : PatchChunkLine) (line : pystr) : PatchChunkLine := MkLine SRC line.
Definition set_dst (l : PatchChunkLine) (line : pystr) : PatchChunkLine := MkLine DST line.
Definition set_both (l : PatchChunkLine) (line : pystr) : PatchChunkLine := MkLine BOTH line.
Definition append_to_line (s : pystr) (l : PatchChunkLine) : PatchChunkLine :=
  MkLine (line_type l) (line_text l ++ s).
Definition is_src (l : PatchChunkLine) : bool := (line_type l =? SRC) || (line_type l =? BOTH).
Definition is_dst (l : PatchChunkLine) : bool := (line_type l =? DST) || (line_type l =? BOTH).

(** [write] is the list of strings given to [f.write]. *)
Definition write_line (l : PatchChunkLine) : res exn (list pystr) :=
  if line_type l =? SRC then Ok [str "-" ++ line_text l ++ [newline]]
  else if line_type l =? DST then Ok [str "+" ++ line_text l ++ [newline]]
  else if line_type l =? BOTH then Ok [str " " ++ line_text l ++ [newline]]
  else Raise GenericException.

Record PatchChunk := MkChunk { chunk_lines : list PatchChunkLine; src_pos : Z; dst_pos : Z }.

Definition new_chunk (src_pos dst_pos : pystr) : res exn PatchChunk :=
  s ← py_int 10 src_pos;
  d ← py_int 10 dst_pos;
  Ok (MkChunk [] s d).
Definition src_start (c : PatchChunk) : Z := src_pos c.
Definition add_line (l : PatchChunkLine) (c : PatchChunk) : PatchChunk :=
  MkChunk (chunk_lines c ++ [l]) (src_pos c) (dst_pos c).

(** The positions of the line objects that [src()] and [dst()] return. *)
Fixpoint refs_from (P : PatchChunkLine → bool) (i : nat) (ls : list PatchChunkLine) : list nat :=
  match ls with
  | [] => []
  | l :: ls => if P l then i :: refs_from P (S i) ls else refs_from P (S i) ls
  end.
Definition src (c : PatchChunk) : list nat := refs_from is_src 0 (chunk_lines c).
Definition dst (c : PatchChunk) : list nat := refs_from is_dst 0 (chunk_lines c).
Definition src_len (c : PatchChunk) : Z := Z.of_nat (length (src c)).
Definition dst_len (c : PatchChunk) : Z := Z.of_nat (length (dst c)).

Definition append_writes {A} (f : A → res exn (list pystr)) (ws : list pystr) (x : A) :
    res exn (list pystr) :=
  w ← f x; Ok (ws ++ w).

Definition write_chunk (c : PatchChunk) : res exn (list pystr) :=
  fold_res (append_writes write_line)
    [str "@@ -" ++ str_of_Z (src_pos c) ++ str "," ++ str_of_Z (src_len c) ++ str " +"
       ++ str_of_Z (dst_pos c) ++ str "," ++ str_of_Z (dst_len c) ++ str " @@" ++ [newline]]
    (chunk_lines c).

Record Patch := MkPatch { patch_src : pystr; patch_dst : pystr; chunks : list PatchChunk }.

Definition new_patch : Patch := MkPatch [] [] [].
Definition add_chunk (c : PatchChunk) (p : Patch) : Patch :=
  MkPatch (patch_src p) (patch_dst p) (chunks p ++ [c]).
Definition patch_set_src (s : pystr) (p : Patch) : Patch := MkPatch s (patch_dst p) (chunks p).
Definition patch_set_dst (s : pystr) (p : Patch) : Patch := MkPatch (patch_src p) s (chunks p).
Definition set_chunks (cs : list PatchChunk) (p : Patch) : Patch :=
  MkPatch (patch_src p) (patch_dst p) cs.

Definition write_patch (p : Patch) : res exn (list pystr) :=
  fold_res (append_writes write_chunk)
    [str "--- " ++ patch_src p ++ [newline]; str "+++ " ++ patch_dst p ++ [newline]]
    (chunks p).

(** ** Parsing *)

(** [current_patch] is the last patch of [patchset] ([None] before the first);
    [current_chunk] is a chunk object, named by its patch and position, and
    stays the same when a new patch starts. *)
Record parser := MkParser { patchset : list Patch; current_chunk : option (nat * nat) }.

Definition on_current_patch (f : Patch → Patch) (st : parser) : res exn parser :=
  match patchset st with
  | [] => Raise AttributeError
  | _ => Ok (MkParser (alter f (pred (length (patchset st))) (patchset st)) (current_chunk st))
  end.

Definition on_current_chunk (f : PatchChunk → PatchChunk) (st : parser) : res exn parser :=
  match current_chunk st with
  | None => Raise UnboundLocalError
  | Some (i, j) =>
      Ok (MkParser (alter (λ p, set_chunks (alter f j (chunks p)) p) i (patchset st))
                   (current_chunk st))
  end.

Definition start_chunk (groups : pystr * pystr) (st : parser) : res exn parser :=
  c ← new_chunk groups.1 groups.2;
  match last (patchset st) with
  | None => Raise AttributeError
  | Some p =>
      let i := pred (length (patchset st)) in
      Ok (MkParser (alter (add_chunk c) i (patchset st)) (Some (i, length (chunks p))))
  end.

Definition parse_step (st : parser) (line : pystr) : res exn parser :=
  match re_line (str "--- ") line with
  | Some name => Ok (MkParser (patchset st ++ [patch_set_src name new_patch]) (current_chunk st))
  | None =>
  match re_line (str "+++ ") line with
  | Some name => on_current_patch (patch_set_dst name) st
  | None =>
  match re_chunk_start line with
  | Some groups => start_chunk groups st
  | None =>
  match re_line (str "-") line with
  | Some l => on_current_chunk (add_line (set_src new_line l)) st
  | None =>
  match re_line (str "+") line with
  | Some l => on_current_chunk (add_line (set_dst new_line l)) st
  | None =>
  match re_line (str " ") line with
  | Some l => on_current_chunk (add_line (set_both new_line l)) st
  | None => Raise GenericException
  end end end end end end.

Definition parse_patchset (generator : list pystr) : res exn (list Patch) :=
  patchset <$> fold_res parse_step (MkParser [] None) generator.

(** ** Trailing whitespace *)

(** One round of the loop over [src]; [IndexError] when [dst] is shorter. *)
Definition whitespace_step (srcs dsts : list nat) (ls : list PatchChunkLine) (i : nat)
    : res exn (list PatchChunkLine) :=
  s ← res_of_option IndexError (srcs !! i ≫= λ k, ls !! k);
  k ← res_of_option IndexError (dsts !! i);
  d ← res_of_option IndexError (ls !! k);
  match re_trailing_whitespace (line_text s) with
  | Some (g1, g2) =>
      if decide (g1 = line_text d) then Ok (alter (append_to_line g2) k ls) else Ok ls
  | None => Ok ls
  end.

(** The loop over one chunk: its lines and whether it ran to its end. *)
Fixpoint whitespace_rounds (srcs dsts : list nat) (ls : list PatchChunkLine) (idx : list nat)
    : list PatchChunkLine * bool :=
  match idx with
  | [] => (ls, true)
  | i :: idx =>
      match whitespace_step srcs dsts ls i with
      | Ok ls => whitespace_rounds srcs dsts ls idx
      | Raise _ => (ls, false)
      end
  end.

Definition whitespace_chunk (c : PatchChunk) : PatchChunk * bool :=
  let '(ls, ok) := whitespace_rounds (src c) (dst c) (chunk_lines c) (seq 0 (length (src c))) in
  (MkChunk ls (src_pos c) (dst_pos c), ok).

(** [except: return patchset]: an exception ends the whole pass. *)
Fixpoint whitespace_chunks (cs : list PatchChunk) : list PatchChunk * bool :=
  match cs with
  | [] => ([], true)
  | c :: cs =>
      let '(c, ok) := whitespace_chunk c in
      if ok then let '(cs, ok) := whitespace_chunks cs in (c :: cs, ok) else (c :: cs, false)
  end.

Fixpoint whitespace_patches (ps : list Patch) : list Patch :=
  match ps with
  | [] => []
  | p :: ps =>
      let '(cs, ok) := whitespace_chunks (chunks p) in
      set_chunks cs p :: if ok then whitespace_patches ps else ps
  end.

Definition remove_trailing_whitespace_changes (patch_generator : list pystr)
    : res exn (list Patch) :=
  whitespace_patches <$> parse_patchset patch_generator.

(** ** The driver *)

Definition quote : ascii := "034"%char.

Definition level0 : pystr :=
  concat ((λ l, l ++ [newline]) <$>
  [[];
   str "sp_func_proto_paren=Add";
   str "sp_func_def_paren=Add";
   str "sp_func_call_paren=Add";
   str "sp_after_semi_for=Ignore";
   str "sp_before_sparen=Ignore";
   str "sp_before_ellipsis=Remove";
   str "sp_type_func=Ignore";
   str "sp_after_type=Ignore";
   str "nl_class_leave_one_liners=True";
   str "nl_enum_leave_one_liners=True";
   str "nl_func_leave_one_liners=True";
   str "nl_assign_leave_one_liners=True";
   str "nl_collapse_empty_body=True";
   str "nl_getset_leave_one_liners=True";
   str "nl_if_leave_one_liners=True";
   str "nl_fdef_brace=Ignore";
   str "# finally, indentation configuration";
   str "indent_with_tabs=0";
   str "indent_namespace=false";
   str "indent_columns=2";
   str "indent_brace=2";
   str "indent_case_brace=indent_columns";
   str "indent_class=true";
   str "indent_class_colon=True";
   str "indent_switch_case=indent_columns";
   str "# alignment";
   str "indent_align_assign=False";
   str "align_left_shift=True";
   str "# comment reformating disabled";
   str "cmt_reflow_mode=1 # do not touch comments at all";
   str "cmt_indent_multi=False # really, do not touch them";
   str "disable_processing_cmt= " ++ [quote] ++ str " *NS_CHECK_STYLE_OFF*" ++ [quote] ++ str "";
   str "enable_processing_cmt=  " ++ [quote] ++ str " *NS_CHECK_STYLE_ON*" ++ [quote] ++ str ""]).

Definition level1 : pystr :=
  concat ((λ l, l ++ [newline]) <$>
  [[];
   str "# extra spaces here and there";
   str "sp_brace_typedef=Add";
   str "sp_enum_assign=Add";
   str "sp_before_sparen=Add";
   str "sp_after_semi_for=Add";
   str "sp_arith=Add";
   str "sp_assign=Add";
   str "sp_compare=Add";
   str "sp_func_class_paren=Add";
   str "sp_after_type=Add";
   str "sp_type_func=Add";
   str "sp_angle_paren=Add"]).

Definition level2 : pystr :=
  concat ((λ l, l ++ [newline]) <$>
  [[];
   str "nl_if_brace=Add";
   str "nl_brace_else=Add";
   str "nl_elseif_brace=Add";
   str "nl_else_brace=Add";
   str "nl_while_brace=Add";
   str "nl_do_brace=Add";
   str "nl_for_brace=Add";
   str "nl_brace_while=Add";
   str "nl_switch_brace=Add";
   str "nl_after_case=True";
   str "nl_namespace_brace=ignore";
   str "nl_after_brace_open=True";
   str "nl_class_leave_one_liners=False";
   str "nl_enum_leave_one_liners=False";
   str "nl_func_leave_one_liners=False";
   str "nl_if_leave_one_liners=False";
   str "nl_class_colon=Ignore";
   str "nl_before_access_spec=2";
   str "nl_after_access_spec=0";
   str "indent_access_spec=-indent_columns";
   str "nl_after_semicolon=True";
   str "pos_class_colon=Lead";
   str "pos_class_comma=Trail";
   str "indent_constr_colon=true";
   str "pos_bool=Lead";
   str "nl_class_init_args=Add";
   str "nl_template_class=Add";
   str "nl_class_brace=Add";
   str "# does not work very well";
   str "nl_func_type_name=Ignore";
   str "nl_func_scope_name=Ignore";
   str "nl_func_type_name_class=Ignore";
   str "nl_func_proto_type_name=Ignore";
   str "# function\n(";
   str "nl_func_paren=Remove";
   str "nl_fdef_brace=Add";
   str "nl_struct_brace=Add";
   str "nl_enum_brace=Add";
   str "nl_union_brace=Add";
   str "mod_full_brace_do=Add";
   str "mod_full_brace_for=Add";
   str "mod_full_brace_if=Add";
   str "mod_full_brace_while=Add";
   str "mod_full_brace_for=Add";
   str "mod_remove_extra_semicolon=True";
   str "# max code width";
   str "#code_width=128";
   str "#ls_for_split_full=True";
   str "#ls_func_split_full=True";
   str "nl_cpp_lambda_leave_one_liners=True"]).

(** The text of the configuration file for a level. *)
Definition uncrustify_config (level : Z) : pystr :=
  level0 ++ (if 1 <=? level then level1 else []) ++ (if 2 <=? level then level2 else []).

(** Files by path, the number of temporary files made so far, and standard
    output.  The debugging messages on standard error are left out. *)
Record world := MkWorld { files : gmap pystr pystr; temps : nat; stdout : list pystr }.

Section driver.
(** The external programs and libraries: the name of the [n]-th temporary
    file; [uncrustify] from configuration and source text to the output text
    ([None] when it writes no output), if installed; [difflib.unified_diff];
    [patch] from a diff and a text to the text it leaves, if installed; whether
    two files have the same [os.stat] signature, which is all [filecmp.cmp]
    looks at when it holds. *)
Context (tmp_path : nat → pystr).
Context (uncrustify : option (pystr → pystr → option pystr)).
Context (unified_diff : list pystr → list pystr → pystr → pystr → list pystr).
Context (patch_tool : option (pystr → pystr → pystr)).
Context (same_signature : pystr → pystr → bool).

Definition set_file (path text : pystr) : stm world unit :=
  st_modify (λ w, MkWorld (<[path := text]> (files w)) (temps w) (stdout w)).
Definition read_file (path : pystr) : stm world pystr :=
  w ← st_get; st_lift (res_of_option OSError (files w !! path)).
Definition print (line : pystr) : stm world unit :=
  st_modify (λ w, MkWorld (files w) (temps w) (stdout w ++ [line])).
Definition mkstemp : stm world pystr :=
  w ← st_get;
  let path := tmp_path (temps w) in
  _ ← st_put (MkWorld (<[path := []]> (files w)) (S (temps w)) (stdout w));
  mret path.
Definition copyfile (from to : pystr) : stm world unit :=
  text ← read_file from; set_file to text.

Definition copy_file (filename : pystr) : stm world pystr :=
  pathname ← mkstemp;
  text ← read_file filename;
  _ ← set_file pathname (concat (readlines text));
  mret pathname.

Definition uncrustify_config_file (level : Z) : stm world pystr :=
  pathname ← mkstemp;
  _ ← set_file pathname (uncrustify_config level);
  mret pathname.

Definition run_uncrustify (cfg source output : pystr) : stm world unit :=
  match uncrustify with
  | None => st_raise GenericException
  | Some run =>
      cfg_text ← read_file cfg;
      w ← st_get;
      match files w !! source ≫= run cfg_text with
      | Some text => set_file output text
      | None => mret tt
      end
  end.

(** The diff is a generator: writing it out for debugging uses it up, and what
    is left of it is returned. *)
Definition debug_diff (debug : bool) (diff : list pystr) : stm world (list pystr) :=
  if debug then
    initial_diff ← mkstemp;
    _ ← set_file initial_diff (concat diff);
    mret []
  else mret diff.

Definition write_final_diff (level : Z) (final_diff : pystr) (diff : list pystr) : stm world unit :=
  if level <? 3 then
    patchset ← st_lift (remove_trailing_whitespace_changes diff);
    match patchset with
    | [] => mret tt
    | p :: _ => ws ← st_lift (write_patch p); set_file final_diff (concat ws)
    end
  else set_file final_diff (concat diff).

Definition indent (source : pystr) (debug : bool) (level : Z) : stm world pystr :=
  output ← mkstemp;
  cfg ← uncrustify_config_file level;
  _ ← run_uncrustify cfg source output;
  src ← read_file source;
  dst ← read_file output;
  diff ← debug_diff debug (unified_diff (readlines src) (readlines dst) source output);
  final_diff ← mkstemp;
  _ ← write_final_diff level final_diff diff;
  _ ← copyfile source output;
  diff_text ← read_file final_diff;
  text ← read_file output;
  match patch_tool with
  | None => st_raise OSError
  | Some patch => _ ← set_file output (patch diff_text text); mret output
  end.

(** [filecmp.cmp(src, dst)] *)
Definition filecmp_cmp (src dst : pystr) : stm world bool :=
  s ← read_file src;
  d ← read_file dst;
  mret (same_signature src dst || bool_decide (s = d)).

(** Keep the pairs for which [filecmp.cmp] returns false. *)
Fixpoint select_failed (output : list (pystr * pystr)) : stm world (list (pystr * pystr)) :=
  match output with
  | [] => mret []
  | (src, dst) :: output =>
      same ← filecmp_cmp src dst;
      failed ← select_failed output;
      mret (if same : bool then failed else (src, dst) :: failed)
  end.

Definition print_diff (pair : pystr * pystr) : stm world unit :=
  s ← read_file pair.1;
  d ← read_file pair.2;
  st_for print (unified_diff (readlines s) (readlines d) pair.1 pair.2).

Definition indent_files (files : list pystr) (diff debug : bool) (level : Z) (inplace : bool)
    : stm world bool :=
  output ← st_map (λ f : pystr, dst ← indent f debug level; mret (f, dst)) files;
  if inplace then
    _ ← st_for (λ '(src, dst), copyfile dst src) output;
    mret true
  else
    failed ← select_failed output;
    match failed with
    | [] => mret true
    | _ =>
        _ ← (if diff then st_for print_diff failed
             else
               _ ← print (str "Found " ++ str_of_Z (Z.of_nat (length failed))
                            ++ str " badly indented files:" ++ [newline]);
               st_for (λ '(src, _), print (str "  " ++ src ++ [newline])) failed);
        mret false
    end.

(** [git_modified_files], from the output of [git rev-parse] and the lines of
    [git diff --name-only]. *)
Definition git_modified_files (root_dir : pystr) (lines : list pystr) : list pystr :=
  let files_changed := strip <$> lines in
  let files_changed :=
    filter (λ item, endswith (str ".h") item = true ∨ endswith (str ".cc") item = true)
      files_changed in
  (λ filename, py_slice_to root_dir (-1) ++ str "/" ++ strip filename) <$> files_changed.

Record options := MkOptions {
  opt_debug : bool; opt_level : Z; opt_git : bool; opt_file : pystr;
  opt_diff : bool; opt_in_place : bool;
}.

(** The exit status of [run_as_main]; an exception gives 1 as well, in the
    code at the end of the file. *)
Definition run_as_main (root_dir : pystr) (git_lines : list pystr) (o : options)
    : stm world Z :=
  let check fs := indent_files fs (opt_diff o) (opt_debug o) (opt_level o) (opt_in_place o) in
  if opt_git o then
    ok ← check (git_modified_files root_dir git_lines);
    mret (if ok : bool then 0 else 1)
  else if decide (opt_file o = []) then mret 1
  else
    w ← st_get;
    match files w !! opt_file o with
    | None =>
        _ ← print (str "file " ++ opt_file o ++ str " does not exist" ++ [newline]);
        mret 1
    | Some _ => ok ← check [opt_file o]; mret (if ok : bool then 0 else 1)
    end.

Definition exit_status (root_dir : pystr) (git_lines : list pystr) (o : options) (w : world) : Z :=
  match run_as_main root_dir git_lines o w with
  | (Ok status, _) => status
  | (Raise _, _) => 1
  end.
End driver.

(** ** The regular expressions on what [write] produces *)

Lemma strip_prefix_app p t : strip_prefix p (p ++ t) = Some t.
Proof. induction p as [|a p IH]; cbn; [done|]. by rewrite decide_True. Qed.

Lemma strip_prefix_Some p s t : strip_prefix p s = Some t ↔ s = p ++ t.
Proof.
  split; [|intros ->; apply strip_prefix_app].
  revert s. induction p as [|a p IH]; intros [|b s]; cbn; intros Hs; simplify_eq; try done.
  case_decide; simplify_eq. f_equal. auto.
Qed.

Lemma re_rest_newline t : newline ∉ t → re_rest (t ++ [newline]) = Some t.
Proof.
  intros Ht. unfold re_rest. rewrite last_snoc, (decide_True (P := newline = newline)) by done.
  rewrite length_app. cbn [length]. rewrite Nat.add_1_r. cbn [pred].
  by rewrite take_app_length, decide_False.
Qed.

Lemma re_rest_plain t : newline ∉ t → re_rest t = Some t.
Proof.
  intros Ht. unfold re_rest. destruct (last t) as [c|] eqn:Hl.
  - rewrite (decide_False (P := c = newline)); [by rewrite decide_False|].
    intros ->. apply Ht. by apply last_Some_elem_of.
  - by rewrite decide_False.
Qed.

Lemma re_line_match p t : newline ∉ t → re_line p (p ++ t ++ [newline]) = Some t.
Proof. intros Ht. unfold re_line. rewrite strip_prefix_app. cbn. by apply re_rest_newline. Qed.

Lemma re_line_prefix p s t : re_line p s = Some t → ∃ u, s = p ++ u.
Proof.
  unfold re_line. destruct (strip_prefix p s) as [u|] eqn:Hs; [|done].
  apply strip_prefix_Some in Hs. eauto.
Qed.

Lemma re_line_none p s : startswith p s = false → re_line p s = None.
Proof.
  intros Hs. destruct (re_line p s) eqn:Hr; [|done].
  apply re_line_prefix in Hr as [u ->]. by rewrite startswith_app in Hs.
Qed.

Lemma span_digits_app d a r :
  Forall (λ c, is_digit_in 10 c = true) d → is_digit_in 10 a = false →
  span_digits (d ++ a :: r) = (d, a :: r).
Proof.
  intros Hd Ha. induction Hd as [|c d Hc Hd IH]; cbn [span_digits app]; [by rewrite Ha|].
  by rewrite Hc, IH.
Qed.

Lemma str_of_Z_digits z :
  0 <= z → str_of_Z z ≠ [] ∧ Forall (λ c, is_digit_in 10 c = true) (str_of_Z z) ∧
           py_int 10 (str_of_Z z) = Ok z.
Proof.
  intros Hz. unfold str_of_Z. rewrite (proj2 (Z.ltb_ge z 0)) by done.
  pose proof (digits_nonnil 10 z) as Hne. pose proof (digits_chars 10 z) as Hch.
  assert (Forall (λ c, is_digit_in 10 c = true) (digits 10 z)) as Hd.
  { eapply Forall_impl; [apply Hch; lia|]. intros c Hc. by apply base_char_digit_in. }
  split_and!; [done|done|]. rewrite <-(digits_val_digits 10 z) at 2 by lia.
  apply py_int_digits; [lia|done|]. apply Hch. lia.
Qed.

Lemma re_digits_Z z a r :
  0 <= z → is_digit_in 10 a = false → re_digits (str_of_Z z ++ a :: r) = Some (str_of_Z z, a :: r).
Proof.
  intros Hz Ha. destruct (str_of_Z_digits z Hz) as (Hne & Hd & _). unfold re_digits.
  rewrite span_digits_app by done. by destruct (str_of_Z z).
Qed.

(** ** Round trip *)

(** What [write] puts in a file for one line and for the head of a chunk. *)
Definition line_mark (l : PatchChunkLine) : ascii :=
  if line_type l =? SRC then "-"%char else if line_type l =? DST then "+"%char else " "%char.
Definition line_str (l : PatchChunkLine) : pystr := line_mark l :: line_text l ++ [newline].
Definition chunk_head (c : PatchChunk) : pystr :=
  str "@@ -" ++ str_of_Z (src_pos c) ++ str "," ++ str_of_Z (src_len c) ++ str " +"
    ++ str_of_Z (dst_pos c) ++ str "," ++ str_of_Z (dst_len c) ++ str " @@" ++ [newline].
Definition chunk_strs (c : PatchChunk) : list pystr := chunk_head c :: (line_str <$> chunk_lines c).
Definition patch_strs (p : Patch) : list pystr :=
  [str "--- " ++ patch_src p ++ [newline]; str "+++ " ++ patch_dst p ++ [newline]]
    ++ mjoin (chunk_strs <$> chunks p).

(** Lines that a diff can hold without being taken for a header. *)
Definition line_ok (l : PatchChunkLine) : Prop :=
  newline ∉ line_text l ∧
  (line_type l = SRC ∧ startswith (str "-- ") (line_text l) = false ∨
   line_type l = DST ∧ startswith (str "++ ") (line_text l) = false ∨
   line_type l = BOTH).
Definition chunk_ok (c : PatchChunk) : Prop :=
  0 <= src_pos c ∧ 0 <= dst_pos c ∧ Forall line_ok (chunk_lines c).
Definition patch_ok (p : Patch) : Prop :=
  newline ∉ patch_src p ∧ newline ∉ patch_dst p ∧ Forall chunk_ok (chunks p).

Lemma append_writes_ok {A} (f : A → res exn (list pystr)) (g : A → list pystr) ws l :
  Forall (λ x, f x = Ok (g x)) l →
  fold_res (append_writes f) ws l = Ok (ws ++ mjoin (g <$> l)).
Proof.
  intros Hl. revert ws. induction Hl as [|x l Hx Hl IH]; intros ws; cbn; [by rewrite app_nil_r|].
  unfold append_writes at 1. rewrite Hx. cbn. rewrite IH. by rewrite <-app_assoc.
Qed.

Lemma write_line_ok l : line_ok l → write_line l = Ok [line_str l].
Proof.
  unfold write_line, line_str, line_mark. intros [_ [[-> _]|[[-> _]| ->]]]; done.
Qed.

Lemma write_chunk_ok c : chunk_ok c → write_chunk c = Ok (chunk_strs c).
Proof.
  intros (_ & _ & Hl). unfold write_chunk.
  rewrite (append_writes_ok _ (λ l, [line_str l])).
  - unfold chunk_strs, chunk_head. cbn [app]. do 2 f_equal.
    induction (chunk_lines c) as [|l ls IH]; [done|]. apply Forall_cons in Hl as [_ Hl].
    cbn. by rewrite <-IH.
  - eapply Forall_impl; [exact Hl|]. apply write_line_ok.
Qed.

Lemma write_patch_ok p : patch_ok p → write_patch p = Ok (patch_strs p).
Proof.
  intros (_ & _ & Hc). unfold write_patch. rewrite (append_writes_ok _ chunk_strs); [done|].
  eapply Forall_impl; [exact Hc|]. apply write_chunk_ok.
Qed.

Lemma startswith_newline p s :
  newline ∉ p → startswith p s = false → startswith p (s ++ [newline]) = false.
Proof.
  revert s. induction p as [|a p IH]; intros s Hp; [done|].
  apply not_elem_of_cons in Hp as [Ha Hp]. destruct s as [|b s]; cbn.
  - intros _. by rewrite bool_decide_false by congruence.
  - case_bool_decide; [by apply IH|done].
Qed.

Lemma newline_free (p : pystr) : bool_decide (newline ∉ p) = true → newline ∉ p.
Proof. apply bool_decide_eq_true_1. Qed.

Lemma alter_last {A} (f : A → A) l x : alter f (length l) (l ++ [x]) = l ++ [f x].
Proof. rewrite alter_app_r_alt by done. by rewrite Nat.sub_diag. Qed.

Lemma parse_step_line st l :
  line_ok l → parse_step st (line_str l) = on_current_chunk (add_line l) st.
Proof.
  destruct l as [t s]. unfold line_str, line_ok, line_mark. cbn [line_type line_text].
  intros [Hs Ht]. unfold parse_step.
  destruct Ht as [[-> Ht]|[[-> Ht]| ->]]; cbn [Z.eqb Pos.eqb SRC DST BOTH].
  - apply (startswith_newline _ s) in Ht; [|by apply newline_free].
    rewrite (re_line_none (str "--- ")), (re_line_none (str "+++ ")) by done.
    replace (re_chunk_start _) with (@None (pystr * pystr)) by done.
    change ("-"%char :: s ++ [newline]) with (str "-" ++ s ++ [newline]).
    by rewrite re_line_match.
  - apply (startswith_newline _ s) in Ht; [|by apply newline_free].
    rewrite (re_line_none (str "--- ")), (re_line_none (str "+++ ")) by done.
    replace (re_chunk_start _) with (@None (pystr * pystr)) by done.
    rewrite (re_line_none (str "-")) by done.
    change ("+"%char :: s ++ [newline]) with (str "+" ++ s ++ [newline]).
    by rewrite re_line_match.
  - rewrite (re_line_none (str "--- ")), (re_line_none (str "+++ ")) by done.
    replace (re_chunk_start _) with (@None (pystr * pystr)) by done.
    rewrite (re_line_none (str "-")), (re_line_none (str "+")) by done.
    change (" "%char :: s ++ [newline]) with (str " " ++ s ++ [newline]).
    by rewrite re_line_match.
Qed.

Lemma re_chunk_start_head c :
  0 <= src_pos c → 0 <= dst_pos c →
  re_chunk_start (chunk_head c) = Some (str_of_Z (src_pos c), str_of_Z (dst_pos c)).
Proof.
  intros Hs Hd. unfold re_chunk_start, chunk_head. rewrite strip_prefix_app. cbn [mbind option_bind].
  assert (0 <= src_len c ∧ 0 <= dst_len c) as [Hsl Hdl] by (unfold src_len, dst_len; lia).
  assert (∀ z a s, 0 <= z → is_digit_in 10 a = false →
    re_digits (str_of_Z z ++ a :: s) = Some (str_of_Z z, a :: s)) as Hdig by (intros; by apply re_digits_Z).
  cbn [str String.list_ascii_of_string app].
  do 3 (rewrite Hdig by done; cbn [mbind option_bind];
        cbn [strip_prefix]; rewrite !decide_True by done; cbn [mbind option_bind]).
  rewrite Hdig by done. by vm_compute.
Qed.

Lemma parse_step_head st p ps c :
  chunk_ok c → patchset st = ps ++ [p] →
  parse_step st (chunk_head c) =
    Ok (MkParser (ps ++ [add_chunk (MkChunk [] (src_pos c) (dst_pos c)) p])
                 (Some (length ps, length (chunks p)))).
Proof.
  intros (Hs & Hd & _) Hst. unfold parse_step.
  rewrite (re_line_none (str "--- ")), (re_line_none (str "+++ ")) by done.
  rewrite re_chunk_start_head by done. unfold start_chunk, new_chunk. cbn [fst snd].
  destruct (str_of_Z_digits _ Hs) as (_ & _ & ->), (str_of_Z_digits _ Hd) as (_ & _ & ->).
  cbn [mbind res_bind]. rewrite Hst, last_snoc, length_app. cbn [length].
  rewrite Nat.add_1_r. cbn [pred]. by rewrite alter_last.
Qed.

Lemma parse_lines ps p cs c ls :
  Forall line_ok ls → chunks p = cs ++ [c] →
  fold_res parse_step (MkParser (ps ++ [p]) (Some (length ps, length cs))) (line_str <$> ls)
  = Ok (MkParser (ps ++ [set_chunks (cs ++ [MkChunk (chunk_lines c ++ ls) (src_pos c) (dst_pos c)]) p])
                 (Some (length ps, length cs))).
Proof.
  intros Hls. revert p c. induction Hls as [|l ls Hl Hls IH]; intros p c Hp; cbn.
  - rewrite app_nil_r. destruct p, c. cbn in *. by subst.
  - rewrite parse_step_line by done. unfold on_current_chunk. cbn [patchset current_chunk].
    rewrite alter_last.
    rewrite (IH _ (add_line l c)).
    + unfold add_line, set_chunks. cbn. by rewrite <-app_assoc.
    + cbn. by rewrite Hp, alter_last.
Qed.

Lemma parse_chunks ps p k cs :
  Forall chunk_ok cs →
  ∃ k', fold_res parse_step (MkParser (ps ++ [p]) k) (mjoin (chunk_strs <$> cs))
      = Ok (MkParser (ps ++ [set_chunks (chunks p ++ cs) p]) k').
Proof.
  intros Hcs. revert p k. induction Hcs as [|c cs Hc Hcs IH]; intros p k.
  - exists k. cbn. rewrite app_nil_r. by destruct p.
  - change (mjoin (chunk_strs <$> c :: cs))
      with ([chunk_head c] ++ (line_str <$> chunk_lines c) ++ mjoin (chunk_strs <$> cs)).
    cbn [fold_res app]. rewrite (parse_step_head _ p ps c) by done.
    cbn [mbind res_bind]. pose proof Hc as (_ & _ & Hls).
    rewrite fold_res_app, (parse_lines ps _ (chunks p) (MkChunk [] (src_pos c) (dst_pos c))) by done.
    cbn [mbind res_bind chunk_lines src_pos dst_pos app].
    match goal with |- context [MkParser (ps ++ [?q]) ?j] => destruct (IH q j) as [k' ->] end.
    exists k'. destruct c. unfold set_chunks. cbn. by rewrite <-app_assoc.
Qed.

Lemma parse_patches ps qs k :
  Forall patch_ok qs →
  ∃ k', fold_res parse_step (MkParser ps k) (mjoin (patch_strs <$> qs))
      = Ok (MkParser (ps ++ qs) k').
Proof.
  intros Hqs. revert ps k. induction Hqs as [|q qs (Hs & Hd & Hc) Hqs IH]; intros ps k.
  - exists k. cbn. by rewrite app_nil_r.
  - change (mjoin (patch_strs <$> q :: qs)) with (patch_strs q ++ mjoin (patch_strs <$> qs)).
    unfold patch_strs. rewrite !fold_res_app. cbn [fold_res].
    unfold parse_step at 3 4. rewrite re_line_match by done.
    rewrite (re_line_none (str "--- ")) by done. rewrite re_line_match by done.
    unfold on_current_patch. cbn [patchset current_chunk].
    replace (match ps ++ _ with [] => _ | _ => _ end) with
      (Ok (E := exn) (MkParser (ps ++ [MkPatch (patch_src q) (patch_dst q) []]) k)).
    2:{ destruct (ps ++ [patch_set_src (patch_src q) new_patch]) eqn:Hn; [by destruct ps|].
        rewrite <-Hn, length_app. cbn [length]. rewrite Nat.add_1_r. cbn [pred].
        by rewrite alter_app_r_alt, Nat.sub_diag by lia. }
    cbn [mbind res_bind]. destruct (parse_chunks ps (MkPatch (patch_src q) (patch_dst q) []) k _ Hc)
      as [k1 ->]. cbn [mbind res_bind chunks app]. destruct q as [qs' qd qc].
    unfold set_chunks. cbn [patch_src patch_dst chunks].
    destruct (IH (ps ++ [MkPatch qs' qd qc]) k1) as [k' Hk']. exists k'.
    rewrite <-app_assoc in Hk'. exact Hk'.
Qed.

(** ** The trailing-whitespace pass *)

(** What the pass makes of the text [d] of a destination line, given the text
    [s] of the source line at the same position. *)
Definition fix_text (s d : pystr) : pystr :=
  match re_trailing_whitespace s with
  | Some (g1, g2) => if decide (g1 = d) then d ++ g2 else d
  | None => d
  end.
Definition fix_line (s d : PatchChunkLine) : PatchChunkLine :=
  MkLine (line_type d) (fix_text (line_text s) (line_text d)).

Lemma re_trailing_whitespace_spec s g1 g2 :
  newline ∉ s →
  re_trailing_whitespace s = Some (g1, g2) ↔
  ∃ b, s = g1 ++ [b] ∧ g2 = [b] ∧ is_blank b = true.
Proof.
  intros Hs. unfold re_trailing_whitespace. rewrite re_rest_plain by done. cbn [mbind option_bind].
  destruct s as [|b s _] using rev_ind.
  - cbn. split; [done|]. intros (b & Hb & _). by destruct g1.
  - rewrite last_snoc, length_app. cbn [mbind option_bind length]. rewrite Nat.add_1_r. cbn [pred].
    rewrite take_app_length. destruct (is_blank b) eqn:Hb; split.
    + intros. simplify_eq. eauto.
    + intros (b' & Heq & -> & _). apply app_inj_tail in Heq as [-> ->]. done.
    + done.
    + intros (b' & Heq & _ & Hb'). apply app_inj_tail in Heq as [-> ->]. congruence.
Qed.

Lemma fix_text_spec s d :
  newline ∉ s →
  (∃ b, is_blank b = true ∧ s = d ++ [b] ∧ fix_text s d = s) ∨
  ((∀ b, is_blank b = true → s ≠ d ++ [b]) ∧ fix_text s d = d).
Proof.
  intros Hs. unfold fix_text. destruct (re_trailing_whitespace s) as [[g1 g2]|] eqn:Hr.
  - apply (re_trailing_whitespace_spec s) in Hr as (b & -> & -> & Hb); [|done].
    destruct (decide (g1 = d)) as [->|Hd]; [left; eauto|right].
    split; [|done]. intros b' _ [? _]%app_inj_tail. congruence.
  - right. split; [|done]. intros b Hb ->.
    assert (re_trailing_whitespace (d ++ [b]) = Some (d, [b])) as Ht
      by (apply re_trailing_whitespace_spec; eauto). congruence.
Qed.

Lemma refs_from_spec P i ls k :
  k ∈ refs_from P i ls ↔ ∃ j l, k = (i + j)%nat ∧ ls !! j = Some l ∧ P l = true.
Proof.
  revert i. induction ls as [|l ls IH]; intros i; cbn.
  - split; [by intros ?%elem_of_nil|]. by intros (j & l & _ & ? & _).
  - assert (k ∈ refs_from P (S i) ls ↔ ∃ j l', k = (i + S j)%nat ∧ ls !! j = Some l' ∧ P l' = true)
      as Htail.
    { rewrite IH. split; intros (j & l' & -> & ?); exists j, l'; (split; [lia|done]). }
    transitivity ((k = i ∧ P l = true) ∨ k ∈ refs_from P (S i) ls).
    { destruct (P l); rewrite ?elem_of_cons; naive_solver. }
    rewrite Htail. split.
    + intros [[-> Hl]|(j & l' & -> & ?)]; [exists 0%nat, l; split; [lia|done]|by exists (S j), l'].
    + intros ([|j] & l' & -> & Hj & ?); cbn in Hj; simplify_eq; [left; split; [lia|done]|right; eauto].
Qed.

Lemma refs_from_NoDup P i ls : NoDup (refs_from P i ls).
Proof.
  revert i. induction ls as [|l ls IH]; intros i; cbn; [constructor|].
  destruct (P l); [|done]. constructor; [|done].
  intros (j & ? & ? & _)%refs_from_spec. lia.
Qed.

Lemma src_lookup c i k : src c !! i = Some k → ∃ s, chunk_lines c !! k = Some s ∧ is_src s = true.
Proof.
  intros Hk%list_elem_of_lookup_2. apply refs_from_spec in Hk as (j & l & -> & ? & ?). eauto.
Qed.
Lemma dst_lookup c i k : dst c !! i = Some k → ∃ d, chunk_lines c !! k = Some d ∧ is_dst d = true.
Proof.
  intros Hk%list_elem_of_lookup_2. apply refs_from_spec in Hk as (j & l & -> & ? & ?). eauto.
Qed.

(** One round, when both positions exist. *)
Lemma whitespace_step_ok srcs dsts ls i ks kd s d :
  srcs !! i = Some ks → dsts !! i = Some kd → ls !! ks = Some s → ls !! kd = Some d →
  whitespace_step srcs dsts ls i = Ok (<[kd := fix_line s d]> ls).
Proof.
  intros Hks Hkd Hs Hd. unfold whitespace_step. rewrite Hks, Hkd. cbn. rewrite Hs, Hd. cbn.
  assert (<[kd := MkLine (line_type d) (line_text d)]> ls = ls) as Hid
    by (destruct d; by apply list_insert_id).
  unfold fix_line, fix_text. destruct (re_trailing_whitespace _) as [[g1 g2]|]; [|by rewrite Hid].
  case_decide as Hg; [|by rewrite Hid]. f_equal. apply list_eq. intros j.
  rewrite list_lookup_alter, list_lookup_insert.
  destruct (decide (kd = j)) as [->|Hj].
  - rewrite decide_True by (split; [done|by eapply lookup_lt_Some]). by rewrite Hd.
  - by rewrite decide_False by tauto.
Qed.

Lemma whitespace_step_short srcs dsts ls i :
  dsts !! i = None → whitespace_step srcs dsts ls i = Raise IndexError.
Proof.
  intros Hi. unfold whitespace_step. rewrite Hi. by destruct (srcs !! i ≫= _).
Qed.

(** Lines compared before and after: same type, and at most one blank more at
    the end of the text. *)
Definition grown (l l' : PatchChunkLine) : Prop :=
  line_type l' = line_type l ∧
  (line_text l' = line_text l ∨ ∃ b, is_blank b = true ∧ line_text l' = line_text l ++ [b]).

Lemma fix_line_grown s d : grown d (fix_line s d).
Proof.
  split; [done|]. unfold fix_line, fix_text, re_trailing_whitespace. cbn [line_text].
  destruct (re_rest (line_text s) ≫= _) as [[g1 g2]|] eqn:Hr; [|by left].
  case_decide; [|by left]. right. res_inv.
  destruct (re_rest (line_text s)) as [t|]; [|done]. cbn in Hr.
  destruct (last t) as [c|]; [|done]. cbn in Hr. destruct (is_blank c) eqn:Hc; [|done].
  simplify_eq. eauto.
Qed.

(** The state of the rounds over a chunk after [i] of them. *)
Definition rounds_inv (c : PatchChunk) (i : nat) (ls : list PatchChunkLine) : Prop :=
  length ls = length (chunk_lines c) ∧
  ∀ k d, chunk_lines c !! k = Some d → ∃ d', ls !! k = Some d' ∧ grown d d' ∧
    (k ∉ take i (dst c) → d' = d).

Lemma rounds_inv_step c i ls :
  rounds_inv c i ls → (i < length (src c))%nat → (i < length (dst c))%nat →
  ∃ s ks kd d, src c !! i = Some ks ∧ ls !! ks = Some s ∧ dst c !! i = Some kd ∧
    chunk_lines c !! kd = Some d ∧ ls !! kd = Some d ∧
    whitespace_step (src c) (dst c) ls i = Ok (<[kd := fix_line s d]> ls) ∧
    rounds_inv c (S i) (<[kd := fix_line s d]> ls).
Proof.
  intros [Hlen HI] [ks Hks]%lookup_lt_is_Some [kd Hkd]%lookup_lt_is_Some.
  destruct (src_lookup _ _ _ Hks) as (s0 & Hs0 & _), (dst_lookup _ _ _ Hkd) as (d & Hd & _).
  destruct (HI _ _ Hs0) as (s & Hs & _), (HI _ _ Hd) as (d' & Hd' & _ & Hsame).
  assert (kd ∉ take i (dst c)) as Hnew.
  { intros [j Hj]%list_elem_of_lookup. apply lookup_take_Some in Hj as [Hj ?].
    pose proof (NoDup_lookup _ _ _ _ (refs_from_NoDup is_dst 0 (chunk_lines c)) Hj Hkd). lia. }
  rewrite (Hsame Hnew) in Hd'. exists s, ks, kd, d. split_and!; try done.
  - by apply (whitespace_step_ok _ _ _ _ ks).
  - split; [by rewrite length_insert|].
    intros k e He. destruct (decide (k = kd)) as [->|Hk].
    + assert (e = d) as -> by congruence. exists (fix_line s d). split_and!.
      * apply list_lookup_insert_eq. by eapply lookup_lt_Some.
      * apply fix_line_grown.
      * intros []. rewrite (take_S_r _ _ _ Hkd). set_solver.
    + destruct (HI k e He) as (e' & He' & Hg & Hne). exists e'. split_and!; [|done|].
      * by rewrite list_lookup_insert_ne.
      * rewrite (take_S_r _ _ _ Hkd). intros Hk'. apply Hne. set_solver.
Qed.

(** The whole loop, for an invariant that refines [rounds_inv]. *)
Lemma rounds_ok c (I : nat → list PatchChunkLine → Prop) :
  (∀ i ls, I i ls → rounds_inv c i ls) →
  (∀ i ls s ks kd d, I i ls → rounds_inv c i ls → src c !! i = Some ks → ls !! ks = Some s →
     dst c !! i = Some kd → chunk_lines c !! kd = Some d →
     rounds_inv c (S i) (<[kd := fix_line s d]> ls) → I (S i) (<[kd := fix_line s d]> ls)) →
  ∀ n i ls, (i + n = length (src c))%nat → (i ≤ length (dst c))%nat → I i ls →
  ∃ ls', whitespace_rounds (src c) (dst c) ls (seq i n)
       = (ls', bool_decide (length (src c) ≤ length (dst c))%nat) ∧
    I (min (length (src c)) (length (dst c))) ls'.
Proof.
  intros HI Hstep n. induction n as [|n IH]; intros i ls Hn Hi Hls; cbn.
  - exists ls. rewrite bool_decide_true by lia. split; [done|].
    by replace (min _ _) with i by lia.
  - destruct (decide (i < length (dst c))%nat) as [Hlt|Hge].
    + destruct (rounds_inv_step c i ls) as (s & ks & kd & d & ? & ? & ? & ? & ? & -> & ?);
        [auto|lia|done|]. apply IH; [lia..|]. by eapply Hstep; eauto.
    + rewrite whitespace_step_short by (apply lookup_ge_None_2; lia).
      exists ls. rewrite bool_decide_false by lia. split; [done|].
      by replace (min _ _) with i by lia.
Qed.

Definition chunk_complete (c : PatchChunk) : Prop := (length (src c) ≤ length (dst c))%nat.
Definition chunk_grown (c c' : PatchChunk) : Prop :=
  src_pos c' = src_pos c ∧ dst_pos c' = dst_pos c ∧
  length (chunk_lines c') = length (chunk_lines c) ∧
  ∀ k d, chunk_lines c !! k = Some d → ∃ d', chunk_lines c' !! k = Some d' ∧ grown d d' ∧
    (line_type d = SRC → d' = d).

Lemma whitespace_chunk_shape c :
  ∃ c', whitespace_chunk c = (c', bool_decide (chunk_complete c)) ∧ chunk_grown c c'.
Proof.
  unfold whitespace_chunk. destruct (rounds_ok c (rounds_inv c)) with (n := length (src c))
    (i := 0%nat) (ls := chunk_lines c) as (ls' & -> & Hlen & HI); [done|done|done|lia| |].
  { split; [done|]. intros k d Hd. exists d. split_and!; [done|split; [done|by left]|done]. }
  eexists. split; [done|]. split_and!; [done..|]. cbn [chunk_lines].
  intros k d Hd. destruct (HI k d Hd) as (d' & ? & ? & Hsame). exists d'. split_and!; [done..|].
  intros Hsrc. apply Hsame. intros [j Hj]%list_elem_of_lookup. apply lookup_take_Some in Hj as [Hj _].
  apply dst_lookup in Hj as (d2 & ? & Hdst). simplify_eq. unfold is_dst in Hdst. by rewrite Hsrc in Hdst.
Qed.

(** A chunk in which no context line stands at one position among the source
    lines and at another among the destination lines. *)
Definition aligned (c : PatchChunk) : Prop :=
  ∀ i j k, src c !! i = Some k → dst c !! j = Some k → i = j.

(** The lines after [i] rounds over an aligned chunk. *)
Definition aligned_inv (c : PatchChunk) (i : nat) (ls : list PatchChunkLine) : Prop :=
  rounds_inv c i ls ∧
  ∀ j ks kd s d, (j < i)%nat → src c !! j = Some ks → dst c !! j = Some kd →
    chunk_lines c !! ks = Some s → chunk_lines c !! kd = Some d → ls !! kd = Some (fix_line s d).

Lemma aligned_inv_step c i ls s ks kd d :
  aligned c → aligned_inv c i ls → src c !! i = Some ks → ls !! ks = Some s →
  dst c !! i = Some kd → chunk_lines c !! kd = Some d →
  rounds_inv c (S i) (<[kd := fix_line s d]> ls) → aligned_inv c (S i) (<[kd := fix_line s d]> ls).
Proof.
  intros Hal [[Hlen HI] Hdone] Hks Hs Hkd Hd HS. split; [done|].
  pose proof (refs_from_NoDup is_dst 0 (chunk_lines c)) as Hnd.
  intros j ks' kd' s' d' Hj Hks' Hkd' Hs' Hd'. destruct (decide (j = i)) as [->|Hji].
  - simplify_eq. destruct (HI _ _ Hs') as (s2 & Hs2 & _ & Hsame).
    rewrite Hsame in Hs2; [|intros [m Hm]%list_elem_of_lookup].
    + simplify_eq. apply list_lookup_insert_eq. rewrite Hlen. by eapply lookup_lt_Some.
    + apply lookup_take_Some in Hm as [Hm ?]. pose proof (Hal _ _ _ Hks Hm). lia.
  - rewrite list_lookup_insert_ne; [apply (Hdone j ks'); auto; lia|].
    intros ->. by pose proof (NoDup_lookup _ _ _ _ Hnd Hkd Hkd').
Qed.

Lemma whitespace_chunk_aligned c i ks kd s d :
  aligned c → src c !! i = Some ks → dst c !! i = Some kd →
  chunk_lines c !! ks = Some s → chunk_lines c !! kd = Some d →
  chunk_lines (whitespace_chunk c).1 !! kd = Some (fix_line s d).
Proof.
  intros Hal Hks Hkd Hs Hd. unfold whitespace_chunk.
  destruct (rounds_ok c (aligned_inv c)) with (n := length (src c))
    (i := 0%nat) (ls := chunk_lines c) as (ls' & -> & _ & HI); [by intros ? ? []| |done|lia| |].
  - intros. by eapply aligned_inv_step.
  - split; [|lia]. split; [done|]. intros k e He. exists e. split_and!; [done|split; [done|by left]|done].
  - cbn [fst chunk_lines]. apply (HI i ks); [|done..].
    apply lookup_lt_Some in Hks, Hkd. lia.
Qed.

(** The chunks and patches up to the first incomplete chunk. *)
Lemma whitespace_chunk_ok c : (whitespace_chunk c).2 = bool_decide (chunk_complete c).
Proof. by destruct (whitespace_chunk_shape c) as (c' & -> & _). Qed.

Lemma whitespace_chunks_complete cs :
  Forall chunk_complete cs → whitespace_chunks cs = ((λ c, (whitespace_chunk c).1) <$> cs, true).
Proof.
  induction 1 as [|c cs Hc Hcs IH]; [done|]. cbn. pose proof (whitespace_chunk_ok c) as Hok.
  rewrite (bool_decide_true _ Hc) in Hok. destruct (whitespace_chunk c). cbn in *. by rewrite Hok, IH.
Qed.

Lemma whitespace_chunks_stop pre c post :
  Forall chunk_complete pre → ¬ chunk_complete c →
  whitespace_chunks (pre ++ c :: post)
  = (((λ c, (whitespace_chunk c).1) <$> pre ++ [c]) ++ post, false).
Proof.
  intros Hpre Hc. induction Hpre as [|c' pre Hc' Hpre IH]; cbn.
  - pose proof (whitespace_chunk_ok c) as Hok. rewrite (bool_decide_false _ Hc) in Hok.
    destruct (whitespace_chunk c). cbn in *. by rewrite Hok.
  - pose proof (whitespace_chunk_ok c') as Hok. rewrite (bool_decide_true _ Hc') in Hok.
    destruct (whitespace_chunk c'). cbn in *. by rewrite Hok, IH.
Qed.

Lemma whitespace_chunks_shape cs : Forall2 chunk_grown cs (whitespace_chunks cs).1.
Proof.
  induction cs as [|c cs IH]; cbn; [constructor|].
  destruct (whitespace_chunk_shape c) as (c' & -> & Hg). case_bool_decide; cbn.
  - destruct (whitespace_chunks cs) as [cs' ok]. cbn in *. by constructor.
  - constructor; [done|]. clear. induction cs; constructor; [|done]. split_and!; [done..|].
    intros k d Hd. exists d. split_and!; [done|split; [done|by left]|done].
Qed.

(** ** The driver *)

Section driver_facts.
Context (tmp_path : nat → pystr) `{!Inj (=) (=) tmp_path}.
Context (run : pystr → pystr → option pystr).
Context (unified_diff : list pystr → list pystr → pystr → pystr → list pystr).
Context (patch : pystr → pystr → pystr).
Context (same_signature : pystr → pystr → bool).

Local Abbreviation indent := (indent tmp_path (Some run) unified_diff (Some patch)).

(** The diff that [indent] hands to [patch]. *)
Definition first_patch_text (ps : list Patch) : res exn pystr :=
  match ps with [] => Ok [] | p :: _ => (λ ws, concat ws) <$> write_patch p end.
Definition final_text (debug : bool) (level : Z) (diff : list pystr) : res exn pystr :=
  let diff := if debug then [] else diff in
  if level <? 3 then remove_trailing_whitespace_changes diff ≫= first_patch_text
  else Ok (concat diff).

(** The text [uncrustify] leaves in its output file, empty when it fails. *)
Definition formatted (level : Z) (text : pystr) : pystr :=
  default [] (run (uncrustify_config level) text).

Lemma write_final_diff_ok level path diff ft w :
  final_text false level diff = Ok ft →
  ∃ w', write_final_diff level path diff w = (Ok tt, w') ∧ temps w' = temps w ∧ stdout w' = stdout w ∧
    (files w !! path = Some [] → files w' = <[path := ft]> (files w)).
Proof.
  unfold final_text, write_final_diff. cbv beta zeta. destruct (level <? 3).
  - destruct (remove_trailing_whitespace_changes diff) as [[|p ps]|] eqn:Hr; cbn; [| |done].
    + intros [= <-]. exists w. split_and!; [done..|].
      intros Hp. symmetry. by apply insert_id.
    + destruct (write_patch p) as [ws|] eqn:Hw; [|done]. cbn. intros [= <-].
      eexists. erewrite st_bind_step by reflexivity. cbv beta iota.
      erewrite st_bind_step by by rewrite Hw.
      split_and!; [reflexivity|done..].
  - intros [= <-]. eexists. split_and!; [reflexivity|done..].
Qed.

Lemma read_file_ok path text w : files w !! path = Some text → read_file path w = (Ok text, w).
Proof. intros Hp. unfold read_file. erewrite st_bind_step by done. unfold st_lift. by rewrite Hp. Qed.

Lemma run_uncrustify_ok cfg source output text cfg_text w :
  files w !! cfg = Some cfg_text → files w !! source = Some text → files w !! output = Some [] →
  ∃ w', run_uncrustify (Some run) cfg source output w = (Ok tt, w') ∧ temps w' = temps w ∧
    stdout w' = stdout w ∧ files w' = <[output := default [] (run cfg_text text)]> (files w).
Proof.
  intros Hc Hs Ho. unfold run_uncrustify. erewrite st_bind_step by by apply read_file_ok.
  erewrite st_bind_step by done. rewrite Hs. cbn.
  destruct (run cfg_text text); cbn; eexists; (split_and!; [reflexivity|done|done|]); [done|cbn; by rewrite insert_id].
Qed.

Lemma mkstemp_ok w :
  mkstemp tmp_path w =
    (Ok (tmp_path (temps w)), MkWorld (<[tmp_path (temps w) := []]> (files w)) (S (temps w)) (stdout w)).
Proof. done. Qed.

Lemma uncrustify_config_file_ok level w :
  ∃ w', uncrustify_config_file tmp_path level w = (Ok (tmp_path (temps w)), w') ∧
    temps w' = S (temps w) ∧ stdout w' = stdout w ∧
    files w' = <[tmp_path (temps w) := uncrustify_config level]> (files w).
Proof.
  eexists. unfold uncrustify_config_file. erewrite st_bind_step by apply mkstemp_ok.
  erewrite st_bind_step by reflexivity. split_and!; [reflexivity..|]. cbn. apply insert_insert_eq.
Qed.

(** Writing the debugging copy leaves nothing of the diff. *)
Lemma debug_diff_ok debug diff w :
  ∃ w', debug_diff tmp_path debug diff w = (Ok (if debug then [] else diff), w') ∧
    stdout w' = stdout w ∧ (temps w ≤ temps w')%nat ∧
    ∀ path, (∀ n, (temps w ≤ n)%nat → path ≠ tmp_path n) → files w' !! path = files w !! path.
Proof.
  unfold debug_diff. destruct debug; [|by exists w].
  eexists. erewrite st_bind_step by apply mkstemp_ok. erewrite st_bind_step by reflexivity.
  split_and!; [reflexivity|done|cbn; lia|]. intros path Hp. cbn.
  rewrite !lookup_insert_ne; [done|symmetry; by apply Hp..].
Qed.

Definition temp_from (n : nat) (path : pystr) : Prop := ∃ m, (n ≤ m)%nat ∧ path = tmp_path m.

(** Files other than the temporary ones made from [w] on. *)
Definition untouched (w : world) (path : pystr) : Prop := ∀ n, (temps w ≤ n)%nat → path ≠ tmp_path n.

(** The first part of [indent], up to the second [readlines]. *)
Lemma indent_format_ok source level w text (k : pystr → pystr → pystr → stm world pystr) :
  files w !! source = Some text → untouched w source →
  let output := tmp_path (temps w) in
  ∃ w', (output ← mkstemp tmp_path;
         cfg ← uncrustify_config_file tmp_path level;
         _ ← run_uncrustify (Some run) cfg source output;
         src ← read_file source;
         dst ← read_file output;
         k output src dst) w = k output text (formatted level text) w' ∧
    stdout w' = stdout w ∧ (S (temps w) ≤ temps w')%nat ∧ is_Some (files w' !! output) ∧
    ∀ path, untouched w path → files w' !! path = files w !! path.
Proof.
  intros Hs Hfresh output. erewrite st_bind_step by apply mkstemp_ok. fold output.
  edestruct uncrustify_config_file_ok as (w1 & Hw1 & Ht1 & Ho1 & Hf1).
  erewrite st_bind_step by exact Hw1. cbn [temps files stdout] in Ht1, Ho1, Hf1.
  assert (output ≠ tmp_path (S (temps w))) as Hoc by (intros E%Inj0; lia).
  assert (source ≠ output ∧ source ≠ tmp_path (S (temps w))) as [Hso Hsc] by (split; apply Hfresh; lia).
  edestruct (run_uncrustify_ok (tmp_path (S (temps w))) source output text) as (w2 & Hw2 & Ht2 & Ho2 & Hf2).
  1-3: rewrite Hf1; by rewrite ?lookup_insert_eq, ?lookup_insert_ne, ?lookup_insert_eq by done.
  erewrite st_bind_step by exact Hw2. fold (formatted level text) in Hf2.
  erewrite st_bind_step.
  2:{ apply read_file_ok. rewrite Hf2, Hf1. by rewrite !lookup_insert_ne by done. }
  erewrite st_bind_step by (apply read_file_ok; by rewrite Hf2, lookup_insert_eq).
  exists w2. split_and!; [done|congruence|cbn in *; lia|rewrite Hf2, lookup_insert_eq; eauto|].
  intros path Hp. rewrite Hf2, Hf1. rewrite !lookup_insert_ne; [done|..]; symmetry; apply Hp; lia.
Qed.

Lemma indent_ok source debug level w text ft :
  files w !! source = Some text → untouched w source →
  final_text debug level (unified_diff (readlines text) (readlines (formatted level text))
                                       source (tmp_path (temps w))) = Ok ft →
  ∃ w', indent source debug level w = (Ok (tmp_path (temps w)), w') ∧ stdout w' = stdout w ∧
    files w' !! tmp_path (temps w) = Some (patch ft text) ∧
    ∀ path, untouched w path → files w' !! path = files w !! path.
Proof.
  intros Hs Hfresh Hft. unfold indent.
  destruct (indent_format_ok source level w text (λ output src dst,
    diff ← debug_diff tmp_path debug (unified_diff (readlines src) (readlines dst) source output);
    final_diff ← mkstemp tmp_path;
    _ ← write_final_diff level final_diff diff;
    _ ← copyfile source output;
    diff_text ← read_file final_diff;
    text ← read_file output;
    _ ← set_file output (patch diff_text text); mret output)) as (w2 & -> & Ho2 & Ht2 & _ & Hf2); [done..|].
  set (output := tmp_path (temps w)) in *.
  edestruct debug_diff_ok as (w3 & Hw3 & Ho3 & Ht3 & Hf3). erewrite st_bind_step by exact Hw3.
  erewrite st_bind_step by apply mkstemp_ok. set (final := tmp_path (temps w3)).
  edestruct write_final_diff_ok as (w4 & Hw4 & _ & Ho4 & Hf4); [exact Hft|].
  erewrite st_bind_step by exact Hw4. cbn [files stdout temps] in *.
  specialize (Hf4 (lookup_insert_eq _ _ _)). rewrite insert_insert_eq in Hf4.
  assert (output ≠ final ∧ source ≠ output ∧ source ≠ final) as (Hof & Hso & Hsf).
  { split_and!; [intros E%Inj0; lia|apply Hfresh; lia..]. }
  assert (∀ path, untouched w path → files w4 !! path = files w !! path) as Hold.
  { intros path Hp. rewrite Hf4, lookup_insert_ne by (symmetry; apply Hp; lia).
    rewrite Hf3, Hf2; [done|done|]. intros n Hn. apply Hp. lia. }
  eexists. unfold copyfile. erewrite st_bind_step.
  2:{ erewrite st_bind_step by (apply read_file_ok; by rewrite Hold). reflexivity. }
  erewrite st_bind_step.
  2:{ apply read_file_ok. cbn. rewrite lookup_insert_ne by done. by rewrite Hf4, lookup_insert_eq. }
  erewrite st_bind_step by (apply read_file_ok; apply lookup_insert_eq).
  erewrite st_bind_step by reflexivity.
  split_and!; [reflexivity|cbn; congruence|apply lookup_insert_eq|].
  intros path Hp. cbn. rewrite !lookup_insert_ne by (symmetry; apply Hp; lia). by apply Hold.
Qed.

Lemma print_loop_ok (lines : list pystr) w :
  ∃ w', st_for print lines w = (Ok tt, w') ∧ files w' = files w ∧ stdout w' = stdout w ++ lines.
Proof.
  revert w. induction lines as [|l lines IH]; intros w; [exists w; by rewrite app_nil_r|].
  cbn [st_for]. erewrite st_bind_step by reflexivity.
  destruct (IH (MkWorld (files w) (temps w) (stdout w ++ [l]))) as (w' & Hw' & Hf & Ho).
  exists w'. split_and!; [done..|]. cbn in Ho. by rewrite <-app_assoc in Ho.
Qed.

(** The report on one badly indented file only prints. *)
Lemma report_ok diff source output text text' w :
  files w !! source = Some text → files w !! output = Some text' →
  ∃ w', (if diff : bool then st_for (print_diff unified_diff) [(source, output)]
         else
           _ ← print (str "Found " ++ str_of_Z (Z.of_nat (length [(source, output)]))
                        ++ str " badly indented files:" ++ [newline]);
           st_for (λ '(src, _), print (str "  " ++ src ++ [newline])) [(source, output)]) w
        = (Ok tt, w') ∧ files w' = files w.
Proof.
  intros Hs Ho. destruct diff.
  - destruct (print_loop_ok (unified_diff (readlines text) (readlines text') source output) w)
      as (w' & Hw' & Hf & _). exists w'. split; [|done]. cbn [st_for].
    erewrite st_bind_step; [reflexivity|]. unfold print_diff.
    erewrite st_bind_step by by apply read_file_ok. erewrite st_bind_step by by apply read_file_ok.
    exact Hw'.
  - eexists. split; [reflexivity|done].
Qed.

(** [indent_files] on one file. *)
Lemma indent_files_one source diff debug level w text ft :
  files w !! source = Some text → untouched w source →
  final_text debug level (unified_diff (readlines text) (readlines (formatted level text))
                                       source (tmp_path (temps w))) = Ok ft →
  ∃ w', indent_files tmp_path (Some run) unified_diff (Some patch) same_signature
          [source] diff debug level false w
        = (Ok (same_signature source (tmp_path (temps w)) || bool_decide (text = patch ft text)), w') ∧
    ∀ path, untouched w path → files w' !! path = files w !! path.
Proof.
  intros Hs Hfresh Hft.
  destruct (indent_ok source debug level w text ft Hs Hfresh Hft) as (w1 & Hw1 & _ & Hout & Hold).
  assert (files w1 !! source = Some text) as Hs1 by (by rewrite Hold).
  unfold indent_files. erewrite st_bind_step.
  2:{ unfold st_map. erewrite st_bind_step by (erewrite st_bind_step by exact Hw1; reflexivity).
      reflexivity. }
  erewrite st_bind_step.
  2:{ cbn [select_failed]. erewrite st_bind_step.
      2:{ unfold filecmp_cmp. erewrite st_bind_step by by apply read_file_ok.
          erewrite st_bind_step by by apply read_file_ok. reflexivity. }
      reflexivity. }
  destruct (same_signature _ _ || _); [by exists w1|]. cbn [app].
  destruct (report_ok diff source (tmp_path (temps w)) text (patch ft text) w1) as (w2 & Hw2 & Hf2); [done..|].
  exists w2. erewrite st_bind_step by exact Hw2. split; [done|]. intros path Hp. rewrite Hf2. by apply Hold.
Qed.
End driver_facts.

(** ** Properties *)

(** C33: what [Patch.write] prints, [parse_patchset] reads back as the same
    patches (names, positions, lines and their types), provided no removed
    line starts with [-- ] and no added line with [++ ]. *)
Theorem parse_write_roundtrip (ps : list Patch) :
  Forall patch_ok ps →
  ∃ ws, fold_res (append_writes write_patch) [] ps = Ok ws ∧ parse_patchset ws = Ok ps.
Proof.
  intros Hps. exists (mjoin (patch_strs <$> ps)). split.
  - rewrite (append_writes_ok _ patch_strs); [done|].
    eapply Forall_impl; [exact Hps|]. apply write_patch_ok.
  - unfold parse_patchset. by destruct (parse_patches [] ps None Hps) as [k ->].
Qed.

(** In an aligned chunk the pass restores exactly the destination lines
    that differ from the source line at the same position by one missing blank
    at the end, and leaves every other destination line as it is. *)
Theorem whitespace_aligned_correct c i ks kd s d :
  aligned c → src c !! i = Some ks → dst c !! i = Some kd →
  chunk_lines c !! ks = Some s → chunk_lines c !! kd = Some d → newline ∉ line_text s →
  ∃ d', chunk_lines (whitespace_chunk c).1 !! kd = Some d' ∧ line_type d' = line_type d ∧
    ((∃ b, is_blank b = true ∧ line_text s = line_text d ++ [b] ∧ line_text d' = line_text s) ∨
     ((∀ b, is_blank b = true → line_text s ≠ line_text d ++ [b]) ∧ line_text d' = line_text d)).
Proof.
  intros Hal Hks Hkd Hs Hd Hnl. exists (fix_line s d). split; [|split; [done|]].
  - by apply (whitespace_chunk_aligned c i ks).
  - by apply fix_text_spec.
Qed.

(** The pass keeps the names, positions, number and types of the lines and
    the removed lines, adds at most one blank to any other line, and stops for
    good after the first chunk with fewer destination than source lines. *)
Theorem whitespace_pass_scope (ps : list Patch) :
  Forall2 (λ p p', patch_src p' = patch_src p ∧ patch_dst p' = patch_dst p ∧
                   Forall2 chunk_grown (chunks p) (chunks p')) ps (whitespace_patches ps) ∧
  ∀ done p pre c post rest, ps = done ++ p :: rest → chunks p = pre ++ c :: post →
    Forall (λ q, Forall chunk_complete (chunks q)) done → Forall chunk_complete pre →
    ¬ chunk_complete c →
    whitespace_patches ps =
      ((λ q, set_chunks ((λ c, (whitespace_chunk c).1) <$> chunks q) q) <$> done)
      ++ set_chunks (((λ c, (whitespace_chunk c).1) <$> pre ++ [c]) ++ post) p :: rest.
Proof.
  split.
  - induction ps as [|p ps IH]; cbn; [constructor|].
    pose proof (whitespace_chunks_shape (chunks p)) as Hp.
    destruct (whitespace_chunks (chunks p)) as [cs ok]. cbn in Hp.
    constructor; [done|]. destruct ok; [done|]. clear. induction ps as [|p ps IH]; constructor; [|done].
    split_and!; [done..|]. apply Forall_Forall2_diag, Forall_true. intros c. split_and!; [done..|].
    intros k d Hd. exists d. split_and!; [done|split; [done|by left]|done].
  - intros done p pre c post rest -> Hp Hdone Hpre Hc.
    induction Hdone as [|q done Hq Hdone IH]; cbn.
    + by rewrite Hp, whitespace_chunks_stop.
    + by rewrite whitespace_chunks_complete, IH.
Qed.

Section driver_properties.
Context (tmp_path : nat → pystr) `{!Inj (=) (=) tmp_path}.
Context (run : pystr → pystr → option pystr).
Context (unified_diff : list pystr → list pystr → pystr → pystr → list pystr).
Context (patch : pystr → pystr → pystr).
Context (same_signature : pystr → pystr → bool).

(** Checking one file without debugging succeeds exactly when patching it
    with the cleaned diff to its formatted text gives the file back (or the
    stat signatures agree), and leaves every file that is not temporary alone. *)
Theorem indent_files_check source diff level w text ft :
  files w !! source = Some text → untouched tmp_path w source →
  final_text false level (unified_diff (readlines text) (readlines (formatted run level text))
                                       source (tmp_path (temps w))) = Ok ft →
  ∃ w', indent_files tmp_path (Some run) unified_diff (Some patch) same_signature
          [source] diff false level false w
        = (Ok (same_signature source (tmp_path (temps w)) || bool_decide (text = patch ft text)), w') ∧
    ∀ path, untouched tmp_path w path → files w' !! path = files w !! path.
Proof. intros Hs Hfresh Hft. by apply indent_files_one. Qed.

(** With debugging on, any file passes the check whatever [uncrustify]
    makes of it: writing the diff out for debugging uses the generator up, and
    the empty diff that is left changes nothing. *)
Theorem debug_hides_bad_indentation source diff level w text :
  (∀ t, patch [] t = t) →
  files w !! source = Some text → untouched tmp_path w source →
  ∃ w', indent_files tmp_path (Some run) unified_diff (Some patch) same_signature
          [source] diff true level false w = (Ok true, w').
Proof.
  intros Hpatch Hs Hfresh.
  destruct (indent_files_one tmp_path run unified_diff patch same_signature
              source diff true level w text []) as (w' & Hw' & _); [done|done| |].
  - unfold final_text. by destruct (level <? 3).
  - exists w'. rewrite Hw', Hpatch. by rewrite (bool_decide_true (text = text)), orb_true_r.
Qed.
End driver_properties.

(** ** Witnesses and examples *)

Definition sample_patch : Patch :=
  MkPatch (str "a.cc") (str "b.cc")
    [MkChunk [MkLine BOTH (str "int x;"); MkLine SRC (str "f (); "); MkLine DST (str "f ();")] 12 12].

Lemma parse_write_roundtrip_witness :
  ∃ ws, fold_res (append_writes write_patch) [] [sample_patch] = Ok ws ∧
        parse_patchset ws = Ok [sample_patch].
Proof.
  apply (parse_write_roundtrip [sample_patch]).
  apply Forall_singleton. split_and!; [apply newline_free; reflexivity..|].
  apply Forall_singleton. split_and!; [discriminate..|].
  repeat (apply Forall_cons; split); [split; [apply newline_free; reflexivity|]..|].
  4:apply Forall_nil.
  - right. right. reflexivity.
  - left. split; reflexivity.
  - right. left. split; reflexivity.
  - exact I.
Defined.

Lemma whitespace_aligned_correct_witness :
  let c := MkChunk [MkLine BOTH (str "int x;"); MkLine SRC (str "f (); "); MkLine DST (str "f ();")] 12 12 in
  ∃ d', chunk_lines (whitespace_chunk c).1 !! 2%nat = Some d' ∧ line_type d' = DST ∧
    ((∃ b, is_blank b = true ∧ str "f (); " = str "f ();" ++ [b] ∧ line_text d' = str "f (); ") ∨
     ((∀ b, is_blank b = true → str "f (); " ≠ str "f ();" ++ [b]) ∧ line_text d' = str "f ();")).
Proof.
  intros c. apply (whitespace_aligned_correct c 1 1 2 (MkLine SRC (str "f (); ")) (MkLine DST (str "f ();")));
    try reflexivity; [|apply newline_free; reflexivity].
  intros [|[|[|]]] [|[|[|]]] k; vm_compute; congruence.
Defined.

Lemma whitespace_pass_scope_witness :
  let c := MkChunk [MkLine SRC (str "f (); ")] 12 12 in
  let p := MkPatch (str "a.cc") (str "b.cc") [c; MkChunk [MkLine SRC (str "x "); MkLine DST (str "x")] 20 19] in
  whitespace_patches [p] = [p].
Proof.
  intros c p.
  rewrite (proj2 (whitespace_pass_scope [p]) [] p [] c
             [MkChunk [MkLine SRC (str "x "); MkLine DST (str "x")] 20 19] []).
  - reflexivity.
  - reflexivity.
  - reflexivity.
  - constructor.
  - constructor.
  - vm_compute. lia.
Defined.

Definition sample_tmp (n : nat) : pystr := str "/tmp/" ++ repeat "x"%char n.
#[export] Instance sample_tmp_inj : Inj (=) (=) sample_tmp.
Proof.
  intros n m Heq. apply (f_equal length) in Heq. unfold sample_tmp in Heq.
  rewrite !length_app, !repeat_length in Heq. lia.
Qed.
Definition sample_world : world := MkWorld {[str "a.cc" := str "f ();"]} 0 [].

Lemma indent_files_check_witness :
  ∃ w', indent_files sample_tmp (Some (λ _ t, Some t)) (λ _ _ _ _, []) (Some (λ _ t, t)) (λ _ _, false)
          [str "a.cc"] false false 0 false sample_world
        = (Ok (false || bool_decide (str "f ();" = str "f ();")), w') ∧
    ∀ path, untouched sample_tmp sample_world path → files w' !! path = files sample_world !! path.
Proof.
  apply (indent_files_check sample_tmp (λ _ t, Some t) (λ _ _ _ _, []) (λ _ t, t) (λ _ _, false)
           (str "a.cc") false 0 sample_world (str "f ();") []).
  - reflexivity.
  - intros n _. discriminate.
  - reflexivity.
Defined.

Lemma debug_hides_bad_indentation_witness :
  ∃ w', indent_files sample_tmp (Some (λ _ t, Some (str "  " ++ t)))
          (λ s d _ _, if decide (s = d) then [] else [str "--- a"; str "+++ b"])
          (Some (λ diff t, if decide (diff = []) then t else str "  " ++ t)) (λ _ _, false)
          [str "a.cc"] false true 0 false sample_world = (Ok true, w').
Proof.
  apply (debug_hides_bad_indentation sample_tmp _ _
           (λ diff t, if decide (diff = []) then t else str "  " ++ t) (λ _ _, false)
           (str "a.cc") false 0 sample_world (str "f ();")).
  - intros t. reflexivity.
  - reflexivity.
  - intros n _. discriminate.
Defined.

(** Two blanks are not restored: the greedy first group takes the first one. *)
Example whitespace_two_blanks :
  let c := MkChunk [MkLine SRC (str "f ();  "); MkLine DST (str "f ();")] 1 1 in
  whitespace_chunk c = (c, true).
Proof. vm_compute. reflexivity. Qed.

(** A context line can be changed, which changes the source side of the diff. *)
Example whitespace_changes_context :
  whitespace_chunk (MkChunk [MkLine SRC (str "a"); MkLine BOTH (str "x "); MkLine BOTH (str "x")] 1 1)
  = (MkChunk [MkLine SRC (str "a"); MkLine BOTH (str "x "); MkLine BOTH (str "x ")] 1 1, false).
Proof. vm_compute. reflexivity. Qed.

(** [difflib] leaves the length out of a chunk head when it is 1, which the
    parser rejects; and a removed line that starts with [-- ] is taken for the
    head of a file. *)
Example parse_rejects_single_line_chunk :
  parse_patchset [str "--- a"; str "+++ b"; str "@@ -1 +1 @@"] = Raise GenericException.
Proof. vm_compute. reflexivity. Qed.
Example parse_decrement_as_header :
  parse_patchset [str "--- a"; str "+++ b"; str "@@ -1,2 +1,1 @@"; str "--- i;"; str " x"]
  = Ok [MkPatch (str "a") (str "b") [MkChunk [MkLine BOTH (str "x")] 1 1]; MkPatch (str "i;") [] []].
Proof. vm_compute. reflexivity. Qed.
