(* ===== verification/PyOptparse.v ===== *)
(** * Option parsers

    [optparse] of the Python library as the scripts use it: a table of options with
    their strings and actions, and [parse_args] over the arguments of the command
    line.  The values are of any type: an action is a function on them.  An error
    message ends the script with status 2, the help text with status 0. *)
From Stdlib Require Import Ascii.
From S2P Require Export PyStr.
Open Scope Z_scope.

(** ** Values of type [int] *)

(** Digits with single underscores between them. *)
Fixpoint strip_underscores (b : Z) (digit : bool) (s : pystr) : option pystr :=
  match s with
  | [] => if digit then Some [] else None
  | c :: s =>
      if decide (c = "_"%char) then (if digit then strip_underscores b false s else None)
      else if is_digit_in b c then (c ::.) <$> strip_underscores b true s else None
  end.
(** The characters of a prefix [0x], [0o] or [0b] in base 16, 8 or 2. *)
Definition radix_chars (b : Z) : pystr :=
  if b =? 16 then str "xX" else if b =? 8 then str "oO" else if b =? 2 then str "bB" else [].
Definition unsigned (b : Z) (s : pystr) : option Z :=
  let body :=
    match s with
    | z :: c :: s' =>
        if bool_decide (z = "0"%char) && bool_decide (c ∈ radix_chars b) then
          match s' with u :: s'' => if decide (u = "_"%char) then s'' else s' | [] => s' end
        else s
    | _ => s
    end in
  digits_val b <$> strip_underscores b false body.
(** [int(s, b)] with all that it accepts. *)
Definition int_radix (b : Z) (s : pystr) : option Z :=
  match strip s with
  | c :: t =>
      if decide (c = "-"%char) then Z.opp <$> unsigned b t
      else if decide (c = "+"%char) then unsigned b t else unsigned b (c :: t)
  | [] => None
  end.
(** [_parse_num]. *)
Definition parse_num (s : pystr) : option Z :=
  match s with
  | z :: c :: s' =>
      if decide (z = "0"%char) then
        if decide (c ∈ str "xX") then int_radix 16 s
        else if decide (c ∈ str "bB") then int_radix 2 (if decide (s' = []) then str "0" else s')
        else int_radix 8 s
      else int_radix 10 s
  | _ => int_radix (if startswith (str "0") s then 8 else 10) s
  end.

Example parse_nums :
  parse_num <$> [str "10"; str "010"; str "0x1f"; str "-7"; str "1_000"; str "08"; str "0b"; str " 5"; str ""; str "x"]
    = [Some 10; Some 8; Some 31; Some (-7); Some 1000; None; Some 0; Some 5; None; None].
Proof. reflexivity. Qed.

(** ** Options *)

Section parser.
Context {V : Type}.

(** [store_true] and the like; [store], where a string that is no value of the type
    of the option is refused; [help]. *)
Inductive action : Type :=
  | Flag (f : V → V)
  | Store (set : pystr → option (V → V))
  | ShowHelp.
Record opt : Type := Opt { opt_strings : list pystr; opt_action : action }.
(** Every parser begins with the option of the help text. *)
Definition help_option : opt := Opt [str "-h"; str "--help"] ShowHelp.

Definition store_string (f : pystr → V → V) : action := Store (λ s, Some (f s)).
Definition store_int (f : Z → V → V) : action := Store (λ s, f <$> parse_num s).
Definition store_choice (choices : list pystr) (f : pystr → V → V) : action :=
  Store (λ s, if decide (s ∈ choices) then Some (f s) else None).

Section table.
Context (table : list opt).

Definition error {A} : res exn A := Raise (SystemExit 2).
Definition option_of (s : pystr) : option opt := head (base.filter (λ o, s ∈ opt_strings o) table).
Definition is_long (s : pystr) : bool := startswith (str "--") s.
Definition words : list pystr := base.filter (λ s, is_long s = true) (concat (opt_strings <$> table)).
(** An exact match, or the only word that it abbreviates. *)
Definition match_abbrev (s : pystr) : option pystr :=
  if decide (s ∈ words) then Some s
  else match base.filter (λ w, startswith s w = true) words with
       | [w] => Some w
       | _ => None
       end.

Definition store (set : pystr → option (V → V)) (s : pystr) (v : V) : res exn V :=
  match set s with Some f => Ok (f v) | None => error end.

(** [_process_long_opt]: the values, and whether the next argument was used. *)
Definition process_long (arg : pystr) (next : option pystr) (v : V) : res exn (V * bool) :=
  let '(name, value) :=
    match split_once "=" arg with Some (n, x) => (n, Some x) | None => (arg, None) end in
  match match_abbrev name ≫= option_of with
  | None => error
  | Some o =>
      match opt_action o, value, next with
      | Store set, Some x, _ => v ← store set x v; mret (v, false)
      | Store set, None, Some x => v ← store set x v; mret (v, true)
      | Store _, None, None => error
      | _, Some _, _ => error
      | Flag f, None, _ => Ok (f v, false)
      | ShowHelp, None, _ => Raise (SystemExit 0)
      end
  end.
(** [_process_short_opts]: the rest of the argument is the value of the first option
    that takes one. *)
Fixpoint process_short (cs : pystr) (next : option pystr) (v : V) : res exn (V * bool) :=
  match cs with
  | [] => Ok (v, false)
  | c :: cs =>
      match opt_action <$> option_of ["-"%char; c] with
      | None => error
      | Some (Flag f) => process_short cs next (f v)
      | Some ShowHelp => Raise (SystemExit 0)
      | Some (Store set) =>
          match cs, next with
          | _ :: _, _ => v ← store set cs v; mret (v, false)
          | [], Some x => v ← store set x v; mret (v, true)
          | [], None => error
          end
      end
  end.
Definition process_option (arg : pystr) : option pystr → V → res exn (V * bool) :=
  if is_long arg then process_long arg else process_short (tail arg).
(** An argument that begins with a dash and is more than a dash. *)
Definition is_option (arg : pystr) : bool :=
  match arg with c :: _ :: _ => bool_decide (c = "-"%char) | _ => false end.

(** [_process_args]: the values, and the arguments that are not options. *)
Fixpoint process_args (args : list pystr) (v : V) : res exn (V * list pystr) :=
  match args with
  | [] => Ok (v, [])
  | arg :: rest =>
      if decide (arg = str "--") then Ok (v, rest)
      else if is_option arg then
        match process_option arg (head rest) v, rest with
        | Ok (v, false), _ => process_args rest v
        | Ok (v, true), _ :: rest' => process_args rest' v
        | Ok (v, true), [] => Ok (v, [])
        | Raise e, _ => Raise e
        end
      else '(v, args) ← process_args rest v; mret (v, arg :: args)
  end.
End table.
Definition parse_args (options : list opt) (args : list pystr) (v : V) : res exn (V * list pystr) :=
  process_args (help_option :: options) args v.
End parser.
Arguments action : clear implicits.
Arguments opt : clear implicits.

(** ** The language of command lines *)

Section grammar.
Context {V : Type} (table : list (opt V)).

(** An option of the table by one of its strings, or a long string abbreviated. *)
Definition names_short (c : ascii) (a : action V) : Prop := opt_action <$> option_of table ["-"%char; c] = Some a.
Definition names_long (p : pystr) (a : action V) : Prop :=
  "="%char ∉ p ∧ ∃ w, match_abbrev table p = Some w ∧ opt_action <$> option_of table w = Some a.

(** A bundle of flags. *)
Inductive bundle : pystr → (V → V) → Prop :=
  | bundle_nil : bundle [] (λ v, v)
  | bundle_cons c cs f g : names_short c (Flag f) → bundle cs g → bundle (c :: cs) (λ v, g (f v)).

(** The spellings of one argument of options and its value, with their effect. *)
Inductive spelled : list pystr → (V → V) → Prop :=
  | long_flag p f : is_long p = true → p ≠ str "--" → names_long p (Flag f) → spelled [p] f
  | long_joined p x set f : is_long p = true → names_long p (Store set) → set x = Some f → spelled [p ++ "="%char :: x] f
  | long_apart p x set f : is_long p = true → p ≠ str "--" → names_long p (Store set) → set x = Some f → spelled [p; x] f
  | short_flags cs f : cs ≠ [] → bundle cs f → spelled ["-"%char :: cs] f
  | short_joined cs c x g set f : bundle cs g → names_short c (Store set) → x ≠ [] → set x = Some f →
      spelled ["-"%char :: cs ++ c :: x] (λ v, f (g v))
  | short_apart cs c x g set f : bundle cs g → names_short c (Store set) → set x = Some f →
      spelled ["-"%char :: cs ++ [c]; x] (λ v, f (g v)).

(** A command line: its effects in order, and its arguments. *)
Inductive command_line : list pystr → list (V → V) → list pystr → Prop :=
  | line_end : command_line [] [] []
  | line_stop rest : command_line (str "--" :: rest) [] rest
  | line_argument a rest fs ps : is_option a = false → command_line rest fs ps → command_line (a :: rest) fs (a :: ps)
  | line_option ts f rest fs ps : spelled ts f → command_line rest fs ps → command_line (ts ++ rest) (f :: fs) ps.

(** No option is two dashes. *)
Context (no_dashes : option_of table (str "--") = None).

Lemma bundle_first c cs f : bundle (c :: cs) f → c ≠ "-"%char.
Proof. intros H ->. inversion H as [|? ? ? ? Hn]; subst. unfold names_short in Hn. change ["-"%char; "-"%char] with (str "--") in Hn. by rewrite no_dashes in Hn. Qed.
Lemma short_first c a : names_short c a → c ≠ "-"%char.
Proof. intros H ->. unfold names_short in H. change ["-"%char; "-"%char] with (str "--") in H. by rewrite no_dashes in H. Qed.

Lemma is_long_dashes p : is_long p = true ↔ ∃ s, p = "-"%char :: "-"%char :: s.
Proof. unfold is_long. rewrite startswith_spec. cbn. done. Qed.
Lemma is_long_app p s : is_long p = true → is_long (p ++ s) = true.
Proof. rewrite !is_long_dashes. intros [t ->]. by exists (t ++ s). Qed.
Lemma long_option p : is_long p = true → is_option p = true.
Proof. intros [s ->]%is_long_dashes. done. Qed.
Lemma long_equals p x : p ++ "="%char :: x ≠ str "--".
Proof.
  intros E. assert ("="%char ∈ str "--") as H by (rewrite <-E; set_solver).
  revert H. change (str "--") with ["-"%char; "-"%char]. rewrite elem_of_cons, list_elem_of_singleton. by intros [|].
Qed.

Lemma short_argument d s : d ≠ "-"%char →
  is_long ("-"%char :: d :: s) = false ∧ is_option ("-"%char :: d :: s) = true ∧ "-"%char :: d :: s ≠ str "--".
Proof.
  intros Hd. cbn [is_long is_option startswith str String.list_ascii_of_string].
  rewrite bool_decide_true, bool_decide_false by congruence. split_and!; [done|done|]. by intros [=].
Qed.
Lemma bundle_argument cs c x f a : bundle cs f → names_short c a →
  let arg := "-"%char :: cs ++ c :: x in is_long arg = false ∧ is_option arg = true ∧ arg ≠ str "--".
Proof.
  intros Hb Hc. pose proof (short_first c _ Hc). destruct cs as [|d cs]; [|pose proof (bundle_first _ _ _ Hb)]; by apply short_argument.
Qed.

Lemma process_bundle cs f tl next v : bundle cs f →
  process_short table (cs ++ tl) next v = process_short table tl next (f v).
Proof.
  intros H. revert v. induction H as [|c cs f g Hc H IH]; intros v; [done|]. cbn [app process_short].
  unfold names_short in Hc. by rewrite Hc, IH.
Qed.
(** What a spelling does, whatever follows. *)
Lemma process_spelled ts f rest v : spelled ts f →
  process_args table (ts ++ rest) v = process_args table rest (f v).
Proof.
  intros H. destruct H as [p f Hl Hne [He (w & Hw & Ha)]|p x set f Hl [He (w & Hw & Ha)] Hx|p x set f Hl Hne [He (w & Hw & Ha)] Hx
    |cs f Hne Hb|cs c x g set f Hb Hc Hx Hs|cs c x g set f Hb Hc Hs]; cbn [app process_args].
  - rewrite decide_False, (long_option p Hl) by done. unfold process_option. rewrite Hl. unfold process_long.
    rewrite (proj2 (split_once_None _ _) He), Hw. cbn [mbind option_bind].
    destruct (option_of table w) as [o|]; [|done]. cbn in Ha. injection Ha as Ha. by rewrite Ha.
  - rewrite decide_False by apply long_equals. pose proof (is_long_app p ("="%char :: x) Hl) as Hl2.
    rewrite (long_option _ Hl2). unfold process_option. rewrite Hl2. unfold process_long.
    rewrite (proj2 (split_once_spec _ _ p x) (conj eq_refl He)), Hw. cbn [mbind option_bind].
    destruct (option_of table w) as [o|]; [|done]. cbn in Ha. injection Ha as Ha. rewrite Ha.
    unfold store. by rewrite Hx.
  - rewrite decide_False, (long_option p Hl) by done. unfold process_option. rewrite Hl. unfold process_long.
    rewrite (proj2 (split_once_None _ _) He), Hw. cbn [mbind option_bind head].
    destruct (option_of table w) as [o|]; [|done]. cbn in Ha. injection Ha as Ha. rewrite Ha.
    unfold store. by rewrite Hx.
  - destruct cs as [|c cs]; [done|]. destruct (short_argument c cs (bundle_first c cs f Hb)) as (H1 & H2 & H3).
    rewrite decide_False, H2 by done. unfold process_option. rewrite H1. cbn [tail].
    by rewrite <-(app_nil_r (c :: cs)), (process_bundle _ f).
  - destruct (bundle_argument cs c x g _ Hb Hc) as (H1 & H2 & H3).
    rewrite decide_False, H2 by done. unfold process_option. rewrite H1. cbn [tail]. rewrite (process_bundle _ g) by done.
    cbn [process_short]. unfold names_short in Hc. rewrite Hc. destruct x; [done|]. unfold store. by rewrite Hs.
  - destruct (bundle_argument cs c [] g _ Hb Hc) as (H1 & H2 & H3).
    rewrite decide_False, H2 by done. unfold process_option. rewrite H1. cbn [tail head]. rewrite (process_bundle _ g) by done.
    cbn [process_short]. unfold names_short in Hc. rewrite Hc. unfold store. by rewrite Hs.
Qed.
Lemma process_command_line args fs ps v : command_line args fs ps →
  process_args table args v = Ok (fold_left (λ v f, f v) fs v, ps).
Proof.
  intros H. revert v. induction H as [|rest|a rest fs ps Ha H IH|ts f rest fs ps Hs H IH]; intros v; cbn [fold_left].
  - done.
  - cbn [process_args]. by rewrite decide_True.
  - cbn [process_args]. rewrite decide_False, Ha, IH by (intros ->; done). done.
  - rewrite (process_spelled ts f) by done. apply IH.
Qed.

(** The other way: what is processed is spelled. *)
Lemma process_short_inv cs next v v' used : process_short table cs next v = Ok (v', used) →
  (∃ f, bundle cs f ∧ v' = f v ∧ used = false) ∨
  ∃ cs0 c x g set f, bundle cs0 g ∧ names_short c (Store set) ∧ set x = Some f ∧ v' = f (g v) ∧
    ((cs = cs0 ++ c :: x ∧ x ≠ [] ∧ used = false) ∨ (cs = cs0 ++ [c] ∧ next = Some x ∧ used = true)).
Proof.
  revert v. induction cs as [|c cs IH]; intros v; cbn [process_short].
  - intros [= <- <-]. left. eexists. by split; [constructor|].
  - destruct (opt_action <$> option_of table ["-"%char; c]) as [[f|set|]|] eqn:Hc; try done.
    + intros [(g & Hb & -> & ->)|(cs0 & d & x & g & set & h & Hb & Hd & Hx & -> & H)]%IH.
      * left. eexists. by split; [by apply bundle_cons with (f := f)|].
      * right. exists (c :: cs0), d, x, (λ v, g (f v)), set, h.
        split; [by apply bundle_cons|]. split_and!; [done..|]. destruct H as [(-> & ? & ?)|(-> & ? & ?)]; [left|right]; done.
    + intros H. right. destruct cs as [|d cs].
      * destruct next as [x|]; [|done]. unfold store in H. destruct (set x) as [f|] eqn:Hx; [|done].
        injection H as <- <-. exists [], c, x, (λ v, v), set, f. split; [constructor|]. split_and!; try done. by right.
      * unfold store in H. destruct (set (d :: cs)) as [f|] eqn:Hx; [|done].
        injection H as <- <-. exists [], c, (d :: cs), (λ v, v), set, f. split; [constructor|]. split_and!; try done. by left.
Qed.
Lemma process_long_inv arg next v v' used : is_long arg = true → arg ≠ str "--" →
  process_long table arg next v = Ok (v', used) →
  ∃ f, v' = f v ∧ if used : bool then ∃ x, next = Some x ∧ spelled [arg; x] f else spelled [arg] f.
Proof.
  intros Hl Hne. unfold process_long. destruct (split_once "=" arg) as [[p x]|] eqn:E.
  - apply split_once_spec in E as [-> He]. destruct (match_abbrev table p) as [w|] eqn:Hw; [|done].
    cbn [mbind option_bind]. destruct (option_of table w) as [o|] eqn:Ho; [|done].
    destruct (opt_action o) as [f|set|] eqn:Ha; try done. unfold store. destruct (set x) as [f|] eqn:Hx; [|done].
    intros [= <- <-]. exists f. split; [done|]. apply long_joined with (set := set); [|split; [done|]|done].
    + apply is_long_dashes in Hl as [s Hs]. destruct p as [|a [|b p]]; cbn in Hs.
      * done. * simplify_eq. * injection Hs as -> -> _. done.
    + exists w. by rewrite Ho, <-Ha.
  - apply split_once_None in E. destruct (match_abbrev table arg) as [w|] eqn:Hw; [|done].
    cbn [mbind option_bind]. destruct (option_of table w) as [o|] eqn:Ho; [|done].
    destruct (opt_action o) as [f|set|] eqn:Ha; try done.
    + intros [= <- <-]. exists f. split; [done|]. apply long_flag; [done|done|]. split; [done|]. exists w. by rewrite Ho, <-Ha.
    + destruct next as [x|]; [|done]. unfold store. destruct (set x) as [f|] eqn:Hx; [|done].
      intros [= <- <-]. exists f. split; [done|]. exists x. split; [done|].
      apply long_apart with (set := set); [done|done| |done]. split; [done|]. exists w. by rewrite Ho, <-Ha.
Qed.
Lemma process_option_inv arg next v v' used : is_option arg = true → arg ≠ str "--" →
  process_option table arg next v = Ok (v', used) →
  ∃ f, v' = f v ∧ if used : bool then ∃ x, next = Some x ∧ spelled [arg; x] f else spelled [arg] f.
Proof.
  intros Ho Hne. unfold process_option. destruct (is_long arg) eqn:Hl; [by apply process_long_inv|].
  unfold is_option in Ho. destruct arg as [|d [|c cs]]; try done. apply bool_decide_eq_true in Ho as ->. cbn [tail].
  intros [(f & Hb & -> & ->)|(cs0 & k & x & g & set & f & Hb & Hk & Hx & -> & H)]%process_short_inv.
  - exists f. split; [done|]. by apply short_flags.
  - exists (λ v, f (g v)). split; [done|]. destruct H as [(E & ? & ->)|(E & -> & ->)].
    + rewrite E. by apply short_joined with (set := set).
    + exists x. split; [done|]. rewrite E. by apply short_apart with (set := set).
Qed.
Lemma process_args_inv args : ∀ v v' ps, process_args table args v = Ok (v', ps) →
  ∃ fs, command_line args fs ps ∧ v' = fold_left (λ v f, f v) fs v.
Proof.
  induction args as [args IH] using (induction_ltof1 _ (@length pystr)); unfold ltof in IH. intros v v' ps.
  destruct args as [|arg rest]; cbn [process_args]; [intros [= <- <-]; exists []; by split; [constructor|]|].
  case_decide as Hd; [subst arg; intros [= <- <-]; exists []; by split; [constructor|]|].
  destruct (is_option arg) eqn:Ho.
  - destruct (process_option table arg (head rest) v) as [[w used]|e] eqn:Hp; [|by destruct rest].
    apply process_option_inv in Hp as (f & -> & Hs); [|done|done]. destruct used.
    + destruct Hs as (x & Hx & Hs). destruct rest as [|y rest]; [done|]. cbn in Hx. injection Hx as ->.
      intros (fs & Hc & ->)%IH; [|cbn; lia]. exists (f :: fs). split; [|done].
      by apply (line_option [arg; x]).
    + assert (process_args table rest (f v) = Ok (v', ps) → ∃ fs, command_line (arg :: rest) fs ps ∧ v' = fold_left (λ v f, f v) fs v) as H.
      { intros (fs & Hc & ->)%IH; [|cbn; lia]. exists (f :: fs). split; [|done]. by apply (line_option [arg]). }
      by destruct rest.
  - intros ([w qs] & Hp & [= <- <-])%bind_ok_inv. apply IH in Hp as (fs & Hc & ->); [|cbn; lia].
    exists fs. split; [|done]. by constructor.
Qed.

(** [process_args] reads exactly the command lines, and applies their effects in
    order. *)
Theorem process_args_correct args v v' ps :
  process_args table args v = Ok (v', ps) ↔
  ∃ fs, command_line args fs ps ∧ v' = fold_left (λ v f, f v) fs v.
Proof.
  split; [apply process_args_inv|]. intros (fs & Hc & ->). by apply process_command_line.
Qed.

(** What is no command line ends the script: with status 0 for the help text, with
    status 2 for an error. *)
Definition exits (e : exn) : Prop := e = SystemExit 0 ∨ e = SystemExit 2.
Lemma store_exits set x (v : V) e : store set x v = Raise e → exits e.
Proof. unfold store, exits. destruct (set x); [done|]. intros [= <-]. by right. Qed.
Lemma process_short_exits cs next : ∀ v e, process_short table cs next v = Raise e → exits e.
Proof.
  unfold exits. induction cs as [|c cs IH]; intros v e; cbn [process_short]; [done|].
  destruct (opt_action <$> _) as [[f|set|]|]; [apply IH| |intros [= <-]; by left|intros [= <-]; by right].
  destruct cs as [|d cs]; [destruct next as [x|]; [|intros [= <-]; by right]|];
    destruct (store _ _ v) eqn:E; try done; intros [= <-]; by eapply store_exits.
Qed.
Lemma process_long_exits arg next v e : process_long table arg next v = Raise e → exits e.
Proof.
  unfold process_long, exits. destruct (split_once "=" arg) as [[p x]|];
    (destruct (match_abbrev table _ ≫= option_of table) as [o|]; [|intros [= <-]; by right]);
    destruct (opt_action o) as [f|set|]; try (intros [= <-]; by (left + right)); try done.
  - destruct (store set x v) eqn:E; [done|]. intros [= <-]. by eapply store_exits.
  - destruct next as [y|]; [|intros [= <-]; by right]. destruct (store set y v) eqn:E; [done|]. intros [= <-]. by eapply store_exits.
Qed.
Lemma process_args_exits args : ∀ v e, process_args table args v = Raise e → exits e.
Proof.
  induction args as [args IH] using (induction_ltof1 _ (@length pystr)); unfold ltof in IH. intros v e.
  destruct args as [|arg rest]; cbn [process_args]; [done|]. case_decide; [done|].
  destruct (is_option arg).
  - destruct (process_option table arg (head rest) v) as [[w [|]]|e'] eqn:Hp.
    + destruct rest as [|y rest]; [done|]. apply IH. cbn. lia.
    + destruct rest; apply IH; cbn; lia.
    + intros Hr. assert (e' = e) as -> by (destruct rest; by injection Hr). unfold process_option in Hp.
      destruct (is_long arg); [by eapply process_long_exits|by eapply process_short_exits].
  - destruct (process_args table rest v) as [[w qs]|e'] eqn:E; [done|]. intros [= <-]. eapply IH; [|exact E]. cbn. lia.
Qed.
End grammar.

(** ** Printed integers are read back *)

Lemma digits_go_lead fuel : ∀ n acc, 0 < n < 10 ^ Z.of_nat fuel →
  ∃ d t, digits_go 10 fuel n acc = digit_char d :: t ∧ 0 < d < 10.
Proof.
  induction fuel as [|fuel IH]; intros n acc Hn; [cbn in Hn; lia|]. cbn [digits_go].
  destruct (Z.ltb_spec n 10).
  - rewrite Z.mod_small by lia. exists n, acc. split; [done|lia].
  - apply IH. rewrite Nat2Z.inj_succ, Z.pow_succ_r in Hn by lia. pose proof (Z.div_str_pos n 10 ltac:(lia)).
    split; [done|]. apply Z.div_lt_upper_bound; lia.
Qed.
Lemma digits_lead n : 0 < n → ∃ c t, digits 10 n = c :: t ∧ c ≠ "0"%char.
Proof.
  intros Hn. destruct (digits_go_lead (digits_fuel n) n []) as (d & t & E & Hd).
  - split; [done|]. apply digits_fuel_enough; lia.
  - exists (digit_char d), t. split; [exact E|]. intros H. pose proof (digit_of_char d ltac:(lia)) as H2.
    rewrite H in H2. cbv in H2. injection H2. lia.
Qed.
Lemma strip_underscores_digits b s flag :
  s ≠ [] ∨ flag = true → Forall (λ c, is_digit_in b c = true) s → strip_underscores b flag s = Some s.
Proof.
  intros Hne Hs. revert flag Hne. induction Hs as [|c s Hc Hs IH]; intros flag Hne; cbn [strip_underscores].
  - by destruct Hne as [|Hf]; [|rewrite Hf].
  - rewrite decide_False by (intros ->; cbv in Hc; discriminate). rewrite Hc, IH by (by right). done.
Qed.
Lemma unsigned_digits n : 0 <= n → unsigned 10 (digits 10 n) = Some n.
Proof.
  intros Hn. assert (∀ s, unsigned 10 s = digits_val 10 <$> strip_underscores 10 false s) as Hu.
  { intros [|z [|c s]]; try done. unfold unsigned. cbn [radix_chars Z.eqb Pos.eqb]. rewrite andb_comm. done. }
  rewrite Hu, strip_underscores_digits.
  - change (Some (digits_val 10 (digits 10 n)) = Some n). by rewrite digits_val_digits by lia.
  - left. apply digits_nonnil.
  - eapply Forall_impl; [apply digits_chars; lia|]. intros c. by apply base_char_digit_in.
Qed.
Lemma digits_stripped n : strip (digits 10 n) = digits 10 n ∧ strip ("-"%char :: digits 10 n) = "-"%char :: digits 10 n.
Proof.
  assert (Forall (λ a, is_space a = false) (digits 10 n)) as H.
  { eapply Forall_impl; [apply digits_chars; lia|]. intros c. by apply base_char_not_space. }
  split; apply strip_id; [done|]. by constructor.
Qed.
Lemma int_radix_digits n : 0 <= n → int_radix 10 (digits 10 n) = Some n.
Proof.
  intros Hn. unfold int_radix. rewrite (proj1 (digits_stripped n)). pose proof (unsigned_digits n Hn) as Hu.
  pose proof (digits_chars 10 n ltac:(lia)) as Hc. destruct (digits 10 n) as [|c t]; [by cbv in Hu|].
  apply Forall_cons in Hc as [(d & Hd & ->) _]. pose proof (digit_of_char d ltac:(lia)) as H2.
  rewrite !decide_False; [done| |]; intros H; rewrite H in H2; discriminate H2.
Qed.
Lemma parse_num_printed z : parse_num (str_of_Z z) = Some z.
Proof.
  unfold str_of_Z. destruct (Z.ltb_spec z 0) as [Hz|Hz].
  - assert (int_radix 10 ("-"%char :: digits 10 (- z)) = Some z) as Hi.
    { unfold int_radix. rewrite (proj2 (digits_stripped _)). cbn [decide]. rewrite unsigned_digits by lia. cbn. f_equal. lia. }
    destruct (digits_lead (- z) ltac:(lia)) as (c & t & E & _). rewrite E in *. exact Hi.
  - destruct (Z.eq_dec z 0) as [->|]; [reflexivity|]. destruct (digits_lead z ltac:(lia)) as (c & t & E & Hc).
    pose proof (int_radix_digits z Hz) as Hi. rewrite E in *. unfold parse_num.
    assert (startswith (str "0") (c :: t) = false) as Hs.
    { cbn [startswith str String.list_ascii_of_string]. by rewrite bool_decide_false. }
    rewrite Hs. destruct t; [done|]. by rewrite decide_False.
Qed.
