(* ===== verification/PyNum.v ===== *)
(** * Python 2 numbers

    Integers and floats mixed the way Python 2 mixes them: arithmetic on two
    integers stays in the integers (so [/] floors), anything else gives a
    float.  Floats are taken to be exact rationals: rounding is not modelled. *)
From Stdlib Require Export QArith Qabs Qround Lqa.
From S2P Require Export Prelude.
Open Scope Z_scope.

Inductive num : Type :=
  | PInt (z : Z)
  | PFloat (q : Q).

(** The value of a number. *)
Definition nq (a : num) : Q := match a with PInt z => inject_Z z | PFloat q => q end.

Definition nadd (a b : num) : num :=
  match a, b with PInt x, PInt y => PInt (x + y) | _, _ => PFloat (nq a + nq b) end.
Definition nsub (a b : num) : num :=
  match a, b with PInt x, PInt y => PInt (x - y) | _, _ => PFloat (nq a - nq b) end.
Definition nmul (a b : num) : num :=
  match a, b with PInt x, PInt y => PInt (x * y) | _, _ => PFloat (nq a * nq b) end.
Definition nneg (a : num) : num :=
  match a with PInt x => PInt (- x) | PFloat q => PFloat (- q) end.
Definition nabs (a : num) : num :=
  match a with PInt x => PInt (Z.abs x) | PFloat q => PFloat (Qabs q) end.

Definition nzero (a : num) : bool := Qeq_bool (nq a) 0.

Definition ndiv (a b : num) : res exn num :=
  if nzero b then Raise ZeroDivisionError
  else Ok match a, b with PInt x, PInt y => PInt (x / y) | _, _ => PFloat (nq a / nq b) end.
Definition nmod (a b : num) : res exn num :=
  if nzero b then Raise ZeroDivisionError
  else Ok match a, b with
          | PInt x, PInt y => PInt (x mod y)
          | _, _ => PFloat (nq a - nq b * inject_Z (Qfloor (nq a / nq b)))
          end.

Definition nle (a b : num) : bool := Qle_bool (nq a) (nq b).
Definition nlt (a b : num) : bool := negb (Qle_bool (nq b) (nq a)).
Definition neqb (a b : num) : bool := Qeq_bool (nq a) (nq b).

(** [max(a, b)] and [min(a, b)]: the first argument when they are equal. *)
Definition nmax (a b : num) : num := if nlt a b then b else a.
Definition nmin (a b : num) : num := if nlt b a then b else a.

(** [int(a)] truncates, [float(a)] keeps the value. *)
Definition nint (a : num) : Z :=
  match a with PInt z => z | PFloat q => Z.quot (Qnum q) (Zpos (Qden q)) end.
Definition nfloat (a : num) : num := PFloat (nq a).

(** ** Comparisons *)

Definition nfloor (a : num) : Z := Qfloor (nq a).
Definition nceil (a : num) : Z := Qceiling (nq a).

Lemma nle_spec a b : nle a b = true ↔ (nq a <= nq b)%Q.
Proof. apply Qle_bool_iff. Qed.
Lemma nlt_spec a b : nlt a b = true ↔ (nq a < nq b)%Q.
Proof.
  unfold nlt. rewrite negb_true_iff. split.
  - intros Hf. apply Qnot_le_lt. intros Hle%Qle_bool_iff. congruence.
  - intros Hlt. apply not_true_iff_false. intros Hle%Qle_bool_iff. by apply Qlt_not_le in Hlt.
Qed.
Lemma neqb_spec a b : neqb a b = true ↔ (nq a == nq b)%Q.
Proof. apply Qeq_bool_iff. Qed.

Lemma nlt_false a b : nlt a b = false ↔ (nq b <= nq a)%Q.
Proof. unfold nlt. rewrite negb_false_iff. apply Qle_bool_iff. Qed.
Lemma nle_false a b : nle a b = false ↔ (nq b < nq a)%Q.
Proof. rewrite <-(nlt_spec b a). unfold nle, nlt. by rewrite negb_true_iff. Qed.

Lemma Zle_nq z a : (inject_Z z <= nq a)%Q ↔ z <= nfloor a.
Proof.
  unfold nfloor. split.
  - intros Hz. apply Qfloor_resp_le in Hz. by rewrite Qfloor_Z in Hz.
  - intros Hz. eapply Qle_trans; [|apply Qfloor_le]. by rewrite <-Zle_Qle.
Qed.
Lemma nq_leZ z a : (nq a <= inject_Z z)%Q ↔ nceil a <= z.
Proof.
  unfold nceil. split.
  - intros Hz. apply Qceiling_resp_le in Hz. by rewrite Qceiling_Z in Hz.
  - intros Hz. eapply Qle_trans; [apply Qle_ceiling|]. by rewrite <-Zle_Qle.
Qed.
Lemma Zlt_nq z a : (inject_Z z < nq a)%Q ↔ z < nceil a.
Proof.
  rewrite <-Z.nle_gt, <-(nq_leZ z a). split; [apply Qlt_not_le|apply Qnot_le_lt].
Qed.
Lemma nq_ltZ z a : (nq a < inject_Z z)%Q ↔ nfloor a < z.
Proof.
  rewrite <-Z.nle_gt, <-(Zle_nq z a). split; [apply Qlt_not_le|apply Qnot_le_lt].
Qed.

Lemma nfloor_ceil a : nfloor a <= nceil a <= nfloor a + 1.
Proof.
  unfold nfloor, nceil. split.
  - rewrite Zle_Qle. eapply Qle_trans; [apply Qfloor_le|apply Qle_ceiling].
  - pose proof (Qlt_floor (nq a)). apply (nq_leZ (Qfloor (nq a) + 1)). by apply Qlt_le_weak.
Qed.

Lemma nle_Z_l z a : nle (PInt z) a = (z <=? nfloor a).
Proof. apply Bool.eq_iff_eq_true. rewrite Z.leb_le, <-Zle_nq. apply nle_spec. Qed.
Lemma nle_Z_r z a : nle a (PInt z) = (nceil a <=? z).
Proof. apply Bool.eq_iff_eq_true. rewrite Z.leb_le, <-nq_leZ. apply nle_spec. Qed.
Lemma nlt_Z_r z a : nlt a (PInt z) = (nfloor a <? z).
Proof. apply Bool.eq_iff_eq_true. rewrite Z.ltb_lt, <-nq_ltZ. apply nlt_spec. Qed.
Lemma neqb_Z_r z a : neqb a (PInt z) = (z <=? nfloor a) && (nceil a <=? z).
Proof.
  apply Bool.eq_iff_eq_true. rewrite andb_true_iff, !Z.leb_le, <-Zle_nq, <-nq_leZ.
  rewrite neqb_spec. cbn. split; [intros Heq; rewrite Heq; split; apply Qle_refl|].
  intros [? ?]. by apply Qle_antisym.
Qed.
Lemma nq_int z : nfloor (PInt z) = z ∧ nceil (PInt z) = z.
Proof. split; [apply Qfloor_Z|apply Qceiling_Z]. Qed.

(** The larger and the smaller of two numbers. *)
Lemma nmax_spec a b :
  (nq a <= nq (nmax a b))%Q ∧ (nq b <= nq (nmax a b))%Q ∧ (nmax a b = a ∨ nmax a b = b).
Proof.
  unfold nmax. destruct (nlt a b) eqn:Hl.
  - apply nlt_spec in Hl. split_and!; [by apply Qlt_le_weak|apply Qle_refl|by right].
  - apply nlt_false in Hl. split_and!; [apply Qle_refl|done|by left].
Qed.
Lemma nmin_spec a b :
  (nq (nmin a b) <= nq a)%Q ∧ (nq (nmin a b) <= nq b)%Q ∧ (nmin a b = a ∨ nmin a b = b).
Proof.
  unfold nmin. destruct (nlt b a) eqn:Hl.
  - apply nlt_spec in Hl. split_and!; [by apply Qlt_le_weak|apply Qle_refl|by right].
  - apply nlt_false in Hl. split_and!; [apply Qle_refl|done|by left].
Qed.

(** Values of sums, differences and products. *)
Lemma nq_add a b : (nq (nadd a b) == nq a + nq b)%Q.
Proof. destruct a, b; cbn; rewrite ?inject_Z_plus; reflexivity. Qed.
Lemma nq_sub a b : (nq (nsub a b) == nq a - nq b)%Q.
Proof.
  destruct a, b; cbn; try reflexivity.
  unfold Z.sub. rewrite inject_Z_plus, inject_Z_opp. reflexivity.
Qed.
Lemma nq_mul a b : (nq (nmul a b) == nq a * nq b)%Q.
Proof. destruct a, b; cbn; rewrite ?inject_Z_mult; reflexivity. Qed.

(** ** Progressions

    [while x < stop: l.append(x); x += step], on exact floats; [None] when the fuel
    is out. *)
Fixpoint progression (fuel : nat) (x step stop : Q) : option (list Q) :=
  match fuel with
  | O => None
  | S fuel => if Qle_bool stop x then Some [] else cons x <$> progression fuel (x + step)%Q step stop
  end.

Lemma Qle_bool_false a b : Qle_bool a b = false ↔ (b < a)%Q.
Proof.
  rewrite <-not_true_iff_false, Qle_bool_iff. split; [apply Qnot_le_lt|apply Qlt_not_le].
Qed.
Lemma inject_succ n : (inject_Z (Z.of_nat (S n)) == inject_Z (Z.of_nat n) + 1)%Q.
Proof. rewrite Nat2Z.inj_succ, <-Z.add_1_r, inject_Z_plus. reflexivity. Qed.
Lemma progression_S fuel x step stop :
  progression (S fuel) x step stop = if Qle_bool stop x then Some [] else cons x <$> progression fuel (x + step)%Q step stop.
Proof. done. Qed.
Lemma progression_spec step stop fuel : ∀ x,
  (0 < step → stop <= x + inject_Z (Z.of_nat fuel) * step)%Q →
  (0 < step)%Q →
  ∃ l, progression (S fuel) x step stop = Some l ∧
    (∀ i y, l !! i = Some y → y == x + inject_Z (Z.of_nat i) * step ∧ y < stop)%Q ∧
    (stop <= x + inject_Z (Z.of_nat (length l)) * step)%Q.
Proof.
  induction fuel as [|fuel IH]; intros x Hx Hd; specialize (Hx Hd); rewrite progression_S.
  - change (inject_Z (Z.of_nat 0)) with 0%Q in Hx. rewrite (proj2 (Qle_bool_iff stop x)) by lra.
    exists []. split_and!; [done|by intros|]. change (inject_Z (Z.of_nat (length []))) with 0%Q. lra.
  - destruct (Qle_bool stop x) eqn:E.
    + apply Qle_bool_iff in E. exists []. split_and!; [done|by intros|].
      change (inject_Z (Z.of_nat (length []))) with 0%Q. lra.
    + apply Qle_bool_false in E. destruct (IH (x + step)%Q) as (l & -> & Hl & Hlen); [|done|].
      { intros _. rewrite inject_succ in Hx. lra. }
      exists (x :: l). split_and!; [done| |].
      * intros [|i] y Hy; [cbn in Hy; simplify_eq; change (inject_Z (Z.of_nat 0)) with 0%Q; split; lra|].
        destruct (Hl _ _ Hy) as [Hy1 Hy2]. rewrite inject_succ.
        split; [rewrite Hy1; lra|done].
      * cbn [length]. rewrite inject_succ. lra.
Qed.
