(* ===== verification/Timeline.v ===== *)
(** * Models the data model of utils/grid.py

    Data ranges, events, timelines, the table of colors, and the reader of the
    trace file (classes [DataRange] to [Colors] and [read_data]).  The file is
    Python 2: [/] on integers floors, and [list.sort] takes a comparison
    function.  Times are integers, as [read_data] makes them; the ends of a
    selection are any numbers. *)
From Stdlib Require Import Ascii.
From S2P Require Export PyNum CheckStyle.
Open Scope Z_scope.

(** ** [list.sort] with a comparison function: a stable sort *)

Section sorting.
Context {A : Type} (cmp : A → A → Z).

Fixpoint insert_by (x : A) (l : list A) : list A :=
  match l with
  | [] => [x]
  | y :: l' => if cmp x y <=? 0 then x :: l else y :: insert_by x l'
  end.
Definition sort_by (l : list A) : list A := foldr insert_by [] l.
End sorting.

(** ** Ranges and events *)

Record DataRange := MkRange { rstart : Z; rend : Z; rvalue : pystr }.
Record Event (V : Type) := MkEvent { at_ : Z; evalue : V }.
Arguments MkEvent {V}.
Arguments at_ {V}.
Arguments evalue {V}.
Definition EventString : Type := Event pystr.
Definition EventInt : Type := Event Z.

Definition new_DataRange : DataRange := MkRange 0 0 [].
Definition new_EventString : EventString := MkEvent 0 [].

Definition sign_of (diff : Z) : Z := if diff <? 0 then -1 else if 0 <? diff then 1 else 0.
Definition ranges_cmp (a b : DataRange) : Z := sign_of (rstart a - rstart b).
Definition events_cmp {V} (a b : Event V) : Z := sign_of (at_ a - at_ b).

(** ** [TimelineDataRange] *)

Record TimelineDataRange := MkRanges { rname : pystr; rranges : list DataRange }.
Definition new_TimelineDataRange (name : pystr) : TimelineDataRange := MkRanges name [].

(** [__search], with a bound on the rounds of the loop. *)
Fixpoint ranges_search_loop (fuel : nat) (ranges : list DataRange) (key : num) (l u : Z)
    : option (res exn Z) :=
  if l <=? u then
    match fuel with
    | O => None
    | S fuel =>
        let i := (l + u) / 2 in
        match py_get ranges i with
        | None => Some (Raise IndexError)
        | Some r =>
            if nle (PInt (rstart r)) key && nle key (PInt (rend r)) then Some (Ok i)
            else if nlt key (PInt (rstart r)) then ranges_search_loop fuel ranges key l (i - 1)
            else ranges_search_loop fuel ranges key (i + 1) u
        end
    end
  else Some (Ok (-1)).
Definition ranges_search (key : num) (t : TimelineDataRange) : option (res exn Z) :=
  let n := length (rranges t) in
  ranges_search_loop n (rranges t) key 0 (Z.of_nat n - 1).

Definition add_range (r : DataRange) (t : TimelineDataRange) : TimelineDataRange :=
  MkRanges (rname t) (rranges t ++ [r]).
Definition ranges_get_all (t : TimelineDataRange) : list DataRange := rranges t.

Definition ranges_get_ranges_bounds (start end_ : num) (t : TimelineDataRange)
    : option (res exn (Z * Z)) :=
  s ← ranges_search start t;
  e ← ranges_search end_ t;
  Some (s ← s; e ← e;
        Ok (if (s =? -1) && (e =? -1) then (0, 0)
            else if s =? -1 then (0, e + 1)
            else if e =? -1 then (s, Z.of_nat (length (rranges t)))
            else (s, e + 1))).

Definition ranges_get_ranges (start end_ : num) (t : TimelineDataRange)
    : option (res exn (list DataRange)) :=
  s ← ranges_search start t;
  e ← ranges_search end_ t;
  Some (s ← s; e ← e;
        Ok (if (s =? -1) && (e =? -1) then []
            else if s =? -1 then py_slice (rranges t) 0 (e + 1)
            else if e =? -1 then py_slice (rranges t) s (Z.of_nat (length (rranges t)))
            else py_slice (rranges t) s (e + 1))).

Definition ranges_sort (t : TimelineDataRange) : TimelineDataRange :=
  MkRanges (rname t) (sort_by ranges_cmp (rranges t)).

Definition ranges_get_bounds (t : TimelineDataRange) : Z * Z :=
  match rranges t, last (rranges t) with
  | lo :: _, Some hi => (rstart lo, rend hi)
  | _, _ => (0, 0)
  end.

(** ** [TimelineEvent] *)

Record TimelineEvent (V : Type) := MkEvents { ename : pystr; eevents : list (Event V) }.
Arguments MkEvents {V}.
Arguments ename {V}.
Arguments eevents {V}.

Section events.
Context {V : Type}.
Implicit Types t : TimelineEvent V.

Definition new_TimelineEvent (name : pystr) : TimelineEvent V := MkEvents name [].

Fixpoint events_search_loop (fuel : nat) (events : list (Event V)) (key : num) (l u : Z)
    : option (res exn Z) :=
  if l <=? u then
    match fuel with
    | O => None
    | S fuel =>
        let i := (l + u) / 2 in
        match py_get events i with
        | None => Some (Raise IndexError)
        | Some e =>
            if neqb key (PInt (at_ e)) then Some (Ok i)
            else if nlt key (PInt (at_ e)) then events_search_loop fuel events key l (i - 1)
            else events_search_loop fuel events key (i + 1) u
        end
    end
  else Some (Ok l).
Definition events_search (key : num) t : option (res exn Z) :=
  let n := length (eevents t) in
  events_search_loop n (eevents t) key 0 (Z.of_nat n - 1).

Definition add_event (e : Event V) t : TimelineEvent V := MkEvents (ename t) (eevents t ++ [e]).

Definition get_events_bounds (start end_ : num) t : option (res exn (Z * Z)) :=
  s ← events_search start t;
  e ← events_search end_ t;
  Some (s ← s; e ← e; Ok (s, e + 1)).

Definition get_events (start end_ : num) t : option (res exn (list (Event V))) :=
  s ← events_search start t;
  e ← events_search end_ t;
  Some (s ← s; e ← e; Ok (py_slice (eevents t) s (e + 1))).

Definition events_sort t : TimelineEvent V := MkEvents (ename t) (sort_by events_cmp (eevents t)).

Definition events_get_bounds t : Z * Z :=
  match eevents t, py_get (eevents t) (-1) with
  | lo :: _, Some hi => (at_ lo, at_ hi)
  | _, _ => (0, 0)
  end.
End events.

(** ** [Timeline] and [Timelines] *)

(** Find the first entry with a name, or append a new one: the position of the
    entry and the list afterwards. *)
Section named.
Context {A : Type} (name_of : A → pystr) (new : pystr → A).
Fixpoint get_named (name : pystr) (l : list A) : nat * list A :=
  match l with
  | [] => (0%nat, [new name])
  | x :: l' =>
      if decide (name_of x = name) then (0%nat, l)
      else let '(i, l') := get_named name l' in (S i, x :: l')
  end.
End named.

Record Timeline := MkTimeline {
  tname : pystr;
  ranges : list TimelineDataRange;
  event_str : list (TimelineEvent pystr);
  event_int : list (TimelineEvent Z);
}.
Definition new_Timeline (name : pystr) : Timeline := MkTimeline name [] [] [].

(** The entry with the given name, by its position, and the timeline that
    holds it. *)
Definition get_range (name : pystr) (t : Timeline) : nat * Timeline :=
  let '(i, l) := get_named rname new_TimelineDataRange name (ranges t) in
  (i, MkTimeline (tname t) l (event_str t) (event_int t)).
Definition get_event_str (name : pystr) (t : Timeline) : nat * Timeline :=
  let '(i, l) := get_named ename new_TimelineEvent name (event_str t) in
  (i, MkTimeline (tname t) (ranges t) l (event_int t)).
Definition get_event_int (name : pystr) (t : Timeline) : nat * Timeline :=
  let '(i, l) := get_named ename new_TimelineEvent name (event_int t) in
  (i, MkTimeline (tname t) (ranges t) (event_str t) l).
Definition get_ranges (t : Timeline) : list TimelineDataRange := ranges t.
Definition get_events_str (t : Timeline) : list (TimelineEvent pystr) := event_str t.
Definition get_events_int (t : Timeline) : list (TimelineEvent Z) := event_int t.

Definition timeline_sort (t : Timeline) : Timeline :=
  MkTimeline (tname t) (ranges_sort <$> ranges t) (events_sort <$> event_str t)
             (events_sort <$> event_int t).

Definition widen (b b' : Z * Z) : Z * Z :=
  let '(lo, hi) := b in
  let '(range_lo, range_hi) := b' in
  (if range_lo <? lo then range_lo else lo, if hi <? range_hi then range_hi else hi).

Definition timeline_get_bounds (t : Timeline) : Z * Z :=
  let b := foldl (λ b r, widen b (ranges_get_bounds r)) (0, 0) (ranges t) in
  let b := foldl (λ b e, widen b (events_get_bounds e)) b (event_str t) in
  foldl (λ b e, widen b (events_get_bounds e)) b (event_int t).

Definition Timelines : Type := list Timeline.
Definition timelines_get (name : pystr) (ts : Timelines) : nat * Timelines :=
  get_named tname new_Timeline name ts.
Definition timelines_get_all (ts : Timelines) : list Timeline := ts.
Definition timelines_sort (ts : Timelines) : Timelines := timeline_sort <$> ts.
Definition timelines_get_bounds (ts : Timelines) : Z * Z :=
  foldl (λ b t, widen b (timeline_get_bounds t)) (0, 0) ts.

(** ** Colors *)

Record Color := MkColor { r : Z; g : Z; b : Z }.
Definition set_color (r' g' b' : Z) (_ : Color) : Color := MkColor r' g' b'.

Section dicts.
Context {D : Type → Type} `{DictLaws pystr D}.

Definition get_all_range_values (ts : Timelines) : list pystr :=
  dkeys (foldl (λ d t, foldl (λ d rs, foldl (λ d ran, dset (rvalue ran) 1 d) d (ranges_get_all rs))
                             d (get_ranges t)) (dempty : D Z) ts).

(** [default_colors] is an attribute of the class, shared by all tables. *)
Record Colors := MkColors { ctable : D Color; default_colors : list Color }.
Definition new_Colors : Colors :=
  MkColors dempty [MkColor 1 0 0; MkColor 0 1 0; MkColor 0 0 1; MkColor 1 1 0; MkColor 1 0 1;
                   MkColor 0 1 1].
Definition add_color (name : pystr) (c : Color) (cs : Colors) : Colors :=
  MkColors (dset name c (ctable cs)) (default_colors cs).
(** [lookup]: the last default color goes to a new name; [IndexError] from
    [pop] when none is left. *)
Definition lookup_color (name : pystr) (cs : Colors) : res exn (Color * Colors) :=
  match dget name (ctable cs) with
  | Some c => Ok (c, cs)
  | None =>
      match last (default_colors cs) with
      | None => Raise IndexError
      | Some c =>
          Ok (c, add_color name c
                   (MkColors (ctable cs) (take (pred (length (default_colors cs))) (default_colors cs))))
      end
  end.

(** ** The trace file *)

(** A group of characters other than a space. *)
Fixpoint span_word (s : pystr) : pystr * pystr :=
  match s with
  | [] => ([], [])
  | c :: s' => if decide (c = " "%char) then ([], s) else let '(w, r) := span_word s' in (c :: w, r)
  end.
Definition re_word (s : pystr) : option (pystr * pystr) :=
  let '(w, r) := span_word s in
  match w with [] => None | _ => Some (w, r) end.
Definition re_hex2 (s : pystr) : option (pystr * pystr) :=
  match s with
  | a :: b :: s => if is_digit_in 16 a && is_digit_in 16 b then Some ([a; b], s) else None
  | _ => None
  end.

(** What a line of the file holds; numbers are still strings. *)
Inductive trace_line : Type :=
  | RangeLine (line_name range_name value start end_ : pystr)
  | EventStrLine (line_name event_name value at_ : pystr)
  | EventIntLine (line_name event_name value at_ : pystr)
  | ColorLine (name r g b : pystr).

Definition match_range (line : pystr) : option trace_line :=
  s ← strip_prefix (str "range ") line;
  '(g1, s) ← re_word s; s ← strip_prefix (str " ") s;
  '(g2, s) ← re_word s; s ← strip_prefix (str " ") s;
  '(g3, s) ← re_word s; s ← strip_prefix (str " ") s;
  '(g4, s) ← re_digits s; s ← strip_prefix (str " ") s;
  '(g5, _) ← re_digits s;
  Some (RangeLine g1 g2 g3 g4 g5).
Definition match_event_str (line : pystr) : option trace_line :=
  s ← strip_prefix (str "event-str ") line;
  '(g1, s) ← re_word s; s ← strip_prefix (str " ") s;
  '(g2, s) ← re_word s; s ← strip_prefix (str " ") s;
  '(g3, s) ← re_word s; s ← strip_prefix (str " ") s;
  '(g4, _) ← re_digits s;
  Some (EventStrLine g1 g2 g3 g4).
Definition match_event_int (line : pystr) : option trace_line :=
  s ← strip_prefix (str "event-int ") line;
  '(g1, s) ← re_word s; s ← strip_prefix (str " ") s;
  '(g2, s) ← re_word s; s ← strip_prefix (str " ") s;
  '(g3, s) ← re_digits s; s ← strip_prefix (str " ") s;
  '(g4, _) ← re_digits s;
  Some (EventIntLine g1 g2 g3 g4).
Definition match_color (line : pystr) : option trace_line :=
  s ← strip_prefix (str "color ") line;
  '(g1, s) ← re_word s; s ← strip_prefix (str " #") s;
  '(g2, s) ← re_hex2 s;
  '(g3, s) ← re_hex2 s;
  '(g4, _) ← re_hex2 s;
  Some (ColorLine g1 g2 g3 g4).

(** The four patterns in the order they are tried. *)
Definition match_line (line : pystr) : option trace_line :=
  match match_range line with
  | Some m => Some m
  | None => match match_event_str line with
            | Some m => Some m
            | None => match match_event_int line with
                      | Some m => Some m
                      | None => match_color line
                      end
            end
  end.

(** Run an operation on the timeline with a name, or on its entry with a name;
    both are created when missing. *)
Definition on_timeline (name : pystr) (f : Timeline → Timeline) (ts : Timelines) : Timelines :=
  let '(i, ts) := timelines_get name ts in alter f i ts.
Definition on_range (name : pystr) (f : TimelineDataRange → TimelineDataRange) (t : Timeline) : Timeline :=
  let '(i, t) := get_range name t in
  MkTimeline (tname t) (alter f i (ranges t)) (event_str t) (event_int t).
Definition on_event_str (name : pystr) (f : TimelineEvent pystr → TimelineEvent pystr) (t : Timeline)
    : Timeline :=
  let '(i, t) := get_event_str name t in
  MkTimeline (tname t) (ranges t) (alter f i (event_str t)) (event_int t).
Definition on_event_int (name : pystr) (f : TimelineEvent Z → TimelineEvent Z) (t : Timeline)
    : Timeline :=
  let '(i, t) := get_event_int name t in
  MkTimeline (tname t) (ranges t) (event_str t) (alter f i (event_int t)).

Definition read_line (st : Colors * Timelines) (line : pystr) : res exn (Colors * Timelines) :=
  let '(colors, timelines) := st in
  match match_line line with
  | Some (RangeLine tl name value start end_) =>
      start ← py_int 10 start;
      end_ ← py_int 10 end_;
      Ok (colors, on_timeline tl (on_range name (add_range (MkRange start end_ value))) timelines)
  | Some (EventStrLine tl name value at_) =>
      at_ ← py_int 10 at_;
      Ok (colors, on_timeline tl (on_event_str name (add_event (MkEvent at_ value))) timelines)
  | Some (EventIntLine tl name value at_) =>
      value ← py_int 10 value;
      at_ ← py_int 10 at_;
      Ok (colors, on_timeline tl (on_event_int name (add_event (MkEvent at_ value))) timelines)
  | Some (ColorLine name r g b) =>
      r ← py_int 16 r;
      g ← py_int 16 g;
      b ← py_int 16 b;
      Ok (add_color name (MkColor (r / 255) (g / 255) (b / 255)) colors, timelines)
  | None => Ok st
  end.

Definition read_data (lines : list pystr) : res exn (Colors * Timelines) :=
  '(colors, timelines) ← fold_res read_line (new_Colors, []) lines;
  Ok (colors, timelines_sort timelines).
End dicts.
Arguments Colors : clear implicits.

(** ** Sorting *)

Section sort_facts.
Context {A : Type} (key : A → Z) (cmp : A → A → Z).
Hypothesis cmp_key : ∀ x y, cmp x y = sign_of (key x - key y).
Implicit Types l : list A.

Lemma cmp_le x y : (cmp x y <=? 0) = (key x <=? key y).
Proof.
  rewrite cmp_key. unfold sign_of.
  destruct (Z.ltb_spec (key x - key y) 0); [symmetry; apply Z.leb_le; lia|].
  destruct (Z.ltb_spec 0 (key x - key y)); symmetry; [apply Z.leb_gt|apply Z.leb_le]; lia.
Qed.

Lemma insert_by_perm x l : insert_by cmp x l ≡ₚ x :: l.
Proof.
  induction l as [|y l IH]; cbn; [done|]. destruct (_ <=? _); [done|].
  rewrite IH. apply Permutation_swap.
Qed.

Lemma sort_by_perm l : sort_by cmp l ≡ₚ l.
Proof. induction l as [|x l IH]; cbn; [done|]. rewrite insert_by_perm. by constructor. Qed.

Lemma insert_by_sorted x l :
  StronglySorted (λ a b, key a <= key b) l →
  StronglySorted (λ a b, key a <= key b) (insert_by cmp x l).
Proof.
  induction 1 as [|y l Hl IH Hy]; cbn; [repeat constructor|]. rewrite cmp_le.
  destruct (Z.leb_spec (key x) (key y)).
  - constructor; [by constructor|]. constructor; [done|].
    eapply Forall_impl; [exact Hy|]. cbn. lia.
  - constructor; [done|]. rewrite insert_by_perm. constructor; [lia|done].
Qed.

Lemma sort_by_sorted l : StronglySorted (λ a b, key a <= key b) (sort_by cmp l).
Proof. induction l; cbn; [constructor|]. by apply insert_by_sorted. Qed.

(** Elements with the same key keep their order. *)
Lemma sort_by_stable k l :
  filter (λ x, key x = k) (sort_by cmp l) = filter (λ x, key x = k) l.
Proof.
  induction l as [|x l IH]; [done|]. cbn [sort_by foldr]. fold (sort_by cmp l).
  rewrite filter_cons, <-IH. clear IH. pose proof (sort_by_sorted l) as Hs.
  induction Hs as [|y s Hs IHs Hy]; cbn [insert_by].
  - by rewrite filter_cons.
  - rewrite cmp_le. destruct (Z.leb_spec (key x) (key y)); [by rewrite filter_cons|].
    rewrite !(filter_cons _ y), IHs. case_decide; case_decide; try done. lia.
Qed.
End sort_facts.

(** ** Binary search over ranges *)

(** Ranges in order, each with [start <= end]; neighbours may touch. *)
Definition ranges_ok (rs : list DataRange) : Prop :=
  (∀ i r, rs !! i = Some r → rstart r <= rend r) ∧
  (∀ i j r r', rs !! i = Some r → rs !! j = Some r' → (i < j)%nat → rend r <= rstart r').

Definition in_range (key : num) (r : DataRange) : Prop :=
  (inject_Z (rstart r) <= nq key <= inject_Z (rend r))%Q.

Lemma in_range_Z key r : in_range key r ↔ rstart r <= nfloor key ∧ nceil key <= rend r.
Proof. unfold in_range. by rewrite Zle_nq, nq_leZ. Qed.

(** What a search returns: the position of a range that holds the key, or -1. *)
Definition range_found (rs : list DataRange) (key : num) (z : Z) : Prop :=
  (∃ i r, z = Z.of_nat i ∧ rs !! i = Some r ∧ in_range key r) ∨
  (z = -1 ∧ ∀ r, r ∈ rs → ¬ in_range key r).

Lemma midpoint l u : 0 <= l → l <= u → ∃ i, (l + u) / 2 = Z.of_nat i ∧ l <= Z.of_nat i <= u.
Proof.
  intros Hl Hu. exists (Z.to_nat ((l + u) / 2)).
  pose proof (Z.div_pos (l + u) 2). pose proof (Z.div_mod (l + u) 2).
  pose proof (Z.mod_pos_bound (l + u) 2). rewrite Z2Nat.id by lia. lia.
Qed.

Lemma ranges_search_loop_ok rs key fuel l u :
  ranges_ok rs → 0 <= l → l <= u + 1 → u < Z.of_nat (length rs) → u - l < Z.of_nat fuel →
  (∀ j r, Z.of_nat j < l → rs !! j = Some r → rend r < nceil key) →
  (∀ j r, u < Z.of_nat j → rs !! j = Some r → nfloor key < rstart r) →
  ∃ z, ranges_search_loop fuel rs key l u = Some (Ok z) ∧ range_found rs key z.
Proof.
  pose proof (nfloor_ceil key) as Hfc. intros [Hle Hord]. revert l u. induction fuel as [|fuel IH]; intros l u Hl Hlu Hu Hfuel Hlo Hhi;
    cbn [ranges_search_loop]; destruct (Z.leb_spec l u); try lia.
  1,3: exists (-1); split; [done|]; right; split; [done|];
    intros r' [j Hj]%list_elem_of_lookup [Hin1 Hin2]%in_range_Z;
    destruct (Z.lt_ge_cases (Z.of_nat j) l);
    [specialize (Hlo j r' ltac:(done) Hj)|specialize (Hhi j r' ltac:(lia) Hj)]; lia.
  destruct (midpoint l u) as (i & -> & Hi); [lia..|]. cbn zeta. rewrite py_get_nat.
  destruct (rs !! i) as [r'|] eqn:Hr; [|apply lookup_ge_None in Hr; lia].
  rewrite nle_Z_l, nle_Z_r, nlt_Z_r.
  destruct (Z.leb_spec (rstart r') (nfloor key)), (Z.leb_spec (nceil key) (rend r')); cbn [andb].
  - eexists. split; [done|]. left. exists i, r'. split_and!; [done..|]. by apply in_range_Z.
  - rewrite (proj2 (Z.ltb_ge _ _)) by lia. apply IH; [lia..| |done].
    intros j r2 Hj Hr2. destruct (decide (j = i)) as [->|]; [simplify_eq; lia|].
    pose proof (Hord j i r2 r'). pose proof (Hle i r'). naive_solver lia.
  - rewrite (proj2 (Z.ltb_lt _ _)) by lia. apply IH; [lia..|done|].
    intros j r2 Hj Hr2. destruct (decide (j = i)) as [->|]; [simplify_eq; lia|].
    pose proof (Hord i j r' r2). pose proof (Hle i r'). naive_solver lia.
  - pose proof (Hle i r' Hr). lia.
Qed.

Lemma ranges_search_ok t key :
  ranges_ok (rranges t) → ∃ z, ranges_search key t = Some (Ok z) ∧ range_found (rranges t) key z.
Proof.
  intros Hok. apply ranges_search_loop_ok; [done|lia..| |].
  - intros j r' Hj. lia.
  - intros j r' Hj Hr. apply lookup_lt_Some in Hr. lia.
Qed.

(** ** Binary search over events *)

Section event_search.
Context {V : Type}.
Implicit Types (es : list (Event V)) (t : TimelineEvent V).

Definition events_ok es : Prop := ∀ i j e e', es !! i = Some e → es !! j = Some e' → (i < j)%nat →
  at_ e <= at_ e'.

(** The position of an event at the key, or, when there is none, the number of
    events before it. *)
Definition at_key (key : num) (e : Event V) : Prop := (nq key == inject_Z (at_ e))%Q.
Definition event_found es (key : num) (z : Z) : Prop :=
  ∃ i, z = Z.of_nat i ∧
    ((∃ e, es !! i = Some e ∧ at_key key e) ∨
     ((i ≤ length es)%nat ∧
      ∀ j e, es !! j = Some e → (at_ e < nceil key ↔ (j < i)%nat) ∧ ¬ at_key key e)).

Lemma at_key_Z key e : at_key key e ↔ nceil key <= at_ e <= nfloor key.
Proof.
  unfold at_key. rewrite <-(neqb_spec key (PInt (at_ e))), neqb_Z_r, andb_true_iff, !Z.leb_le. lia.
Qed.

Lemma events_search_loop_ok es key fuel l u :
  events_ok es → 0 <= l → l <= u + 1 → u < Z.of_nat (length es) → u - l < Z.of_nat fuel →
  (∀ j e, Z.of_nat j < l → es !! j = Some e → at_ e < nceil key) →
  (∀ j e, u < Z.of_nat j → es !! j = Some e → nfloor key < at_ e) →
  ∃ z, events_search_loop fuel es key l u = Some (Ok z) ∧ event_found es key z.
Proof.
  pose proof (nfloor_ceil key) as Hfc. intros Hord. revert l u. induction fuel as [|fuel IH]; intros l u Hl Hlu Hu Hfuel Hlo Hhi;
    cbn [events_search_loop]; destruct (Z.leb_spec l u); try lia.
  1,3: exists l; split; [done|]; exists (Z.to_nat l); split; [lia|]; right; split; [lia|];
    intros j e Hj; destruct (Z.lt_ge_cases (Z.of_nat j) l);
    [specialize (Hlo j e ltac:(lia) Hj)|specialize (Hhi j e ltac:(lia) Hj)]; rewrite at_key_Z; lia.
  destruct (midpoint l u) as (i & -> & Hi); [lia..|]. cbn zeta. rewrite py_get_nat.
  destruct (es !! i) as [e|] eqn:He; [|apply lookup_ge_None in He; lia].
  rewrite neqb_Z_r, nlt_Z_r.
  destruct (Z.leb_spec (at_ e) (nfloor key)), (Z.leb_spec (nceil key) (at_ e)),
    (Z.ltb_spec (nfloor key) (at_ e)); cbn [andb]; try lia.
  - eexists. split; [done|]. exists i. split; [done|]. left. exists e. by rewrite at_key_Z.
  - apply IH; [lia..| |done]. intros j e2 Hj He2.
    destruct (decide (j = i)) as [->|]; [simplify_eq; lia|].
    pose proof (Hord j i e2 e). naive_solver lia.
  - apply IH; [lia..|done|]. intros j e2 Hj He2.
    destruct (decide (j = i)) as [->|]; [simplify_eq; lia|].
    pose proof (Hord i j e e2). naive_solver lia.
Qed.

Lemma events_search_ok t key :
  events_ok (eevents t) → ∃ z, events_search key t = Some (Ok z) ∧ event_found (eevents t) key z.
Proof.
  intros Hok. apply events_search_loop_ok; [done|lia..| |].
  - intros j e Hj. lia.
  - intros j e Hj He. apply lookup_lt_Some in He. lia.
Qed.
End event_search.

(** ** What a selection returns *)

Lemma py_slice_lookup {A} (l : list A) (a b k : nat) x :
  py_slice l (Z.of_nat a) (Z.of_nat b) !! k = Some x ↔ l !! (a + k)%nat = Some x ∧ (a + k < b)%nat.
Proof.
  unfold py_slice, slice_pos. rewrite !(proj2 (Z.ltb_ge _ _)), !Nat2Z.id by lia.
  rewrite lookup_take_Some, lookup_drop. split.
  - intros [Hx Hk]. destruct (decide (a ≤ length l)%nat).
    + rewrite (Nat.min_l a) in * by lia. split; [done|lia].
    + rewrite (Nat.min_r a) in * by lia. lia.
  - intros [Hx Hk]. pose proof (lookup_lt_Some _ _ _ Hx).
    rewrite (Nat.min_l a) by lia. split; [done|lia].
Qed.

Lemma py_slice_elem {A} (l : list A) (a b : nat) x :
  x ∈ py_slice l (Z.of_nat a) (Z.of_nat b) ↔ ∃ i, l !! i = Some x ∧ (a ≤ i < b)%nat.
Proof.
  rewrite list_elem_of_lookup. setoid_rewrite py_slice_lookup. split.
  - intros (k & Hx & Hk). exists (a + k)%nat. split; [done|lia].
  - intros (i & Hx & Hi). exists (i - a)%nat.
    replace (a + (i - a))%nat with i by lia. split; [done|lia].
Qed.

Definition covered_by (rs : list DataRange) (key : num) : Prop := ∃ r, r ∈ rs ∧ in_range key r.

Lemma range_found_covered rs key z :
  range_found rs key z → covered_by rs key → ∃ i r, z = Z.of_nat i ∧ rs !! i = Some r ∧ in_range key r.
Proof. intros [?|[_ Hno]] (r & Hr & Hin); [done|]. by destruct (Hno r Hr). Qed.

Lemma range_found_not rs key z : range_found rs key z → ¬ covered_by rs key → z = -1.
Proof.
  intros [(i & r & _ & Hr & Hin)|[? _]] Hno; [|done]. destruct Hno. exists r.
  split; [by apply list_elem_of_lookup_2 in Hr|done].
Qed.

(** A range that meets the interior of the window is not before the range found
    for its start, nor after the range found for its end. *)
Lemma after_start rs i j r r' start :
  ranges_ok rs → rs !! i = Some r → in_range start r → rs !! j = Some r' → nfloor start < rend r' →
  (i ≤ j)%nat.
Proof.
  intros [Hle Hord] Hi [? ?]%in_range_Z Hj Hs. destruct (decide (j < i)%nat); [|lia].
  specialize (Hord j i r' r Hj Hi). lia.
Qed.
Lemma before_end rs i j r r' end_ :
  ranges_ok rs → rs !! i = Some r → in_range end_ r → rs !! j = Some r' → rstart r' < nceil end_ →
  (j ≤ i)%nat.
Proof.
  intros [Hle Hord] Hi [? ?]%in_range_Z Hj Hs. destruct (decide (i < j)%nat); [|lia].
  specialize (Hord i j r r' Hi Hj). lia.
Qed.

Lemma ranges_get_ranges_eq t start end_ s e :
  ranges_search start t = Some (Ok s) → ranges_search end_ t = Some (Ok e) →
  ranges_get_ranges start end_ t = Some (Ok
    (if (s =? -1) && (e =? -1) then []
     else if s =? -1 then py_slice (rranges t) 0 (e + 1)
     else if e =? -1 then py_slice (rranges t) s (Z.of_nat (length (rranges t)))
     else py_slice (rranges t) s (e + 1))).
Proof. intros Hs He. unfold ranges_get_ranges. by rewrite Hs, He. Qed.

Lemma of_nat_neq_m1 i : (Z.of_nat i =? -1) = false.
Proof. apply Z.eqb_neq. lia. Qed.

Lemma get_ranges_in_gaps t start end_ :
  ranges_ok (rranges t) → ¬ covered_by (rranges t) start → ¬ covered_by (rranges t) end_ →
  ranges_get_ranges start end_ t = Some (Ok []).
Proof.
  intros Hok Hs He. destruct (ranges_search_ok t start Hok) as (s & Hs1 & Hs2),
    (ranges_search_ok t end_ Hok) as (e & He1 & He2).
  rewrite (ranges_get_ranges_eq _ _ _ _ _ Hs1 He1).
  by rewrite (range_found_not _ _ _ Hs2 Hs), (range_found_not _ _ _ He2 He).
Qed.

Lemma get_ranges_covered t start end_ :
  ranges_ok (rranges t) →
  covered_by (rranges t) start ∨ covered_by (rranges t) end_ →
  ∃ a b, ranges_get_ranges start end_ t = Some (Ok (py_slice (rranges t) (Z.of_nat a) (Z.of_nat b))) ∧
    ∀ i r, rranges t !! i = Some r → rstart r < nceil end_ → nfloor start < rend r → (a ≤ i < b)%nat.
Proof.
  intros Hok Hcov. destruct (ranges_search_ok t start Hok) as (s & Hs1 & Hs2),
    (ranges_search_ok t end_ Hok) as (e & He1 & He2).
  rewrite (ranges_get_ranges_eq _ _ _ _ _ Hs1 He1).
  destruct Hs2 as [(i & r1 & -> & Hi & Hin)|[-> Hns]], He2 as [(j & r2 & -> & Hj & Hjn)|[-> Hne]];
    rewrite ?of_nat_neq_m1; cbn [andb].
  - exists i, (S j). replace (Z.of_nat j + 1) with (Z.of_nat (S j)) by lia. split; [done|].
    intros k r' Hk He Hs. pose proof (after_start _ _ _ _ _ _ Hok Hi Hin Hk Hs).
    pose proof (before_end _ _ _ _ _ _ Hok Hj Hjn Hk He). lia.
  - exists i, (length (rranges t)). split; [done|]. intros k r' Hk He Hs.
    pose proof (after_start _ _ _ _ _ _ Hok Hi Hin Hk Hs). apply lookup_lt_Some in Hk. lia.
  - exists 0%nat, (S j). replace (Z.of_nat j + 1) with (Z.of_nat (S j)) by lia. split; [done|].
    intros k r' Hk He Hs. pose proof (before_end _ _ _ _ _ _ Hok Hj Hjn Hk He). lia.
  - exfalso. destruct Hcov as [(r' & Hr & Hin)|(r' & Hr & Hin)]; [by apply (Hns r')|by apply (Hne r')].
Qed.

Section selected_events.
Context {V : Type}.
Implicit Types (es : list (Event V)) (t : TimelineEvent V).

(** Events at strictly increasing times. *)
Definition events_strict es : Prop :=
  ∀ i j e e', es !! i = Some e → es !! j = Some e' → (i < j)%nat → at_ e < at_ e'.

Lemma events_strict_ok es : events_strict es → events_ok es.
Proof. intros Hs i j e e' Hi Hj Hij. specialize (Hs i j e e' Hi Hj Hij). lia. Qed.

Lemma event_found_strict es key z :
  events_strict es → event_found es key z →
  ∃ i, z = Z.of_nat i ∧ ∀ j e, es !! j = Some e → at_ e < nceil key ↔ (j < i)%nat.
Proof.
  pose proof (nfloor_ceil key) as Hfc.
  intros Hs (i & -> & [(e & Hi & Hat%at_key_Z)|[_ Hall]]); exists i; (split; [done|]); intros j e' Hj.
  - destruct (Nat.lt_trichotomy j i) as [Hlt|[->|Hgt]].
    + specialize (Hs j i e' e Hj Hi Hlt). lia.
    + simplify_eq. lia.
    + specialize (Hs i j e e' Hi Hj Hgt). lia.
  - by destruct (Hall j e' Hj).
Qed.

Lemma get_events_slice t start end_ :
  events_strict (eevents t) →
  ∃ a b, get_events start end_ t = Some (Ok (py_slice (eevents t) (Z.of_nat a) (Z.of_nat (S b)))) ∧
    (∀ j e, eevents t !! j = Some e → at_ e < nceil start ↔ (j < a)%nat) ∧
    (∀ j e, eevents t !! j = Some e → at_ e < nceil end_ ↔ (j < b)%nat).
Proof.
  intros Hs. pose proof (events_strict_ok _ Hs) as Hok.
  destruct (events_search_ok t start Hok) as (s & Hs1 & Hs2),
    (events_search_ok t end_ Hok) as (e & He1 & He2).
  apply (event_found_strict _ _ _ Hs) in Hs2 as (a & -> & Ha).
  apply (event_found_strict _ _ _ Hs) in He2 as (b & -> & Hb).
  exists a, b. split; [|done]. unfold get_events. rewrite Hs1, He1. cbn.
  by replace (Z.of_nat b + 1) with (Z.of_nat (S b)) by lia.
Qed.

Lemma not_after_end es b end_ j e :
  events_strict es → (∀ j e, es !! j = Some e → at_ e < nceil end_ ↔ (j < b)%nat) →
  es !! j = Some e → at_ e <= nfloor end_ → (j < S b)%nat.
Proof.
  intros Hs Hb Hj He. destruct (decide (j < S b)%nat) as [|Hjb]; [done|]. exfalso.
  pose proof (nfloor_ceil end_).
  destruct (lookup_lt_is_Some_2 es b) as [eb Heb]; [apply lookup_lt_Some in Hj; lia|].
  pose proof (Hs b j eb e Heb Hj). pose proof (Hb b eb Heb). lia.
Qed.
End selected_events.

(** The last element of a slice that ends inside the list. *)
Lemma slice_last {A} (l : list A) (a b : nat) x :
  l !! b = Some x → (a ≤ b)%nat →
  py_slice l (Z.of_nat a) (Z.of_nat (S b)) !! (b - a)%nat = Some x ∧
  length (py_slice l (Z.of_nat a) (Z.of_nat (S b))) = S (b - a).
Proof.
  intros Hx Hab. assert (py_slice l (Z.of_nat a) (Z.of_nat (S b)) !! (b - a)%nat = Some x) as Hbl
    by (apply py_slice_lookup; replace (a + (b - a))%nat with b by lia; split; [done|lia]).
  split; [done|]. apply lookup_lt_Some in Hbl as Hlt.
  destruct (decide (S (b - a) < length (py_slice l (Z.of_nat a) (Z.of_nat (S b))))%nat)
    as [[e' He']%lookup_lt_is_Some|]; [|lia].
  apply py_slice_lookup in He' as [_ ?]. lia.
Qed.

(** ** Named entries *)

Section named_facts.
Context {A : Type} (name_of : A → pystr) (new : pystr → A).
Hypothesis new_name : ∀ n, name_of (new n) = n.
Implicit Types (l : list A) (f : A → A).

(** The first entry with a name. *)
Fixpoint find_named (name : pystr) l : option A :=
  match l with
  | [] => None
  | x :: l => if decide (name_of x = name) then Some x else find_named name l
  end.

Lemma get_named_nth name l :
  let '(i, l') := get_named name_of new name l in
  l' !! i = Some (default (new name) (find_named name l)) ∧ (i < length l')%nat.
Proof.
  induction l as [|x l IH]; cbn; [split; [done|lia]|].
  destruct (decide (name_of x = name)); cbn; [split; [done|lia]|].
  destruct (get_named name_of new name l) as [i l']. cbn. split; [apply IH|lia].
Qed.

(** Changing the entry that [get_named] returns, without renaming it. *)
Lemma find_named_alter f name name' l :
  (∀ x, name_of (f x) = name_of x) →
  let '(i, l') := get_named name_of new name l in
  find_named name' (alter f i l') =
    if decide (name' = name) then Some (f (default (new name) (find_named name l)))
    else find_named name' l.
Proof.
  intros Hf. induction l as [|x l IH]; cbn.
  - rewrite Hf, new_name. by repeat case_decide.
  - destruct (decide (name_of x = name)) as [<-|Hx]; cbn.
    + rewrite Hf. by repeat case_decide; subst.
    + destruct (get_named name_of new name l) as [i l']. cbn in *. rewrite IH.
      by repeat case_decide; subst.
Qed.
End named_facts.

(** The ranges and events stored under a timeline name and an entry name. *)
Definition stored_ranges (tl name : pystr) (ts : Timelines) : list DataRange :=
  default [] (t ← find_named tname tl ts; rranges <$> find_named rname name (ranges t)).
Definition stored_event_str (tl name : pystr) (ts : Timelines) : list (Event pystr) :=
  default [] (t ← find_named tname tl ts; eevents <$> find_named ename name (event_str t)).
Definition stored_event_int (tl name : pystr) (ts : Timelines) : list (Event Z) :=
  default [] (t ← find_named tname tl ts; eevents <$> find_named ename name (event_int t)).

(** Finding an entry and changing it in place. *)
Definition on_named {A} (name_of : A → pystr) (new : pystr → A) (name : pystr) (f : A → A) (l : list A)
    : list A :=
  let '(i, l') := get_named name_of new name l in alter f i l'.

Lemma find_on_named {A} (name_of : A → pystr) new f name name' l :
  (∀ n, name_of (new n) = n) → (∀ x, name_of (f x) = name_of x) →
  find_named name_of name' (on_named name_of new name f l) =
    if decide (name' = name) then Some (f (default (new name) (find_named name_of name l)))
    else find_named name_of name' l.
Proof.
  intros Hnew Hf. unfold on_named. pose proof (find_named_alter name_of new Hnew f name name' l Hf) as Hn.
  by destruct (get_named name_of new name l).
Qed.

Lemma on_timeline_eq tl f ts : on_timeline tl f ts = on_named tname new_Timeline tl f ts.
Proof. done. Qed.
Lemma on_range_eq name f t :
  on_range name f t = MkTimeline (tname t) (on_named rname new_TimelineDataRange name f (ranges t))
                                 (event_str t) (event_int t).
Proof. unfold on_range, get_range, on_named. by destruct (get_named _ _ name _). Qed.
Lemma on_event_str_eq name f t :
  on_event_str name f t = MkTimeline (tname t) (ranges t)
    (on_named ename new_TimelineEvent name f (event_str t)) (event_int t).
Proof. unfold on_event_str, get_event_str, on_named. by destruct (get_named _ _ name _). Qed.
Lemma on_event_int_eq name f t :
  on_event_int name f t = MkTimeline (tname t) (ranges t) (event_str t)
    (on_named ename new_TimelineEvent name f (event_int t)).
Proof. unfold on_event_int, get_event_int, on_named. by destruct (get_named _ _ name _). Qed.

(** An addition changes the list it is made to, and no other. *)
Ltac stored_entry eq :=
  cbv zeta; unfold stored_ranges, stored_event_str, stored_event_int;
  rewrite on_timeline_eq, find_on_named by (done || (intros ?; by rewrite eq));
  match goal with
  | |- context [decide (?tl' = ?tl ∧ _)] =>
      destruct (decide (tl' = tl)) as [->|]; [|by rewrite decide_False by tauto]
  end;
  cbn [mbind option_bind]; rewrite !eq; cbn [ranges event_str event_int];
  rewrite !find_on_named by done;
  match goal with
  | |- context [find_named tname ?tl ?ts] => destruct (find_named tname tl ts) as [?t|]
  end; cbn;
  match goal with
  | |- context [decide (?n = ?n')] =>
      destruct (decide (n = n')) as [->|];
      [rewrite decide_True by done|rewrite decide_False by tauto]
  end; split_and!; try done;
  match goal with |- context [find_named ?f ?n ?l] => by destruct (find_named f n l) end.

Lemma stored_on_range tl name tl' name' r ts :
  let ts' := on_timeline tl (on_range name (add_range r)) ts in
  stored_ranges tl' name' ts' =
    (if decide (tl' = tl ∧ name' = name) then stored_ranges tl' name' ts ++ [r]
     else stored_ranges tl' name' ts) ∧
  stored_event_str tl' name' ts' = stored_event_str tl' name' ts ∧
  stored_event_int tl' name' ts' = stored_event_int tl' name' ts.
Proof. stored_entry on_range_eq. Qed.

Lemma stored_on_event_str tl name tl' name' e ts :
  let ts' := on_timeline tl (on_event_str name (add_event e)) ts in
  stored_ranges tl' name' ts' = stored_ranges tl' name' ts ∧
  stored_event_str tl' name' ts' =
    (if decide (tl' = tl ∧ name' = name) then stored_event_str tl' name' ts ++ [e]
     else stored_event_str tl' name' ts) ∧
  stored_event_int tl' name' ts' = stored_event_int tl' name' ts.
Proof. stored_entry on_event_str_eq. Qed.

Lemma stored_on_event_int tl name tl' name' e ts :
  let ts' := on_timeline tl (on_event_int name (add_event e)) ts in
  stored_ranges tl' name' ts' = stored_ranges tl' name' ts ∧
  stored_event_str tl' name' ts' = stored_event_str tl' name' ts ∧
  stored_event_int tl' name' ts' =
    (if decide (tl' = tl ∧ name' = name) then stored_event_int tl' name' ts ++ [e]
     else stored_event_int tl' name' ts).
Proof. stored_entry on_event_int_eq. Qed.

(** Sorting sorts each list where it is. *)
Lemma find_named_fmap {A} (name_of : A → pystr) (f : A → A) name l :
  (∀ x, name_of (f x) = name_of x) →
  find_named name_of name (f <$> l) = f <$> find_named name_of name l.
Proof.
  intros Hf. induction l as [|x l IH]; [done|]. rewrite fmap_cons. cbn [find_named].
  rewrite Hf, IH. by case_decide.
Qed.

Lemma stored_sort tl name ts :
  stored_ranges tl name (timelines_sort ts) = sort_by ranges_cmp (stored_ranges tl name ts) ∧
  stored_event_str tl name (timelines_sort ts) = sort_by events_cmp (stored_event_str tl name ts) ∧
  stored_event_int tl name (timelines_sort ts) = sort_by events_cmp (stored_event_int tl name ts).
Proof.
  unfold stored_ranges, stored_event_str, stored_event_int, timelines_sort.
  rewrite (find_named_fmap tname timeline_sort) by done.
  destruct (find_named tname tl ts) as [t|]; [|done]. cbn [fmap option_fmap option_map mbind option_bind].
  unfold timeline_sort. cbn [ranges event_str event_int].
  rewrite (find_named_fmap rname ranges_sort), !(find_named_fmap ename events_sort) by done.
  split_and!; by destruct (find_named _ _ _).
Qed.

(** ** The lines of the file *)

(** What a line adds to the lists with the given names. *)
Definition line_range (tl name line : pystr) : option DataRange :=
  match match_line line with
  | Some (RangeLine tl' name' value start end_) =>
      if decide (tl = tl' ∧ name = name') then Some (MkRange (digits_val 10 start) (digits_val 10 end_) value)
      else None
  | _ => None
  end.
Definition line_event_str (tl name line : pystr) : option (Event pystr) :=
  match match_line line with
  | Some (EventStrLine tl' name' value at_) =>
      if decide (tl = tl' ∧ name = name') then Some (MkEvent (digits_val 10 at_) value) else None
  | _ => None
  end.
Definition line_event_int (tl name line : pystr) : option (Event Z) :=
  match match_line line with
  | Some (EventIntLine tl' name' value at_) =>
      if decide (tl = tl' ∧ name = name') then Some (MkEvent (digits_val 10 at_) (digits_val 10 value))
      else None
  | _ => None
  end.

(** The number groups are digit strings. *)
Definition number_in (b : Z) (s : pystr) : Prop := py_int b s = Ok (digits_val b s).

Lemma span_digits_all s d r :
  span_digits s = (d, r) → Forall (λ c, is_digit_in 10 c = true) d.
Proof.
  revert d r. induction s as [|c s IH]; cbn; intros d r Hs; [simplify_eq; constructor|].
  destruct (is_digit_in 10 c) eqn:Hc; [|simplify_eq; constructor].
  destruct (span_digits s) as [d' r'] eqn:Hs'. simplify_eq. constructor; [done|by eapply IH].
Qed.

Lemma re_digits_number s d r : re_digits s = Some (d, r) → number_in 10 d.
Proof.
  unfold re_digits. destruct (span_digits s) as [d' r'] eqn:Hs. destruct d' as [|a d']; [done|].
  intros [= <- <-]. apply py_int_digit_in; [done|by eapply span_digits_all].
Qed.

Lemma re_hex2_number s d r : re_hex2 s = Some (d, r) → number_in 16 d.
Proof.
  destruct s as [|a [|b s]]; cbn; try done.
  destruct (is_digit_in 16 a) eqn:Ha, (is_digit_in 16 b) eqn:Hb; cbn; try done.
  intros [= <- <-]. by apply py_int_digit_in; [|repeat constructor].
Qed.

Definition numbers_ok (m : trace_line) : Prop :=
  match m with
  | RangeLine _ _ _ start end_ => number_in 10 start ∧ number_in 10 end_
  | EventStrLine _ _ _ at_ => number_in 10 at_
  | EventIntLine _ _ value at_ => number_in 10 value ∧ number_in 10 at_
  | ColorLine _ r g b => number_in 16 r ∧ number_in 16 g ∧ number_in 16 b
  end.

Lemma bind_some_inv {A B} (m : option A) (f : A → option B) b :
  m ≫= f = Some b → ∃ a, m = Some a ∧ f a = Some b.
Proof. destruct m; cbn; [eauto|done]. Qed.

(** Take apart a match of one of the patterns. *)
Ltac match_inv :=
  repeat match goal with
  | H : _ ≫= _ = Some _ |- _ => apply bind_some_inv in H as (? & ? & H)
  | p : pystr * pystr |- _ => destruct p; cbn beta iota in *
  end; simplify_eq; cbn [numbers_ok].

Lemma match_line_numbers line m : match_line line = Some m → numbers_ok m.
Proof.
  unfold match_line. destruct (match_range line) eqn:H1; [|destruct (match_event_str line) eqn:H2;
    [|destruct (match_event_int line) eqn:H3; [|intros H4]]]; try (intros [= <-]).
  - unfold match_range in H1. match_inv. split; by eapply re_digits_number.
  - unfold match_event_str in H2. match_inv. by eapply re_digits_number.
  - unfold match_event_int in H3. match_inv. split; by eapply re_digits_number.
  - unfold match_color in H4. match_inv. split_and!; by eapply re_hex2_number.
Qed.

Definition line_color (name line : pystr) : option Color :=
  match match_line line with
  | Some (ColorLine name' r g b) =>
      if decide (name = name')
      then Some (MkColor (digits_val 16 r / 255) (digits_val 16 g / 255) (digits_val 16 b / 255))
      else None
  | _ => None
  end.

Section reading.
Context {D : Type → Type} `{DictLaws pystr D}.

(** The effect of one line on everything stored. *)
Lemma read_line_ok (st : Colors D * Timelines) line :
  ∃ st', read_line st line = Ok st' ∧
    (∀ tl name,
       stored_ranges tl name st'.2 = stored_ranges tl name st.2 ++ option_list (line_range tl name line) ∧
       stored_event_str tl name st'.2
         = stored_event_str tl name st.2 ++ option_list (line_event_str tl name line) ∧
       stored_event_int tl name st'.2
         = stored_event_int tl name st.2 ++ option_list (line_event_int tl name line)) ∧
    ∀ name, dget name (ctable st'.1) =
      match line_color name line with Some c => Some c | None => dget name (ctable st.1) end.
Proof.
  destruct st as [cs ts]. unfold line_range, line_event_str, line_event_int, line_color, read_line.
  destruct (match_line line) as [m|] eqn:Hm.
  2:{ eexists. split; [done|]. split; [|done]. intros. by rewrite !app_nil_r. }
  apply match_line_numbers in Hm. unfold numbers_ok, number_in in Hm.
  destruct m as [tl name v s e|tl name v a|tl name v a|name cr cg cb].
  - destruct Hm as [-> ->]. eexists. split; [done|]. split; [|done]. intros tl' name'. cbn [snd].
    destruct (stored_on_range tl name tl' name' (MkRange (digits_val 10 s) (digits_val 10 e) v) ts)
      as (-> & -> & ->). case_decide; by rewrite !app_nil_r.
  - rewrite Hm. eexists. split; [done|]. split; [|done]. intros tl' name'. cbn [snd].
    destruct (stored_on_event_str tl name tl' name' (MkEvent (digits_val 10 a) v) ts)
      as (-> & -> & ->). case_decide; by rewrite !app_nil_r.
  - destruct Hm as [-> ->]. eexists. split; [done|]. split; [|done]. intros tl' name'. cbn [snd].
    destruct (stored_on_event_int tl name tl' name' (MkEvent (digits_val 10 a) (digits_val 10 v)) ts)
      as (-> & -> & ->). case_decide; by rewrite !app_nil_r.
  - destruct Hm as (-> & -> & ->). eexists. split; [done|].
    split; [intros; by rewrite !app_nil_r|]. intros name'. cbn [fst ctable add_color].
    rewrite dget_set. by repeat case_decide; subst.
Qed.

Lemma omap_option_list {A B} (f : A → option B) x l : omap f (x :: l) = option_list (f x) ++ omap f l.
Proof. cbn. by destruct (f x). Qed.

Lemma read_lines_ok (lines : list pystr) (st : Colors D * Timelines) :
  ∃ st', fold_res read_line st lines = Ok st' ∧
    (∀ tl name,
       stored_ranges tl name st'.2 = stored_ranges tl name st.2 ++ omap (line_range tl name) lines ∧
       stored_event_str tl name st'.2
         = stored_event_str tl name st.2 ++ omap (line_event_str tl name) lines ∧
       stored_event_int tl name st'.2
         = stored_event_int tl name st.2 ++ omap (line_event_int tl name) lines) ∧
    ∀ name, dget name (ctable st'.1) =
      match last (omap (line_color name) lines) with
      | Some c => Some c
      | None => dget name (ctable st.1)
      end.
Proof.
  revert st. induction lines as [|line lines IH]; intros st.
  { exists st. split; [done|]. split; [|done]. intros. by rewrite !app_nil_r. }
  cbn [fold_res]. destruct (read_line_ok st line) as (st1 & -> & Hs1 & Hc1).
  destruct (IH st1) as (st' & -> & Hs & Hc). exists st'. split; [done|]. split.
  - intros tl name. destruct (Hs1 tl name) as (E1 & E2 & E3), (Hs tl name) as (-> & -> & ->).
    rewrite E1, E2, E3, <-!app_assoc. by rewrite !omap_option_list.
  - intros name. rewrite Hc, omap_option_list, last_app, Hc1.
    destruct (last (omap _ lines)); [done|]. by destruct (line_color name line).
Qed.
End reading.

(** ** Properties *)

(** On ordered ranges the binary search of [get_ranges] ends without an
    exception.  When one end of the window is in a range, the result is a
    contiguous part of the list with every range that meets the inside of the
    window; when both ends fall in gaps the result is empty, whatever lies
    between them. *)
Theorem get_ranges_selects t start end_ :
  ranges_ok (rranges t) →
  ∃ l, ranges_get_ranges start end_ t = Some (Ok l) ∧
    (covered_by (rranges t) start ∨ covered_by (rranges t) end_ →
       (∃ pre post, rranges t = pre ++ l ++ post) ∧
       ∀ r, r ∈ rranges t → (inject_Z (rstart r) < nq end_)%Q → (nq start < inject_Z (rend r))%Q →
            r ∈ l) ∧
    (¬ covered_by (rranges t) start → ¬ covered_by (rranges t) end_ → l = []).
Proof.
  intros Hok.
  destruct (ranges_search_ok t start Hok) as (s & Hs1 & _), (ranges_search_ok t end_ Hok) as (e & He1 & _).
  pose proof (ranges_get_ranges_eq _ _ _ _ _ Hs1 He1) as Hl. eexists. split; [exact Hl|]. split.
  - intros Hcov. destruct (get_ranges_covered t start end_ Hok Hcov) as (a & b & Hab & Hin).
    rewrite Hl in Hab. injection Hab as ->. split.
    + set (n := length (rranges t)). set (a' := Nat.min a n). set (b' := Nat.min b n).
      exists (take a' (rranges t)), (drop (b' - a') (drop a' (rranges t))).
      unfold py_slice, slice_pos. rewrite !(proj2 (Z.ltb_ge _ _)), !Nat2Z.id by lia.
      fold n a' b'. by rewrite take_drop, take_drop.
    + intros r' [i Hi]%list_elem_of_lookup H1%Zlt_nq H2%nq_ltZ. apply py_slice_elem. exists i. eauto.
  - intros H1 H2. pose proof (get_ranges_in_gaps t start end_ Hok H1 H2) as Hnil.
    rewrite Hl in Hnil. by injection Hnil.
Qed.

(** On events at increasing times, [get_events] returns exactly the events
    from [start] to [end] and, when none is at [end], the first event after it
    as well. *)
Theorem get_events_selects {V} (t : TimelineEvent V) start end_ :
  events_strict (eevents t) → (nq start <= nq end_)%Q →
  ∃ l, get_events start end_ t = Some (Ok l) ∧
    (∀ e, e ∈ eevents t → (nq start <= inject_Z (at_ e) <= nq end_)%Q → e ∈ l) ∧
    (∀ i e, l !! i = Some e → e ∈ eevents t ∧ (nq start <= inject_Z (at_ e))%Q ∧
       ((inject_Z (at_ e) <= nq end_)%Q ∨ S i = length l ∧ ∀ e', e' ∈ eevents t → ¬ at_key end_ e')) ∧
    ((∀ e, e ∈ eevents t → ¬ at_key end_ e) → (∃ e, e ∈ eevents t ∧ (nq end_ < inject_Z (at_ e))%Q) →
       ∃ e, last l = Some e ∧ (nq end_ < inject_Z (at_ e))%Q).
Proof.
  intros Hs Hse. destruct (get_events_slice t start end_ Hs) as (a & b & Hl & Ha & Hb).
  eexists. split; [exact Hl|]. set (es := eevents t) in *. set (l := py_slice _ _ _).
  pose proof (nfloor_ceil end_) as Hfc. apply Qceiling_resp_le in Hse. fold (nceil start) (nceil end_) in Hse.
  assert (∀ i e, l !! i = Some e ↔ es !! (a + i)%nat = Some e ∧ (a + i < S b)%nat) as Hlk
    by (intros; apply py_slice_lookup).
  split_and!.
  - intros e [j Hj]%list_elem_of_lookup [H1%nq_leZ H2%Zle_nq]. apply py_slice_elem. exists j. split; [done|].
    pose proof (Ha j e Hj). split; [lia|].
    by apply (not_after_end es b end_ j e Hs Hb).
  - intros i e [Hi Hib]%Hlk. split; [by apply list_elem_of_lookup_2 in Hi|].
    pose proof (Ha _ e Hi). rewrite nq_leZ, Zle_nq. split; [lia|].
    destruct (Z.le_gt_cases (at_ e) (nfloor end_)) as [|Hgt]; [by left|right].
    assert (a + i = b)%nat as Hab by (pose proof (Hb _ e Hi); lia). rewrite Hab in Hi.
    destruct (slice_last es a b e Hi) as [_ Hlen]; [lia|]. fold l in Hlen. split; [lia|].
    intros e' [j Hj]%list_elem_of_lookup Hat%at_key_Z. pose proof (Hb j e' Hj). pose proof (Hb b e Hi).
    destruct (Nat.lt_trichotomy j b) as [?|[->|?]]; [lia|simplify_eq; lia|].
    pose proof (Hs b j e e' Hi Hj). lia.
  - intros Hno (e & [j Hj]%list_elem_of_lookup & He%nq_ltZ). pose proof (Hb j e Hj).
    destruct (lookup_lt_is_Some_2 es b) as [eb Heb]; [apply lookup_lt_Some in Hj; lia|].
    pose proof (Hno eb (list_elem_of_lookup_2 _ _ _ Heb)) as Hne. rewrite at_key_Z in Hne.
    pose proof (Hb b eb Heb). pose proof (Ha b eb Heb).
    destruct (slice_last es a b eb Heb) as [Hl1 Hl2]; [lia|]. fold l in Hl1, Hl2.
    exists eb. rewrite last_lookup, Hl2, nq_ltZ. split; [done|lia].
Qed.

Section reading_properties.
Context {D : Type → Type} `{DictLaws pystr D}.

(** C34: [read_data] raises nothing on any file.  The ranges and events stored
    under a pair of names are those of the matching lines, in file order, and
    then sorted; a color is that of the last line that names it. *)
Theorem read_data_correct (lines : list pystr) :
  ∃ colors ts, read_data lines = Ok (colors : Colors D, ts) ∧
    (∀ tl name,
       stored_ranges tl name ts = sort_by ranges_cmp (omap (line_range tl name) lines) ∧
       stored_event_str tl name ts = sort_by events_cmp (omap (line_event_str tl name) lines) ∧
       stored_event_int tl name ts = sort_by events_cmp (omap (line_event_int tl name) lines)) ∧
    ∀ name, dget name (ctable colors) = last (omap (line_color name) lines).
Proof.
  unfold read_data. destruct (read_lines_ok lines (new_Colors, [])) as ([cs ts] & -> & Hs & Hc).
  eexists _, _. split; [done|]. split.
  - intros tl name. destruct (stored_sort tl name ts) as (-> & -> & ->).
    destruct (Hs tl name) as (E1 & E2 & E3). cbn [snd] in E1, E2, E3. by rewrite E1, E2, E3.
  - intros name. specialize (Hc name). cbn [fst] in Hc. rewrite Hc. cbn [fst ctable new_Colors]. rewrite dget_empty. by destruct (last _).
Qed.
End reading_properties.

(** [list.sort] with [ranges_cmp] and [events_cmp] sorts by start and by
    time, keeps the elements, and keeps the order of those at the same time. *)
Theorem timeline_sorts_stable {V} (rs : list DataRange) (es : list (Event V)) :
  (sort_by ranges_cmp rs ≡ₚ rs ∧ StronglySorted (λ a b, rstart a <= rstart b) (sort_by ranges_cmp rs) ∧
   ∀ k, filter (λ x, rstart x = k) (sort_by ranges_cmp rs) = filter (λ x, rstart x = k) rs) ∧
  (sort_by events_cmp es ≡ₚ es ∧ StronglySorted (λ a b, at_ a <= at_ b) (sort_by events_cmp es) ∧
   ∀ k, filter (λ x, at_ x = k) (sort_by events_cmp es) = filter (λ x, at_ x = k) es).
Proof.
  split; (split_and!; [apply sort_by_perm|apply sort_by_sorted|intros; apply sort_by_stable]); done.
Qed.

(** ** Bounds *)

(** [b] encloses [b']. *)
Definition encloses (b b' : Z * Z) : Prop := b.1 <= b'.1 ∧ b'.2 <= b.2.

Lemma widen_encloses b b' : encloses (widen b b') b ∧ encloses (widen b b') b'.
Proof.
  destruct b as [lo hi], b' as [lo' hi']. unfold encloses, widen. cbn.
  destruct (Z.ltb_spec lo' lo), (Z.ltb_spec hi hi'); cbn; lia.
Qed.

Lemma encloses_trans b1 b2 b3 : encloses b1 b2 → encloses b2 b3 → encloses b1 b3.
Proof. unfold encloses. lia. Qed.

Lemma widen_fold {A} (f : A → Z * Z) l b0 :
  encloses (foldl (λ b x, widen b (f x)) b0 l) b0 ∧
  ∀ x, x ∈ l → encloses (foldl (λ b x, widen b (f x)) b0 l) (f x).
Proof.
  revert b0. induction l as [|y l IH]; intros b0; cbn.
  - split; [unfold encloses; lia|by intros ? ?%elem_of_nil].
  - destruct (IH (widen b0 (f y))) as [H1 H2], (widen_encloses b0 (f y)) as [H3 H4].
    split; [by eapply encloses_trans|].
    intros x [->|Hx]%elem_of_cons; [by eapply encloses_trans|auto].
Qed.

Lemma ranges_get_bounds_encloses t r' :
  ranges_ok (rranges t) → r' ∈ rranges t → encloses (ranges_get_bounds t) (rstart r', rend r').
Proof.
  intros [Hle Hord] [i Hi]%list_elem_of_lookup. unfold ranges_get_bounds.
  destruct (rranges t) as [|lo l] eqn:Hrs; [done|]. rewrite <-Hrs in *.
  destruct (last (rranges t)) as [hi|] eqn:Hhi; [|apply last_None in Hhi; congruence].
  rewrite last_lookup in Hhi. unfold encloses. cbn. assert (rranges t !! 0%nat = Some lo) as Hlo by by rewrite Hrs.
  split.
  - destruct i as [|i]; [by simplify_eq|].
    pose proof (Hord 0%nat (S i) lo r' Hlo Hi). pose proof (Hle _ _ Hlo). lia.
  - apply lookup_lt_Some in Hi as Hlt. destruct (decide (i = pred (length (rranges t)))) as [->|Hne].
    + by simplify_eq.
    + pose proof (Hord i _ r' hi Hi Hhi). pose proof (Hle _ _ Hhi). lia.
Qed.

Lemma events_get_bounds_encloses {V} (t : TimelineEvent V) e :
  events_ok (eevents t) → e ∈ eevents t → encloses (events_get_bounds t) (at_ e, at_ e).
Proof.
  intros Hord [i Hi]%list_elem_of_lookup. unfold events_get_bounds. rewrite py_get_last.
  destruct (eevents t) as [|lo l] eqn:Hes; [done|]. rewrite <-Hes in *.
  destruct (last (eevents t)) as [hi|] eqn:Hhi; [|apply last_None in Hhi; congruence].
  rewrite last_lookup in Hhi. unfold encloses. cbn. assert (eevents t !! 0%nat = Some lo) as Hlo by by rewrite Hes.
  apply lookup_lt_Some in Hi as Hlt. split.
  - destruct i as [|i]; [by simplify_eq|]. apply (Hord 0%nat (S i) lo e Hlo Hi). lia.
  - destruct (decide (i = pred (length (eevents t)))) as [->|Hne]; [by simplify_eq|].
    apply (Hord i _ e hi Hi Hhi). lia.
Qed.

Definition timeline_ok (t : Timeline) : Prop :=
  Forall (λ rs, ranges_ok (rranges rs)) (ranges t) ∧
  Forall (λ es, events_ok (eevents es)) (event_str t) ∧
  Forall (λ es, events_ok (eevents es)) (event_int t).

Lemma timeline_get_bounds_encloses t :
  encloses (timeline_get_bounds t) (0, 0) ∧
  (∀ rs, rs ∈ ranges t → encloses (timeline_get_bounds t) (ranges_get_bounds rs)) ∧
  (∀ es, es ∈ event_str t → encloses (timeline_get_bounds t) (events_get_bounds es)) ∧
  (∀ es, es ∈ event_int t → encloses (timeline_get_bounds t) (events_get_bounds es)).
Proof.
  unfold timeline_get_bounds. set (b1 := foldl _ (0, 0) _). set (b2 := foldl _ b1 _).
  destruct (widen_fold ranges_get_bounds (ranges t) (0, 0)) as [H1 H1'].
  destruct (widen_fold events_get_bounds (event_str t) b1) as [H2 H2'].
  destruct (widen_fold events_get_bounds (event_int t) b2) as [H3 H3'].
  fold b1 in H1, H1'. fold b2 in H2, H2'.
  split_and!; eauto 6 using encloses_trans.
Qed.

(** The bounds of the timelines contain 0, every event time, and both ends
    of every range, when the lists are in order. *)
Theorem timelines_bounds_enclose ts :
  Forall timeline_ok ts →
  let '(lo, hi) := timelines_get_bounds ts in
  lo <= 0 <= hi ∧
  ∀ t, t ∈ ts →
    (∀ rs r, rs ∈ ranges t → r ∈ rranges rs → lo <= rstart r ∧ rend r <= hi) ∧
    (∀ es e, es ∈ event_str t → e ∈ eevents es → lo <= at_ e <= hi) ∧
    (∀ es e, es ∈ event_int t → e ∈ eevents es → lo <= at_ e <= hi).
Proof.
  intros Hok. destruct (timelines_get_bounds ts) as [lo hi] eqn:Hb.
  destruct (widen_fold timeline_get_bounds ts (0, 0)) as [H0 Hts].
  fold (timelines_get_bounds ts) in H0, Hts. rewrite Hb in H0, Hts.
  split; [unfold encloses in H0; cbn in H0; lia|].
  intros t Ht. rewrite Forall_forall in Hok. destruct (Hok t Ht) as (Hr & Hs & Hi).
  rewrite Forall_forall in Hr. rewrite Forall_forall in Hs. rewrite Forall_forall in Hi.
  specialize (Hts t Ht). destruct (timeline_get_bounds_encloses t) as (_ & Br & Bs & Bi).
  split_and!.
  - intros rs r' Hrs Hr'. pose proof (encloses_trans _ _ _ (encloses_trans _ _ _ Hts (Br rs Hrs))
      (ranges_get_bounds_encloses rs r' (Hr rs Hrs) Hr')) as He. unfold encloses in He. cbn in He. lia.
  - intros es e Hes He. pose proof (encloses_trans _ _ _ (encloses_trans _ _ _ Hts (Bs es Hes))
      (events_get_bounds_encloses es e (Hs es Hes) He)) as Hx. unfold encloses in Hx. cbn in Hx. lia.
  - intros es e Hes He. pose proof (encloses_trans _ _ _ (encloses_trans _ _ _ Hts (Bi es Hes))
      (events_get_bounds_encloses es e (Hi es Hes) He)) as Hx. unfold encloses in Hx. cbn in Hx. lia.
Qed.

(** ** Witnesses and examples *)

Definition sample_ranges : TimelineDataRange :=
  MkRanges (str "state") [MkRange 0 10 (str "a"); MkRange 10 20 (str "b"); MkRange 30 40 (str "c")].

Lemma sample_ranges_ok : ranges_ok (rranges sample_ranges).
Proof.
  split.
  - intros [|[|[|]]] r' Hr; cbn in Hr; simplify_eq; cbn; lia.
  - intros [|[|[|]]] [|[|[|]]] r' r2 Hr Hr2; cbn in Hr, Hr2; simplify_eq; cbn; lia.
Qed.

Lemma get_ranges_selects_witness :
  ∃ l, ranges_get_ranges (PInt 5) (PInt 25) sample_ranges = Some (Ok l) ∧
    (covered_by (rranges sample_ranges) (PInt 5) ∨ covered_by (rranges sample_ranges) (PInt 25) →
       (∃ pre post, rranges sample_ranges = pre ++ l ++ post) ∧
       ∀ r, r ∈ rranges sample_ranges → (inject_Z (rstart r) < inject_Z 25)%Q →
            (inject_Z 5 < inject_Z (rend r))%Q → r ∈ l) ∧
    (¬ covered_by (rranges sample_ranges) (PInt 5) → ¬ covered_by (rranges sample_ranges) (PInt 25) → l = []).
Proof. apply (get_ranges_selects sample_ranges (PInt 5) (PInt 25)). apply sample_ranges_ok. Defined.

(** A range strictly inside the window is lost when both ends fall in gaps. *)
Example get_ranges_loses_inside :
  ranges_get_ranges (PInt 25) (PInt 50) sample_ranges = Some (Ok []) ∧
  ranges_get_ranges (PInt 25) (PInt 35) sample_ranges = Some (Ok (rranges sample_ranges)).
Proof. split; vm_compute; reflexivity. Qed.

Definition sample_events : TimelineEvent Z :=
  MkEvents (str "tx") [MkEvent 10 1; MkEvent 20 2; MkEvent 30 3].

Lemma sample_events_strict : events_strict (eevents sample_events).
Proof. intros [|[|[|]]] [|[|[|]]] e e' He He'; cbn in He, He'; simplify_eq; cbn; lia. Qed.

(** The event at 30 is returned for the window up to 25. *)
Lemma get_events_selects_witness :
  get_events (PInt 15) (PInt 25) sample_events = Some (Ok [MkEvent 20 2; MkEvent 30 3]) ∧
  ∃ l, get_events (PInt 15) (PInt 25) sample_events = Some (Ok l) ∧
    (∀ e, e ∈ eevents sample_events → (inject_Z 15 <= inject_Z (at_ e) <= inject_Z 25)%Q → e ∈ l).
Proof.
  split; [vm_compute; reflexivity|].
  destruct (get_events_selects sample_events (PInt 15) (PInt 25) sample_events_strict) as (l & ? & ? & _);
    [vm_compute; discriminate|].
  exists l. split; assumption.
Defined.

Lemma read_data_correct_witness :
  ∃ colors ts, read_data [str "range n0 state busy 20 30"; str "color busy #ff0000";
                          str "range n0 state idle 0 20"] = Ok (colors : Colors (PyDict pystr), ts) ∧
    stored_ranges (str "n0") (str "state") ts = [MkRange 0 20 (str "idle"); MkRange 20 30 (str "busy")].
Proof.
  destruct (read_data_correct (D := PyDict pystr)
    [str "range n0 state busy 20 30"; str "color busy #ff0000"; str "range n0 state idle 0 20"])
    as (colors & ts & Hr & Hs & _).
  exists colors, ts. split; [exact Hr|]. destruct (Hs (str "n0") (str "state")) as (-> & _).
  vm_compute. reflexivity.
Defined.

Lemma timelines_bounds_enclose_witness :
  let ts := [MkTimeline (str "n0") [sample_ranges] [] [sample_events]] in
  let '(lo, hi) := timelines_get_bounds ts in
  lo <= 0 <= hi ∧
  ∀ t, t ∈ ts →
    (∀ rs r, rs ∈ ranges t → r ∈ rranges rs → lo <= rstart r ∧ rend r <= hi) ∧
    (∀ es e, es ∈ event_str t → e ∈ eevents es → lo <= at_ e <= hi) ∧
    (∀ es e, es ∈ event_int t → e ∈ eevents es → lo <= at_ e <= hi).
Proof.
  apply (timelines_bounds_enclose [MkTimeline (str "n0") [sample_ranges] [] [sample_events]]).
  apply Forall_singleton. split_and!; [|constructor|]; apply Forall_singleton.
  - apply sample_ranges_ok.
  - apply events_strict_ok, sample_events_strict.
Defined.

(** A color component below 255 becomes 0: the division is between integers. *)
Example read_color_truncates :
  line_color (str "busy") (str "color busy #fe80ff") = Some (MkColor 0 0 1).
Proof. vm_compute. reflexivity. Qed.

(** The seventh new name finds no default color. *)
Example lookup_color_runs_out :
  fold_res (λ cs name, r ← lookup_color (D := PyDict pystr) name cs; Ok r.2) new_Colors
    [str "a"; str "b"; str "c"; str "d"; str "e"; str "f"; str "g"] = Raise IndexError.
Proof. vm_compute. reflexivity. Qed.

(** The searches end on any list, sorted or not. *)
Lemma ranges_search_ends t key : is_Some (ranges_search key t).
Proof.
  unfold ranges_search. assert (∀ fuel l u, 0 <= l → u - l < Z.of_nat fuel →
    is_Some (ranges_search_loop fuel (rranges t) key l u)) as Hloop; [|apply Hloop; lia].
  induction fuel as [|fuel IH]; intros l u Hl Hu; cbn [ranges_search_loop];
    destruct (Z.leb_spec l u); try lia; eauto.
  destruct (midpoint l u) as (i & -> & Hi); [lia..|]. cbn zeta.
  destruct (py_get _ _); [|eauto]. repeat case_match; eauto; apply IH; lia.
Qed.

Lemma events_search_ends {V} (t : TimelineEvent V) key : is_Some (events_search key t).
Proof.
  unfold events_search. assert (∀ fuel l u, 0 <= l → u - l < Z.of_nat fuel →
    is_Some (events_search_loop fuel (eevents t) key l u)) as Hloop; [|apply Hloop; lia].
  induction fuel as [|fuel IH]; intros l u Hl Hu; cbn [events_search_loop];
    destruct (Z.leb_spec l u); try lia; eauto.
  destruct (midpoint l u) as (i & -> & Hi); [lia..|]. cbn zeta.
  destruct (py_get _ _); [|eauto]. repeat case_match; eauto; apply IH; lia.
Qed.
