(* ===== verification/Renderer.v ===== *)
(** * Models the renderers of utils/grid.py

    [TopLegendRenderer], [TimelinesRenderer] and [ScaleRenderer]: layout, and
    drawing as the list of calls made on the cairo context.  The size of a text
    is a parameter.  A Python attribute that is only set by some method is an
    option, and reading it before that raises [AttributeError]. *)
From Stdlib Require Import Ascii.
From S2P Require Export Timeline.
Open Scope Z_scope.

(** Calls on a cairo context.  [DrawText] is [show_text]. *)
Inductive draw_op : Type :=
  | Rectangle (x y width height : num)
  | SetSourceRgb (r g b : num)
  | SetLineWidth (w : num)
  | SetOperatorSource
  | SetDash (dash : num)
  | Stroke | StrokePreserve | Fill | ClosePath | Save | RestoreCtx
  | MoveTo (x y : num)
  | LineTo (x y : num)
  | RelLineTo (x y : num)
  | Translate (x y : num)
  | DrawText (text : pystr).

(** The second, third and fourth values of [text_extents]. *)
Record extents := MkExtents { y_bearing : num; t_width : num; t_height : num }.

Definition attr {A} (a : option A) : res exn A := res_of_option AttributeError a.

Definition alphabet : pystr :=
  str "ABCDEFGHIJKLMNOPQRSTUVWXYZabcedefghijklmnopqrstuvwxyz0123456789".
Definition grey : num := PFloat (9 # 10).

Definition black : draw_op := SetSourceRgb (PInt 0) (PInt 0) (PInt 0).

Section rendering.
Context (text_extents : pystr → extents).
Context {D : Type → Type} `{DictLaws pystr D}.

(** ** [TopLegendRenderer] *)

Record TopLegendRenderer := MkLegend {
  lpadding : num;
  llegends : option (list pystr);
  lcolors : option (list Color);
  lwidth : option num;
  lheight : option num;
}.
Definition new_TopLegendRenderer : TopLegendRenderer := MkLegend (PInt 10) None None None None.
Definition set_padding (padding : num) (l : TopLegendRenderer) : TopLegendRenderer :=
  MkLegend padding (llegends l) (lcolors l) (lwidth l) (lheight l).
Definition set_legends (legends : list pystr) (colors : list Color) (l : TopLegendRenderer)
    : TopLegendRenderer :=
  MkLegend (lpadding l) (Some legends) (Some colors) (lwidth l) (lheight l).
Definition legend_get_height (l : TopLegendRenderer) : res exn num := attr (lheight l).

(** The loop shared by [layout] and [draw]: the height of the tallest item so
    far, the top of the current row, and the width used in it. *)
Record legend_state := MkLegendState { line_height : num; total_height : num; line_used : num }.

Definition item_width (padding : num) (legend : pystr) : num :=
  nadd (nadd (nadd padding padding) (t_width (text_extents legend))) padding.
Definition item_height (padding : num) (legend : pystr) : num :=
  nadd (t_height (text_extents legend)) padding.

Definition legend_step (padding width : num) (s : legend_state) (legend : pystr) : legend_state :=
  let line_height := if nlt (line_height s) (item_height padding legend) then item_height padding legend
                     else line_height s in
  if nlt width (nadd (line_used s) (item_width padding legend))
  then MkLegendState line_height (nadd (total_height s) line_height)
                     (nadd padding (item_width padding legend))
  else MkLegendState line_height (total_height s) (nadd (line_used s) (item_width padding legend)).

Definition legend_start (padding : num) : legend_state := MkLegendState (PInt 0) padding padding.

Definition legend_layout (width : num) (l : TopLegendRenderer) : res exn TopLegendRenderer :=
  legends ← attr (llegends l);
  let s := foldl (legend_step (lpadding l) width) (legend_start (lpadding l)) legends in
  Ok (MkLegend (lpadding l) (llegends l) (lcolors l) (Some width)
               (Some (nadd (total_height s) (line_height s)))).

(** Where an item goes: its left edge and its top. *)
Definition item_place (padding width : num) (s : legend_state) (legend : pystr)
    : num * num * legend_state :=
  let s := legend_step padding width s legend in
  (nsub (line_used s) (item_width padding legend), total_height s, s).

Definition draw_item (padding : num) (x y : num) (color : Color) (legend : pystr) : list draw_op :=
  [Rectangle x y padding padding; black; SetLineWidth (PInt 2); StrokePreserve;
   SetSourceRgb (PInt (r color)) (PInt (g color)) (PInt (b color)); Fill;
   MoveTo (nadd x (nmul padding (PInt 2))) (nadd y (t_height (text_extents legend)));
   black; DrawText legend].

Fixpoint draw_items (padding width : num) (colors : list Color) (i : Z) (s : legend_state)
    (legends : list pystr) : res exn (list draw_op) :=
  match legends with
  | [] => Ok []
  | legend :: legends =>
      let '(x, y, s) := item_place padding width s legend in
      color ← res_of_option IndexError (py_get colors i);
      ops ← draw_items padding width colors (i + 1) s legends;
      Ok (draw_item padding x y color legend ++ ops)
  end.

Definition legend_draw (l : TopLegendRenderer) : res exn (list draw_op) :=
  legends ← attr (llegends l);
  match legends with
  | [] => Ok []
  | _ =>
      width ← attr (lwidth l);
      colors ← attr (lcolors l);
      draw_items (lpadding l) width colors 0 (legend_start (lpadding l)) legends
  end.

(** ** [ScaleRenderer] *)

Record ScaleRenderer := MkScale {
  top : Z;
  lo : option num;
  hi : option num;
  delta : option num;
  scale_width : option num;
  scale_height : option num;
}.
Definition new_ScaleRenderer : ScaleRenderer := MkScale 0 None None None None None.
Definition set_bounds (l h : num) (s : ScaleRenderer) : ScaleRenderer :=
  MkScale (top s) (Some l) (Some h) (delta s) (scale_width s) (scale_height s).
Definition set_top (s : ScaleRenderer) : ScaleRenderer :=
  MkScale 1 (lo s) (hi s) (delta s) (scale_width s) (scale_height s).
Definition set_bot (s : ScaleRenderer) : ScaleRenderer :=
  MkScale 0 (lo s) (hi s) (delta s) (scale_width s) (scale_height s).

(** [(x - lo) * width / (hi - lo)] *)
Definition position (x l h width : num) : res exn num := ndiv (nmul (nsub x l) width) (nsub h l).
Definition get_position (x : num) (s : ScaleRenderer) : res exn num :=
  l ← attr (lo s); width ← attr (scale_width s); h ← attr (hi s);
  position x l h width.

(** [while (closest*10) < data_delta: closest *= 10] *)
Fixpoint closest_loop (fuel : nat) (data_delta : num) (closest : Z) : option Z :=
  if nlt (PInt (closest * 10)) data_delta then
    match fuel with
    | O => None
    | S fuel => closest_loop fuel data_delta (closest * 10)
    end
  else Some closest.
Definition closest_fuel (data_delta : num) : nat := S (Z.to_nat (Z.log2 (nceil data_delta))).

Definition choose_delta (data_delta : num) (closest : Z) : res exn num :=
  q ← ndiv data_delta (PInt closest);
  if neqb q (PInt 0) then Ok (PInt closest)
  else if neqb q (PInt 1) then ndiv (PInt closest) (PInt 10)
  else Ok (PInt closest).

(** The first and the last tick. *)
Definition tick_bounds (l h delta : num) : res exn (num * num) :=
  ml ← nmod l delta;
  mh ← nmod h delta;
  Ok (nadd (nsub l ml) delta, nsub h mh).

Definition scale_layout (width : num) (s : ScaleRenderer) : option (res exn ScaleRenderer) :=
  match hi s, lo s with
  | Some h, Some l =>
      closest ← closest_loop (closest_fuel (nsub h l)) (nsub h l) 1;
      Some (delta ← choose_delta (nsub h l) closest;
            _ ← tick_bounds l h delta;
            Ok (MkScale (top s) (lo s) (hi s) (Some delta) (Some width)
                        (Some (nadd (t_height (text_extents alphabet)) (PInt 10)))))
  | _, _ => Some (Raise AttributeError)
  end.
Definition scale_get_height (s : ScaleRenderer) : res exn num := attr (scale_height s).

(** [range(start, stop, step)]; a step of zero is a [ValueError]. *)
Definition py_range (start stop step : Z) : res exn (list Z) :=
  if step =? 0 then Raise ValueError
  else
    let n := if 0 <? step then (stop - start + step - 1) / step
             else (start - stop - step - 1) / (- step) in
    Ok ((λ i, start + Z.of_nat i * step) <$> seq 0 (Z.to_nat n)).

Definition tick_ops (x : num) (len : Z) : list draw_op :=
  [MoveTo x (PInt 0); LineTo x (PInt len); ClosePath; Stroke].

Definition draw_tick (tp : Z) (l h width : num) (sgn : Z) (x : Z) : res exn (list draw_op) :=
  real_x ← position (PInt x) l h width;
  let e := text_extents (str_of_Z x) in
  let text_delta := if tp =? 0 then nneg (y_bearing e) else nadd (t_height e) (y_bearing e) in
  half ← ndiv (t_width e) (PInt 2);
  Ok (tick_ops real_x (5 * sgn)
      ++ [MoveTo (nsub real_x half) (nmul (nadd (PInt (5 + 5)) text_delta) (PInt sgn));
          DrawText (str_of_Z x)]).

Definition draw_subtick (l h width : num) (sgn : Z) (x : Z) : res exn (list draw_op) :=
  real_x ← position (PInt x) l h width;
  Ok (tick_ops real_x (3 * sgn)).

Definition concat_ops {A} (f : A → res exn (list draw_op)) (l : list A) : res exn (list draw_op) :=
  fold_res (λ ops x, o ← f x; Ok (ops ++ o)) [] l.

Definition scale_draw (s : ScaleRenderer) : res exn (list draw_op) :=
  delta ← attr (delta s); l ← attr (lo s); h ← attr (hi s); width ← attr (scale_width s);
  '(start, end_) ← tick_bounds l h delta;
  let sgn := if top s =? 1 then -1 else 1 in
  ticks ← py_range (nint start) (nint (nadd end_ delta)) (nint delta);
  ops ← concat_ops (draw_tick (top s) l h width sgn) ticks;
  sub ← ndiv delta (PInt 10);
  if nlt (PInt 0) sub then
    '(start, end_) ← tick_bounds l h sub;
    subticks ← py_range (nint start) (nint (nadd end_ sub)) (nint sub);
    sub_ops ← concat_ops (draw_subtick l h width sgn) subticks;
    Ok ([black; SetLineWidth (PFloat 1)] ++ ops ++ sub_ops)
  else Ok ([black; SetLineWidth (PFloat 1)] ++ ops).

(** ** [TimelinesRenderer] *)

Record TimelinesRenderer := MkTR {
  padding : num;
  timelines : option Timelines;
  colors : option (Colors D);
  start : option num;
  end_ : option num;
  left_width : option num;
  right_width : option num;
  max_text_height : option num;
  width : option num;
  height : option num;
  grey_background : option Z;
}.
Definition new_TimelinesRenderer : TimelinesRenderer :=
  MkTR (PInt 10) None None None None None None None None None None.
Definition tr_get_height (t : TimelinesRenderer) : res exn num := attr (height t).
Definition set_timelines (ts : Timelines) (cs : Colors D) (t : TimelinesRenderer) : TimelinesRenderer :=
  MkTR (padding t) (Some ts) (Some cs) (start t) (end_ t) (left_width t) (right_width t)
       (max_text_height t) (width t) (height t) (grey_background t).
Definition set_render_range (s e : num) (t : TimelinesRenderer) : TimelinesRenderer :=
  MkTR (padding t) (timelines t) (colors t) (Some s) (Some e) (left_width t) (right_width t)
       (max_text_height t) (width t) (height t) (grey_background t).
Definition set_colors (cs : Colors D) (t : TimelinesRenderer) : TimelinesRenderer :=
  MkTR (padding t) (timelines t) (Some cs) (start t) (end_ t) (left_width t) (right_width t)
       (max_text_height t) (width t) (height t) (grey_background t).
Definition set_grey (g : Z) (t : TimelinesRenderer) : TimelinesRenderer :=
  MkTR (padding t) (timelines t) (colors t) (start t) (end_ t) (left_width t) (right_width t)
       (max_text_height t) (width t) (height t) (Some g).

Definition half (a : num) : res exn num := ndiv a (PInt 2).

Definition get_data_x_start (t : TimelinesRenderer) : res exn num :=
  p2 ← half (padding t);
  lw ← attr (left_width t);
  rw ← attr (right_width t);
  Ok (nadd (nadd (nadd (nadd p2 lw) (padding t)) rw) p2).

(** The widest of the texts, starting from [w]. *)
Definition widest (w : num) (names : list pystr) : num :=
  foldl (λ w name, nmax w (t_width (text_extents name))) w names.

(** The numbers of lines counted by [layout]. *)
Definition count_entries {A} (f : Timeline → list A) (ts : Timelines) : Z :=
  foldl (λ n t, n + Z.of_nat (length (f t))) 0 ts.

Definition tr_layout (w : num) (t : TimelinesRenderer) : res exn TimelinesRenderer :=
  ts ← attr (timelines t);
  let mth := t_height (text_extents alphabet) in
  let lw := widest (PInt 0) (tname <$> ts) in
  let rw := foldl (λ rw tl, widest rw ((rname <$> ranges tl) ++ (ename <$> event_int tl)
                                         ++ (ename <$> event_str tl))) (PInt 0) ts in
  let left_n_lines := Z.of_nat (length ts) in
  let range_n := count_entries ranges ts in
  let event_n := count_entries event_int ts + count_entries event_str ts in
  let right_n_lines := range_n + event_n in
  let left_height := nadd (nmul (PInt left_n_lines) mth) (nmul (PInt (left_n_lines - 1)) (padding t)) in
  let right_height := nadd (nmul (PInt (right_n_lines - 1)) (padding t)) (nmul (PInt right_n_lines) mth) in
  let right_data_height := nadd (nadd (nmul (PInt event_n) (nadd mth (PInt 5))) (PInt (range_n * 10)))
                                (nmul (PInt (right_n_lines - 1)) (padding t)) in
  let h := nmax (nmax left_height right_height) right_data_height in
  Ok (MkTR (padding t) (timelines t) (colors t) (start t) (end_ t) (Some lw) (Some rw) (Some mth)
           (Some w) (Some (nadd h (padding t))) (grey_background t)).

(** Drawing threads the renderer and the list of calls. *)
Definition drawing : Type → Type := stm (TimelinesRenderer * list draw_op).
Definition emit (ops : list draw_op) : drawing unit := st_modify (λ s, (s.1, s.2 ++ ops)).
Definition self {A} (f : TimelinesRenderer → res exn A) : drawing A :=
  s ← st_get; st_lift (f s.1).
Definition update (f : TimelinesRenderer → TimelinesRenderer) : drawing unit :=
  st_modify (λ s, (f s.1, s.2)).

(** The searches always end ([events_search_ends], [ranges_search_ends]). *)
Definition searched {A} (o : option (res exn A)) : res exn A :=
  match o with Some r => r | None => Raise GenericException end.

Definition draw_line (x y w h : num) : drawing unit :=
  emit [MoveTo x y; RelLineTo w h; ClosePath; SetOperatorSource; SetLineWidth (PFloat 1); black; Stroke].

Definition draw_background (x y w h : num) : drawing unit :=
  g ← self (λ t, attr (grey_background t));
  if g mod 2 =? 0 then
    p ← self (λ t, Ok (padding t));
    p2 ← st_lift (half p);
    emit [Rectangle x (nsub y p2) w (nadd h p); SetSourceRgb grey grey grey; Fill]
  else mret tt.

Definition next_background : drawing unit :=
  g ← self (λ t, attr (grey_background t)); update (set_grey (g + 1)).

(** [x + (at - start) * width / (end - start)] *)
Definition data_x (x w s e at_ : num) : res exn num :=
  d ← ndiv (nmul (nsub at_ s) w) (nsub e s); Ok (nadd x d).

Definition draw_event {V} (show : V → pystr) (x y w : num) (last_x_drawn : Z) (ev : Event V) : drawing Z :=
  s ← self (λ t, attr (start t));
  e ← self (λ t, attr (end_ t));
  rx ← st_lift (data_x x w s e (PInt (at_ ev)));
  let real_x := nint rx in
  if last_x_drawn + 2 <? real_x then
    mth ← self (λ t, attr (max_text_height t));
    _ ← emit [Rectangle (PInt real_x) y (PInt 1) (PInt 1); SetSourceRgb (PInt 1) (PInt 0) (PInt 0); Stroke;
              MoveTo (PInt real_x) (nadd y mth); black; DrawText (show (evalue ev))];
    mret real_x
  else mret last_x_drawn.

Definition draw_events {V} (show : V → pystr) (events : TimelineEvent V) (x y w h : num) : drawing unit :=
  _ ← draw_background x y w h;
  s ← self (λ t, attr (start t));
  e ← self (λ t, attr (end_ t));
  '(l, u) ← st_lift (searched (get_events_bounds s e events));
  _ ← st_fold (draw_event show x y w) (nint x) (py_slice (eevents events) l u);
  next_background.

Definition draw_range (x y w : num) (last_x_drawn : Z) (dr : DataRange) : drawing Z :=
  rs ← self (λ t, attr (start t));
  re ← self (λ t, attr (end_ t));
  let s := nmax (PInt (rstart dr)) rs in
  let e := nmin (PInt (rend dr)) re in
  xs ← st_lift (data_x x w rs re s);
  xe ← st_lift (data_x x w rs re e);
  let x_start := nint xs in
  let x_end := nint xe in
  if last_x_drawn <? x_end then
    _ ← emit [Rectangle (PInt x_start) y (PInt (x_end - x_start)) (PInt 10); black; StrokePreserve];
    cs ← self (λ t, attr (colors t));
    '(c, cs) ← st_lift (lookup_color (rvalue dr) cs);
    _ ← update (set_colors cs);
    _ ← emit [SetSourceRgb (PInt (r c)) (PInt (g c)) (PInt (b c)); Fill];
    mret x_end
  else mret last_x_drawn.

Definition draw_ranges (rs : TimelineDataRange) (x y w h : num) : drawing unit :=
  _ ← draw_background x y w h;
  s ← self (λ t, attr (start t));
  e ← self (λ t, attr (end_ t));
  '(l, u) ← st_lift (searched (ranges_get_ranges_bounds s e rs));
  _ ← st_fold (draw_range x y w) (nint (nsub x (PInt 1))) (py_slice (rranges rs) l u);
  next_background.

(** A name with its base line at the height of the tallest text. *)
Definition draw_name (x cur_y : num) (name : pystr) : drawing unit :=
  mth ← self (λ t, attr (max_text_height t));
  let e := text_extents name in
  emit [MoveTo x (nsub (nadd cur_y mth) (nadd (t_height e) (y_bearing e))); DrawText name].

Definition separator (right_x_start cur_y : num) : drawing unit :=
  p ← self (λ t, Ok (padding t));
  p2 ← st_lift (half p);
  rw ← self (λ t, attr (right_width t));
  draw_line (nsub right_x_start p2) (nsub cur_y p2) (nadd rw p) (PInt 0).

Definition draw_event_entry {V} (show : V → pystr) (right_x_start data_x_start data_width : num)
    (cur_y : num) (events : TimelineEvent V) : drawing num :=
  _ ← draw_name right_x_start cur_y (ename events);
  mth ← self (λ t, attr (max_text_height t));
  _ ← draw_events show events data_x_start cur_y data_width (nadd mth (PInt 5));
  p ← self (λ t, Ok (padding t));
  let cur_y := nadd cur_y (nadd (nadd mth (PInt 5)) p) in
  _ ← separator right_x_start cur_y;
  mret cur_y.

Definition draw_range_entry (right_x_start data_x_start data_width : num) (cur_y : num)
    (rs : TimelineDataRange) : drawing num :=
  _ ← draw_name right_x_start cur_y (rname rs);
  _ ← draw_ranges rs data_x_start cur_y data_width (PInt 10);
  mth ← self (λ t, attr (max_text_height t));
  p ← self (λ t, Ok (padding t));
  let cur_y := nadd cur_y (nadd mth p) in
  _ ← separator right_x_start cur_y;
  mret cur_y.

Definition draw_timeline (left_x_start right_x_start data_x_start data_width w : num) (cur_y : num)
    (tl : Timeline) : drawing num :=
  _ ← draw_name left_x_start cur_y (tname tl);
  cur_y ← st_fold (draw_event_entry str_of_Z right_x_start data_x_start data_width) cur_y (event_int tl);
  cur_y ← st_fold (draw_event_entry id right_x_start data_x_start data_width) cur_y (event_str tl);
  cur_y ← st_fold (draw_range_entry right_x_start data_x_start data_width) cur_y (ranges tl);
  p ← self (λ t, Ok (padding t));
  p2 ← st_lift (half p);
  _ ← draw_line (PInt 0) (nsub cur_y p2) w (PInt 0);
  mret cur_y.

Definition tr_draw : drawing unit :=
  p ← self (λ t, Ok (padding t));
  p2 ← st_lift (half p);
  lw ← self (λ t, attr (left_width t));
  rw ← self (λ t, attr (right_width t));
  let left_x_end := nadd p2 lw in
  let right_x_start := nadd left_x_end p in
  let right_x_end := nadd right_x_start rw in
  let data_x_start := nadd right_x_end p2 in
  w ← self (λ t, attr (width t));
  let data_width := nsub w data_x_start in
  _ ← draw_line (PInt 0) (PInt 0) w (PInt 0);
  _ ← update (set_grey 1);
  ts ← self (λ t, attr (timelines t));
  cur_y ← st_fold (draw_timeline p2 right_x_start data_x_start data_width w) p2 ts;
  let bot_y := nsub cur_y p2 in
  _ ← draw_line (nadd left_x_end p2) (PInt 0) (PInt 0) bot_y;
  draw_line (nadd right_x_end p2) (PInt 0) (PInt 0) bot_y.
End rendering.

(** ** The scale *)

Lemma nint_integral a z : (nq a == inject_Z z)%Q → nint a = z.
Proof.
  destruct a as [x|q]; cbn; unfold Qeq; cbn; [lia|]. intros Hq.
  rewrite Z.mul_1_r in Hq. rewrite Hq. apply Z.quot_mul. lia.
Qed.

Lemma nzero_int z : nzero (PInt z) = (z =? 0).
Proof. apply Bool.eq_iff_eq_true. unfold nzero. rewrite Qeq_bool_iff, Z.eqb_eq. cbn. unfold Qeq. cbn. lia. Qed.

Lemma closest_loop_ok dd k fuel closest :
  closest = 10 ^ Z.of_nat k → (closest = 1 ∨ closest < nceil dd) →
  nceil dd <= 10 ^ Z.of_nat (k + fuel) →
  ∃ n, closest_loop fuel dd closest = Some (10 ^ Z.of_nat n) ∧ nceil dd <= 10 * 10 ^ Z.of_nat n ∧
       (n = 0%nat ∨ 10 ^ Z.of_nat n < nceil dd).
Proof.
  revert k closest. induction fuel as [|fuel IH]; intros k closest Hc Hlo Hf; cbn [closest_loop].
  - rewrite Nat.add_0_r in Hf. subst closest.
    rewrite (proj2 (nlt_false (PInt _) dd)).
    2:{ apply nq_leZ. lia. }
    exists k. split_and!; [done|lia|]. destruct Hlo as [H1|?]; [left|by right].
    destruct k; [done|]. rewrite Nat2Z.inj_succ, Z.pow_succ_r in H1 by lia. lia.
  - destruct (nlt (PInt (closest * 10)) dd) eqn:Hl.
    + apply nlt_spec, Zlt_nq in Hl. apply (IH (S k)).
      * subst closest. rewrite Nat2Z.inj_succ, Z.pow_succ_r by lia. lia.
      * right. lia.
      * by replace (S k + fuel)%nat with (k + S fuel)%nat by lia.
    + apply nlt_false, nq_leZ in Hl. exists k. subst closest. split_and!; [done|lia|].
      destruct Hlo as [H1|?]; [left|by right].
      destruct k; [done|]. rewrite Nat2Z.inj_succ, Z.pow_succ_r in H1 by lia. lia.
Qed.

Lemma closest_fuel_enough dd : nceil dd <= 10 ^ Z.of_nat (closest_fuel dd).
Proof.
  unfold closest_fuel. destruct (Z.le_gt_cases (nceil dd) 0).
  - pose proof (Z.pow_pos_nonneg 10 (Z.of_nat (S (Z.to_nat (Z.log2 (nceil dd)))))). lia.
  - pose proof (Z.log2_spec (nceil dd)) as Hlog. pose proof (Z.log2_nonneg (nceil dd)).
    rewrite Nat2Z.inj_succ, Z2Nat.id by done.
    pose proof (Z.pow_le_mono_l 2 10 (Z.succ (Z.log2 (nceil dd)))). lia.
Qed.

(** The result of the search: a power of ten within a factor of ten of the
    data. *)
Lemma closest_ok dd :
  ∃ n, closest_loop (closest_fuel dd) dd 1 = Some (10 ^ Z.of_nat n) ∧
       nceil dd <= 10 * 10 ^ Z.of_nat n ∧ (n = 0%nat ∨ 10 ^ Z.of_nat n < nceil dd).
Proof. apply (closest_loop_ok dd 0); [done|by left|]. apply closest_fuel_enough. Qed.

Lemma pow10_pos n : 0 < 10 ^ Z.of_nat n.
Proof. apply Z.pow_pos_nonneg; lia. Qed.

Lemma ndiv_int_pos a z : 0 < z → ndiv a (PInt z) = Ok match a with
    | PInt x => PInt (x / z) | PFloat q => PFloat (q / inject_Z z) end.
Proof. intros Hz. unfold ndiv. rewrite nzero_int. rewrite (proj2 (Z.eqb_neq z 0)) by lia. by destruct a. Qed.

Lemma pow10_div n : 10 ^ Z.of_nat (S n) / 10 = 10 ^ Z.of_nat n.
Proof. rewrite Nat2Z.inj_succ, Z.pow_succ_r, Z.mul_comm, Z.div_mul by lia. done. Qed.

Lemma neqb_int a b : neqb (PInt a) (PInt b) = (a =? b).
Proof. apply Bool.eq_iff_eq_true. rewrite neqb_spec, Z.eqb_eq. unfold Qeq. cbn. lia. Qed.

(** The spacing chosen: a power of ten, with at most twenty steps over the data;
    it is 0 exactly when the data span is 1. *)
Definition delta_chosen (dd : num) (d : res exn num) : Prop :=
  if neqb dd (PInt 1) then d = Ok (PInt 0)
  else ∃ m, d = Ok (PInt (10 ^ Z.of_nat m)) ∧ nceil dd <= 20 * 10 ^ Z.of_nat m.

Lemma choose_delta_int z n :
  0 <= z → z <= 10 * 10 ^ Z.of_nat n → n = 0%nat ∨ 10 ^ Z.of_nat n < z →
  delta_chosen (PInt z) (choose_delta (PInt z) (10 ^ Z.of_nat n)).
Proof.
  intros Hpos Hle Hlo. pose proof (pow10_pos n) as Hp. unfold choose_delta, delta_chosen.
  rewrite (ndiv_int_pos (PInt z)) by done. cbn [mbind res_bind]. rewrite !neqb_int.
  destruct (nq_int z) as [_ ->]. destruct (Z.eqb_spec z 1) as [->|Hz1].
  { destruct Hlo as [->|?]; [vm_compute; reflexivity|lia]. }
  destruct (Z.eqb_spec (z / 10 ^ Z.of_nat n) 0); [exists n; split; [done|lia]|].
  destruct (Z.eqb_spec (z / 10 ^ Z.of_nat n) 1) as [H1|]; [|exists n; split; [done|lia]].
  destruct n as [|n]; [rewrite Z.div_1_r in H1; lia|].
  rewrite ndiv_int_pos by lia. exists n. rewrite pow10_div. split; [done|].
  pose proof (Z.mod_pos_bound z (10 ^ Z.of_nat (S n)) Hp).
  pose proof (Z.div_mod z (10 ^ Z.of_nat (S n))). rewrite Nat2Z.inj_succ, Z.pow_succ_r in * by lia. lia.
Qed.

Lemma choose_delta_float q n :
  let dd := PFloat q in
  nceil dd <= 10 * 10 ^ Z.of_nat n → n = 0%nat ∨ 10 ^ Z.of_nat n < nceil dd →
  delta_chosen dd (choose_delta dd (10 ^ Z.of_nat n)).
Proof.
  intros dd Hle Hlo. pose proof (pow10_pos n) as Hp. unfold choose_delta, delta_chosen. subst dd.
  rewrite (ndiv_int_pos (PFloat q)) by done. cbn [mbind res_bind].
  assert (¬ inject_Z (10 ^ Z.of_nat n) == 0)%Q as Hnz by (unfold Qeq; cbn; lia).
  assert (∀ z, neqb (PFloat (q / inject_Z (10 ^ Z.of_nat n))) (PInt z) = true ↔
               (q == inject_Z z * inject_Z (10 ^ Z.of_nat n))%Q) as Hq.
  { intros z. rewrite neqb_spec. cbn. split; intros Hz.
    - rewrite <-Hz. field. done.
    - rewrite Hz. field. done. }
  destruct (neqb (PFloat q) (PInt 1)) eqn:H1.
  - apply neqb_spec in H1. cbn [nq] in H1.
    assert (n = 0%nat) as ->.
    { destruct Hlo as [|Hlt]; [done|]. apply Zlt_nq in Hlt. cbn [nq] in Hlt. rewrite H1 in Hlt.
      rewrite <-Zlt_Qlt in Hlt. lia. }
    rewrite (proj2 (Hq 1)) by (rewrite H1; reflexivity).
    replace (neqb _ (PInt 0)) with false; [reflexivity|].
    symmetry. apply not_true_iff_false. rewrite Hq, H1. unfold Qeq. cbn. lia.
  - replace (neqb (PFloat (q / _)) (PInt 1)) with false.
    + exists n. destruct (neqb _ (PInt 0)); (split; [done|lia]).
    + symmetry. apply not_true_iff_false. rewrite Hq. intros Heq.
      assert (q == inject_Z (10 ^ Z.of_nat n))%Q as Heq' by (rewrite Heq; ring).
      destruct Hlo as [->|Hlt].
      * apply not_true_iff_false in H1. apply H1, neqb_spec. change (q == 1)%Q. by rewrite Heq'.
      * apply Zlt_nq in Hlt. cbn [nq] in Hlt. rewrite Heq' in Hlt. by apply Qlt_irrefl in Hlt.
Qed.

Lemma choose_delta_ok dd n :
  (0 <= nq dd)%Q → nceil dd <= 10 * 10 ^ Z.of_nat n → n = 0%nat ∨ 10 ^ Z.of_nat n < nceil dd →
  delta_chosen dd (choose_delta dd (10 ^ Z.of_nat n)).
Proof.
  destruct dd as [z|q]; [|intros _; apply choose_delta_float].
  cbn [nq]. rewrite <-(Zle_Qle 0). destruct (nq_int z) as [_ ->]. apply choose_delta_int.
Qed.

(** The first and last ticks are the multiples of the spacing around the data. *)
Lemma nmod_int_pos a d : 0 < d → ∃ m, nmod a (PInt d) = Ok m ∧
  (nq m == nq a - inject_Z (d * Qfloor (nq a / inject_Z d)))%Q.
Proof.
  intros Hd. unfold nmod. rewrite nzero_int. rewrite (proj2 (Z.eqb_neq d 0)) by lia.
  eexists. split; [done|]. destruct a as [x|q]; cbn [nq].
  - assert (Qfloor (inject_Z x / inject_Z d) = x / d) as Hf by (symmetry; apply Zdiv_Qdiv).
    rewrite Hf, Z.mod_eq by lia. unfold Z.sub.
    rewrite inject_Z_plus, inject_Z_opp. reflexivity.
  - rewrite inject_Z_mult. reflexivity.
Qed.

Lemma tick_bounds_ok l h d :
  0 < d → ∃ s e, tick_bounds l h (PInt d) = Ok (s, e) ∧
    nint s = d * Qfloor (nq l / inject_Z d) + d ∧
    nint (nadd e (PInt d)) = d * Qfloor (nq h / inject_Z d) + d.
Proof.
  intros Hd. unfold tick_bounds.
  destruct (nmod_int_pos l d Hd) as (ml & -> & Hml), (nmod_int_pos h d Hd) as (mh & -> & Hmh).
  cbn [mbind res_bind]. eexists _, _. split; [done|]. split; apply nint_integral.
  - rewrite nq_add, nq_sub, Hml. cbn [nq]. rewrite (inject_Z_plus _ d). ring.
  - rewrite nq_add, nq_sub, Hmh. cbn [nq]. rewrite (inject_Z_plus _ d). ring.
Qed.

Lemma py_range_elem start stop step ts x :
  0 < step → py_range start stop step = Ok ts →
  x ∈ ts ↔ ∃ i, 0 <= i ∧ x = start + i * step ∧ x < stop.
Proof.
  intros Hs. unfold py_range. rewrite (proj2 (Z.eqb_neq step 0)), (proj2 (Z.ltb_lt 0 step)) by lia.
  intros [= <-]. rewrite list_elem_of_fmap.
  pose proof (Z.mod_pos_bound (stop - start + step - 1) step Hs).
  pose proof (Z.div_mod (stop - start + step - 1) step).
  set (n := (stop - start + step - 1) / step) in *. split.
  - intros (i & -> & Hi%elem_of_seq). exists (Z.of_nat i). split_and!; [lia|done|]. nia.
  - intros (i & Hi & -> & Hx). exists (Z.to_nat i). rewrite Z2Nat.id by done. split; [done|].
    apply elem_of_seq. nia.
Qed.

Lemma multiple_bounds a d x :
  0 < d → ((d * Qfloor (nq a / inject_Z d) < d * x) ↔ (nq a < inject_Z (d * x))%Q).
Proof.
  intros Hd. rewrite <-Z.mul_lt_mono_pos_l by done.
  assert (0 < inject_Z d)%Q as Hdq by (by rewrite <-(Zlt_Qlt 0)).
  rewrite <-(nq_ltZ x (PFloat (nq a / inject_Z d))). cbn [nq].
  rewrite inject_Z_mult. split; intros Hl.
  - apply (Qmult_lt_r _ _ (inject_Z d) Hdq) in Hl. unfold Qdiv in Hl.
    rewrite <-Qmult_assoc, (Qmult_comm (/ _)), Qmult_inv_r, Qmult_1_r in Hl
      by (intros E; rewrite E in Hdq; by apply Qlt_irrefl in Hdq).
    by rewrite Qmult_comm.
  - apply (Qmult_lt_r _ _ (inject_Z d) Hdq). unfold Qdiv.
    rewrite <-Qmult_assoc, (Qmult_comm (/ _)), Qmult_inv_r, Qmult_1_r
      by (intros E; rewrite E in Hdq; by apply Qlt_irrefl in Hdq).
    by rewrite Qmult_comm.
Qed.

Lemma ticks_exact l h d s e ts x :
  0 < d → tick_bounds l h (PInt d) = Ok (s, e) →
  py_range (nint s) (nint (nadd e (PInt d))) d = Ok ts →
  x ∈ ts ↔ (d | x) ∧ (nq l < inject_Z x <= nq h)%Q.
Proof.
  intros Hd Htb Hr. destruct (tick_bounds_ok l h d Hd) as (s' & e' & Htb' & Hs & He).
  rewrite Htb in Htb'. injection Htb' as <- <-. rewrite (py_range_elem _ _ _ _ _ Hd Hr), Hs, He.
  set (kl := Qfloor (nq l / inject_Z d)). set (kh := Qfloor (nq h / inject_Z d)). split.
  - intros (i & Hi & -> & Hlt). split; [exists (kl + 1 + i); ring|].
    replace (d * kl + d + i * d) with (d * (kl + 1 + i)) in * by ring. split.
    + apply multiple_bounds; [done|]. fold kl. nia.
    + apply Qnot_lt_le. intros Hh%multiple_bounds; [|done]. fold kh in Hh.
      apply (Z.mul_lt_mono_pos_l d) in Hh; [|done].
      assert (kl + 1 + i < kh + 1) by (apply (Z.mul_lt_mono_pos_l d); lia). lia.
  - intros ([k ->] & Hl & Hh). rewrite (Z.mul_comm k d) in *.
    apply multiple_bounds in Hl; [|done]. fold kl in Hl.
    assert (¬ (d * kh < d * k)) as Hh' by (intros Hlt%multiple_bounds; [|done]; by apply Qlt_not_le in Hlt).
    apply (Z.mul_lt_mono_pos_l d) in Hl; [|done]. apply Z.nlt_ge in Hh'.
    apply (Z.mul_le_mono_pos_l _ _ d) in Hh'; [|done]. exists (k - kl - 1). split_and!; nia.
Qed.

(** ** The legend *)

Section legend_facts.
Context (text_extents : pystr → extents).
Hypothesis extents_nonneg : ∀ t,
  (0 <= nq (t_width (text_extents t)))%Q ∧ (0 <= nq (t_height (text_extents t)))%Q.
Context (padding width : num).
Hypothesis padding_nonneg : (0 <= nq padding)%Q.

Local Abbreviation step := (legend_step text_extents padding width).
Local Abbreviation w := (item_width text_extents padding).
Local Abbreviation h := (item_height text_extents padding).

(** The places of the items, in order. *)
Fixpoint places (s : legend_state) (legends : list pystr) : list (num * num) :=
  match legends with
  | [] => []
  | legend :: legends =>
      let '(x, y, s) := item_place text_extents padding width s legend in (x, y) :: places s legends
  end.

Lemma places_length s legends : length (places s legends) = length legends.
Proof.
  revert s. induction legends as [|t legends IH]; intros s; [done|]. cbn.
  by rewrite IH.
Qed.

Lemma item_width_nonneg t : (nq padding <= nq (w t))%Q.
Proof. unfold item_width. rewrite !nq_add. pose proof (extents_nonneg t). lra. Qed.
Lemma item_height_nonneg t : (0 <= nq (h t))%Q.
Proof. unfold item_height. rewrite nq_add. pose proof (extents_nonneg t). lra. Qed.

(** An item at [(x, y)] is out of the way of what comes after state [s]. *)
Definition cleared (s : legend_state) (x y : num) (t : pystr) : Prop :=
  (nq (h t) <= nq (line_height s))%Q ∧
  ((nq y == nq (total_height s) ∧ nq x + nq (w t) <= nq (line_used s))%Q ∨
   (nq y + nq (h t) <= nq (total_height s))%Q).

(** Two items, the second drawn later, do not overlap. *)
Definition apart (x y : num) (t : pystr) (x' y' : num) : Prop :=
  (nq y + nq (h t) <= nq y')%Q ∨ (nq y == nq y' ∧ nq x + nq (w t) <= nq x')%Q.

Definition state_ok (s : legend_state) : Prop :=
  (0 <= nq (line_height s))%Q ∧ (nq padding <= nq (line_used s))%Q.

(** The two cases of a step. *)
Lemma legend_step_spec s t :
  let s' := step s t in
  (nq (line_height s) <= nq (line_height s'))%Q ∧ (nq (h t) <= nq (line_height s'))%Q ∧
  ((nq (total_height s') == nq (total_height s) + nq (line_height s') ∧
    nq (line_used s') == nq padding + nq (w t))%Q ∨
   (nq (total_height s') == nq (total_height s) ∧ nq (line_used s') == nq (line_used s) + nq (w t) ∧
    nq (line_used s) + nq (w t) <= nq width)%Q).
Proof.
  cbv zeta. unfold legend_step. set (lh := if nlt (line_height s) _ then _ else _).
  assert ((nq (line_height s) <= nq lh)%Q ∧ (nq (h t) <= nq lh)%Q) as [H1 H2].
  { unfold lh. destruct (nlt _ _) eqn:Hl; [apply nlt_spec in Hl|apply nlt_false in Hl]; lra. }
  destruct (nlt width _) eqn:Hw; cbn [line_height total_height line_used]; (split_and!; [done..|]).
  - left. rewrite !nq_add. lra.
  - right. apply nlt_false in Hw. rewrite !nq_add in *. lra.
Qed.

Lemma item_place_ok s t x y s' :
  state_ok s → item_place text_extents padding width s t = (x, y, s') →
  state_ok s' ∧ cleared s' x y t ∧ (nq padding <= nq x)%Q ∧
  ((nq x + nq (w t) <= nq width)%Q ∨ (nq x == nq padding)%Q) ∧
  (∀ x0 y0 t0, cleared s x0 y0 t0 → cleared s' x0 y0 t0 ∧ apart x0 y0 t0 x y).
Proof.
  intros [Hlh Hlu] Hp. unfold item_place in Hp. injection Hp as <- <- Hs'.
  pose proof (legend_step_spec s t) as (H1 & H2 & Hcase). rewrite Hs' in *.
  pose proof (item_width_nonneg t) as Hw. pose proof (item_height_nonneg t) as Hh.
  unfold state_ok, cleared, apart. rewrite nq_sub.
  split_and!; [lra|destruct Hcase as [[? ?]|(? & ? & ?)]; lra|done|left; split; lra
    |destruct Hcase as [[? ?]|(? & ? & ?)]; lra|destruct Hcase as [[? ?]|(? & ? & ?)]; [right|left]; lra|].
  intros x0 y0 t0 [Hh0 Hc0]. pose proof (item_width_nonneg t0). pose proof (item_height_nonneg t0).
  destruct Hcase as [[? ?]|(? & ? & ?)], Hc0 as [[? ?]|?]; (split; [split; [lra|]|]).
  all: rewrite ?nq_sub; first [left; lra|right; lra|left; split; lra|right; split; lra].
Qed.

Lemma legend_fold_grows s legends :
  let s' := foldl step s legends in
  state_ok s → (nq (line_height s) <= nq (line_height s'))%Q ∧ (nq (total_height s) <= nq (total_height s'))%Q.
Proof.
  cbv zeta. revert s. induction legends as [|t legends IH]; intros s Hs; cbn [foldl]; [lra|].
  destruct (item_place text_extents padding width s t) as [[x y] s'] eqn:Hp.
  destruct (item_place_ok s t x y s' Hs Hp) as (Hs' & _).
  assert (s' = step s t) as -> by (by injection Hp).
  specialize (IH _ Hs'). pose proof (legend_step_spec s t) as (H1 & H2 & Hcase).
  destruct Hs as [? ?], Hcase as [[? ?]|(? & ? & ?)]; lra.
Qed.

(** All places, from a state and the items already placed. *)
Definition places_ok (s : legend_state) (legends : list pystr) : Prop :=
  let s' := foldl step s legends in
  ∀ i x y t, places s legends !! i = Some (x, y) → legends !! i = Some t →
    (nq padding <= nq x)%Q ∧ ((nq x + nq (w t) <= nq width)%Q ∨ (nq x == nq padding)%Q) ∧
    (nq y + nq (h t) <= nq (total_height s') + nq (line_height s'))%Q ∧
    (∀ x0 y0 t0, cleared s x0 y0 t0 → apart x0 y0 t0 x y) ∧
    (∀ j x' y', (i < j)%nat → places s legends !! j = Some (x', y') → apart x y t x' y').

Lemma places_all s legends : state_ok s → places_ok s legends.
Proof.
  revert s. induction legends as [|t legends IH]; intros s Hs i x y t' Hi Ht; [done|].
  cbn [places foldl] in *.
  destruct (item_place text_extents padding width s t) as [[x1 y1] s1] eqn:Hp.
  destruct (item_place_ok s t x1 y1 s1 Hs Hp) as (Hs1 & Hc1 & Hx1 & Hw1 & Hprev).
  assert (step s t = s1) as Hstep by (by injection Hp). rewrite Hstep. clear Hstep Hp.
  destruct i as [|i]; cbn in Hi, Ht.
  - simplify_eq. pose proof (legend_fold_grows s1 legends Hs1) as [G1 G2].
    split_and!; [done|done| |intros x0 y0 t0 Hc; by apply Hprev|].
    + destruct Hs1 as [? ?], Hc1 as [? [[? ?]|?]]; lra.
    + intros [|j] x' y' Hij Hj; [lia|]. cbn in Hj.
      destruct (lookup_lt_is_Some_2 legends j) as [tj Htj].
      { apply lookup_lt_Some in Hj. by rewrite places_length in Hj. }
      destruct (IH s1 Hs1 j x' y' tj Hj Htj) as (_ & _ & _ & Hap & _). by apply Hap.
  - destruct (IH s1 Hs1 i x y t' Hi Ht) as (A1 & A2 & A3 & A4 & A5). split_and!; [done..| |].
    + intros x0 y0 t0 Hc. apply A4. by apply Hprev.
    + intros [|j] x' y' Hij Hj; [lia|]. apply (A5 j x' y'); [lia|done].
Qed.
End legend_facts.

(** [draw] makes the calls for each item at its place. *)
Lemma draw_items_ok te padding width colors legends i s :
  (i + length legends ≤ length colors)%nat →
  draw_items te padding width colors (Z.of_nat i) s legends
  = Ok (concat (zip_with (λ '((x, y), c) t, draw_item te padding x y c t)
                  (zip (places te padding width s legends) (drop i colors)) legends)).
Proof.
  revert i s. induction legends as [|t legends IH]; intros i s Hlen; [by cbn|].
  cbn [draw_items places item_place]. cbn [length] in Hlen.
  destruct (lookup_lt_is_Some_2 colors i) as [c Hc]; [lia|].
  rewrite py_get_nat, Hc. cbn [res_of_option mbind res_bind].
  replace (Z.of_nat i + 1) with (Z.of_nat (S i)) by lia. rewrite IH by lia. cbn [mbind res_bind].
  rewrite (drop_S _ _ _ Hc). done.
Qed.

(** ** Properties *)

(** After [layout], [draw] makes the calls for each legend at its place:
    every item starts at or after the padding, ends within the width unless it
    stands first in its row, lies within the height that [get_height] reports,
    and no two items overlap. *)
Theorem legend_layout_draw te legends colors padding w :
  (0 <= nq padding)%Q →
  (∀ t, (0 <= nq (t_width (te t)))%Q ∧ (0 <= nq (t_height (te t)))%Q) →
  (length legends ≤ length colors)%nat →
  ∃ l h ps,
    legend_layout te w (MkLegend padding (Some legends) (Some colors) None None) = Ok l ∧
    legend_get_height l = Ok h ∧ length ps = length legends ∧
    legend_draw te l = Ok (concat (zip_with (λ '((x, y), c) t, draw_item te padding x y c t)
                                     (zip ps colors) legends)) ∧
    ∀ i x y t, ps !! i = Some (x, y) → legends !! i = Some t →
      (nq padding <= nq x)%Q ∧
      ((nq x + nq (item_width te padding t) <= nq w)%Q ∨ (nq x == nq padding)%Q) ∧
      (nq y + nq (item_height te padding t) <= nq h)%Q ∧
      ∀ j x' y', (i < j)%nat → ps !! j = Some (x', y') → apart te padding x y t x' y'.
Proof.
  intros Hp Hte Hlen. eexists _, _, (places te padding w (legend_start padding) legends).
  split; [reflexivity|]. split; [reflexivity|]. split; [apply places_length|]. split.
  - unfold legend_draw. cbn. destruct legends as [|t legends]; [done|].
    rewrite <-(drop_0 colors) at 2. by apply (draw_items_ok te padding w colors (t :: legends) 0).
  - intros i x y t Hi Ht.
    destruct (places_all te Hte padding w Hp (legend_start padding) legends) with (i := i) (x := x) (y := y) (t := t)
      as (A1 & A2 & A3 & _ & A5); [|done|done|].
    + split; apply Qle_refl.
    + cbn [total_height line_height]. rewrite nq_add. split_and!; done.
Qed.

(** [ScaleRenderer.layout] ends.  When the data span is exactly 1 it raises
    [ZeroDivisionError]; otherwise the spacing is a power of ten that needs at
    most twenty steps to cover the data, and the ticks [draw] goes over are
    exactly the multiples of the spacing after the lower bound and up to the
    upper bound. *)
Theorem scale_layout_correct te w s l h :
  lo s = Some l → hi s = Some h → (nq l <= nq h)%Q →
  ∃ r, scale_layout te w s = Some r ∧
    ((nq h - nq l == 1)%Q → r = Raise ZeroDivisionError) ∧
    (¬ (nq h - nq l == 1)%Q →
      ∃ s' m start end_ ts, r = Ok s' ∧ delta s' = Some (PInt (10 ^ Z.of_nat m)) ∧
        lo s' = Some l ∧ hi s' = Some h ∧ scale_width s' = Some w ∧
        (nq h - nq l <= inject_Z (20 * 10 ^ Z.of_nat m))%Q ∧
        tick_bounds l h (PInt (10 ^ Z.of_nat m)) = Ok (start, end_) ∧
        py_range (nint start) (nint (nadd end_ (PInt (10 ^ Z.of_nat m)))) (10 ^ Z.of_nat m) = Ok ts ∧
        ∀ x, x ∈ ts ↔ (10 ^ Z.of_nat m | x) ∧ (nq l < inject_Z x <= nq h)%Q).
Proof.
  intros Hl Hh Hle. unfold scale_layout. rewrite Hl, Hh.
  destruct (closest_ok (nsub h l)) as (n & -> & Hn1 & Hn2). cbn [mbind option_bind].
  eexists. split; [done|].
  assert (0 <= nq (nsub h l))%Q as Hpos by (rewrite nq_sub; lra).
  pose proof (choose_delta_ok (nsub h l) n Hpos Hn1 Hn2) as Hd. unfold delta_chosen in Hd.
  assert (neqb (nsub h l) (PInt 1) = true ↔ (nq h - nq l == 1)%Q) as Hspan.
  { rewrite neqb_spec, nq_sub. reflexivity. }
  destruct (neqb (nsub h l) (PInt 1)).
  - rewrite Hd. split; [done|]. intros Hn. by destruct Hn; apply Hspan.
  - split; [intros Hs; by apply Hspan in Hs|]. intros _. destruct Hd as (m & -> & Hm).
    cbn [mbind res_bind]. pose proof (pow10_pos m) as Hpm.
    destruct (tick_bounds_ok l h (10 ^ Z.of_nat m) Hpm) as (st & en & Htb & _). rewrite Htb.
    cbn [mbind res_bind].
    destruct (py_range (nint st) (nint (nadd en (PInt (10 ^ Z.of_nat m)))) (10 ^ Z.of_nat m)) as [ts|] eqn:Hts.
    2:{ unfold py_range in Hts. by rewrite (proj2 (Z.eqb_neq _ 0)) in Hts by lia. }
    eexists _, m, st, en, ts. split; [reflexivity|]. cbn. split_and!; try done.
    + rewrite <-nq_sub. by apply nq_leZ.
    + intros x. by apply (ticks_exact l h _ st en).
Qed.

(** ** Witnesses and examples *)

Definition sample_extents (t : pystr) : extents :=
  MkExtents (PFloat (-7)) (PFloat (inject_Z (6 * Z.of_nat (length t)))) (PFloat 8).

Lemma legend_layout_draw_witness :
  ∃ l h ps,
    legend_layout sample_extents (PInt 60)
      (MkLegend (PInt 10) (Some [str "a"; str "bb"]) (Some [MkColor 1 0 0; MkColor 0 1 0]) None None) = Ok l ∧
    legend_get_height l = Ok h ∧ length ps = 2%nat ∧
    legend_draw sample_extents l
      = Ok (concat (zip_with (λ '((x, y), c) t, draw_item sample_extents (PInt 10) x y c t)
                      (zip ps [MkColor 1 0 0; MkColor 0 1 0]) [str "a"; str "bb"])).
Proof.
  destruct (legend_layout_draw sample_extents [str "a"; str "bb"] [MkColor 1 0 0; MkColor 0 1 0]
              (PInt 10) (PInt 60)) as (l & h & ps & H1 & H2 & H3 & H4 & _).
  - vm_compute. discriminate.
  - intros t. split; [|vm_compute; discriminate]. cbn [sample_extents t_width nq].
    rewrite <-(Zle_Qle 0). lia.
  - cbn. lia.
  - exists l, h, ps. split_and!; assumption.
Defined.

Lemma scale_layout_correct_witness :
  let s := set_bounds (PInt 0) (PInt 1) new_ScaleRenderer in
  ∃ r, scale_layout sample_extents (PInt 100) s = Some r ∧ r = Raise ZeroDivisionError.
Proof.
  intros s. destruct (scale_layout_correct sample_extents (PInt 100) s (PInt 0) (PInt 1))
    as (r & Hr & H1 & _); [reflexivity|reflexivity|vm_compute; discriminate|].
  exists r. split; [exact Hr|]. apply H1. reflexivity.
Defined.

(** The ticks of a scale from 3 to 47. *)
Example scale_ticks_sample :
  match scale_layout sample_extents (PInt 440) (set_bounds (PInt 3) (PInt 47) new_ScaleRenderer) with
  | Some (Ok s) => delta s = Some (PInt 10) ∧ is_ok (scale_draw sample_extents s) = true
  | _ => False
  end.
Proof. vm_compute. auto. Qed.

(** A range after the window is drawn, with a negative width, when the end of
    the window falls in a gap. *)
Example draw_ranges_after_window :
  let rs := MkRanges (str "state") [MkRange 0 10 (str "a"); MkRange 30 40 (str "b")] in
  let t : TimelinesRenderer :=
    MkTR (PInt 10) None (Some (new_Colors : Colors (PyDict pystr))) (Some (PInt 5)) (Some (PInt 20))
         None None None None None (Some 1) in
  List.filter (λ op, match op with Rectangle _ _ _ _ => true | _ => false end)
    (draw_ranges rs (PInt 0) (PInt 0) (PInt 150) (PInt 10) (t, [])).2.2
  = [Rectangle (PInt 0) (PInt 0) (PInt 50) (PInt 10);
     Rectangle (PInt 250) (PInt 0) (PInt (-100)) (PInt 10)].
Proof. vm_compute. reflexivity. Qed.

(** ** The height of the drawing *)

Section height_facts.
Context (text_extents : pystr → extents).
Context {D : Type → Type} `{DictLaws pystr D}.
Local Abbreviation state := (TimelinesRenderer (D := D) * list draw_op)%type.
Local Abbreviation drawing := (drawing (D := D)).

(** Drawing changes neither the padding nor what [layout] computed. *)
Definition same_layout (t t' : TimelinesRenderer (D := D)) : Prop :=
  padding t' = padding t ∧ max_text_height t' = max_text_height t ∧
  left_width t' = left_width t ∧ right_width t' = right_width t ∧ width t' = width t ∧
  timelines t' = timelines t.
Definition keeps {A} (m : drawing A) : Prop := ∀ s, same_layout s.1 (m s).2.1.

#[local] Instance same_layout_preorder : PreOrder same_layout.
Proof. split; unfold same_layout; red; intuition congruence. Qed.

Lemma keeps_bind {A B} (m : drawing A) (f : A → drawing B) :
  keeps m → (∀ a, keeps (f a)) → keeps (m ≫= f).
Proof.
  intros Hm Hf s. unfold mbind, stm_bind. specialize (Hm s).
  destruct (m s) as [[a|e] s1]; cbn in *; [|done]. transitivity s1.1; [done|apply Hf].
Qed.
Lemma keeps_ret {A} (a : A) : keeps (mret a). Proof. intros s. reflexivity. Qed.
Lemma keeps_emit ops : keeps (emit ops). Proof. intros s. reflexivity. Qed.
Lemma keeps_lift {A} (r : res exn A) : keeps (st_lift r). Proof. intros s. reflexivity. Qed.
Lemma keeps_self {A} (f : TimelinesRenderer → res exn A) : keeps (self f).
Proof. intros s. reflexivity. Qed.
Lemma keeps_grey g : keeps (update (set_grey g)). Proof. intros s. by split_and!. Qed.
Lemma keeps_colors cs : keeps (update (set_colors cs)). Proof. intros s. by split_and!. Qed.
Lemma keeps_fold {A B} (f : B → A → drawing B) l b : (∀ b x, keeps (f b x)) → keeps (st_fold f b l).
Proof.
  intros Hf. revert b. induction l as [|x l IH]; intros b; [apply keeps_ret|].
  apply keeps_bind; auto.
Qed.

Create HintDb keeps discriminated.
Hint Resolve keeps_ret keeps_emit keeps_lift keeps_self keeps_grey keeps_colors : keeps.
Ltac keeps_tac :=
  repeat (first [apply keeps_bind; [|intros ?]|apply keeps_fold; intros|case_match];
          try (cbv zeta; solve [eauto with keeps])).

Lemma keeps_background x y w h : keeps (draw_background x y w h).
Proof. unfold draw_background. keeps_tac. Qed.
Lemma keeps_next : keeps next_background.
Proof. unfold next_background. keeps_tac. Qed.
Lemma keeps_line x y w h : keeps (draw_line x y w h).
Proof. apply keeps_emit. Qed.
Hint Resolve keeps_background keeps_next keeps_line : keeps.
Lemma keeps_event {V} (show : V → pystr) x y w b ev : keeps (draw_event show x y w b ev).
Proof. unfold draw_event. keeps_tac. Qed.
Lemma keeps_range x y w b dr : keeps (draw_range x y w b dr).
Proof. unfold draw_range. keeps_tac. Qed.
Hint Resolve @keeps_event keeps_range : keeps.
Lemma keeps_events {V} (show : V → pystr) ev x y w h : keeps (draw_events show ev x y w h).
Proof. unfold draw_events. keeps_tac. Qed.
Lemma keeps_ranges rs x y w h : keeps (draw_ranges rs x y w h).
Proof. unfold draw_ranges. keeps_tac. Qed.
Lemma keeps_name x y n : keeps (draw_name text_extents x y n).
Proof. unfold draw_name. keeps_tac. Qed.
Lemma keeps_separator x y : keeps (separator x y).
Proof. unfold separator. keeps_tac. Qed.
Hint Resolve @keeps_events keeps_ranges keeps_name keeps_separator : keeps.

Lemma keeps_ok {A} (m : drawing A) s a s' : keeps m → m s = (Ok a, s') → same_layout s.1 s'.1.
Proof. intros Hk Hm. specialize (Hk s). by rewrite Hm in Hk. Qed.
Lemma self_ok {A} (f : TimelinesRenderer → res exn A) (s : state) a s' :
  self f s = (Ok a, s') → f s.1 = Ok a ∧ s' = s.
Proof. unfold self. intros (t & s1 & Ht & Hl)%stm_bind_ok. injection Ht as <- <-. by injection Hl. Qed.

(** Take a bind apart, keeping what it says about the layout. *)
Ltac draw_step H :=
  let a := fresh "a" in let s := fresh "s" in let Hm := fresh "Hm" in let Hk := fresh "Hk" in
  apply stm_bind_ok in H as (a & s & Hm & H);
  eassert (same_layout _ s.1) as Hk by (eapply keeps_ok; [|exact Hm]; eauto with keeps).

(** The vertical space of one entry. *)
Definition event_space (t : TimelinesRenderer (D := D)) (m : num) : Q := (nq m + 5 + nq (padding t))%Q.
Definition range_space (t : TimelinesRenderer (D := D)) (m : num) : Q := (nq m + nq (padding t))%Q.

(** [f] advances the vertical position by [d]. *)
Definition advances (f : num → drawing num) (t : TimelinesRenderer (D := D)) (d : Q) : Prop :=
  ∀ y s y' s', same_layout t s.1 → f y s = (Ok y', s') → same_layout t s'.1 ∧ (nq y' == nq y + d)%Q.

Lemma advances_fold {A} (f : num → A → drawing num) t d l :
  (∀ x, advances (λ y, f y x) t d) →
  advances (λ y, st_fold f y l) t (inject_Z (Z.of_nat (length l)) * d)%Q.
Proof.
  intros Hf. induction l as [|x l IH]; intros y s y' s' Hs Hrun.
  - injection Hrun as <- <-. split; [done|]. cbn. ring.
  - cbn [st_fold] in Hrun. apply stm_bind_ok in Hrun as (y1 & s1 & H1 & H2).
    destruct (Hf x y s y1 s1 Hs H1) as [Hs1 Hy1], (IH y1 s1 y' s' Hs1 H2) as [Hs2 Hy2].
    split; [done|]. rewrite Hy2, Hy1. cbn [length]. rewrite Nat2Z.inj_succ. unfold Z.succ.
    rewrite inject_Z_plus. ring.
Qed.

Lemma event_entry_advances {V} (show : V → pystr) rx dx dw t m ev :
  max_text_height t = Some m →
  advances (λ y, draw_event_entry text_extents show rx dx dw y ev) t (event_space t m).
Proof.
  intros Hm y s y' s' Hs Hrun. unfold draw_event_entry in Hrun.
  draw_step Hrun. draw_step Hrun. apply self_ok in Hm1 as [Hm1 ->]. draw_step Hrun.
  draw_step Hrun. apply self_ok in Hm3 as [Hm3 ->]. draw_step Hrun. injection Hrun as <- <-.
  assert (same_layout t s0.1) as Ht0 by by transitivity s.1.
  assert (same_layout t s1.1) as Ht1 by by transitivity s0.1.
  split; [by transitivity s1.1|]. destruct Ht0 as (_ & E0 & _), Ht1 as (E1 & _).
  rewrite E0, Hm in Hm1. injection Hm1 as <-. injection Hm3 as <-.
  unfold event_space. rewrite !nq_add, E1. cbn [nq]. change (inject_Z 5) with 5%Q. ring.
Qed.

Lemma range_entry_advances rx dx dw t m rs :
  max_text_height t = Some m →
  advances (λ y, draw_range_entry text_extents rx dx dw y rs) t (range_space t m).
Proof.
  intros Hm y s y' s' Hs Hrun. unfold draw_range_entry in Hrun.
  draw_step Hrun. draw_step Hrun. draw_step Hrun. apply self_ok in Hm2 as [Hm2 ->].
  draw_step Hrun. apply self_ok in Hm3 as [Hm3 ->]. draw_step Hrun. injection Hrun as <- <-.
  assert (same_layout t s1.1) as Ht1 by (transitivity s0.1; [by transitivity s.1|done]).
  split; [by transitivity s1.1|]. destruct Ht1 as (E1 & E0 & _).
  rewrite E0, Hm in Hm2. injection Hm2 as <-. injection Hm3 as <-.
  unfold range_space. rewrite !nq_add, E1. ring.
Qed.

(** The vertical space of a timeline, and of all of them. *)
Definition timeline_space (t : TimelinesRenderer (D := D)) (m : num) (tl : Timeline) : Q :=
  (inject_Z (Z.of_nat (length (event_int tl))) * event_space t m
   + inject_Z (Z.of_nat (length (event_str tl))) * event_space t m
   + inject_Z (Z.of_nat (length (ranges tl))) * range_space t m)%Q.

Lemma timeline_advances lx rx dx dw w t m tl :
  max_text_height t = Some m →
  advances (λ y, draw_timeline text_extents lx rx dx dw w y tl) t (timeline_space t m tl).
Proof.
  intros Hm y s y' s' Hs Hrun. unfold draw_timeline in Hrun. draw_step Hrun.
  apply stm_bind_ok in Hrun as (y1 & s1 & H1 & Hrun).
  apply stm_bind_ok in Hrun as (y2 & s2 & H2 & Hrun).
  apply stm_bind_ok in Hrun as (y3 & s3 & H3 & Hrun).
  assert (same_layout t s0.1) as Ht0 by by transitivity s.1.
  apply (advances_fold _ t (event_space t m)) in H1 as [Ht1 Hy1];
    [|intros; by apply event_entry_advances|done].
  apply (advances_fold _ t (event_space t m)) in H2 as [Ht2 Hy2];
    [|intros; by apply event_entry_advances|done].
  apply (advances_fold _ t (range_space t m)) in H3 as [Ht3 Hy3];
    [|intros; by apply range_entry_advances|done].
  draw_step Hrun. draw_step Hrun. draw_step Hrun. injection Hrun as <- <-.
  split; [|unfold timeline_space; rewrite Hy3, Hy2, Hy1; ring].
  match goal with
  | _ : same_layout ?a ?b.1, _ : same_layout ?b.1 ?c.1, _ : same_layout ?c.1 ?d.1
    |- same_layout _ ?d.1 => transitivity c.1; [transitivity b.1; [by transitivity a|done]|done]
  end.
Qed.

Definition total_space (t : TimelinesRenderer (D := D)) (m : num) (ts : Timelines) : Q :=
  foldr (λ tl q, timeline_space t m tl + q)%Q 0%Q ts.

Lemma timelines_advance lx rx dx dw w t m ts :
  max_text_height t = Some m →
  advances (λ y, st_fold (draw_timeline text_extents lx rx dx dw w) y ts) t (total_space t m ts).
Proof.
  intros Hm. induction ts as [|tl ts IH]; intros y s y' s' Hs Hrun.
  - injection Hrun as <- <-. split; [done|]. cbn. ring.
  - cbn [st_fold] in Hrun. apply stm_bind_ok in Hrun as (y1 & s1 & H1 & H2).
    apply (timeline_advances _ _ _ _ _ t m) in H1 as [Hs1 Hy1]; [|done..].
    destruct (IH y1 s1 y' s' Hs1 H2) as [Hs2 Hy2]. split; [done|].
    rewrite Hy2, Hy1. cbn [total_space foldr]. fold (total_space t m ts). ring.
Qed.

(** The same sum from the counts that [layout] takes. *)
Lemma count_entries_cons {A} (f : Timeline → list A) tl ts :
  count_entries f (tl :: ts) = Z.of_nat (length (f tl)) + count_entries f ts.
Proof.
  unfold count_entries. cbn [foldl]. generalize (Z.of_nat (length (f tl))) as n. intros n.
  assert (∀ k, foldl (λ n t, n + Z.of_nat (length (f t))) k ts
             = k + foldl (λ n t, n + Z.of_nat (length (f t))) 0 ts) as Hk; [|rewrite Hk; lia].
  induction ts as [|x ts IH]; intros k; cbn [foldl]; [lia|]. rewrite IH, (IH (0 + _)). lia.
Qed.

Lemma count_entries_nonneg {A} (f : Timeline → list A) ts : 0 <= count_entries f ts.
Proof.
  induction ts as [|tl ts IH]; [done|]. rewrite count_entries_cons. lia.
Qed.

Lemma total_space_counts t m ts :
  (total_space t m ts ==
   inject_Z (count_entries event_int ts + count_entries event_str ts) * event_space t m
   + inject_Z (count_entries ranges ts) * range_space t m)%Q.
Proof.
  induction ts as [|tl ts IH].
  { unfold count_entries. cbn [foldl total_space foldr]. change (inject_Z (0 + 0)) with 0%Q.
    change (inject_Z 0) with 0%Q. ring. }
  rewrite !count_entries_cons. cbn [total_space foldr]. fold (total_space t m ts). rewrite IH.
  unfold timeline_space. rewrite !inject_Z_plus. ring.
Qed.

(** A successful drawing ends with the two vertical separators, down to the
    bottom of the last entry. *)
Lemma tr_draw_ends (t : TimelinesRenderer (D := D)) ops m ts s' :
  max_text_height t = Some m → timelines t = Some ts →
  tr_draw text_extents (t, ops) = (Ok tt, s') →
  ∃ ops' x1 x2 bot_y,
    s'.2 = ops' ++ [MoveTo x1 (PInt 0); RelLineTo (PInt 0) bot_y; ClosePath; SetOperatorSource;
                    SetLineWidth (PFloat 1); black; Stroke;
                    MoveTo x2 (PInt 0); RelLineTo (PInt 0) bot_y; ClosePath; SetOperatorSource;
                    SetLineWidth (PFloat 1); black; Stroke] ∧
    (nq bot_y == total_space t m ts)%Q.
Proof.
  intros Hm Hts Hrun. unfold tr_draw in Hrun.
  apply stm_bind_ok in Hrun as (p & s1 & Hs1 & Hrun). apply self_ok in Hs1 as [_ ->].
  apply stm_bind_ok in Hrun as (p2 & s2 & Hs2 & Hrun). injection Hs2 as _ <-.
  apply stm_bind_ok in Hrun as (lw & s3 & Hs3 & Hrun). apply self_ok in Hs3 as [_ ->].
  apply stm_bind_ok in Hrun as (rw & s4 & Hs4 & Hrun). apply self_ok in Hs4 as [_ ->].
  apply stm_bind_ok in Hrun as (w & s5 & Hs5 & Hrun). apply self_ok in Hs5 as [_ ->].
  apply stm_bind_ok in Hrun as ([] & s6 & Hs6 & Hrun). injection Hs6 as <-.
  apply stm_bind_ok in Hrun as ([] & s7 & Hs7 & Hrun). injection Hs7 as <-.
  apply stm_bind_ok in Hrun as (ts' & s8 & Hs8 & Hrun). apply self_ok in Hs8 as [Hs8 ->].
  cbn in Hs8. rewrite Hts in Hs8. injection Hs8 as <-.
  apply stm_bind_ok in Hrun as (y & s9 & Hs9 & Hrun).
  apply (timelines_advance _ _ _ _ _ t m) in Hs9 as [_ Hy]; [|done|by split_and!].
  apply stm_bind_ok in Hrun as ([] & s10 & Hs10 & Hrun). injection Hs10 as <-. injection Hrun as <-.
  eexists s9.2, _, _, _. split; [cbn; by rewrite <-app_assoc|]. rewrite nq_sub, Hy. ring.
Qed.
End height_facts.

(** When the drawing of the timelines succeeds after [layout] and the text
    height is at most 10 (the height of a range bar), the separators drawn along
    it end within the height that [get_height] reports. *)
Theorem timelines_drawing_fits te {D} `{DictLaws pystr D} (t t' : TimelinesRenderer (D := D)) w ops s' :
  tr_layout te w t = Ok t' → (nq (t_height (te alphabet)) <= 10)%Q →
  tr_draw te (t', ops) = (Ok tt, s') →
  ∃ h ops' x1 x2 bot_y, tr_get_height t' = Ok h ∧ (nq bot_y <= nq h)%Q ∧
    s'.2 = ops' ++ [MoveTo x1 (PInt 0); RelLineTo (PInt 0) bot_y; ClosePath; SetOperatorSource;
                    SetLineWidth (PFloat 1); black; Stroke;
                    MoveTo x2 (PInt 0); RelLineTo (PInt 0) bot_y; ClosePath; SetOperatorSource;
                    SetLineWidth (PFloat 1); black; Stroke].
Proof.
  intros Hlay Hth Hrun. unfold tr_layout in Hlay.
  destruct (timelines t) as [ts|] eqn:Hts; [|done]. cbn [attr res_of_option mbind res_bind] in Hlay.
  assert (∀ A (a b : A), Ok (E := exn) a = Ok b → a = b) as Hinj by congruence.
  apply Hinj in Hlay as Ht'. clear Hinj. set (m := t_height (te alphabet)) in *.
  assert (max_text_height t' = Some m ∧ timelines t' = Some ts ∧ padding t' = padding t)
    as (Em & Ets & Ep) by (rewrite <-Ht'; cbn; split_and!; congruence).
  destruct (tr_draw_ends te t' ops m ts s' Em Ets Hrun) as (ops' & x1 & x2 & y & Hops & Hy).
  eexists _, ops', x1, x2, y. split; [by rewrite <-Ht'|]. split; [|done].
  rewrite Hy, total_space_counts. cbn [height]. unfold event_space, range_space. rewrite Ep, nq_add.
  match goal with |- (_ <= nq (nmax ?a ?b) + _)%Q => pose proof (nmax_spec a b) as (_ & Hb & _);
    set (M := nmax a b) in * end.
  clearbody M. clear Ht'.
    rewrite !nq_add, !nq_mul, !nq_add in Hb. cbn [nq] in Hb.
  set (ev := count_entries event_int ts + count_entries event_str ts) in *.
  set (rg := count_entries ranges ts) in *. change (inject_Z 5) with 5%Q in Hb.
  assert (0 <= rg) as Hrg by apply count_entries_nonneg.
  unfold Z.sub in Hb. rewrite !inject_Z_plus, inject_Z_mult in Hb.
  change (inject_Z 10) with 10%Q in Hb. change (inject_Z (- (1))) with (-1)%Q in Hb.
  rewrite (Zle_Qle 0) in Hrg. change (inject_Z 0) with 0%Q in Hrg.
  assert (inject_Z rg * nq m <= inject_Z rg * 10)%Q
    by (rewrite !(Qmult_comm (inject_Z rg)); by apply Qmult_le_compat_r).
  lra.
Qed.

Definition sample_renderer : TimelinesRenderer (D := PyDict pystr) :=
  set_render_range (PInt 0) (PInt 40)
    (set_timelines [MkTimeline (str "n0") [sample_ranges] [] [sample_events]] new_Colors
       new_TimelinesRenderer).
Definition sample_laid_out : TimelinesRenderer (D := PyDict pystr) :=
  match tr_layout sample_extents (PInt 300) sample_renderer with Ok t => t | Raise _ => sample_renderer end.

Lemma timelines_drawing_fits_witness :
  tr_layout sample_extents (PInt 300) sample_renderer = Ok sample_laid_out ∧
  (tr_draw sample_extents (sample_laid_out, [])).1 = Ok tt ∧
  ∃ h bot_y, tr_get_height sample_laid_out = Ok h ∧ (nq bot_y <= nq h)%Q.
Proof.
  split; [vm_compute; reflexivity|]. split; [vm_compute; reflexivity|].
  destruct (timelines_drawing_fits sample_extents sample_renderer sample_laid_out (PInt 300) []
              (tr_draw sample_extents (sample_laid_out, [])).2) as (h & ops & x1 & x2 & y & Hh & Hy & _).
  - vm_compute. reflexivity.
  - vm_compute. discriminate.
  - vm_compute. reflexivity.
  - exists h, y. split; assumption.
Defined.
