(* ===== verification/Graphic.v ===== *)
(** * Models the window of utils/grid.py

    [GraphicRenderer], which owns the renderers and the visible range, and the
    mouse handling of [GtkGraphicRenderer] as a state machine.  A handler that
    raises keeps the changes it made before. *)
From Stdlib Require Import Ascii.
From S2P Require Export Renderer.
Open Scope Z_scope.

Section graphic.
Context (text_extents : pystr → extents).
Context {D : Type → Type} `{DictLaws pystr D}.

(** ** [GraphicRenderer] *)

Record GraphicRenderer := MkGraphic {
  gstart : num;
  gend : num;
  mid_scale : ScaleRenderer;
  bot_scale : ScaleRenderer;
  gwidth : num;
  gheight : num;
  r_start : option num;
  r_end : option num;
  data : option (TimelinesRenderer (D := D));
  top_legend : option TopLegendRenderer;
}.

Definition new_GraphicRenderer (start end_ : num) : GraphicRenderer :=
  MkGraphic (nfloat start) (nfloat end_) (set_top new_ScaleRenderer)
            (set_bot (set_bounds start end_ new_ScaleRenderer)) (PInt 1) (PInt 1) None None None None.

Definition get_width (g : GraphicRenderer) : num := gwidth g.
Definition get_height (g : GraphicRenderer) : num := gheight g.
Definition set_data (d : TimelinesRenderer) (g : GraphicRenderer) : GraphicRenderer :=
  MkGraphic (gstart g) (gend g) (mid_scale g) (bot_scale g) (gwidth g) (gheight g) (r_start g) (r_end g)
            (Some d) (top_legend g).
Definition set_top_legend (l : TopLegendRenderer) (g : GraphicRenderer) : GraphicRenderer :=
  MkGraphic (gstart g) (gend g) (mid_scale g) (bot_scale g) (gwidth g) (gheight g) (r_start g) (r_end g)
            (data g) (Some l).
Definition get_render_range (g : GraphicRenderer) : res exn (num * num) :=
  s ← attr (r_start g); e ← attr (r_end g); Ok (s, e).

Definition get_data_rectangle (g : GraphicRenderer) : res exn (num * num * num * num) :=
  l ← attr (top_legend g); y_start ← legend_get_height l;
  d ← attr (data g); x_start ← get_data_x_start d;
  h ← tr_get_height d;
  Ok (x_start, y_start, nsub (gwidth g) x_start, h).

Definition scale_data (x : num) (g : GraphicRenderer) : res exn num :=
  d ← attr (data g); x_start ← get_data_x_start d;
  q ← ndiv x (nsub (gwidth g) x_start);
  e ← attr (r_end g); s ← attr (r_start g);
  Ok (nmul q (nsub e s)).

Definition get_selection_rectangle (g : GraphicRenderer) : res exn (num * num * num * num) :=
  l ← attr (top_legend g); lh ← legend_get_height l;
  d ← attr (data g); dh ← tr_get_height d;
  mh ← scale_get_height (mid_scale g);
  bh ← scale_get_height (bot_scale g);
  s ← attr (r_start g); x_start ← get_position s (bot_scale g);
  e ← attr (r_end g); x_end ← get_position e (bot_scale g);
  Ok (x_start, nadd (nadd (nadd lh dh) mh) (PInt 20), nsub x_end x_start, nadd bh (PInt 20)).

Definition scale_selection (x : num) (g : GraphicRenderer) : res exn num :=
  q ← ndiv x (gwidth g); Ok (nmul q (nsub (gend g) (gstart g))).

Definition x_pixel (x width : num) (g : GraphicRenderer) : res exn num :=
  ndiv (nmul (nsub x (gstart g)) width) (nsub (gend g) (gstart g)).

(** [layout] lays the parts out in order; what was laid out before an exception
    stays. *)
Definition glift {A} (f : GraphicRenderer → res exn A) : stm GraphicRenderer A :=
  g ← st_get; st_lift (f g).
Definition upd_legend (l : TopLegendRenderer) (g : GraphicRenderer) : GraphicRenderer := set_top_legend l g.
Definition upd_mid (s : ScaleRenderer) (g : GraphicRenderer) : GraphicRenderer :=
  MkGraphic (gstart g) (gend g) s (bot_scale g) (gwidth g) (gheight g) (r_start g) (r_end g) (data g)
            (top_legend g).
Definition upd_bot (s : ScaleRenderer) (g : GraphicRenderer) : GraphicRenderer :=
  MkGraphic (gstart g) (gend g) (mid_scale g) s (gwidth g) (gheight g) (r_start g) (r_end g) (data g)
            (top_legend g).
Definition upd_size (w h : num) (g : GraphicRenderer) : GraphicRenderer :=
  MkGraphic (gstart g) (gend g) (mid_scale g) (bot_scale g) w h (r_start g) (r_end g) (data g)
            (top_legend g).
Definition upd_range (s e : num) (g : GraphicRenderer) : GraphicRenderer :=
  MkGraphic (gstart g) (gend g) (mid_scale g) (bot_scale g) (gwidth g) (gheight g) (Some s) (Some e)
            (data g) (top_legend g).

Definition graphic_layout (w h : num) : stm GraphicRenderer unit :=
  _ ← st_modify (upd_size w h);
  l ← glift (λ g, l ← attr (top_legend g); legend_layout text_extents w l);
  _ ← st_modify (upd_legend l);
  d ← glift (λ g, d ← attr (data g); tr_layout text_extents w d);
  _ ← st_modify (set_data d);
  x ← glift (λ g, d ← attr (data g); get_data_x_start d);
  m ← glift (λ g, searched (scale_layout text_extents (nsub w x) (mid_scale g)));
  _ ← st_modify (upd_mid m);
  b ← glift (λ g, searched (scale_layout text_extents w (bot_scale g)));
  st_modify (upd_bot b).

Definition set_range (start end_ : num) : stm GraphicRenderer unit :=
  let s := nmin start end_ in
  let e := nmax start end_ in
  g ← st_get;
  let start := nmax (gstart g) s in
  let end_ := nmin (gend g) e in
  _ ← st_modify (upd_range start end_);
  d ← glift (λ g, attr (data g));
  _ ← st_modify (set_data (set_render_range start end_ d));
  _ ← st_modify (λ g, upd_mid (set_bounds start end_ (mid_scale g)) g);
  graphic_layout (gwidth g) (gheight g).

(** ** Drawing the window *)

Definition grectangle (x y w h : num) : list draw_op := [Rectangle x y w h].
Definition white : draw_op := SetSourceRgb (PInt 1) (PInt 1) (PInt 1).
Definition light_grey : draw_op := SetSourceRgb grey grey grey.
Definition zero : num := PInt 0.

(** The calls that depend only on the geometry: the separations and the
    connections around the bottom scale. *)
Definition separation_line (w y : num) : list draw_op :=
  [MoveTo zero y; LineTo w y; ClosePath; SetLineWidth (PInt 2); black; Stroke].
Definition scale_separations (x w mid_height height_used : num) : list draw_op :=
  [MoveTo x height_used; RelLineTo zero (nneg mid_height); ClosePath; black; SetLineWidth (PInt 2); Stroke]
  ++ separation_line w height_used.
Definition connections (x w select_start select_end h : num) : list draw_op :=
  let h20 := nadd h (PInt 20) in
  [MoveTo zero h; LineTo x h; LineTo select_start h20; LineTo zero h20; LineTo zero h;
   black; SetLineWidth (PInt 1); StrokePreserve; light_grey; Fill;
   MoveTo w h; LineTo w h20; LineTo select_end h20; LineTo w h;
   black; SetLineWidth (PInt 1); StrokePreserve; light_grey; Fill].
Definition unused_area (w us ue h uh : num) : list draw_op :=
  [Rectangle zero h us uh; Rectangle ue h (nsub w ue) uh; light_grey; Fill;
   MoveTo ue h; LineTo w h; LineTo w (nadd h uh); LineTo zero (nadd h uh); LineTo zero h; LineTo us h;
   ClosePath; SetLineWidth (PInt 2); black; Stroke;
   MoveTo us h; LineTo ue h; ClosePath; SetLineWidth (PInt 1); light_grey; Stroke;
   Save; MoveTo (nmax us (PInt 2)) h; RelLineTo zero uh; MoveTo (nmin ue (nsub w (PInt 2))) h;
   RelLineTo zero uh; SetDash (PInt 5); black; SetLineWidth (PInt 1); Stroke; RestoreCtx].

(** Drawing changes the data renderer (its table of colors and the row
    counter), so it threads the whole graphic. *)
Definition gdrawing : Type → Type := stm (GraphicRenderer * list draw_op).
Definition gemit (ops : list draw_op) : gdrawing unit := st_modify (λ s, (s.1, s.2 ++ ops)).
Definition gself {A} (f : GraphicRenderer → res exn A) : gdrawing A := s ← st_get; st_lift (f s.1).
Definition draw_data : gdrawing unit :=
  s ← st_get;
  match data s.1 with
  | None => st_raise AttributeError
  | Some d =>
      let '(r, (d, ops)) := tr_draw text_extents (d, s.2) in
      _ ← st_put (set_data d s.1, ops); st_lift r
  end.

Definition graphic_draw : gdrawing unit :=
  w ← gself (λ g, Ok (gwidth g));
  h ← gself (λ g, Ok (gheight g));
  _ ← gemit [Save; white; SetOperatorSource; Rectangle zero zero w h; Fill; Save];
  l ← gself (λ g, attr (top_legend g));
  ops ← st_lift (legend_draw text_extents l);
  _ ← gemit ops;
  top_h ← st_lift (legend_get_height l);
  _ ← gemit ([RestoreCtx] ++ separation_line w top_h ++ [Save; Translate zero top_h]);
  _ ← draw_data;
  _ ← gemit [RestoreCtx; Save];
  d ← gself (λ g, attr (data g));
  x ← st_lift (get_data_x_start d);
  dh ← st_lift (tr_get_height d);
  mid ← gself (λ g, Ok (mid_scale g));
  mh ← st_lift (scale_get_height mid);
  let height_used := nadd (nadd top_h dh) mh in
  _ ← gemit [Translate x height_used];
  ops ← st_lift (scale_draw text_extents mid);
  _ ← gemit (ops ++ [RestoreCtx] ++ scale_separations x w mh height_used);
  bot ← gself (λ g, Ok (bot_scale g));
  s ← gself (λ g, attr (r_start g));
  us ← st_lift (get_position s bot);
  e ← gself (λ g, attr (r_end g));
  ue ← st_lift (get_position e bot);
  _ ← gemit (connections x w us ue height_used);
  let h20 := nadd height_used (PInt 20) in
  bh ← st_lift (scale_get_height bot);
  _ ← gemit (unused_area w us ue h20 (nadd bh (PInt 20)) ++ [Save; Translate zero h20]);
  ops ← st_lift (scale_draw text_extents bot);
  gemit (ops ++ [RestoreCtx]).

(** ** [GtkGraphicRenderer] *)

(** [__moving_right] starts as a boolean and can become a number. *)
Inductive flag : Type := FBool (b : bool) | FNum (n : num).
Definition truthy (f : flag) : bool :=
  match f with FBool b => b | FNum n => negb (nzero n) end.

(** Requests made to gtk, and calls on the context of the window. *)
Inductive cursor : Type := SbHDoubleArrow | Fleur | NoCursor.
Inductive gtk_op : Type :=
  | QueueDraw
  | QueueDrawArea (x y w h : Z)
  | SetCursor (c : cursor)
  | WindowDraw (op : draw_op)
  | WindowClip | WindowSourceBuffer | WindowPaint.

Record Gtk := MkGtk {
  graphic : GraphicRenderer;
  moving_left : bool;
  moving_right : flag;
  moving_both : bool;
  moving_top : bool;
  force_full_redraw : bool;
  moving_left_cur : option num;
  moving_right_cur : option num;
  moving_both_start : option num;
  moving_both_cur : option num;
  moving_top_start : option num;
  moving_top_cur : option num;
  gtk_width : option num;
  gtk_height : option num;
  buffer_surface : option (list draw_op);
  requests : list gtk_op;
}.
Definition new_Gtk (g : GraphicRenderer) : Gtk :=
  MkGtk g false (FBool false) false false true None None None None None None None None None [].

Definition handler : Type → Type := stm Gtk.
Definition hget {A} (f : Gtk → res exn A) : handler A := s ← st_get; st_lift (f s).
Definition request (op : gtk_op) : handler unit :=
  st_modify (λ s, MkGtk (graphic s) (moving_left s) (moving_right s) (moving_both s) (moving_top s)
    (force_full_redraw s) (moving_left_cur s) (moving_right_cur s) (moving_both_start s) (moving_both_cur s)
    (moving_top_start s) (moving_top_cur s) (gtk_width s) (gtk_height s) (buffer_surface s)
    (requests s ++ [op])).
Definition upd_flags (l : bool) (r : flag) (b t : bool) : handler unit :=
  st_modify (λ s, MkGtk (graphic s) l r b t
    (force_full_redraw s) (moving_left_cur s) (moving_right_cur s) (moving_both_start s) (moving_both_cur s)
    (moving_top_start s) (moving_top_cur s) (gtk_width s) (gtk_height s) (buffer_surface s) (requests s)).
Definition set_moving_left (v : bool) : handler unit :=
  s ← st_get; upd_flags v (moving_right s) (moving_both s) (moving_top s).
Definition set_moving_right (v : flag) : handler unit :=
  s ← st_get; upd_flags (moving_left s) v (moving_both s) (moving_top s).
Definition set_moving_both (v : bool) : handler unit :=
  s ← st_get; upd_flags (moving_left s) (moving_right s) v (moving_top s).
Definition set_moving_top (v : bool) : handler unit :=
  s ← st_get; upd_flags (moving_left s) (moving_right s) (moving_both s) v.
Definition set_curs (lc rc bs bc ts tc : option num) : handler unit :=
  st_modify (λ s, MkGtk (graphic s) (moving_left s) (moving_right s) (moving_both s) (moving_top s)
    (force_full_redraw s) lc rc bs bc ts tc (gtk_width s) (gtk_height s) (buffer_surface s) (requests s)).
Definition set_left_cur (x : num) : handler unit :=
  s ← st_get; set_curs (Some x) (moving_right_cur s) (moving_both_start s) (moving_both_cur s)
                       (moving_top_start s) (moving_top_cur s).
Definition set_right_cur (x : num) : handler unit :=
  s ← st_get; set_curs (moving_left_cur s) (Some x) (moving_both_start s) (moving_both_cur s)
                       (moving_top_start s) (moving_top_cur s).
Definition set_both (start cur : num) : handler unit :=
  s ← st_get; set_curs (moving_left_cur s) (moving_right_cur s) (Some start) (Some cur)
                       (moving_top_start s) (moving_top_cur s).
Definition set_top_drag (start cur : num) : handler unit :=
  s ← st_get; set_curs (moving_left_cur s) (moving_right_cur s) (moving_both_start s) (moving_both_cur s)
                       (Some start) (Some cur).
Definition upd_graphic (g : GraphicRenderer) (redraw : bool) (buffer : option (list draw_op)) : handler unit :=
  st_modify (λ s, MkGtk g (moving_left s) (moving_right s) (moving_both s) (moving_top s)
    redraw (moving_left_cur s) (moving_right_cur s) (moving_both_start s) (moving_both_cur s)
    (moving_top_start s) (moving_top_cur s) (gtk_width s) (gtk_height s) buffer (requests s)).
Definition set_redraw (v : bool) : handler unit :=
  s ← st_get; upd_graphic (graphic s) v (buffer_surface s).
(** Run an operation of the graphic. *)
Definition on_graphic {A} (m : stm GraphicRenderer A) : handler A :=
  s ← st_get;
  let '(r, g) := m (graphic s) in
  _ ← upd_graphic g (force_full_redraw s) (buffer_surface s);
  st_lift r.

Definition redraw_all : handler unit := _ ← set_redraw true; request QueueDraw.

Definition set_smaller_zoom : handler unit :=
  '(start, end_) ← hget (λ s, get_render_range (graphic s));
  _ ← on_graphic (set_range start (nadd start (nmul (nsub end_ start) (PInt 2))));
  redraw_all.
Definition set_bigger_zoom : handler unit :=
  '(start, end_) ← hget (λ s, get_render_range (graphic s));
  h ← st_lift (half (nsub end_ start));
  _ ← on_graphic (set_range start (nadd start h));
  redraw_all.

(** Draw the graphic on the buffer surface, after the calls already made on it. *)
Definition draw_on (surface : list draw_op) : handler unit :=
  s ← st_get;
  let '(r, (g, ops)) := graphic_draw (graphic s, surface) in
  _ ← upd_graphic g (force_full_redraw s) (Some ops);
  st_lift r.

(** What is written to the file: the calls made on the new surface. *)
Definition output_png : handler (list draw_op) :=
  let surface := [] in
  buffer ← hget (λ s, attr (buffer_surface s));
  _ ← draw_on buffer;
  mret surface.

Definition near (a b : num) : bool := nlt (nabs (nsub a b)) (PInt 5).
Definition inside (x lo width : num) : bool := nlt lo x && nlt x (nadd lo width).

Definition button_press (ex ey : num) : handler bool :=
  '(x, y, width, height) ← hget (λ s, get_selection_rectangle (graphic s));
  '(d_x, d_y, d_width, d_height) ← hget (λ s, get_data_rectangle (graphic s));
  if inside ey y height && near ex x then _ ← set_moving_left true; mret true
  else if inside ey y height && near ex (nadd x width) then
    _ ← set_moving_right (FBool true); mret true
  else if inside ey y height && inside ex x width then
    _ ← set_moving_both true; _ ← set_both ex ex; mret true
  else if inside ey d_y d_height && inside ex d_x d_width then
    _ ← set_moving_top true; _ ← set_top_drag ex ex; mret true
  else mret false.

Definition release_left : handler bool :=
  _ ← set_moving_left false;
  lft ← hget (λ s, cur ← attr (moving_left_cur s); scale_selection cur (graphic s));
  '(_, rgt) ← hget (λ s, get_render_range (graphic s));
  _ ← on_graphic (set_range lft rgt);
  _ ← redraw_all; mret true.
Definition release_right : handler bool :=
  _ ← set_moving_right (FBool false);
  rgt ← hget (λ s, cur ← attr (moving_right_cur s); scale_selection cur (graphic s));
  '(lft, _) ← hget (λ s, get_render_range (graphic s));
  _ ← on_graphic (set_range lft rgt);
  _ ← redraw_all; mret true.
Definition release_both : handler bool :=
  _ ← set_moving_both false;
  delta ← hget (λ s, cur ← attr (moving_both_cur s); start ← attr (moving_both_start s);
                     scale_selection (nsub cur start) (graphic s));
  '(lft, rgt) ← hget (λ s, get_render_range (graphic s));
  _ ← on_graphic (set_range (nadd lft delta) (nadd rgt delta));
  _ ← redraw_all; mret true.

Definition button_release : handler bool :=
  s ← st_get;
  if moving_left s then release_left
  else if truthy (moving_right s) then release_right
  else if moving_both s then release_both
  else if moving_top s then _ ← set_moving_top false; mret false
  else mret false.

Definition redraw_selection (y height : num) : handler unit :=
  w ← hget (λ s, attr (gtk_width s));
  request (QueueDrawArea 0 (nint y) (nint w) (nint height)).

Definition motion_left (ex x y width height : num) : handler bool :=
  _ ← set_left_cur (if nle ex zero then zero else if nle (nadd x width) ex then nadd x width else ex);
  _ ← redraw_selection y height; mret true.
Definition motion_right (ex x y height : num) : handler bool :=
  w ← hget (λ s, attr (gtk_width s));
  _ ← (if nle w ex then set_moving_right (FNum w)
       else if nlt ex x then set_right_cur x else set_right_cur ex);
  _ ← redraw_selection y height; mret true.
Definition both_cur (w x width start ex : num) : num :=
  let cur_e := nsub w (nsub (nadd x width) start) in
  let cur_s := nsub start x in
  if nlt ex cur_s then cur_s else if nlt cur_e ex then cur_e else ex.
Definition motion_both (ex x y width height : num) : handler bool :=
  w ← hget (λ s, attr (gtk_width s));
  start ← hget (λ s, attr (moving_both_start s));
  _ ← set_both start (both_cur w x width start ex);
  _ ← redraw_selection y height; mret true.
Definition motion_top (ex : num) : handler bool :=
  start ← hget (λ s, attr (moving_top_start s));
  _ ← set_top_drag start ex;
  delta ← hget (λ s, scale_data (nsub start ex) (graphic s));
  '(lft, rgt) ← hget (λ s, get_render_range (graphic s));
  _ ← on_graphic (set_range (nadd lft delta) (nadd rgt delta));
  _ ← set_redraw true;
  _ ← set_top_drag ex ex;
  _ ← request QueueDraw; mret true.

Definition motion_notify (ex ey : num) : handler bool :=
  '(x, y, width, height) ← hget (λ s, get_selection_rectangle (graphic s));
  s ← st_get;
  if moving_left s then motion_left ex x y width height
  else if truthy (moving_right s) then motion_right ex x y height
  else if moving_both s then motion_both ex x y width height
  else if moving_top s then motion_top ex
  else
    '(d_x, d_y, d_width, d_height) ← hget (λ s, get_data_rectangle (graphic s));
    if inside ey y height && (near ex x || near ex (nadd x width)) then
      _ ← request (SetCursor SbHDoubleArrow); mret true
    else if inside ey y height && inside ex x width then _ ← request (SetCursor Fleur); mret true
    else if inside ey d_y d_height && inside ex d_x d_width then
      _ ← request (SetCursor Fleur); mret true
    else _ ← request (SetCursor NoCursor); mret false.

Definition size_allocate (w h : num) : handler unit :=
  _ ← st_modify (λ s, MkGtk (graphic s) (moving_left s) (moving_right s) (moving_both s) (moving_top s)
    (force_full_redraw s) (moving_left_cur s) (moving_right_cur s) (moving_both_start s) (moving_both_cur s)
    (moving_top_start s) (moving_top_cur s) (Some w) (Some h) (buffer_surface s) (requests s));
  _ ← on_graphic (graphic_layout w h);
  redraw_all.

Definition window (ops : list draw_op) : handler unit := st_for (λ op, request (WindowDraw op)) ops.
Definition handle_line (x y height : num) : list draw_op :=
  [MoveTo x y; RelLineTo zero height; ClosePath].

Definition expose (ax ay aw ah : num) : handler bool :=
  s ← st_get;
  _ ← (if force_full_redraw s then
         _ ← draw_on []; set_redraw false
       else mret tt);
  _ ← window [Rectangle ax ay aw ah];
  _ ← request WindowClip;
  _ ← hget (λ s, attr (buffer_surface s));
  _ ← request WindowSourceBuffer;
  _ ← request WindowPaint;
  '(x, y, width, height) ← hget (λ s, get_selection_rectangle (graphic s));
  s ← st_get;
  _ ← (if moving_left s then
         cur ← st_lift (attr (moving_left_cur s));
         window (handle_line (nmax cur (PInt 2)) y height ++ [SetLineWidth (PInt 1); black; Stroke])
       else mret tt);
  _ ← (if truthy (moving_right s) then
         cur ← st_lift (attr (moving_right_cur s));
         w ← st_lift (attr (gtk_width s));
         window (handle_line (nmin cur (nsub w (PInt 2))) y height ++ [SetLineWidth (PInt 1); black; Stroke])
       else mret tt);
  _ ← (if moving_both s then
         cur ← st_lift (attr (moving_both_cur s));
         start ← st_lift (attr (moving_both_start s));
         let delta_x := nsub cur start in
         window (handle_line (nadd x delta_x) y height ++ handle_line (nadd (nadd x width) delta_x) y height
                 ++ [black; SetLineWidth (PInt 1); Stroke])
       else mret tt);
  mret false.

(** ** [main], up to the window *)

Definition legend_colors (values : list pystr) (cs : Colors D) : res exn (list Color * Colors D) :=
  fold_res (λ '(l, cs) v, '(c, cs) ← lookup_color v cs; Ok (l ++ [c], cs)) ([], cs) values.

Definition main_graphic (cs : Colors D) (ts : Timelines) : res exn GraphicRenderer :=
  let '(lower_bound, upper_bound) := timelines_get_bounds ts in
  let range_values := get_all_range_values (D := D) ts in
  '(range_colors, cs) ← legend_colors range_values cs;
  let g := new_GraphicRenderer (PInt lower_bound) (PInt upper_bound) in
  let g := set_top_legend (set_legends range_values range_colors new_TopLegendRenderer) g in
  let g := set_data (set_timelines ts cs new_TimelinesRenderer) g in
  let range_mid := (upper_bound - lower_bound) / 2 in
  let range_width := (upper_bound - lower_bound) / 10 in
  let range_lo := range_mid - range_width / 2 in
  let range_hi := range_mid + range_width / 2 in
  match set_range (PInt range_lo) (PInt range_hi) g with
  | (Ok _, g) => Ok g
  | (Raise e, _) => Raise e
  end.
End graphic.

(** ** The visible range *)

Section range_facts.
Context (te : pystr → extents).
Context {D : Type → Type} `{DictLaws pystr D}.
Local Abbreviation G := (GraphicRenderer (D := D)).

(** [layout] does not move the range, also when it raises. *)
Definition same_range (g g' : G) : Prop :=
  r_start g' = r_start g ∧ r_end g' = r_end g ∧ gstart g' = gstart g ∧ gend g' = gend g.
Definition holds_range {A} (m : stm G A) : Prop := ∀ g, same_range g (m g).2.

Lemma holds_bind {A B} (m : stm G A) (f : A → stm G B) :
  holds_range m → (∀ a, holds_range (f a)) → holds_range (m ≫= f).
Proof.
  intros Hm Hf g. unfold mbind, stm_bind. specialize (Hm g).
  destruct (m g) as [[a|e] g1]; cbn in *; [|done]. destruct (Hf a g1) as (? & ? & ? & ?), Hm as (? & ? & ? & ?).
  split_and!; congruence.
Qed.
Lemma holds_glift {A} (f : G → res exn A) : holds_range (glift f).
Proof. intros g. by split_and!. Qed.
Lemma holds_modify f : (∀ g, same_range g (f g)) → holds_range (st_modify f).
Proof. intros Hf g. apply Hf. Qed.

Lemma layout_holds_range w h : holds_range (graphic_layout te w h).
Proof.
  unfold graphic_layout.
  repeat (apply holds_bind; [first [apply holds_glift|apply holds_modify; intros ?; by split_and!]|intros ?]).
  apply holds_modify. intros g. by split_and!.
Qed.

Lemma set_range_result (g : G) a b :
  let s := nmax (gstart g) (nmin a b) in
  let e := nmin (gend g) (nmax a b) in
  same_range (upd_range s e g) (set_range te a b g).2.
Proof.
  cbv zeta. unfold set_range.
  set (s := nmax (gstart g) (nmin a b)). set (e := nmin (gend g) (nmax a b)).
  change (same_range (upd_range s e g)
    ((d ← glift (λ g, attr (data g));
      _ ← st_modify (set_data (set_render_range s e d));
      _ ← st_modify (λ g, upd_mid (set_bounds s e (mid_scale g)) g);
      graphic_layout te (gwidth g) (gheight g)) (upd_range s e g)).2).
  apply holds_bind; [apply holds_glift|intros d].
  do 2 (apply holds_bind; [apply holds_modify; intros ?; by split_and!|intros ?]).
  apply layout_holds_range.
Qed.
End range_facts.

(** ** The mouse *)

Section mouse_facts.
Context (te : pystr → extents).
Context {D : Type → Type} `{DictLaws pystr D}.
Local Abbreviation S := (Gtk (D := D)).

Definition flags (s : S) : bool * flag * bool * bool :=
  (moving_left s, moving_right s, moving_both s, moving_top s).
Definition flags_kept {A} (m : handler (D := D) A) : Prop := ∀ s, flags (m s).2 = flags s.

Lemma kept_bind {A B} (m : handler A) (f : A → handler B) :
  flags_kept m → (∀ a, flags_kept (f a)) → flags_kept (m ≫= f).
Proof.
  intros Hm Hf s. unfold mbind, stm_bind. specialize (Hm s).
  destruct (m s) as [[a|e] s1]; cbn in *; [|done]. by rewrite Hf.
Qed.
Lemma kept_ret {A} (a : A) : flags_kept (mret a). Proof. done. Qed.
Lemma kept_get : flags_kept st_get. Proof. done. Qed.
Lemma kept_lift {A} (r : res exn A) : flags_kept (st_lift r). Proof. done. Qed.
Lemma kept_hget {A} (f : S → res exn A) : flags_kept (hget f). Proof. done. Qed.
Lemma kept_request op : flags_kept (request op). Proof. done. Qed.
Lemma kept_curs a b c d e f : flags_kept (set_curs a b c d e f). Proof. done. Qed.
Lemma kept_graphic g b o : flags_kept (upd_graphic g b o). Proof. done. Qed.
Lemma kept_on_graphic {A} (m : stm GraphicRenderer A) : flags_kept (on_graphic m).
Proof.
  intros s. unfold on_graphic, mbind, stm_bind, st_get. by destruct (m (graphic s)) as [r g].
Qed.
Lemma kept_draw_on ops : flags_kept (draw_on te ops).
Proof.
  intros s. unfold draw_on, mbind, stm_bind, st_get. by destruct (graphic_draw te (graphic s, ops)) as [r [g ops']].
Qed.
Lemma kept_for {A} (f : A → handler unit) l : (∀ x, flags_kept (f x)) → flags_kept (st_for f l).
Proof. intros Hf. induction l; [apply kept_ret|]. cbn [st_for]. apply kept_bind; auto. Qed.
Lemma kept_modify f : (∀ s, flags (f s) = flags s) → flags_kept (st_modify f).
Proof. intros Hf s. apply Hf. Qed.

Create HintDb kept discriminated.
Hint Resolve kept_ret kept_get kept_lift kept_hget kept_request kept_curs kept_graphic kept_on_graphic
  kept_draw_on : kept.
Ltac kept_tac :=
  repeat (first [apply kept_bind; [|intros ?]|apply kept_for; intros ?|case_match];
          try solve [eauto with kept]);
  eauto with kept.

Lemma kept_set_redraw v : flags_kept (set_redraw v). Proof. unfold set_redraw. kept_tac. Qed.
Lemma kept_left_cur x : flags_kept (set_left_cur x). Proof. unfold set_left_cur. kept_tac. Qed.
Lemma kept_right_cur x : flags_kept (set_right_cur x). Proof. unfold set_right_cur. kept_tac. Qed.
Lemma kept_set_both a b : flags_kept (set_both a b). Proof. unfold set_both. kept_tac. Qed.
Lemma kept_top_drag a b : flags_kept (set_top_drag a b). Proof. unfold set_top_drag. kept_tac. Qed.
Hint Resolve kept_set_redraw kept_left_cur kept_right_cur kept_set_both kept_top_drag : kept.
Lemma kept_redraw_all : flags_kept redraw_all. Proof. unfold redraw_all. kept_tac. Qed.
Lemma kept_selection y h : flags_kept (redraw_selection y h). Proof. unfold redraw_selection. kept_tac. Qed.
Hint Resolve kept_redraw_all kept_selection : kept.

Lemma kept_smaller : flags_kept (set_smaller_zoom te). Proof. unfold set_smaller_zoom. kept_tac. Qed.
Lemma kept_bigger : flags_kept (set_bigger_zoom te). Proof. unfold set_bigger_zoom. kept_tac. Qed.
Lemma kept_output_png : flags_kept (output_png te). Proof. unfold output_png. kept_tac. Qed.
Lemma kept_size_allocate w h : flags_kept (size_allocate te w h).
Proof.
  unfold size_allocate. apply kept_bind; [apply kept_modify; done|intros ?]. kept_tac.
Qed.
Lemma kept_expose a b c d : flags_kept (expose te a b c d).
Proof. unfold expose, window. kept_tac. Qed.
Lemma kept_motion_left ex x y w h : flags_kept (motion_left ex x y w h).
Proof. unfold motion_left. kept_tac. Qed.
Lemma kept_motion_both ex x y w h : flags_kept (motion_both ex x y w h).
Proof. unfold motion_both. kept_tac. Qed.
Lemma kept_motion_top ex : flags_kept (motion_top te ex).
Proof. unfold motion_top. kept_tac. Qed.

(** The number of drags in progress. *)
Definition drags (s : S) : nat :=
  (Nat.b2n (moving_left s) + Nat.b2n (truthy (moving_right s)) + Nat.b2n (moving_both s)
   + Nat.b2n (moving_top s))%nat.

Lemma drags_flags s s' : flags s' = flags s → drags s' = drags s.
Proof. unfold flags, drags. by intros [= -> -> -> ->]. Qed.
Lemma drags_kept {A} (m : handler A) s : flags_kept m → drags (m s).2 = drags s.
Proof. intros Hm. apply drags_flags, Hm. Qed.

(** A computation that first sets flags and then keeps them. *)
Lemma drags_after {A B} (m : handler A) (f : A → handler B) s a s1 :
  m s = (Ok a, s1) → (∀ a, flags_kept (f a)) → drags ((m ≫= f) s).2 = drags s1.
Proof. intros Hm Hf. rewrite (st_bind_step _ _ _ _ _ Hm). apply drags_kept, Hf. Qed.

Lemma hget_cases {A B} (f : S → res exn A) (k : A → handler B) s :
  (∃ a, f s = Ok a ∧ (hget f ≫= k) s = k a s) ∨ ∃ e, f s = Raise e ∧ (hget f ≫= k) s = (Raise e, s).
Proof.
  unfold hget, mbind, stm_bind, st_get, st_lift. destruct (f s) as [a|e]; [left|right]; eauto.
Qed.

Lemma press_drags ex ey s : drags s = 0%nat → (drags (button_press ex ey s).2 ≤ 1)%nat.
Proof.
  intros Hs. unfold button_press.
  match goal with |- context [(hget ?f ≫= ?k) s] =>
    destruct (hget_cases f k s) as [([[[x y] w] h] & _ & ->)|(e & _ & ->)]; [|cbn; lia] end.
  match goal with |- context [(hget ?f ≫= ?k) s] =>
    destruct (hget_cases f k s) as [([[[dx dy] dw] dh] & _ & ->)|(e & _ & ->)]; [|cbn; lia] end.
  assert (moving_left s = false ∧ truthy (moving_right s) = false ∧ moving_both s = false ∧
          moving_top s = false) as (E1 & E2 & E3 & E4).
  { unfold drags in Hs. destruct (moving_left s), (truthy (moving_right s)), (moving_both s), (moving_top s);
      cbn in Hs; try lia; done. }
  repeat case_match; [| | | |cbn; lia]; erewrite drags_after; try reflexivity;
    unfold drags; cbn; rewrite ?E1, ?E2, ?E3, ?E4; cbn; try lia; intros; eauto using kept_ret.
  all: apply kept_bind; eauto with kept.
Qed.

Lemma release_drags s : (drags s ≤ 1)%nat → drags (button_release te s).2 = 0%nat.
Proof.
  intros Hs. unfold button_release. rewrite (st_bind_step _ _ s s s) by done.
  assert (∀ A B (m : handler A) (f : A → handler B), (∀ a, flags_kept (f a)) → ∀ a s1,
    m s = (Ok a, s1) → drags s1 = 0%nat → drags ((m ≫= f) s).2 = 0%nat) as Hgo.
  { intros A B m f Hf a s1 Hm H1. by erewrite drags_after. }
  destruct (moving_left s) eqn:E1; [|destruct (truthy (moving_right s)) eqn:E2;
    [|destruct (moving_both s) eqn:E3; [|destruct (moving_top s) eqn:E4]]].
  - unfold release_left. eapply Hgo; [intros ?; kept_tac|reflexivity|].
    unfold drags in *. rewrite E1 in Hs. cbn in *. lia.
  - unfold release_right. eapply Hgo; [intros ?; kept_tac|reflexivity|].
    unfold drags in *. rewrite E1, E2 in Hs. cbn in *. rewrite E1. cbn. lia.
  - unfold release_both. eapply Hgo; [intros ?; kept_tac|reflexivity|].
    unfold drags in *. rewrite E1, E2, E3 in Hs. cbn in *. rewrite E1, E2. cbn. lia.
  - eapply Hgo; [intros ?; kept_tac|reflexivity|].
    unfold drags in *. rewrite E1, E2, E3, E4 in Hs. cbn in *. by rewrite E1, E2, E3.
  - unfold drags. cbn. by rewrite E1, E2, E3, E4.
Qed.

Lemma motion_right_drags ex x y h s :
  truthy (moving_right s) = true → (drags s ≤ 1)%nat → (drags (motion_right ex x y h s).2 ≤ 1)%nat.
Proof.
  intros Hr Hs. unfold motion_right.
  match goal with |- context [(hget ?f ≫= ?k) s] =>
    destruct (hget_cases f k s) as [(w & _ & ->)|(e & _ & ->)]; [|done] end.
  destruct (nle w ex).
  - erewrite drags_after; [|reflexivity|intros ?; kept_tac].
    unfold drags in *. rewrite Hr in Hs. cbn in *. destruct (negb (nzero w)); cbn; lia.
  - rewrite drags_kept; [done|]. kept_tac.
Qed.

Lemma motion_drags ex ey s : (drags s ≤ 1)%nat → (drags (motion_notify te ex ey s).2 ≤ drags s ∨
  drags (motion_notify te ex ey s).2 ≤ 1 ∧ truthy (moving_right s) = true)%nat.
Proof.
  intros Hs. unfold motion_notify.
  match goal with |- context [(hget ?f ≫= ?k) s] =>
    destruct (hget_cases f k s) as [([[[x y] w] h] & _ & ->)|(e & _ & ->)]; [|by left] end.
  rewrite (st_bind_step _ _ s s s) by done.
  destruct (moving_left s).
  { left. rewrite drags_kept; [done|apply kept_motion_left]. }
  destruct (truthy (moving_right s)) eqn:E2; [right; split; [by apply motion_right_drags|done]|left].
  destruct (moving_both s); [rewrite drags_kept; [done|apply kept_motion_both]|].
  destruct (moving_top s); [rewrite drags_kept; [done|apply kept_motion_top]|].
  rewrite drags_kept; [done|]. kept_tac.
Qed.

(** Events of the window while one mouse button is used: a press and a release
    alternate, anything else may come between. *)
Inductive window_step : bool * S → bool * S → Prop :=
  | PressStep ex ey s : window_step (false, s) (true, (button_press ex ey s).2)
  | ReleaseStep s : window_step (true, s) (false, (button_release te s).2)
  | MotionStep b ex ey s : window_step (b, s) (b, (motion_notify te ex ey s).2)
  | ZoomOutStep b s : window_step (b, s) (b, (set_smaller_zoom te s).2)
  | ZoomInStep b s : window_step (b, s) (b, (set_bigger_zoom te s).2)
  | PngStep b s : window_step (b, s) (b, (output_png te s).2)
  | ResizeStep b w h s : window_step (b, s) (b, (size_allocate te w h s).2)
  | ExposeStep b x y w h s : window_step (b, s) (b, (expose te x y w h s).2).

Definition drags_ok (p : bool * S) : Prop := (drags p.2 ≤ Nat.b2n p.1)%nat.

Lemma window_step_drags p p' : window_step p p' → drags_ok p → drags_ok p'.
Proof.
  intros Hstep. unfold drags_ok. destruct Hstep as [ex ey s|s|b ex ey s|b s|b s|b s|b w h s|b x y w h s];
    cbn [fst snd]; intros Hs; try (rewrite drags_kept; [done|];
      solve [auto using kept_smaller, kept_bigger, kept_output_png, kept_size_allocate, kept_expose]).
  - cbn in *. pose proof (press_drags ex ey s). lia.
  - cbn in *. rewrite release_drags; lia.
  - assert (drags s ≤ 1)%nat as H1 by (destruct b; cbn [Nat.b2n] in Hs; lia).
    destruct (motion_drags ex ey s H1) as [Hm|[Hm Hr]]; [lia|].
    destruct b; [done|]. exfalso. cbn in Hs. unfold drags in Hs. rewrite Hr in Hs. cbn in Hs. lia.
Qed.
End mouse_facts.

(** Moving the selection as a whole: the position of the mouse is clamped. *)
Lemma both_cur_inside w x width start ex :
  (0 <= nq x)%Q → (nq x + nq width <= nq w)%Q →
  let c := both_cur w x width start ex in
  (0 <= nq x + (nq c - nq start))%Q ∧ (nq x + nq width + (nq c - nq start) <= nq w)%Q.
Proof.
  intros Hx Hw. cbv zeta. unfold both_cur.
  destruct (nlt ex _) eqn:H1; [rewrite nq_sub; split; lra|].
  destruct (nlt _ ex) eqn:H2; rewrite ?nq_sub, ?nq_add.
  - split; lra.
  - apply nlt_false in H1, H2. rewrite ?nq_sub, ?nq_add in *. split; lra.
Qed.

Lemma hget_step {D : Type → Type} {A B} (f : Gtk (D := D) → res exn A) (k : A → handler B) s a :
  f s = Ok a → (hget f ≫= k) s = k a s.
Proof. intros Hf. unfold hget, mbind, stm_bind, st_get, st_lift. by rewrite Hf. Qed.

Lemma hget_raise {D : Type → Type} {A B} (f : Gtk (D := D) → res exn A) (k : A → handler B) s e :
  f s = Raise e → (hget f ≫= k) s = (Raise e, s).
Proof. intros Hf. unfold hget, mbind, stm_bind, st_get, st_lift. by rewrite Hf. Qed.

Lemma handler_step {D : Type → Type} {A B} (m : handler (D := D) A) (k : A → handler B) s a s1 :
  m s = (Ok a, s1) → (m ≫= k) s = k a s1.
Proof. intros Hm. unfold mbind, stm_bind. by rewrite Hm. Qed.

Lemma redraw_selection_step {D : Type → Type} {B} y h (k : unit → handler (D := D) B) s w :
  gtk_width s = Some w →
  (redraw_selection y h ≫= k) s = k tt (request (QueueDrawArea 0 (nint y) (nint w) (nint h)) s).2.
Proof.
  intros Hw. unfold redraw_selection, hget, mbind, stm_bind, st_get, st_lift. by rewrite Hw.
Qed.

(** ** Properties *)

Section graphic_properties.
Context (te : pystr → extents).
Context {D : Type → Type} `{DictLaws pystr D}.

Lemma button_release_eq (s : Gtk (D := D)) :
  button_release te s =
    (if moving_left s then release_left te
     else if truthy (moving_right s) then release_right te
     else if moving_both s then release_both te
     else if moving_top s then _ ← set_moving_top false; mret false
     else mret false) s.
Proof. done. Qed.

(** [set_range] cuts the window it is given, in either order, to the bounds
    of the data, also when the layout after it raises.  The result is the
    intersection when the two meet, and is empty ([end < start]) otherwise. *)
Theorem set_range_clamps (g : GraphicRenderer (D := D)) a b :
  ∃ s e, let g' := (set_range te a b g).2 in
    r_start g' = Some s ∧ r_end g' = Some e ∧
    (nq (gstart g) <= nq s)%Q ∧ (nq e <= nq (gend g))%Q ∧
    (∀ q, (nq (gstart g) <= q <= nq (gend g))%Q →
          (nq (nmin a b) <= q <= nq (nmax a b))%Q ↔ (nq s <= q <= nq e)%Q) ∧
    ((nq (nmax a b) < nq (gstart g))%Q ∨ (nq (gend g) < nq (nmin a b))%Q →
     (nq (gstart g) <= nq (gend g))%Q → (nq e < nq s)%Q).
Proof.
  destruct (set_range_result te g a b) as (Hs & He & _). cbn [r_start r_end upd_range] in Hs, He.
  eexists _, _. cbv zeta. rewrite Hs, He. split; [done|]. split; [done|].
  set (lo := nmin a b) in *. set (hi := nmax a b) in *.
  destruct (nmax_spec (gstart g) lo) as (M1 & M2 & M3), (nmin_spec (gend g) hi) as (N1 & N2 & N3).
  split_and!; [done|done| |].
  - intros q [Hq1 Hq2]. clear Hs He.
    destruct M3 as [M3|M3], N3 as [N3|N3]; rewrite M3 in M1, M2 |- *; rewrite N3 in N1, N2 |- *;
      (split; intros [? ?]; split; lra).
  - intros Hout Hord. destruct (nmin_spec a b) as (L1 & L2 & _), (nmax_spec a b) as (H1 & H2 & _).
    fold lo in L1, L2. fold hi in H1, H2.
    destruct Hout; lra.
Qed.

(** While the whole selection is dragged, every motion event leaves a
    position at which the dragged selection lies within the window; the visible
    range changes only on release. *)
Theorem drag_both_stays_inside (s : Gtk (D := D)) ex ey x y width height w start :
  get_selection_rectangle (graphic s) = Ok (x, y, width, height) →
  gtk_width s = Some w → moving_both_start s = Some start →
  moving_left s = false → truthy (moving_right s) = false → moving_both s = true →
  (0 <= nq x)%Q → (nq x + nq width <= nq w)%Q →
  ∃ c s', motion_notify te ex ey s = (Ok true, s') ∧ graphic s' = graphic s ∧
    moving_both_start s' = Some start ∧ moving_both_cur s' = Some c ∧
    (0 <= nq x + (nq c - nq start))%Q ∧ (nq x + nq width + (nq c - nq start) <= nq w)%Q.
Proof.
  intros Hsel Hw Hst E1 E2 E3 Hx Hxw.
  exists (both_cur w x width start ex). eexists. split.
  - unfold motion_notify. rewrite (hget_step _ _ _ _ Hsel).
    rewrite (st_bind_step _ _ s s s) by done. rewrite E1, E2, E3. unfold motion_both.
    rewrite (hget_step _ _ _ w) by by rewrite Hw. rewrite (hget_step _ _ _ start) by by rewrite Hst.
    erewrite handler_step by reflexivity. rewrite (redraw_selection_step _ _ _ _ w) by done. reflexivity.
  - cbn. split_and!; [done|done|done|by apply both_cur_inside..].
Qed.

(** Over any sequence of window events in which presses and releases
    alternate, at most one drag is in progress, and none between a release and
    the next press, whichever handlers raise. *)
Theorem mouse_protocol (g : GraphicRenderer (D := D)) b s :
  rtc (window_step te) (false, new_Gtk g) (b, s) →
  (drags s ≤ 1)%nat ∧ (b = false → drags s = 0%nat).
Proof.
  intros Hr. assert (drags_ok (b, s)) as Hok.
  { assert (drags_ok (false, new_Gtk g)) as H1 by (unfold drags_ok; cbn; lia).
    revert H1. induction Hr as [|p p1 p2 Hstep Hr IH]; [done|].
    intros Hp. apply IH. by eapply window_step_drags. }
  unfold drags_ok in Hok. cbn [fst snd] in Hok. destruct b; cbn in Hok; split; intros; try done; lia.
Qed.

(** Dragging the right handle to or past the right edge is lost: the
    position is not recorded, and a release after it without an earlier motion
    raises [AttributeError] and leaves the range as it was. *)
Theorem right_edge_drag_lost (s : Gtk (D := D)) ex ey x y width height w :
  get_selection_rectangle (graphic s) = Ok (x, y, width, height) →
  gtk_width s = Some w → nzero w = false → (nq w <= nq ex)%Q →
  moving_left s = false → truthy (moving_right s) = true → moving_right_cur s = None →
  ∃ s1 s2, motion_notify te ex ey s = (Ok true, s1) ∧ moving_right_cur s1 = None ∧
    button_release te s1 = (Raise AttributeError, s2) ∧ graphic s2 = graphic s.
Proof.
  intros Hsel Hw Hnz Hex E1 E2 Hcur. apply nle_spec in Hex.
  eexists _, _. split; [|split; [|split]].
  - unfold motion_notify. rewrite (hget_step _ _ _ _ Hsel).
    rewrite (st_bind_step _ _ s s s) by done. rewrite E1, E2. unfold motion_right.
    rewrite (hget_step _ _ _ w) by by rewrite Hw. rewrite Hex.
    erewrite handler_step by reflexivity. rewrite (redraw_selection_step _ _ _ _ w) by done. reflexivity.
  - done.
  - rewrite button_release_eq.
    match goal with |- context [moving_left ?X] =>
      change (moving_left X) with (moving_left s); change (moving_right X) with (FNum w) end.
    rewrite E1. cbn [truthy]. rewrite Hnz. cbn [negb]. unfold release_right. erewrite handler_step by reflexivity.
    erewrite hget_raise; [reflexivity|]. cbn. by rewrite Hcur.
  - done.
Qed.

(** The file written by [output_png] is always blank. *)
Lemma output_png_blank (s s' : Gtk (D := D)) png : output_png te s = (Ok png, s') → png = [].
Proof.
  unfold output_png. intros (b & s1 & _ & Hrun)%stm_bind_ok.
  apply stm_bind_ok in Hrun as (u & s2 & _ & Hrun). by injection Hrun.
Qed.
End graphic_properties.

(** ** Witnesses and examples *)

Definition sample_timelines : Timelines := [MkTimeline (str "n0") [sample_ranges] [] [sample_events]].
Definition sample_graphic : GraphicRenderer (D := PyDict pystr) :=
  match main_graphic sample_extents new_Colors sample_timelines with
  | Ok g => g
  | Raise _ => new_GraphicRenderer (PInt 0) (PInt 1)
  end.
Definition sample_window : Gtk (D := PyDict pystr) :=
  (size_allocate sample_extents (PInt 400) (PInt 300) (new_Gtk sample_graphic)).2.

(** The selection of the sample is at 180, 40 wide. *)
Definition sample_rectangle : num * num * num * num :=
  match get_selection_rectangle (graphic sample_window) with
  | Ok r => r
  | Raise _ => (zero, zero, zero, zero)
  end.
Example sample_selection :
  main_graphic sample_extents (D := PyDict pystr) new_Colors sample_timelines = Ok sample_graphic ∧
  get_selection_rectangle (graphic sample_window) = Ok sample_rectangle ∧
  sample_rectangle.1.1.1 = PInt 180 ∧ sample_rectangle.1.2 = PInt 40.
Proof. vm_compute. auto. Qed.

Lemma set_range_clamps_witness :
  ∃ s e, let g' := (set_range sample_extents (PInt 30) (PInt 90) sample_graphic).2 in
    r_start g' = Some s ∧ r_end g' = Some e ∧
    (nq (gstart sample_graphic) <= nq s)%Q ∧ (nq e <= nq (gend sample_graphic))%Q.
Proof.
  destruct (set_range_clamps sample_extents sample_graphic (PInt 30) (PInt 90))
    as (s & e & H1 & H2 & H3 & H4 & _).
  exists s, e. split_and!; assumption.
Defined.

Definition dragging : Gtk (D := PyDict pystr) :=
  (button_press (PInt 200) (nadd sample_rectangle.1.1.2 (PInt 5)) sample_window).2.

Lemma drag_both_stays_inside_witness :
  ∃ c s', motion_notify sample_extents (PInt 999) (PInt 0) dragging = (Ok true, s') ∧
    graphic s' = graphic dragging ∧ moving_both_start s' = Some (PInt 200) ∧ moving_both_cur s' = Some c ∧
    (0 <= nq (PInt 180) + (nq c - nq (PInt 200)))%Q ∧
    (nq (PInt 180) + nq (PInt 40) + (nq c - nq (PInt 200)) <= nq (PInt 400))%Q.
Proof.
  apply (drag_both_stays_inside sample_extents dragging (PInt 999) (PInt 0) (PInt 180)
           sample_rectangle.1.1.2 (PInt 40) sample_rectangle.2 (PInt 400) (PInt 200));
    vm_compute; first [reflexivity | discriminate].
Defined.

Lemma mouse_protocol_witness :
  let s := (button_press (PInt 200) (nadd sample_rectangle.1.1.2 (PInt 5)) (new_Gtk sample_graphic)).2 in
  (drags s ≤ 1)%nat ∧ (true = false → drags s = 0%nat).
Proof.
  intros s. apply (mouse_protocol sample_extents sample_graphic true s).
  apply rtc_once. apply (PressStep sample_extents).
Defined.

Definition right_handle : Gtk (D := PyDict pystr) :=
  (button_press (PInt 220) (nadd sample_rectangle.1.1.2 (PInt 5)) sample_window).2.

Lemma right_edge_drag_lost_witness :
  ∃ s1 s2, motion_notify sample_extents (PInt 400) (PInt 0) right_handle = (Ok true, s1) ∧
    moving_right_cur s1 = None ∧
    button_release sample_extents s1 = (Raise AttributeError, s2) ∧ graphic s2 = graphic right_handle.
Proof.
  apply (right_edge_drag_lost sample_extents right_handle (PInt 400) (PInt 0) (PInt 180)
           sample_rectangle.1.1.2 (PInt 40) sample_rectangle.2 (PInt 400));
    vm_compute; first [reflexivity | discriminate].
Defined.

(** A click on the left handle without a motion raises as well. *)
Example click_without_motion :
  (button_release sample_extents
     (button_press (PInt 180) (nadd sample_rectangle.1.1.2 (PInt 5)) sample_window).2).1
  = Raise AttributeError.
Proof. vm_compute. reflexivity. Qed.

(** The whole window of the sample can be drawn. *)
Example sample_draws :
  is_ok (expose sample_extents (PInt 0) (PInt 0) (PInt 400) (PInt 300) sample_window).1 = true.
Proof. vm_compute. reflexivity. Qed.
