(* ===== verification/GridWindow.v ===== *)
(** * The main window of utils/grid.py

    [MainWindow]: the two buttons of the zoom, and the dialogs that ask for the name of
    a picture, around the widget of [Graphic].  A callback that raises keeps the changes
    it made before. *)
From Stdlib Require Import Lqa.
From S2P Require Export Graphic.
Open Scope Z_scope.

Section window.
Context (te : pystr → extents).
Context {D : Type → Type} `{DictLaws pystr D}.

(** A dialog: the name that is typed in, and whether it is shown. *)
Record dialog : Type := Dialog { filename : option pystr; shown : bool }.
(** [current] is the attribute [__dialog]; [written] the pictures with their names. *)
Record MainWindow : Type := MkMainWindow {
  render : Gtk (D := D); dialogs : list dialog; current : option nat; written : list (option pystr * list draw_op) }.
Definition set_render (r : Gtk) (w : MainWindow) : MainWindow := MkMainWindow r (dialogs w) (current w) (written w).
Definition new_MainWindow (g : GraphicRenderer (D := D)) : MainWindow := MkMainWindow (new_Gtk g) [] None [].

Definition set_smaller_cb (w : MainWindow) : MainWindow := set_render (set_smaller_zoom te (render w)).2 w.
Definition set_bigger_cb (w : MainWindow) : MainWindow := set_render (set_bigger_zoom te (render w)).2 w.
Definition output_png_cb (w : MainWindow) : MainWindow :=
  MkMainWindow (render w) (dialogs w ++ [Dialog None true]) (Some (length (dialogs w))) (written w).
Definition hide (i : nat) (ds : list dialog) : list dialog := alter (λ d, Dialog (filename d) false) i ds.
(** [widget] is the dialog that was answered; the name is asked of [__dialog]. *)
Definition dialog_response_cb (widget : nat) (response : Z) (w : MainWindow) : MainWindow :=
  if response =? 1 then
    match current w ≫= λ i, dialogs w !! i with
    | None => w
    | Some d =>
        match output_png te (render w) with
        | (Ok png, r) => MkMainWindow r (hide widget (dialogs w)) (current w) (written w ++ [(filename d, png)])
        | (Raise _, r) => set_render r w
        end
    end
  else w.

(** What the user does with the window: the buttons, a name typed into a dialog that is
    shown, the answer of one. *)
Inductive window_event : Type :=
  | ZoomOut | ZoomIn | OutputPng | TypeName (i : nat) (name : pystr) | Respond (i : nat) (response : Z).
Definition main_step (w : MainWindow) (e : window_event) : MainWindow :=
  match e with
  | ZoomOut => set_smaller_cb w
  | ZoomIn => set_bigger_cb w
  | OutputPng => output_png_cb w
  | TypeName i name => MkMainWindow (render w) (alter (λ d, Dialog (Some name) (shown d)) i (dialogs w)) (current w) (written w)
  | Respond i response => dialog_response_cb i response w
  end.

(** ** Facts *)

Definition draws_range {A} (m : gdrawing (D := D) A) : Prop := ∀ s, same_range s.1 (m s).2.1.
Lemma draws_bind {A B} (m : gdrawing A) (f : A → gdrawing B) :
  draws_range m → (∀ a, draws_range (f a)) → draws_range (m ≫= f).
Proof.
  intros Hm Hf s. unfold mbind, stm_bind. specialize (Hm s). destruct (m s) as [[a|e] s1]; cbn in *; [|done].
  destruct (Hf a s1) as (? & ? & ? & ?), Hm as (? & ? & ? & ?). split_and!; congruence.
Qed.
Lemma draws_read {A} (f : GraphicRenderer (D := D) → res exn A) : draws_range (gself f).
Proof. intros s. by split_and!. Qed.
Lemma draws_lift {A} (r : res exn A) : draws_range (st_lift r).
Proof. intros s. by split_and!. Qed.
Lemma draws_emit ops : draws_range (gemit ops).
Proof. intros s. by split_and!. Qed.
Lemma draws_data : draws_range (draw_data te).
Proof.
  intros s. unfold draw_data, mbind, stm_bind, st_get. destruct (data s.1) as [d|]; [|by split_and!].
  destruct (tr_draw te (d, s.2)) as [r [d' ops]]. by split_and!.
Qed.
Lemma graphic_draw_range : draws_range (graphic_draw te).
Proof.
  unfold graphic_draw.
  repeat (apply draws_bind; [first [apply draws_read|apply draws_lift|apply draws_emit|apply draws_data]|intros ?]).
  apply draws_emit.
Qed.

(** The visible range begins at [a] and lies within the data. *)
Definition window_at (a : Q) (s : Gtk (D := D)) : Prop := ∃ b e,
  r_start (graphic s) = Some b ∧ r_end (graphic s) = Some e ∧ (nq b == a)%Q ∧
  (nq (gstart (graphic s)) <= a ∧ a <= nq e ∧ nq e <= nq (gend (graphic s)))%Q.
Lemma window_at_same a (s s' : Gtk (D := D)) : same_range (graphic s) (graphic s') → window_at a s → window_at a s'.
Proof. intros (E1 & E2 & E3 & E4) (b & e & Hb). exists b, e. by rewrite E1, E2, E3, E4. Qed.
Lemma on_graphic_second {A B} (m : stm GraphicRenderer A) (k : handler (D := D) B) s :
  (∀ s, graphic (k s).2 = graphic s) → graphic ((on_graphic m ≫= λ _, k) s).2 = (m (graphic s)).2.
Proof.
  intros Hk. unfold on_graphic, mbind, stm_bind, st_get. destruct (m (graphic s)) as [[a|e] g]; [|done].
  cbn [upd_graphic st_modify st_lift snd]. by rewrite Hk.
Qed.
Lemma redraw_all_graphic (s : Gtk (D := D)) : graphic (redraw_all s).2 = graphic s.
Proof. done. Qed.
(** A range that begins where it did and ends later than that, cut to the data. *)
Lemma set_range_at a b x (g : GraphicRenderer (D := D)) : (nq b == a)%Q → (a <= nq x)%Q →
  (nq (gstart g) <= a ∧ a <= nq (gend g))%Q →
  ∃ b' e', let g' := (set_range te b x g).2 in r_start g' = Some b' ∧ r_end g' = Some e' ∧ (nq b' == a)%Q ∧
    (nq (gstart g') <= a ∧ a <= nq e' ∧ nq e' <= nq (gend g'))%Q.
Proof.
  intros Hb Hx [Hlo Hhi]. destruct (set_range_result te g b x) as (Es & Ee & Eg & Eh). cbn [r_start r_end gstart gend upd_range] in *.
  eexists _, _. cbv zeta. rewrite Es, Ee, Eg, Eh. split; [done|]. split; [done|].
  destruct (nmin_spec b x) as (L1 & L2 & L3), (nmax_spec b x) as (M1 & M2 & M3).
  destruct (nmax_spec (gstart g) (nmin b x)) as (S1 & S2 & S3), (nmin_spec (gend g) (nmax b x)) as (T1 & T2 & T3).
  set (u := nmin b x) in *. set (v := nmax b x) in *.
  assert (nq u == a)%Q as Hu by (destruct L3 as [E|E]; rewrite E in *; lra).
  assert (a <= nq v)%Q as Hv by lra. split.
  - destruct S3 as [E|E]; rewrite E in *; lra.
  - split; [lra|]. split; [destruct T3 as [E|E]; rewrite E in *; lra|done].
Qed.
Lemma smaller_zoom_at a (s : Gtk (D := D)) : window_at a s → window_at a (set_smaller_zoom te s).2.
Proof.
  intros (b & e & Hb & He & Ha & Hlo & Hae & Hhi). unfold set_smaller_zoom.
  assert (get_render_range (graphic s) = Ok (b, e)) as Hr by (unfold get_render_range; by rewrite Hb, He).
  unfold window_at. erewrite hget_step by exact Hr. cbv beta iota. rewrite on_graphic_second by done.
  apply set_range_at; [done| |split; lra]. rewrite nq_add, nq_mul, nq_sub. change (nq (PInt 2)) with 2%Q. lra.
Qed.
Lemma half_nonneg x : (0 <= nq x)%Q → ∃ h, half x = Ok h ∧ (0 <= nq h)%Q.
Proof.
  intros Hx. unfold half, ndiv. destruct x as [z|q]; cbn in *.
  - eexists. split; [done|]. cbn. assert (0 <= z) by (rewrite Zle_Qle; exact Hx).
    change 0%Q with (inject_Z 0). rewrite <-Zle_Qle. apply Z.div_pos; lia.
  - eexists. split; [done|]. cbn. apply Qle_shift_div_l; [done|]. change (inject_Z 2) with 2%Q. lra.
Qed.
Lemma bigger_zoom_at a (s : Gtk (D := D)) : window_at a s → window_at a (set_bigger_zoom te s).2.
Proof.
  intros (b & e & Hb & He & Ha & Hlo & Hae & Hhi). unfold set_bigger_zoom.
  assert (get_render_range (graphic s) = Ok (b, e)) as Hr by (unfold get_render_range; by rewrite Hb, He).
  destruct (half_nonneg (nsub e b)) as (h & Hh & Hn); [rewrite nq_sub; lra|].
  unfold window_at. erewrite hget_step by exact Hr. cbv beta iota.
  erewrite handler_step by (unfold st_lift; by rewrite Hh). rewrite on_graphic_second by done. apply set_range_at; [done| |split; lra]. rewrite nq_add. lra.
Qed.
Lemma output_png_at a (s : Gtk (D := D)) : window_at a s → window_at a (output_png te s).2.
Proof.
  intros Hs. unfold output_png. destruct (attr (buffer_surface s)) as [b|e] eqn:Eb.
  2:{ erewrite hget_raise by exact Eb. done. }
  erewrite hget_step by exact Eb. eapply window_at_same; [|exact Hs].
  unfold draw_on, mbind, stm_bind, st_get. pose proof (graphic_draw_range (graphic s, b)) as Hd.
  destruct (graphic_draw te (graphic s, b)) as [[[]|e] [g ops]]; exact Hd.
Qed.

(** Whatever is clicked, typed and answered, the visible range begins where it began
    and stays within the data, no click begins a drag, and all pictures are blank. *)
Theorem main_window_clicks (a : Q) (es : list window_event) (w : MainWindow) :
  window_at a (render w) → Forall (λ p, p.2 = []) (written w) →
  let w' := fold_left main_step es w in
  window_at a (render w') ∧ drags (render w') = drags (render w) ∧ Forall (λ p, p.2 = []) (written w').
Proof.
  revert w. induction es as [|e es IH]; intros w Hw Hp; cbn [fold_left]; [done|].
  assert (window_at a (render (main_step w e)) ∧ drags (render (main_step w e)) = drags (render w) ∧
    Forall (λ p, p.2 = []) (written (main_step w e))) as (H1 & H2 & H3).
  { destruct e as [| | |i name|i response]; cbn [main_step]; [| |done|done|].
    - split_and!; [by apply smaller_zoom_at|apply drags_kept, kept_smaller|done].
    - split_and!; [by apply bigger_zoom_at|apply drags_kept, kept_bigger|done].
    - unfold dialog_response_cb. destruct (response =? 1); [|done].
      destruct (current w ≫= _) as [d|]; [|done]. pose proof (output_png_at a _ Hw) as Ho.
      pose proof (drags_kept _ (render w) (kept_output_png te)) as Hk.
      destruct (output_png te (render w)) as [[png|e] r] eqn:E; cbn in *; [|done]. split_and!; [done|done|].
      apply Forall_app. split; [done|]. apply Forall_singleton. by eapply output_png_blank. }
  destruct (IH _ H1 H3) as (G1 & G2 & G3). split_and!; [done|congruence|done].
Qed.

(** While no second dialog is opened before the answer, the picture gets the name that
    was typed into the dialog that is answered. *)
Lemma answered_dialog (w : MainWindow) i d : current w = Some i → dialogs w !! i = Some d →
  ∃ r, let w' := dialog_response_cb i 1 w in
    (∃ png, output_png te (render w) = (Ok png, r) ∧ written w' = written w ++ [(filename d, png)] ∧
      dialogs w' !! i = Some (Dialog (filename d) false)) ∨
    (∃ e, output_png te (render w) = (Raise e, r) ∧ written w' = written w ∧ dialogs w' = dialogs w).
Proof.
  intros Hc Hd. unfold dialog_response_cb. rewrite Hc. cbn [Z.eqb Pos.eqb mbind option_bind]. rewrite Hd.
  destruct (output_png te (render w)) as [[png|e] r]; exists r; [left|right].
  - exists png. split; [done|]. split; [done|]. cbn. unfold hide. by rewrite list_lookup_alter_eq, Hd.
  - by exists e.
Qed.
End window.

(** With two dialogs open, the answer of the first writes to the name of the second. *)
Definition sample_main : MainWindow (D := PyDict pystr) := 
  set_render (expose sample_extents (PInt 0) (PInt 0) (PInt 400) (PInt 300) sample_window).2 (new_MainWindow sample_graphic).
Example two_dialogs :
  written (fold_left (main_step sample_extents)
    [OutputPng; TypeName 0 (str "a.png"); OutputPng; TypeName 1 (str "b.png"); Respond 0 1] sample_main)
  = [(Some (str "b.png"), [])].
Proof. vm_compute. reflexivity. Qed.
Lemma main_window_clicks_sample :
  let w := fold_left (main_step sample_extents) [ZoomIn; ZoomIn; ZoomOut; OutputPng; Respond 0 1] sample_main in
  window_at (default 0%Q (nq <$> r_start (graphic (render sample_main)))) (render w) ∧ Forall (λ p, p.2 = []) (written w).
Proof.
  destruct (main_window_clicks sample_extents (default 0%Q (nq <$> r_start (graphic (render sample_main))))
    [ZoomIn; ZoomIn; ZoomOut; OutputPng; Respond 0 1] sample_main) as (H1 & _ & H3).
  - destruct (r_start (graphic (render sample_main))) as [b|] eqn:E1; [|by vm_compute in E1].
    destruct (r_end (graphic (render sample_main))) as [e|] eqn:E2; [|by vm_compute in E2].
    exists b, e. vm_compute in E1, E2. injection E1 as <-. injection E2 as <-.
    split; [done|]. split; [done|]. split; [done|]. split; [by vm_compute|]. split; by vm_compute.
  - by apply Forall_nil.
  - split; [exact H1|exact H3].
Qed.
