(* ===== verification/VizThread.v ===== *)
(** * The visualizer: the simulation thread and the main loop

    From src/visualizer/visualizer/core.py: [SimulationThread.run] and what the
    GTK thread does with its lock and its event: [update_view_timeout],
    [update_model], [_start_update_timer], [_on_play_button_toggled], the speed
    control, [_quit], the handlers that take the lock for a moment, those that
    look at the simulator without it ([autoscale_view] from its timer;
    [populate_node_menu] of src/visualizer/visualizer/plugins/olsr.py, which
    [popup_node_menu] calls; [set_show_transmissions_mode], which counts the nodes
    before [set_nodes_of_interest] takes the lock), and the dialogs of
    [_take_screenshot], which run a main loop of their own.  [vstep]
    is one operation of one thread; the environment chooses which source of the
    main loop is dispatched, what the user does (also while a dialog is open, which
    allows more than GTK's modal dialogs do), and how far a run of the
    simulator gets.  The simulator itself, gtk and GLib are not in the
    repository: of the simulator the model uses that a run until a time does not
    pass it, of GLib that a source is not dispatched again while it is being
    dispatched and that identifiers are not used twice. *)
From Stdlib Require Import QArith Lqa.
From S2P Require Export PyNum.
Open Scope Z_scope.

Inductive thread : Type := Sim | View.
#[export] Instance thread_eq_dec : EqDecision thread.
Proof. solve_decision. Defined.

(** Where [SimulationThread.run] is. *)
Inductive sim_pc : Type :=
  | SHead | SWait | SClear | SCheck | SAcquire | SRun | SIdle | SRelease | SDone.
#[export] Instance sim_pc_eq_dec : EqDecision sim_pc.
Proof. solve_decision. Defined.

(** The activations of the GTK thread: [update_view_timeout] of a source,
    [update_model], a handler that holds the lock while it runs, [_quit], a handler
    that looks at the simulator without the lock and may go on to one that takes it,
    and a dialog that runs the main loop and may be followed by another one. *)
Inductive timeout_pc : Type :=
  | TTry | TPending | TUpdate (messages : nat) | TRelease (messages : nat) | TDialog (messages : nat) | TCheck | TGo.
Inductive model_pc : Type := MAcquire | MEmit | MRelease.
Inductive quit_pc : Type := QRemove | QFlag | QGo | QJoin | QMainQuit.
Inductive frame : Type :=
  | FTimeout (id : nat) (pc : timeout_pc)
  | FModel (pc : model_pc)
  | FQuit (pc : quit_pc)
  | FRead (then_lock : bool)
  | FDialog (again : bool).

(** What both threads use: the lock, the event, the fields of the thread object,
    the time of the simulator and the callbacks queued for the main loop. *)
Record shared : Type := Shared {
  lock : option thread;
  go : bool;
  quit : bool;
  target_time : Q;
  now : Q;
  pause_messages : nat;
  idle : nat;
}.

(** The GTK thread: its activations, the top one first, the timers of the main
    loop, the controls, and whether [autoscale_view] is still to come. *)
Record gtk : Type := Gtk {
  frames : list frame;
  timers : list nat;
  update_timeout_id : option nat;
  next_id : nat;
  playing : bool;
  sample_period : Q;
  main_quit : bool;
  autoscale : bool;
}.

(** The time displayed last and the period of that moment, the runs of the
    simulator, the signals, and the removals of sources that were gone. *)
Record history : Type := History {
  shown : Q;
  shown_period : Q;
  runs : nat;
  signals : nat;
  stale_removals : nat;
}.

Record viz : Type := Viz { sh : shared; gt : gtk; sim : sim_pc; hist : history }.

Inductive user_event : Type :=
  | Toggle | Speed (period : Q) | Locked | CloseWindow | Unlocked (then_lock : bool) | Screenshot (again : bool).
Inductive event : Type :=
  | SimStep (reached : Q) (messages : nat)
  | ViewStep
  | DispatchTimer (id : nat)
  | DispatchIdle
  | DispatchAutoscale
  | User (u : user_event).

(** *** Updates *)
Definition on_shared (f : shared → shared) (s : viz) : viz := Viz (f (sh s)) (gt s) (sim s) (hist s).
Definition on_gtk (f : gtk → gtk) (s : viz) : viz := Viz (sh s) (f (gt s)) (sim s) (hist s).
Definition on_hist (f : history → history) (s : viz) : viz := Viz (sh s) (gt s) (sim s) (f (hist s)).
Definition set_sim (pc : sim_pc) (s : viz) : viz := Viz (sh s) (gt s) pc (hist s).

Definition set_lock (l : option thread) : viz → viz := on_shared (λ h,
  Shared l (go h) (quit h) (target_time h) (now h) (pause_messages h) (idle h)).
Definition set_go (b : bool) : viz → viz := on_shared (λ h,
  Shared (lock h) b (quit h) (target_time h) (now h) (pause_messages h) (idle h)).
Definition set_quit : viz → viz := on_shared (λ h,
  Shared (lock h) (go h) true (target_time h) (now h) (pause_messages h) (idle h)).
Definition set_target (t : Q) : viz → viz := on_shared (λ h,
  Shared (lock h) (go h) (quit h) t (now h) (pause_messages h) (idle h)).
Definition set_now (t : Q) : viz → viz := on_shared (λ h,
  Shared (lock h) (go h) (quit h) (target_time h) t (pause_messages h) (idle h)).
Definition set_messages (n : nat) : viz → viz := on_shared (λ h,
  Shared (lock h) (go h) (quit h) (target_time h) (now h) n (idle h)).
Definition set_idle (n : nat) : viz → viz := on_shared (λ h,
  Shared (lock h) (go h) (quit h) (target_time h) (now h) (pause_messages h) n).
Definition set_frames (fs : list frame) : viz → viz := on_gtk (λ g,
  Gtk fs (timers g) (update_timeout_id g) (next_id g) (playing g) (sample_period g) (main_quit g) (autoscale g)).
Definition set_timers (ts : list nat) : viz → viz := on_gtk (λ g,
  Gtk (frames g) ts (update_timeout_id g) (next_id g) (playing g) (sample_period g) (main_quit g) (autoscale g)).
Definition set_timeout_id (id : option nat) : viz → viz := on_gtk (λ g,
  Gtk (frames g) (timers g) id (next_id g) (playing g) (sample_period g) (main_quit g) (autoscale g)).
Definition set_playing (b : bool) : viz → viz := on_gtk (λ g,
  Gtk (frames g) (timers g) (update_timeout_id g) (next_id g) b (sample_period g) (main_quit g) (autoscale g)).
Definition set_period (p : Q) : viz → viz := on_gtk (λ g,
  Gtk (frames g) (timers g) (update_timeout_id g) (next_id g) (playing g) p (main_quit g) (autoscale g)).
Definition set_main_quit : viz → viz := on_gtk (λ g,
  Gtk (frames g) (timers g) (update_timeout_id g) (next_id g) (playing g) (sample_period g) true (autoscale g)).
Definition clear_autoscale : viz → viz := on_gtk (λ g,
  Gtk (frames g) (timers g) (update_timeout_id g) (next_id g) (playing g) (sample_period g) (main_quit g) false).
Definition count_run : viz → viz := on_hist (λ h,
  History (shown h) (shown_period h) (S (runs h)) (signals h) (stale_removals h)).
Definition count_signal : viz → viz := on_hist (λ h,
  History (shown h) (shown_period h) (runs h) (S (signals h)) (stale_removals h)).
Definition count_stale : viz → viz := on_hist (λ h,
  History (shown h) (shown_period h) (runs h) (signals h) (S (stale_removals h))).
Definition show_now (s : viz) : viz := on_hist (λ h,
  History (now (sh s)) (sample_period (gt s)) (runs h) (signals h) (stale_removals h)) s.

(** ** The simulation thread *)

(** What a run until the target may reach. *)
Definition run_reaches (h : shared) (reached : Q) : bool :=
  Qle_bool (now h) reached && (Qle_bool reached (target_time h) || Qeq_bool reached (now h)).

Definition sim_step (reached : Q) (messages : nat) (s : viz) : option viz :=
  let h := sh s in
  match sim s with
  | SHead => Some (set_sim (if quit h then SDone else SWait) s)
  | SWait => if go h then Some (set_sim SClear s) else None
  | SClear => Some (set_sim SCheck (set_go false s))
  | SCheck => Some (set_sim (if quit h then SDone else SAcquire) s)
  | SAcquire => match lock h with None => Some (set_sim SRun (set_lock (Some Sim) s)) | Some _ => None end
  | SRun =>
      if run_reaches h reached
      then Some (set_sim SIdle (count_run (set_messages (pause_messages h + messages) (set_now reached s))))
      else None
  | SIdle => Some (set_sim SRelease (set_idle (S (idle h)) s))
  | SRelease => Some (set_sim SHead (set_lock None s))
  | SDone => None
  end.

(** ** The timers *)

(** [GLib.source_remove]: a source that is gone is an error that is only reported. *)
Definition source_remove (id : nat) (s : viz) : viz :=
  if bool_decide (id ∈ timers (gt s)) then set_timers (base.filter (λ i, i ≠ id) (timers (gt s))) s
  else count_stale s.
Definition timeout_add : viz → viz := on_gtk (λ g,
  Gtk (frames g) (timers g ++ [next_id g]) (Some (next_id g)) (S (next_id g)) (playing g) (sample_period g) (main_quit g) (autoscale g)).
Definition remove_current (s : viz) : viz :=
  match update_timeout_id (gt s) with Some id => source_remove id s | None => s end.
Definition start_update_timer (s : viz) : viz := timeout_add (remove_current s).

(** The button changes and [_on_play_button_toggled] is called. *)
Definition toggle (s : viz) : viz :=
  if playing (gt s) then remove_current (set_playing false s) else start_update_timer (set_playing true s).
(** [play_button.set_active(False)]: a button that is up stays silent. *)
Definition deactivate (s : viz) : viz := if playing (gt s) then toggle s else s.
Definition speed_changed (period : Q) (s : viz) : viz := start_update_timer (set_period period s).

(** ** The GTK thread *)

(** One operation of the activation on top; the others are below. *)
Definition timeout_step (id : nat) (pc : timeout_pc) (below : list frame) (s : viz) : option viz :=
  let next pc s := set_frames (FTimeout id pc :: below) s in
  match pc with
  | TTry =>
      match lock (sh s) with
      | None => Some (next (TUpdate (pause_messages (sh s))) (set_messages 0 (set_lock (Some View) s)))
      | Some _ => Some (next TPending s)
      end
  | TPending => Some (next TTry s)
  | TUpdate n => Some (next (TRelease n) (set_target (now (sh s) + sample_period (gt s)) (show_now s)))
  | TRelease n => Some (next (TDialog n) (set_lock None s))
  | TDialog n => Some (next TCheck (if (n =? 0)%nat then s else deactivate s))
  | TCheck =>
      if playing (gt s) then Some (next TGo s)
      else Some (set_frames below (set_timers (base.filter (λ i, i ≠ id) (timers (gt s))) (set_timeout_id None s)))
  | TGo => Some (set_frames below (count_signal (set_go true s)))
  end.
Definition model_step (pc : model_pc) (below : list frame) (s : viz) : option viz :=
  match pc with
  | MAcquire =>
      match lock (sh s) with
      | None => Some (set_frames (FModel MEmit :: below) (set_lock (Some View) s))
      | Some _ => None
      end
  | MEmit => Some (set_frames (FModel MRelease :: below) s)
  | MRelease => Some (set_frames below (set_lock None s))
  end.
Definition quit_step (pc : quit_pc) (below : list frame) (s : viz) : option viz :=
  let next pc s := set_frames (FQuit pc :: below) s in
  match pc with
  | QRemove => Some (next QFlag (set_timeout_id None (remove_current s)))
  | QFlag => Some (next QGo (set_quit s))
  | QGo => Some (next QJoin (count_signal (set_go true s)))
  | QJoin => if decide (sim s = SDone) then Some (next QMainQuit s) else None
  | QMainQuit => Some (set_frames below (set_main_quit s))
  end.
(** [NodeList.GetNode] and what follows, without the lock. *)
Definition read_step (then_lock : bool) (below : list frame) (s : viz) : option viz :=
  Some (set_frames (if then_lock then FModel MAcquire :: below else below) s).
(** [dialog.run()] returns when the user answers; with [again], the file name has an
    unknown extension and the error is shown in a second one. *)
Definition dialog_step (again : bool) (below : list frame) (s : viz) : option viz :=
  Some (set_frames (if again then FDialog false :: below else below) s).
Definition view_step (s : viz) : option viz :=
  match frames (gt s) with
  | [] => None
  | FTimeout id pc :: below => timeout_step id pc below s
  | FModel pc :: below => model_step pc below s
  | FQuit pc :: below => quit_step pc below s
  | FRead then_lock :: below => read_step then_lock below s
  | FDialog again :: below => dialog_step again below s
  end.

(** The main loop runs at the bottom, until it is told to quit, inside an
    [update_view_timeout] that waits for the lock, and inside a dialog. *)
Definition looping (g : gtk) : bool :=
  match frames g with
  | [] => negb (main_quit g)
  | FTimeout _ TPending :: _ | FDialog _ :: _ => true
  | _ => false
  end.
Definition dispatching (g : gtk) (id : nat) : bool :=
  existsb (λ f, match f with FTimeout i _ => bool_decide (i = id) | _ => false end) (frames g).

Definition vstep (e : event) (s : viz) : option viz :=
  let push f s := set_frames (f :: frames (gt s)) s in
  match e with
  | SimStep reached messages => sim_step reached messages s
  | ViewStep => view_step s
  | DispatchTimer id =>
      if looping (gt s) && bool_decide (id ∈ timers (gt s)) && negb (dispatching (gt s) id)
      then Some (push (FTimeout id TTry) s) else None
  | DispatchIdle =>
      match idle (sh s) with
      | S n => if looping (gt s) then Some (push (FModel MAcquire) (set_idle n s)) else None
      | O => None
      end
  | DispatchAutoscale =>
      if looping (gt s) && autoscale (gt s) then Some (push (FRead false) (clear_autoscale s)) else None
  | User u =>
      if negb (looping (gt s)) then None
      else match u with
           | Toggle => Some (toggle s)
           | Speed period => if Qle_bool 0 period then Some (speed_changed period s) else None
           | Locked => Some (push (FModel MAcquire) s)
           | CloseWindow => Some (push (FQuit QRemove) s)
           | Unlocked then_lock => Some (push (FRead then_lock) s)
           | Screenshot again => Some (push (FDialog again) s)
           end
  end.

(** [create_gui] starts a timer, [start] that of [autoscale_view]; the button is up. *)
Definition SAMPLE_PERIOD : Q := 1 # 10.
Definition viz_init : viz :=
  Viz (Shared None false false 0 0 0 0) (Gtk [] [0%nat] (Some 0%nat) 1 false SAMPLE_PERIOD false true) SHead (History 0 0 0 0 0).

Fixpoint vsteps (es : list event) (s : viz) : option viz :=
  match es with
  | [] => Some s
  | e :: es => s ← vstep e s; vsteps es s
  end.
Definition reachable (s : viz) : Prop := ∃ es, vsteps es viz_init = Some s.

(** ** The invariant *)

Definition sim_holds (pc : sim_pc) : bool := match pc with SRun | SIdle | SRelease => true | _ => false end.
(** Signals that have not led to a run yet. *)
Definition pending (g : bool) (pc : sim_pc) : nat :=
  match pc with
  | SClear => 1
  | SCheck | SAcquire | SRun => if g then 2 else 1
  | _ => if g then 1 else 0
  end.
Definition holds (f : frame) : bool :=
  match f with
  | FTimeout _ (TUpdate _) | FTimeout _ (TRelease _) | FModel MEmit | FModel MRelease => true
  | _ => false
  end.
Definition view_holds (fs : list frame) : bool := match fs with [] => false | f :: _ => holds f end.
Definition waits (f : frame) : bool := match f with FTimeout _ TPending | FDialog _ => true | _ => false end.

(** The lock is held by the thread whose place says so; activations below the top
    run the main loop; the clock stays within the target, the target within a
    period of what is shown; each run has a signal of its own; and no wake-up is
    lost once [_quit] waits. *)
Record inv (s : viz) : Prop := Inv {
  inv_sim : lock (sh s) = Some Sim ↔ sim_holds (sim s) = true;
  inv_view : lock (sh s) = Some View ↔ view_holds (frames (gt s)) = true;
  inv_below : Forall (λ f, waits f = true) (tail (frames (gt s)));
  inv_period : (0 <= sample_period (gt s))%Q;
  inv_now : (now (sh s) <= target_time (sh s))%Q;
  inv_target : (target_time (sh s) <= shown (hist s) + shown_period (hist s))%Q;
  inv_runs : (runs (hist s) + pending (go (sh s)) (sim s) ≤ signals (hist s))%nat;
  inv_quit : match frames (gt s) with FQuit QGo :: _ | FQuit QMainQuit :: _ => quit (sh s) = true | _ => True end;
  inv_join : match frames (gt s) with
             | FQuit QJoin :: _ => quit (sh s) = true ∧ (sim s = SWait → go (sh s) = true)
             | _ => True
             end;
}.

Lemma inv_init : inv viz_init.
Proof. split; cbn; try done; try lra; try lia; try (apply Forall_nil_2); try (by split). Qed.

Lemma run_reaches_spec h t : run_reaches h t = true → (now h <= target_time h)%Q → (now h <= t <= target_time h)%Q.
Proof.
  unfold run_reaches. intros [H1 H2]%andb_true_iff Hn. apply Qle_bool_iff in H1. split; [done|].
  apply orb_true_iff in H2 as [H2|H2]; [by apply Qle_bool_iff|]. apply Qeq_bool_iff in H2. by rewrite H2.
Qed.

Ltac solve_join Hj :=
  clear -Hj;
  repeat match goal with |- match ?fs with _ => _ end => destruct fs as [|[|?|[]| |] ?]; try exact I end;
  destruct Hj as [Hquit Hwait]; split; [first [exact Hquit|done]|];
  first [done | exact Hwait | discriminate Hquit | intros; auto].

Lemma sim_step_inv reached messages s s' : inv s → sim_step reached messages s = Some s' → inv s'.
Proof.
  intros [Hs Hv Hb Hp Hn Ht Hr Hq Hj]. unfold sim_step.
  destruct s as [[l g q t n p i] [fs ts id nx pl sp mq au] pc [sn spd rn sg st]]; cbn in *.
  destruct pc; cbn in *.
  - intros [= <-]. destruct q; split; cbn in *; try done; try lia;
      solve_join Hj.
  - destruct g; [|done]. intros [= <-]. split; cbn in *; try done; try lia.
    solve_join Hj.
  - intros [= <-]. split; cbn in *; try done; try lia.
    solve_join Hj.
  - intros [= <-]. destruct q; split; cbn in *; try done; try (destruct g; cbn in *; lia);
      solve_join Hj.
  - destruct l; [done|]. intros [= <-]. split; cbn in *; try done; try lia.
    + split; [done|]. intros H. by apply Hv in H.
    + solve_join Hj.
  - destruct (run_reaches _ _) eqn:E; [|done]. apply run_reaches_spec in E; [|done]. cbn in E.
    intros [= <-]. split; cbn in *; try done; try (destruct g; lia); try lra.
    solve_join Hj.
  - intros [= <-]. split; cbn in *; try done; try lia.
    solve_join Hj.
  - intros [= <-]. assert (l = Some Sim) as -> by by apply Hs. split; cbn in *; try done; try lia.
    + split; [done|]. intros H. by apply Hv in H.
    + solve_join Hj.
  - done.
Qed.

(** What the timers do does not touch what the invariant is about. *)
Definition same_core (s s' : viz) : Prop :=
  sh s' = sh s ∧ sim s' = sim s ∧ frames (gt s') = frames (gt s) ∧ sample_period (gt s') = sample_period (gt s) ∧
  main_quit (gt s') = main_quit (gt s) ∧
  shown (hist s') = shown (hist s) ∧ shown_period (hist s') = shown_period (hist s) ∧
  runs (hist s') = runs (hist s) ∧ signals (hist s') = signals (hist s).

#[export] Instance same_core_preorder : PreOrder same_core.
Proof.
  split; [by intros s; split_and!|]. intros s1 s2 s3 H12 H23. unfold same_core in *.
  destruct_and!. split_and!; congruence.
Qed.

Lemma inv_same_core s s' : same_core s s' → inv s → inv s'.
Proof.
  intros (H1 & H2 & H3 & H4 & H5 & H6 & H7 & H8 & H9) [Hs Hv Hb Hp Hn Ht Hr Hq Hj].
  split; by rewrite ?H1, ?H2, ?H3, ?H4, ?H5, ?H6, ?H7, ?H8, ?H9.
Qed.

Lemma source_remove_core id s : same_core s (source_remove id s).
Proof. unfold source_remove. by case_bool_decide. Qed.
Lemma remove_current_core s : same_core s (remove_current s).
Proof. unfold remove_current. case_match; [apply source_remove_core|done]. Qed.
Lemma start_update_timer_core s : same_core s (start_update_timer s).
Proof. unfold start_update_timer. etrans; [apply remove_current_core|]. done. Qed.
Lemma toggle_core s : same_core s (toggle s).
Proof.
  unfold toggle. case_match; [etrans; [|apply remove_current_core]|etrans; [|apply start_update_timer_core]]; done.
Qed.
Lemma deactivate_core s : same_core s (deactivate s).
Proof. unfold deactivate. case_match; [apply toggle_core|done]. Qed.

(** The activations of a state, replaced. *)
Lemma inv_frames fs s :
  inv s → view_holds fs = view_holds (frames (gt s)) → Forall (λ f, waits f = true) (tail fs) →
  match fs with
  | FQuit QGo :: _ | FQuit QMainQuit :: _ => quit (sh s) = true
  | FQuit QJoin :: _ => quit (sh s) = true ∧ (sim s = SWait → go (sh s) = true)
  | _ => True
  end → inv (set_frames fs s).
Proof.
  intros [Hs Hv Hb Hp Hn Ht Hr Hq Hj] Hh Hw Hf. split; cbn; try done; [by rewrite Hh| |];
    by destruct fs as [|[|?|[]| |] ?].
Qed.

(** Below an activation that is not waiting nothing holds the lock. *)
Lemma waits_not_holds f : waits f = true → holds f = false.
Proof. by destruct f as [? []| | | |]. Qed.
Lemma below_not_holding fs : Forall (λ f, waits f = true) fs → view_holds fs = false.
Proof. destruct 1 as [|f fs Hf]; [done|]. by apply waits_not_holds. Qed.
Lemma below_not_quitting fs P Q : Forall (λ f, waits f = true) fs →
  match fs with
  | FQuit QGo :: _ | FQuit QMainQuit :: _ => P
  | FQuit QJoin :: _ => Q
  | _ => True
  end.
Proof. destruct 1 as [|f fs Hf]; [done|]. by destruct f as [? []| | | |]. Qed.

(** Taking and giving back the lock. *)
Lemma inv_acquire f s :
  inv s → lock (sh s) = None → view_holds (frames (gt s)) = false → holds f = true →
  inv (set_frames (f :: tail (frames (gt s))) (set_lock (Some View) s)).
Proof.
  intros [Hs Hv Hb Hp Hn Ht Hr Hq Hj] Hl Hh Hf. split; cbn; try done.
  - split; [done|]. intros H. apply Hs in H. congruence.
  - by destruct f as [|[]| | |].
  - by destruct f as [|[]| | |].
Qed.
Lemma inv_release fs s :
  inv s → lock (sh s) = Some View → view_holds fs = false → Forall (λ f, waits f = true) (tail fs) →
  match fs with FQuit _ :: _ => False | _ => True end →
  inv (set_frames fs (set_lock None s)).
Proof.
  intros [Hs Hv Hb Hp Hn Ht Hr Hq Hj] Hl Hh Hw Hf. split; cbn; try done.
  - split; [done|]. intros H. apply Hs in H. congruence.
  - by rewrite Hh.
  - by destruct fs as [|[] ?].
  - by destruct fs as [|[] ?].
Qed.

Lemma timeout_step_inv id pc below s s' :
  inv s → frames (gt s) = FTimeout id pc :: below → timeout_step id pc below s = Some s' → inv s'.
Proof.
  intros Hi Hf. pose proof (inv_below s Hi) as Hb. rewrite Hf in Hb. cbn [tail] in Hb.
  destruct pc as [| |n|n|n| |]; cbn [timeout_step].
  - destruct (lock (sh s)) eqn:El; intros [= <-].
    + apply inv_frames; [done| |done|done]. by rewrite Hf.
    + pose proof (inv_acquire (FTimeout id (TUpdate (pause_messages (sh s)))) s Hi El) as H.
      rewrite Hf in H. specialize (H eq_refl eq_refl).
      destruct H as [Hs1 Hv1 Hb1 Hp1 Hn1 Ht1 Hr1 Hq1 Hj1]. by split.
  - intros [= <-]. apply inv_frames; [done| |done|done]. by rewrite Hf.
  - intros [= <-]. apply inv_frames; [|by cbn; rewrite Hf|done|done].
    destruct Hi as [Hs Hv Hb' Hp Hn Ht Hr Hq Hj]. split; cbn in *; try done; lra.
  - intros [= <-]. apply inv_release; try done. apply inv_view; [done|]. by rewrite Hf.
  - intros [= <-]. destruct (n =? 0)%nat.
    + apply inv_frames; [done| |done|done]. by rewrite Hf.
    + pose proof (deactivate_core s) as Hc. pose proof (inv_same_core _ _ Hc Hi) as Hi'.
      destruct Hc as (_ & _ & Hfr & _). apply inv_frames; [done| |done|done]. by rewrite Hfr, Hf.
  - destruct (playing (gt s)); intros [= <-].
    + apply inv_frames; [done| |done|done]. by rewrite Hf.
    + eapply (inv_same_core (set_frames below s)); [done|].
      apply inv_frames; [done| |by destruct Hb|by apply below_not_quitting].
      rewrite Hf. by rewrite below_not_holding.
  - intros [= <-].
    assert (inv (count_signal (set_go true s))) as Hi'.
    { destruct Hi as [Hs Hv Hb' Hp Hn Ht Hr Hq Hj]. split; cbn in *; try done.
      - destruct (go (sh s)), (sim s); cbn in *; lia.
      - destruct (frames (gt s)) as [|[|?|[]| |] ?]; naive_solver. }
    apply inv_frames; [done| |by destruct Hb|by apply below_not_quitting].
    cbn. rewrite Hf. by rewrite below_not_holding.
Qed.

Lemma model_step_inv pc below s s' :
  inv s → frames (gt s) = FModel pc :: below → model_step pc below s = Some s' → inv s'.
Proof.
  intros Hi Hf. pose proof (inv_below s Hi) as Hb. rewrite Hf in Hb. cbn [tail] in Hb.
  destruct pc; cbn [model_step].
  - destruct (lock (sh s)) eqn:El; [done|]. intros [= <-].
    pose proof (inv_acquire (FModel MEmit) s Hi El) as H. rewrite Hf in H. by apply H.
  - intros [= <-]. apply inv_frames; [done| |done|done]. by rewrite Hf.
  - intros [= <-]. apply inv_release; [done| | |by destruct Hb|].
    + apply inv_view; [done|]. by rewrite Hf.
    + by apply below_not_holding.
    + destruct Hb as [|f fs Hf']; [done|]. by destruct f as [? []| | | |].
Qed.

Lemma quit_step_inv pc below s s' :
  inv s → frames (gt s) = FQuit pc :: below → quit_step pc below s = Some s' → inv s'.
Proof.
  intros Hi Hf. pose proof (inv_below s Hi) as Hb. rewrite Hf in Hb. cbn [tail] in Hb.
  destruct pc; cbn [quit_step].
  - intros [= <-]. pose proof (remove_current_core s) as Hc. pose proof (inv_same_core _ _ Hc Hi) as Hi'.
    destruct Hc as (_ & _ & Hfr & _). eapply inv_frames; [|cbn; by rewrite Hfr, Hf|done|done].
    by apply (inv_same_core (remove_current s)).
  - intros [= <-]. apply inv_frames; [|by cbn; rewrite Hf|done|done].
    destruct Hi as [Hs Hv Hb' Hp Hn Ht Hr Hq Hj]. split; cbn in *; try done.
    + destruct (frames (gt s)) as [|[|?|[]| |] ?]; done.
    + by rewrite Hf.
  - intros [= <-]. pose proof (inv_quit s Hi) as Hq. rewrite Hf in Hq.
    apply inv_frames; [|by cbn; rewrite Hf|done|by split].
    destruct Hi as [Hs Hv Hb' Hp Hn Ht Hr _ Hj]. split; cbn in *; try done.
    + destruct (go (sh s)), (sim s); cbn in *; lia.
    + by rewrite Hf.
    + by rewrite Hf.
  - case_decide as Hd; [|done]. intros [= <-]. pose proof (inv_join s Hi) as Hj. rewrite Hf in Hj.
    apply inv_frames; [done|by rewrite Hf|done|apply Hj].
  - intros [= <-]. pose proof (below_not_holding _ Hb) as Hh.
    assert (inv (set_frames below s)) as Hi'.
    { apply inv_frames; [done|by rewrite Hf|by destruct Hb|by apply below_not_quitting]. }
    destruct Hi' as [Hs Hv Hb' Hp Hn Ht Hr Hq Hj]. by split.
Qed.

Lemma read_step_inv b below s s' :
  inv s → frames (gt s) = FRead b :: below → read_step b below s = Some s' → inv s'.
Proof.
  intros Hi Hf. pose proof (inv_below s Hi) as Hb. rewrite Hf in Hb. cbn [tail] in Hb.
  intros [= <-]. apply inv_frames; [done|..]; rewrite ?Hf; destruct b; try done.
  - by apply below_not_holding.
  - by destruct Hb.
  - by apply below_not_quitting.
Qed.
Lemma dialog_step_inv b below s s' :
  inv s → frames (gt s) = FDialog b :: below → dialog_step b below s = Some s' → inv s'.
Proof.
  intros Hi Hf. pose proof (inv_below s Hi) as Hb. rewrite Hf in Hb. cbn [tail] in Hb.
  intros [= <-]. apply inv_frames; [done|..]; rewrite ?Hf; destruct b; try done.
  - by apply below_not_holding.
  - by destruct Hb.
  - by apply below_not_quitting.
Qed.

Lemma looping_waits s :
  inv s → looping (gt s) = true → Forall (λ f, waits f = true) (frames (gt s)).
Proof.
  intros Hi. pose proof (inv_below s Hi) as Hb. unfold looping.
  destruct (frames (gt s)) as [|f fs]; [done|]. destruct f as [i []| | | |]; try done; intros _; by constructor.
Qed.

Lemma push_inv f s :
  inv s → looping (gt s) = true → holds f = false →
  match f with FTimeout _ TTry | FModel _ | FQuit QRemove | FRead _ | FDialog _ => True | _ => False end →
  inv (set_frames (f :: frames (gt s)) s).
Proof.
  intros Hi Hl Hh Hf. pose proof (looping_waits s Hi Hl) as Hw. apply inv_frames; [done| |done|].
  - cbn. rewrite Hh. symmetry. by apply below_not_holding.
  - by destruct f as [|?|[]| |].
Qed.

Lemma vstep_inv e s s' : inv s → vstep e s = Some s' → inv s'.
Proof.
  intros Hi. destruct e as [reached messages| |id| | |u]; cbn [vstep].
  - by apply sim_step_inv.
  - unfold view_step. destruct (frames (gt s)) as [|[id pc|pc|pc|b|b] below] eqn:Hf; [done|..].
    + by apply (timeout_step_inv id pc below).
    + by apply (model_step_inv pc below).
    + by apply (quit_step_inv pc below).
    + by apply (read_step_inv b below).
    + by apply (dialog_step_inv b below).
  - destruct (looping (gt s)) eqn:Hl; [|done]. case_match; [|done]. intros [= <-]. by apply push_inv.
  - destruct (idle (sh s)) as [|n] eqn:En; [done|]. destruct (looping (gt s)) eqn:Hl; [|done]. intros [= <-].
    apply (push_inv (FModel MAcquire) (set_idle n s)); try done.
    destruct Hi as [Hs Hv Hb' Hp Hn Ht Hr Hq Hj]. by split.
  - destruct (looping (gt s)) eqn:Hl; [|done]. destruct (autoscale (gt s)); [|done]. intros [= <-].
    apply (push_inv (FRead false) (clear_autoscale s)); try done.
    destruct Hi as [Hs Hv Hb' Hp Hn Ht Hr Hq Hj]. by split.
  - destruct (looping (gt s)) eqn:Hl; [|done]. cbn [negb]. destruct u as [|period| | |b|b].
    + intros [= <-]. eapply inv_same_core; [apply toggle_core|done].
    + destruct (Qle_bool 0 period) eqn:Ep; [|done]. intros [= <-]. apply Qle_bool_iff in Ep.
      unfold speed_changed. eapply inv_same_core; [apply start_update_timer_core|].
      destruct Hi as [Hs Hv Hb' Hp Hn Ht Hr Hq Hj]. by split.
    + intros [= <-]. by apply push_inv.
    + intros [= <-]. by apply push_inv.
    + intros [= <-]. by apply push_inv.
    + intros [= <-]. by apply push_inv.
Qed.

Lemma vsteps_inv es s s' : inv s → vsteps es s = Some s' → inv s'.
Proof.
  revert s. induction es as [|e es IH]; intros s Hi; cbn [vsteps]; [by intros [= <-]|].
  destruct (vstep e s) as [s1|] eqn:E; [|done]. cbn. apply IH. by eapply vstep_inv.
Qed.
Lemma reachable_inv s : reachable s → inv s.
Proof. intros [es Hes]. eapply vsteps_inv; [apply inv_init|done]. Qed.

(** ** The theorems *)

(** The GTK thread reads or changes objects of the simulator: in a handler that has
    taken the lock, or in one that has not. *)
Definition reads_locked (s : viz) : Prop :=
  match frames (gt s) with FTimeout _ (TUpdate _) :: _ | FModel MEmit :: _ => True | _ => False end.
Definition reads_unlocked (s : viz) : Prop :=
  match frames (gt s) with FRead _ :: _ => True | _ => False end.


(** C38: The simulator is never ahead of the time displayed by more than the sample
    period in force when it was displayed, its clock is within the target, and it
    never runs more often than it was signalled. *)
Theorem lead_bounded s :
  reachable s →
  (now (sh s) <= target_time (sh s))%Q ∧
  (target_time (sh s) <= shown (hist s) + shown_period (hist s))%Q ∧
  (runs (hist s) ≤ signals (hist s))%nat.
Proof.
  intros Hr. destruct (reachable_inv s Hr) as [_ _ _ _ Hn Ht Hruns _ _]. split_and!; [done|done|lia].
Qed.

(** The simulation thread can move unless it is told to wait or is done. *)
Lemma sim_moves s :
  inv s → lock (sh s) ≠ Some View → sim s ≠ SDone → (sim s = SWait → go (sh s) = true) →
  ∃ s', vstep (SimStep (now (sh s)) 0) s = Some s'.
Proof.
  intros Hi Hl Hd Hw. cbn [vstep]. unfold sim_step. destruct (sim s) eqn:E; try done; try (eexists; reflexivity).
  - rewrite Hw by done. by eexists.
  - destruct (lock (sh s)) as [[]|] eqn:El; [|done|by eexists].
    apply (inv_sim s Hi) in El. by rewrite E in El.
  - unfold run_reaches. rewrite (proj2 (Qle_bool_iff _ _) (Qle_refl (now (sh s)))).
    rewrite (proj2 (Qle_bool_iff _ _) (inv_now s Hi)). by eexists.
Qed.

(** C10: The GTK thread is never stuck in a handler: the step it is at is possible, or
    the simulation thread has one, and so on until it is; closing the window as
    well as waiting for the lock inside the main loop included.  The step of a
    dialog is the user's answer. *)
Theorem view_never_stuck s :
  reachable s → frames (gt s) ≠ [] →
  (∃ s', vstep ViewStep s = Some s') ∨ (∃ s', vstep (SimStep (now (sh s)) 0) s = Some s').
Proof.
  intros Hr Hf. pose proof (reachable_inv s Hr) as Hi. cbn [vstep]. unfold view_step.
  assert (∀ f fs, frames (gt s) = f :: fs → holds f = false → lock (sh s) ≠ Some View) as Hlock.
  { intros f fs E Hh Hl%(inv_view s Hi). rewrite E in Hl. cbn in Hl. congruence. }
  destruct (frames (gt s)) as [|[id pc|pc|pc|b|b] below] eqn:E; [done|left|..].
  - unfold timeout_step. destruct pc; try (by eexists); by case_match; eexists.
  - destruct pc; cbn [model_step]; try (left; by eexists).
    destruct (lock (sh s)) as [[]|] eqn:El; [right| |left; by eexists].
    + pose proof (proj1 (inv_sim s Hi) El) as Hs. apply sim_moves; [done|congruence|..]; by destruct (sim s).
    + by destruct (Hlock (FModel MAcquire) below eq_refl eq_refl).
  - destruct pc; cbn [quit_step]; try (left; by eexists). case_decide as Hd; [left; by eexists|right].
    pose proof (inv_join s Hi) as Hj. rewrite E in Hj. apply sim_moves; [done| |done|apply Hj].
    by apply (Hlock (FQuit QJoin) below).
  - left. by eexists.
  - left. by eexists.
Qed.

(** The steps the simulation thread has left once it is told to quit. *)
Definition sim_left (pc : sim_pc) : nat :=
  match pc with
  | SAcquire => 6 | SRun => 5 | SIdle => 4 | SRelease => 3
  | SWait => 4 | SClear => 3 | SCheck => 2 | SHead => 1 | SDone => 0
  end.

Lemma join_step e s s' below :
  inv s → frames (gt s) = FQuit QJoin :: below → vstep e s = Some s' →
  (frames (gt s') = FQuit QJoin :: below ∧ (sim_left (sim s') < sim_left (sim s))%nat) ∨
  (e = ViewStep ∧ sim s = SDone ∧ frames (gt s') = FQuit QMainQuit :: below).
Proof.
  intros Hi Hf. pose proof (inv_join s Hi) as Hj. rewrite Hf in Hj. destruct Hj as [Hq Hw].
  destruct e as [reached messages| |id| | |u]; cbn [vstep]; unfold view_step, looping; rewrite ?Hf; cbn [andb negb].
  - unfold sim_step. rewrite Hq. intros Hs. left.
    destruct (sim s) eqn:E; try done; repeat case_match; simplify_eq; cbn; rewrite ?E; split; try done; lia.
  - cbn [quit_step]. case_decide; [|done]. intros [= <-]. by right.
  - done.
  - by case_match.
  - done.
  - done.
Qed.

(** C11: Closing the window ends: once [_quit] waits for the simulation thread, no
    execution has more than six steps before the wait is over, whatever the
    thread was doing, and a step is always possible until then; no wake-up is
    lost. *)
Theorem quit_joins s es s' below :
  reachable s → frames (gt s) = FQuit QJoin :: below → vsteps es s = Some s' →
  (frames (gt s') = FQuit QJoin :: below ∧ (length es ≤ 6)%nat ∧
   ((∃ s'', vstep ViewStep s' = Some s'') ∨ ∃ s'', vstep (SimStep (now (sh s')) 0) s' = Some s'')) ∨
  (∃ es1 es2, es = es1 ++ ViewStep :: es2 ∧ (length es1 ≤ 6)%nat ∧
     ∃ s1, vsteps es1 s = Some s1 ∧ sim s1 = SDone).
Proof.
  intros Hr Hf Hes.
  assert (∀ es s, inv s → frames (gt s) = FQuit QJoin :: below → vsteps es s = Some s' →
    (frames (gt s') = FQuit QJoin :: below ∧ (length es ≤ sim_left (sim s))%nat) ∨
    (∃ es1 es2, es = es1 ++ ViewStep :: es2 ∧ (length es1 ≤ sim_left (sim s))%nat ∧
       ∃ s1, vsteps es1 s = Some s1 ∧ sim s1 = SDone)) as H.
  { clear. intros es. induction es as [|e es IH]; intros s Hi Hf; cbn [vsteps].
    - intros [= <-]. left. split; [done|]. cbn. lia.
    - destruct (vstep e s) as [s1|] eqn:E; [|done]. cbn [mbind option_bind]. intros Hes.
      destruct (join_step e s s1 below Hi Hf E) as [[Hf1 Hlt]|(-> & Hd & _)].
      + destruct (IH s1 (vstep_inv _ _ _ Hi E) Hf1 Hes) as [[? ?]|(es1 & es2 & -> & Hlen & s2 & Hs2 & Hd)].
        * left. split; [done|]. cbn. lia.
        * right. exists (e :: es1), es2. split_and!; [done|cbn; lia|]. exists s2. cbn [vsteps]. by rewrite E.
      + right. exists [], es. split_and!; [done|cbn; lia|]. by exists s. }
  assert (∀ pc, (sim_left pc ≤ 6)%nat) as Hle by (intros []; cbn; lia).
  destruct (H es s (reachable_inv s Hr) Hf Hes) as [[Hf' Hlen]|(es1 & es2 & -> & Hlen & Hs1)].
  - left. split_and!; [done|pose proof (Hle (sim s)); lia|].
    pose proof (vsteps_inv _ _ _ (reachable_inv s Hr) Hes) as Hi'. cbn [vstep]. unfold view_step. rewrite Hf'.
    cbn [quit_step]. case_decide as Hd; [left; by eexists|right].
    pose proof (inv_join s' Hi') as Hj. rewrite Hf' in Hj. apply sim_moves; [done| |done|apply Hj].
    intros Hl%(inv_view s' Hi'). by rewrite Hf' in Hl.
  - right. exists es1, es2. split_and!; [done|pose proof (Hle (sim s)); lia|done].
Qed.

(** ** Concrete executions *)

(** A timer fires while the button is up; then the button is pressed, the timer
    fires and the simulation thread starts a run. *)
Definition idle_tick (id : nat) : list event := DispatchTimer id :: replicate 5 ViewStep.
Definition busy_tick (id : nat) : list event := DispatchTimer id :: replicate 6 ViewStep.
Definition sim_starts : list event := replicate 5 (SimStep 0 0).
Definition sim_ends (reached : Q) : list event := SimStep reached 0 :: replicate 2 (SimStep 0 0).
Definition started : list event := idle_tick 0 ++ [User Toggle] ++ busy_tick 1 ++ sim_starts.
Definition state_after (es : list event) : viz := default viz_init (vsteps es viz_init).

Lemma state_after_reachable es : is_Some (vsteps es viz_init) → reachable (state_after es).
Proof. intros [s Hs]. exists es. unfold state_after. by rewrite Hs. Qed.


(** During a run the timer of [autoscale_view] fires, or the menu of a node pops up:
    the GTK thread looks at the nodes while the simulator runs. *)
Example unlocked_reads_race :
  Forall (λ e, let s := state_after (started ++ [e]) in reachable s ∧ sim s = SRun ∧ reads_unlocked s)
    [DispatchAutoscale; User (Unlocked false); User (Unlocked true)].
Proof.
  assert (∀ e, is_Some (vsteps (started ++ [e]) viz_init) → reachable (state_after (started ++ [e]))) as H
    by (intros; by apply state_after_reachable).
  repeat apply Forall_cons_2; [split_and!; [apply H; vm_compute; by eexists|by vm_compute|by vm_compute]..|].
  apply Forall_nil_2.
Qed.

Lemma lead_bounded_witness :
  runs (hist (state_after (started ++ sim_ends (1 # 10)))) = 1%nat ∧
  (now (sh (state_after (started ++ sim_ends (1 # 10)))) <= target_time (sh (state_after (started ++ sim_ends (1 # 10)))))%Q.
Proof.
  assert (reachable (state_after (started ++ sim_ends (1 # 10)))) as Hr
    by (apply state_after_reachable; vm_compute; by eexists).
  pose proof (lead_bounded _ Hr) as (H & _ & _). split; [vm_compute; reflexivity|exact H].
Defined.

(** [update_model] wants the lock during a run: the simulation thread can go on. *)
Definition model_waits : list event :=
  started ++ sim_ends 0 ++ busy_tick 1 ++ sim_starts ++ [DispatchIdle].
Lemma view_never_stuck_witness :
  frames (gt (state_after model_waits)) = [FModel MAcquire] ∧
  ((∃ s', vstep ViewStep (state_after model_waits) = Some s') ∨
   (∃ s', vstep (SimStep (now (sh (state_after model_waits))) 0) (state_after model_waits) = Some s')).
Proof.
  assert (reachable (state_after model_waits)) as Hr by (apply state_after_reachable; vm_compute; by eexists).
  assert (frames (gt (state_after model_waits)) ≠ []) as Hf by (vm_compute; discriminate).
  pose proof (view_never_stuck _ Hr Hf) as H. split; [vm_compute; reflexivity|exact H].
Defined.

(** The window is closed during a run. *)
Definition closing : list event := started ++ [User CloseWindow] ++ replicate 3 ViewStep.
Lemma quit_joins_witness :
  frames (gt (state_after closing)) = [FQuit QJoin] ∧
  (length (sim_ends 0) ≤ 6)%nat ∧ frames (gt (state_after (closing ++ sim_ends 0))) = [FQuit QJoin].
Proof.
  assert (reachable (state_after closing)) as Hr by (apply state_after_reachable; vm_compute; by eexists).
  pose proof (quit_joins (state_after closing) (sim_ends 0) (state_after (closing ++ sim_ends 0)) [] Hr
    ltac:(vm_compute; reflexivity) ltac:(vm_compute; reflexivity)) as [(H1 & H2 & _)|(es1 & es2 & H & _)].
  - split; [vm_compute; reflexivity|]. split; [exact H2|exact H1].
  - exfalso. by destruct es1 as [|? [|? [|? []]]].
Defined.

(** Releasing and pressing the button removes the timer twice. *)
Example resume_removes_again :
  stale_removals (hist (state_after (idle_tick 0 ++ [User Toggle; User Toggle; User Toggle]))) = 1%nat.
Proof. vm_compute. reflexivity. Qed.

(** The speed is changed while the button is up and the last run goes on, and
    again inside the timer that waits for it: two timers are left for good. *)
Definition doubled : list event :=
  started ++ [User Toggle; User (Speed 1); DispatchTimer 2; ViewStep; User (Speed 1)] ++ sim_ends 0
    ++ replicate 6 ViewStep ++ [User Toggle].
Example two_timers :
  timers (gt (state_after doubled)) = [3; 4]%nat ∧ update_timeout_id (gt (state_after doubled)) = Some 4%nat ∧
  playing (gt (state_after doubled)) = true.
Proof. vm_compute. done. Qed.
