(* ===== verification/VizModel.v ===== *)
(** * The visualizer: what is displayed

    From src/visualizer: the windows of samples, the arrows of the transmissions,
    the selection and the nodes of interest (core.py), the links of the topology
    (core.py, base.py), the links of wireless stations (the plugin
    wifi_intrastructure_link.py), the statistics of interfaces (the plugin
    interface_statistics.py) and the rulers (hud.py).  Nodes, links and arrows are
    numbers; what the simulator reports is an argument; of the canvas only the
    properties named here are kept. *)
From Stdlib Require Import QArith Qround Qabs Qpower Lqa.
From Stdlib Require Import Ascii String.
From S2P Require Export PyStr Dict PyNum.
Open Scope Z_scope.

(** ** Windows of samples *)

(** [while len(l) > n: l.pop(0)] *)
Fixpoint trim {A} (n : Z) (l : list A) : res exn (list A) :=
  if n <? Z.of_nat (length l)
  then match l with [] => Raise IndexError | _ :: l => trim n l end
  else mret l.
Definition push_window {A} (n : Z) (l : list A) (x : A) : res exn (list A) := trim n (l ++ [x]).

(** [int(adj.get_value()*10)] *)
Definition smooth_factor (value : Q) : Z := Z.quot (Qnum (value * 10)) (Zpos (Qden (value * 10))).

Record sample : Type := Sample { transmitter : Z; receiver : Z; bytes : Z }.
Record windows : Type := Windows { last_transmissions : list (list sample); last_drops : list (list sample) }.
Definition do_simulation_periodic_update (smooth : Q) (transmissions drops : list sample) (w : windows) :
    res exn windows :=
  ts ← push_window (smooth_factor smooth) (last_transmissions w) transmissions;
  ds ← push_window (smooth_factor smooth) (last_drops w) drops;
  mret (Windows ts ds).

(** ** Averages and arrows *)

Section average.
Context {K : Type} `{EqDecision K} (key : sample → K).

(** The bytes and the number of the samples of each key. *)
Definition add_sample (averages : PyDict K (Z * Z)) (s : sample) : PyDict K (Z * Z) :=
  let '(b, n) := dget_or (0, 0) (key s) averages in
  dset (key s) (b + bytes s, n + 1) averages.
Definition average (sets : list (list sample)) : PyDict K (Z * Z) := 
  fold_left (λ averages set, fold_left add_sample set averages) sets dempty.
End average.
Definition transmission_key (s : sample) : Z * Z := (transmitter s, receiver s).
Definition drop_key (s : sample) : Z := transmitter s.

(** The list of arrows, which is shared with the loop that takes arrows from its
    end; the arrows made so far; whether each is visible, and what it shows; and
    the nodes with a view. *)
Record canvas (K : Type) : Type := Canvas {
  arrows : list nat;
  made : nat;
  visible : nat → bool;
  shows : nat → option (K * Q);
  views : list Z;
}.
Arguments Canvas {K}.
Arguments arrows {K}.
Arguments made {K}.
Arguments visible {K}.
Arguments shows {K}.
Arguments views {K}.

Section arrows.
Context {K : Type} (ends : K → list Z) (sample_period : Q).

Definition set_arrows (l : list nat) (c : canvas K) : canvas K := Canvas l (made c) (visible c) (shows c) (views c).
Definition set_visible (a : nat) (b : bool) (c : canvas K) : canvas K :=
  Canvas (arrows c) (made c) (λ x, if decide (x = a) then b else visible c x) (shows c) (views c).
Definition set_shows (a : nat) (v : K * Q) (c : canvas K) : canvas K :=
  Canvas (arrows c) (made c) (visible c) (λ x, if decide (x = a) then Some v else shows c x) (views c).
Definition get_node (n : Z) (c : canvas K) : canvas K :=
  if bool_decide (n ∈ views c) then c else Canvas (arrows c) (made c) (visible c) (shows c) (views c ++ [n]).

(** [old_arrows.pop()], or a new arrow. *)
Definition take_arrow : stm (canvas K) nat := λ c,
  match last (arrows c) with
  | Some a => (Ok a, set_arrows (removelast (arrows c)) c)
  | None => (Ok (made c), Canvas (arrows c) (S (made c)) (visible c) (shows c) (views c))
  end.

(** The rate that the label of an arrow shows, in kbit/s. *)
Definition kbps (b n : Z) : Q := (inject_Z (b * 8) / 1000 / inject_Z n / sample_period)%Q.
(** The logarithm in the width of the line raises when there are no bytes. *)
Definition draw_average (new_arrows : list nat) (item : K * (Z * Z)) : stm (canvas K) (list nat) :=
  let '(k, (b, n)) := item in
  _ ← st_modify (λ c, fold_left (λ c n, get_node n c) (ends k) c);
  a ← take_arrow;
  _ ← st_modify (set_visible a true);
  let per_sample := (inject_Z b / inject_Z n / sample_period)%Q in
  _ ← (if Qle_bool per_sample 0 then st_raise ValueError else mret tt : stm (canvas K) unit);
  _ ← st_modify (set_shows a (k, kbps b n));
  mret (new_arrows ++ [a]).
Definition update_arrows (averages : list (K * (Z * Z))) : stm (canvas K) unit :=
  c ← st_get;
  _ ← st_for (λ a, st_modify (set_visible a false)) (arrows c);
  new_arrows ← st_fold draw_average [] averages;
  st_modify (λ c, set_arrows (new_arrows ++ arrows c) c).
End arrows.
Definition transmission_ends (k : Z * Z) : list Z := [k.1; k.2].
Definition update_transmissions_view (period : Q) (w : windows) : stm (canvas (Z * Z)) unit :=
  update_arrows transmission_ends period (items (average transmission_key (last_transmissions w))).
Definition update_drops_view (period : Q) (w : windows) : stm (canvas Z) unit :=
  update_arrows (λ k, [k]) period (items (average drop_key (last_drops w))).

(** ** The selected node and the nodes of interest *)

Inductive ShowTransmissionsMode : Type := ALL | NONE | SELECTED.
#[export] Instance mode_eq_dec : EqDecision ShowTransmissionsMode.
Proof. solve_decision. Defined.

Record selection : Type := Selection {
  nodes : list Z;
  selected_node : option Z;
  flagged : Z → bool;
  show_transmissions_mode : ShowTransmissionsMode;
  nodes_of_interest : list Z;
}.
(** What [select_node] is called with: nothing, a view, an index or a node of the
    simulator (both by their index), or something else. *)
Inductive choice : Type := Nothing | View (n : Z) | Index (n : Z) | Other.

Definition set_nodes_of_interest (l : list Z) (s : selection) : selection :=
  Selection (nodes s) (selected_node s) (flagged s) (show_transmissions_mode s) l.
Definition set_flag (n : Z) (b : bool) (s : selection) : selection :=
  Selection (nodes s) (selected_node s) (λ x, if decide (x = n) then b else flagged s x)
    (show_transmissions_mode s) (nodes_of_interest s).
Definition set_selected (o : option Z) (s : selection) : selection :=
  Selection (nodes s) o (flagged s) (show_transmissions_mode s) (nodes_of_interest s).
Definition follow_selection (s : selection) : selection :=
  set_nodes_of_interest (option_list (selected_node s)) s.

Definition resolve (c : choice) (s : selection) : res exn (option Z) :=
  match c with
  | Nothing => mret None
  | View n => mret (Some n)
  | Index n => if bool_decide (n ∈ nodes s) then mret (Some n) else Raise KeyError
  | Other => Raise TypeError
  end.
Definition flag_selected (b : bool) (s : selection) : selection :=
  match selected_node s with Some n => set_flag n b s | None => s end.
Definition select_node (c : choice) : stm selection unit :=
  s ← st_get;
  node ← st_lift (resolve c s);
  if bool_decide (node = selected_node s) then mret tt
  else
    _ ← st_modify (flag_selected false);
    _ ← st_modify (set_selected node);
    _ ← st_modify (flag_selected true);
    if bool_decide (show_transmissions_mode s = SELECTED) then st_modify follow_selection else mret tt.
(** [count] is the number of nodes of the simulator at that time. *)
Definition set_show_transmissions_mode (count : nat) (mode : ShowTransmissionsMode) (s : selection) : selection :=
  let s := Selection (nodes s) (selected_node s) (flagged s) mode (nodes_of_interest s) in
  match mode with
  | ALL => set_nodes_of_interest (seqZ 0 (Z.of_nat count)) s
  | NONE => set_nodes_of_interest [] s
  | SELECTED => follow_selection s
  end.

(** ** The links of wireless stations *)

(** For each link the station's node and the access point's; for each node its
    links, in order; and the links made so far. *)
Record wireless : Type := Wireless {
  ap_of : nat → option Z;
  links_of : Z → list nat;
  shown_link : nat → bool;
  access_points : PyDict pystr Z;
  stations : list nat;
  next_link : nat;
}.
Definition set_ap_of (l : nat) (o : option Z) (w : wireless) : wireless :=
  Wireless (λ x, if decide (x = l) then o else ap_of w x) (links_of w) (shown_link w) (access_points w)
    (stations w) (next_link w).
Definition set_links (n : Z) (ls : list nat) (w : wireless) : wireless :=
  Wireless (ap_of w) (λ x, if decide (x = n) then ls else links_of w x) (shown_link w) (access_points w)
    (stations w) (next_link w).
Definition show_link (l : nat) (b : bool) (w : wireless) : wireless :=
  Wireless (ap_of w) (links_of w) (λ x, if decide (x = l) then b else shown_link w x) (access_points w)
    (stations w) (next_link w).

(** [list.remove] *)
Fixpoint remove_first (x : nat) (l : list nat) : res exn (list nat) :=
  match l with
  | [] => Raise ValueError
  | y :: l => if decide (x = y) then mret l else cons y <$> remove_first x l
  end.
Definition remove_link (n : Z) (l : nat) : stm wireless unit :=
  w ← st_get; ls ← st_lift (remove_first l (links_of w n)); st_modify (set_links n ls).
Definition add_link (n : Z) (l : nat) : stm wireless unit := st_modify (λ w, set_links n (links_of w n ++ [l]) w).

Definition set_ap (l : nat) (ap : option Z) : stm wireless unit :=
  w ← st_get;
  if bool_decide (ap = ap_of w l) then mret tt
  else
    _ ← match ap_of w l with Some n => remove_link n l | None => mret tt end;
    _ ← st_modify (set_ap_of l ap);
    match ap with
    | None => st_modify (show_link l false)
    | Some n => _ ← add_link n l; st_modify (show_link l true)
    end.

(** What a station reports: whether its link is up, and the address it is
    associated with. *)
Definition no_bssid : pystr := str "00:00:00:00:00:00".
Definition update_station (report : nat → bool * pystr) (l : nat) : stm wireless unit :=
  let '(up, bssid) := report l in
  if negb up || bool_decide (bssid = no_bssid) then set_ap l None
  else
    w ← st_get;
    ap ← st_lift (dlookup bssid (access_points w));
    set_ap l (Some ap).
Definition wifi_periodic_update (report : nat → bool * pystr) : stm wireless unit :=
  w ← st_get; st_for (update_station report) (stations w).

(** A wireless device of a node: a station, or an access point with its address. *)
Inductive device : Type := Station (node : Z) | AccessPoint (node : Z) (address : pystr) | OtherDevice.
Definition destroy_link (w : wireless) (l : nat) : wireless := set_ap_of l None w.
(** [WifiLink]: of [set_ap(None)] on a link that has no access point nothing happens. *)
Definition new_link (w : wireless) : wireless :=
  Wireless (λ x, if decide (x = next_link w) then None else ap_of w x) (links_of w) (λ x, if decide (x = next_link w) then true else shown_link w x) (access_points w)
    (stations w ++ [next_link w]) (S (next_link w)).
Definition scan_device (w : wireless) (d : device) : wireless :=
  match d with
  | Station _ => new_link w
  | AccessPoint n a =>
      Wireless (ap_of w) (links_of w) (shown_link w) (dset a n (access_points w)) (stations w) (next_link w)
  | OtherDevice => w
  end.
Definition scan_nodes (devices : list device) (w : wireless) : wireless :=
  let w := fold_left destroy_link (stations w) w in
  let w := Wireless (ap_of w) (links_of w) (shown_link w) dempty [] (next_link w) in
  fold_left scan_device devices w.

(** ** The statistics of interfaces *)

Record interface : Type := Interface { txPackets : Z; txBytes : Z; rxPackets : Z; rxBytes : Z }.
Record rates : Type := Rates {
  totals : interface; txPacketRate : Q; rxPacketRate : Q; txBitRate : Q; rxBitRate : Q;
}.
Definition NODE_STATISTICS_MEMORY : Z := 10.
Definition statistics : Type := PyDict Z (list (list interface)).

Definition collect_node (stats : statistics) (node : Z * list interface) : res exn statistics :=
  raw ← push_window NODE_STATISTICS_MEMORY (dget_or [] node.1 stats) node.2;
  mret (dset node.1 raw stats).
Definition collect (stats : statistics) (nodes : list (Z * list interface)) : res exn statistics :=
  fold_res collect_node stats nodes.

(** [sample_period] is the one at the time of the question. *)
Definition rates_of (sample_period : Q) (first last : interface) : rates :=
  let k := (sample_period * inject_Z (NODE_STATISTICS_MEMORY - 1))%Q in
  Rates last
    (inject_Z (txPackets last - txPackets first) / k)%Q
    (inject_Z (rxPackets last - rxPackets first) / k)%Q
    (inject_Z ((txBytes last - txBytes first) * 8) / k)%Q
    (inject_Z ((rxBytes last - rxBytes first) * 8) / k)%Q.
Definition get_interface_statistics (sample_period : Q) (nodeId : Z) (stats : statistics) : res exn (list rates) :=
  match dget nodeId stats with
  | None => mret []
  | Some raw =>
      if Z.of_nat (length raw) <? NODE_STATISTICS_MEMORY then mret []
      else if negb (Z.of_nat (length raw) =? NODE_STATISTICS_MEMORY) then Raise AssertionError
      else
        first_ ← res_of_option IndexError (head raw);
        last_ ← res_of_option IndexError (last raw);
        mapM_res (λ p : nat * interface,
          f ← res_of_option IndexError (first_ !! p.1); mret (rates_of sample_period f p.2)) (imap pair last_)
  end.

(** ** The links of the topology *)

(** A device: whether it is wireless or virtual (if its type is registered), and
    its channel.  A channel lists the nodes of its devices. *)
Record traits : Type := Traits { is_wireless : bool; is_virtual : bool }.
Definition unknown_traits : traits := Traits true false.
Definition lookup_netdevice_traits (type : pystr) (known : PyDict pystr traits) : traits * PyDict pystr traits :=
  match dget type known with
  | Some t => (t, known)
  | None => (unknown_traits, dset type unknown_traits known)
  end.
Inductive endpoint : Type := AtNode (n : Z) | AtChannel (c : nat).
#[export] Instance endpoint_eq_dec : EqDecision endpoint.
Proof. solve_decision. Defined.

Section topology.
Context (channel_nodes : nat → list Z) (represent_channels_as_nodes : bool).

(** The links that one device of a node makes; in a channel of more than two
    devices one link to the channel, or, by the flag, as in a smaller one, a link
    to each node at another device. *)
Definition device_links (node : Z) (t : traits) (channel : nat) : list (Z * endpoint) :=
  if is_wireless t || is_virtual t then []
  else
    let others := (λ n, (node, AtNode n)) <$> base.filter (λ n, n ≠ node) (channel_nodes channel) in
    if (2 <? length (channel_nodes channel))%nat && represent_channels_as_nodes
    then [(node, AtChannel channel)] else others.
Definition scan_device_links (s : list (Z * endpoint) * PyDict pystr traits) (d : Z * (pystr * nat)) :
    list (Z * endpoint) * PyDict pystr traits :=
  let '(t, known) := lookup_netdevice_traits d.2.1 s.2 in
  (s.1 ++ device_links d.1 t d.2.2, known).
(** The devices node by node, each with its type and its channel. *)
Definition scan_links (known : PyDict pystr traits) (devices : list (Z * (pystr * nat))) : list (Z * endpoint) :=
  (fold_left scan_device_links devices ([], known)).1.
End topology.

(** ** The rulers *)

(** [rint(math.log10(x))] of a positive number: the exponent [e] with [x * x]
    between [10 ^ (2 * e - 1)] and [10 ^ (2 * e + 1)]; [fuel] bounds the search. *)
Definition pow10 (e : Z) : Q := (inject_Z 10 ^ e)%Q.
Fixpoint exponent (fuel : nat) (e : Z) (x : Q) : option Z :=
  match fuel with
  | O => None
  | S fuel =>
      if Qle_bool (pow10 (2 * e + 1)) (x * x) then exponent fuel (e + 1) x
      else if Qle_bool (pow10 (2 * e - 1)) (x * x) then Some e
      else exponent fuel (e - 1) x
  end.
Definition exponent_fuel (x : Q) : nat := Z.to_nat (Z.log2 (Qnum x) + Z.log2 (Zpos (Qden x)) + 3).

(** One pass of the loop of [_compute_divisions]; the number of divisions changes
    after the second pass, what is computed does not. *)
Definition closest_division (dx_over_ndiv : Q) : option Q :=
  e ← exponent (exponent_fuel dx_over_ndiv) 0 dx_over_ndiv;
  let div := pow10 e in
  let off q := Qabs (q - dx_over_ndiv) in
  Some (if Qle_bool (off div) (off (div / 2)%Q) then
          if Qle_bool (off div) (off (div * 2)%Q) then div else (div * 2)%Q
        else (div / 2)%Q).
Definition division_pass (xi dx dx_over_ndiv text_width : Q) (s : Q * option (Q * Q)) (n : Z) : Q * option (Q * Q) :=
  let r := div ← closest_division dx_over_ndiv; Some ((div * inject_Z (Qceiling (xi / div)) - div)%Q, div) in
  (if 1 <? n then inject_Z (Qfloor (dx / text_width + (1 # 2))) else s.1, r).
(** The start and the length of the divisions; [None] when the fuel is out. *)
Definition compute_divisions (xi xf : Q) : res exn (option (Q * Q)) :=
  if Qle_bool xf xi then Raise AssertionError
  else
    let dx := (xf - xi)%Q in
    mret (fold_left (division_pass xi dx (dx / 5)%Q (dx / 5 / 2)%Q) (seqZ 0 5) (5%Q, None)).2.

(** The [while] loop over the places of the labels. *)
Definition ticks (x div xf : Q) : option (list Q) := progression 10 x div xf.
Definition ruler (xi xf : Q) : res exn (option (list Q)) :=
  r ← compute_divisions xi xf;
  mret ('(x0, div) ← r; ticks x0 div xf).

(** The labels in their order, those made so far, and what each shows. *)
Record hud : Type := Hud { labels : list nat; labels_made : nat; label_text : nat → option Q; hud_visible : bool }.
Definition set_labels (l : list nat) (h : hud) : hud := Hud l (labels_made h) (label_text h) (hud_visible h).
Definition set_text (l : nat) (o : option Q) (h : hud) : hud :=
  Hud (labels h) (labels_made h) (λ x, if decide (x = l) then o else label_text h x) (hud_visible h).
(** [get_label]: the first unused label, or a new one; its text is [%G] of the place. *)
Definition get_label (s : list nat * hud) (x : Q) : list nat * hud :=
  let '(unused, h) := s in
  let '(l, unused, made) := match unused with
                            | l :: unused => (l, unused, labels_made h)
                            | [] => (labels_made h, [], S (labels_made h))
                            end in
  (unused, set_text l (Some x) (Hud (labels h ++ [l]) made (label_text h) (hud_visible h))).
Definition hide_labels (h : hud) : hud := fold_left (λ h l, set_text l None h) (labels h) h.
Definition place_labels (places : list Q) (unused : list nat) : stm hud (list nat) := λ h,
  let '(unused, h) := fold_left get_label places (unused, h) in (Ok unused, h).
(** [update_view] on the rectangle that is visible; before there is a zoom it does
    nothing.  The result is [None] when the fuel is out. *)
Definition update_axis (xi xf : Q) (unused : list nat) : stm hud (option (list nat)) :=
  places ← st_lift (ruler xi xf);
  match places with
  | None => mret None
  | Some places => unused ← place_labels places unused; mret (Some unused)
  end.
Definition update_view (zoomed : bool) (x1 x2 y1 y2 : Q) : stm hud (option unit) :=
  if negb zoomed then mret (Some tt)
  else
    h ← st_get;
    _ ← st_modify (λ h, set_labels [] (hide_labels h));
    unused ← update_axis x1 x2 (labels h);
    match unused with
    | None => mret None
    | Some unused =>
        unused ← update_axis y1 y2 unused;
        match unused with
        | None => mret None
        | Some unused => _ ← st_modify (λ h, set_labels (labels h ++ unused) h); mret (Some tt)
        end
    end.
Definition set_hud_visible (b : bool) (h : hud) : hud :=
  let h := Hud (labels h) (labels_made h) (label_text h) b in
  if b then h else hide_labels h.

(** ** The rulers: facts *)

Lemma power_of_ten_pos e : (0 < pow10 e)%Q.
Proof. apply Qpower_0_lt. reflexivity. Qed.
Lemma pow10_succ e : (pow10 (e + 1) == 10 * pow10 e)%Q.
Proof. unfold pow10. rewrite Qpower_plus by (intros H; by vm_compute in H). rewrite Qpower_1_r. cbn. ring. Qed.
Lemma pow10_lt_inv a b : (pow10 a < pow10 b)%Q → a < b.
Proof. intros H. apply (Qpower_lt_compat_l_inv (inject_Z 10)); [exact H|reflexivity]. Qed.
Lemma pow10_square e : (pow10 (2 * e) == pow10 e * pow10 e)%Q.
Proof.
  unfold pow10. replace (2 * e) with (e + e) by lia. apply Qpower_plus. intros H. by vm_compute in H.
Qed.

(** A positive fraction is between two powers of ten. *)
Lemma pow10_above n : 0 <= n → (inject_Z n * inject_Z n < pow10 (Z.log2 n + 1))%Q.
Proof.
  intros Hn. unfold pow10. pose proof (Z.log2_nonneg n).
  rewrite <-Zpower_Qpower, <-inject_Z_mult by lia. rewrite <-Zlt_Qlt.
  destruct (decide (n = 0)) as [->|]; [done|]. pose proof (Z.log2_spec n ltac:(lia)) as [_ H2].
  apply Z.lt_le_trans with (2 ^ Z.succ (Z.log2 n) * 2 ^ Z.succ (Z.log2 n)); [nia|].
  rewrite <-Z.pow_mul_l. apply Z.pow_le_mono_l. lia.
Qed.
Lemma square_above x : (0 < x)%Q → (x * x < pow10 (Z.log2 (Qnum x) + 1))%Q.
Proof.
  intros Hx. pose proof (pow10_above (Qnum x)) as H. destruct x as [n d]. cbn in *. unfold Qlt in Hx. cbn in Hx.
  eapply Qle_lt_trans; [|apply H; lia]. unfold Qle. cbn.
  assert (1 <= Zpos (d * d)) by lia. assert (0 <= n * n) by lia. nia.
Qed.
Lemma square_below x : (0 < x)%Q → (pow10 (- (Z.log2 (Zpos (Qden x)) + 1)) < x * x)%Q.
Proof.
  intros Hx. pose proof (pow10_above (Zpos (Qden x)) ltac:(lia)) as H.
  set (e := Z.log2 (Zpos (Qden x)) + 1) in *. unfold pow10. rewrite Qpower_opp. fold (pow10 e).
  set (D := inject_Z (Zpos (Qden x))) in *. pose proof (power_of_ten_pos e) as He.
  assert (1 <= x * D)%Q as Hn.
  { destruct x as [n d]. unfold D, Qlt, Qle in *. cbn in *. nia. }
  assert (0 < D)%Q as HD by done. assert (1 <= (x * x) * (D * D))%Q as Hs by nra.
  assert (/ pow10 e * pow10 e == 1)%Q as Hi by (field; lra).
  assert (0 < / pow10 e)%Q as Hi0 by by apply Qinv_lt_0_compat.
  assert ((x * x) * (D * D) < (x * x) * pow10 e)%Q as Hlt by (apply Qmult_lt_l; nra).
  assert (1 < (x * x) * pow10 e)%Q as H1 by lra. nra.
Qed.

Lemma pow10_le_inv a b : (pow10 a <= pow10 b)%Q → a <= b.
Proof. intros H. apply (Qpower_le_compat_l_inv (inject_Z 10)); [exact H|reflexivity]. Qed.

Lemma exponent_up fuel : ∀ e x,
  (0 < x)%Q → (pow10 (2 * e - 1) <= x * x)%Q → 0 <= e → Z.log2 (Qnum x) + 2 - e <= Z.of_nat fuel →
  ∃ r, exponent fuel e x = Some r.
Proof.
  induction fuel as [|fuel IH]; intros e x Hx He H0 Hf; pose proof (square_above x Hx) as Ha;
    pose proof (Z.log2_nonneg (Qnum x)) as Hl.
  - pose proof (pow10_lt_inv _ _ (Qle_lt_trans _ _ _ He Ha)). lia.
  - cbn [exponent]. destruct (Qle_bool (pow10 (2 * e + 1)) (x * x)) eqn:E.
    + apply Qle_bool_iff in E. pose proof (pow10_lt_inv _ _ (Qle_lt_trans _ _ _ E Ha)).
      apply IH; [done| |lia|lia]. by replace (2 * (e + 1) - 1) with (2 * e + 1) by lia.
    + rewrite (proj2 (Qle_bool_iff _ _) He). by eexists.
Qed.
Lemma exponent_down fuel : ∀ e x,
  (0 < x)%Q → (x * x < pow10 (2 * e + 1))%Q → e <= 0 → e + Z.log2 (Zpos (Qden x)) + 2 <= Z.of_nat fuel →
  ∃ r, exponent fuel e x = Some r.
Proof.
  induction fuel as [|fuel IH]; intros e x Hx He H0 Hf; pose proof (square_below x Hx) as Ha;
    pose proof (Z.log2_nonneg (Zpos (Qden x))) as Hl.
  - pose proof (pow10_lt_inv _ _ (Qlt_trans _ _ _ Ha He)). lia.
  - cbn [exponent]. rewrite (proj2 (Qle_bool_false _ _) He).
    destruct (Qle_bool (pow10 (2 * e - 1)) (x * x)) eqn:E; [by eexists|]. apply Qle_bool_false in E.
    pose proof (pow10_lt_inv _ _ (Qlt_trans _ _ _ Ha E)).
    apply IH; [done| |lia|lia]. by replace (2 * (e - 1) + 1) with (2 * e - 1) by lia.
Qed.
Lemma exponent_sound fuel : ∀ e x r,
  exponent fuel e x = Some r → (pow10 (2 * r - 1) <= x * x)%Q ∧ (x * x < pow10 (2 * r + 1))%Q.
Proof.
  induction fuel as [|fuel IH]; intros e x r; [done|]. cbn [exponent].
  destruct (Qle_bool (pow10 (2 * e + 1)) (x * x)) eqn:E1; [apply IH|].
  destruct (Qle_bool (pow10 (2 * e - 1)) (x * x)) eqn:E2; [|apply IH]. intros [= ->].
  by apply Qle_bool_false in E1; apply Qle_bool_iff in E2.
Qed.
(** The fuel is enough: [10 ^ e] is within a factor of the root of ten. *)
Lemma exponent_enough x :
  (0 < x)%Q → ∃ e, exponent (exponent_fuel x) 0 x = Some e ∧
    (pow10 e * pow10 e <= 10 * (x * x))%Q ∧ (x * x < 10 * (pow10 e * pow10 e))%Q.
Proof.
  intros Hx. pose proof (Z.log2_nonneg (Qnum x)). pose proof (Z.log2_nonneg (Zpos (Qden x))).
  assert (∃ e, exponent (exponent_fuel x) 0 x = Some e) as [e He].
  { unfold exponent_fuel. destruct (Qlt_le_dec (x * x) (pow10 1)).
    - apply exponent_down; [done|done|lia|]. rewrite Z2Nat.id by lia. lia.
    - apply exponent_up; [done| |lia|rewrite Z2Nat.id by lia; lia].
      eapply Qle_trans; [|done]. by vm_compute. }
  exists e. split; [done|]. apply exponent_sound in He as [H1 H2]. rewrite <-pow10_square.
  rewrite pow10_succ in H2. replace (2 * e) with (2 * e - 1 + 1) at 1 by lia. rewrite pow10_succ. split; [lra|done].
Qed.

(** *** The length of the divisions *)

(** A power of ten, twice it or half of it. *)
Definition round_number (div : Q) : Prop :=
  ∃ e, (div == pow10 e ∨ div == pow10 e * 2 ∨ div == pow10 e / 2)%Q.
Lemma Qsquare_lt a b : (0 <= b → a * a < b * b → a < b)%Q.
Proof. intros Hb H. destruct (Qlt_le_dec a b) as [|Hl]; [done|]. exfalso. nra. Qed.
(** Which of two numbers is closer to [d]. *)
Lemma closer_above p q d : (p < q → Qabs (p - d) <= Qabs (q - d) ↔ 2 * d <= p + q)%Q.
Proof.
  intros Hpq. destruct (Qlt_le_dec d p) as [H1|H1], (Qlt_le_dec d q) as [H2|H2];
    rewrite ?(Qabs_pos (p - d)), ?(Qabs_pos (q - d)), ?(Qabs_neg (p - d)), ?(Qabs_neg (q - d)) by lra; lra.
Qed.
Lemma closer_below p q d : (q < p → Qabs (p - d) <= Qabs (q - d) ↔ p + q <= 2 * d)%Q.
Proof.
  intros Hpq. destruct (Qlt_le_dec d p) as [H1|H1], (Qlt_le_dec d q) as [H2|H2];
    rewrite ?(Qabs_pos (p - d)), ?(Qabs_pos (q - d)), ?(Qabs_neg (p - d)), ?(Qabs_neg (q - d)) by lra; lra.
Qed.
Lemma closest_division_spec d :
  (0 < d)%Q → ∃ div, closest_division d = Some div ∧ (0 < div)%Q ∧ round_number div ∧
    (3 * div < 5 * d)%Q ∧ (5 * d < 8 * div)%Q.
Proof.
  intros Hd. unfold closest_division. destruct (exponent_enough d Hd) as (e & -> & H1 & H2).
  cbn [mbind option_bind]. pose proof (power_of_ten_pos e) as Hp. set (p := pow10 e) in *.
  assert (2 * (p / 2) == p)%Q as Hh by field.
  destruct (Qle_bool (Qabs (p - d)) (Qabs (p / 2 - d))) eqn:E1.
  - apply Qle_bool_iff, closer_below in E1; [|lra].
    destruct (Qle_bool (Qabs (p - d)) (Qabs (p * 2 - d))) eqn:E2.
    + apply Qle_bool_iff, closer_above in E2; [|lra].
      exists p. split_and!; [done|done|exists e; by left|lra|lra].
    + apply Qle_bool_false, Qlt_not_le in E2. rewrite closer_above in E2 by lra. apply Qnot_le_lt in E2.
      exists (p * 2)%Q. assert (5 * d < 16 * p)%Q by (apply Qsquare_lt; lra).
      split_and!; [done|lra|exists e; by right; left|lra|lra].
  - apply Qle_bool_false, Qlt_not_le in E1. rewrite closer_below in E1 by lra. apply Qnot_le_lt in E1.
    exists (p / 2)%Q. assert (3 * p < 10 * d)%Q by (apply Qsquare_lt; lra).
    split_and!; [done|lra|exists e; by right; right|lra|lra].
Qed.

(** All passes compute the same. *)
Lemma compute_divisions_spec xi xf :
  (xi < xf)%Q →
  ∃ div, compute_divisions xi xf = Ok (Some (div * inject_Z (Qceiling (xi / div)) - div, div)%Q) ∧
    (0 < div)%Q ∧ round_number div ∧ (3 * div < xf - xi)%Q ∧ (xf - xi < 8 * div)%Q.
Proof.
  intros Hx. unfold compute_divisions.
  destruct (closest_division_spec ((xf - xi) / 5)) as (div & Hd & H0 & Hr & H1 & H2).
  { apply Qlt_shift_div_l; [done|lra]. }
  assert (5 * ((xf - xi) / 5) == xf - xi)%Q as H5 by field.
  rewrite (proj2 (Qle_bool_false xf xi) Hx). exists div.
  change (seqZ 0 5) with [0; 1; 2; 3; 4]. cbn [fold_left]. unfold division_pass at 1. rewrite Hd.
  cbn [mbind option_bind snd]. by split_and!; [|done|done|lra|lra].
Qed.

(** The places of a ruler: consecutive multiples of [div], the first one below the
    start and the rest not, up to the end. *)
Definition ruler_marks (xi xf div : Q) (l : list Q) : Prop :=
  ∃ k, (div * inject_Z k < xi <= div * inject_Z (k + 1))%Q ∧
    (∀ i y, l !! i = Some y → y == div * inject_Z (k + Z.of_nat i) ∧ y < xf)%Q ∧
    (xf <= div * inject_Z (k + Z.of_nat (length l)))%Q.

Lemma ceiling_bounds x div : (0 < div)%Q →
  (div * inject_Z (Qceiling (x / div) - 1) < x <= div * inject_Z (Qceiling (x / div)))%Q.
Proof.
  intros Hd. assert (div * (x / div) == x)%Q as Hx by (field; lra).
  pose proof (Qle_ceiling (x / div)) as H1. pose proof (Qceiling_lt (x / div)) as H2.
  apply (Qmult_lt_l _ _ div Hd) in H2. apply (Qmult_le_l _ _ div Hd) in H1. split; lra.
Qed.
Lemma ruler_spec xi xf :
  (xi < xf)%Q → ∃ div l, ruler xi xf = Ok (Some l) ∧ round_number div ∧ ruler_marks xi xf div l ∧
    (4 <= length l <= 9)%nat.
Proof.
  intros Hx. destruct (compute_divisions_spec xi xf Hx) as (div & Hd & H0 & Hr & H1 & H2).
  unfold ruler. rewrite Hd. cbn [mbind res_bind option_bind mret res_ret].
  set (k := Qceiling (xi / div)) in *. pose proof (ceiling_bounds xi div H0) as [Hk1 Hk2]. fold k in Hk1, Hk2.
  assert (div * inject_Z (k - 1) == div * inject_Z k - div)%Q as Hk.
  { replace (k - 1) with (k + - (1)) by lia. rewrite inject_Z_plus. change (inject_Z (- (1))) with (- (1))%Q. ring. }
  unfold ticks. destruct (progression_spec div xf 9 (div * inject_Z k - div)%Q) as (l & Hl & Hy & Hlen); [|done|].
  { intros _. change (inject_Z (Z.of_nat 9)) with 9%Q. lra. }
  exists div, l. rewrite Hl. split_and!; [done|done| | |].
  - exists (k - 1). replace (k - 1 + 1) with k by lia. split_and!; [done|done| |].
    + intros i y Hi. destruct (Hy _ _ Hi) as [Hy1 Hy2]. split; [|done].
      rewrite inject_Z_plus, Hy1, <-Hk. ring.
    + rewrite inject_Z_plus. lra.
  - destruct (decide (4 <= length l)%nat) as [|Hn]; [done|]. exfalso.
    assert (inject_Z (Z.of_nat (length l)) <= 3)%Q as H3 by (rewrite <-(Zle_Qle _ 3); lia).
    apply (Qmult_le_l _ _ div H0) in H3. lra.
  - destruct (decide (length l <= 9)%nat) as [|Hn]; [done|]. exfalso.
    destruct (lookup_lt_is_Some_2 l 9) as [y Hi]; [lia|]. destruct (Hy _ _ Hi) as [Hy1 Hy2].
    change (inject_Z (Z.of_nat 9)) with 9%Q in Hy1. lra.
Qed.

(** *** The labels *)

(** No label is lost or used twice; the unused ones are hidden and the others show
    their places in order. *)
Definition hud_wf (h : hud) : Prop := labels h ≡ₚ seq 0 (labels_made h).
Definition labels_inv (places : list Q) (s : list nat * hud) : Prop :=
  labels s.2 ++ s.1 ≡ₚ seq 0 (labels_made s.2) ∧
  label_text s.2 <$> labels s.2 = Some <$> places ∧ label_text s.2 <$> s.1 = replicate (length s.1) None.

Lemma fmap_set_other {A} (f : nat → A) l v (ls : list nat) :
  l ∉ ls → (λ x, if decide (x = l) then v else f x) <$> ls = f <$> ls.
Proof. intros Hl. apply list_fmap_ext. intros i x Hx%list_elem_of_lookup_2. rewrite decide_False; [done|set_solver]. Qed.
Lemma get_label_inv places s x :
  labels_inv places s → labels_inv (places ++ [x]) (get_label s x).
Proof.
  destruct s as [[|l unused] h]; intros (Hp & Ht & Hu); cbn [fst snd] in *.
  - rewrite app_nil_r in Hp. assert (labels_made h ∉ labels h) as Hn.
    { rewrite Hp, list_elem_of_In, in_seq. lia. }
    unfold labels_inv. cbn -[seq]. rewrite !fmap_app, fmap_set_other, Ht, app_nil_r by done. cbn -[seq].
    rewrite decide_True by done. split_and!; [|done|done]. by rewrite Hp, seq_S.
  - assert (NoDup (labels h ++ l :: unused)) as Hn by (rewrite Hp; apply NoDup_seq).
    apply NoDup_app in Hn as (Hn1 & Hn2 & [Hn3 Hn4]%NoDup_cons). cbn in Hu. injection Hu as Hl Hu.
    unfold labels_inv. cbn -[seq]. rewrite !fmap_app, !fmap_set_other, Ht by set_solver. cbn -[seq].
    rewrite decide_True by done. rewrite (fmap_set_other _ l (Some x) unused) by done.
    split_and!; [|done|done]. by rewrite <-app_assoc.
Qed.
Lemma get_labels_inv qs : ∀ places s, labels_inv places s → labels_inv (places ++ qs) (fold_left get_label qs s).
Proof.
  induction qs as [|q qs IH]; intros places s Hs; cbn; [by rewrite app_nil_r|].
  apply (get_label_inv _ _ q) in Hs. apply IH in Hs. by rewrite <-app_assoc in Hs.
Qed.
Lemma hide_keeps ls : ∀ h l,
  label_text h l = None → label_text (fold_left (λ h l, set_text l None h) ls h) l = None.
Proof. induction ls as [|x ls IH]; intros h l Hl; cbn; [done|]. apply IH. cbn. by case_decide. Qed.
Lemma hide_spec ls : ∀ h, let h' := fold_left (λ h l, set_text l None h) ls h in
  labels h' = labels h ∧ labels_made h' = labels_made h ∧ ∀ l, l ∈ ls → label_text h' l = None.
Proof.
  induction ls as [|x ls IH]; intros h; cbn; [split_and!; set_solver|].
  destruct (IH (set_text x None h)) as (H1 & H2 & H3). split_and!; [done|done|].
  intros l [->|Hl]%elem_of_cons; [|by apply H3]. apply hide_keeps. cbn. by rewrite decide_True.
Qed.
Lemma update_axis_ok xi xf places l unused h :
  ruler xi xf = Ok (Some l) → labels_inv places (unused, h) →
  ∃ unused' h', update_axis xi xf unused h = (Ok (Some unused'), h') ∧ labels_inv (places ++ l) (unused', h').
Proof.
  intros Hr Hi. unfold update_axis, mbind, stm_bind, st_lift. rewrite Hr. unfold place_labels.
  apply (get_labels_inv l) in Hi. destruct (fold_left get_label l (unused, h)) as [u h']. by exists u, h'.
Qed.

(** When the rectangle that is seen is not empty, an update of the rulers
    returns; on each axis it marks between four and nine places, which are
    consecutive multiples of a power of ten or of twice or half of one, the first
    just below the start and the last just below the end; the labels first in the
    list show these places in their order and the rest of the labels are hidden, and
    no label is lost or in the list twice.  When the rectangle is empty in the first
    axis the assertion fails, with the labels hidden and none in the list. *)
Theorem rulers_drawn (h : hud) (x1 x2 y1 y2 : Q) :
  hud_wf h →
  ((x1 < x2)%Q → (y1 < y2)%Q → ∃ h' dx dy xs ys,
     update_view true x1 x2 y1 y2 h = (Ok (Some tt), h') ∧
     round_number dx ∧ ruler_marks x1 x2 dx xs ∧ (4 <= length xs <= 9)%nat ∧
     round_number dy ∧ ruler_marks y1 y2 dy ys ∧ (4 <= length ys <= 9)%nat ∧
     hud_wf h' ∧
     label_text h' <$> labels h' =
       (Some <$> xs ++ ys) ++ replicate (length (labels h') - length (xs ++ ys)) None) ∧
  ((x2 <= x1)%Q → update_view true x1 x2 y1 y2 h = (Raise AssertionError, set_labels [] (hide_labels h))).
Proof.
  intros Hw. pose proof (hide_spec (labels h) h) as (Hl & Hm & Ht).
  fold (hide_labels h) in Hl, Hm, Ht. split.
  - intros Hx Hy. destruct (ruler_spec x1 x2 Hx) as (dx & xs & Hrx & Hx1 & Hx2 & Hx3).
    destruct (ruler_spec y1 y2 Hy) as (dy & ys & Hry & Hy1 & Hy2 & Hy3).
    assert (labels_inv [] (labels h, set_labels [] (hide_labels h))) as Hi.
    { unfold labels_inv. cbn -[seq]. rewrite Hm. split_and!; [done|done|]. clear -Ht.
      induction (labels h) as [|l ls IH]; cbn; [done|]. rewrite Ht by by left. f_equal. apply IH. set_solver. }
    destruct (update_axis_ok _ _ _ _ _ _ Hrx Hi) as (u1 & h1 & H1 & Hi1).
    destruct (update_axis_ok _ _ _ _ _ _ Hry Hi1) as (u2 & h2 & H2 & Hi2).
    destruct Hi2 as (Hp & Hs & Hu). cbn [fst snd app] in Hp, Hs, Hu.
    exists (set_labels (labels h2 ++ u2) h2), dx, dy, xs, ys. split_and!; try first [done|lia].
    + unfold update_view, mbind, stm_bind, st_get, st_modify. cbn [negb]. rewrite H1, H2. done.
    + cbn [labels label_text set_labels]. rewrite fmap_app, Hs, Hu, length_app. f_equal. f_equal.
      apply (f_equal length) in Hs. rewrite !length_fmap in Hs. lia.
  - intros Hx. unfold update_view, update_axis, ruler, compute_divisions, mbind, stm_bind, st_get, st_modify, st_lift.
    cbn [negb]. by rewrite (proj2 (Qle_bool_iff x2 x1) Hx).
Qed.
Lemma rulers_drawn_witness :
  hud_wf (Hud [1%nat; 0%nat] 2 (λ _, None) true) ∧ ∃ h',
    update_view true 0 100 (-(7)) (1 # 2) (Hud [1%nat; 0%nat] 2 (λ _, None) true) = (Ok (Some tt), h').
Proof.
  assert (hud_wf (Hud [1%nat; 0%nat] 2 (λ _, None) true)) as Hw by (cbn; apply Permutation_swap).
  split; [exact Hw|].
  destruct (rulers_drawn (Hud [1%nat; 0%nat] 2 (λ _, None) true) 0 100 (-(7)) (1 # 2) Hw) as [H _].
  destruct (H eq_refl eq_refl) as (h' & _ & _ & _ & _ & E & _). exists h'. exact E.
Defined.

Example ruler_100 :
  match ruler 0 100 with Ok (Some l) => Qred <$> l = [-20 # 1; 0; 20 # 1; 40 # 1; 60 # 1; 80 # 1]%Q | _ => False end.
Proof. by vm_compute. Qed.
Example ruler_small :
  match ruler (1 # 10) (3 # 10) with Ok (Some l) => Qred <$> l = [1 # 20; 1 # 10; 3 # 20; 1 # 5; 1 # 4]%Q | _ => False end.
Proof. by vm_compute. Qed.
(** A ruler that becomes visible again has no label until its next update. *)
Example shown_without_labels :
  let h := set_hud_visible true (set_hud_visible false (Hud [0%nat] 1 (λ _, Some 5%Q) true)) in
  (hud_visible h, label_text h 0) = (true, None).
Proof. reflexivity. Qed.

(** ** Averages and arrows: facts *)

Lemma aget_items {K V} `{EqDecision K} (d : PyDict K V) k v : (k, v) ∈ items d ↔ dget k d = Some v.
Proof.
  destruct d as [l Hnd]. cbn in *. induction l as [|[k1 v1] l IH]; cbn; [by rewrite elem_of_nil|].
  apply NoDup_cons in Hnd as [Hn Hnd]. rewrite elem_of_cons. case_decide as Hk; [subst|].
  - split; [intros [[= ->]|Hin]; [done|]|intros [= ->]; by left].
    destruct Hn. change (k1 ∈ l.*1). apply list_elem_of_fmap. by exists (k1, v).
  - rewrite IH by done. split; [intros [?|?]; [congruence|done]|by right].
Qed.

(** The bytes and the number of the samples of a list. *)
Definition total (l : list sample) : Z * Z := (foldr (λ s, Z.add (bytes s)) 0 l, Z.of_nat (length l)).
Lemma total_snoc l s : total (l ++ [s]) = ((total l).1 + bytes s, (total l).2 + 1).
Proof.
  unfold total. rewrite length_app, Nat2Z.inj_add. f_equal. cbn. induction l as [|x l IH]; cbn; [lia|].
  rewrite IH. lia.
Qed.

Lemma total_nonneg l : Forall (λ s, 0 < bytes s) l → 0 <= (total l).1.
Proof. unfold total. induction 1; cbn in *; lia. Qed.

Section average_facts.
Context {K : Type} `{EqDecision K} (key : sample → K).

(** The samples of a key. *)
Definition with_key (k : K) (l : list sample) : list sample := base.filter (λ s, key s = k) l.

Lemma add_samples_get l k :
  dget k (fold_left (add_sample key) l dempty) = if decide (k ∈ key <$> l) then Some (total (with_key k l)) else None.
Proof.
  induction l as [|s l IH] using rev_ind; [cbn [fold_left]; rewrite dget_empty, decide_False; [done|apply not_elem_of_nil]|].
  assert (Hw : with_key k l = [] ∨ k ∈ key <$> l).
  { destruct (with_key k l) as [|x m] eqn:E; [by left|right].
    assert (x ∈ with_key k l) as [<- Hx]%list_elem_of_filter by (rewrite E; by left).
    by apply list_elem_of_fmap_2. }
  rewrite fold_left_app. cbn [fold_left]. unfold add_sample at 1, dget_or.
  unfold with_key in *. rewrite filter_app, fmap_app. cbn [base.filter list_filter fmap list_fmap].
  destruct (decide (key s = k)) as [<-|Hk].
  - rewrite IH. destruct (decide (key s ∈ key <$> l)) as [Hin|Hin]; cbn [from_option id];
      [|destruct Hw as [Hw|?]; [rewrite Hw|done]].
    + destruct (total _) as [b n] eqn:E. rewrite dget_set, !decide_True by set_solver. by rewrite total_snoc, E.
    + rewrite dget_set, !decide_True by set_solver. cbn. f_equal. unfold total. cbn. f_equal. lia.
  - destruct (default _ _) as [b n]. rewrite dget_set, decide_False by congruence. rewrite IH, app_nil_r.
    apply decide_ext. set_solver.
Qed.
Lemma average_concat sets : average key sets = fold_left (add_sample key) (concat sets) dempty.
Proof.
  unfold average. generalize (dempty (V:=Z * Z) (D:=PyDict K)). induction sets as [|set sets IH]; intros d; cbn; [done|].
  by rewrite IH, fold_left_app.
Qed.
Lemma average_items sets k v :
  (k, v) ∈ items (average key sets) ↔ k ∈ key <$> concat sets ∧ v = total (with_key k (concat sets)).
Proof.
  rewrite aget_items, average_concat, add_samples_get. case_decide; [|naive_solver].
  split; [intros [= <-]; done|by intros [_ ->]].
Qed.
Lemma average_positive sets k b n :
  Forall (λ s, 0 < bytes s) (concat sets) → (k, (b, n)) ∈ items (average key sets) → 0 < b ∧ 0 < n.
Proof.
  intros Hb [Hk Hv]%average_items. unfold total in Hv. simplify_eq.
  apply list_elem_of_fmap in Hk as (s & -> & Hs).
  assert (s ∈ with_key (key s) (concat sets)) as Hin by by apply list_elem_of_filter.
  assert (Forall (λ s, 0 < bytes s) (with_key (key s) (concat sets))) as Hf.
  { apply Forall_forall. intros x [_ Hx]%list_elem_of_filter. by apply (Forall_forall _ _) with (x := x) in Hb. }
  destruct (with_key _ _) as [|x l]; [by apply elem_of_nil in Hin|]. apply Forall_cons in Hf as [Hx Hf].
  pose proof (total_nonneg _ Hf) as Ht. unfold total in *. cbn in *. lia.
Qed.
End average_facts.

(** Every arrow made is in the list, once, and no other arrow is visible. *)
Definition canvas_wf {K} (c : canvas K) : Prop :=
  arrows c ≡ₚ seq 0 (made c) ∧ ∀ a, (made c <= a)%nat → visible c a = false.

Section arrow_facts.
Context {K : Type} (ends : K → list Z) (period : Q).

(** During a redrawing: [new] are the arrows taken so far, which show [drawn]. *)
Definition draw_inv (drawn : list (K * Q)) (new : list nat) (c : canvas K) : Prop :=
  new ++ arrows c ≡ₚ seq 0 (made c) ∧ (∀ a, visible c a = true ↔ a ∈ new) ∧ shows c <$> new = Some <$> drawn.

Lemma take_arrow_spec drawn new c :
  draw_inv drawn new c → ∃ a c', take_arrow c = (Ok a, c') ∧ a ∉ new ∧ (new ++ [a]) ++ arrows c' ≡ₚ seq 0 (made c') ∧
    visible c' = visible c ∧ shows c' = shows c.
Proof.
  intros (Hp & _ & _). unfold take_arrow. destruct (arrows c) as [|a l _] eqn:E using rev_ind.
  - cbn. eexists _, _. split_and!; [done| | |done|done].
    + rewrite app_nil_r in Hp. rewrite Hp, list_elem_of_In, in_seq. lia.
    + cbn -[seq]. rewrite seq_S, <-Hp, !app_nil_r. done.
  - rewrite last_snoc, removelast_last. eexists _, _. split_and!; [done| | |done|done].
    + assert (NoDup (new ++ l ++ [a])) as Hn by (rewrite Hp; apply NoDup_seq).
      apply NoDup_app in Hn as (_ & Hn & _). intros Ha. apply (Hn a Ha). set_solver.
    + cbn -[seq]. rewrite <-Hp, <-app_assoc. apply Permutation_app_head. cbn. by rewrite Permutation_cons_append.
Qed.
Lemma get_nodes_draw l : ∀ drawn new c, draw_inv drawn new c → draw_inv drawn new (fold_left (λ c n, get_node n c) l c).
Proof.
  induction l as [|n l IH]; intros drawn new c Hc; cbn; [done|]. apply IH. unfold get_node. by case_bool_decide.
Qed.
Lemma positive_rate b n : 0 < b → 0 < n → (0 < period)%Q → Qle_bool (inject_Z b / inject_Z n / period) 0 = false.
Proof.
  intros Hb Hn Hp. apply Qle_bool_false. repeat apply Qlt_shift_div_l; try done.
  - by rewrite <-(Zlt_Qlt 0).
  - rewrite !Qmult_0_l. by rewrite <-(Zlt_Qlt 0).
Qed.
Lemma draw_average_spec drawn new k b n c :
  (0 < period)%Q → 0 < b → 0 < n → draw_inv drawn new c →
  ∃ new' c', draw_average ends period new (k, (b, n)) c = (Ok new', c') ∧
    draw_inv (drawn ++ [(k, kbps period b n)]) new' c'.
Proof.
  intros Hper Hb Hn Hc. apply (get_nodes_draw (ends k)) in Hc.
  destruct (take_arrow_spec _ _ _ Hc) as (a & c' & Ht & Ha & Hp & Hv & Hs). destruct Hc as (_ & Hvis & Hsh).
  exists (new ++ [a]). eexists. unfold draw_average, mbind, stm_bind, st_modify. rewrite Ht, positive_rate by done.
  split; [done|]. split_and!; [done| |].
  - intros x. cbn. rewrite Hv. case_decide; [set_solver|]. rewrite Hvis. set_solver.
  - cbn. rewrite Hs, !fmap_app, (fmap_set_other _ a _ new), Hsh by done. cbn. by rewrite decide_True.
Qed.
Lemma draw_averages_spec l : ∀ drawn new c,
  (0 < period)%Q → Forall (λ x, 0 < x.2.1 ∧ 0 < x.2.2) l → draw_inv drawn new c →
  ∃ new' c', st_fold (draw_average ends period) new l c = (Ok new', c') ∧
    draw_inv (drawn ++ ((λ x, (x.1, kbps period x.2.1 x.2.2)) <$> l)) new' c'.
Proof.
  induction l as [|[k [b n]] l IH]; intros drawn new c Hper Hl Hc; cbn [st_fold fmap list_fmap].
  - exists new, c. by rewrite app_nil_r.
  - apply Forall_cons in Hl as [[Hb Hn] Hl].
    destruct (draw_average_spec drawn new k b n c Hper Hb Hn Hc) as (new1 & c1 & H1 & Hc1).
    destruct (IH _ _ _ Hper Hl Hc1) as (new2 & c2 & H2 & Hc2). exists new2, c2.
    rewrite (st_bind_step _ _ _ _ _ H1). by rewrite <-app_assoc in Hc2.
Qed.
Lemma hide_arrows_spec l : ∀ c : canvas K, ∃ c',
  st_for (λ a, st_modify (set_visible a false)) l c = (Ok tt, c') ∧ arrows c' = arrows c ∧ made c' = made c ∧
  ∀ a, visible c' a = if decide (a ∈ l) then false else visible c a.
Proof.
  induction l as [|x l IH]; intros c; cbn [st_for].
  - exists c. split_and!; [done..|]. intros a. rewrite decide_False; [done|apply not_elem_of_nil].
  - destruct (IH (set_visible x false c)) as (c' & H1 & H2 & H3 & H4). exists c'. split_and!; [done..|].
    intros a. rewrite H4. cbn. repeat case_decide; set_solver.
Qed.
Lemma update_arrows_spec l c :
  (0 < period)%Q → Forall (λ x, 0 < x.2.1 ∧ 0 < x.2.2) l → canvas_wf c →
  ∃ shown c', update_arrows ends period l c = (Ok tt, c') ∧ canvas_wf c' ∧ NoDup shown ∧
    (∀ a, visible c' a = true ↔ a ∈ shown) ∧
    shows c' <$> shown = (λ x, Some (x.1, kbps period x.2.1 x.2.2)) <$> l.
Proof.
  intros Hper Hl [Hp Hv]. destruct (hide_arrows_spec (arrows c) c) as (c1 & H1 & Ha & Hm & Hv1).
  assert (draw_inv [] [] c1) as Hi.
  { split_and!; [by rewrite Ha, Hm| |done]. intros a. rewrite Hv1. split; [|by intros ?%elem_of_nil].
    case_decide as Hn; [done|]. rewrite Hv; [done|]. rewrite Hp, list_elem_of_In, in_seq in Hn. lia. }
  destruct (draw_averages_spec l _ _ _ Hper Hl Hi) as (new & c2 & H2 & Hp2 & Hv2 & Hs2).
  exists new, (set_arrows (new ++ arrows c2) c2). split_and!.
  - unfold update_arrows. unfold mbind at 1, stm_bind at 1, st_get. rewrite (st_bind_step _ _ _ _ _ H1).
    by rewrite (st_bind_step _ _ _ _ _ H2).
  - split; [done|]. intros a Hge. cbn in *. apply not_true_iff_false. rewrite Hv2. intros Hin.
    assert (a ∈ seq 0 (made c2)) as Hs by (rewrite <-Hp2; set_solver). rewrite list_elem_of_In, in_seq in Hs. lia.
  - assert (NoDup (new ++ arrows c2)) as Hn by (rewrite Hp2; apply NoDup_seq). by apply NoDup_app in Hn as [? _].
  - done.
  - cbn. rewrite Hs2. cbn. by rewrite <-list_fmap_compose.
Qed.
End arrow_facts.

(** The arrows [shown] are those visible, and each shows the average of one of the
    keys of the samples. *)
Definition shows_samples {K} (key : sample → K) `{EqDecision K} (period : Q) (sets : list (list sample))
    (c : canvas K) : Prop :=
  ∃ shown keys, NoDup shown ∧ (∀ a, visible c a = true ↔ a ∈ shown) ∧
    NoDup keys ∧ (∀ k, k ∈ keys ↔ k ∈ key <$> concat sets) ∧
    shows c <$> shown =
      (λ k, let t := total (with_key key k (concat sets)) in Some (k, kbps period t.1 t.2)) <$> keys.

Lemma update_view_spec {K} (key : sample → K) `{EqDecision K} ends period sets (c : canvas K) :
  (0 < period)%Q → Forall (λ s, 0 < bytes s) (concat sets) → canvas_wf c →
  ∃ c', update_arrows ends period (items (average key sets)) c = (Ok tt, c') ∧ canvas_wf c' ∧
    shows_samples key period sets c'.
Proof.
  intros Hper Hb Hc. destruct (update_arrows_spec ends period (items (average key sets)) c) as
    (shown & c' & H1 & H2 & H3 & H4 & H5); [done| |done|].
  - apply Forall_forall. intros [k [b n]] Hin. by apply (average_positive key sets k).
  - exists c'. split_and!; [done|done|]. exists shown, (items (average key sets)).*1.
    split_and!; [done|done|apply items_nodup| |].
    + intros k. rewrite list_elem_of_fmap. split.
      * intros ([k' v] & -> & Hin). by apply average_items in Hin as [? _].
      * intros Hk. exists (k, total (with_key key k (concat sets))). by rewrite average_items.
    + rewrite H5, <-list_fmap_compose. apply list_fmap_ext. intros i [k v] Hi%list_elem_of_lookup_2.
      apply average_items in Hi as [_ ->]. done.
Qed.

(** C13: when every sample of the windows carries bytes, updating the views of the
    transmissions and of the drops returns; afterwards the visible arrows are one for
    each pair of nodes that transmitted (each node that dropped) in the windows, and
    it shows the mean rate of the samples of that pair (that node); the other arrows
    are kept, hidden, for later updates, and none is lost or in the list twice. *)
Theorem transmissions_shown (period : Q) (w : windows) (c : canvas (Z * Z)) (d : canvas Z) :
  (0 < period)%Q → Forall (λ s, 0 < bytes s) (concat (last_transmissions w) ++ concat (last_drops w)) →
  canvas_wf c → canvas_wf d →
  ∃ c' d', update_transmissions_view period w c = (Ok tt, c') ∧ update_drops_view period w d = (Ok tt, d') ∧
    canvas_wf c' ∧ shows_samples transmission_key period (last_transmissions w) c' ∧
    canvas_wf d' ∧ shows_samples drop_key period (last_drops w) d'.
Proof.
  intros Hper [Ht Hd]%Forall_app Hc Hwd.
  destruct (update_view_spec transmission_key transmission_ends period _ c Hper Ht Hc) as (c' & H1 & H2 & H3).
  destruct (update_view_spec drop_key (λ k, [k]) period _ d Hper Hd Hwd) as (d' & H4 & H5 & H6).
  by exists c', d'.
Qed.
Definition idle {K} : canvas K := Canvas [] 0 (λ _, false) (λ _, None) [].
Lemma idle_wf {K} : canvas_wf (@idle K).
Proof. done. Qed.
Definition two_pairs : windows :=
  Windows [[Sample 0 1 1000; Sample 1 0 250]; [Sample 0 1 3000]] [[Sample 2 0 125]].
Lemma transmissions_shown_witness :
  ∃ c', update_transmissions_view (1 # 10) two_pairs idle = (Ok tt, c') ∧ canvas_wf c'.
Proof.
  destruct (transmissions_shown (1 # 10) two_pairs idle idle) as (c' & _ & H1 & _ & H2 & _).
  - reflexivity.
  - by_decision.
  - apply idle_wf.
  - apply idle_wf.
  - exists c'. split; [exact H1|exact H2].
Defined.
Example two_arrows :
  let c := (update_transmissions_view (1 # 10) two_pairs idle).2 in
  ((λ a, (visible c a, (λ p, (p.1, Qred p.2)) <$> shows c a)) <$> arrows c) =
    [(true, Some ((0, 1), 160%Q)); (true, Some ((1, 0), 20%Q))].
Proof. by vm_compute. Qed.

(** Samples without bytes: the logarithm raises, and the arrow it was taken for is
    visible and no longer in the list, so that no later update hides it. *)
Example zero_bytes_leak :
  let w := Windows [[Sample 0 1 0]] [] in
  let '(r, c) := update_transmissions_view (1 # 10) w idle in
  let c' := (update_transmissions_view (1 # 10) (Windows [] []) c).2 in
  (r, arrows c, visible c' 0) = (Raise ValueError, [], true).
Proof. by vm_compute. Qed.

(** ** The selection: facts *)

(** A node is flagged exactly when it is the selected one, and the nodes of interest
    are those of the mode. *)
Definition selection_wf (s : selection) : Prop :=
  (∀ n, flagged s n = true ↔ selected_node s = Some n) ∧
  match show_transmissions_mode s with
  | ALL => ∃ count, nodes_of_interest s = seqZ 0 count
  | NONE => nodes_of_interest s = []
  | SELECTED => nodes_of_interest s = option_list (selected_node s)
  end.

(** What happens to it: a selection, a change of the mode, a new view of a node. *)
Inductive event : Type := Select (c : choice) | SetMode (count : nat) (mode : ShowTransmissionsMode) | NewNode (n : Z).
Definition run_event (s : selection) (e : event) : selection :=
  match e with
  | Select c => (select_node c s).2
  | SetMode count mode => set_show_transmissions_mode count mode s
  | NewNode n =>
      Selection (if bool_decide (n ∈ nodes s) then nodes s else nodes s ++ [n]) (selected_node s) (flagged s)
        (show_transmissions_mode s) (nodes_of_interest s)
  end.

Lemma flags_moved s o :
  (∀ n, flagged s n = true ↔ selected_node s = Some n) →
  ∀ n, flagged (flag_selected true (set_selected o (flag_selected false s))) n = true ↔ o = Some n.
Proof.
  intros Hf n. unfold flag_selected. destruct (selected_node s) as [m|], o as [k|]; cbn;
    repeat case_decide; subst; rewrite ?Hf; naive_solver.
Qed.
Lemma select_node_spec c s :
  selection_wf s →
  match select_node c s with
  | (Ok _, s') => resolve c s = Ok (selected_node s') ∧ selection_wf s'
  | (Raise e, s') => resolve c s = Raise e ∧ s' = s
  end.
Proof.
  intros [Hf Hi]. unfold select_node. unfold mbind, stm_bind, st_get, st_lift. cbn.
  destruct (resolve c s) as [o|e]; [|done]. case_bool_decide as Ho; cbn; [by subst|].
  pose proof (flags_moved s o Hf) as Hf'.
  assert (nodes_of_interest (flag_selected true (set_selected o (flag_selected false s))) = nodes_of_interest s ∧
    show_transmissions_mode (flag_selected true (set_selected o (flag_selected false s))) = show_transmissions_mode s ∧
    selected_node (flag_selected true (set_selected o (flag_selected false s))) = o) as (Hn & Hm & Hs).
  { unfold flag_selected. by destruct (selected_node s), o. }
  case_bool_decide as Hsel; cbn; rewrite Hs; split_and!; try done; unfold selection_wf; cbn; rewrite ?Hs, Hm, ?Hn.
  - by rewrite Hsel.
  - by destruct (show_transmissions_mode s).
Qed.
Lemma run_event_wf s e : selection_wf s → selection_wf (run_event s e).
Proof.
  intros Hw. destruct e as [c|count []|n]; cbn.
  - pose proof (select_node_spec c s Hw) as H. destruct (select_node c s) as [[]?]; [by destruct H|by destruct H; subst].
  - destruct Hw as [Hf _]. split; [done|]. by exists (Z.of_nat count).
  - by destruct Hw.
  - by destruct Hw.
  - done.
Qed.
Lemma run_events_wf es : ∀ s, selection_wf s → selection_wf (fold_left run_event es s).
Proof. induction es as [|e es IH]; intros s Hs; cbn; [done|]. by apply IH, run_event_wf. Qed.

(** Whatever was selected and whichever modes were chosen before, exactly the
    selected node is drawn as selected and the nodes of interest are those of the
    mode (with the mode [SELECTED], the selected node and nothing else); selecting
    then makes the chosen node the selected one, or raises and changes nothing. *)
Theorem selection_consistent (es : list event) (s : selection) (c : choice) :
  selection_wf s →
  let s1 := fold_left run_event es s in
  selection_wf s1 ∧
  match select_node c s1 with
  | (Ok _, s2) => resolve c s1 = Ok (selected_node s2) ∧ selection_wf s2
  | (Raise e, s2) => resolve c s1 = Raise e ∧ s2 = s1
  end.
Proof. intros Hs s1. pose proof (run_events_wf es s Hs) as H1. split; [done|by apply select_node_spec]. Qed.
Definition unselected : selection := Selection [] None (λ _, false) ALL [].
Definition some_events : list event :=
  [NewNode 0; NewNode 1; SetMode 2 SELECTED; Select (Index 1); Select (View 0); Select (Index 7)].
Lemma selection_consistent_witness :
  selection_wf unselected ∧ selection_wf (fold_left run_event some_events unselected).
Proof.
  assert (selection_wf unselected) as Hu.
  { split; [intros n; split; discriminate|exists 0; reflexivity]. }
  split; [exact Hu|]. apply (selection_consistent some_events unselected Nothing Hu).
Defined.
Example some_events_end :
  let s := fold_left run_event some_events unselected in
  (selected_node s, nodes_of_interest s, flagged s <$> [0; 1]) = (Some 0, [0], [true; false]).
Proof. by vm_compute. Qed.

(** ** The links of wireless stations: facts *)

(** The link of a station is in the list of a node, once, exactly when that node is
    its access point, and is then shown.  (Links of earlier scans may still be in a
    list.) *)
Record wifi_wf (w : wireless) : Prop := WifiWf {
  wf_stations : NoDup (stations w);
  wf_fresh l : l ∈ stations w → (l < next_link w)%nat;
  wf_links n : NoDup (links_of w n);
  wf_known n l : l ∈ links_of w n → (l < next_link w)%nat;
  wf_agree n l : l ∈ stations w → l ∈ links_of w n ↔ ap_of w l = Some n;
  wf_shown l : l ∈ stations w → ap_of w l ≠ None → shown_link w l = true;
}.

Lemma remove_first_spec l ls :
  NoDup ls → l ∈ ls → remove_first l ls = Ok (base.filter (λ x, x ≠ l) ls).
Proof.
  induction 1 as [|x ls Hx Hn IH]; intros Hl; [by apply elem_of_nil in Hl|]. cbn [remove_first].
  rewrite filter_cons. destruct (decide (l = x)) as [->|Hne].
  - rewrite decide_False by congruence. cbn. f_equal. symmetry.
    induction ls as [|y ls IHl]; [done|]. rewrite filter_cons. apply NoDup_cons in Hn as [? ?].
    rewrite decide_True by set_solver. f_equal. apply IHl; [set_solver|done|set_solver|set_solver].
  - rewrite decide_True, IH by set_solver. done.
Qed.

(** What changes when the access point of a station's link does: the rest of [set_ap]
    after the link was taken from the list of the old one. *)
Definition relinked (l : nat) (ap : option Z) (w w' : wireless) : Prop :=
  stations w' = stations w ∧ next_link w' = next_link w ∧ access_points w' = access_points w ∧
  (∀ x, ap_of w' x = if decide (x = l) then ap else ap_of w x) ∧
  (∀ x, shown_link w' x = if decide (x = l) then bool_decide (ap ≠ None) else shown_link w x) ∧
  ∀ n, links_of w' n = if decide (ap = Some n) then base.filter (λ x, x ≠ l) (links_of w n) ++ [l]
                       else base.filter (λ x, x ≠ l) (links_of w n).
Lemma filter_absent (l : nat) (ls : list nat) : l ∉ ls → base.filter (λ x, x ≠ l) ls = ls.
Proof.
  induction ls as [|x ls IH]; intros Hl; [done|]. rewrite filter_cons, decide_True by set_solver.
  f_equal. apply IH. set_solver.
Qed.
Lemma set_ap_spec l ap w :
  wifi_wf w → l ∈ stations w → ap ≠ ap_of w l → ∃ w', set_ap l ap w = (Ok tt, w') ∧ relinked l ap w w'.
Proof.
  intros Hw Hl Hne. unfold set_ap. unfold mbind at 1, stm_bind at 1, st_get. rewrite bool_decide_eq_false_2 by done.
  assert (∃ w1, match ap_of w l with Some n => remove_link n l | None => mret tt end w = (Ok tt, w1) ∧
    stations w1 = stations w ∧ next_link w1 = next_link w ∧ access_points w1 = access_points w ∧
    ap_of w1 = ap_of w ∧ shown_link w1 = shown_link w ∧
    ∀ n, links_of w1 n = base.filter (λ x, x ≠ l) (links_of w n)) as (w1 & H1 & Hs & Hn & Ha & Hap & Hsh & Hls).
  { destruct (ap_of w l) as [m|] eqn:E.
    - eexists. unfold remove_link, mbind, stm_bind, st_get, st_lift, st_modify.
      rewrite remove_first_spec; [|by apply wf_links|by apply wf_agree]. split_and!; try done.
      intros n. cbn. case_decide; subst; [done|]. symmetry. apply filter_absent. rewrite wf_agree by done. congruence.
    - exists w. split_and!; try done. intros n. symmetry. apply filter_absent. rewrite wf_agree by done. congruence. }
  rewrite (st_bind_step _ _ _ _ _ H1). unfold relinked.
  destruct ap as [m|]; eexists; (split; [done|]); cbn; rewrite Hs, Hn, Ha, Hap, Hsh; split_and!; try done.
  intros n. rewrite !Hls. repeat case_decide; naive_solver.
Qed.
Lemma relinked_wf l ap w w' : wifi_wf w → l ∈ stations w → relinked l ap w w' → wifi_wf w'.
Proof.
  intros Hw Hl (Hs & Hn & _ & Hap & Hsh & Hls).
  assert (∀ n x, x ∈ links_of w' n ↔ (x ≠ l ∧ x ∈ links_of w n) ∨ (x = l ∧ ap = Some n)) as Hin.
  { intros n x. rewrite Hls. case_decide; [|by rewrite list_elem_of_filter; naive_solver].
    rewrite elem_of_app, list_elem_of_filter, list_elem_of_singleton. naive_solver. }
  split; rewrite ?Hs, ?Hn; try by apply Hw.
  - intros n. rewrite Hls. pose proof (wf_links w Hw n) as Hnd. case_decide; [|by apply NoDup_filter].
    apply NoDup_app. split_and!; [by apply NoDup_filter| |apply NoDup_singleton].
    intros x [? _]%list_elem_of_filter. by intros ->%list_elem_of_singleton.
  - intros n x [[_ Hx]|[-> _]]%Hin; [by eapply wf_known|by apply wf_fresh].
  - intros n x Hx. rewrite Hin, Hap, (wf_agree w Hw n x Hx). case_decide; naive_solver.
  - intros x Hx. rewrite Hap, Hsh. case_decide; [by intros; apply bool_decide_eq_true_2|by apply wf_shown].
Qed.

(** What the report of a station asks for; [None] when its access point is unknown. *)
Definition asked (report : nat → bool * pystr) (aps : PyDict pystr Z) (l : nat) : option (option Z) :=
  if negb (report l).1 || bool_decide ((report l).2 = no_bssid) then Some None else Some <$> dget (report l).2 aps.
Definition keeps (w w' : wireless) : Prop := stations w' = stations w ∧ access_points w' = access_points w.
Lemma set_ap_wf l ap w :
  wifi_wf w → l ∈ stations w → ∃ w', set_ap l ap w = (Ok tt, w') ∧ wifi_wf w' ∧ keeps w w' ∧
    ∀ x, ap_of w' x = if decide (x = l) then ap else ap_of w x.
Proof.
  intros Hw Hl. destruct (decide (ap = ap_of w l)) as [->|Hne].
  - exists w. unfold set_ap, mbind, stm_bind, st_get. rewrite bool_decide_eq_true_2 by done.
    split_and!; try done. intros x. by case_decide; subst.
  - destruct (set_ap_spec l ap w Hw Hl Hne) as (w' & H1 & H2). exists w'. pose proof (relinked_wf _ _ _ _ Hw Hl H2).
    destruct H2 as (? & ? & ? & ? & _). done.
Qed.
Lemma update_station_spec report l w :
  wifi_wf w → l ∈ stations w →
  match asked report (access_points w) l with
  | Some ap => ∃ w', update_station report l w = (Ok tt, w') ∧ wifi_wf w' ∧ keeps w w' ∧
                 ∀ x, ap_of w' x = if decide (x = l) then ap else ap_of w x
  | None => update_station report l w = (Raise KeyError, w)
  end.
Proof.
  intros Hw Hl. unfold asked, update_station. destruct (report l) as [up bssid]. cbn [fst snd].
  destruct (negb up || bool_decide (bssid = no_bssid)); [by apply set_ap_wf|].
  unfold mbind, stm_bind, st_get, st_lift, dlookup. destruct (dget bssid (access_points w)) as [n|]; [|done].
  by apply set_ap_wf.
Qed.
Lemma update_stations_spec report ls : ∀ w,
  wifi_wf w → NoDup ls → (∀ l, l ∈ ls → l ∈ stations w) →
  let '(r, w') := st_for (update_station report) ls w in
  wifi_wf w' ∧ keeps w w' ∧ ∃ served rest, ls = served ++ rest ∧
    (∀ x, x ∈ served → asked report (access_points w) x = Some (ap_of w' x)) ∧
    (∀ x, x ∉ served → ap_of w' x = ap_of w x) ∧
    match r with
    | Ok _ => rest = []
    | Raise e => e = KeyError ∧ ∃ l, head rest = Some l ∧ asked report (access_points w) l = None
    end.
Proof.
  induction ls as [|l ls IH]; intros w Hw Hn Hls; cbn [st_for].
  - cbn. split_and!; try done. exists [], []. split_and!; try done. by intros ? ?%elem_of_nil.
  - apply NoDup_cons in Hn as [Hl Hn]. pose proof (update_station_spec report l w Hw (Hls l ltac:(by left))) as H1.
    destruct (asked report (access_points w) l) as [ap|] eqn:Ea.
    + destruct H1 as (w1 & H1 & Hw1 & [Hs1 Ha1] & Hap1). rewrite (st_bind_step _ _ _ _ _ H1).
      specialize (IH w1 Hw1 Hn). destruct (st_for _ ls w1) as [r w2].
      destruct IH as (Hw2 & [Hs2 Ha2] & served & rest & -> & Hd & Hr & Hres); [rewrite Hs1; set_solver|].
      split_and!; [done|by split; [rewrite Hs2|rewrite Ha2]|]. exists (l :: served), rest. rewrite Ha1 in Hd, Hres.
      split_and!; [done| | |done].
      * intros x [->|Hx]%elem_of_cons; [|by apply Hd]. rewrite Hr, Hap1, decide_True by set_solver. done.
      * intros x Hx. rewrite Hr, Hap1, decide_False by set_solver. done.
    + rewrite (st_bind_raise _ _ _ _ _ H1). split_and!; try done. exists [], (l :: ls).
      split_and!; [done|by intros ? ?%elem_of_nil|done|done|]. by exists l.
Qed.

Lemma destroy_links ls : ∀ w, let w' := fold_left destroy_link ls w in
  links_of w' = links_of w ∧ next_link w' = next_link w.
Proof. induction ls as [|l ls IH]; intros w; cbn; [done|]. apply (IH (destroy_link w l)). Qed.
Lemma scan_device_wf d w : wifi_wf w → wifi_wf (scan_device w d).
Proof.
  intros Hw. destruct d as [n|n a|]; cbn; [|by split; apply Hw|done].
  assert (next_link w ∉ stations w) as Hs by (intros H%wf_fresh; [lia|done]).
  assert (∀ n, next_link w ∉ links_of w n) as Hl by (intros ? H%wf_known; [lia|done]).
  split; cbn.
  - apply NoDup_app. split_and!; [apply Hw| |apply NoDup_singleton]. set_solver.
  - intros l [Hin| ->%list_elem_of_singleton]%elem_of_app; [|lia]. apply wf_fresh in Hin; [lia|done].
  - apply Hw.
  - intros m l Hin. apply wf_known in Hin; [lia|done].
  - intros m l [Hin| ->%list_elem_of_singleton]%elem_of_app; [|rewrite decide_True by done; naive_solver].
    rewrite decide_False by (by intros ->). by apply wf_agree.
  - intros l [Hin| ->%list_elem_of_singleton]%elem_of_app; [|by rewrite decide_True].
    rewrite !decide_False by (by intros ->). by apply wf_shown.
Qed.
Lemma scan_nodes_wf devices w : wifi_wf w → wifi_wf (scan_nodes devices w).
Proof.
  intros Hw. unfold scan_nodes. destruct (destroy_links (stations w) w) as [Hl Hn].
  match goal with |- wifi_wf (fold_left _ _ ?w') => assert (wifi_wf w') as H0 end.
  { split; cbn; rewrite ?Hl, ?Hn; try (by intros; set_solver); try apply Hw. apply NoDup_nil_2. }
  revert H0. match goal with |- wifi_wf ?w' → _ => generalize w' end.
  induction devices as [|d ds IH]; intros w1 H1; cbn; [done|]. by apply IH, scan_device_wf.
Qed.

(** A scan of the nodes, or an update whose exception the caller handles. *)
Inductive wifi_event : Type := Scan (devices : list device) | Update (report : nat → bool * pystr).
Definition run_wifi_event (w : wireless) (e : wifi_event) : wireless :=
  match e with
  | Scan devices => scan_nodes devices w
  | Update report => (wifi_periodic_update report w).2
  end.
Lemma wifi_update_spec report w :
  wifi_wf w →
  let '(r, w') := wifi_periodic_update report w in
  wifi_wf w' ∧ ∃ served rest, stations w = served ++ rest ∧
    (∀ l, l ∈ served → asked report (access_points w) l = Some (ap_of w' l)) ∧
    (∀ l, l ∉ served → ap_of w' l = ap_of w l) ∧
    match r with
    | Ok _ => rest = []
    | Raise e => e = KeyError ∧ ∃ l, head rest = Some l ∧ asked report (access_points w) l = None
    end.
Proof.
  intros Hw. unfold wifi_periodic_update, mbind, stm_bind, st_get.
  pose proof (update_stations_spec report (stations w) w Hw (wf_stations w Hw) (λ _ H, H)) as H.
  destruct (st_for _ (stations w) w) as [r w']. by destruct H as (? & _ & ?).
Qed.
Lemma run_wifi_events_wf es : ∀ w, wifi_wf w → wifi_wf (fold_left run_wifi_event es w).
Proof.
  induction es as [|e es IH]; intros w Hw; cbn; [done|]. apply IH. destruct e as [ds|report]; cbn.
  - by apply scan_nodes_wf.
  - pose proof (wifi_update_spec report w Hw) as H. by destruct (wifi_periodic_update report w), H.
Qed.

(** C12: after any scans of the nodes and updates, the link of each station is in the
    list of a node, once, exactly when that node is its access point, and is shown
    then; an update gives each station, in order, the access point that it reports,
    or none while its link is down or has no address, up to the first station that
    reports an address of no access point seen by the scan: for it [KeyError] is
    raised (nothing else ever is) and the remaining stations keep theirs. *)
Theorem wifi_links_follow (es : list wifi_event) (w0 : wireless) (report : nat → bool * pystr) :
  wifi_wf w0 →
  let w := fold_left run_wifi_event es w0 in
  wifi_wf w ∧
  let '(r, w') := wifi_periodic_update report w in
  wifi_wf w' ∧ ∃ served rest, stations w = served ++ rest ∧
    (∀ l, l ∈ served → asked report (access_points w) l = Some (ap_of w' l)) ∧
    (∀ l, l ∉ served → ap_of w' l = ap_of w l) ∧
    match r with
    | Ok _ => rest = []
    | Raise e => e = KeyError ∧ ∃ l, head rest = Some l ∧ asked report (access_points w) l = None
    end.
Proof. intros Hw w. pose proof (run_wifi_events_wf es w0 Hw) as H. split; [done|by apply wifi_update_spec]. Qed.
Definition no_stations : wireless := Wireless (λ _, None) (λ _, []) (λ _, false) dempty [] 0.
Definition mac_a : pystr := str "00:00:00:00:00:01".
Definition mac_b : pystr := str "00:00:00:00:00:02".
Definition some_wifi : list wifi_event :=
  [Scan [Station 0; AccessPoint 5 mac_a; Station 1; OtherDevice; AccessPoint 6 mac_b];
   Update (λ l, (true, if decide (l = 0%nat) then mac_a else mac_b));
   Update (λ l, if decide (l = 0%nat) then (true, mac_b) else (false, mac_b))].
Lemma wifi_links_follow_witness : wifi_wf no_stations ∧ wifi_wf (fold_left run_wifi_event some_wifi no_stations).
Proof.
  assert (wifi_wf no_stations) as Hw.
  { split; cbn; try (intros; set_solver). all: intros; apply NoDup_nil_2. }
  split; [exact Hw|]. pose proof (wifi_links_follow some_wifi no_stations (λ _, (false, no_bssid)) Hw) as [H _]. exact H.
Defined.
Example some_wifi_end :
  let w := fold_left run_wifi_event some_wifi no_stations in
  (stations w, ap_of w <$> stations w, shown_link w <$> stations w, links_of w 5, links_of w 6) =
    ([0%nat; 1%nat], [Some 6; None], [true; false], [], [0%nat]).
Proof. by vm_compute. Qed.
(** A new link is shown although its station has no access point. *)
Example new_link_shown :
  let w := scan_nodes [Station 0] no_stations in (ap_of w 0, shown_link w 0) = (None, true).
Proof. by vm_compute. Qed.
(** A second scan leaves the links of the first in the list of their access point. *)
Example stale_links :
  let scan := Scan [Station 0; AccessPoint 5 mac_a] in
  let up := Update (λ _, (true, mac_a)) in
  let w := fold_left run_wifi_event [scan; up; scan; up] no_stations in
  (stations w, links_of w 5) = ([1%nat], [0%nat; 1%nat]).
Proof. by vm_compute. Qed.
(** One unknown address keeps the later stations from being updated. *)
Example unknown_address_stops :
  let w := scan_nodes [Station 0; Station 1; AccessPoint 5 mac_a] no_stations in
  let '(r, w') := wifi_periodic_update (λ l, (true, if decide (l = 0%nat) then mac_b else mac_a)) w in
  (r, ap_of w' 1) = (Raise KeyError, None).
Proof. by vm_compute. Qed.

(** ** Windows and the statistics of interfaces: facts *)

(** The last [n] elements. *)
Definition lastn {A} (n : nat) (l : list A) : list A := drop (length l - n) l.
Lemma trim_spec {A} (n : Z) (l : list A) : 0 <= n → trim n l = Ok (lastn (Z.to_nat n) l).
Proof.
  intros Hn. unfold lastn. induction l as [|x l IH]; cbn [trim]; case Z.ltb_spec; intros Hl; cbn [length] in *; try lia.
  - done.
  - rewrite IH. by replace (S (length l) - Z.to_nat n)%nat with (S (length l - Z.to_nat n)) by lia.
  - by replace (S (length l) - Z.to_nat n)%nat with 0%nat by lia.
Qed.
Lemma lastn_snoc {A} n (l : list A) x : lastn n (lastn n l ++ [x]) = lastn n (l ++ [x]).
Proof.
  unfold lastn. rewrite !length_app, length_drop. cbn [length].
  destruct (decide (length l <= n)%nat) as [Hl|Hl].
  - replace (length l - n)%nat with 0%nat by lia. by rewrite drop_0, Nat.sub_0_r.
  - rewrite <-(drop_app_le l [x] (length l - n)), drop_drop by lia. f_equal. lia.
Qed.
Lemma lastn_length {A} n (l : list A) : length (lastn n l) = min n (length l).
Proof. unfold lastn. rewrite length_drop. lia. Qed.

(** What a node reported, in order. *)
Definition reported (n : Z) (l : list (Z * list interface)) : list (list interface) :=
  snd <$> base.filter (λ p, p.1 = n) l.
Lemma collect_spec l : ∃ stats : statistics, collect dempty l = Ok stats ∧
  ∀ n, dget n stats = match reported n l with [] => None | h => Some (lastn 10 h) end.
Proof.
  induction l as [|[m x] l (stats & H1 & H2)] using rev_ind; [by exists dempty|].
  unfold collect in *. rewrite fold_res_app, H1. cbn [mbind res_bind fold_res]. unfold collect_node, push_window.
  cbn [fst snd]. rewrite trim_spec by done. cbn [mbind res_bind]. eexists. split; [done|].
  intros n. rewrite dget_set. unfold reported in *. rewrite filter_app, fmap_app. cbn [base.filter list_filter fst].
  unfold dget_or. rewrite H2. destruct (decide (n = m)) as [->|Hn].
  - rewrite decide_True by done. cbn [fmap list_fmap snd]. change (Z.to_nat NODE_STATISTICS_MEMORY) with 10%nat.
    destruct (snd <$> base.filter (λ p : Z * list interface, p.1 = m) l) as [|y h]; [done|]. cbn [from_option id]. by rewrite lastn_snoc.
  - rewrite decide_False by done. cbn [fmap list_fmap]. by rewrite app_nil_r, H2.
Qed.
Lemma collect_rounds rounds : ∀ stats : statistics, fold_res collect stats rounds = collect stats (concat rounds).
Proof.
  induction rounds as [|r rounds IH]; intros stats; cbn [fold_res concat]; [done|]. unfold collect at 3.
  rewrite fold_res_app. fold (collect stats r). destruct (collect stats r) as [s|e]; [apply IH|done].
Qed.
Lemma rates_ok period first l : ∀ i, (i + length l <= length first)%nat →
  mapM_res (λ p : nat * interface, f ← res_of_option IndexError (first !! p.1); mret (rates_of period f p.2))
    (imap (λ j, pair (i + j)%nat) l) = Ok (zip_with (rates_of period) (drop i first) l).
Proof.
  induction l as [|x l IH]; intros i Hi; cbn [imap mapM_res].
  - by rewrite zip_with_nil_r.
  - cbn [length] in Hi. destruct (lookup_lt_is_Some_2 first i) as [f Hf]; [lia|].
    rewrite Nat.add_0_r. cbn [fst snd]. rewrite Hf. cbn [res_of_option mbind res_bind mret res_ret].
    rewrite (imap_ext _ (λ j, pair (S i + j)%nat)) by (intros; cbn; f_equal; lia).
    rewrite IH by lia. by rewrite (drop_S _ _ _ Hf).
Qed.
Lemma rates_short period first l : ∀ i, (length first < i + length l)%nat → (i <= length first)%nat →
  mapM_res (λ p : nat * interface, f ← res_of_option IndexError (first !! p.1); mret (rates_of period f p.2))
    (imap (λ j, pair (i + j)%nat) l) = Raise IndexError.
Proof.
  induction l as [|x l IH]; intros i Hi Hl; cbn [imap mapM_res length] in *; [lia|].
  rewrite Nat.add_0_r. cbn [fst snd]. destruct (first !! i) as [f|] eqn:Hf; [|done].
  apply lookup_lt_Some in Hf. cbn [res_of_option mbind res_bind mret res_ret].
  rewrite (imap_ext _ (λ j, pair (S i + j)%nat)) by (intros; cbn; f_equal; lia). by rewrite IH by lia.
Qed.

(** However many rounds of statistics were collected, they are collected without
    error and only the last ten reports of each node are kept; asked for a node, the
    collector answers nothing before the tenth report, and then, interface by
    interface, the totals of the last report and the rates from the tenth last to
    the last; when interfaces were added in between it raises [IndexError]. *)
Theorem interface_rates (rounds : list (list (Z * list interface))) (period : Q) (n : Z) :
  ∃ stats, fold_res collect dempty rounds = Ok stats ∧
    let h := reported n (concat rounds) in
    dget_or [] n stats = lastn 10 h ∧
    get_interface_statistics period n stats =
      if decide (length h < 10)%nat then Ok []
      else let first := default [] (h !! (length h - 10)%nat) in
           let last := default [] (h !! (length h - 1)%nat) in
           if decide (length last <= length first)%nat then Ok (zip_with (rates_of period) first last)
           else Raise IndexError.
Proof.
  rewrite collect_rounds. destruct (collect_spec (concat rounds)) as (stats & H1 & H2).
  exists stats. split; [done|]. cbv zeta. specialize (H2 n). set (h := reported n (concat rounds)) in *.
  assert (dget_or [] n stats = lastn 10 h) as Hd by (unfold dget_or; rewrite H2; by destruct h).
  split; [done|]. unfold get_interface_statistics.
  destruct (decide (length h < 10)%nat) as [Hlt|Hge].
  { rewrite H2. destruct h as [|x h]; [done|]. rewrite lastn_length.
    by rewrite (proj2 (Z.ltb_lt _ _)) by (unfold NODE_STATISTICS_MEMORY; lia). }
  assert (dget n stats = Some (lastn 10 h)) as -> by (rewrite H2; destruct h; [cbn in Hge; lia|done]).
  rewrite lastn_length, Nat.min_l by lia. cbn [Z.of_nat].
  change (Z.of_nat 10 <? NODE_STATISTICS_MEMORY) with false. change (negb (Z.of_nat 10 =? NODE_STATISTICS_MEMORY)) with false.
  cbn [negb]. rewrite head_lookup, last_lookup, lastn_length, Nat.min_l by lia. unfold lastn.
  rewrite !lookup_drop. replace (length h - 10 + pred 10)%nat with (length h - 1)%nat by lia. rewrite Nat.add_0_r.
  destruct (lookup_lt_is_Some_2 h (length h - 10)) as [f Hf]; [lia|].
  destruct (lookup_lt_is_Some_2 h (length h - 1)) as [l Hl]; [lia|]. rewrite Hf, Hl. cbn [res_of_option mbind res_bind from_option id].
  case_decide; [apply (rates_ok period f l 0); lia|apply (rates_short period f l 0); lia].
Qed.
Example ten_reports :
  let report i := [(3, [Interface i (100 * i) 0 0])] in
  match stats ← fold_res collect dempty (report <$> seqZ 1 12); get_interface_statistics (1 # 10) 3 stats with
  | Ok [r] => (txPackets (totals r), Qred (txPacketRate r), Qred (txBitRate r)) = (12, 10%Q, 8000%Q)
  | _ => False
  end.
Proof. by vm_compute. Qed.

(** The rates are taken with the sample period of the moment of the question: after
    it is doubled, the reports of before seem to come at half their rate. *)
Example period_changed :
  let report i := [(3, [Interface i 0 0 0])] in
  match stats ← fold_res collect dempty (report <$> seqZ 1 10); get_interface_statistics (2 # 10) 3 stats with
  | Ok [r] => Qred (txPacketRate r) = 5%Q
  | _ => False
  end.
Proof. by vm_compute. Qed.

(** ** The links of the topology: facts *)

Section topology_facts.
Context (channel_nodes : nat → list Z) (flag : bool).

(** The type of a device as it is registered, or as it is assumed to be. *)
Definition traits_of (known : PyDict pystr traits) (type : pystr) : traits := dget_or unknown_traits type known.
Lemma lookup_traits_spec type known :
  let '(t, known') := lookup_netdevice_traits type known in
  t = traits_of known type ∧ ∀ type', traits_of known' type' = traits_of known type'.
Proof.
  unfold lookup_netdevice_traits, traits_of, dget_or. destruct (dget type known) as [t|] eqn:E; [done|].
  split; [done|]. intros type'. rewrite dget_set. case_decide; [by subst; rewrite E|done].
Qed.
Lemma scan_links_fold devices : ∀ links known,
  (fold_left (scan_device_links channel_nodes flag) devices (links, known)).1 =
  links ++ concat ((λ d : Z * (pystr * nat), device_links channel_nodes flag d.1 (traits_of known d.2.1) d.2.2) <$> devices).
Proof.
  induction devices as [|[n [ty ch]] devices IH]; intros links known; cbn [fold_left fmap list_fmap concat].
  - by rewrite app_nil_r.
  - unfold scan_device_links at 2. cbn [fst snd]. pose proof (lookup_traits_spec ty known) as H.
    destruct (lookup_netdevice_traits ty known) as [t known']. destruct H as [-> H]. rewrite IH, <-app_assoc.
    f_equal. f_equal. f_equal. apply list_fmap_ext. intros i d _. by rewrite H.
Qed.
End topology_facts.

(** The links of the topology are those of its devices: a device of a wireless or
    virtual type, and one of an unregistered type, makes none; on a channel of more
    than two devices a device makes one link, to the channel; on any other it makes
    one to each other node at a device of the channel, and so two nodes joined by
    such a channel have a link from each end. *)
Theorem topology_links (channel_nodes : nat → list Z) (known : PyDict pystr traits)
    (devices : list (Z * (pystr * nat))) (n : Z) (e : endpoint) :
  (n, e) ∈ scan_links channel_nodes true known devices ↔
  ∃ type channel, (n, (type, channel)) ∈ devices ∧
    is_wireless (traits_of known type) = false ∧ is_virtual (traits_of known type) = false ∧
    if decide (2 < length (channel_nodes channel))%nat then e = AtChannel channel
    else ∃ m, e = AtNode m ∧ m ≠ n ∧ m ∈ channel_nodes channel.
Proof.
  unfold scan_links. rewrite scan_links_fold. cbn [app]. rewrite list_elem_of_In, in_concat. split.
  - intros (ls & Hls%list_elem_of_In & Hin%list_elem_of_In).
    apply list_elem_of_fmap in Hls as ([m [ty ch]] & -> & Hd). cbn [fst snd] in Hin. unfold device_links in Hin.
    destruct (is_wireless _) eqn:Ew, (is_virtual _) eqn:Ev; try (by apply elem_of_nil in Hin). cbn [orb] in Hin.
    rewrite andb_true_r in Hin. case (Nat.ltb_spec 2 (length (channel_nodes ch))) as [Hl|Hl] in Hin.
    + apply list_elem_of_singleton in Hin as [= -> ->]. exists ty, ch. by rewrite decide_True.
    + apply list_elem_of_fmap in Hin as (k & [= -> ->] & [Hk1 Hk2]%list_elem_of_filter). exists ty, ch.
      rewrite decide_False by lia. eauto 10.
  - intros (ty & ch & Hd & Ew & Ev & He). exists (device_links channel_nodes true n (traits_of known ty) ch).
    rewrite <-!list_elem_of_In. split; [apply list_elem_of_fmap; by exists (n, (ty, ch))|].
    unfold device_links. rewrite Ew, Ev, andb_true_r. cbn [orb].
    case (Nat.ltb_spec 2 (length (channel_nodes ch))) as [Hl|Hl].
    + rewrite decide_True in He by done. subst. by apply list_elem_of_singleton.
    + rewrite decide_False in He by lia. destruct He as (m & -> & Hm1 & Hm2).
      apply list_elem_of_fmap. exists m. by rewrite list_elem_of_filter.
Qed.
(** Two nodes on one point-to-point channel: a link from each end. *)
Example linked_twice :
  let known : PyDict pystr traits := dset (str "PointToPoint") (Traits false false) dempty in
  scan_links (λ _, [0; 1]) true known [(0, (str "PointToPoint", 0%nat)); (1, (str "PointToPoint", 0%nat))] =
    [(0, AtNode 1); (1, AtNode 0)].
Proof. by vm_compute. Qed.
