(* ===== verification/VizScene.v ===== *)
(** * The visualizer: nodes, links and the view

    From src/visualizer (core.py, base.py): the places of nodes and channels on the
    canvas, the lines of the wired links between them, the growing bounds of the
    canvas, dragging a node, and the view that shows all nodes.
    The canvas converts between its coordinates and pixels: that is an argument. *)
From Stdlib Require Import QArith Lqa.
From S2P Require Export VizModel.
Open Scope Z_scope.

Definition point : Type := Q * Q.
Definition PIXELS_PER_METER : Q := 3.
Definition transform_distance_canvas_to_simulation (d : Q) : Q := (d / PIXELS_PER_METER)%Q.
Definition transform_point_simulation_to_canvas (p : point) : point :=
  (p.1 * PIXELS_PER_METER, p.2 * PIXELS_PER_METER)%Q.

(** ** The scene *)

Record box : Type := Box { min_x : Q; min_y : Q; max_x : Q; max_y : Q }.
(** Where the pointer and the node were when the drag began, and the connection of
    the handler of motions. *)
Record drag_state : Type := DragState { canvas_0 : point; sim_0 : point; motion_signal : nat }.

(** [wired] are the ends of each link; [drawn] what its line shows; [bounds] is [None]
    while [get_bounds] fails; [mobile] are the positions in the simulator of the nodes
    that have one; [handlers] the connections of motions with their nodes. *)
Record scene : Type := Scene {
  center : endpoint → point;
  wired : list (Z * endpoint);
  drawn : nat → option (point * point);
  links_at : endpoint → list nat;
  bounds : option box;
  scene_nodes : list Z;
  mobile : Z → option point;
  drag : option drag_state;
  handlers : list (nat * Z);
  next_signal : nat;
}.
Definition set_center (e : endpoint) (p : point) (s : scene) : scene :=
  Scene (λ x, if decide (x = e) then p else center s x) (wired s) (drawn s) (links_at s) (bounds s) (scene_nodes s)
    (mobile s) (drag s) (handlers s) (next_signal s).
Definition set_drawn (l : nat) (d : point * point) (s : scene) : scene :=
  Scene (center s) (wired s) (λ x, if decide (x = l) then Some d else drawn s x) (links_at s) (bounds s)
    (scene_nodes s) (mobile s) (drag s) (handlers s) (next_signal s).
Definition set_bounds (b : option box) (s : scene) : scene :=
  Scene (center s) (wired s) (drawn s) (links_at s) b (scene_nodes s) (mobile s) (drag s) (handlers s) (next_signal s).
Definition set_mobile (n : Z) (o : option point) (s : scene) : scene :=
  Scene (center s) (wired s) (drawn s) (links_at s) (bounds s) (scene_nodes s)
    (λ x, if decide (x = n) then o else mobile s x) (drag s) (handlers s) (next_signal s).
Definition set_drag (o : option drag_state) (hs : list (nat * Z)) (next : nat) (s : scene) : scene :=
  Scene (center s) (wired s) (drawn s) (links_at s) (bounds s) (scene_nodes s) (mobile s) o hs next.

(** [WiredLink]: the link is added at both ends; its line is not drawn yet. *)
Definition add_at (e : endpoint) (l : nat) (f : endpoint → list nat) : endpoint → list nat :=
  λ x, if decide (x = e) then f x ++ [l] else f x.
Definition create_link (n : Z) (e : endpoint) (s : scene) : scene :=
  let l := length (wired s) in
  Scene (center s) (wired s ++ [(n, e)]) (λ x, if decide (x = l) then None else drawn s x)
    (add_at e l (add_at (AtNode n) l (links_at s))) (bounds s) (scene_nodes s) (mobile s) (drag s) (handlers s)
    (next_signal s).
Definition update_points (s : scene) (l : nat) : scene :=
  match wired s !! l with
  | Some (n, e) => set_drawn l (center s (AtNode n), center s e) s
  | None => s
  end.
Definition Qmin2 (a b : Q) : Q := if Qle_bool a b then a else b.
Definition Qmax2 (a b : Q) : Q := if Qle_bool b a then a else b.
Definition widen_box (p : point) (b : box) : box :=
  Box (Qmin2 p.1 (min_x b)) (Qmin2 p.2 (min_y b)) (Qmax2 p.1 (max_x b)) (Qmax2 p.2 (max_y b)).
(** [set_position] of a node and of a channel, which leaves the bounds alone. *)
Definition set_position (e : endpoint) (p : point) (s : scene) : scene :=
  let s := set_center e p s in
  let s := fold_left update_points (links_at s e) s in
  match e with
  | AtNode _ => set_bounds (widen_box p <$> bounds s) s
  | AtChannel _ => s
  end.
(** A node that is not there yet has the place of a new canvas item. *)
Definition new_node (n : Z) (s : scene) : scene :=
  if bool_decide (n ∈ scene_nodes s) then s
  else Scene (λ x, if decide (x = AtNode n) then (0, 0)%Q else center s x) (wired s) (drawn s) (links_at s) (bounds s)
         (scene_nodes s ++ [n]) (mobile s) (drag s) (handlers s) (next_signal s).

Definition update_node_position (s : scene) (n : Z) : scene :=
  match mobile s n with
  | Some p => set_position (AtNode n) (transform_point_simulation_to_canvas p) s
  | None => s
  end.
Definition update_node_positions (s : scene) : scene := fold_left update_node_position (scene_nodes s) s.

(** ** Dragging *)

(** The pointer is at [c] on the canvas. *)
Definition begin_node_drag (n : Z) (c : point) (s : scene) : scene :=
  match mobile s n, drag s with
  | Some pos, None => set_drag (Some (DragState c pos (next_signal s))) (handlers s ++ [(next_signal s, n)]) (S (next_signal s)) s
  | _, _ => s
  end.
Definition node_drag_motion (c : point) (s : scene) (n : Z) : scene :=
  match mobile s n, drag s with
  | Some _, Some d =>
      let pos := (((sim_0 d).1 + transform_distance_canvas_to_simulation (c.1 - (canvas_0 d).1))%Q,
                  ((sim_0 d).2 + transform_distance_canvas_to_simulation (c.2 - (canvas_0 d).2))%Q) in
      set_position (AtNode n) (transform_point_simulation_to_canvas pos) (set_mobile n (Some pos) s)
  | _, _ => s
  end.
(** A motion over a node calls the handlers that are connected to it. *)
Definition motion (n : Z) (c : point) (s : scene) : scene :=
  fold_left (node_drag_motion c) (base.filter (λ m, m = n) (snd <$> handlers s)) s.
(** Disconnecting a handler of another node has no effect but a warning. *)
Definition end_node_drag (n : Z) (s : scene) : scene :=
  match drag s with
  | None => s
  | Some d => set_drag None (base.filter (λ h, h ≠ (motion_signal d, n)) (handlers s)) (next_signal s) s
  end.

(** What happens to the scene; [Moved] is the simulator moving a node. *)
Inductive scene_event : Type :=
  | NodeSeen (n : Z) | LinkSeen (n : Z) (e : endpoint) | Placed (e : endpoint) (p : point)
  | Moved (n : Z) (p : point) | Positions | Press (n : Z) (c : point) | Motion (n : Z) (c : point) | Release (n : Z).
Definition view (e : endpoint) (s : scene) : scene :=
  match e with AtNode n => new_node n s | AtChannel _ => s end.
Definition scene_step (s : scene) (ev : scene_event) : scene :=
  match ev with
  | NodeSeen n => new_node n s
  | LinkSeen n e => create_link n e (view e (new_node n s))
  | Placed e p => set_position e p (view e s)
  | Moved n p => match mobile s n with Some _ => set_mobile n (Some p) s | None => s end
  | Positions => update_node_positions s
  | Press n c => begin_node_drag n c s
  | Motion n c => motion n c s
  | Release n => end_node_drag n s
  end.

(** ** Showing all nodes *)

(** The zoom and the place of the corner of the window. *)
Record viewport : Type := Viewport { zoom : Q; corner : point }.
Definition minimum (x : Q) (l : list Q) : Q := fold_left (λ m y, if Qle_bool m y then m else y) l x.
Definition maximum (x : Q) (l : list Q) : Q := fold_left (λ m y, if Qle_bool y m then m else y) l x.

Section autoscale.
(** The size of the window in pixels, the position of its scroll bars, the conversions
    at a zoom, and the limits of the control of the zoom. *)
Context (page scroll : point) (to_pixels from_pixels : Q → point → point) (clamp : Q → Q).

Definition autoscale_view (s : scene) (v : viewport) : scene * viewport :=
  match scene_nodes s with
  | [] => (s, v)
  | n :: ns =>
      let s := update_node_positions s in
      let x m := (center s (AtNode m)).1 in
      let y m := (center s (AtNode m)).2 in
      let lo := (minimum (x n) (x <$> ns), minimum (y n) (y <$> ns)) in
      let hi := (maximum (x n) (x <$> ns), maximum (y n) (y <$> ns)) in
      let lo_px := to_pixels (zoom v) lo in
      let hi_px := to_pixels (zoom v) hi in
      let new_dx := ((3 # 2) * (hi_px.1 - lo_px.1))%Q in
      let new_dy := ((3 # 2) * (hi_px.2 - lo_px.2))%Q in
      if Qeq_bool new_dx 0 || Qeq_bool new_dy 0 then (s, v)
      else
        let z := clamp (Qmin2 (page.1 / new_dx) (page.2 / new_dy)) in
        let p1 := from_pixels z scroll in
        let p2 := from_pixels z (scroll.1 + page.1, scroll.2 + page.2)%Q in
        (s, Viewport z (((lo.1 + hi.1) / 2 - (p2.1 - p1.1) / 2)%Q, ((lo.2 + hi.2) / 2 - (p2.2 - p1.2) / 2)%Q))
  end.
End autoscale.

(** ** The scene: facts *)

Definition inside_box (b : box) (p : point) : Prop := (min_x b <= p.1 ∧ p.1 <= max_x b ∧ min_y b <= p.2 ∧ p.2 <= max_y b)%Q.
(** Links are registered at both ends, lines that are drawn end at the places of the
    ends, and the nodes are within the bounds. *)
Record scene_wf (s : scene) : Prop := SceneWf {
  wf_ends l n e : wired s !! l = Some (n, e) → l ∈ links_at s (AtNode n) ∧ l ∈ links_at s e;
  wf_seen l n e : wired s !! l = Some (n, e) → n ∈ scene_nodes s ∧ ∀ m, e = AtNode m → m ∈ scene_nodes s;
  wf_drawn l n e d : wired s !! l = Some (n, e) → drawn s l = Some d → d = (center s (AtNode n), center s e);
  wf_bounds b n : bounds s = Some b → n ∈ scene_nodes s → inside_box b (center s (AtNode n));
  wf_origin b : bounds s = Some b → inside_box b (0, 0)%Q;
}.

Lemma Qmin2_le a b : (Qmin2 a b <= a ∧ Qmin2 a b <= b)%Q.
Proof.
  unfold Qmin2. destruct (Qle_bool a b) eqn:E; [apply Qle_bool_iff in E|apply Qle_bool_false in E]; split; lra.
Qed.
Lemma Qmax2_ge a b : (a <= Qmax2 a b ∧ b <= Qmax2 a b)%Q.
Proof.
  unfold Qmax2. destruct (Qle_bool b a) eqn:E; [apply Qle_bool_iff in E|apply Qle_bool_false in E]; split; lra.
Qed.
Lemma widen_box_spec p b : inside_box (widen_box p b) p ∧ ∀ q, inside_box b q → inside_box (widen_box p b) q.
Proof.
  unfold inside_box, widen_box. cbn. destruct (Qmin2_le p.1 (min_x b)), (Qmin2_le p.2 (min_y b)),
    (Qmax2_ge p.1 (max_x b)), (Qmax2_ge p.2 (max_y b)). split; [|intros q (? & ? & ? & ?)]; split_and!; lra.
Qed.

(** The scene with other lines. *)
Definition with_drawn (f : nat → option (point * point)) (s : scene) : scene :=
  Scene (center s) (wired s) f (links_at s) (bounds s) (scene_nodes s) (mobile s) (drag s) (handlers s) (next_signal s).
Definition ends_of (s : scene) (l : nat) : option (point * point) :=
  '(n, e) ← wired s !! l; Some (center s (AtNode n), center s e).
Lemma update_points_fold ls : ∀ s, ∃ f, fold_left update_points ls s = with_drawn f s ∧
  ∀ l, f l = if decide (l ∈ ls) then match ends_of s l with Some d => Some d | None => drawn s l end else drawn s l.
Proof.
  induction ls as [|x ls IH]; intros s; cbn [fold_left].
  - exists (drawn s). split; [by destruct s|]. intros l. rewrite decide_False; [done|apply not_elem_of_nil].
  - assert (∃ f, update_points s x = with_drawn f s ∧
      ∀ l, f l = if decide (l = x) then match ends_of s l with Some d => Some d | None => drawn s l end else drawn s l)
      as (f & Hf & Hfl).
    { unfold update_points, ends_of. destruct (wired s !! x) as [[n e]|] eqn:E.
      - eexists. split; [done|]. intros l. cbn. case_decide; subst; [by rewrite E|done].
      - exists (drawn s). split; [by destruct s|]. intros l. case_decide; subst; [by rewrite E|done]. }
    rewrite Hf. destruct (IH (with_drawn f s)) as (g & -> & Hg). exists g. split; [done|]. intros l. rewrite Hg.
    change (ends_of (with_drawn f s) l) with (ends_of s l). cbn [drawn with_drawn]. rewrite Hfl.
    destruct (decide (l = x)) as [->|]; [rewrite (decide_True (P := x ∈ x :: ls)) by (by left)|].
    + case_decide; by destruct (ends_of s x).
    + destruct (decide (l ∈ ls)); [rewrite decide_True by (by right)|rewrite decide_False by set_solver]; done.
Qed.

Lemma set_position_spec e p s : ∃ f b,
  set_position e p s = set_bounds b (with_drawn f (set_center e p s)) ∧
  (∀ l, f l = if decide (l ∈ links_at s e)
              then match ends_of (set_center e p s) l with Some d => Some d | None => drawn s l end else drawn s l) ∧
  b = match e with AtNode _ => widen_box p <$> bounds s | AtChannel _ => bounds s end.
Proof.
  unfold set_position. destruct (update_points_fold (links_at s e) (set_center e p s)) as (f & Hf & Hfl).
  change (links_at (set_center e p s) e) with (links_at s e). rewrite Hf. exists f. eexists.
  split; [|split; [exact Hfl|done]]. by destruct e.
Qed.
Lemma set_position_wf e p s :
  (∀ n, e = AtNode n → n ∈ scene_nodes s) → scene_wf s → scene_wf (set_position e p s).
Proof.
  intros Hn Hw. destruct (set_position_spec e p s) as (f & b & -> & Hf & ->). split; cbn.
  - apply (wf_ends s Hw).
  - apply (wf_seen s Hw).
  - intros l n e' d Hl Hd. rewrite Hf in Hd. unfold ends_of in Hd. cbn [wired set_center] in Hd. rewrite Hl in Hd.
    cbn [mbind option_bind] in Hd. case_decide as Hin; [by simplify_eq|].
    destruct (wf_ends s Hw l n e' Hl) as [H1 H2]. rewrite !decide_False by (intros <-; done).
    by apply (wf_drawn s Hw l n e').
  - intros b n Hb Hs. pose proof (wf_bounds s Hw) as Hbn. destruct e as [m|c]; cbn in Hb.
    + destruct (bounds s) as [b0|]; [|done]. cbn in Hb. injection Hb as <-. destruct (widen_box_spec p b0) as [H1 H2].
      case_decide; [done|]. apply H2. by apply Hbn.
    + rewrite decide_False by done. by apply Hbn.
  - intros b Hb. destruct e as [m|c]; cbn in Hb; [|by apply (wf_origin s Hw)].
    pose proof (wf_origin s Hw) as Ho. destruct (bounds s) as [b0|]; [|done]. cbn in Hb. injection Hb as <-.
    apply (widen_box_spec p b0). by apply Ho.
Qed.
Lemma new_node_wf n s : scene_wf s → scene_wf (new_node n s) ∧ n ∈ scene_nodes (new_node n s).
Proof.
  intros Hw. unfold new_node. case_bool_decide as Hn; [done|]. split; [|cbn; set_solver]. split; cbn.
  - apply (wf_ends s Hw).
  - intros l m e Hl. destruct (wf_seen s Hw l m e Hl). set_solver.
  - intros l m e d Hl Hd. destruct (wf_seen s Hw l m e Hl) as [H1 H2].
    rewrite !decide_False; [by apply (wf_drawn s Hw l m e)| |]; [intros ->; by apply Hn, H2|congruence].
  - intros b m Hb Hm. case_decide; [by apply (wf_origin s Hw)|]. apply (wf_bounds s Hw); [done|set_solver].
  - apply (wf_origin s Hw).
Qed.
Lemma new_node_keeps n m s : m ∈ scene_nodes s → m ∈ scene_nodes (new_node n s).
Proof. intros Hm. unfold new_node. case_bool_decide; [done|]. cbn. set_solver. Qed.
Lemma view_wf e s : scene_wf s → scene_wf (view e s) ∧ ∀ n, e = AtNode n → n ∈ scene_nodes (view e s).
Proof. intros Hw. destruct e as [n|c]; cbn; [|done]. split; [by apply new_node_wf|]. intros ? [= <-]. by apply new_node_wf. Qed.
Lemma create_link_wf n e s :
  n ∈ scene_nodes s → (∀ m, e = AtNode m → m ∈ scene_nodes s) → scene_wf s → scene_wf (create_link n e s).
Proof.
  intros Hn He Hw. assert (∀ l x, (wired s ++ [(n, e)]) !! l = Some x →
    (l ≠ length (wired s) ∧ wired s !! l = Some x) ∨ (l = length (wired s) ∧ x = (n, e))) as Hcase.
  { intros l x Hx. apply lookup_app_Some in Hx as [Hx|[Hl Hx]].
    - left. split; [|done]. apply lookup_lt_Some in Hx. lia.
    - right. apply list_lookup_singleton_Some in Hx as [? <-]. split; [lia|done]. }
  split; cbn.
  - intros l m e' [[Hne Hl]|[-> [= -> ->]]]%Hcase; unfold add_at.
    + destruct (wf_ends s Hw l m e' Hl). split; repeat case_decide; set_solver.
    + split; repeat case_decide; subst; set_solver.
  - intros l m e' [[Hne Hl]|[-> [= -> ->]]]%Hcase; [by apply (wf_seen s Hw l)|done].
  - intros l m e' d [[Hne Hl]|[-> _]]%Hcase; [rewrite decide_False by done; by apply (wf_drawn s Hw)|by rewrite decide_True].
  - apply (wf_bounds s Hw).
  - apply (wf_origin s Hw).
Qed.
Lemma set_mobile_wf n o s : scene_wf s → scene_wf (set_mobile n o s).
Proof. intros Hw. by split; apply Hw. Qed.
Lemma set_drag_wf o hs k s : scene_wf s → scene_wf (set_drag o hs k s).
Proof. intros Hw. by split; apply Hw. Qed.
Lemma update_node_position_wf s n :
  n ∈ scene_nodes s → scene_wf s → scene_wf (update_node_position s n).
Proof. intros Hn Hw. unfold update_node_position. destruct (mobile s n); [|done]. apply set_position_wf; [|done]. naive_solver. Qed.
(** What placing a node leaves alone. *)
Definition frame (s : scene) : list (Z * endpoint) * list Z * (Z → option point) * option drag_state * list (nat * Z) * nat :=
  (wired s, scene_nodes s, mobile s, drag s, handlers s, next_signal s).
Lemma frame_nodes s s' : frame s' = frame s → scene_nodes s' = scene_nodes s.
Proof. unfold frame. by intros [=]. Qed.
Lemma set_position_frame e p s : frame (set_position e p s) = frame s.
Proof. by destruct (set_position_spec e p s) as (f & b & -> & _). Qed.
Lemma update_node_position_frame s n : frame (update_node_position s n) = frame s.
Proof. unfold update_node_position. destruct (mobile s n); [apply set_position_frame|done]. Qed.
Lemma update_positions_fold ns : ∀ s,
  (∀ n, n ∈ ns → n ∈ scene_nodes s) → scene_wf s →
  scene_wf (fold_left update_node_position ns s) ∧ frame (fold_left update_node_position ns s) = frame s.
Proof.
  induction ns as [|n ns IH]; intros s Hn Hw; cbn [fold_left]; [done|].
  pose proof (update_node_position_frame s n) as Hf. assert (scene_nodes (update_node_position s n) = scene_nodes s) as Hs.
  { by apply frame_nodes. }
  destruct (IH (update_node_position s n)) as [H1 H2].
  - intros m Hm. rewrite Hs. apply Hn. by right.
  - apply update_node_position_wf; [|done]. apply Hn. by left.
  - split; [done|]. by rewrite H2.
Qed.
(** Dragging needs the dragged nodes to be there: they are what was pressed. *)
Definition seen_event (s : scene) (ev : scene_event) : bool :=
  match ev with Motion n _ => bool_decide (n ∈ scene_nodes s) | _ => true end.
Lemma node_drag_motion_wf c s n : n ∈ scene_nodes s → scene_wf s →
  scene_wf (node_drag_motion c s n) ∧ scene_nodes (node_drag_motion c s n) = scene_nodes s.
Proof.
  intros Hn Hw. unfold node_drag_motion. destruct (mobile s n); [|done]. destruct (drag s) as [d|]; [|done].
  set (pos := (_, _)). set (q := transform_point_simulation_to_canvas pos).
  pose proof (set_position_frame (AtNode n) q (set_mobile n (Some pos) s)) as Hf. split.
  - apply set_position_wf; [naive_solver|by apply set_mobile_wf].
  - by apply frame_nodes in Hf.
Qed.
Lemma motion_wf n c s : n ∈ scene_nodes s → scene_wf s → scene_wf (motion n c s).
Proof.
  intros Hn Hw. unfold motion. assert (∀ m, m ∈ base.filter (λ m, m = n) (snd <$> handlers s) → m = n) as Hall.
  { by intros m [? _]%list_elem_of_filter. }
  revert Hall Hn Hw. generalize (base.filter (λ m, m = n) (snd <$> handlers s)) as ms. intros ms. revert s.
  induction ms as [|m ms IH]; intros s Hall Hn Hw; cbn [fold_left]; [done|]. rewrite (Hall m) by by left.
  destruct (node_drag_motion_wf c s n Hn Hw) as [H1 H2]. apply IH; [set_solver|by rewrite H2|done].
Qed.
Lemma scene_step_wf s ev : seen_event s ev = true → scene_wf s → scene_wf (scene_step s ev).
Proof.
  intros Hseen Hw. destruct ev as [n|n e|e p|n p| |n c|n c|n]; cbn [scene_step].
  - by apply new_node_wf.
  - destruct (new_node_wf n s Hw) as [H1 H2]. destruct (view_wf e _ H1) as [H3 H4].
    apply create_link_wf; [|done|done]. destruct e as [m|k]; cbn [view]; [by apply new_node_keeps|done].
  - destruct (view_wf e s Hw) as [H1 H2]. by apply set_position_wf.
  - destruct (mobile s n); [by apply set_mobile_wf|done].
  - unfold update_node_positions. by apply update_positions_fold.
  - unfold begin_node_drag. destruct (mobile s n), (drag s); try done. by apply set_drag_wf.
  - apply motion_wf; [|done]. by apply bool_decide_eq_true in Hseen.
  - unfold end_node_drag. destruct (drag s); [by apply set_drag_wf|done].
Qed.

(** Events one after another, of nodes that are there. *)
Inductive scene_run : scene → list scene_event → scene → Prop :=
  | run_done s : scene_run s [] s
  | run_event_ s ev es s' : seen_event s ev = true → scene_run (scene_step s ev) es s' → scene_run s (ev :: es) s'.

(** C14: whatever is scanned, moved, placed or dragged, in any order, each link is
    registered at both its ends, every line that is drawn joins the places where its
    two ends are now, and all nodes are within the bounds of the canvas. *)
Theorem scene_consistent (s s' : scene) (es : list scene_event) :
  scene_wf s → scene_run s es s' → scene_wf s'.
Proof. intros Hw Hr. induction Hr as [|s ev es s' Hseen Hr IH]; [done|]. by apply IH, scene_step_wf. Qed.
Definition empty_scene (mob : Z → option point) : scene :=
  Scene (λ _, (0, 0)%Q) [] (λ _, None) (λ _, []) (Some (Box (-10000) (-10000) 10000 10000)) [] mob None [] 0.
Lemma empty_scene_wf mob : scene_wf (empty_scene mob).
Proof. split; cbn; try by intros. - intros b n [= <-] Hn. by apply elem_of_nil in Hn. - intros b [= <-]. by unfold inside_box. Qed.
Definition some_scene : list scene_event :=
  [LinkSeen 0 (AtNode 1); LinkSeen 1 (AtChannel 7); Positions; Placed (AtChannel 7) (5, 5)%Q;
   Press 1 (10, 10)%Q; Motion 1 (40000, 10)%Q; Release 1].
Definition at_origin : Z → option point := λ n, if (n =? 1) then Some (1, 2)%Q else None.
Definition some_scene_end : scene := fold_left scene_step some_scene (empty_scene at_origin).
Lemma scene_consistent_witness : scene_run (empty_scene at_origin) some_scene some_scene_end ∧ scene_wf some_scene_end.
Proof.
  assert (scene_run (empty_scene at_origin) some_scene some_scene_end) as Hr.
  { unfold some_scene_end, some_scene. cbn [fold_left].
    repeat (apply run_event_; [vm_compute; reflexivity|]). apply run_done. }
  split; [exact Hr|]. exact (scene_consistent _ _ _ (empty_scene_wf at_origin) Hr).
Defined.
(** The first link was drawn when its end was placed, the canvas has grown with the
    drag. *)
Example some_scene_drawn :
  (drawn some_scene_end 0 ≫= λ d, Some (Qred d.2.1), Qred <$> (max_x <$> bounds some_scene_end), drag some_scene_end)
    = (Some 39993%Q, Some 39993%Q, None).
Proof. vm_compute. reflexivity. Qed.

(** ** Dragging: facts *)

(** [n] is dragged since the pointer was at [c0] and the node at [p0]. *)
Definition dragging (n : Z) (c0 p0 : point) (k : nat) (s : scene) : Prop :=
  drag s = Some (DragState c0 p0 k) ∧ handlers s = [(k, n)] ∧ is_Some (mobile s n).
Lemma frame_dragging n c0 p0 k s s' : frame s' = frame s → dragging n c0 p0 k s → dragging n c0 p0 k s'.
Proof. unfold frame, dragging. intros [= _ _ -> -> -> _]. done. Qed.
Lemma new_node_dragging m n c0 p0 k s : dragging n c0 p0 k s → dragging n c0 p0 k (new_node m s).
Proof. unfold new_node. by case_bool_decide. Qed.
Definition not_release (ev : scene_event) : Prop := match ev with Release _ => False | _ => True end.
Lemma node_drag_motion_dragging c m n c0 p0 k s :
  dragging n c0 p0 k s → dragging n c0 p0 k (node_drag_motion c s m).
Proof.
  intros (Hd & Hh & Hm). unfold node_drag_motion. destruct (mobile s m) eqn:E; [|done]. rewrite Hd.
  eapply frame_dragging; [apply set_position_frame|]. unfold dragging. cbn. split_and!; [done|done|]. case_decide; [by eexists|done].
Qed.
Lemma scene_step_dragging n c0 p0 k s ev :
  not_release ev → dragging n c0 p0 k s → dragging n c0 p0 k (scene_step s ev).
Proof.
  intros Hev Hd. destruct ev as [m|m e|e p|m p| |m c|m c|m]; cbn [scene_step]; [| | | | | | |done].
  - by apply new_node_dragging.
  - assert (dragging n c0 p0 k (view e (new_node m s))) as H.
    { destruct e; cbn [view]; repeat apply new_node_dragging; done. }
    done.
  - eapply frame_dragging; [apply set_position_frame|]. destruct e; cbn [view]; [by apply new_node_dragging|done].
  - destruct (mobile s m) eqn:E; [|done]. destruct Hd as (H1 & H2 & H3). unfold dragging. cbn.
    split_and!; [done|done|]. case_decide; [by eexists|done].
  - unfold update_node_positions. generalize (scene_nodes s). intros ns. revert s Hd.
    induction ns as [|x ns IH]; intros s Hd; cbn [fold_left]; [done|]. apply IH.
    eapply frame_dragging; [apply update_node_position_frame|done].
  - unfold begin_node_drag. destruct Hd as (H1 & H2 & H3). rewrite H1. by destruct (mobile s m).
  - unfold motion. generalize (base.filter (λ x, x = m) (snd <$> handlers s)). intros ms. revert s Hd.
    induction ms as [|x ms IH]; intros s Hd; cbn [fold_left]; [done|]. by apply IH, node_drag_motion_dragging.
Qed.

(** While a node is dragged, whatever else happens, a motion of the pointer puts it,
    in the simulator and on the canvas, where it was at the beginning of the drag plus
    the way of the pointer since then, so that motions do not add up errors; other
    presses do not disturb the drag, and after the release no motion moves a node. *)
Theorem drag_follows (s : scene) (n : Z) (p0 c0 c : point) (es : list scene_event) :
  mobile s n = Some p0 → drag s = None → handlers s = [] → Forall not_release es →
  let s1 := fold_left scene_step es (begin_node_drag n c0 s) in
  let pos := ((p0.1 + (c.1 - c0.1) / PIXELS_PER_METER)%Q, (p0.2 + (c.2 - c0.2) / PIXELS_PER_METER)%Q) in
  let s2 := motion n c s1 in
  mobile s2 n = Some pos ∧ center s2 (AtNode n) = transform_point_simulation_to_canvas pos ∧
  ∀ m c', motion m c' (end_node_drag n s1) = end_node_drag n s1 ∧ drag (end_node_drag n s1) = None.
Proof.
  intros Hm Hd Hh Hes s1 pos s2. assert (dragging n c0 p0 (next_signal s) s1) as (H1 & H2 & [q H3]).
  { assert (dragging n c0 p0 (next_signal s) (begin_node_drag n c0 s)) as H0.
    { unfold begin_node_drag. rewrite Hm, Hd. unfold dragging. cbn. by rewrite Hh, Hm. }
    unfold s1. revert H0. generalize (begin_node_drag n c0 s). clear -Hes.
    induction Hes as [|ev es Hev Hes IH]; intros s0 H0; cbn [fold_left]; [done|]. by apply IH, scene_step_dragging. }
  assert (s2 = node_drag_motion c s1 n) as Hs2.
  { unfold s2, motion. rewrite H2. cbn [fmap list_fmap snd]. by rewrite filter_cons_True. }
  unfold node_drag_motion in Hs2. rewrite H3, H1 in Hs2.
  cbn [sim_0 canvas_0] in Hs2. fold transform_distance_canvas_to_simulation in Hs2.
  unfold transform_distance_canvas_to_simulation in Hs2. fold pos in Hs2.
  destruct (set_position_spec (AtNode n) (transform_point_simulation_to_canvas pos) (set_mobile n (Some pos) s1)) as (f & b & E & _).
  rewrite E in Hs2. rewrite Hs2. cbn. rewrite !decide_True by done. split_and!; [done|done|].
  intros m c'. unfold end_node_drag. rewrite H1. unfold motion. cbn [handlers set_drag drag motion_signal].
  rewrite H2. rewrite filter_cons_False by (intros H; by apply H). done.
Qed.
Lemma drag_follows_witness :
  let s := empty_scene at_origin in
  let s1 := fold_left scene_step [Motion 1 (100, 0)%Q; Moved 1 (9, 9)%Q; Press 1 (0, 0)%Q; Positions] (begin_node_drag 1 (4, 5)%Q s) in
  ∃ pos, mobile (motion 1 (7, 5)%Q s1) 1 = Some pos ∧ (pos.1 == 2)%Q.
Proof.
  destruct (drag_follows (empty_scene at_origin) 1 (1, 2)%Q (4, 5)%Q (7, 5)%Q
    [Motion 1 (100, 0)%Q; Moved 1 (9, 9)%Q; Press 1 (0, 0)%Q; Positions]) as (H & _).
  - reflexivity.
  - reflexivity.
  - reflexivity.
  - repeat constructor.
  - eexists. split; [exact H|reflexivity].
Defined.

(** ** Showing all nodes: facts *)

Lemma minimum_le l : ∀ x y, y ∈ x :: l → (minimum x l <= y)%Q.
Proof.
  unfold minimum. induction l as [|a l IH]; intros x y Hy; cbn [fold_left].
  - apply list_elem_of_singleton in Hy as ->. apply Qle_refl.
  - destruct (Qle_bool x a) eqn:E; [apply Qle_bool_iff in E|apply Qle_bool_false in E].
    + apply elem_of_cons in Hy as [->|[->|Hy]%elem_of_cons]; [apply IH; by left| |apply IH; by right].
      eapply Qle_trans; [|exact E]. apply IH. by left.
    + apply elem_of_cons in Hy as [->|[->|Hy]%elem_of_cons]; [|apply IH; by left|apply IH; by right].
      eapply Qle_trans; [|apply Qlt_le_weak, E]. apply IH. by left.
Qed.
Lemma maximum_ge l : ∀ x y, y ∈ x :: l → (y <= maximum x l)%Q.
Proof.
  unfold maximum. induction l as [|a l IH]; intros x y Hy; cbn [fold_left].
  - apply list_elem_of_singleton in Hy as ->. apply Qle_refl.
  - destruct (Qle_bool a x) eqn:E; [apply Qle_bool_iff in E|apply Qle_bool_false in E].
    + apply elem_of_cons in Hy as [->|[->|Hy]%elem_of_cons]; [apply IH; by left| |apply IH; by right].
      eapply Qle_trans; [exact E|]. apply IH. by left.
    + apply elem_of_cons in Hy as [->|[->|Hy]%elem_of_cons]; [|apply IH; by left|apply IH; by right].
      eapply Qle_trans; [apply Qlt_le_weak, E|]. apply IH. by left.
Qed.
Lemma minimum_elem l : ∀ x, minimum x l ∈ x :: l.
Proof.
  unfold minimum. induction l as [|a l IH]; intros x; cbn [fold_left]; [by left|].
  destruct (Qle_bool x a); [pose proof (IH x) as H|pose proof (IH a) as H]; set_solver.
Qed.
Lemma maximum_elem l : ∀ x, maximum x l ∈ x :: l.
Proof.
  unfold maximum. induction l as [|a l IH]; intros x; cbn [fold_left]; [by left|].
  destruct (Qle_bool a x); [pose proof (IH x) as H|pose proof (IH a) as H]; set_solver.
Qed.

(** On one axis: with the extent [d] of the nodes, the size [w] of the window in
    pixels and a zoom [z] of at most [w / (3/2 * d)], the window that is centred on
    the nodes leaves a sixth of its width free on both sides. *)
Lemma axis_shown lo hi w z x :
  (lo < hi → 0 < w → 0 < z → z <= w / ((3 # 2) * (1 * (hi - lo))) → lo <= x → x <= hi →
   let width := w / z in let start := (lo + hi) / 2 - width / 2 in
   start + width / 6 <= x ∧ x <= start + width - width / 6)%Q.
Proof.
  intros Hd Hw Hz Hle Hlo Hhi width start.
  assert (width * z == w)%Q as Hwz by (unfold width; field; lra).
  set (d := (hi - lo)%Q) in *. assert (0 < d)%Q as Hd0 by (unfold d; lra).
  assert (z * ((3 # 2) * d) <= w)%Q as Hzd.
  { assert (w / ((3 # 2) * (1 * d)) * ((3 # 2) * d) == w)%Q as H by (field; lra). rewrite <-H.
    apply Qmult_le_compat_r; [exact Hle|lra]. }
  assert ((3 # 2) * d <= width)%Q as H32.
  { destruct (Qlt_le_dec width ((3 # 2) * d)) as [Hlt|]; [|done]. exfalso.
    assert (z * width < z * ((3 # 2) * d))%Q by (apply Qmult_lt_l; done). lra. }
  assert (2 * ((lo + hi) / 2) == lo + hi)%Q as Hc by field.
  assert (2 * (width / 2) == width)%Q as Hh by field. assert (6 * (width / 6) == width)%Q as H6 by field.
  unfold start, d in *. split; lra.
Qed.

Lemma extent (f : Z → Q) n ns :
  let lo := minimum (f n) (f <$> ns) in let hi := maximum (f n) (f <$> ns) in
  (∀ m, m ∈ n :: ns → lo <= f m ∧ f m <= hi)%Q ∧
  (∃ m, m ∈ n :: ns ∧ f m = lo) ∧ (∃ m, m ∈ n :: ns ∧ f m = hi).
Proof.
  split_and!.
  - intros m Hm. assert (f m ∈ f n :: (f <$> ns)) as Hf by (change (f m ∈ f <$> n :: ns); by apply list_elem_of_fmap_2).
    split; [by apply minimum_le|by apply maximum_ge].
  - pose proof (minimum_elem (f <$> ns) (f n)) as H. change (minimum (f n) (f <$> ns) ∈ f <$> n :: ns) in H.
    apply list_elem_of_fmap in H as (m & E & Hm). by exists m.
  - pose proof (maximum_elem (f <$> ns) (f n)) as H. change (maximum (f n) (f <$> ns) ∈ f <$> n :: ns) in H.
    apply list_elem_of_fmap in H as (m & E & Hm). by exists m.
Qed.

Section autoscale_facts.
Context (page scroll : point) (to_pixels from_pixels : Q → point → point) (clamp : Q → Q) (lower : Q).
(** The conversions scale distances by the zoom; the control of the zoom does not
    raise a value that is at least its lower limit. *)
Context (to_scales : ∀ z p q, ((to_pixels z p).1 - (to_pixels z q).1 == z * (p.1 - q.1))%Q ∧
                              ((to_pixels z p).2 - (to_pixels z q).2 == z * (p.2 - q.2))%Q).
Context (from_scales : ∀ z p q, (0 < z)%Q →
  ((from_pixels z p).1 - (from_pixels z q).1 == (p.1 - q.1) / z)%Q ∧
  ((from_pixels z p).2 - (from_pixels z q).2 == (p.2 - q.2) / z)%Q).
Context (clamp_limits : ∀ z, (lower <= z)%Q → (0 < clamp z ∧ clamp z <= z)%Q).

(** The window [page] in pixels from [corner] at a zoom shows [p] with a margin of a
    sixth of its size. *)
Definition shown_in (v : viewport) (p : point) : Prop :=
  let w := (page.1 / zoom v)%Q in let h := (page.2 / zoom v)%Q in
  ((corner v).1 + w / 6 <= p.1 ∧ p.1 <= (corner v).1 + w - w / 6 ∧
   (corner v).2 + h / 6 <= p.2 ∧ p.2 <= (corner v).2 + h - h / 6)%Q.

(** From a zoom of 1, when the nodes differ in both coordinates and are not too far
    apart for the smallest zoom, the view is scaled and moved so that every node is
    seen with a margin of a sixth of the window; when they all have the same first, or
    the same second, coordinate the view is left as it is. *)
Theorem autoscale_shows_all (s : scene) (v : viewport) :
  (0 < page.1 ∧ 0 < page.2)%Q → zoom v = 1%Q → scene_nodes s ≠ [] → scene_wf s →
  let s1 := update_node_positions s in
  let at_node n := center s1 (AtNode n) in
  let '(s', v') := autoscale_view page scroll to_pixels from_pixels clamp s v in
  s' = s1 ∧
  ((∃ m n, m ∈ scene_nodes s ∧ n ∈ scene_nodes s ∧ (at_node m).1 < (at_node n).1)%Q →
   (∃ m n, m ∈ scene_nodes s ∧ n ∈ scene_nodes s ∧ (at_node m).2 < (at_node n).2)%Q →
   (∀ m n, m ∈ scene_nodes s → n ∈ scene_nodes s →
      (at_node m).1 < (at_node n).1 → lower <= page.1 / ((3 # 2) * (1 * ((at_node n).1 - (at_node m).1))))%Q →
   (∀ m n, m ∈ scene_nodes s → n ∈ scene_nodes s →
      (at_node m).2 < (at_node n).2 → lower <= page.2 / ((3 # 2) * (1 * ((at_node n).2 - (at_node m).2))))%Q →
   ∀ n, n ∈ scene_nodes s → shown_in v' (at_node n)) ∧
  ((∀ m n, m ∈ scene_nodes s → n ∈ scene_nodes s → (at_node m).1 == (at_node n).1)%Q ∨
   (∀ m n, m ∈ scene_nodes s → n ∈ scene_nodes s → (at_node m).2 == (at_node n).2)%Q → v' = v).
Proof.
  intros [Hw Hh] Hz Hne Hwf s1 at_node. unfold autoscale_view. destruct (scene_nodes s) as [|n0 ns]; [done|]. fold s1.
  set (fx := λ m, (center s1 (AtNode m)).1). set (fy := λ m, (center s1 (AtNode m)).2).
  change (center s1 (AtNode n0)).1 with (fx n0). change (center s1 (AtNode n0)).2 with (fy n0).
  destruct (extent fx n0 ns) as (Hx & (mx & Hmx & Elx) & (nx & Hnx & Ehx)).
  destruct (extent fy n0 ns) as (Hy & (my & Hmy & Ely) & (ny & Hny & Ehy)).
  set (lox := minimum (fx n0) (fx <$> ns)) in *. set (hix := maximum (fx n0) (fx <$> ns)) in *.
  set (loy := minimum (fy n0) (fy <$> ns)) in *. set (hiy := maximum (fy n0) (fy <$> ns)) in *.
  destruct (to_scales (zoom v) (hix, hiy) (lox, loy)) as [Tx Ty]. rewrite Hz in *. cbn [fst snd] in Tx, Ty.
  set (new_dx := ((3 # 2) * _)%Q). set (new_dy := ((3 # 2) * ((to_pixels 1 (hix, hiy)).2 - _))%Q).
  assert (new_dx == (3 # 2) * (1 * (hix - lox)))%Q as Dx by (unfold new_dx; rewrite Tx; reflexivity).
  assert (new_dy == (3 # 2) * (1 * (hiy - loy)))%Q as Dy by (unfold new_dy; rewrite Ty; reflexivity).
  destruct (Qeq_bool new_dx 0 || Qeq_bool new_dy 0) eqn:E; (split; [done|]).
  - split; [|done]. intros (a & b & Ha & Hb & Hab) (c & d & Hc & Hd & Hcd). exfalso.
    pose proof (Hx a Ha). pose proof (Hx b Hb). pose proof (Hy c Hc). pose proof (Hy d Hd). unfold at_node in *.
    apply orb_true_iff in E as [E|E]; apply Qeq_bool_iff in E; unfold fx, fy in *; lra.
  - apply orb_false_iff in E as [Ex Ey]. apply Qeq_bool_neq in Ex, Ey. split.
    + intros (a & b & Ha & Hb & Hab) (c & d & Hc & Hd & Hcd) Lx Ly n Hn.
      pose proof (Hx a Ha). pose proof (Hx b Hb). pose proof (Hy c Hc). pose proof (Hy d Hd). unfold at_node in *.
      assert (lox < hix)%Q as Hlx by (unfold fx in *; lra). assert (loy < hiy)%Q as Hly by (unfold fy in *; lra).
      pose proof (Lx mx nx Hmx Hnx) as Px. fold (fx mx) (fx nx) in Px. rewrite Elx, Ehx in Px. specialize (Px Hlx).
      pose proof (Ly my ny Hmy Hny) as Py. fold (fy my) (fy ny) in Py. rewrite Ely, Ehy in Py. specialize (Py Hly).
      rewrite <-Dx in Px. rewrite <-Dy in Py. destruct (Qmin2_le (page.1 / new_dx) (page.2 / new_dy)) as [M1 M2].
      destruct (clamp_limits (Qmin2 (page.1 / new_dx) (page.2 / new_dy))) as [C0 C1].
      { unfold Qmin2. by destruct (Qle_bool _ _). }
      set (z := clamp _) in *. destruct (from_scales z (scroll.1 + page.1, scroll.2 + page.2)%Q scroll C0) as [F1 F2].
      cbn [fst snd] in F1, F2. destruct (Hx n Hn) as [X1 X2]. destruct (Hy n Hn) as [Y1 Y2].
      destruct (axis_shown lox hix page.1 z (fx n)) as [A1 A2]; [done|done|done|rewrite <-Dx; lra|done|done|].
      destruct (axis_shown loy hiy page.2 z (fy n)) as [B1 B2]; [done|done|done|rewrite <-Dy; lra|done|done|].
      assert (scroll.1 + page.1 - scroll.1 == page.1)%Q as G1 by ring.
      assert (scroll.2 + page.2 - scroll.2 == page.2)%Q as G2 by ring. rewrite G1 in F1. rewrite G2 in F2.
      unfold shown_in. cbn [zoom corner fst snd]. fold (fx n) (fy n). rewrite F1, F2. done.
    + intros [Heq|Heq]; exfalso.
      * pose proof (Heq mx nx Hmx Hnx) as H. unfold at_node in H. fold (fx mx) (fx nx) in H. rewrite Elx, Ehx in H.
        apply Ex. rewrite Dx, H. ring.
      * pose proof (Heq my ny Hmy Hny) as H. unfold at_node in H. fold (fy my) (fy ny) in H. rewrite Ely, Ehy in H.
        apply Ey. rewrite Dy, H. ring.
Qed.
End autoscale_facts.
Definition flat_to (z : Q) (p : point) : point := (z * p.1, z * p.2)%Q.
Definition flat_from (z : Q) (p : point) : point := (p.1 / z, p.2 / z)%Q.
Definition zoom_control (z : Q) : Q := Qmax2 (1 # 100) (Qmin2 z 9).
Lemma flat_to_scales z p q :
  ((flat_to z p).1 - (flat_to z q).1 == z * (p.1 - q.1))%Q ∧ ((flat_to z p).2 - (flat_to z q).2 == z * (p.2 - q.2))%Q.
Proof. unfold flat_to. cbn. split; ring. Qed.
Lemma flat_from_scales z p q :
  (0 < z)%Q → ((flat_from z p).1 - (flat_from z q).1 == (p.1 - q.1) / z)%Q ∧
              ((flat_from z p).2 - (flat_from z q).2 == (p.2 - q.2) / z)%Q.
Proof. intros Hz. unfold flat_from. cbn. split; field; lra. Qed.
Lemma zoom_control_limits z : ((1 # 100) <= z → 0 < zoom_control z ∧ zoom_control z <= z)%Q.
Proof.
  intros Hz. unfold zoom_control, Qmax2, Qmin2. destruct (Qle_bool z 9) eqn:E;
    [apply Qle_bool_iff in E|apply Qle_bool_false in E]; destruct (Qle_bool _ _) eqn:F;
    [apply Qle_bool_iff in F|apply Qle_bool_false in F|apply Qle_bool_iff in F|apply Qle_bool_false in F]; split; lra.
Qed.
(** Two nodes fifty meters apart in each direction, in a window of 600 by 450. *)
Definition two_nodes : scene :=
  fold_left scene_step [NodeSeen 0; NodeSeen 1]
    (empty_scene (λ n, if n =? 1 then Some (50, 50)%Q else Some (0, 0)%Q)).
Definition scaled (s : scene) (v : viewport) : scene * viewport :=
  autoscale_view (600, 450)%Q (0, 0)%Q flat_to flat_from zoom_control s v.
Lemma two_nodes_wf : scene_wf two_nodes.
Proof. apply (scene_step_wf _ (NodeSeen 1) eq_refl), (scene_step_wf _ (NodeSeen 0) eq_refl), empty_scene_wf. Qed.
Lemma two_nodes_elem n : n ∈ scene_nodes two_nodes → n = 0 ∨ n = 1.
Proof. change (scene_nodes two_nodes) with [0; 1]. rewrite elem_of_cons, list_elem_of_singleton. tauto. Qed.
Lemma autoscale_shows_all_witness :
  shown_in (600, 450)%Q (scaled two_nodes (Viewport 1 (0, 0)%Q)).2 (150, 150)%Q.
Proof.
  pose proof (autoscale_shows_all (600, 450)%Q (0, 0)%Q flat_to flat_from zoom_control (1 # 100)
    flat_to_scales flat_from_scales zoom_control_limits two_nodes (Viewport 1 (0, 0)%Q)) as H.
  specialize (H (conj eq_refl eq_refl) eq_refl ltac:(discriminate) two_nodes_wf). cbv zeta in H.
  unfold scaled. destruct (autoscale_view _ _ _ _ _ _ _) as [s' v']. destruct H as (_ & H & _).
  refine (H _ _ _ _ 1 _).
  - exists 0, 1. repeat split; by_decision.
  - exists 0, 1. repeat split; by_decision.
  - intros m n [-> | ->]%two_nodes_elem [-> | ->]%two_nodes_elem Hlt; try discriminate Hlt; discriminate.
  - intros m n [-> | ->]%two_nodes_elem [-> | ->]%two_nodes_elem Hlt; try discriminate Hlt; discriminate.
  - by_decision.
Defined.
(** The extent is measured in pixels at the zoom of before: a second call gives
    another zoom. *)
Example autoscale_twice :
  let v1 := (scaled two_nodes (Viewport 1 (0, 0)%Q)).2 in
  let v2 := (scaled two_nodes v1).2 in
  (Qred (zoom v1), Qred (zoom v2)) = (2%Q, 1%Q).
Proof. vm_compute. reflexivity. Qed.
