(* ===== verification/VizNode.v ===== *)
(** * The visualizer: icons and the look of nodes

    From src/visualizer: the SVG images (svgitem.py), and the appearance of a node with
    its icon and its label (core.py, class [Node]).  The canvas items are records of
    the properties that were set. *)
From Stdlib Require Import QArith Lqa.
From S2P Require Export VizScene.
Open Scope Z_scope.

(** ** Images *)

(** [hw] and [hh] are the size of the image itself, in pixels. *)
Record svg : Type := Svg {
  hw : positive; hh : positive; svg_x : Q; svg_y : Q; sx : Q; sy : Q; width : Q; height : Q;
  custom_width : option Q; custom_height : option Q }.
Definition pixels (n : positive) : Q := inject_Z (Z.pos n).
Definition new_svg (w h : positive) (x y : Q) : svg := Svg w h x y 1 1 (pixels w) (pixels h) None None.
Definition size_changed (s : svg) : svg :=
  let '(sx, sy, w, h) :=
    match custom_width s, custom_height s with
    | None, None => (1, 1, pixels (hw s), pixels (hh s))
    | Some w, None => let k := (w / pixels (hw s))%Q in (k, k, w, (pixels (hh s) * k)%Q)
    | None, Some h => let k := (h / pixels (hh s))%Q in (k, k, (pixels (hw s) * k)%Q, h)
    | Some w, Some h => ((w / pixels (hw s))%Q, (h / pixels (hh s))%Q, w, h)
    end%Q in
  Svg (hw s) (hh s) (svg_x s) (svg_y s) sx sy w h (custom_width s) (custom_height s).
(** The properties that can be set. *)
Inductive svg_property : Type := PropX | PropY | PropWidth | PropHeight.
Definition do_set_property (p : svg_property) (v : Q) (s : svg) : svg :=
  match p with
  | PropX => Svg (hw s) (hh s) v (svg_y s) (sx s) (sy s) (width s) (height s) (custom_width s) (custom_height s)
  | PropY => Svg (hw s) (hh s) (svg_x s) v (sx s) (sy s) (width s) (height s) (custom_width s) (custom_height s)
  | PropWidth => size_changed (Svg (hw s) (hh s) (svg_x s) (svg_y s) (sx s) (sy s) (width s) (height s) (Some v) (custom_height s))
  | PropHeight => size_changed (Svg (hw s) (hh s) (svg_x s) (svg_y s) (sx s) (sy s) (width s) (height s) (custom_width s) (Some v))
  end.
(** Reading the width sets both sizes. *)
Definition do_get_property (p : svg_property) (s : svg) : svg * Q :=
  match p with
  | PropX => (s, svg_x s)
  | PropY => (s, svg_y s)
  | PropWidth => (Svg (hw s) (hh s) (svg_x s) (svg_y s) (sx s) (sy s) (pixels (hw s)) (pixels (hh s)) (custom_width s) (custom_height s), pixels (hw s))
  | PropHeight => (s, height s)
  end.
(** [do_simple_update]: the bounds of the item. *)
Definition svg_bounds (s : svg) : box := Box (svg_x s) (svg_y s) (svg_x s + width s)%Q (svg_y s + height s)%Q.
(** [do_simple_paint]: where a point of the image is painted. *)
Definition paint (s : svg) (p : point) : point := (svg_x s + sx s * p.1, svg_y s + sy s * p.2)%Q.
Definition Qlt_b (a b : Q) : bool := negb (Qle_bool b a).
Definition do_simple_is_item_at (s : svg) (p : point) : bool :=
  negb (Qlt_b p.1 (svg_x s) || Qlt_b (svg_x s + width s) p.1 || (Qlt_b p.2 (svg_y s) || Qlt_b (svg_y s + height s) p.2)).

(** ** The look of a node *)

(** The properties of the circle; [stroke] is whether it is yellow. *)
Record circle : Type := Circle { radius_x : Q; radius_y : Q; fill_color : Z; line_width : Q; stroke : bool }.
Record text_item : Type := TextItem { text : pystr; text_x : Q; text_y : Q }.
Definition DEFAULT_NODE_SIZE : Q := 1.
Definition transform_distance_simulation_to_canvas (d : Q) : Q := (d * PIXELS_PER_METER)%Q.

(** [align] are the alignments of the icon; [label_item] appears with the label. *)
Record node_view : Type := NodeView {
  size : Q; color : Z; selected : bool; highlighted : bool; label : option pystr;
  icon : option svg; align : Q * Q; place : point; look : circle; label_item : option text_item }.
Definition set_look (c : circle) (n : node_view) : node_view :=
  NodeView (size n) (color n) (selected n) (highlighted n) (label n) (icon n) (align n) (place n) c (label_item n).
Definition set_label_item (t : option text_item) (n : node_view) : node_view :=
  NodeView (size n) (color n) (selected n) (highlighted n) (label n) (icon n) (align n) (place n) (look n) t.
Definition set_icon (i : option svg) (a : Q * Q) (n : node_view) : node_view :=
  NodeView (size n) (color n) (selected n) (highlighted n) (label n) i a (place n) (look n) (label_item n).

Definition update_svg_position (p : point) (n : node_view) : node_view :=
  match icon n with
  | Some i =>
      let i' := do_set_property PropX (p.1 - (1 - (align n).1) * width i)%Q i in
      set_icon (Some (do_set_property PropY (p.2 - (1 - (align n).2) * height i)%Q i')) (align n) n
  | None => n
  end.
(** [set_position] as far as the node itself is concerned. *)
Definition place_node (p : point) (n : node_view) : node_view :=
  let n := NodeView (size n) (color n) (selected n) (highlighted n) (label n) (icon n) (align n) p (look n) (label_item n) in
  let n := update_svg_position p n in
  set_label_item ((λ t, TextItem (text t) p.1 (p.2 + size n * 3)%Q) <$> label_item n) n.
Definition look_of (n : node_view) : circle :=
  let size := transform_distance_simulation_to_canvas (size n) in
  let alpha := match icon n with Some _ => 128 | None => 255 end in
  Circle size size (Z.lor (Z.land (color n) 4294967040) alpha)
    (if selected n then size * (3 # 10) else size * (15 # 100))%Q (highlighted n).
Definition update_appearance (n : node_view) : node_view :=
  let n := set_look (look_of n) n in
  match label n with
  | None => n
  | Some l =>
      let t := match label_item n with Some t => TextItem l (text_x t) (text_y t) | None => TextItem l 0 0 end in
      place_node (place n) (set_label_item (Some t) n)
  end.
Definition new_node_view : node_view :=
  update_appearance (NodeView DEFAULT_NODE_SIZE 2155905279 false false None None (0, 0)%Q (0, 0)%Q (Circle 0 0 0 0 false) None).

Definition set_size (q : Q) (n : node_view) : node_view :=
  update_appearance (NodeView q (color n) (selected n) (highlighted n) (label n) (icon n) (align n) (place n) (look n) (label_item n)).
Definition set_selected (b : bool) (n : node_view) : node_view :=
  update_appearance (NodeView (size n) (color n) b (highlighted n) (label n) (icon n) (align n) (place n) (look n) (label_item n)).
Definition set_highlighted (b : bool) (n : node_view) : node_view :=
  update_appearance (NodeView (size n) (color n) (selected n) b (label n) (icon n) (align n) (place n) (look n) (label_item n)).
(** A color is a number, or a name that Gdk turns into three components of 16 bits. *)
Definition rgba (red green blue : Z) : Z :=
  Z.lor (Z.lor (Z.lor (Z.shiftl (Z.shiftr red 8) 24) (Z.shiftl (Z.shiftr green 8) 16)) (Z.shiftl (Z.shiftr blue 8) 8)) 255.
Definition set_color (c : Z + Z * Z * Z) (n : node_view) : node_view :=
  let c := match c with inl c => c | inr (r, g, b) => rgba r g b end in
  update_appearance (NodeView (size n) c (selected n) (highlighted n) (label n) (icon n) (align n) (place n) (look n) (label_item n)).
(** [basestring] is no name of Python 3. *)
Definition set_label (python3 : bool) (l : pystr) (n : node_view) : res exn node_view :=
  if python3 then Raise NameError
  else Ok (update_appearance (NodeView (size n) (color n) (selected n) (highlighted n) (Some l) (icon n) (align n) (place n) (look n) (label_item n))).
(** [w] and [h] are the size to scale to, in meters; the image has the size [img]. *)
Definition set_svg_icon (img : positive * positive) (w h : option Q) (a : Q * Q) (n : node_view) : res exn node_view :=
  match w, h with
  | None, None => Raise ValueError
  | _, _ =>
      let i := new_svg img.1 img.2 (place n).1 (place n).2 in
      let i := match w with Some w => do_set_property PropWidth (transform_distance_simulation_to_canvas w) i | None => i end in
      let i := match h with Some h => do_set_property PropHeight (transform_distance_simulation_to_canvas h) i | None => i end in
      Ok (update_appearance (update_svg_position (place n) (set_icon (Some i) a n)))
  end.

(** What is done to a node. *)
Inductive look_event : Type :=
  | Sized (q : Q) | Selected (b : bool) | Highlighted (b : bool) | Colored (c : Z + Z * Z * Z) | Labelled (l : pystr)
  | Iconed (img : positive * positive) (w h : option Q) (a : Q * Q) | PlacedAt (p : point).
Definition look_step (python3 : bool) (n : node_view) (e : look_event) : res exn node_view :=
  match e with
  | Sized q => Ok (set_size q n)
  | Selected b => Ok (set_selected b n)
  | Highlighted b => Ok (set_highlighted b n)
  | Colored c => Ok (set_color c n)
  | Labelled l => set_label python3 l n
  | Iconed img w h a => set_svg_icon img w h a n
  | PlacedAt p => Ok (place_node p n)
  end.

(** ** Images: facts *)

(** The size that is reported is the size that is painted; one size alone scales both. *)
Definition svg_ok (s : svg) : Prop :=
  (width s == sx s * pixels (hw s) ∧ height s == sy s * pixels (hh s) ∧ 0 < sx s ∧ 0 < sy s)%Q ∧
  (custom_width s = None ∨ custom_height s = None → sx s == sy s)%Q.
Lemma pixels_pos n : (0 < pixels n)%Q.
Proof. done. Qed.
Lemma new_svg_ok w h x y : svg_ok (new_svg w h x y).
Proof. unfold svg_ok. cbn. split; [|done]. split_and!; [ring|ring|done|done]. Qed.
Lemma scale_pos v n : (0 < v → 0 < v / pixels n)%Q.
Proof. intros Hv. apply Qlt_shift_div_l; [done|]. lra. Qed.
Definition positive_size (o : option Q) : Prop := match o with Some v => (0 < v)%Q | None => True end.
Lemma size_changed_ok s : positive_size (custom_width s) → positive_size (custom_height s) → svg_ok (size_changed s).
Proof.
  intros Hw Hh. pose proof (pixels_pos (hw s)) as Pw. pose proof (pixels_pos (hh s)) as Ph.
  unfold svg_ok, size_changed. destruct (custom_width s) as [w|] eqn:Ew, (custom_height s) as [h|] eqn:Eh; cbn in *; rewrite ?Ew, ?Eh.
  - split; [|by intros [|]]. split_and!; [field; lra|field; lra|by apply scale_pos|by apply scale_pos].
  - split; [|done]. split_and!; [field; lra|field; lra|by apply scale_pos|by apply scale_pos].
  - split; [|done]. split_and!; [field; lra|field; lra|by apply scale_pos|by apply scale_pos].
  - split; [|done]. split_and!; [ring|ring|done|done].
Qed.

(** Setting properties, sizes being positive. *)
Inductive svg_reached (w h : positive) : svg → Prop :=
  | svg_new x y : svg_reached w h (new_svg w h x y)
  | svg_set s p v : svg_reached w h s → (p = PropWidth ∨ p = PropHeight → 0 < v)%Q → svg_reached w h (do_set_property p v s).
Lemma svg_reached_ok w h s : svg_reached w h s →
  svg_ok s ∧ positive_size (custom_width s) ∧ positive_size (custom_height s) ∧ hw s = w ∧ hh s = h.
Proof.
  induction 1 as [x y|s p v Hs (IH & Hw & Hh & Ew & Eh) Hv]; [split; [apply new_svg_ok|done]|].
  assert (∀ s, hw (size_changed s) = hw s ∧ hh (size_changed s) = hh s ∧
    custom_width (size_changed s) = custom_width s ∧ custom_height (size_changed s) = custom_height s) as Hsame.
  { intros s0. unfold size_changed. by destruct (custom_width s0), (custom_height s0). }
  destruct p; cbn [do_set_property].
  - done.
  - done.
  - destruct (Hsame (Svg (hw s) (hh s) (svg_x s) (svg_y s) (sx s) (sy s) (width s) (height s) (Some v) (custom_height s))) as (-> & -> & -> & ->).
    cbn. split; [apply size_changed_ok; cbn; auto|]. auto.
  - destruct (Hsame (Svg (hw s) (hh s) (svg_x s) (svg_y s) (sx s) (sy s) (width s) (height s) (custom_width s) (Some v))) as (-> & -> & -> & ->).
    cbn. split; [apply size_changed_ok; cbn; auto|]. auto.
Qed.
Lemma Qlt_b_false a b : Qlt_b a b = false ↔ (b <= a)%Q.
Proof. unfold Qlt_b. rewrite negb_false_iff. apply Qle_bool_iff. Qed.

(** On one axis: what is at most [n] pixels of the image, scaled by [k] from [x] on. *)
Lemma axis_painted x k n w p : (0 < k → w == k * n → (x <= p ∧ p <= x + w ↔ ∃ q, 0 <= q ∧ q <= n ∧ x + k * q == p))%Q.
Proof.
  intros Hk Hw. split.
  - intros [H1 H2]. exists ((p - x) / k)%Q. assert (k * ((p - x) / k) == p - x)%Q as E by (field; lra).
    split; [|split; [|lra]].
    + apply Qle_shift_div_l; [done|lra].
    + apply Qle_shift_div_r; [done|lra].
  - intros (q & H1 & H2 & H3). assert (0 <= k * q)%Q by (apply Qmult_le_0_compat; lra).
    assert (k * q <= k * n)%Q; [|lra]. rewrite !(Qmult_comm k). apply Qmult_le_compat_r; lra.
Qed.

(** However an image is placed and scaled, the pointer is on it exactly where a
    point of the image is painted, and exactly within its bounds; when only one of the
    sizes was given the image keeps its proportions. *)
Theorem svg_painted (w h : positive) (s : svg) (p : point) : svg_reached w h s →
  (do_simple_is_item_at s p = true ↔
     ∃ q, (0 <= q.1 ∧ q.1 <= pixels w ∧ 0 <= q.2 ∧ q.2 <= pixels h ∧ (paint s q).1 == p.1 ∧ (paint s q).2 == p.2)%Q) ∧
  (do_simple_is_item_at s p = true ↔ inside_box (svg_bounds s) p) ∧
  (custom_width s = None ∨ custom_height s = None → sx s == sy s)%Q.
Proof.
  intros Hs. destruct (svg_reached_ok w h s Hs) as (((Hw & Hh & Kx & Ky) & Hk) & _ & _ & <- & <-).
  assert (do_simple_is_item_at s p = true ↔ (svg_x s <= p.1 ∧ p.1 <= svg_x s + width s) ∧ (svg_y s <= p.2 ∧ p.2 <= svg_y s + height s))%Q as Hat.
  { unfold do_simple_is_item_at. rewrite negb_true_iff, !orb_false_iff, !Qlt_b_false. done. }
  split; [|split; [|done]].
  - rewrite Hat, (axis_painted _ (sx s) _ _ _ Kx Hw), (axis_painted _ (sy s) _ _ _ Ky Hh). unfold paint. cbn. split.
    + intros [(a & ? & ? & ?) (b & ? & ? & ?)]. by exists (a, b).
    + intros ([a b] & ? & ? & ? & ? & ? & ?). split; [by exists a|by exists b].
  - rewrite Hat. unfold inside_box, svg_bounds. cbn. tauto.
Qed.
Definition some_svg : svg := do_set_property PropX 5 (do_set_property PropWidth 30 (new_svg 60 40 0 0)).
Lemma svg_painted_witness : do_simple_is_item_at some_svg (35, 20)%Q = true ∧ (sx some_svg == sy some_svg)%Q.
Proof.
  destruct (svg_painted 60 40 some_svg (35, 20)%Q) as ([_ H1] & _ & H2).
  - apply svg_set; [apply svg_set; [apply svg_new|by intros _]|]. by intros [|].
  - split; [|apply H2; by right]. apply H1. exists (60, 40)%Q.
    split; [discriminate|]. split; [discriminate|]. split; [discriminate|]. split; [discriminate|]. split; reflexivity.
Defined.
(** Reading the width forgets the scale: the image is painted on half of its bounds. *)
Example width_read : let s := (do_get_property PropWidth some_svg).1 in
  (width s, Qred (sx s)) = (60%Q, (1 # 2)%Q) ∧ do_simple_is_item_at s (60, 35)%Q = true ∧ do_simple_is_item_at some_svg (60, 35)%Q = false.
Proof. vm_compute. done. Qed.

(** ** The look of a node: facts *)

(** What is shown follows from the state: the circle from size, color, selection,
    highlighting and the presence of an icon; the label below the place of the node;
    the icon by its alignment. *)
Record look_current (n : node_view) : Prop := LookCurrent {
  current_circle : look n = look_of n;
  current_label : label_item n = (λ l, TextItem l (place n).1 ((place n).2 + size n * 3)%Q) <$> label n;
  current_icon i : icon n = Some i →
    svg_x i = ((place n).1 - (1 - (align n).1) * width i)%Q ∧ svg_y i = ((place n).2 - (1 - (align n).2) * height i)%Q;
}.
(** All but the circle and the label. *)
Definition icon_placed (n : node_view) : Prop := ∀ i, icon n = Some i →
  svg_x i = ((place n).1 - (1 - (align n).1) * width i)%Q ∧ svg_y i = ((place n).2 - (1 - (align n).2) * height i)%Q.
Lemma update_svg_position_placed n : icon_placed (update_svg_position (place n) n).
Proof. unfold icon_placed, update_svg_position. destruct (icon n) as [i|] eqn:E; [|by rewrite E]. by intros ? [= <-]. Qed.
Lemma update_appearance_current n :
  icon_placed n → (label n = None → label_item n = None) → look_current (update_appearance n).
Proof.
  intros Hi Hl. destruct n as [q c s h l i a p k t]. unfold update_appearance, icon_placed in *. cbn in *.
  destruct l as [l|]; cbn.
  - unfold place_node, update_svg_position. cbn. destruct i as [i|]; cbn; (split; cbn; [done|by destruct t|]); [|done].
    by intros ? [= <-].
  - split; cbn; [done|by apply Hl|exact Hi].
Qed.
Lemma place_node_current p n : look_current n → look_current (place_node p n).
Proof.
  intros [H1 H2 H3]. destruct n as [q c s h l i a p0 k t]. unfold place_node, update_svg_position in *. cbn in *. subst t.
  destruct i as [i|]; cbn; (split; cbn; [exact H1|by destruct l|]); [|done]. by intros ? [= <-].
Qed.

(** C16: whatever is done to a node, in any order, its circle, its label and its icon
    show its state: also after a property is changed that the others depend on, and
    after an operation that fails. *)
Theorem look_follows (python3 : bool) (es : list look_event) (n : node_view) :
  look_current n →
  look_current (fold_left (λ n e, match look_step python3 n e with Ok n' => n' | Raise _ => n end) es n).
Proof.
  revert n. induction es as [|e es IH]; intros n Hn; cbn [fold_left]; [done|]. apply IH.
  destruct Hn as [H1 H2 H3]. assert (label n = None → label_item n = None) as Hl by (intros E; by rewrite H2, E).
  destruct e as [q|b|b|c|l|img w h a|p]; cbn [look_step].
  - by apply update_appearance_current.
  - by apply update_appearance_current.
  - by apply update_appearance_current.
  - by apply update_appearance_current.
  - unfold set_label. destruct python3; [done|]. by apply update_appearance_current.
  - unfold set_svg_icon. destruct w as [w|], h as [h|]; [| | |done];
      (apply update_appearance_current; [apply (update_svg_position_placed (set_icon (Some _) a n))|exact Hl]).
  - by apply place_node_current.
Qed.
Lemma new_node_view_current : look_current new_node_view.
Proof. apply update_appearance_current; [done|done]. Qed.
Definition some_look : list look_event :=
  [Labelled (str "ap"); Iconed (60, 40)%positive None None (0, 0)%Q; Iconed (60, 40)%positive (Some 10%Q) None (1 # 2, 1)%Q;
   PlacedAt (30, 60)%Q; Selected true; Colored (inr (65535, 0, 0))].
Definition some_look_end : node_view :=
  fold_left (λ n e, match look_step false n e with Ok n' => n' | Raise _ => n end) some_look new_node_view.
Lemma look_follows_witness : look_current some_look_end.
Proof. exact (look_follows false some_look new_node_view new_node_view_current). Defined.
(** The icon makes the fill half transparent and is centred, the label is below. *)
Example some_look_shown :
  (fill_color (look some_look_end) = 4278190208 ∧ label_item some_look_end = Some (TextItem (str "ap") 30 (60 + 1 * 3))) ∧
  (Qred <$> (svg_x <$> icon some_look_end), Qred <$> (svg_y <$> icon some_look_end)) = (Some 15%Q, Some 60%Q).
Proof. vm_compute. done. Qed.
(** Under Python 3 no node can be given a label. *)
Lemma no_label n l : set_label true l n = Raise NameError.
Proof. done. Qed.
(** Components of 16 bits give a color of 32 bits that is opaque. *)
Lemma rgba_bounds r g b : 0 <= r < 65536 → 0 <= g < 65536 → 0 <= b < 65536 →
  rgba r g b = Z.shiftr r 8 * 16777216 + Z.shiftr g 8 * 65536 + Z.shiftr b 8 * 256 + 255 ∧ 0 <= rgba r g b < 4294967296.
Proof.
  intros Hr Hg Hb. rewrite !Z.shiftr_div_pow2 by lia. change (2 ^ 8) with 256.
  assert (∀ x, 0 <= x < 65536 → 0 <= x / 256 < 256) as Hdiv.
  { intros x Hx. split; [apply Z.div_pos; lia|apply Z.div_lt_upper_bound; lia]. }
  assert (∀ x y k, 0 <= k → 0 <= y < 2 ^ k → Z.lor (Z.shiftl x k) y = x * 2 ^ k + y) as Hor.
  { intros x y k Hk Hy. rewrite <-Z.shiftl_mul_pow2 by done. pose proof (Z.add_lor_land (Z.shiftl x k) y) as Ha.
    assert (Z.land (Z.shiftl x k) y = 0) as E; [|lia]. apply Z.bits_inj'. intros i Hi. rewrite Z.land_spec, Z.bits_0.
    destruct (Z.lt_ge_cases i k); [by rewrite Z.shiftl_spec_low|].
    destruct (Z.eq_dec y 0) as [->|]; [by rewrite Z.bits_0, andb_false_r|]. rewrite (Z.bits_above_log2 y), andb_false_r; [done|lia|].
    apply Z.log2_lt_pow2; [lia|]. eapply Z.lt_le_trans; [apply Hy|]. apply Z.pow_le_mono_r; lia. }
  pose proof (Hdiv r Hr). pose proof (Hdiv g Hg). pose proof (Hdiv b Hb).
  assert (rgba r g b = r / 256 * 16777216 + g / 256 * 65536 + b / 256 * 256 + 255) as ->; [|lia].
  unfold rgba. rewrite !Z.shiftr_div_pow2 by lia. change (2 ^ 8) with 256.
  rewrite <-!Z.lor_assoc. rewrite (Hor (b / 256) 255 8) by lia.
  change (2 ^ 8) with 256. rewrite (Hor (g / 256) _ 16) by lia. change (2 ^ 16) with 65536.
  rewrite (Hor (r / 256) _ 24) by lia. change (2 ^ 24) with 16777216. lia.
Qed.
