(* ===== verification/VizPlugins.v ===== *)
(** * The visualizer: plugins and their tables

    From src/visualizer: loading the plugins (base.py), the tables of routes
    (plugins/olsr.py, plugins/ipv4_routing_table.py) and of packets
    (plugins/show_last_packets.py), and the filter of packets. *)
From Stdlib Require Import Ascii.
From S2P Require Export PyStr.
Open Scope Z_scope.

(** ** Loading *)

(** [os.path.splitext] of a file name without a directory: dots at its beginning do
    not begin an extension. *)
Fixpoint split_last_dot (s : pystr) : option (pystr * pystr) :=
  match s with
  | [] => None
  | c :: s =>
      match split_last_dot s with
      | Some (l, r) => Some (c :: l, r)
      | None => if decide (c = "."%char) then Some ([], s) else None
      end
  end.
Definition splitext (s : pystr) : pystr * pystr :=
  match split_last_dot s with
  | Some (l, r) => if forallb (λ c, bool_decide (c = "."%char)) l then (s, []) else (l, "."%char :: r)
  | None => (s, [])
  end.

(** What [__import__] gives: a module with the function [register] or without it,
    an [ImportError] or another exception. *)
Inductive imported (F : Type) : Type :=
  | Registers (f : F) | NoRegister | NoImport | Raises (e : exn).
Arguments Registers {F} f.
Arguments NoRegister {F}.
Arguments NoImport {F}.
Arguments Raises {F} e.

(** [callable] tells which objects can be called. *)
Section loading.
Context {F : Type} (callable : F → bool) (import : pystr → imported F) (plugins_dir : pystr).
Record loader : Type := Loader {
  plugins : list F; plugin_modules : list pystr; plugins_loaded : bool; sys_path : list pystr; complaints : list pystr }.
Definition complain (name : pystr) (s : loader) : loader :=
  Loader (plugins s) (plugin_modules s) (plugins_loaded s) (sys_path s) (complaints s ++ [name]).
(** [plugin_modules] is a dictionary: its keys in the order of their insertion. *)
Definition register_plugin (f : F) (name : pystr) : stm loader unit :=
  if callable f then
    st_modify (λ s, Loader (plugins s ++ [f])
      (if decide (name ∈ plugin_modules s) then plugin_modules s else plugin_modules s ++ [name])
      (plugins_loaded s) (sys_path s) (complaints s))
  else st_raise AssertionError.
Definition load_file (filename : pystr) : stm loader unit :=
  let '(name, ext) := splitext filename in
  if decide (ext = str ".py") then
    match import name with
    | Registers f => register_plugin f name
    | NoRegister => st_modify (complain name)
    | NoImport => st_modify (complain filename)
    | Raises e => st_raise e
    end
  else mret tt.
Definition set_path (p : list pystr) (s : loader) : loader :=
  Loader (plugins s) (plugin_modules s) (plugins_loaded s) p (complaints s).
Definition set_loaded (s : loader) : loader :=
  Loader (plugins s) (plugin_modules s) true (sys_path s) (complaints s).
Definition load_plugins (filenames : list pystr) : stm loader unit :=
  s ← st_get;
  if plugins_loaded s then mret tt
  else
    _ ← st_modify set_loaded;
    let old_path := sys_path s in
    _ ← st_modify (set_path (plugins_dir :: old_path));
    _ ← st_for load_file filenames;
    st_modify (set_path old_path).
End loading.
Arguments loader : clear implicits.

(** ** Tables of routes *)

Section tables.
(** The device of an interface of the node with its name, which may be empty. *)
Context (net_device : Z → option pystr).
Definition interface_name (i : Z) : pystr :=
  match net_device i with
  | None => str "lo"
  | Some [] => str "(interface " ++ str_of_Z i ++ str ")"
  | Some name => name
  end.
Record route : Type := Route { destination : pystr; next_hop : pystr; route_interface : Z; distance : Z }.

(** The table of the OLSR window; a node without the protocol keeps what is shown. *)
Definition olsr_update (routes : option (list route)) (table : list (pystr * pystr * pystr * Z)) : list (pystr * pystr * pystr * Z) :=
  match routes with
  | None => table
  | Some routes => (λ r, (destination r, next_hop r, interface_name (route_interface r), distance r)) <$> routes
  end.

(** Routing protocols of a node. *)
Inductive protocol : Type := StaticRouting (routes : list route) | GlobalRouting (routes : list route) | OtherRouting.
Inductive routing : Type := Single (p : protocol) | ListRouting (ps : list (protocol * Z)).
Definition routing_protocols (r : routing) : list (list route * pystr * Z) :=
  match r with
  | Single (StaticRouting routes) => [(routes, str "static", 0)]
  | Single _ => []
  | ListRouting ps =>
      concat ((λ p, match p.1 with
                    | StaticRouting routes => [(routes, str "static", p.2)]
                    | GlobalRouting routes => [(routes, str "global", p.2)]
                    | OtherRouting => []
                    end) <$> ps)
  end.
Definition ipv4_row : Type := pystr * pystr * pystr * pystr * Z.
Definition ipv4_update (r : option routing) (table : list ipv4_row) : list ipv4_row :=
  match r with
  | None => table
  | Some r =>
      match routing_protocols r with
      | [] => table
      | protocols =>
          concat ((λ p : list route * pystr * Z,
            (λ r, (destination r, next_hop r, interface_name (route_interface r), p.1.2, p.2)) <$> p.1.1) <$> protocols)
      end
  end.
End tables.

(** ** Packets *)

(** A packet that was seen: when, on which device (its name and index), its size and
    what it holds. *)
Record packet_sample : Type := PacketSample {
  sample_time : pystr; sample_device : option (pystr * Z); packet_size : Z; packet_text : pystr }.
Definition packet_interface (d : option (pystr * Z)) : pystr :=
  match d with
  | None => str "(unknown)"
  | Some ([], i) => str "(interface " ++ str_of_Z i ++ str ")"
  | Some (name, _) => name
  end.
Definition packet_rows (samples : list packet_sample) : list (pystr * pystr * pystr * pystr) :=
  (λ s, (sample_time s, packet_interface (sample_device s), str_of_Z (packet_size s), packet_text s)) <$> samples.

Section filter.
(** The types of the simulator: the registered ones, the parent of each. *)
Context (parent : Z → option Z) (Header Trailer : Z).
(** The loop up the parents. *)
Fixpoint type_is_good (fuel : nat) (t : Z) : option bool :=
  match fuel with
  | O => None
  | S fuel =>
      if decide (t = Header ∨ t = Trailer) then Some true
      else match parent t with Some p => type_is_good fuel p | None => Some false end
  end.
(** The types of the list, all selected. *)
Fixpoint packet_filter_list (fuel : nat) (registered : list Z) : option (list (Z * bool)) :=
  match registered with
  | [] => Some []
  | t :: registered =>
      good ← type_is_good fuel t;
      rest ← packet_filter_list fuel registered;
      Some (if good && negb (bool_decide (t ∈ [Header; Trailer])) then (t, true) :: rest else rest)
  end.
End filter.

(** The options of the simulator: whether all headers are needed, how many packets, the
    types of headers. *)
Record capture_options : Type := CaptureOptions { capture_and : bool; numLastPackets : Z; headers : list Z }.
Record packets_window : Type := PacketsWindow { filters : list (Z * bool); op_AND : bool; capture : option capture_options }.
Definition update_capture_options (w : packets_window) : packets_window :=
  PacketsWindow (filters w) (op_AND w)
    (Some (CaptureOptions (op_AND w) 100 (fst <$> base.filter (λ c, c.2 = true) (filters w)))).
(** What the user does: the two buttons, a check box of the list, AND or OR. *)
Inductive filter_event : Type := SelAll | SelNone | CellEdited (i : nat) (b : bool) | Toggled (and : bool).
Definition filter_step (w : packets_window) (e : filter_event) : packets_window :=
  update_capture_options
    match e with
    | SelAll => PacketsWindow ((λ c, (c.1, true)) <$> filters w) (op_AND w) (capture w)
    | SelNone => PacketsWindow ((λ c, (c.1, false)) <$> filters w) (op_AND w) (capture w)
    | CellEdited i b => PacketsWindow (alter (λ c, (c.1, b)) i (filters w)) (op_AND w) (capture w)
    | Toggled b => PacketsWindow (filters w) b (capture w)
    end.
Definition open_packets (l : list (Z * bool)) : packets_window := update_capture_options (PacketsWindow l false None).

(** ** Loading: facts *)

Section loading_facts.
Context {F : Type} (callable : F → bool) (import : pystr → imported F) (plugins_dir : pystr).
Definition is_py (filename : pystr) : bool := bool_decide ((splitext filename).2 = str ".py").
Definition registered (filename : pystr) : option F :=
  if is_py filename then match import (splitext filename).1 with Registers f => Some f | _ => None end else None.
(** The exception a file raises that is not caught. *)
Definition raised (filename : pystr) : option exn :=
  if is_py filename then
    match import (splitext filename).1 with
    | Registers f => if callable f then None else Some AssertionError
    | Raises e => Some e
    | _ => None
    end
  else None.
Definition no_exception (filename : pystr) : Prop := raised filename = None.

Lemma load_file_ok filename s : no_exception filename →
  ∃ s', load_file callable import filename s = (Ok tt, s') ∧ plugins s' = plugins s ++ option_list (registered filename) ∧
    plugins_loaded s' = plugins_loaded s ∧ sys_path s' = sys_path s.
Proof.
  unfold no_exception, raised, registered, is_py, load_file. destruct (splitext filename) as [name ext].
  cbn [fst snd]. case_decide as D; [rewrite bool_decide_true by done|rewrite bool_decide_false by done]; intros He.
  - destruct (import name) as [f| | |e] eqn:E; [unfold register_plugin; destruct (callable f); [|done]| | |done];
      (eexists; split; [done|]); cbn; by rewrite ?app_nil_r.
  - exists s. by rewrite app_nil_r.
Qed.
Lemma load_files_ok files : ∀ s, Forall no_exception files →
  ∃ s', st_for (load_file callable import) files s = (Ok tt, s') ∧ plugins s' = plugins s ++ omap registered files ∧
    plugins_loaded s' = plugins_loaded s ∧ sys_path s' = sys_path s.
Proof.
  induction files as [|f files IH]; intros s Hf; [exists s; by rewrite app_nil_r|].
  apply Forall_cons in Hf as [Hf Hfs]. destruct (load_file_ok f s Hf) as (s1 & E & P1 & L1 & S1).
  destruct (IH s1 Hfs) as (s2 & E2 & P2 & L2 & S2). exists s2. split; [|split; [|split; congruence]].
  - cbn [st_for]. unfold mbind, stm_bind. by rewrite E.
  - rewrite P2, P1, <-app_assoc. f_equal. cbn [omap list_omap]. by destruct (registered f).
Qed.
Lemma load_files_raise before f after e : ∀ s, Forall no_exception before →
  raised f = Some e →
  ∃ s', st_for (load_file callable import) (before ++ f :: after) s = (Raise e, s') ∧
    plugins s' = plugins s ++ omap registered before ∧ plugins_loaded s' = plugins_loaded s ∧ sys_path s' = sys_path s.
Proof.
  intros s Hb He. destruct (load_files_ok before s Hb) as (s1 & E & P1 & L1 & S1). exists s1.
  split; [|done]. rewrite st_for_app. unfold mbind, stm_bind. rewrite E. cbn [st_for]. unfold mbind, stm_bind, load_file.
  unfold raised, is_py in He. destruct (splitext f) as [name ext]. cbn [fst snd] in He.
  case_bool_decide as D; [|done]. rewrite decide_True by done. destruct (import name) as [p| | |e']; try done.
  - unfold register_plugin. destruct (callable p); [done|by injection He as <-].
  - by injection He as ->.
Qed.

(** C18: the plugins are those of the Python files of the directory that import and have a
    function [register], in the order of the listing, and the search path is as before;
    loading again changes nothing.  But when an import raises anything but ImportError,
    or [register] cannot be called (AssertionError), the exception leaves with the directory still in the search path, and no later call
    loads the files that were left. *)
Theorem plugins_registered (files : list pystr) (s : loader F) : plugins_loaded s = false →
  let load := load_plugins callable import plugins_dir in
  (Forall no_exception files → ∃ s', load files s = (Ok tt, s') ∧ plugins s' = plugins s ++ omap registered files ∧
     sys_path s' = sys_path s ∧ ∀ files', load files' s' = (Ok tt, s')) ∧
  (∀ before f after e, files = before ++ f :: after → Forall no_exception before → raised f = Some e → ∃ s', load files s = (Raise e, s') ∧
     plugins s' = plugins s ++ omap registered before ∧ sys_path s' = plugins_dir :: sys_path s ∧
     ∀ files', load files' s' = (Ok tt, s')).
Proof.
  intros Hl load. set (s0 := set_path (plugins_dir :: sys_path s) (set_loaded s)). unfold load, load_plugins. split.
  - intros Hf. destruct (load_files_ok files s0 Hf) as (s1 & E & P1 & L1 & S1).
    exists (set_path (sys_path s) s1). unfold mbind, stm_bind, st_get. rewrite Hl. cbn [st_modify]. fold s0. rewrite E.
    cbn. split_and!; [done|by rewrite P1|done|]. intros files'. by rewrite L1.
  - intros before f after e -> Hb He. destruct (load_files_raise before f after e s0 Hb He) as (s1 & E & P1 & L1 & S1).
    exists s1. unfold mbind, stm_bind, st_get. rewrite Hl. cbn [st_modify]. fold s0. rewrite E.
    split_and!; [done|by rewrite P1|by rewrite S1|]. intros files'. by rewrite L1.
Qed.
End loading_facts.
Definition is_function (f : Z) : bool := 0 <? f.
Definition some_import (name : pystr) : imported Z :=
  if decide (name = str "olsr") then Registers 1 else if decide (name = str "hud") then Registers 2
  else if decide (name = str "kiwi") then NoImport else if decide (name = str "bad") then Raises ValueError else if decide (name = str "odd") then Registers 0 else NoRegister.
Lemma plugins_registered_witness :
  ∃ s, load_plugins is_function some_import (str "plugins") [str "olsr.py"; str "README"; str "kiwi.py"; str ".py"; str "hud.py"]
         (Loader [] [] false [str "/usr"] []) = (Ok tt, s) ∧ plugins s = [1; 2].
Proof.
  destruct (plugins_registered is_function some_import (str "plugins") [str "olsr.py"; str "README"; str "kiwi.py"; str ".py"; str "hud.py"]
    (Loader [] [] false [str "/usr"] []) eq_refl) as [H _]. destruct H as (s & H1 & H2 & _).
  - repeat (apply Forall_cons; split; [reflexivity|]). by apply Forall_nil.
  - exists s. split; [exact H1|exact H2].
Defined.
Example bad_plugin :
  let '(r, s) := load_plugins is_function some_import (str "plugins") [str "bad.py"; str "olsr.py"] (Loader [] [] false [str "/usr"] []) in
  (r, plugins s, sys_path s) = (Raise ValueError, [], [str "plugins"; str "/usr"]).
Proof. reflexivity. Qed.
Example odd_plugin :
  (load_plugins is_function some_import (str "plugins") [str "odd.py"] (Loader [] [] false [] [])).1 = Raise AssertionError.
Proof. reflexivity. Qed.

(** ** Packets: facts *)

Section filter_facts.
Context (parent : Z → option Z) (Header Trailer : Z).
(** A type is one of the two or has one among its ancestors. *)
Inductive derives : Z → Prop :=
  | derives_here t : t = Header ∨ t = Trailer → derives t
  | derives_parent t p : t ≠ Header → t ≠ Trailer → parent t = Some p → derives p → derives t.
(** Types are registered after their parents. *)
Context (parent_before : ∀ t p, parent t = Some p → 0 <= p < t).
Lemma type_is_good_enough fuel : ∀ t, (Z.to_nat t < fuel)%nat →
  ∃ b, type_is_good parent Header Trailer fuel t = Some b ∧ (b = true ↔ derives t).
Proof.
  induction fuel as [|fuel IH]; intros t Ht; [lia|]. cbn [type_is_good]. case_decide as D.
  - exists true. split; [done|]. split; [by intros _; constructor|done].
  - destruct (parent t) as [p|] eqn:E.
    + pose proof (parent_before t p E). destruct (IH p) as (b & Hb & Hd); [lia|]. exists b. split; [done|]. rewrite Hd. split.
      * intros Hp. by apply derives_parent with p; [tauto|tauto|..].
      * intros Hp. inversion Hp as [|? p' ? ? E']; subst; [tauto|]. by rewrite E in E'; injection E' as ->.
    + exists false. split; [done|]. split; [done|]. intros Hp. inversion Hp as [|? p' ? ? E']; subst; [tauto|]. by rewrite E in E'.
Qed.
(** The list of the window holds exactly the registered types that derive from one of
    the two, without these, in their order and all selected. *)
Lemma packet_filter_list_spec fuel registered : (∀ t, t ∈ registered → (Z.to_nat t < fuel)%nat) →
  ∃ l, packet_filter_list parent Header Trailer fuel registered = Some l ∧ (fst <$> l) `sublist_of` registered ∧
    Forall (λ c, c.2 = true) l ∧ ∀ t, t ∈ fst <$> l ↔ t ∈ registered ∧ derives t ∧ t ≠ Header ∧ t ≠ Trailer.
Proof.
  induction registered as [|t reg IH]; intros Hf; [exists []; split_and!; try done; intros t; split; [by intros ?%elem_of_nil|by intros [?%elem_of_nil _]]|].
  cbn [packet_filter_list]. destruct (type_is_good_enough fuel t) as (b & -> & Hb); [apply Hf; by left|].
  destruct IH as (l & -> & Hsub & Hall & Hl); [intros u Hu; apply Hf; by right|]. cbn [mbind option_bind].
  destruct (b && negb (bool_decide (t ∈ [Header; Trailer]))) eqn:E; (eexists; split; [done|]).
  - apply andb_true_iff in E as [Hbt Hn]. apply negb_true_iff, bool_decide_eq_false in Hn.
    rewrite not_elem_of_cons, list_elem_of_singleton in Hn. cbn [fmap list_fmap fst]. split; [by constructor|].
    split; [by constructor|]. intros u. rewrite !elem_of_cons, Hl. split; [|tauto]. intros [->|?]; [|tauto].
    split; [by left|]. split; [by apply Hb|]. tauto.
  - split; [by constructor|]. split; [done|]. intros u. rewrite Hl, elem_of_cons. split; [tauto|]. intros ([->|?] & Hd & H1 & H2); [|tauto].
    exfalso. apply Hb in Hd. rewrite Hd in E. cbn in E. apply negb_false_iff, bool_decide_eq_true in E.
    rewrite elem_of_cons, list_elem_of_singleton in E. tauto.
Qed.
End filter_facts.

Lemma alter_types (b : bool) i (cs : list (Z * bool)) : fst <$> alter (λ c, (c.1, b)) i cs = fst <$> cs.
Proof. revert i. induction cs as [|c cs IH]; intros [|i]; cbn; [done..|]. f_equal. apply IH. Qed.
(** The simulator captures what the window shows: after any clicks its options are the
    mode and the selected types. *)
Lemma capture_follows l es : let w := fold_left filter_step es (open_packets l) in
  capture w = Some (CaptureOptions (op_AND w) 100 (fst <$> base.filter (λ c, c.2 = true) (filters w))) ∧
  fst <$> filters w = fst <$> l.
Proof.
  assert (∀ w, fst <$> filters w = fst <$> l →
    capture w = Some (CaptureOptions (op_AND w) 100 (fst <$> base.filter (λ c, c.2 = true) (filters w))) →
    let w' := fold_left filter_step es w in
    capture w' = Some (CaptureOptions (op_AND w') 100 (fst <$> base.filter (λ c, c.2 = true) (filters w'))) ∧
    fst <$> filters w' = fst <$> l) as H; [|by apply H].
  induction es as [|e es IH]; intros w Hf Hc; cbn [fold_left]; [done|]. apply IH; [|by destruct e].
  destruct e as [| |i b|b]; cbn; [| | |done].
  - rewrite <-Hf, <-list_fmap_compose. by apply list_fmap_ext.
  - rewrite <-Hf, <-list_fmap_compose. by apply list_fmap_ext.
  - by rewrite alter_types.
Qed.

(** A node that loses its routes keeps the old table: nothing is cleared when there is no
    protocol to show. *)
Example stale_routes :
  ipv4_update (λ _, None) (Some (Single OtherRouting)) [(str "10.0.0.0", str "0.0.0.0", str "lo", str "static", 0)] ≠ [].
Proof. done. Qed.
