(* ===== verification/VizConsole.v ===== *)
(** * The visualizer: the console

    From src/visualizer (ipython_view.py): colored text in the console, the history
    of commands, completion, the keys, and the round from a line to its output.
    IPython is a parameter; what happens to the text buffer is a list of calls, and
    the tasks for GLib's idle loop are a queue. *)
From Stdlib Require Import Ascii.
From S2P Require Export PyStr.
Open Scope Z_scope.

(** ** Colored text *)

Definition esc : ascii := "027"%char.
Definition drop_char (c : ascii) (s : pystr) : pystr :=
  match s with d :: s' => if decide (d = c) then s' else s | [] => [] end.
(** The lazy group and the [m] after it: up to the first [m], within a line. *)
Fixpoint up_to_m (s : pystr) : option (pystr * pystr) :=
  match s with
  | [] => None
  | c :: s =>
      if decide (c = "m"%char) then Some ([], s)
      else if decide (c = newline) then None
      else '(t, r) ← up_to_m s; Some (c :: t, r)
  end.
(** [color_pat] at the beginning of a string: the code, and what follows. *)
Definition color_match (s : pystr) : option (pystr * pystr) :=
  match drop_char "001" s with
  | e :: b :: s' =>
      if bool_decide (e = esc) && bool_decide (b = "["%char)
      then '(t, r) ← up_to_m s'; Some (t, drop_char "002" r)
      else None
  | _ => None
  end.
(** [color_pat.split]: the text before the first code, and each code with the text
    after it; [skip] characters belong to a match. *)
Fixpoint color_split (skip : nat) (s : pystr) : pystr * list (pystr * pystr) :=
  match s with
  | [] => ([], [])
  | c :: s' =>
      match skip with
      | S k => color_split k s'
      | O =>
          match color_match s with
          | Some (t, r) =>
              let '(p, ps) := color_split (length s' - length r) s' in ([], (t, p) :: ps)
          | None => let '(p, ps) := color_split 0 s' in (c :: p, ps)
          end
      end
  end.

(** ** The calls of the text buffer *)

Inductive call : Type :=
  | CreateMark | DeleteMark | ScrollOnscreen
  | Insert (text : pystr) | InsertTagged (text tag : pystr)
  (** [notouch] from the new mark, or from the start of the line to its end *)
  | NotouchNew | NotouchLine
  | MoveLineStart | DeleteLine | PlaceCursorEnd | InsertAtCursor (text : pystr).
Definition ANSI_COLORS : list pystr :=
  [str "0;30"; str "0;31"; str "0;32"; str "0;33"; str "0;34"; str "0;35"; str "0;36"; str "0;37";
   str "1;30"; str "1;31"; str "1;32"; str "1;33"; str "1;34"; str "1;35"; str "1;36"; str "1;37"].
(** The tags that [__init__] creates. *)
Definition tags : list pystr := ANSI_COLORS ++ [str "0"; str "notouch"].

Definition calls : Type := list call.
Section buffer.
(** What the buffer raises for a tag that it does not have. *)
Context (unknown_tag : exn).

Definition emit (c : call) : stm calls unit :=
  match c with
  | InsertTagged _ tag => if decide (tag ∈ tags) then st_modify (λ cs, cs ++ [c]) else st_raise unknown_tag
  | _ => st_modify (λ cs, cs ++ [c])
  end.
(** [segments.index(tag)]. *)
Fixpoint index (tag : pystr) (segments : list pystr) : option nat :=
  match segments with
  | [] => None
  | s :: segments => if decide (s = tag) then Some 0%nat else S <$> index tag segments
  end.
Fixpoint write_tags (segments ansi_tags : list pystr) : stm calls unit :=
  match ansi_tags with
  | [] => mret tt
  | tag :: ansi_tags =>
      i ← st_lift (res_of_option ValueError (index tag segments));
      text ← st_lift (res_of_option IndexError (segments !! S i));
      _ ← emit (InsertTagged text tag);
      write_tags (delete i segments) ansi_tags
  end.
Definition write_ (text : pystr) (editable : bool) : stm calls unit :=
  let '(segment, rest) := color_split 0 text in
  _ ← emit CreateMark;
  _ ← emit (Insert segment);
  _ ← write_tags (concat ((λ p, [p.1; p.2]) <$> rest)) (fst <$> rest);
  _ ← (if editable then mret tt else emit NotouchNew);
  _ ← emit DeleteMark;
  emit ScrollOnscreen.
Definition showPrompt_ (prompt : pystr) : stm calls unit :=
  _ ← write_ prompt false; emit MoveLineStart.
Definition changeLine_ (text : pystr) : stm calls unit :=
  _ ← emit DeleteLine; write_ text true.
(** [indent]: the spaces to begin the next line with, if any. *)
Definition showReturned_ (prompt text : pystr) (indent : option nat) : stm calls unit :=
  _ ← emit NotouchLine;
  _ ← write_ (newline :: text) false;
  _ ← (if decide (text = []) then mret tt else write_ [newline] false);
  _ ← showPrompt_ prompt;
  _ ← emit MoveLineStart;
  _ ← emit PlaceCursorEnd;
  match indent with Some n => emit (InsertAtCursor (replicate n " "%char)) | None => mret tt end.
End buffer.

(** ** Completion *)

(** [_commonPrefix]. *)
Fixpoint common_prefix (s t : pystr) : pystr :=
  match s, t with
  | a :: s, b :: t => if decide (a = b) then a :: common_prefix s t else []
  | _, _ => []
  end.
Definition complete_sep (c : ascii) : bool :=
  is_space c || ((28 <=? nat_of_ascii c)%nat && (nat_of_ascii c <=? 31)%nat) || bool_decide (c ∈ str "{}[]()").
(** The last piece of [complete_sep.split(line)]. *)
Definition last_word (line : pystr) : pystr :=
  fold_left (λ w c, if complete_sep c then [] else w ++ [c]) line [].
Definition complete (ip_complete : pystr → list pystr) (line : pystr) : pystr * list pystr :=
  let word := last_word line in
  if decide (word = []) then (line, [])
  else
    match ip_complete word with
    | [] => (line, [])
    | p :: ps =>
        let prefix := fold_left common_prefix ps p in
        let prefix := if decide (prefix = []) then match last line with Some c => [c] | None => [] end else prefix in
        (take (length line - length word) line ++ prefix, p :: ps)
    end.

(** ** The cursor *)

(** The keys that [onKeyPress] tells apart: Home, with Control or Alt and with Shift;
    Left, when the place before the cursor can be edited or not; keys with a string. *)
Inductive key : Type := Home (ctrl shift : bool) | LeftArrow (editable : bool) | Text | OtherKey.
(** The marks [insert] and [selection_bound]; [true] when the key is done with. *)
Record marks : Type := Marks { insert_mark : Z; selection_mark : Z }.
Definition onKeyPress (start : Z) (k : key) (m : marks) : marks * bool :=
  match k with
  | Home true _ => (m, false)
  | Home false true => (Marks start (selection_mark m), true)
  | Home false false => (Marks start start, true)
  | LeftArrow editable => (m, negb editable)
  | OtherKey => (m, false)
  | Text =>
      if (start <=? insert_mark m) && (start <=? selection_mark m) then (m, false)
      else if (insert_mark m <? start) && (selection_mark m <? start) then (Marks start start, false)
      else if insert_mark m <? selection_mark m then (Marks start (selection_mark m), false)
      else if selection_mark m <? insert_mark m then (Marks (insert_mark m) start, false)
      else (m, false)
  end.

(** ** [StringIO] *)

Record stringio : Type := StringIO { content : pystr; position : nat }.
(** Text written after the end comes after null characters. *)
Definition sio_write (s : pystr) (f : stringio) : stringio :=
  match s with
  | [] => f
  | _ => let old := content f ++ replicate (position f - length (content f)) "000"%char in
         StringIO (take (position f) old ++ s ++ drop (position f + length s) old) (position f + length s)
  end.
Definition sio_truncate0 (f : stringio) : stringio := StringIO [] (position f).
Definition sio_seek0 (f : stringio) : stringio := StringIO (content f) 0.
(** [strip] with an end of line. *)
Fixpoint lstrip_nl (s : pystr) : pystr :=
  match s with c :: s' => if decide (c = newline) then lstrip_nl s' else s | [] => [] end.
Definition strip_nl (s : pystr) : pystr := rev (lstrip_nl (rev (lstrip_nl s))).

(** ** The shell *)

(** The tasks that [GObject.idle_add] queues. *)
Inductive task : Type :=
  | Write (text : pystr) (editable : bool) | ShowPrompt (prompt : pystr)
  | ChangeLine (text : pystr) | ShowReturned (text : pystr).

Section shell.
(** IPython: a line that is pushed gives a new state and whether more lines are accepted;
    running the cell gives a new state and what it writes, as does the message of a
    KeyboardInterrupt with the reset of the splitter; whether it indents; its prompts,
    its list [In] and its completions; the indentation of the next line. *)
Context {P : Type} (push : P → pystr → P * bool) (run_cell reset : P → P * pystr) (autoindent : bool)
  (prompts : P → bool → pystr) (history : P → list pystr) (ip_complete : P → pystr → list pystr)
  (indent_spaces : P → nat).

Record shell : Type := Shell {
  ip : P; iter_more : bool; history_level : Z; interrupt : bool; prompt : pystr;
  rl_do_indent : bool; cout : stringio; idle : list task }.
Definition add_idle (ts : list task) (s : shell) : shell :=
  Shell (ip s) (iter_more s) (history_level s) (interrupt s) (prompt s) (rl_do_indent s) (cout s) (idle s ++ ts).
Definition set_history_level (n : Z) (s : shell) : shell :=
  Shell (ip s) (iter_more s) n (interrupt s) (prompt s) (rl_do_indent s) (cout s) (idle s).
Definition set_interrupt (b : bool) (s : shell) : shell :=
  Shell (ip s) (iter_more s) (history_level s) b (prompt s) (rl_do_indent s) (cout s) (idle s).
Definition set_cout (f : stringio → stringio) (s : shell) : shell :=
  Shell (ip s) (iter_more s) (history_level s) (interrupt s) (prompt s) (rl_do_indent s) (f (cout s)) (idle s).

(** [execute]: [current] is what [getCurrentLine] gives. *)
Definition execute (current : pystr) (s : shell) : shell :=
  let indent := if iter_more s && autoindent then true else rl_do_indent s in
  if interrupt s then
    let '(p, out) := reset (ip s) in
    Shell p (iter_more s) 0 false (prompts (ip s) (iter_more s)) indent (sio_write out (cout s)) (idle s)
  else
    let '(p, more) := push (ip s) current in
    let prompt := prompts p more in
    if more then Shell p true 0 false prompt true (cout s) (idle s)
    else
      let '(p, out) := run_cell p in
      Shell p false 0 false prompt false (sio_write out (cout s)) (idle s).
Definition processLine (current : pystr) (s : shell) : shell :=
  let s := execute current s in
  let rv := strip_nl (content (cout s)) in
  set_cout (λ f, sio_seek0 (sio_truncate0 f)) (add_idle [ShowReturned rv] s).
(** [IPythonView.__init__], where IPython may have written a banner: the stream is not
    rewound. *)
Definition start_shell (banner : pystr) (p : P) : shell :=
  let s := execute [] (Shell p false 0 false [] false (sio_write banner (StringIO [] 0)) []) in
  let prompt := prompts (ip s) false in
  add_idle [ShowPrompt prompt]
    (Shell (ip s) (iter_more s) (history_level s) (interrupt s) prompt (rl_do_indent s) (sio_truncate0 (cout s)) (idle s)).

(** ** History *)

(** [_getHistory]: the list is indexed from its end. *)
Definition getHistory (s : shell) : pystr :=
  match py_get (history (ip s)) (history_level s) with Some c => strip_nl c | None => [] end.
Definition historyBack (s : shell) : shell * pystr :=
  let s1 := set_history_level (history_level s - 1) s in
  let s1 := if decide (getHistory s1 = []) then set_history_level (history_level s1 + 1) s1 else s1 in
  (s1, getHistory s1).
Definition historyForward (s : shell) : shell * pystr :=
  let s := if history_level s <? 0 then set_history_level (history_level s + 1) s else s in
  (s, getHistory s).

(** ** Keys *)

Inductive shell_key : Type := ControlC | Return_ | Up | Down | Tab | AnyKey.
(** [onKeyPressExtend] with its result; Python's [None] is [false]. *)
Definition onKeyPressExtend (k : shell_key) (current : pystr) (s : shell) : shell * bool :=
  match k with
  | ControlC => (processLine current (set_interrupt true s), true)
  | Return_ => (processLine current s, true)
  | Up => let '(s, line) := historyBack s in (add_idle [ChangeLine line] s, true)
  | Down => let '(s, line) := historyForward s in (add_idle [ChangeLine line] s, true)
  | Tab =>
      if decide (strip current = []) then (s, false)
      else
        let '(completed, possibilities) := complete (ip_complete (ip s)) current in
        let s := if (1 <? length possibilities)%nat
                 then add_idle (Write [newline] false :: ((λ symbol, Write (symbol ++ [newline]) false) <$> possibilities)
                                ++ [ShowPrompt (prompt s)]) s
                 else s in
        (add_idle [ChangeLine completed] s, true)
  | AnyKey => (s, false)
  end.

(** The idle loop runs the tasks in their order. *)
Definition run_task (unknown_tag : exn) (s : shell) (t : task) : stm calls unit :=
  match t with
  | Write text editable => write_ unknown_tag text editable
  | ShowPrompt p => showPrompt_ unknown_tag p
  | ChangeLine text => changeLine_ unknown_tag text
  | ShowReturned text =>
      showReturned_ unknown_tag (prompt s) text (if rl_do_indent s then Some (indent_spaces (ip s)) else None)
  end.
End shell.

(** ** Colored text: facts *)

Lemma color_split_skip s : ∀ k, color_split k s = color_split 0 (drop k s).
Proof. induction s as [|c s IH]; intros [|k]; try done. apply IH. Qed.
Lemma up_to_m_suffix s t r : up_to_m s = Some (t, r) → s = t ++ "m"%char :: r.
Proof.
  revert t r. induction s as [|c s IH]; intros t r; cbn [up_to_m]; [done|].
  case_decide as Hm; [intros [= <- <-]; by subst|]. case_decide; [done|].
  destruct (up_to_m s) as [[u v]|] eqn:E; cbn; [|done]. intros [= <- <-]. by rewrite (IH u v).
Qed.
Lemma drop_char_suffix c s : ∃ u, s = u ++ drop_char c s.
Proof. destruct s as [|d s]; [by exists []|]. cbn. case_decide; [by exists [d]|by exists []]. Qed.
Lemma color_match_suffix s t r : color_match s = Some (t, r) → ∃ c u, s = c :: u ++ r.
Proof.
  unfold color_match. destruct (drop_char_suffix "001" s) as [u Hu].
  destruct (drop_char "001" s) as [|e [|b s']]; [done|done|]. destruct (_ && _); [|done].
  destruct (up_to_m s') as [[w v]|] eqn:E; cbn; [|done]. intros [= <- <-]. apply up_to_m_suffix in E as ->.
  destruct (drop_char_suffix "002" v) as [x Hx]. rewrite Hu. destruct u as [|c u]; cbn.
  - exists e, (b :: w ++ "m"%char :: x). cbn. rewrite <-app_assoc. cbn. by rewrite <-Hx.
  - exists c, (u ++ e :: b :: w ++ "m"%char :: x). rewrite <-app_assoc. cbn. rewrite <-app_assoc. cbn. by rewrite <-Hx.
Qed.
Lemma color_split_match s t r : color_match s = Some (t, r) →
  color_split 0 s = ([], (t, (color_split 0 r).1) :: (color_split 0 r).2).
Proof.
  intros H. destruct (color_match_suffix s t r H) as (c & u & ->). cbn [color_split]. rewrite H, color_split_skip.
  replace (drop (length (u ++ r) - length r) (u ++ r)) with r; [by destruct (color_split 0 r)|].
  rewrite length_app. replace (length u + length r - length r)%nat with (length u) by lia. by rewrite drop_app_length.
Qed.

(** A piece of text without escapes, and a code. *)
Definition no_escape (p : pystr) : Prop := Forall (λ c, c ≠ esc ∧ c ≠ "001"%char ∧ c ≠ "002"%char) p.
Definition color_code (t : pystr) : pystr := esc :: "["%char :: t ++ str "m".
Definition colored (p : pystr) (ps : list (pystr * pystr)) : pystr :=
  p ++ concat ((λ q, color_code q.1 ++ q.2) <$> ps).
Definition is_code (t : pystr) : Prop := Forall (λ c, c ≠ "m"%char ∧ c ≠ newline) t.
Lemma up_to_m_code t r : is_code t → up_to_m (t ++ "m"%char :: r) = Some (t, r).
Proof.
  induction 1 as [|c t [Hm Hn] Ht IH]; cbn; [done|]. rewrite !decide_False by done. by rewrite IH.
Qed.
Lemma color_split_piece p s : no_escape p →
  color_split 0 (p ++ s) = (p ++ (color_split 0 s).1, (color_split 0 s).2).
Proof.
  induction 1 as [|c p (H1 & H2 & H3) Hp IH]; [cbn [app]; by destruct (color_split 0 s)|]. cbn [app color_split].
  assert (color_match (c :: p ++ s) = None) as ->.
  { unfold color_match. cbn [drop_char]. rewrite decide_False by done. destruct (p ++ s); [done|].
    by rewrite bool_decide_false. }
  by rewrite IH.
Qed.
Lemma color_match_code t p ps : is_code t → no_escape p →
  color_match (color_code t ++ colored p ps) = Some (t, colored p ps).
Proof.
  intros Ht Hp. unfold color_match, color_code. cbn [app drop_char]. rewrite decide_False by done.
  rewrite !bool_decide_true by done. cbn [andb]. rewrite <-app_assoc. cbn [app str String.list_ascii_of_string].
  rewrite up_to_m_code by done. cbn [mbind option_bind]. f_equal. f_equal.
  unfold colored. destruct Hp as [|c p (_ & _ & Hc) Hp]; cbn [app drop_char].
  - destruct ps as [|q ps]; [done|]. cbn [fmap list_fmap concat color_code app drop_char]. by rewrite decide_False.
  - by rewrite decide_False.
Qed.
Lemma color_split_colored ps : ∀ p, no_escape p → Forall (λ q, is_code q.1 ∧ no_escape q.2) ps →
  color_split 0 (colored p ps) = (p, ps).
Proof.
  induction ps as [|[t q] ps IH]; intros p Hp Hps.
  - unfold colored. rewrite color_split_piece by done. cbn. by rewrite app_nil_r.
  - apply Forall_cons in Hps as [[Ht Hq] Hps]. cbn in Ht, Hq. unfold colored. rewrite color_split_piece by done.
    cbn [fmap list_fmap concat fst snd]. rewrite <-app_assoc. change (q ++ concat _) with (colored q ps).
    rewrite (color_split_match _ t (colored q ps)) by (by apply color_match_code). rewrite IH by done.
    cbn. by rewrite app_nil_r.
Qed.

Section buffer_facts.
Context (unknown_tag : exn).
Lemma emit_ok c cs : (∀ text tag, c = InsertTagged text tag → tag ∈ tags) → emit unknown_tag c cs = (Ok tt, cs ++ [c]).
Proof. intros H. destruct c; try done. cbn. by rewrite decide_True by (by eapply H). Qed.
Lemma index_after tag done rest : tag ∉ done → index tag (done ++ tag :: rest) = Some (length done).
Proof.
  induction done as [|s done IH]; intros Hd; cbn; [by rewrite decide_True|].
  apply not_elem_of_cons in Hd as [? ?]. rewrite decide_False by done. by rewrite IH.
Qed.
(** [index] takes the code, when no text before it is the same. *)
Lemma write_tags_ok ps : ∀ done cs,
  Forall (λ q, q.1 ∈ tags ∧ q.1 ∉ done) ps → StronglySorted (λ a b, a.2 ≠ b.1) ps →
  write_tags unknown_tag (done ++ concat ((λ p, [p.1; p.2]) <$> ps)) (fst <$> ps) cs
  = (Ok tt, cs ++ ((λ q, InsertTagged q.2 q.1) <$> ps)).
Proof.
  induction ps as [|[t p] ps IH]; intros done cs Hps Hs; cbn [fmap list_fmap write_tags concat].
  - by rewrite app_nil_r.
  - apply Forall_cons in Hps as [[Ht Hd] Hps]. cbn in Ht, Hd. apply StronglySorted_inv in Hs as [Hs Hp].
    cbn [fst snd app]. unfold mbind, stm_bind. rewrite index_after by done. cbn [res_of_option st_lift].
    rewrite lookup_app_r by lia. replace (S (length done) - length done)%nat with 1%nat by lia. cbn [lookup list_lookup res_of_option].
    rewrite emit_ok by (by intros ? ? [= <- <-]).
    rewrite delete_middle. replace (done ++ p :: concat ((λ p, [p.1; p.2]) <$> ps))
      with ((done ++ [p]) ++ concat ((λ p, [p.1; p.2]) <$> ps)) by (by rewrite <-app_assoc).
    rewrite IH; [by rewrite <-app_assoc| |done]. rewrite Forall_forall in Hps, Hp |- *. intros q Hq.
    destruct (Hps q Hq) as [H1 H2]. split; [done|]. rewrite not_elem_of_app, list_elem_of_singleton.
    split; [done|]. intros E. by apply (Hp q Hq).
Qed.

(** Text in colors is written piece by piece, each with the tag of its code, and is
    not editable unless asked for, when no piece is the same as a code after it. *)
Theorem write_colored (p : pystr) (ps : list (pystr * pystr)) (editable : bool) (cs : calls) :
  no_escape p → Forall (λ q, is_code q.1 ∧ q.1 ∈ tags ∧ no_escape q.2) ps → StronglySorted (λ a b, a.2 ≠ b.1) ps →
  write_ unknown_tag (colored p ps) editable cs =
    (Ok tt, cs ++ [CreateMark; Insert p] ++ ((λ q, InsertTagged q.2 q.1) <$> ps)
                 ++ (if editable then [] else [NotouchNew]) ++ [DeleteMark; ScrollOnscreen]).
Proof.
  intros Hp Hps Hs. unfold write_. rewrite color_split_colored; [|done|eapply Forall_impl; [exact Hps|intros q (H1 & _ & H2); by split]].
  unfold mbind, stm_bind. rewrite !emit_ok by done. pose proof (write_tags_ok ps [] ((cs ++ [CreateMark]) ++ [Insert p])) as Hw.
  cbn [app] in Hw. rewrite Hw; [|eapply Forall_impl; [exact Hps|intros q (? & ? & ?); by split; [|apply not_elem_of_nil]]|done].
  destruct editable; unfold mret, stm_ret; cbn [app]; rewrite !emit_ok by done; by rewrite <-!app_assoc.
Qed.
End buffer_facts.
(** A prompt in three pieces. *)
Definition some_prompt : list (pystr * pystr) :=
  [(str "0;32", str "In ["); (str "1;32", str "3"); (str "0;32", str "]: "); (str "0", [])].
Lemma write_colored_witness :
  write_ ValueError (colored (str "a") some_prompt) false [] =
    (Ok tt, [CreateMark; Insert (str "a"); InsertTagged (str "In [") (str "0;32"); InsertTagged (str "3") (str "1;32");
             InsertTagged (str "]: ") (str "0;32"); InsertTagged [] (str "0"); NotouchNew; DeleteMark; ScrollOnscreen]).
Proof.
  apply (write_colored ValueError (str "a") some_prompt false []).
  - unfold no_escape. by_decision.
  - unfold is_code, no_escape. by_decision.
  - unfold some_prompt. repeat first [apply SSorted_nil | apply SSorted_cons | apply List.Forall_cons | apply List.Forall_nil | discriminate].
Defined.
(** A piece that is the same as the next code is taken for it: the code is printed, and
    what follows it is lost. *)
Example piece_like_code :
  write_ ValueError (colored [] [(str "0;31", str "0;32"); (str "0;32", str "done")]) true [] =
    (Ok tt, [CreateMark; Insert []; InsertTagged (str "0;32") (str "0;31"); InsertTagged (str "0;32") (str "0;32");
             DeleteMark; ScrollOnscreen]).
Proof. vm_compute. reflexivity. Qed.
(** A bold color has no tag: the text after it is not written and stays editable. *)
Example bold_color : (write_ ValueError (colored (str "a") [(str "01;31", str "b")]) false []) = (Raise ValueError, [CreateMark; Insert (str "a")]).
Proof. vm_compute. reflexivity. Qed.

(** ** Completion: facts *)

Lemma common_prefix_l s t : common_prefix s t `prefix_of` s.
Proof.
  revert t. induction s as [|a s IH]; intros [|b t]; cbn [common_prefix]; try apply prefix_nil.
  case_decide; [|apply prefix_nil]. apply prefix_cons, IH.
Qed.
Lemma common_prefix_r s t : common_prefix s t `prefix_of` t.
Proof.
  revert t. induction s as [|a s IH]; intros [|b t]; cbn [common_prefix]; try apply prefix_nil.
  case_decide as E; [|apply prefix_nil]. subst. apply prefix_cons, IH.
Qed.
Lemma common_prefix_greatest u s t : u `prefix_of` s → u `prefix_of` t → u `prefix_of` common_prefix s t.
Proof.
  revert s t. induction u as [|c u IH]; intros s t Hs Ht; [apply prefix_nil|].
  destruct s as [|a s]; [by apply prefix_nil_not in Hs|]. destruct t as [|b t]; [by apply prefix_nil_not in Ht|].
  pose proof (prefix_cons_inv_1 _ _ _ _ Hs) as ->. pose proof (prefix_cons_inv_1 _ _ _ _ Ht) as ->.
  apply prefix_cons_inv_2 in Hs, Ht. cbn [common_prefix]. rewrite decide_True by done. apply prefix_cons. by apply IH.
Qed.
Lemma common_prefix_fold ps : ∀ p, let q := fold_left common_prefix ps p in
  (∀ x, x ∈ p :: ps → q `prefix_of` x) ∧ (∀ u, (∀ x, x ∈ p :: ps → u `prefix_of` x) → u `prefix_of` q).
Proof.
  induction ps as [|x ps IH]; intros p; cbn [fold_left].
  - split; [intros y ->%list_elem_of_singleton; done|]. intros u Hu. apply Hu. by left.
  - destruct (IH (common_prefix p x)) as [H1 H2]. split.
    + intros y [->|[->|Hy]%elem_of_cons]%elem_of_cons.
      * etrans; [apply H1; by left|apply common_prefix_l].
      * etrans; [apply H1; by left|apply common_prefix_r].
      * apply H1. by right.
    + intros u Hu. apply H2. intros y [->|Hy]%elem_of_cons; [|apply Hu; by do 2 right].
      apply common_prefix_greatest; apply Hu; [by left|right; by left].
Qed.
Lemma last_word_snoc line c : last_word (line ++ [c]) = if complete_sep c then [] else last_word line ++ [c].
Proof. unfold last_word. by rewrite fold_left_app. Qed.
Lemma last_word_suffix line : ∃ h, line = h ++ last_word line.
Proof.
  induction line as [|c line [h IH]] using rev_ind; [by exists []|]. rewrite last_word_snoc.
  destruct (complete_sep c); [exists (line ++ [c]); by rewrite app_nil_r|]. exists h. rewrite app_assoc. by rewrite <-IH.
Qed.

(** When every possibility begins with the word, the line is only extended, and its
    last word becomes the longest text that all possibilities begin with. *)
Theorem complete_extends (ip_complete : pystr → list pystr) (line : pystr) :
  let word := last_word line in
  word ≠ [] → ip_complete word ≠ [] → (∀ x, x ∈ ip_complete word → word `prefix_of` x) →
  ∃ h q, line = h ++ word ∧ complete ip_complete line = (h ++ q, ip_complete word) ∧ word `prefix_of` q ∧
    (∀ x, x ∈ ip_complete word → q `prefix_of` x) ∧
    (∀ u, (∀ x, x ∈ ip_complete word → u `prefix_of` x) → u `prefix_of` q).
Proof.
  intros word Hw Hne Hall. destruct (last_word_suffix line) as [h Hh]. fold word in Hh.
  unfold complete. fold word. rewrite decide_False by done. destruct (ip_complete word) as [|p ps]; [done|].
  destruct (common_prefix_fold ps p) as [H1 H2]. set (q := fold_left common_prefix ps p) in *.
  assert (word `prefix_of` q) as Hq by (by apply H2). rewrite decide_False.
  2:{ intros E. rewrite E in Hq. apply prefix_nil_inv in Hq. done. }
  exists h, q. split_and!; [done| |done|done|done].
  rewrite Hh, length_app. replace (length h + length word - length word)%nat with (length h) by lia.
  by rewrite take_app_length.
Qed.
Lemma complete_extends_witness :
  ∃ h q, str "x = (pr" = h ++ str "pr" ∧
    complete (λ _, [str "print"; str "printf"; str "prius"]) (str "x = (pr") = (h ++ q, [str "print"; str "printf"; str "prius"]) ∧
    q `prefix_of` str "prius".
Proof.
  destruct (complete_extends (λ _, [str "print"; str "printf"; str "prius"]) (str "x = (pr"))
    as (h & q & H1 & H2 & _ & H3 & _); [by_decision|by_decision| |].
  - intros x Hx. revert x Hx. apply Forall_forall. by_decision.
  - exists h, q. split; [exact H1|]. split; [exact H2|]. apply H3. by_decision.
Defined.
(** Possibilities with nothing in common, as [%cd] and [cd]: the word is replaced by its
    last character. *)
Example completion_loses : fst (complete (λ _, [str "%cd"; str "cd"]) (str "x cd")) = str "x d".
Proof. vm_compute. reflexivity. Qed.

(** ** The cursor: facts *)

(** Text is only typed into the command line, and Home does not leave it. *)
Lemma typed_in_line start k m : k ≠ OtherKey → (∀ c s, k = Home c s → c = false ∧ s = false) → (∀ e, k ≠ LeftArrow e) →
  let m' := (onKeyPress start k m).1 in start <= insert_mark m' ∧ start <= selection_mark m'.
Proof.
  intros Ho Hh Hl. destruct k as [c s|e| |]; try done.
  - destruct (Hh c s eq_refl) as [-> ->]. cbn. lia.
  - by destruct (Hl e).
  - destruct m as [i s]. unfold onKeyPress. cbn [insert_mark selection_mark].
    destruct (Z.leb_spec start i), (Z.leb_spec start s), (Z.ltb_spec i start), (Z.ltb_spec s start), (Z.ltb_spec i s), (Z.ltb_spec s i);
      cbn; lia.
Qed.

(** ** The shell: facts *)

Section shell_facts.
Context {P : Type} (push : P → pystr → P * bool) (run_cell reset : P → P * pystr) (autoindent : bool)
  (prompts : P → bool → pystr) (history : P → list pystr) (ip_complete : P → pystr → list pystr).
Local Abbreviation on_key := (onKeyPressExtend push run_cell reset autoindent prompts history ip_complete).
Local Abbreviation process := (processLine push run_cell reset autoindent prompts).
Local Abbreviation start := (start_shell push run_cell reset autoindent prompts).

(** Walking through the history: at level [- n] the [n]-th last command is shown. *)
Definition walk (cmds : list pystr) (up : bool) (level : Z) : Z :=
  if up then Z.max (level - 1) (- Z.of_nat (length cmds)) else Z.min (level + 1) 0.
Definition shown_at (cmds : list pystr) (level : Z) : pystr :=
  if decide (level = 0) then [] else default [] (strip_nl <$> (cmds !! Z.to_nat (Z.of_nat (length cmds) + level))).
Lemma getHistory_at cmds (s : shell) : history (ip s) = [] :: cmds →
  - Z.of_nat (length cmds) - 1 <= history_level s <= 0 →
  getHistory history s = if decide (history_level s = - Z.of_nat (length cmds) - 1) then [] else shown_at cmds (history_level s).
Proof.
  intros Hh Hl. unfold getHistory, shown_at. rewrite Hh. destruct (Z.eq_dec (history_level s) 0) as [E|E].
  { rewrite E. rewrite decide_False, decide_True by lia. done. }
  rewrite (decide_False (P := history_level s = 0)) by done.
  assert (py_get ([] :: cmds) (history_level s) = ([] :: cmds) !! Z.to_nat (history_level s + Z.of_nat (S (length cmds)))) as ->.
  { unfold py_get, py_index. cbn [length]. destruct (Z.leb_spec 0 (history_level s)); [lia|].
    destruct (Z.ltb_spec (history_level s) 0); [|lia].
    destruct (Z.leb_spec (- Z.of_nat (S (length cmds))) (history_level s)); [done|lia]. }
  case_decide as D.
  - rewrite D. replace (- Z.of_nat (length cmds) - 1 + Z.of_nat (S (length cmds))) with 0 by lia. done.
  - replace (Z.to_nat (history_level s + Z.of_nat (S (length cmds)))) with (S (Z.to_nat (Z.of_nat (length cmds) + history_level s))) by lia.
    cbn [lookup list_lookup]. by destruct (cmds !! _).
Qed.
Lemma shown_at_nonempty cmds level : Forall (λ c, strip_nl c ≠ []) cmds →
  - Z.of_nat (length cmds) <= level < 0 → shown_at cmds level ≠ [].
Proof.
  intros Hc Hl. unfold shown_at. rewrite decide_False by lia.
  destruct (lookup_lt_is_Some_2 cmds (Z.to_nat (Z.of_nat (length cmds) + level))) as [c Hl2]; [lia|].
  rewrite Hl2. cbn. exact (Forall_lookup_1 _ _ _ _ Hc Hl2).
Qed.

(** The entries that a sequence of presses shows, [true] for Up. *)
Fixpoint entries (cmds : list pystr) (level : Z) (ups : list bool) : list pystr :=
  match ups with
  | [] => []
  | up :: ups => shown_at cmds (walk cmds up level) :: entries cmds (walk cmds up level) ups
  end.
Definition arrow (up : bool) : shell_key := if up then Up else Down.

Lemma arrow_step cmds up cur (s : shell) : history (ip s) = [] :: cmds → Forall (λ c, strip_nl c ≠ []) cmds →
  - Z.of_nat (length cmds) <= history_level s <= 0 →
  on_key (arrow up) cur s =
    (add_idle [ChangeLine (shown_at cmds (walk cmds up (history_level s)))]
       (set_history_level (walk cmds up (history_level s)) s), true).
Proof.
  intros Hh Hc Hl. destruct up; unfold walk; cbn [arrow onKeyPressExtend].
  - unfold historyBack. set (s1 := set_history_level (history_level s - 1) s).
    assert (getHistory history s1 = if decide (history_level s - 1 = - Z.of_nat (length cmds) - 1) then [] else shown_at cmds (history_level s - 1)) as H1.
    { apply (getHistory_at cmds s1 Hh). cbn. lia. }
    destruct (decide (history_level s - 1 = - Z.of_nat (length cmds) - 1)) as [D|D].
    + rewrite H1, decide_True by done. replace (Z.max (history_level s - 1) (- Z.of_nat (length cmds))) with (history_level s) by lia.
      cbn [s1 history_level set_history_level]. replace (history_level s - 1 + 1) with (history_level s) by lia.
      f_equal. f_equal. f_equal. f_equal. rewrite (getHistory_at cmds) by (try exact Hh; cbn; lia). cbn. by rewrite decide_False by lia.
    + rewrite decide_False by (rewrite H1; apply shown_at_nonempty; [done|lia]). rewrite H1.
      replace (Z.max (history_level s - 1) (- Z.of_nat (length cmds))) with (history_level s - 1) by lia. done.
  - unfold historyForward. destruct (Z.ltb_spec (history_level s) 0).
    + replace (Z.min (history_level s + 1) 0) with (history_level s + 1) by lia.
      rewrite (getHistory_at cmds) by (try exact Hh; cbn; lia). cbn [history_level set_history_level]. by rewrite decide_False by lia.
    + replace (Z.min (history_level s + 1) 0) with (history_level s) by lia.
      rewrite (getHistory_at cmds) by (try exact Hh; lia). rewrite decide_False by lia. by destruct s.
Qed.

(** C17: after any commands, none of which is blank, Up and Down in any order walk through
    them and show the one at the level they have reached, never leaving the first and
    never going past the empty line. *)
Theorem history_walked (cmds : list pystr) (ups : list bool) (cur : pystr) : ∀ s : shell,
  history (ip s) = [] :: cmds → Forall (λ c, strip_nl c ≠ []) cmds → - Z.of_nat (length cmds) <= history_level s <= 0 →
  let s' := fold_left (λ s up, (on_key (arrow up) cur s).1) ups s in
  idle s' = idle s ++ (ChangeLine <$> entries cmds (history_level s) ups) ∧
  - Z.of_nat (length cmds) <= history_level s' <= 0 ∧ history_level s' = fold_left (λ l up, walk cmds up l) ups (history_level s).
Proof.
  induction ups as [|up ups IH]; intros s Hh Hc Hl; cbn [fold_left entries fmap list_fmap]; [by rewrite app_nil_r|].
  rewrite (arrow_step cmds up cur s) by done. cbn [fst].
  set (s1 := add_idle _ _). destruct (IH s1) as (H1 & H2 & H3); [exact Hh|done| |].
  - cbn. unfold walk. destruct up; lia.
  - split_and!; [|exact (proj1 H2)|exact (proj2 H2)|exact H3]. rewrite H1. cbn. by rewrite <-app_assoc.
Qed.

(** The stream is empty between the lines; it is rewound after the first. *)
Definition stream_ready (n : nat) (s : @shell P) : Prop := cout s = StringIO [] n ∧ interrupt s = false.
Lemma sio_write_ready out n :
  content (sio_write out (StringIO [] n)) = if decide (out = []) then [] else replicate n "000"%char ++ out.
Proof.
  destruct out as [|c out]; [done|]. rewrite decide_False by done. unfold sio_write. cbn [content position length].
  rewrite Nat.sub_0_r. cbn [app]. rewrite take_ge by (rewrite length_replicate; lia).
  rewrite drop_ge by (rewrite length_replicate; lia). by rewrite app_nil_r.
Qed.

(** What a line gives: the state of IPython, the output and whether more lines follow. *)
Definition line_output (p : P) (line : pystr) : P * pystr * bool :=
  let '(p, more) := push p line in
  if more then (p, [], true) else let '(p, out) := run_cell p in (p, out, false).

(** Return hands the line to IPython and shows what it wrote, without the ends of
    line around it, then leaves an empty stream; only the first line's output comes
    after as many null characters as were written when the console was opened.  The
    prompt is the one of before the line was run. *)
Theorem line_shown (line : pystr) (n : nat) (s : shell) : stream_ready n s →
  let '(p, out, more) := line_output (ip s) line in
  let s' := (on_key Return_ line s).1 in
  idle s' = idle s ++ [ShowReturned (strip_nl (if decide (out = []) then [] else replicate n "000"%char ++ out))] ∧
  ip s' = p ∧ iter_more s' = more ∧ rl_do_indent s' = more ∧ prompt s' = prompts (push (ip s) line).1 more ∧
  history_level s' = 0 ∧ stream_ready 0 s'.
Proof.
  intros [Hc Hi]. unfold line_output. cbn [onKeyPressExtend fst]. unfold processLine, execute. rewrite Hi, Hc.
  destruct (push (ip s) line) as [p [|]].
  - cbn. unfold stream_ready. cbn. done.
  - destruct (run_cell p) as [p' out]. cbn [idle ip iter_more rl_do_indent prompt history_level set_cout add_idle cout].
    rewrite sio_write_ready. done.
Qed.
(** Ctrl-C leaves the line to IPython's message; the prompt stays that of a continuation. *)
Lemma control_c (line : pystr) (n : nat) (s : shell) : stream_ready n s →
  let '(p, out) := reset (ip s) in
  let s' := (on_key ControlC line s).1 in
  idle s' = idle s ++ [ShowReturned (strip_nl (if decide (out = []) then [] else replicate n "000"%char ++ out))] ∧
  ip s' = p ∧ iter_more s' = iter_more s ∧ prompt s' = prompts (ip s) (iter_more s) ∧ stream_ready 0 s'.
Proof.
  intros [Hc Hi]. cbn [onKeyPressExtend fst]. unfold processLine, execute. cbn [interrupt set_interrupt ip iter_more cout].
  rewrite Hc. destruct (reset (ip s)) as [p out]. cbn [idle ip iter_more rl_do_indent prompt history_level set_cout add_idle cout set_interrupt].
  rewrite sio_write_ready. done.
Qed.
(** The console begins with the prompt and an empty stream. *)
Lemma console_started banner p : ∃ n, stream_ready n (start banner p) ∧ idle (start banner p) = [ShowPrompt (prompt (start banner p))].
Proof.
  unfold start_shell, execute. cbn [interrupt]. destruct (push _ []) as [q [|]]; cbn -[sio_write].
  - by exists (position (sio_write banner (StringIO [] 0))).
  - destruct (run_cell q) as [q' out]. by eexists.
Qed.
End shell_facts.

(** ** A small shell *)

(** The commands so far, with the empty one before them, and the lines of a cell that is
    not complete; a line that ends with a colon begins one, an empty line ends it. *)
Definition toy : Type := list pystr * list pystr.
Definition toy_push (p : toy) (line : pystr) : toy * bool :=
  let more := if decide (p.2 = []) then bool_decide (last line = Some ":"%char) else negb (bool_decide (line = [])) in
  ((p.1, p.2 ++ [line]), more).
Definition toy_run (p : toy) : toy * pystr := ((p.1 ++ [concat p.2], []), str "ran " ++ concat p.2 ++ [newline]).
Definition toy_reset (p : toy) : toy * pystr := ((p.1, []), str "KeyboardInterrupt").
Definition toy_prompts (p : toy) (more : bool) : pystr :=
  if more then str "...: " else str "In [" ++ str_of_Z (Z.of_nat (length p.1)) ++ str "]: ".
Definition toy_key : shell_key → pystr → @shell toy → @shell toy * bool :=
  onKeyPressExtend toy_push toy_run toy_reset true toy_prompts fst (λ _ _, []).
Definition toy_start : @shell toy := Shell ([[]], []) false 0 false (str "In [1]: ") false (StringIO [] 0) [].
Definition typed (lines : list pystr) : @shell toy := fold_left (λ s line, (toy_key Return_ line s).1) lines toy_start.

Lemma line_shown_witness : idle (toy_key Return_ (str "x") toy_start).1 = [ShowReturned (str "ran x")].
Proof.
  pose proof (line_shown toy_push toy_run toy_reset true toy_prompts fst (λ _ _, []) (str "x") 0 toy_start (conj eq_refl eq_refl)) as H.
  vm_compute in H. destruct H as [H _]. exact H.
Defined.
Lemma history_walked_witness :
  idle (fold_left (λ s up, (toy_key (if up : bool then Up else Down) [] s).1) [true; true; true; false] (typed [str "a"; str "b"])) =
    idle (typed [str "a"; str "b"]) ++ [ChangeLine (str "b"); ChangeLine (str "a"); ChangeLine (str "a"); ChangeLine (str "b")].
Proof.
  destruct (history_walked toy_push toy_run toy_reset true toy_prompts fst (λ _ _, []) [str "a"; str "b"]
    [true; true; true; false] [] (typed [str "a"; str "b"])) as (H & _).
  - vm_compute. reflexivity.
  - by_decision.
  - vm_compute. by split.
  - exact H.
Defined.
(** The second command is typed at the prompt of the first again. *)
Example prompt_lags : prompt <$> [toy_start; typed [str "a"]; typed [str "a"; str "b"]] = [str "In [1]: "; str "In [1]: "; str "In [2]: "].
Proof. vm_compute. reflexivity. Qed.
(** After Ctrl-C in a cell the prompt of a continuation stays. *)
Example continuation_after_interrupt :
  prompt (toy_key ControlC [] (typed [str "if x:"])).1 = str "...: ".
Proof. vm_compute. reflexivity. Qed.
