(* ===== verification/PyOs.v ===== *)
(** * The part of Python's standard library that [test.py] uses

    POSIX [os.path], [fnmatch], [bytes.decode], the representation of byte
    strings, and the formats the runner prints with.  A Python text string is
    modelled by its UTF-8 encoding, so decoding is a validity check. *)
From Stdlib Require Import Ascii QArith.
From S2P Require Export PyStr.
Open Scope Z_scope.

(** ** [os.path] on POSIX *)

(** [os.path.join(a, b)] *)
Definition path_join (a b : pystr) : pystr :=
  if startswith (str "/") b then b
  else if bool_decide (a = []) || endswith (str "/") a then a ++ b
  else a ++ str "/" ++ b.

(** [os.path.basename(p)]: what follows the last slash. *)
Definition basename (p : pystr) : pystr := default [] (last (split_char "/" p)).

(** The components of [os.path.normpath]: empty ones and [.] are dropped, and
    [..] removes the component before it, except at the start of a relative
    path.  [acc] is reversed. *)
Fixpoint norm_comps (absolute : bool) (acc comps : list pystr) : list pystr :=
  match comps with
  | [] => rev acc
  | c :: cs =>
      if bool_decide (c = [] ∨ c = str ".") then norm_comps absolute acc cs
      else if bool_decide (c = str "..") then
        match acc with
        | d :: acc' =>
            if bool_decide (d = str "..") then norm_comps absolute (c :: acc) cs
            else norm_comps absolute acc' cs
        | [] => if absolute then norm_comps absolute [] cs else norm_comps absolute [c] cs
        end
      else norm_comps absolute (c :: acc) cs
  end.

(** The slashes that start a normal path: two are kept, three count as one. *)
Definition initial_slashes (p : pystr) : pystr :=
  if startswith (str "//") p && negb (startswith (str "///") p) then str "//"
  else if startswith (str "/") p then str "/" else [].

Definition normpath (p : pystr) : pystr :=
  match p with
  | [] => str "."
  | _ =>
      let i := initial_slashes p in
      let n := i ++ join (str "/") (norm_comps (negb (bool_decide (i = []))) [] (split_char "/" p)) in
      if bool_decide (n = []) then str "." else n
  end.

Definition abspath (cwd p : pystr) : pystr := normpath (path_join cwd p).

Fixpoint common_prefix {A} `{EqDecision A} (l k : list A) : nat :=
  match l, k with
  | x :: l, y :: k => if decide (x = y) then S (common_prefix l k) else 0%nat
  | _, _ => 0%nat
  end.

(** [os.path.relpath(path, start)] in the directory [cwd]. *)
Definition path_comps (p : pystr) : list pystr :=
  base.filter (λ c : pystr, c ≠ []) (split_char "/" p).
Definition relpath (cwd path start : pystr) : res exn pystr :=
  match path with
  | [] => Raise ValueError
  | _ =>
      let s := path_comps (abspath cwd start) in
      let p := path_comps (abspath cwd path) in
      let i := common_prefix s p in
      match replicate (length s - i) (str "..") ++ drop i p with
      | [] => Ok (str ".")
      | rel => Ok (join (str "/") rel)
      end
  end.

(** ** [fnmatch] *)

(** A bracket pattern up to its [!], its closing bracket, and what follows:
    the first bracket that closes is not the first character of the set. *)
Fixpoint find_close (s acc : pystr) : option (pystr * pystr) :=
  match s with
  | [] => None
  | c :: s => if decide (c = "]"%char) then Some (rev acc, s) else find_close s (c :: acc)
  end.
Definition bracket (s : pystr) : option (bool * pystr * pystr) :=
  let '(neg, s) := match s with
                   | c :: t => if decide (c = "!"%char) then (true, t) else (false, s)
                   | [] => (false, [])
                   end in
  '(set, rest) ← match s with
                 | c :: t => if decide (c = "]"%char) then find_close t [c] else find_close s []
                 | [] => None
                 end;
  Some (neg, set, rest).

(** Membership in a set of characters and ranges. *)
Fixpoint in_set (set : pystr) (c : ascii) : bool :=
  match set with
  | [] => false
  | a :: t =>
      match t with
      | d :: b :: t' =>
          if decide (d = "-"%char) then
            ((nat_of_ascii a <=? nat_of_ascii c)%nat && (nat_of_ascii c <=? nat_of_ascii b)%nat)
            || in_set t' c
          else bool_decide (a = c) || in_set t c
      | _ => bool_decide (a = c) || in_set t c
      end
  end.

(** The suffixes of a string, itself included. *)
Fixpoint tails (s : pystr) : list pystr :=
  s :: match s with [] => [] | _ :: s' => tails s' end.

(** [fuel] bounds the length of the pattern. *)
Fixpoint fnmatch_go (fuel : nat) (pat s : pystr) : bool :=
  match fuel with
  | O => false
  | S fuel =>
      match pat with
      | [] => bool_decide (s = [])
      | p :: pat =>
          if decide (p = "*"%char) then existsb (fnmatch_go fuel pat) (tails s)
          else
            match s with
            | [] => false
            | c :: s =>
                if decide (p = "?"%char) then fnmatch_go fuel pat s
                else if decide (p = "["%char) then
                  match bracket pat with
                  | Some (neg, set, rest) => xorb neg (in_set set c) && fnmatch_go fuel rest s
                  | None => bool_decide (c = p) && fnmatch_go fuel pat s
                  end
                else bool_decide (c = p) && fnmatch_go fuel pat s
            end
      end
  end.
Definition fnmatch (name pat : pystr) : bool := fnmatch_go (S (length pat)) pat name.
Definition fnmatch_filter (names : list pystr) (pat : pystr) : list pystr :=
  base.filter (λ n, fnmatch n pat = true) names.

(** ** Byte strings *)

Definition byte_of (c : ascii) : Z := Z.of_nat (nat_of_ascii c).
Definition between (a b : Z) (c : ascii) : bool := (a <=? byte_of c) && (byte_of c <=? b).

(** Well-formed UTF-8: no overlong form, no surrogate, at most U+10FFFF. *)
Fixpoint utf8 (s : pystr) : bool :=
  match s with
  | [] => true
  | a :: s =>
      if between 0 127 a then utf8 s
      else if between 194 223 a then
        match s with b :: s => between 128 191 b && utf8 s | _ => false end
      else if between 224 239 a then
        match s with
        | b :: c :: s =>
            (if byte_of a =? 224 then between 160 191 b
             else if byte_of a =? 237 then between 128 159 b else between 128 191 b)
            && between 128 191 c && utf8 s
        | _ => false
        end
      else if between 240 244 a then
        match s with
        | b :: c :: d :: s =>
            (if byte_of a =? 240 then between 144 191 b
             else if byte_of a =? 244 then between 128 143 b else between 128 191 b)
            && between 128 191 c && between 128 191 d && utf8 s
        | _ => false
        end
      else false
  end.

(** [b.decode()] *)
Definition decode (b : pystr) : option pystr := if utf8 b then Some b else None.

(** [repr] of a byte string. *)
Definition squote : ascii := "'"%char.
Definition dquote : ascii := "034"%char.
Definition byte_repr (q c : ascii) : pystr :=
  let n := byte_of c in
  if bool_decide (c = q) || (n =? 92) then [ "\"%char; c ]
  else if n =? 9 then str "\t"
  else if n =? 10 then str "\n"
  else if n =? 13 then str "\r"
  else if (32 <=? n) && (n <=? 126) then [c]
  else str "\x" ++ [digit_char (n / 16); digit_char (n mod 16)].
Definition bytes_repr (b : pystr) : pystr :=
  let q := if bool_decide (squote ∈ b) && negb (bool_decide (dquote ∈ b)) then dquote else squote in
  str "b" ++ [q] ++ concat (map (byte_repr q) b) ++ [q].

(** ** Formats *)

(** Round a rational to the nearest integer, halves to even. *)
Definition round_half_even (q : Q) : Z :=
  let n := Qnum q in
  let d := Zpos (Qden q) in
  let f := n / d in
  match (2 * (n - f * d)) ?= d with
  | Lt => f
  | Gt => f + 1
  | Eq => if Z.even f then f else f + 1
  end.

(** ['%.3f' % q] *)
Definition fmt3 (q : Q) : pystr :=
  let m := round_half_even (q * (1000 # 1)) in
  let a := Z.abs m in
  (if Qnum q <? 0 then str "-" else [])
    ++ digits 10 (a / 1000) ++ str "."
    ++ [digit_char (a / 100 mod 10); digit_char (a / 10 mod 10); digit_char (a mod 10)].

(** [s.upper()] *)
Definition upper_char (c : ascii) : ascii :=
  let n := nat_of_ascii c in
  if ((97 <=? n) && (n <=? 122))%nat then ascii_of_nat (n - 32) else c.
Definition upper (s : pystr) : pystr := map upper_char s.

(** The order of strings: by code points, which is the order of the encodings. *)
Fixpoint pystr_leb (s t : pystr) : bool :=
  match s, t with
  | [], _ => true
  | _ :: _, [] => false
  | a :: s, b :: t =>
      if byte_of a <? byte_of b then true
      else if byte_of b <? byte_of a then false else pystr_leb s t
  end.
Definition pystr_le (s t : pystr) : Prop := pystr_leb s t = true.

#[export] Instance pystr_le_dec : RelDecision pystr_le.
Proof. unfold pystr_le. solve_decision. Defined.

#[export] Instance pystr_le_total : Total pystr_le.
Proof.
  unfold pystr_le. intros s. induction s as [|a s IH]; intros [|b t]; cbn; auto.
  destruct (Z.ltb_spec (byte_of a) (byte_of b)), (Z.ltb_spec (byte_of b) (byte_of a)); auto.
Qed.

#[export] Instance pystr_le_trans : Transitive pystr_le.
Proof.
  unfold pystr_le. intros s. induction s as [|a s IH]; intros [|b t] [|c u]; cbn; try done.
  destruct (Z.ltb_spec (byte_of a) (byte_of b)), (Z.ltb_spec (byte_of b) (byte_of a)),
    (Z.ltb_spec (byte_of b) (byte_of c)), (Z.ltb_spec (byte_of c) (byte_of b)),
    (Z.ltb_spec (byte_of a) (byte_of c)), (Z.ltb_spec (byte_of c) (byte_of a)); try done; try lia.
  apply IH.
Qed.

(** [l.sort()] *)
Definition py_sort (l : list pystr) : list pystr := merge_sort pystr_le l.

(** [print(s)] *)
Definition println (s : pystr) : pystr := s ++ [ "010"%char ].

Example paths_sample :
  (path_join (str "a") (str "b"), path_join (str "a/") (str "/b"), basename (str "x/y/z.py"),
   normpath (str "a/./b/../c//d"), abspath (str "/w") (str "../q"),
   relpath (str "/w") (str "/w/build/examples/udp") (str "/w/build"))
  = (str "a/b", str "/b", str "z.py", str "a/c/d", str "/q", Ok (str "examples/udp")).
Proof. reflexivity. Qed.

Example fnmatch_sample :
  (fnmatch (str "lte-epc") (str "lte-*"), fnmatch (str "wifi") (str "w?f[!a-h]"),
   fnmatch (str "wifi") (str "lte*"), fnmatch (str "a]b") (str "a[]]b"))
  = (true, true, false, true).
Proof. reflexivity. Qed.

Example formats_sample :
  (fmt3 (10005 # 10000), fmt3 (-3 # 2), bytes_repr [ascii_of_nat 255; "a"%char],
   decode [ascii_of_nat 255], upper (str "Quick_1"))
  = (str "1.000", str "-1.500", str "b'\xffa'", None, str "QUICK_1").
Proof. reflexivity. Qed.
