(* ===== verification/Ns3Targets.v ===== *)
(** * The ns3 command-line wrapper: programs, shortcuts and build targets

    From the file ns3: [get_program_shortcuts], [get_target_to_build], [remove_overlapping_path] and [parse_version].  The
    lists of the lock file, the Python files found under scratch, and the
    existence of a file are arguments.  Paths hold no newline. *)
From Stdlib Require Import Ascii String.
From S2P Require Export Dict PyOs.
Open Scope Z_scope.

(** ** [s.replace(old, new)] *)

(** [skip]: how many characters of the last occurrence are still to be passed. *)
Fixpoint replace_go (old new : pystr) (skip : nat) (s : pystr) : pystr :=
  match s with
  | [] => []
  | c :: t =>
      match skip with
      | S k => replace_go old new k t
      | O => if startswith old s then new ++ replace_go old new (length old - 1) t
             else c :: replace_go old new 0 t
      end
  end.
Definition replace (old new s : pystr) : pystr :=
  match old with
  | [] => new ++ concat (map (λ c, c :: new) s)
  | _ => replace_go old new 0 s
  end.

(** ** Shortcuts *)

(** The paths that are left as components are taken off at the front. *)
Fixpoint suffix_paths (temp_path : list pystr) : list pystr :=
  match temp_path with
  | [] => []
  | c :: rest => join (str "/") (c :: rest) :: suffix_paths rest
  end.

Section shortcuts.
Context {D : Type → Type} `{!DictOps pystr D, !DictLaws pystr D}.
Context (ns3_path out_dir build_profile ns3_version : pystr) (exists_ : pystr → bool).

(** [temp_path] before the loop: the components below the output directory, the
    last one without version, build type and the directories of a scratch. *)
Definition program_path (program : pystr) : res exn (list pystr) :=
  let temp_path := tail (split_char "/" (replace out_dir [] program)) in
  name ← res_of_option IndexError (last temp_path);
  let name := replace (str "ns" ++ ns3_version ++ str "-") [] (replace (str "-" ++ build_profile) [] name) in
  let temp_path := removelast temp_path ++ [name] in
  if bool_decide (str "scratch" ∈ temp_path) && (3 <? length temp_path)%nat then
    let subdir := join (str "_") (py_slice temp_path 2 (-1) ++ [[]]) in
    mret (removelast temp_path ++ [replace subdir [] name])
  else mret temp_path.

(** The two maps: from a shortcut to programs, and to the longest shortcuts of
    the programs that have it. *)
Definition maps : Type := (D (list pystr) * D (list pystr))%type.

Definition add_shortcut (program longest key : pystr) (m : maps) : maps :=
  let '(programs, longests) := m in
  (dset key [program] programs,
   dset key (match dget key longests with None => [longest] | Some l => l ++ [longest] end) longests).

(** The [while] loop; the longest shortcut is the first one that is not empty. *)
Fixpoint add_shortcuts (program : pystr) (source : bool) (longest : pystr) (keys : list pystr) (m : maps) : maps :=
  match keys with
  | [] => m
  | key :: keys =>
      let longest := match longest with [] => key | _ => longest end in
      let m := add_shortcut program longest key m in
      let m := if source then add_shortcut program longest (key ++ str ".cc") m else m in
      add_shortcuts program source longest keys m
  end.

Definition has_source (temp_path : list pystr) : bool :=
  exists_ (path_join ns3_path (join (str "/") temp_path ++ str ".cc")).
Definition add_program (m : maps) (program : pystr) : res exn maps :=
  if contains (str "pch_exec") program then mret m
  else
    temp_path ← program_path program;
    mret (add_shortcuts (strip program) (has_source temp_path) [] (suffix_paths temp_path) m).

Definition filter_collisions (m : maps) : D (list pystr) :=
  fold_left (λ programs key,
    match dget key m.2 with
    | Some (l1 :: l2 :: ls) => dset key (l1 :: l2 :: ls) programs
    | _ => programs
    end) (dkeys m.2) m.1.

Definition add_script (programs : D (list pystr)) (script : pystr) : D (list pystr) :=
  fold_left (λ programs key, dset key [strip script] programs)
    (suffix_paths (split_char "/" (replace ns3_path [] script))) programs.

Definition get_program_shortcuts (ns3_runnable_programs ns3_runnable_scripts scratch_scripts : list pystr) :
    res exn (D (list pystr)) :=
  m ← fold_res add_program (dempty, dempty) ns3_runnable_programs;
  let scripts := match ns3_runnable_scripts with [] => [] | _ => ns3_runnable_scripts ++ scratch_scripts end in
  mret (fold_left add_script scripts (filter_collisions m)).

(** The message of [check_ambiguous_target]. *)
Definition ambiguous_message (target_type target_to_check : pystr) (names : list pystr) : pystr :=
  target_type ++ str " target " ++ [dquote] ++ target_to_check ++ [dquote]
    ++ str " is ambiguous. Try one of these: " ++ [dquote]
    ++ join ([dquote] ++ str ", " ++ [dquote]) names ++ [dquote].
End shortcuts.

(** ** Build targets *)

(** A literal of a regular expression, in which a dot stands for any character. *)
Fixpoint match_literal (pat s : pystr) : option pystr :=
  match pat, s with
  | [], _ => Some s
  | p :: pat, c :: s => if decide (p = "."%char ∨ p = c) then match_literal pat s else None
  | _ :: _, [] => None
  end.

(** A group of any characters, followed by something: the longest prefix for
    which the rest matches. *)
Fixpoint greedy {A} (n : nat) (k : pystr → option A) (s : pystr) : option (pystr * A) :=
  match k (drop n s) with
  | Some a => Some (take n s, a)
  | None => match n with O => None | S n => greedy n k s end
  end.

(** The match of the expression, any characters, the prefix, any characters and
    the suffix, at the start of [s]: both groups and the rest. *)
Definition match_program (prefix suffix s : pystr) : option (pystr * (pystr * pystr)) :=
  greedy (length s) (λ r,
    r ← match_literal prefix r;
    greedy (length r) (match_literal suffix) r) s.

(** [re.findall]; the fuel is the length of the string. *)
Fixpoint find_programs (fuel : nat) (prefix suffix s : pystr) : list (pystr * pystr) :=
  match fuel, match_program prefix suffix s with
  | S fuel, Some (g1, (g2, rest)) => (g1, g2) :: find_programs fuel prefix suffix rest
  | _, _ => []
  end.

Definition get_target_to_build (out_dir program_path ns3_version build_profile : pystr) : res exn (option pystr) :=
  if contains (str ".py") program_path then mret None
  else
    let suffix := if bool_decide (build_profile = str "release") then [] else str "-" ++ build_profile in
    match find_programs (length program_path) (str "ns" ++ ns3_version ++ str "-") suffix program_path with
    | [(g1, g2)] =>
        let program_name := g1 ++ g2 in
        if contains (str "scratch") program_path then
          mret (Some (py_slice_from (replace (str "/") (str "_") (replace out_dir [] program_name)) 1))
        else mret (last (split_char "/" program_name))
    | _ => Raise (SystemExit 1)
    end.

(** ** Paths and versions *)

(** [remove_overlapping_path]: the components of the target as long as they occur
    anywhere in the base are dropped. *)
Fixpoint drop_overlapping (base target : list pystr) : res exn (list pystr) :=
  match target with
  | [] => Raise IndexError
  | c :: rest => if bool_decide (c ∈ base) then drop_overlapping base rest else Ok target
  end.
Definition remove_overlapping_path (base_path target_path : pystr) : res exn pystr :=
  cs ← drop_overlapping (split_char "/" base_path) (split_char "/" target_path);
  mret (join (str "/") cs).

(** The path that [main] runs: without a cache folder the name that Waf gave a
    scratch program is tried first. *)
Definition executable_to_run (out_dir run : pystr) (exists_ : pystr → bool) (no_cache run_only build_and_run : bool)
    (target_to_run : pystr) : res exn pystr :=
  target ← remove_overlapping_path out_dir target_to_run;
  let target :=
    if no_cache && contains (str "scratch") target && run_only then
      let waf_target := replace (basename target) run target in
      if exists_ (join (str "/") [out_dir; waf_target]) then waf_target else target
    else target in
  let target := join (str "/") [out_dir; target] in
  if (run_only || build_and_run) && negb (contains (str ".py") target) && negb (exists_ target)
  then Raise GenericException
  else mret target.

Definition parse_version (version_str : pystr) : res exn (list Z) :=
  mapM_res (py_int 10) (split_char "." version_str).
(** The order of tuples. *)
Fixpoint tuple_ltb (a b : list Z) : bool :=
  match a, b with
  | _, [] => false
  | [], _ :: _ => true
  | x :: a, y :: b => (x <? y) || ((x =? y) && tuple_ltb a b)
  end.
(** *** The program a shortcut stands for *)

Section shortcut_facts.
Context {D : Type → Type} `{!DictOps pystr D, !DictLaws pystr D}.
Context (ns3_path out_dir build_profile ns3_version : pystr) (exists_ : pystr → bool).

(** A program claims a shortcut: the shortcut, the program and its longest shortcut. *)
Definition claim : Type := (pystr * (pystr * pystr))%type.
Definition shortcut_keys (temp_path : list pystr) : list pystr :=
  flat_map (λ key, key :: (if has_source ns3_path exists_ temp_path then [key ++ str ".cc"] else []))
    (suffix_paths temp_path).
Definition path_claims (p : pystr * list pystr) : list claim :=
  map (λ key, (key, (strip p.1, join (str "/") p.2))) (shortcut_keys p.2).

(** Who claims [s], in the order of the programs, and the scripts found under [s]. *)
Definition claimants (s : pystr) (paths : list (pystr * list pystr)) : list (pystr * pystr) :=
  (filter (λ c : claim, c.1 = s) (flat_map path_claims paths)).*2.
Definition scripts_under (s : pystr) (scripts : list pystr) : list pystr :=
  filter (λ script, s ∈ suffix_paths (split_char "/" (replace ns3_path [] script))) scripts.
Definition program_paths (programs : list pystr) : res exn (list (pystr * list pystr)) :=
  mapM_res (λ p, temp_path ← program_path out_dir build_profile ns3_version p; mret (p, temp_path))
    (filter (λ p, contains (str "pch_exec") p = false) programs).

Definition add_claim (m : maps (D:=D)) (c : claim) : maps (D:=D) := add_shortcut c.2.1 c.2.2 c.1 m.

Lemma add_claims_programs cs m s :
  dget s (fold_left add_claim cs m).1 =
  match last (filter (λ c : claim, c.1 = s) cs).*2 with Some (p, _) => Some [p] | None => dget s m.1 end.
Proof.
  revert m; induction cs as [|[k [p l]] cs IH] using rev_ind; intros m; [done|].
  rewrite fold_left_app, filter_app, filter_cons, filter_nil, fmap_app. cbn [fold_left].
  unfold add_claim at 1. specialize (IH m). destruct (fold_left add_claim cs m) as [ps ls]. cbn in *.
  rewrite dget_set. destruct (decide (s = k)) as [->|].
  - rewrite decide_True by done. cbn. by rewrite last_snoc.
  - rewrite decide_False by done. cbn. by rewrite app_nil_r.
Qed.

Lemma add_claims_longest cs m s :
  dget s (fold_left add_claim cs m).2 =
  match (filter (λ c : claim, c.1 = s) cs).*2 with
  | [] => dget s m.2
  | l => Some (default [] (dget s m.2) ++ l.*2)
  end.
Proof.
  revert m; induction cs as [|[k [p l]] cs IH]; intros m; [done|]. cbn [fold_left].
  rewrite IH, filter_cons. destruct m as [ps ls]. cbn [add_claim add_shortcut fst snd]. rewrite dget_set.
  destruct (decide (k = s)) as [->|].
  - rewrite decide_True by done. cbn.
    destruct (filter _ cs); destruct (dget s ls); cbn; by rewrite <-?(assoc_L app).
  - by rewrite decide_False by done.
Qed.

Lemma suffix_paths_longest program source longest keys m :
  longest ≠ [] →
  add_shortcuts (D:=D) program source longest keys m =
  fold_left add_claim (map (λ key, (key, (program, longest)))
    (flat_map (λ key, key :: (if source then [key ++ str ".cc"] else [])) keys)) m.
Proof.
  intros Hl. revert m; induction keys as [|key keys IH]; intros m; [done|].
  cbn [add_shortcuts]. assert (match longest with [] => key | _ => longest end = longest) as -> by by destruct longest.
  rewrite IH. by destruct source.
Qed.

(** The longest shortcut of a program is its whole path. *)
Lemma add_program_claims program temp_path m :
  add_shortcuts (D:=D) (strip program) (has_source ns3_path exists_ temp_path) [] (suffix_paths temp_path) m =
  fold_left add_claim (path_claims (program, temp_path)) m.
Proof.
  unfold path_claims, shortcut_keys. cbn [fst snd].
  destruct temp_path as [|c rest]; [done|].
  remember (join (str "/") (c :: rest)) as l eqn:El. cbn [suffix_paths]. rewrite <-El.
  destruct l as [|a l].
  - assert (rest = []) as ->.
    { destruct rest; [done|]. cbn in El. by destruct c. }
    cbn. by destruct (has_source _ _ _).
  - cbn [add_shortcuts flat_map app map]. rewrite suffix_paths_longest by done.
    destruct (has_source _ _ _); by cbn.
Qed.

Lemma add_programs_spec programs m :
  fold_res (add_program ns3_path out_dir build_profile ns3_version exists_) m programs =
  (paths ← program_paths programs; mret (fold_left add_claim (flat_map path_claims paths) m)).
Proof.
  unfold program_paths. revert m; induction programs as [|p programs IH]; intros m; [done|].
  rewrite filter_cons. cbn [fold_res]. unfold add_program at 1. unfold maps in *.
  destruct (contains (str "pch_exec") p).
  - rewrite decide_False by done. apply IH.
  - rewrite decide_True by done. cbn [mapM_res].
    destruct (program_path _ _ _ p) as [tp|e]; [|done]. cbn [mbind res_bind mret res_ret].
    rewrite IH. rewrite add_program_claims.
    destruct (mapM_res _ _) as [paths|e]; cbn; [|done]. by rewrite fold_left_app.
Qed.

Lemma filter_collisions_get (m : maps (D:=D)) s :
  dget s (filter_collisions m) =
  match dget s m.2 with Some (l1 :: l2 :: ls) => Some (l1 :: l2 :: ls) | _ => dget s m.1 end.
Proof.
  unfold filter_collisions.
  assert (∀ keys programs, dget s (fold_left (λ programs key,
      match dget key m.2 with
      | Some (l1 :: l2 :: ls) => dset key (l1 :: l2 :: ls) programs
      | _ => programs end) keys programs) =
    match dget s m.2 with
    | Some (l1 :: l2 :: ls) => if decide (s ∈ keys) then Some (l1 :: l2 :: ls) else dget s programs
    | _ => dget s programs end) as ->.
  { induction keys as [|k keys IH]; intros programs; cbn [fold_left].
    - by repeat case_match.
    - rewrite IH. destruct (decide (s = k)) as [->|Hne].
      + destruct (dget k m.2) as [[|l1 [|l2 ls]]|]; try done.
        rewrite (decide_True (P:=k ∈ k :: keys)) by left.
        case_decide; [done|]. by rewrite dget_set, decide_True.
      + assert (dget s (match dget k m.2 with
          | Some (l1 :: l2 :: ls) => dset k (l1 :: l2 :: ls) programs | _ => programs end)
          = dget s programs) as ->.
        { destruct (dget k m.2) as [[|? [|? ?]]|]; try done. by rewrite dget_set, decide_False. }
        destruct (dget s m.2) as [[|l1 [|l2 ls]]|]; try done.
        destruct (decide (s ∈ keys)) as [Hin|Hin].
        * by rewrite decide_True by by right.
        * rewrite decide_False; [done|]. by intros [->|?]%elem_of_cons. }
  destruct (dget s m.2) as [[|l1 [|l2 ls]]|] eqn:E; try done.
  rewrite decide_True; [done|]. apply dkeys_spec. by rewrite E.
Qed.

Lemma add_scripts_get scripts (programs : D (list pystr)) s :
  dget s (fold_left (add_script ns3_path) scripts programs) =
  match last (scripts_under s scripts) with Some script => Some [strip script] | None => dget s programs end.
Proof.
  unfold scripts_under. induction scripts as [|sc scripts IH] using rev_ind; [done|].
  rewrite fold_left_app, filter_app, filter_cons, filter_nil. cbn [fold_left].
  unfold add_script at 1.
  assert (∀ keys d, dget s (fold_left (λ programs key, dset key [strip sc] programs) keys d) =
    if decide (s ∈ keys) then Some [strip sc] else dget s d) as Hkeys.
  { clear -DictLaws0. induction keys as [|k keys IH]; intros d; cbn [fold_left].
    - case_decide as H; [by apply elem_of_nil in H|done].
    - rewrite IH, dget_set.
      destruct (decide (s ∈ keys)); [by rewrite decide_True by by right|].
      destruct (decide (s = k)) as [->|]; [by rewrite decide_True by left|].
      rewrite decide_False; [done|]. by intros [->|?]%elem_of_cons. }
  rewrite Hkeys, IH. case_decide; [by rewrite last_snoc|]. by rewrite app_nil_r.
Qed.
End shortcut_facts.

(** C23: A shortcut stands for the last script found under it; without one, for the
    only program that claims it, or for the longest shortcuts of the programs that
    claim it, in their order.  It raises what the first bad program raises. *)
Theorem shortcuts_resolve {D} `{!DictOps pystr D, !DictLaws pystr D} ns3_path out_dir build_profile ns3_version
    exists_ programs runnable_scripts scratch :
  let scripts := match runnable_scripts with [] => [] | _ => runnable_scripts ++ scratch end in
  match program_paths out_dir build_profile ns3_version programs,
        get_program_shortcuts (D:=D) ns3_path out_dir build_profile ns3_version exists_
          programs runnable_scripts scratch with
  | Raise e, r => r = Raise e
  | Ok paths, Ok shortcuts =>
      ∀ s, dget s shortcuts =
        match last (scripts_under ns3_path s scripts), claimants ns3_path exists_ s paths with
        | Some script, _ => Some [strip script]
        | None, [] => None
        | None, [(program, _)] => Some [program]
        | None, l => Some (l.*2)
        end
  | Ok _, Raise _ => False
  end.
Proof.
  intros scripts. unfold get_program_shortcuts. rewrite add_programs_spec.
  destruct (program_paths _ _ _ programs) as [paths|e]; [|done]. cbn [mbind res_bind mret res_ret].
  intros s. fold scripts. rewrite add_scripts_get, filter_collisions_get, add_claims_longest, add_claims_programs.
  unfold claimants. destruct (last (scripts_under _ _ _)); [done|].
  generalize (filter (λ c : claim, c.1 = s) (flat_map (path_claims ns3_path exists_) paths)).*2.
  intros [|[p1 l1] [|[p2 l2] cs]]; cbn; by rewrite ?dget_empty.
Qed.

(** ** Replacing and matching *)

Lemma replace_go_none old new s : old ≠ [] → contains old s = false → replace_go old new 0 s = s.
Proof.
  intros Hold. induction s as [|c s IH]; [done|]. cbn [contains replace_go].
  intros [Hs Hc]%orb_false_iff. rewrite Hs. by rewrite IH.
Qed.

Lemma replace_none old new s : old ≠ [] → contains old s = false → replace old new s = s.
Proof. intros. destruct old; [done|]. by apply replace_go_none. Qed.

Lemma replace_go_skip old new k s : (k ≤ length s)%nat → replace_go old new k s = replace_go old new 0 (drop k s).
Proof. revert k. induction s as [|c s IH]; intros [|k] Hk; cbn in *; try done. apply IH. lia. Qed.

Lemma replace_head old new s : old ≠ [] → replace old new (old ++ s) = new ++ replace old new s.
Proof.
  intros Hold. destruct old as [|a old]; [done|]. unfold replace. cbn [app replace_go].
  change (a :: old ++ s) with ((a :: old) ++ s). rewrite startswith_app. f_equal.
  cbn [length]. replace (S (length old) - 1)%nat with (length old) by lia.
  rewrite replace_go_skip by (rewrite length_app; lia). by rewrite drop_app_length.
Qed.

(** What precedes the first occurrence is kept. *)
Lemma replace_app old new s t :
  old ≠ [] → (∀ i, (i < length s)%nat → startswith old (drop i (s ++ t)) = false) →
  replace old new (s ++ t) = s ++ replace old new t.
Proof.
  intros Hold. destruct old as [|a old]; [done|]. unfold replace.
  induction s as [|c s IH]; intros Hs; [done|]. cbn [app replace_go].
  pose proof (Hs 0%nat ltac:(cbn; lia)) as H0. cbn [drop app] in H0. rewrite H0. f_equal.
  apply IH. intros i Hi. apply (Hs (S i)). cbn. lia.
Qed.

Lemma replace_map c d s : replace [c] [d] s = map (λ a, if decide (a = c) then d else a) s.
Proof.
  unfold replace. induction s as [|a s IH]; [done|]. cbn [map replace_go].
  change (length [c] - 1)%nat with 0%nat. rewrite IH.
  replace (startswith [c] (a :: s)) with (bool_decide (a = c)).
  - case_bool_decide; [by rewrite decide_True|by rewrite decide_False].
  - cbn. rewrite andb_true_r. unfold bool_decide. repeat case_decide; congruence.
Qed.

Lemma map_absent (c d : ascii) s : c ∉ s → map (λ a, if decide (a = c) then d else a) s = s.
Proof.
  induction s as [|a s IH]; [done|]. intros [? ?]%not_elem_of_cons. cbn.
  rewrite decide_False by congruence. f_equal. by apply IH.
Qed.
Lemma py_slice_from_1 {A} (a : A) l : py_slice_from (a :: l) 1 = l.
Proof. unfold py_slice_from, slice_pos. cbn. done. Qed.

Lemma match_literal_app p s : match_literal p (p ++ s) = Some s.
Proof. induction p as [|a p IH]; [done|]. cbn. rewrite decide_True by auto. done. Qed.
Lemma match_literal_length p s r : match_literal p s = Some r → length s = (length p + length r)%nat.
Proof.
  revert s; induction p as [|a p IH]; intros [|c s]; cbn [match_literal length]; try (intros [= <-]; cbn; lia); try done.
  case_decide; [|done]. intros ->%IH. lia.
Qed.

Lemma greedy_last {A} (k : pystr → option A) n i s a :
  (i ≤ n)%nat → k (drop i s) = Some a → (∀ j, (i < j ≤ n)%nat → k (drop j s) = None) →
  greedy n k s = Some (take i s, a).
Proof.
  intros Hi Hk Hn. induction n as [|n IH].
  - assert (i = 0)%nat as -> by lia. cbn [greedy]. by rewrite Hk.
  - destruct (decide (i = S n)) as [->|].
    + cbn [greedy]. by rewrite Hk.
    + cbn [greedy]. rewrite Hn by lia. apply IH; [lia|]. intros; apply Hn; lia.
Qed.

Lemma greedy_suffix suffix s :
  greedy (length (s ++ suffix)) (match_literal suffix) (s ++ suffix) = Some (s, []).
Proof.
  rewrite (greedy_last _ _ (length s) _ []).
  - by rewrite take_app_length.
  - rewrite length_app. lia.
  - rewrite drop_app_length. pose proof (match_literal_app suffix []) as H. by rewrite app_nil_r in H.
  - intros j Hj. destruct (match_literal _ _) as [r|] eqn:E; [|done].
    apply match_literal_length in E. rewrite length_drop in E. rewrite length_app in *. lia.
Qed.

Lemma greedy_none {A} (k : pystr → option A) n s : (∀ i, k (drop i s) = None) → greedy n k s = None.
Proof. intros Hk. induction n as [|n IH]; cbn [greedy]; by rewrite Hk. Qed.

(** One version prefix in the name of a program gives one match. *)
Lemma find_programs_one prefix dir name suffix fuel :
  prefix ≠ [] →
  (∀ i, (0 < i)%nat → match_literal prefix (drop i (prefix ++ name ++ suffix)) = None) →
  find_programs (S fuel) prefix suffix (dir ++ prefix ++ name ++ suffix) = [(dir, name)].
Proof.
  intros Hp Hlast. cbn [find_programs]. unfold match_program at 1.
  rewrite (greedy_last _ _ (length dir) _ (name, [])).
  - rewrite take_app_length. f_equal. destruct fuel; [done|]. cbn [find_programs].
    destruct (match_program prefix suffix []) as [[? [? ?]]|] eqn:E; [|done].
    exfalso. unfold match_program in E. cbn [greedy length drop] in E.
    destruct prefix; [done|]. done.
  - rewrite length_app. lia.
  - rewrite drop_app_length, match_literal_app. cbn [mbind option_bind]. apply greedy_suffix.
  - intros j Hj. replace (drop j _) with (drop (j - length dir) (prefix ++ name ++ suffix)).
    + by rewrite Hlast by lia.
    + by rewrite (drop_app_ge dir) by lia.
Qed.

(** ** The theorems on targets and paths *)

(** The target of a program is its name without version and build profile:
    below scratch with its directories joined by underscores, elsewhere alone.  A
    file name without the version stops the script. *)
Theorem target_of_program out_dir dir name ns3_version build_profile :
  let prefix := str "ns" ++ ns3_version ++ str "-" in
  let suffix := if bool_decide (build_profile = str "release") then [] else str "-" ++ build_profile in
  let path := dir ++ prefix ++ name ++ suffix in
  contains (str ".py") path = false →
  "/"%char ∉ name →
  (∀ i, (0 < i)%nat → match_literal prefix (drop i (prefix ++ name ++ suffix)) = None) →
  (contains (str "scratch") path = false → ∀ parent, dir = parent ++ str "/" →
     get_target_to_build out_dir path ns3_version build_profile = Ok (Some name)) ∧
  (contains (str "scratch") path = true → ∀ rel, dir = out_dir ++ str "/" ++ rel → out_dir ≠ [] →
     contains out_dir (str "/" ++ rel ++ name) = false →
     get_target_to_build out_dir path ns3_version build_profile =
       Ok (Some (map (λ c, if decide (c = "/"%char) then "_"%char else c) rel ++ name))).
Proof.
  intros prefix suffix path Hpy Hname Hlast.
  assert (length path = S (length path - 1)) as Hlen.
  { unfold path, prefix. rewrite !length_app. cbn. lia. }
  assert (find_programs (length path) prefix suffix path = [(dir, name)]) as Hfind.
  { rewrite Hlen. by apply find_programs_one. }
  unfold get_target_to_build. rewrite Hpy. fold prefix suffix. rewrite Hfind. split.
  - intros -> parent ->. f_equal. rewrite <-(app_assoc parent).
    change (parent ++ str "/" ++ name) with (parent ++ "/"%char :: name).
    rewrite split_char_app_sep, last_app, split_char_no; done.
  - intros -> rel -> Hout Hno. f_equal. f_equal. rewrite <-!app_assoc.
    rewrite replace_head, (replace_none out_dir) by done. cbn [app].
    change (str "/") with ["/"%char]. change (str "_") with ["_"%char].
    rewrite replace_map, !map_app. cbn [map app]. rewrite py_slice_from_1.
    by rewrite (map_absent _ _ name).
Qed.

Lemma drop_overlapping_app base xs ys :
  Forall (.∈ base) xs → drop_overlapping base (xs ++ ys) = drop_overlapping base ys.
Proof. induction 1 as [|x xs Hx Hxs IH]; [done|]. cbn. by rewrite bool_decide_eq_true_2. Qed.

Lemma drop_overlapping_suffix base xs r :
  drop_overlapping base xs = Ok r → r ≠ [] ∧ ∃ pre, xs = pre ++ r.
Proof.
  induction xs as [|x xs IH]; cbn; [done|]. case_bool_decide as Hx.
  - intros (Hr & pre & ->)%IH. split; [done|]. by exists (x :: pre).
  - intros [= <-]. split; [done|]. by exists [].
Qed.

Lemma overlap_target out_dir rel :
  remove_overlapping_path out_dir (out_dir ++ str "/" ++ rel) =
  (join (str "/") <$> drop_overlapping (split_char "/" out_dir) (split_char "/" rel)).
Proof.
  unfold remove_overlapping_path. change (out_dir ++ str "/" ++ rel) with (out_dir ++ "/"%char :: rel).
  rewrite split_char_app_sep, drop_overlapping_app by by apply Forall_forall.
  by destruct (drop_overlapping _ _).
Qed.

Lemma drop_overlapping_same base xs :
  drop_overlapping base xs = Ok xs ↔ ∃ dir rest, xs = dir :: rest ∧ dir ∉ base.
Proof.
  split.
  - destruct xs as [|x xs]; cbn; [done|]. case_bool_decide as Hx; [|eauto].
    intros (_ & pre & E)%drop_overlapping_suffix. apply (f_equal length) in E.
    rewrite length_app in E. cbn in E. lia.
  - intros (dir & rest & -> & Hdir). cbn. by rewrite bool_decide_eq_false_2.
Qed.

Lemma drop_overlapping_raise base xs e :
  drop_overlapping base xs = Raise e ↔ e = IndexError ∧ Forall (.∈ base) xs.
Proof.
  induction xs as [|x xs IH]; cbn.
  - split; [intros [= <-]; by split|by intros [-> _]].
  - rewrite Forall_cons. case_bool_decide as Hx; [rewrite IH; tauto|]. split; [done|tauto].
Qed.

(** When [main] builds and runs a program of the output directory, the path it
    runs is the path of the program exactly when the first directory of the program
    is not also one of the output path, and then a missing file is reported; when
    all its parts are, an [IndexError] ends the script. *)
Theorem executable_found out_dir run exists_ no_cache rel :
  let base := split_char "/" out_dir in
  let target := out_dir ++ str "/" ++ rel in
  let result := executable_to_run out_dir run exists_ no_cache false true target in
  contains (str ".py") target = false →
  (result = Ok target ↔ exists_ target = true ∧ ∃ dir rest, split_char "/" rel = dir :: rest ∧ dir ∉ base) ∧
  ((∃ dir rest, split_char "/" rel = dir :: rest ∧ dir ∉ base) → exists_ target = false → result = Raise GenericException) ∧
  (result = Raise IndexError ↔ Forall (.∈ base) (split_char "/" rel)).
Proof.
  intros base target result Hpy. unfold result, executable_to_run. rewrite (overlap_target out_dir rel : remove_overlapping_path out_dir target = _). fold base.
  destruct (drop_overlapping base (split_char "/" rel)) as [cs|e] eqn:E; cbn [fmap res_fmap mbind res_bind].
  - rewrite andb_false_r. cbn [orb andb].
    assert (join (str "/") [out_dir; join (str "/") cs] = target ↔ split_char "/" rel = cs) as Hjoin.
    { change (out_dir ++ str "/" ++ join (str "/") cs = out_dir ++ str "/" ++ rel ↔ split_char "/" rel = cs).
      apply drop_overlapping_suffix in E as (Hcs & pre & Hpre).
      split.
      - intros H%(inj (app out_dir))%(inj (app (str "/"))). rewrite <-H, split_char_join; [done..|].
        pose proof (split_char_has_no "/" rel) as Hn. rewrite Hpre in Hn. by apply Forall_app in Hn as [_ ?].
      - intros <-. by rewrite (join_split_char "/"). }
    assert (¬ Forall (.∈ base) (split_char "/" rel)) as Hno.
    { intros Hall. pose proof (proj2 (drop_overlapping_raise base _ IndexError) (conj eq_refl Hall)). congruence. }
    rewrite <-drop_overlapping_same, E.
    split_and!.
    + destruct (decide (split_char "/" rel = cs)) as [Hcs|Hcs].
      * rewrite (proj2 Hjoin Hcs), Hpy, Hcs. cbn. destruct (exists_ target); cbn; naive_solver.
      * split; [|intros [_ [= ?]]; congruence]. case_match; [done|]. intros [= Hj]. tauto.
    + intros [= Hcs] Hex. by rewrite (proj2 Hjoin (eq_sym Hcs)), Hpy, Hex.
    + split; [by case_match|tauto].
  - pose proof (proj1 (drop_overlapping_raise _ _ _) E) as [-> Hall].
    rewrite <-drop_overlapping_same, E. split_and!; [split; [done|by intros [_ ?]]|done|done].
Qed.

(** ** Concrete instances *)

Definition example_programs : list pystr :=
  [str "/r/build/examples/tutorial/ns3-dev-first-debug"; str "/r/build/src/core/ns3-dev-first-debug";
   str "/r/build/scratch/ns3-dev-sim-debug"].

Lemma shortcuts_resolve_witness :
  match get_program_shortcuts (D:=PyDict pystr) (str "/r") (str "/r/build") (str "debug") (str "3-dev")
          (λ _, false) example_programs [str "/r/examples/run.py"] [str "/r/scratch/sim"] with
  | Ok shortcuts =>
      dget (str "first") shortcuts = Some [str "examples/tutorial/first"; str "src/core/first"] ∧
      dget (str "tutorial/first") shortcuts = Some [str "/r/build/examples/tutorial/ns3-dev-first-debug"] ∧
      dget (str "sim") shortcuts = Some [str "/r/scratch/sim"]
  | Raise _ => False
  end.
Proof.
  pose proof (shortcuts_resolve (D:=PyDict pystr) (str "/r") (str "/r/build") (str "debug") (str "3-dev")
    (λ _, false) example_programs [str "/r/examples/run.py"] [str "/r/scratch/sim"]) as H.
  cbv zeta in H.
  replace (program_paths (str "/r/build") (str "debug") (str "3-dev") example_programs) with
    (Ok [(str "/r/build/examples/tutorial/ns3-dev-first-debug", [str "examples"; str "tutorial"; str "first"]);
         (str "/r/build/src/core/ns3-dev-first-debug", [str "src"; str "core"; str "first"]);
         (str "/r/build/scratch/ns3-dev-sim-debug", [str "scratch"; str "sim"])] : res exn _)
    in H by (vm_compute; reflexivity).
  destruct (get_program_shortcuts _ _ _ _ _ _ _ _) as [d|e]; [|done].
  split_and!; rewrite H; vm_compute; reflexivity.
Defined.

Lemma target_of_program_witness :
  get_target_to_build (str "/r/build") (str "/r/build/scratch/a/ns3-dev-sim-debug") (str "3-dev") (str "debug")
    = Ok (Some (str "scratch_a_sim")).
Proof.
  eapply (proj2 (target_of_program (str "/r/build") (str "/r/build/scratch/a/") (str "sim") (str "3-dev") (str "debug")
    ltac:(vm_compute; reflexivity) ltac:(by apply (bool_decide_unpack _); vm_compute) _)
    ltac:(vm_compute; reflexivity) (str "scratch/a/")); [vm_compute; reflexivity|done|vm_compute; reflexivity].
  Unshelve. intros i Hi. do 17 (destruct i as [|i]; [first [lia|vm_compute; reflexivity]|]).
  rewrite drop_ge; [done|].
  match goal with |- (length ?l ≤ _)%nat => change (length l) with 17%nat end. lia.
Defined.

Lemma executable_found_witness :
  executable_to_run (str "/r/build") (str "sim") (λ _, true) true false true (str "/r/build/scratch/ns3-dev-sim-debug")
    = Ok (str "/r/build/scratch/ns3-dev-sim-debug") ∧
  executable_to_run (str "/scratch/r/build") (str "sim") (λ _, true) true false true
      (str "/scratch/r/build/scratch/ns3-dev-sim-debug")
    = Ok (str "/scratch/r/build/ns3-dev-sim-debug").
Proof.
  split; [|vm_compute; reflexivity].
  apply (executable_found (str "/r/build") (str "sim") (λ _, true) true (str "scratch/ns3-dev-sim-debug")
    ltac:(vm_compute; reflexivity)).
  split; [done|]. exists (str "scratch"), [str "ns3-dev-sim-debug"].
  split; [vm_compute; reflexivity|]. by_decision.
Defined.
