(* ===== verification/Ns3Cache.v ===== *)
(** * The ns3 command-line wrapper: CMake caches and settings

    From the file ns3: [search_cmake_cache], [extract_cmakecache_settings] and
    [reconfigure_cmake_to_force_refresh].  A cache file is its folder and its
    text; the backup settings.json is the dictionary that json reads back from
    it.  What cmake does is an argument: its exit status and the cache file it
    leaves; so are [os.path.relpath] and the text that json writes. *)
From Stdlib Require Import Ascii String.
From S2P Require Export Ns3Targets.
Open Scope Z_scope.

(** ** The search for a cache *)

(** What a Python [if] makes of a string or [None]. *)
Definition truthy (o : option pystr) : bool :=
  match o with Some (_ :: _) => true | _ => false end.

(** [line.split('=')[-1]] *)
Definition last_field (line : pystr) : option pystr := last (split_char "=" line).

Section search.
Context (build_profile : option pystr) (which : pystr → option pystr).

Definition profile_matches (line : pystr) : bool :=
  contains (str "build_profile:INTERNAL") line &&
  (negb (truthy build_profile) || bool_decide (build_profile = last_field line)).

(** The loop over the lines of a file in [folder]. *)
Fixpoint scan_cache (folder : pystr) (found : option pystr * option pystr) (lines : list pystr) :
    option pystr * option pystr :=
  match lines with
  | [] => found
  | line :: lines =>
      if truthy found.1 && truthy found.2 then found
      else
        let found := if profile_matches line then (Some folder, found.2) else found in
        let found := if contains (str "CMAKE_GENERATOR:") line then (found.1, last_field line) else found in
        scan_cache folder found lines
  end.

Fixpoint scan_caches (found : option pystr * option pystr) (caches : list (pystr * pystr)) :
    option pystr * option pystr :=
  match caches with
  | [] => found
  | (folder, contents) :: caches =>
      if truthy found.1 && truthy found.2 then found
      else scan_caches (scan_cache folder (None, None) (split_char newline contents)) caches
  end.

Definition cmake_generator_map : list (pystr * pystr) :=
  [(str "ninja", str "Ninja"); (str "make", str "Unix Makefiles"); (str "xcodebuild", str "Xcode")].

Definition search_cmake_cache (caches : list (pystr * pystr)) : res exn (option pystr * pystr) :=
  let found := scan_caches (None, None) caches in
  match found.2 with
  | Some (c :: g) => mret (found.1, c :: g)
  | _ =>
      match base.filter (λ p, truthy (which p.1) = true) cmake_generator_map with
      | [] => Raise GenericException
      | (_, generator) :: _ => mret (found.1, generator)
      end
  end.
End search.

(** ** The settings of a cache *)

(** The text from the first occurrence of [p] on. *)
Fixpoint find_from (p s : pystr) : option pystr :=
  if startswith p s then Some s
  else match s with [] => None | _ :: s => find_from p s end.

(** The two halves around the last [c]. *)
Fixpoint rsplit_once (c : ascii) (s : pystr) : option (pystr * pystr) :=
  match s with
  | [] => None
  | a :: s =>
      match rsplit_once c s with
      | Some (l, r) => Some (a :: l, r)
      | None => if decide (a = c) then Some ([], s) else None
      end
  end.

(** The matches of the expressions on a line: any name that starts with NS3_, up
    to the last colon before the last equals sign; a name that is given. *)
Definition ns3_setting (line : pystr) : option (pystr * pystr) :=
  s ← find_from (str "NS3_") line;
  '(l, value) ← rsplit_once "=" s;
  '(name, _) ← rsplit_once ":" l;
  Some (name, value).
Definition named_setting (name line : pystr) : option (pystr * pystr) :=
  s ← find_from (name ++ str ":") line;
  '(_, value) ← rsplit_once "=" (drop (length name + 1) s);
  Some (name, value).

Definition setting_names : list pystr :=
  [str "CMAKE_BUILD_TYPE"; str "CMAKE_GENERATOR"; str "CMAKE_CXX_COMPILER"; str "CMAKE_CXX_FLAGS";
   str "CMAKE_C_COMPILER"; str "CMAKE_C_FLAGS"; str "CMAKE_INSTALL_PREFIX"].

Definition current_settings (contents : pystr) : list (pystr * pystr) :=
  let lines := split_char newline contents in
  omap ns3_setting lines ++ concat (map (λ name, omap (named_setting name) lines) setting_names).

Definition dict_of (l : list (pystr * pystr)) : PyDict pystr pystr :=
  fold_left (λ d p, dset p.1 p.2 d) l dempty.

Definition int64x64 : pystr := str "NS3_INT64X64-STRINGS".
Definition extract_cmakecache_settings (cache : option pystr) : res exn (PyDict pystr pystr) :=
  contents ← res_of_option OSError cache;
  ddelete int64x64 (dict_of (current_settings contents)).

(** ** Forcing a refresh *)

Inductive file_change : Type :=
  | Written (path text : pystr)
  | MadeDirectory (path : pystr)
  | Removed (path : pystr).

(** The folders cmake was run in and what it was asked with, the text to print at
    the exit, settings.json, the cache files with their folders, and the changes to
    files. *)
Record refresh_state : Type := RefreshState {
  cmake_runs : list (pystr * list pystr);
  print_buffer : pystr;
  backup : option (PyDict pystr pystr);
  caches : list (pystr * pystr);
  file_log : list file_change;
}.

(** The cache file of a folder, and those that are not inside it. *)
Definition read_cache (folder : pystr) (caches : list (pystr * pystr)) : option pystr :=
  snd <$> head (base.filter (λ c, c.1 = folder) caches).
Definition outside (folder : pystr) (caches : list (pystr * pystr)) : list (pystr * pystr) :=
  base.filter (λ c, startswith (folder ++ str "/") (c.1 ++ str "/") = false) caches.

Section refresh.
Context (cmake : pystr) (cmake_result : list pystr → Z * option pystr).
Context (relpath : pystr → pystr → pystr) (ns3_path : pystr) (json : PyDict pystr pystr → pystr)
  (current_scratch_sources : list pystr).

Definition settings_bak_file : pystr := str "settings.json".
Definition write_backup (settings : PyDict pystr pystr) (s : refresh_state) : refresh_state :=
  RefreshState (cmake_runs s) (print_buffer s) (Some settings) (caches s)
    (file_log s ++ [Written settings_bak_file (json settings)]).
Definition remove_backup (s : refresh_state) : refresh_state :=
  RefreshState (cmake_runs s) (print_buffer s) None (caches s) (file_log s ++ [Removed settings_bak_file]).
(** [shutil.rmtree] and [os.mkdir] *)
Definition empty_folder (folder : pystr) (s : refresh_state) : refresh_state :=
  RefreshState (cmake_runs s) (print_buffer s) (backup s) (outside folder (caches s))
    (file_log s ++ [Removed folder; MadeDirectory folder]).
Definition update_scratches_list (folder : pystr) (s : refresh_state) : refresh_state :=
  RefreshState (cmake_runs s) (print_buffer s) (backup s) (caches s)
    (file_log s ++ [Written (path_join folder (str "ns3scratches")) (join [newline] current_scratch_sources)]).
Definition buffer (message : pystr) (s : refresh_state) : refresh_state :=
  RefreshState (cmake_runs s) (print_buffer s ++ [newline] ++ message) (backup s) (caches s) (file_log s).

Definition setting_argument (p : pystr * pystr) : pystr := str "-D" ++ p.1 ++ str "=" ++ p.2.
Definition refresh_arguments (settings : PyDict pystr pystr) : list pystr :=
  cmake :: map setting_argument (base.filter (λ p, p.2 ≠ []) (items settings)) ++ [str ".."].

(** cmake leaves a cache file in its folder, or none. *)
Definition run_cmake (folder : pystr) (args : list pystr) : stm refresh_state Z := λ s,
  let '(status, text) := cmake_result args in
  (Ok status, RefreshState (cmake_runs s ++ [(folder, args)]) (print_buffer s) (backup s)
                (caches s ++ match text with Some t => [(folder, t)] | None => [] end) (file_log s)).

(** The settings come from the backup, if there is one; a folder that is [None]
    cannot be added to a string. *)
Definition settings_now (folder : option pystr) (s : refresh_state) : res exn (PyDict pystr pystr) :=
  match backup s, folder with
  | Some settings, _ => Ok settings
  | None, Some folder => extract_cmakecache_settings (read_cache folder (caches s))
  | None, None => Raise TypeError
  end.
(** [os.path.relpath] of nothing is a [ValueError]. *)
Definition some_path (folder : option pystr) : res exn pystr :=
  match folder with Some (c :: f) => Ok (c :: f) | _ => Raise ValueError end.

Definition reconfigure_cmake_to_force_refresh (folder : option pystr) (dry_run : bool) : stm refresh_state unit :=
  s ← st_get;
  settings ← (st_lift (settings_now folder s) : stm refresh_state _);
  folder ← (st_lift (some_path folder) : stm refresh_state _);
  let cache_path := relpath folder ns3_path in
  _ ← st_modify (buffer (str "rm -R " ++ cache_path ++ str "; mkdir " ++ cache_path));
  _ ← (if dry_run then mret tt else st_modify (empty_folder folder) : stm refresh_state unit);
  _ ← st_modify (write_backup settings);
  let args := refresh_arguments settings in
  _ ← st_modify (buffer (str "cd " ++ relpath ns3_path folder ++ str "; " ++ join (str " ") args
                           ++ str " ; cd " ++ relpath folder ns3_path));
  if dry_run then mret tt
  else
    status ← run_cmake folder args;
    _ ← (if status =? 0 then st_modify remove_backup else st_raise GenericException : stm refresh_state unit);
    st_modify (update_scratches_list folder).
End refresh.

(** ** Facts on the search *)

Definition generators (contents : pystr) : list (option pystr) :=
  map last_field (base.filter (λ l, contains (str "CMAKE_GENERATOR:") l = true) (split_char newline contents)).

Section search_facts.
Context (build_profile : option pystr).

Lemma truthy_Some_nonnil s : s ≠ [] → truthy (Some s) = true.
Proof. by destruct s. Qed.

(** A file with at most one generator: the scan finds it, and whether some line
    has the build profile. *)
Lemma scan_cache_spec folder f g lines gs :
  folder ≠ [] → (f = None ∨ f = Some folder) →
  map last_field (base.filter (λ l, contains (str "CMAKE_GENERATOR:") l = true) lines) = gs →
  Forall (λ o, truthy o = true) gs →
  (g = None ∧ (length gs ≤ 1)%nat ∨ gs = []) →
  scan_cache build_profile folder (f, g) lines =
    (if truthy f || existsb (profile_matches build_profile) lines then Some folder else None,
     match gs with g1 :: _ => g1 | [] => g end).
Proof.
  intros Hfolder. revert f g gs. induction lines as [|line lines IH]; intros f g gs Hf Hgs Htr Hg.
  - subst gs. cbn. by destruct Hf as [->| ->]; rewrite ?truthy_Some_nonnil.
  - cbn [scan_cache fst snd]. destruct (truthy f && truthy g) eqn:Estop.
    { apply andb_true_iff in Estop as [Ef Eg]. rewrite Ef. destruct Hg as [[-> _]| ->]; [done|].
      by destruct Hf as [->| ->]. }
    rewrite filter_cons in Hgs. cbn [existsb].
    assert (∀ f', f' = (if profile_matches build_profile line then Some folder else f) →
      (f' = None ∨ f' = Some folder) ∧
      truthy f' || existsb (profile_matches build_profile) lines =
      truthy f || (profile_matches build_profile line || existsb (profile_matches build_profile) lines)) as Hf'.
    { intros f' ->. destruct (profile_matches _ line); [|done].
      split; [by right|]. rewrite truthy_Some_nonnil by done. cbn [orb]. by rewrite orb_true_r. }
    destruct (Hf' _ eq_refl) as [Hin Hor]. rewrite <-Hor. clear Hf' Hor.
    set (f' := if profile_matches _ line then Some folder else f) in *.
    replace (if profile_matches build_profile line then (Some folder, g) else (f, g)) with (f', g)
      by (unfold f'; by destruct (profile_matches build_profile line)). cbn [fst].
    destruct (contains (str "CMAKE_GENERATOR:") line).
    + rewrite decide_True in Hgs by done. cbn [map] in Hgs. subst gs. apply Forall_cons in Htr as [Ht Htr].
      destruct Hg as [[-> Hlen]|[=]]. cbn [length] in Hlen.
      rewrite (IH _ _ _ Hin eq_refl Htr) by (right; by apply length_zero_iff_nil; lia).
      by destruct (map _ _); [|cbn in Hlen; lia].
    + rewrite decide_False in Hgs by done. by apply IH.
Qed.

(** When each cache file names one generator, the search returns the folder and
    the generator of the first file with the build profile; without such a file, no
    folder and the generator of the last file; without files, the first generator
    installed, or it raises when there is none. *)
Theorem search_cache_correct which caches :
  (∀ folder contents, (folder, contents) ∈ caches →
     folder ≠ [] ∧ ∃ g, generators contents = [Some g] ∧ g ≠ []) →
  let has_profile (c : pystr * pystr) := existsb (profile_matches build_profile) (split_char newline c.2) in
  match base.filter (λ c, has_profile c = true) caches, last caches with
  | (folder, contents) :: _, _ =>
      ∀ g, generators contents = [Some g] →
        search_cmake_cache build_profile which caches = Ok (Some folder, g)
  | [], Some (_, contents) =>
      ∀ g, generators contents = [Some g] → search_cmake_cache build_profile which caches = Ok (None, g)
  | [], None =>
      search_cmake_cache build_profile which caches =
      match base.filter (λ p, truthy (which p.1) = true) cmake_generator_map with
      | [] => Raise GenericException
      | p :: _ => Ok (None, p.2)
      end
  end.
Proof.
  intros Hall has_profile.
  assert (∀ folder contents g, folder ≠ [] → generators contents = [Some g] → g ≠ [] →
    scan_cache build_profile folder (None, None) (split_char newline contents) =
    (if has_profile (folder, contents) then Some folder else None, Some g)) as Hscan.
  { intros folder contents g Hfolder Hg Hne. unfold has_profile.
    rewrite (scan_cache_spec folder None None _ [Some g]); [done|done|by left|exact Hg| |left; cbn; by split; [|lia]].
    constructor; [by apply truthy_Some_nonnil|constructor]. }
  assert (∀ found, truthy found.1 = false → scan_caches build_profile found caches =
    match base.filter (λ c, has_profile c = true) caches, last caches with
    | (folder, contents) :: _, _ => (Some folder, default None (head (generators contents)))
    | [], Some (_, contents) => (None, default None (head (generators contents)))
    | [], None => found
    end) as Hfind.
  { revert Hall. induction caches as [|[folder contents] caches IH]; intros Hall found Hfound; [done|].
    destruct (Hall folder contents) as (Hfolder & g & Hg & Hne); [by left|].
    cbn [scan_caches]. rewrite Hfound. cbn [andb]. rewrite filter_cons. rewrite (Hscan _ _ g) by done.
    destruct (has_profile (folder, contents)).
    - rewrite decide_True by done. rewrite Hg. cbn [head default].
      destruct caches as [|[??] ?]; [done|].
      cbn [scan_caches fst snd]. by rewrite !truthy_Some_nonnil.
    - rewrite decide_False by done. rewrite IH; [|intros; apply Hall; by right|done].
      destruct (base.filter _ caches) as [|[??] ?]; [|done].
      destruct caches as [|c caches]; [by cbn; rewrite Hg|].
      change (last ((folder, contents) :: c :: caches)) with (last (c :: caches)).
      destruct (last (c :: caches)) eqn:El; [done|]. by apply last_None in El. }
  unfold search_cmake_cache. rewrite Hfind by done.
  assert (∀ folder contents g, (folder, contents) ∈ caches → generators contents = [Some g] → g ≠ []) as Hne.
  { intros folder contents g Hin Hg. apply Hall in Hin as (_ & g' & Hg' & Hne). congruence. }
  destruct (base.filter _ caches) as [|[folder contents] l] eqn:E.
  - destruct (last caches) as [[folder contents]|] eqn:El.
    + intros g Hg. rewrite Hg. cbn. apply last_Some_elem_of in El. specialize (Hne _ _ _ El Hg). by destruct g.
    + cbn [snd]. by destruct (base.filter _ cmake_generator_map) as [|[??] ?].
  - intros g Hg. rewrite Hg. cbn [head default snd fst].
    assert ((folder, contents) ∈ caches) as Hin.
    { assert ((folder, contents) ∈ (folder, contents) :: l) as H by left. rewrite <-E in H.
      by apply list_elem_of_filter in H as [_ ?]. }
    specialize (Hne _ _ _ Hin Hg). by destruct g.
Qed.
End search_facts.

(** ** Facts on the settings *)

Lemma startswith_app_r p s c v : c ∉ p → startswith p (s ++ c :: v) = startswith p s.
Proof.
  revert s; induction p as [|a p IH]; intros s Hc; [by destruct s|].
  apply not_elem_of_cons in Hc as [Ha Hc]. destruct s as [|b s]; cbn.
  - by rewrite bool_decide_eq_false_2 by congruence.
  - by rewrite IH.
Qed.

Lemma find_from_past p a c v :
  p ≠ [] → c ∉ p → contains p a = false → find_from p (a ++ c :: v) = find_from p v.
Proof.
  intros Hp Hc. induction a as [|x a IH]; intros Ha.
  - cbn [app find_from]. change (c :: v) with ([] ++ c :: v). rewrite startswith_app_r by done.
    by destruct p.
  - cbn [contains] in Ha. apply orb_false_iff in Ha as [Hs Ha].
    cbn [app find_from]. change (x :: a ++ c :: v) with ((x :: a) ++ c :: v).
    rewrite startswith_app_r, Hs by done. by apply IH.
Qed.

Lemma find_from_head p s : startswith p s = true → find_from p s = Some s.
Proof. intros Hs. destruct s; cbn [find_from]; by rewrite Hs. Qed.

Lemma find_from_suffix p s t : find_from p s = Some t → ∃ u, s = u ++ t.
Proof.
  induction s as [|a s IH]; cbn [find_from]; case_match; try done.
  - intros [= <-]. by exists [].
  - intros [= <-]. by exists [].
  - intros (u & ->)%IH. by exists (a :: u).
Qed.

Lemma rsplit_once_None c s : c ∉ s → rsplit_once c s = None.
Proof.
  induction s as [|a s IH]; [done|]. intros [? ?]%not_elem_of_cons. cbn.
  rewrite IH by done. by rewrite decide_False by congruence.
Qed.
Lemma rsplit_once_app c l r : c ∉ r → rsplit_once c (l ++ c :: r) = Some (l, r).
Proof.
  intros Hr. induction l as [|a l IH]; cbn.
  - rewrite rsplit_once_None by done. by rewrite decide_True.
  - by rewrite IH.
Qed.

(** A line that has no equals sign from some point on has no setting there. *)
Lemma find_from_no_setting {A} p s c (k : pystr * pystr → option A) n :
  c ∉ s → (t ← find_from p s; rsplit_once c (drop n t) ≫= k) = None.
Proof.
  intros Hc. destruct (find_from p s) as [t|] eqn:E; [|done]. cbn.
  apply find_from_suffix in E as [u ->]. rewrite rsplit_once_None; [done|].
  intros Hin. apply Hc, elem_of_app. right. by eapply subseteq_drop.
Qed.

(** The lines of a cache: a typed entry, or a comment. *)
Inductive cache_line : Type :=
  | CacheEntry (name type value : pystr)
  | CacheComment (text : pystr).
Definition cache_line_text (l : cache_line) : pystr :=
  match l with
  | CacheEntry name type value => (name ++ str ":" ++ type) ++ "="%char :: value
  | CacheComment text => text
  end.
Definition cache_text (ls : list cache_line) : pystr := join [newline] (map cache_line_text ls).

(** No separator in the parts, and no name that holds another name looked for. *)
Definition ns3_name (name : pystr) : bool := startswith (str "NS3_") name.
Definition plain (cs s : pystr) : bool := forallb (λ c, negb (bool_decide (c ∈ cs))) s.
Definition name_clear (name type : pystr) : bool :=
  (ns3_name name || negb (contains (str "NS3_") (name ++ str ":" ++ type))) &&
  forallb (λ n, bool_decide (n = name) || negb (contains (n ++ str ":") (name ++ str ":" ++ type))) setting_names.
Definition line_ok (l : cache_line) : bool :=
  match l with
  | CacheEntry name type value =>
      plain [":"%char; "="%char; newline] name && plain [":"%char; "="%char; newline] type &&
      plain ["="%char; newline] value && name_clear name type
  | CacheComment text => plain ["="%char; newline] text
  end.

Definition setting_name (name : pystr) : bool := ns3_name name || bool_decide (name ∈ setting_names).
(** The values that the lines give a name, in order. *)
Definition values (name : pystr) (ls : list cache_line) : list pystr :=
  omap (λ l, match l with CacheEntry n _ v => if decide (n = name) then Some v else None | _ => None end) ls.

Lemma plain_not cs s c : plain cs s = true → c ∈ cs → c ∉ s.
Proof.
  unfold plain. rewrite forallb_forall. intros H Hc Hin%list_elem_of_In. apply H in Hin.
  by rewrite bool_decide_eq_true_2 in Hin.
Qed.

Lemma ns3_setting_line l :
  line_ok l = true →
  ns3_setting (cache_line_text l) =
  match l with CacheEntry name _ value => if ns3_name name then Some (name, value) else None | _ => None end.
Proof.
  unfold ns3_setting. destruct l as [name type value|text]; cbn [line_ok cache_line_text].
  - intros (((Hn & Ht)%andb_true_iff & Hv)%andb_true_iff & (Hc & _)%andb_true_iff)%andb_true_iff.
    pose proof (plain_not _ _ "="%char Hv ltac:(by left)) as Hve.
    destruct (ns3_name name) eqn:En.
    + unfold ns3_name in En. apply startswith_spec in En as [t ->].
      rewrite <-!(app_assoc (str "NS3_")). rewrite find_from_head by apply startswith_app. cbn [mbind option_bind].
      rewrite !(app_assoc (str "NS3_")), rsplit_once_app by done. cbn [mbind option_bind].
      change (str ":" ++ type) with (":"%char :: type). rewrite rsplit_once_app; [done|].
      eapply plain_not; [done|by left].
    + apply negb_true_iff in Hc. rewrite find_from_past by
        (first [done|by apply (bool_decide_unpack _)|vm_compute; by intros]).
      apply (find_from_no_setting _ _ "="%char _ 0). done.
  - intros Ht. apply (find_from_no_setting _ _ "="%char _ 0). eapply plain_not; [done|by left].
Qed.

Lemma named_setting_line n l :
  n ∈ setting_names → line_ok l = true →
  named_setting n (cache_line_text l) =
  match l with CacheEntry name _ value => if decide (name = n) then Some (name, value) else None | _ => None end.
Proof.
  intros Hn. unfold named_setting. assert ("="%char ∉ n ++ str ":") as Hne.
  { revert n Hn. apply Forall_forall. by_decision. }
  destruct l as [name type value|text]; cbn [line_ok cache_line_text].
  - intros ((_ & Hv)%andb_true_iff & (_ & Hc)%andb_true_iff)%andb_true_iff.
    pose proof (plain_not _ _ "="%char Hv ltac:(by left)) as Hve.
    case_decide as Hname.
    + subst name. rewrite !app_assoc, <-(app_assoc (n ++ str ":")).
      rewrite find_from_head by apply startswith_app. cbn [mbind option_bind].
      replace (length n + 1)%nat with (length (n ++ str ":")) by (by rewrite length_app).
      by rewrite drop_app_length, rsplit_once_app.
    + rewrite forallb_forall in Hc. apply list_elem_of_In in Hn. apply Hc in Hn.
      rewrite bool_decide_eq_false_2 in Hn by congruence. apply negb_true_iff in Hn.
      rewrite find_from_past; [|by destruct n|done..].
      by apply (find_from_no_setting _ _ "="%char _ (length n + 1)).
  - intros Ht. apply (find_from_no_setting _ _ "="%char _ (length n + 1)). eapply plain_not; [done|by left].
Qed.

Definition pick (k : pystr) (l : list (pystr * pystr)) : list pystr :=
  omap (λ p, if decide (p.1 = k) then Some p.2 else None) l.

Lemma pick_app k l1 l2 : pick k (l1 ++ l2) = pick k l1 ++ pick k l2.
Proof. apply omap_app. Qed.

Lemma dict_of_get k l : dget k (dict_of l) = last (pick k l).
Proof.
  unfold dict_of. induction l as [|[k' v] l IH] using rev_ind; [done|].
  rewrite fold_left_app, pick_app. cbn [fold_left]. rewrite dget_set, IH. cbn.
  destruct (decide (k = k')) as [->|].
  - by rewrite decide_True, last_snoc.
  - by rewrite decide_False, app_nil_r.
Qed.

Section settings_facts.
Context (ls : list cache_line) (Hok : Forall (λ l, line_ok l = true) ls).

Lemma pick_settings (f : pystr → option (pystr * pystr)) (keep : pystr → bool) k :
  (∀ l, line_ok l = true → f (cache_line_text l) =
     match l with CacheEntry name _ value => if keep name then Some (name, value) else None | _ => None end) →
  pick k (omap f (map cache_line_text ls)) = if keep k then values k ls else [].
Proof.
  intros Hf. induction Hok as [|l ls' Hl Hls IH]; cbn [map]; [by destruct (keep k)|].
  specialize (IH Hls). unfold pick, values in *. cbn [omap list_omap]. rewrite (Hf _ Hl).
  destruct l as [name type value|text]; [|apply IH]. destruct (keep name) eqn:Ek; cbn.
  - destruct (decide (name = k)) as [->|]; [|apply IH]. by rewrite Ek in IH |- *; rewrite IH.
  - rewrite IH. destruct (keep k) eqn:Ek'; [|done]. by rewrite decide_False by congruence.
Qed.

Lemma pick_ns3 k : pick k (omap ns3_setting (map cache_line_text ls)) = if ns3_name k then values k ls else [].
Proof. apply pick_settings, ns3_setting_line. Qed.

Lemma pick_named k :
  pick k (concat (map (λ name, omap (named_setting name) (map cache_line_text ls)) setting_names)) =
  if bool_decide (k ∈ setting_names) then values k ls else [].
Proof.
  assert (∀ names, NoDup names → names ⊆ setting_names →
    pick k (concat (map (λ name, omap (named_setting name) (map cache_line_text ls)) names)) =
    if bool_decide (k ∈ names) then values k ls else []) as H.
  { induction 1 as [|n names Hn Hnd IH]; intros Hsub; [done|]. cbn [map concat]. rewrite pick_app, IH by set_solver.
    rewrite (pick_settings _ (λ name, bool_decide (name = n))).
    2:{ intros l Hl. rewrite named_setting_line; [|set_solver|done]. destruct l; [|done]. by repeat case_decide. }
    repeat case_bool_decide; subst; try done; try set_solver. by rewrite app_nil_r. }
  apply H; [|done]. by_decision.
Qed.

Lemma cache_text_settings k :
  pick k (current_settings (cache_text ls)) = if setting_name k then values k ls else [].
Proof.
  unfold current_settings.
  assert (pick k (omap ns3_setting (map cache_line_text ls) ++
    concat (map (λ name, omap (named_setting name) (map cache_line_text ls)) setting_names)) =
    if setting_name k then values k ls else []) as H.
  { rewrite pick_app, pick_ns3, pick_named. unfold setting_name. destruct (ns3_name k) eqn:E; cbn [orb]; [|done].
    rewrite bool_decide_eq_false_2; [by rewrite app_nil_r|]. intros Hin.
    enough (Forall (λ n, ns3_name n = false) setting_names) as Hf
      by (rewrite Forall_forall in Hf; apply Hf in Hin; congruence).
    by_decision. }
  destruct ls as [|l ls']; [done|]. unfold cache_text. rewrite split_char_join; [done|done|].
  apply Forall_map. eapply Forall_impl; [exact Hok|]. intros [name type value|text]; cbn [line_ok cache_line_text].
  - intros (((Hn & Ht)%andb_true_iff & Hv)%andb_true_iff & _)%andb_true_iff.
    pose proof (plain_not _ _ newline Hn ltac:(by do 2 right; left)).
    pose proof (plain_not _ _ newline Ht ltac:(by do 2 right; left)).
    pose proof (plain_not _ _ newline Hv ltac:(by right; left)).
    rewrite !not_elem_of_app, not_elem_of_cons. split_and!; [done| |done|done|done].
    by_decision.
  - intros Ht. eapply plain_not; [done|by right; left].
Qed.
End settings_facts.

(** From a cache whose values hold no equals sign the settings are, for each
    name looked for, the value of its last line, and nothing else; the name of
    the strings of int64x64 is dropped, and without it a [KeyError] is raised. *)
Theorem settings_extracted ls :
  Forall (λ l, line_ok l = true) ls →
  match extract_cmakecache_settings (Some (cache_text ls)) with
  | Ok settings =>
      values int64x64 ls ≠ [] ∧
      ∀ k, dget k settings =
        if setting_name k && bool_decide (k ≠ int64x64) then last (values k ls) else None
  | Raise e => e = KeyError ∧ values int64x64 ls = []
  end.
Proof.
  intros Hok. unfold extract_cmakecache_settings. cbn [res_of_option mbind res_bind]. unfold ddelete.
  pose proof (λ k, eq_trans (dict_of_get k _) (f_equal last (cache_text_settings ls Hok k))) as Hget.
  destruct (dhas int64x64 (dict_of (current_settings (cache_text ls)))) eqn:Eh.
  - apply dhas_true in Eh. rewrite Hget in Eh. change (setting_name int64x64) with true in Eh. split.
    + intros Hv. rewrite Hv in Eh. by destruct Eh.
    + intros k. rewrite dget_del, Hget. case_decide as Hk.
      * subst. by rewrite bool_decide_eq_false_2, andb_false_r by auto.
      * rewrite bool_decide_eq_true_2, andb_true_r by done. by destruct (setting_name k).
  - apply dhas_false in Eh. rewrite Hget in Eh. change (setting_name int64x64) with true in Eh.
    split; [done|]. by apply last_None.
Qed.

(** ** Facts on the refresh *)

(** One run of the script with a forced refresh: the build profile of the lock file,
    the order in which glob lists the cache files, the programs in the path, and what
    cmake does. *)
Record attempt : Type := Attempt {
  at_profile : option pystr;
  at_glob : list (pystr * pystr) → list (pystr * pystr);
  at_which : pystr → option pystr;
  at_cmake : list pystr → Z * option pystr;
}.

Section refresh_facts.
Context (cmake : pystr) (relpath : pystr → pystr → pystr) (ns3_path : pystr)
  (json : PyDict pystr pystr → pystr) (current_scratch_sources : list pystr).

Definition refresh (cmake_result : list pystr → Z * option pystr) (folder : option pystr) (dry_run : bool) :
    stm refresh_state unit :=
  reconfigure_cmake_to_force_refresh cmake cmake_result relpath ns3_path json current_scratch_sources folder dry_run.

Definition search (a : attempt) (s : refresh_state) : res exn (option pystr * pystr) :=
  search_cmake_cache (at_profile a) (at_which a) (at_glob a (caches s)).
Definition refresh_run (a : attempt) : stm refresh_state unit :=
  s ← st_get;
  '(folder, _) ← (st_lift (search a s) : stm refresh_state _);
  refresh (at_cmake a) folder false.

(** What a refresh in [folder] leaves. *)
Definition refresh_messages (folder : pystr) (settings : PyDict pystr pystr) : pystr :=
  [newline] ++ (str "rm -R " ++ relpath folder ns3_path ++ str "; mkdir " ++ relpath folder ns3_path) ++
  [newline] ++ (str "cd " ++ relpath ns3_path folder ++ str "; " ++ join (str " ") (refresh_arguments cmake settings)
                  ++ str " ; cd " ++ relpath folder ns3_path).

Lemma refresh_dry cmake_result s c f settings :
  settings_now (Some (c :: f)) s = Ok settings →
  refresh cmake_result (Some (c :: f)) true s =
    (Ok tt, RefreshState (cmake_runs s) (print_buffer s ++ refresh_messages (c :: f) settings) (Some settings)
              (caches s) (file_log s ++ [Written settings_bak_file (json settings)])).
Proof.
  intros Hs. unfold refresh, reconfigure_cmake_to_force_refresh, mbind, stm_bind, st_get, st_lift. rewrite Hs.
  destruct s as [runs out b cs l].
  unfold refresh_messages, mret, stm_ret, buffer, write_backup, st_modify.
  cbn -[join app str refresh_arguments]. by rewrite !app_assoc.
Qed.

(** The changes to files of a success. *)
Definition scratch_list (folder : pystr) : file_change :=
  Written (path_join folder (str "ns3scratches")) (join [newline] current_scratch_sources).
Definition refresh_log (folder : pystr) : list file_change := [Removed settings_bak_file; scratch_list folder].

Lemma refresh_real cmake_result s c f settings :
  settings_now (Some (c :: f)) s = Ok settings →
  let args := refresh_arguments cmake settings in
  ∃ out, refresh cmake_result (Some (c :: f)) false s =
    let '(status, text) := cmake_result args in
    let left := outside (c :: f) (caches s) ++ match text with Some t => [(c :: f, t)] | None => [] end in
    let changes := file_log s ++ [Removed (c :: f); MadeDirectory (c :: f); Written settings_bak_file (json settings)] in
    if status =? 0
    then (Ok tt, RefreshState (cmake_runs s ++ [(c :: f, args)]) out None left (changes ++ refresh_log (c :: f)))
    else (Raise GenericException, RefreshState (cmake_runs s ++ [(c :: f, args)]) out (Some settings) left changes).
Proof.
  intros Hs args. exists (print_buffer s ++ refresh_messages (c :: f) settings). unfold refresh_log.
  unfold refresh, reconfigure_cmake_to_force_refresh, mbind, stm_bind, st_get, st_lift. rewrite Hs.
  destruct s as [runs out b cs l].
  unfold refresh_messages, run_cmake, st_modify, mret, stm_ret, buffer, write_backup, remove_backup, update_scratches_list.
  cbn -[join app str refresh_arguments outside path_join]. subst args.
  destruct (cmake_result _) as [status text]. cbn -[join app str refresh_arguments outside path_join].
  destruct (status =? 0); cbn -[join app str refresh_arguments outside path_join]; rewrite <-!app_assoc; done.
Qed.

(** Runs of the script one after the other, whatever their outcomes. *)
Definition attempts (s : refresh_state) (l : list attempt) : refresh_state :=
  fold_left (λ s a, (refresh_run a s).2) l s.

Lemma refresh_run_found a s f generator :
  search a s = Ok (f, generator) → refresh_run a s = refresh (at_cmake a) f false s.
Proof. intros Hs. unfold refresh_run, mbind, stm_bind, st_get, st_lift. by rewrite Hs. Qed.

(** With a backup, a run uses it if it finds a folder. *)
Lemma refresh_run_backup a s settings : backup s = Some settings →
  let args := refresh_arguments cmake settings in
  match search a s with
  | Ok (Some (c :: f), _) =>
      let status := (at_cmake a args).1 in
      cmake_runs (refresh_run a s).2 = cmake_runs s ++ [(c :: f, args)] ∧
      (status = 0 → (refresh_run a s).1 = Ok tt ∧ backup (refresh_run a s).2 = None ∧
         last (file_log (refresh_run a s).2) = Some (scratch_list (c :: f))) ∧
      (status ≠ 0 → (refresh_run a s).1 = Raise GenericException ∧ backup (refresh_run a s).2 = Some settings)
  | Ok (_, _) => refresh_run a s = (Raise ValueError, s)
  | Raise e => refresh_run a s = (Raise e, s)
  end.
Proof.
  intros Hb args. destruct (search a s) as [[f generator]|e] eqn:E.
  2: { unfold refresh_run, mbind, stm_bind, st_get, st_lift. by rewrite E. }
  rewrite (refresh_run_found a s f generator E).
  assert (settings_now f s = Ok settings) as Hs by (unfold settings_now; by rewrite Hb).
  destruct f as [[|c f]|]; [|destruct (refresh_real (at_cmake a) s c f settings Hs) as (out & ->)|].
  - unfold refresh, reconfigure_cmake_to_force_refresh, mbind, stm_bind, st_get, st_lift. by rewrite Hs.
  - cbv zeta. fold args. destruct (at_cmake a args) as [status text]. cbn [fst snd].
    destruct (Z.eqb_spec status 0); cbn [fst snd cmake_runs backup file_log]; split_and!; try done.
    intros _. split_and!; [done|done|]. by rewrite last_app.
  - unfold refresh, reconfigure_cmake_to_force_refresh, mbind, stm_bind, st_get, st_lift. by rewrite Hs.
Qed.

Lemma attempts_failing l s settings :
  let args := refresh_arguments cmake settings in
  backup s = Some settings → Forall (λ a, (at_cmake a args).1 ≠ 0) l →
  backup (attempts s l) = Some settings ∧
  ∃ fs, cmake_runs (attempts s l) = cmake_runs s ++ map (λ f, (f, args)) fs.
Proof.
  intros args Hb Hf. revert s Hb. induction Hf as [|a l Ha Hf IH]; intros s Hb; cbn [attempts fold_left].
  - split; [done|]. exists []. by rewrite app_nil_r.
  - pose proof (refresh_run_backup a s settings Hb) as H. cbv zeta in H. fold args in H.
    assert (backup (refresh_run a s).2 = Some settings ∧
      ∃ fs, cmake_runs (refresh_run a s).2 = cmake_runs s ++ map (λ f, (f, args)) fs) as [Hb' (fs & Hfs)].
    { destruct (search a s) as [[[[|c f]|] g]|e]; [by rewrite H; split; [|exists []; rewrite app_nil_r]| |
        by rewrite H; split; [|exists []; rewrite app_nil_r]..].
      destruct H as (H1 & _ & H2). split; [by apply H2|]. by exists [c :: f]. }
    destruct (IH _ Hb') as [IH1 (fs' & IH2)]. split; [done|]. exists (fs ++ fs').
    unfold attempts in IH2. by rewrite IH2, Hfs, map_app, <-app_assoc.
Qed.

(** C24: a forced refresh that fails in cmake can be repeated, however often cmake
    fails.  The first run finds the folder of the cache and its settings, and fails;
    from then on every run that finds a folder passes cmake the settings of before the
    first one, whatever cache that folder holds, and the first success removes the
    backup and stores the list of scratch programs.  But cmake must have left a cache file of the build profile: a run that
    finds none raises [ValueError] and does nothing, and so does the next one. *)
Theorem refresh_retries s settings first c f generator rest :
  search first s = Ok (Some (c :: f), generator) → settings_now (Some (c :: f)) s = Ok settings →
  let args := refresh_arguments cmake settings in
  Forall (λ a, (at_cmake a args).1 ≠ 0) (first :: rest) →
  let s' := attempts s (first :: rest) in
  (∃ fs, cmake_runs s' = cmake_runs s ++ map (λ f, (f, args)) ((c :: f) :: fs)) ∧
  backup s' = Some settings ∧
  ∀ again,
    match search again s' with
    | Ok (Some (c' :: f'), _) =>
        let status := (at_cmake again args).1 in
        cmake_runs (refresh_run again s').2 = cmake_runs s' ++ [(c' :: f', args)] ∧
        (status = 0 → (refresh_run again s').1 = Ok tt ∧ backup (refresh_run again s').2 = None ∧
           last (file_log (refresh_run again s').2) = Some (scratch_list (c' :: f'))) ∧
        (status ≠ 0 → (refresh_run again s').1 = Raise GenericException ∧ backup (refresh_run again s').2 = Some settings)
    | Ok (_, _) => refresh_run again s' = (Raise ValueError, s')
    | Raise e => refresh_run again s' = (Raise e, s')
    end.
Proof.
  intros Hfind Hs args [Hfirst Hrest]%Forall_cons s'.
  assert (backup (refresh_run first s).2 = Some settings ∧
    cmake_runs (refresh_run first s).2 = cmake_runs s ++ [(c :: f, args)]) as [Hb Hr].
  { rewrite (refresh_run_found _ _ _ _ Hfind). destruct (refresh_real (at_cmake first) s c f settings Hs) as (out & ->).
    cbv zeta. fold args. destruct (at_cmake first args) as [status text]. cbn [fst] in Hfirst.
    by rewrite (proj2 (Z.eqb_neq _ _)). }
  destruct (attempts_failing rest _ settings Hb Hrest) as [Hb' (fs & Hfs)]. split_and!.
  - exists fs. unfold s'. cbn [attempts fold_left]. fold args in Hfs. unfold attempts in Hfs. rewrite Hfs, Hr.
    by rewrite <-app_assoc.
  - exact Hb'.
  - intros again. by apply refresh_run_backup.
Qed.

(** A dry run of a forced refresh runs nothing but writes the backup, so that
    whatever happens to the cache afterwards, the next refresh uses the settings
    that the dry run saw. *)
Theorem dry_run_pins_settings s c f c' f' settings result1 result2 s' :
  settings_now (Some (c :: f)) s = Ok settings →
  backup s' = backup (refresh result1 (Some (c :: f)) true s).2 →
  (refresh result1 (Some (c :: f)) true s).1 = Ok tt ∧
  caches (refresh result1 (Some (c :: f)) true s).2 = caches s ∧
  cmake_runs (refresh result1 (Some (c :: f)) true s).2 = cmake_runs s ∧
  file_log (refresh result1 (Some (c :: f)) true s).2 = file_log s ++ [Written settings_bak_file (json settings)] ∧
  cmake_runs (refresh result2 (Some (c' :: f')) false s').2 =
    cmake_runs s' ++ [(c' :: f', refresh_arguments cmake settings)].
Proof.
  intros Hs Hb. rewrite (refresh_dry result1 s c f settings Hs) in *. cbn [fst snd caches cmake_runs backup file_log] in *.
  split_and!; try done.
  destruct (refresh_real result2 s' c' f' settings) as (out & ->); [unfold settings_now; by rewrite Hb|].
  cbv zeta. destruct (result2 _) as [status contents]. by destruct (status =? 0).
Qed.
End refresh_facts.

(** ** Concrete instances *)

Definition example_cache : list cache_line :=
  [CacheComment (str "# CMake cache"); CacheEntry (str "CMAKE_BUILD_TYPE") (str "STRING") (str "debug");
   CacheEntry (str "CMAKE_CXX_FLAGS") (str "STRING") [];
   CacheEntry (str "NS3_TESTS") (str "BOOL") (str "ON");
   CacheEntry (str "NS3_INT64X64-STRINGS") (str "INTERNAL") (str "INT128;CAIRO");
   CacheEntry (str "CMAKE_GENERATOR") (str "INTERNAL") (str "Ninja");
   CacheEntry (str "build_profile") (str "INTERNAL") (str "debug")].

Lemma search_cache_correct_witness :
  search_cmake_cache (Some (str "debug")) (λ _, None)
    [(str "/r/a", str "CMAKE_GENERATOR:INTERNAL=Xcode"); (str "/r/b", cache_text example_cache)]
  = Ok (Some (str "/r/b"), str "Ninja").
Proof.
  pose proof (search_cache_correct (Some (str "debug")) (λ _, None)
    [(str "/r/a", str "CMAKE_GENERATOR:INTERNAL=Xcode"); (str "/r/b", cache_text example_cache)]) as H.
  cbv zeta in H. match type of H with ?P → _ => assert P as HP; [|specialize (H HP)] end.
  - intros folder contents [[= -> ->]|[[= -> ->]|[]%elem_of_nil]%elem_of_cons]%elem_of_cons.
    + split; [done|]. exists (str "Xcode"). by split; [vm_compute; reflexivity|].
    + split; [done|]. exists (str "Ninja"). by split; [vm_compute; reflexivity|].
  - match type of H with match ?f with _ => _ end => destruct f as [|[folder contents] l] eqn:E end;
      vm_compute in E; [discriminate E|].
    injection E as <- <- <-. apply H. vm_compute. reflexivity.
Defined.

Lemma settings_extracted_witness :
  match extract_cmakecache_settings (Some (cache_text example_cache)) with
  | Ok settings => dget (str "NS3_TESTS") settings = Some (str "ON") ∧ dget (str "build_profile") settings = None
  | Raise _ => False
  end.
Proof.
  pose proof (settings_extracted example_cache ltac:(by_decision)) as H.
  destruct (extract_cmakecache_settings _) as [settings|e].
  - destruct H as [_ H]. rewrite !H. by vm_compute.
  - destruct H as [_ H]. by vm_compute in H.
Defined.

(** A value with an equals sign loses what stands before the last one. *)
Example flags_truncated :
  (items <$> extract_cmakecache_settings
     (Some (str "NS3_INT64X64-STRINGS:INTERNAL=" ++ [newline] ++ str "CMAKE_CXX_FLAGS:STRING=-std=c++20")))
  = Ok [(str "CMAKE_CXX_FLAGS", str "c++20")].
Proof. vm_compute. reflexivity. Qed.

Definition example_settings : PyDict pystr pystr :=
  dict_of [(str "NS3_TESTS", str "ON"); (str "CMAKE_BUILD_TYPE", str "debug"); (str "CMAKE_CXX_FLAGS", []);
           (str "CMAKE_GENERATOR", str "Ninja")].
Definition example_state : refresh_state :=
  RefreshState [] [] None [(str "/r/a", str "CMAKE_GENERATOR:INTERNAL=Xcode"); (str "/r/b", cache_text example_cache)] [].
(** A run whose cmake has the given status and leaves the given cache file. *)
Definition example_attempt (status : Z) (left : option pystr) : attempt :=
  Attempt (Some (str "debug")) id (λ name, Some (str "/usr/bin/" ++ name)) (λ _, (status, left)).
Definition partial_cache : pystr := str "build_profile:INTERNAL=debug" ++ [newline] ++ str "CMAKE_GENERATOR:INTERNAL=Ninja".
Definition no_path (path _ : pystr) : pystr := path.
Definition no_json (_ : PyDict pystr pystr) : pystr := [].
Definition example_words : list pystr :=
  [str "cmake"; str "-DNS3_TESTS=ON"; str "-DCMAKE_BUILD_TYPE=debug"; str "-DCMAKE_GENERATOR=Ninja"; str ".."].

(** cmake fails twice and leaves a cache without the settings; the third run passes
    them again. *)
Lemma refresh_retries_witness :
  let run := refresh_run (str "cmake") no_path (str "/r") no_json [] in
  let s' := attempts (str "cmake") no_path (str "/r") no_json [] example_state
              [example_attempt 1 (Some partial_cache); example_attempt 2 (Some partial_cache)] in
  cmake_runs (run (example_attempt 0 None) s').2 = replicate 3 (str "/r/b", example_words) ∧
  (run (example_attempt 0 None) s').1 = Ok tt ∧ backup (run (example_attempt 0 None) s').2 = None.
Proof.
  assert (match extract_cmakecache_settings (Some (cache_text example_cache)) with
    | Ok settings => refresh_arguments (str "cmake") settings | Raise _ => [] end = example_words) as Hw
    by (vm_compute; reflexivity).
  destruct (extract_cmakecache_settings (Some (cache_text example_cache))) as [settings|e] eqn:E;
    [|vm_compute in E; discriminate E].
  destruct (refresh_retries (str "cmake") no_path (str "/r") no_json [] example_state settings
    (example_attempt 1 (Some partial_cache)) "/"%char (str "r/b") (str "Ninja") [example_attempt 2 (Some partial_cache)])
    as (_ & _ & H).
  - vm_compute. reflexivity.
  - exact E.
  - repeat constructor; cbn; lia.
  - specialize (H (example_attempt 0 None)). rewrite Hw in H. intros run s'. fold s' in H.
    assert (search (example_attempt 0 None) s' = Ok (Some (str "/r/b"), str "Ninja")) as Hsearch
      by (vm_compute; reflexivity).
    rewrite Hsearch in H. destruct H as (H1 & H2 & _). specialize (H2 eq_refl). split; [|split; apply H2].
    unfold run. rewrite H1. vm_compute. reflexivity.
Defined.

(** cmake fails before it writes a cache file: the refresh cannot be repeated. *)
Example refresh_stuck :
  let run := refresh_run (str "cmake") no_path (str "/r") no_json [] in
  let s' := attempts (str "cmake") no_path (str "/r") no_json [] example_state [example_attempt 1 None] in
  (run (example_attempt 0 None) s').1 = Raise ValueError ∧ (run (example_attempt 0 None) s').2 = s'.
Proof. vm_compute. done. Qed.

Lemma dry_run_pins_settings_witness :
  cmake_runs (refresh (str "cmake") no_path (str "/r") no_json [] (λ _, (0, None)) (Some (str "/r/a")) false
    (RefreshState [] [] (Some example_settings) [] [])).2
  = [(str "/r/a", example_words)].
Proof.
  apply (dry_run_pins_settings (str "cmake") no_path (str "/r") no_json []
    (RefreshState [] [] (Some example_settings) [] []) "/"%char (str "r/b") "/"%char (str "r/a") example_settings
    (λ _, (0, None)) (λ _, (0, None)) (RefreshState [] [] (Some example_settings) [] []) eq_refl eq_refl).
Defined.
