(* ===== verification/Ns3Main.v ===== *)
(** * The ns3 command-line wrapper: building, running and [main]

    From the file ns3: the end of [parse_args], [check_lock_data],
    [configure_cmake], [cmake_build], [build_step], [run_step], [sudo_step] and
    [main].  What argparse returns is the record [args], what the lock file
    assigns is [lock_info], and the rest of the machine is [machine]: files,
    programs in the path, caches, and the exit status of every command as a
    function of the commands run up to it.  A file is what it was at the start: the
    lock file that cmake writes again while the script runs is not modelled. *)
From Stdlib Require Import Ascii String.
From S2P Require Export Ns3Cache.
Open Scope Z_scope.

(** ** The end of [parse_args] *)

(** The value of an attribute of the arguments. *)
Inductive attr : Type := ANone | ABool (b : bool) | AInt (z : Z) | AStr (s : pystr).
#[export] Instance attr_eq_dec : EqDecision attr.
Proof. solve_decision. Defined.

Definition mergeable (attributes : list (pystr * attr)) : list (pystr * attr) :=
  base.filter (λ a, negb (contains (str "disable") a.1) && negb (contains (str "enable") a.1) = true) attributes.

(** Whether one of the attributes whose name contains the given one is [True]. *)
Definition merge_flag (attribute : pystr) (attributes : list (pystr * attr)) : bool :=
  existsb (λ a, contains attribute a.1 && bool_decide (a.2 = ABool true)) (mergeable attributes).

Definition int_of (a : attr) : res exn Z :=
  match a with
  | AInt z => mret z
  | AStr s => py_int 10 s
  | ABool b => mret (if b then 1 else 0)
  | ANone => Raise TypeError
  end.
Definition merge_jobs (max_cpu_threads : Z) (attributes : list (pystr * attr)) : res exn Z :=
  values ← mapM_res (λ a, if contains (str "jobs") a.1 then int_of a.2 else mret max_cpu_threads)
             (mergeable attributes);
  match values with [] => Raise ValueError | z :: zs => mret (fold_left Z.min zs z) end.

(** What follows the first [--], if some argument was not known. *)
Fixpoint after_separator (argv : list pystr) : option (list pystr) :=
  match argv with
  | [] => None
  | a :: argv => if bool_decide (a = str "--") then Some argv else after_separator argv
  end.
Definition forwarded_args (unknown_args argv : list pystr) : res exn (list pystr) :=
  match unknown_args with
  | [] => mret []
  | _ => res_of_option GenericException (after_separator argv)
  end.

(** ** The data *)

Record configure_options : Type := ConfigureOptions {
  o_build_profile : option pystr;
  o_G : option pystr;
  o_cxx_standard : option pystr;
  o_switch : pystr → option bool * option bool;
  o_lcov_zerocounters : option bool;
  o_output_directory : option pystr;
  o_with_brite : option pystr;
  o_with_click : option pystr;
  o_with_openflow : option pystr;
  o_prefix : option pystr;
  o_enable_modules : option pystr;
  o_disable_modules : option pystr;
  o_trace_cmake_perf : bool;
  o_force_refresh : bool;
}.

Record args : Type := Args {
  a_only : bool;
  a_dry_run : bool;
  a_quiet : bool;
  a_jobs : Z;
  a_clean : bool;
  a_configure : option configure_options;
  a_install : bool;
  a_uninstall : bool;
  a_docs : option pystr;
  a_show : option pystr;
  a_shell : bool;
  a_build : option (list pystr);
  a_run : option pystr;
  a_run_verbose : bool;
  a_no_build : bool;
  a_enable_sudo : bool;
  a_cwd : option pystr;
  a_valgrind : bool;
  a_gdb : bool;
  a_lldb : bool;
  a_visualize : bool;
  a_command_template : option pystr;
  a_program_args : list pystr;
}.

Record lock_info : Type := LockInfo {
  l_enabled_modules : list pystr;
  l_contributed_modules : list pystr;
  l_build_profile : pystr;
  l_version : pystr;
  l_examples : bool;
  l_sudo : bool;
  l_tests : bool;
  l_python_bindings : bool;
  l_scan_python_bindings : bool;
  l_programs : list pystr;
  l_scripts : list pystr;
}.

Record machine : Type := Machine {
  m_user : pystr;
  m_ns3_path : pystr;
  m_out_dir : pystr;
  m_lock_file : pystr;
  m_lock : option lock_info;
  m_exists : pystr → bool;
  m_caches : list (pystr * pystr);
  m_config_table : pystr → pystr;
  m_scratch_sources : list pystr;
  m_scratch_scripts : list pystr;
  m_previous_scratches : pystr → option pystr;
  m_which : pystr → option pystr;
  m_cmake_version : pystr;
  m_setuid : pystr → bool;
  m_env : pystr → option pystr;
  m_set_order : list pystr → list pystr;
  m_error_text : pystr → Z → pystr;
  m_relpath : pystr → pystr → pystr;
  m_sudo_output : list pystr → pystr * pystr;
  m_settings : option (PyDict pystr pystr);
  m_json : PyDict pystr pystr → pystr;
  m_status : list (list pystr) → Z;
}.

(** The commands run, what was printed, the buffer of [exit_handler], the changes to
    files, and how often cmake was asked for its version, which only prints it and is
    not counted as a command. *)
Record world : Type := World {
  w_ran : list (list pystr);
  w_out : list pystr;
  w_buffer : pystr;
  w_run_verbose : bool;
  w_changes : list file_change;
  w_version_queries : nat;
}.
Definition print (line : pystr) : stm world unit :=
  st_modify (λ w, World (w_ran w) (w_out w ++ [line]) (w_buffer w) (w_run_verbose w) (w_changes w) (w_version_queries w)).
Definition print_and_buffer (message : pystr) : stm world unit :=
  st_modify (λ w, World (w_ran w) (w_out w) (w_buffer w ++ [newline] ++ message) (w_run_verbose w)
    (w_changes w) (w_version_queries w)).
Definition set_run_verbose (b : bool) : stm world unit :=
  st_modify (λ w, World (w_ran w) (w_out w) (w_buffer w) b (w_changes w) (w_version_queries w)).
Definition change (c : file_change) : stm world unit :=
  st_modify (λ w, World (w_ran w) (w_out w) (w_buffer w) (w_run_verbose w) (w_changes w ++ [c]) (w_version_queries w)).
Definition ask_version : stm world unit :=
  st_modify (λ w, World (w_ran w) (w_out w) (w_buffer w) (w_run_verbose w) (w_changes w) (S (w_version_queries w))).

(** [exit_handler], which [atexit] calls at the end. *)
Definition exit_handler (dry_run : bool) (w : world) : list pystr :=
  if (negb dry_run && negb (w_run_verbose w)) || bool_decide (w_buffer w = []) then w_out w
  else w_out w ++ [if dry_run then str "The following commands would be executed:"
                   else str "Finished executing the following commands:"; tail (w_buffer w)].

(** [s.split()] *)
Fixpoint split_words_go (word : pystr) (s : pystr) : list pystr :=
  let flush := match word with [] => [] | _ => [rev word] end in
  match s with
  | [] => flush
  | c :: s => if is_space c then flush ++ split_words_go [] s else split_words_go (c :: word) s
  end.
Definition split_words (s : pystr) : list pystr := split_words_go [] s.

Definition lower_char (c : ascii) : ascii :=
  if between 65 90 c then ascii_of_nat (nat_of_ascii c + 32) else c.
Definition lower (s : pystr) : pystr := map lower_char s.

(** ** Configuring *)

Definition on_off (b : bool) : pystr := if b then str "ON" else str "OFF".
Definition truth (b : option bool) : bool := default false b.
Definition on_off_condition (switch : option bool * option bool) (cmake_flag : pystr) : option pystr :=
  match switch with
  | (None, None) => None
  | (enable, disable) =>
      Some (str "-DNS3_" ++ cmake_flag ++ str "=" ++ on_off (truth enable && negb (truth disable)))
  end.

Definition switches : list (pystr * pystr) :=
  [(str "ASSERT", str "asserts"); (str "COVERAGE", str "gcov"); (str "DES_METRICS", str "des_metrics");
   (str "DPDK", str "dpdk"); (str "ENABLE_BUILD_VERSION", str "build_version"); (str "ENABLE_SUDO", str "sudo");
   (str "EXAMPLES", str "examples"); (str "GSL", str "gsl"); (str "GTK3", str "gtk"); (str "LOG", str "logs");
   (str "MONOLIB", str "monolib"); (str "MPI", str "mpi"); (str "PYTHON_BINDINGS", str "python_bindings");
   (str "SANITIZE", str "sanitizers"); (str "STATIC", str "static"); (str "TESTS", str "tests");
   (str "VERBOSE", str "verbose"); (str "WARNINGS", str "warnings"); (str "WARNINGS_AS_ERRORS", str "werror")].

Definition build_types : list pystr := [str "debug"; str "default"; str "release"; str "optimized"].
Definition build_type_arguments (profile : pystr) : res exn (list pystr) :=
  if negb (bool_decide (profile ∈ build_types)) then Raise GenericException
  else
    mret (split_words
            (if bool_decide (profile = str "debug")
             then str "-DCMAKE_BUILD_TYPE=debug -DNS3_ASSERT=ON -DNS3_LOG=ON -DNS3_WARNINGS_AS_ERRORS=ON"
             else if bool_decide (profile = str "default")
             then str "-DCMAKE_BUILD_TYPE=default -DNS3_ASSERT=ON -DNS3_LOG=ON -DNS3_WARNINGS_AS_ERRORS=OFF"
             else str "-DCMAKE_BUILD_TYPE=release -DNS3_ASSERT=OFF -DNS3_LOG=OFF -DNS3_WARNINGS_AS_ERRORS=OFF")
          ++ [str "-DNS3_NATIVE_OPTIMIZATIONS=" ++ on_off (bool_decide (profile = str "optimized"))]).

Definition given (prefix : pystr) (o : option pystr) : list pystr :=
  match o with Some s => [prefix ++ s] | None => [] end.
Definition given_truthy (prefix : pystr) (o : option pystr) : list pystr :=
  if truthy o then given prefix o else [].

(** The arguments for cmake; [trace_file] is the file of the performance trace. *)
Definition configure_arguments (cmake : pystr) (configured : bool) (generator trace_file : pystr)
    (o : configure_options) (program_args : list pystr) : res exn (list pystr) :=
  let build_profile := if configured then o_build_profile o else Some (default (str "default") (o_build_profile o)) in
  let G := if configured then o_G o else Some (default generator (o_G o)) in
  build_type ← match build_profile with
    | None => mret []
    | Some profile => build_type_arguments (lower profile)
    end;
  mret ([cmake] ++ given (str "-DCMAKE_CXX_STANDARD=") (o_cxx_standard o) ++ build_type
    ++ omap (λ s, on_off_condition (o_switch o s.2) s.1) switches
    ++ given (str "-DNS3_COVERAGE_ZERO_COUNTERS=") (on_off <$> o_lcov_zerocounters o)
    ++ given (str "-DNS3_OUTPUT_DIRECTORY=") (o_output_directory o)
    ++ given (str "-DNS3_WITH_BRITE=") (o_with_brite o)
    ++ given (str "-DNS3_WITH_CLICK=") (o_with_click o)
    ++ given (str "-DNS3_WITH_OPENFLOW=") (o_with_openflow o)
    ++ given (str "-DCMAKE_INSTALL_PREFIX=") (o_prefix o)
    ++ given_truthy (str "-DNS3_ENABLED_MODULES=") (o_enable_modules o)
    ++ given_truthy (str "-DNS3_DISABLED_MODULES=") (o_disable_modules o)
    ++ (if truthy G then [str "-G"; default [] G] else [])
    ++ (if o_trace_cmake_perf o
        then [str "--profiling-format=google-trace"; str "--profiling-output=" ++ trace_file] else [])
    ++ program_args ++ [str ".."]).

(** ** The steps of the wrapper *)

Section wrapper.
Context (m : machine) (a : args).

Definition run_command (command : list pystr) : stm world Z := λ w,
  let ran := w_ran w ++ [command] in
  (Ok (m_status m ran), World ran (w_out w) (w_buffer w) (w_run_verbose w) (w_changes w) (w_version_queries w)).
(** A command whose failure ends the script with its status. *)
Definition run_checked (command : list pystr) : stm world unit :=
  status ← run_command command;
  if status =? 0 then mret tt else st_raise (SystemExit status).
Definition unless_dry (c : stm world unit) : stm world unit := if a_dry_run a then mret tt else c.

Definition update_scratches (folder : pystr) : stm world unit :=
  change (Written (path_join folder (str "ns3scratches")) (join [newline] (m_scratch_sources m))).
Definition refresh_cmake (folder : pystr) : stm world unit :=
  cmake ← st_lift (res_of_option TypeError (m_which m (str "cmake")));
  _ ← run_checked [cmake; str ".."];
  update_scratches folder.

Definition project_not_configured : stm world unit :=
  _ ← print (str "You need to configure ns-3 first: try ./ns3 configure");
  st_raise (SystemExit 1).
Definition cache_file (folder : pystr) : pystr := join (str "/") [folder; str "CMakeCache.txt"].
Definition project_configured (folder : option pystr) : bool :=
  match folder with
  | Some (c :: f) => m_exists m (c :: f) && m_exists m (cache_file (c :: f))
  | _ => false
  end.
Definition check_config (folder : option pystr) : stm world unit :=
  match folder with
  | None => project_not_configured
  | Some folder =>
      let table := folder ++ str "/ns3config.txt" in
      if m_exists m table then print (m_config_table m table) else project_not_configured
  end.

Definition check_lock_data : option (list pystr) :=
  match m_lock m with
  | None => None
  | Some l =>
      match l_enabled_modules l with
      | [] => Some []
      | _ =>
          let modules := l_enabled_modules l ++ l_contributed_modules l in
          let suffixed (b : bool) (suffix : pystr) := if b then map (λ x, x ++ suffix) modules else [] in
          Some (modules ++ suffixed (l_tests l) (str "-test")
                  ++ suffixed (l_scan_python_bindings l) (str "-apiscan")
                  ++ suffixed (l_python_bindings l) (str "-bindings"))
      end
  end.

Definition cmake_check_version : stm world pystr :=
  match m_which m (str "cmake") with
  | Some (c :: cmake) =>
      _ ← ask_version;
      version ← st_lift (parse_version (m_cmake_version m));
      if tuple_ltb version [3; 10; 0] then
        _ ← print (str "Error:  CMake found at " ++ c :: cmake ++ str " but version " ++ m_cmake_version m
                     ++ str " is older than 3.10");
        st_raise (SystemExit 1)
      else mret (c :: cmake)
  | _ =>
      _ ← print (str "Error:  CMake not found; please install version 3.10 or greater, or modify $PATH");
      st_raise (SystemExit 1)
  end.

(** The command in a folder below the source directory, as it is echoed. *)
Definition echo_in (folder : pystr) (command : pystr) : stm world unit :=
  print_and_buffer (str "cd " ++ m_relpath m folder (m_ns3_path m) ++ str "; " ++ command ++ str " ; cd "
                      ++ m_relpath m (m_ns3_path m) folder).

Definition build_command (target : option pystr) : res exn pystr :=
  version ← parse_version (m_cmake_version m);
  mret (str "cmake --build . "
    ++ (if tuple_ltb version [3; 12; 0] then [] else str "-j " ++ str_of_Z (a_jobs a))
    ++ (if truthy target then str " --target " ++ default [] target else [])).
Definition cmake_build (folder : pystr) (target : option pystr) : stm world unit :=
  _ ← cmake_check_version;
  command ← st_lift (build_command target);
  _ ← echo_in folder command;
  unless_dry (run_checked (split_words command)).

Definition configure_cmake (cmake : pystr) (o : configure_options) (folder : option pystr) (generator : pystr) :
    stm world unit :=
  let configured := project_configured folder in
  let folder := if configured then default [] folder else join (str "/") [m_ns3_path m; str "cmake-cache"] in
  _ ← (if negb configured && negb (m_exists m folder)
       then _ ← print_and_buffer (str "mkdir " ++ m_relpath m folder (m_ns3_path m));
            unless_dry (change (MadeDirectory folder))
       else mret tt : stm world unit);
  command ← st_lift (configure_arguments cmake configured generator
    (path_join (m_relpath m (m_ns3_path m) folder) (str "cmake_performance_trace.log")) o (a_program_args a));
  _ ← echo_in folder (join (str " ") command);
  unless_dry (_ ← run_checked command; update_scratches folder).

(** A forced refresh is [reconfigure_cmake_to_force_refresh]. *)
Definition forced_refresh (cmake : pystr) (folder : option pystr) : stm world unit := λ w,
  let '(r, s) := reconfigure_cmake_to_force_refresh cmake (λ args, (m_status m (w_ran w ++ [args]), None))
    (m_relpath m) (m_ns3_path m) (m_json m) (m_scratch_sources m) folder (a_dry_run a)
    (RefreshState [] (w_buffer w) (m_settings m) (m_caches m) []) in
  (r, World (w_ran w ++ (cmake_runs s).*2) (w_out w) (print_buffer s) (w_run_verbose w) (w_changes w ++ file_log s)
        (w_version_queries w)).

Definition configuration_step (o : configure_options) (folder : option pystr)
    (generator : pystr) : stm world unit :=
  cmake ← cmake_check_version;
  _ ← (if o_force_refresh o then forced_refresh cmake folder else configure_cmake cmake o folder generator);
  st_raise (SystemExit 0).

Definition non_executable_targets : list pystr :=
  [str "apiscan-all"; str "check-version"; str "cmake-format"; str "docs"; str "doxygen"; str "doxygen-no-build";
   str "sphinx"; str "manual"; str "models"; str "timeTraceReport"; str "tutorial"; str "contributing";
   str "install"; str "uninstall"].

(** The target for cmake, and whether doxygen is appended to the list. *)
Definition cmake_target (ns3_modules : list pystr) (version profile target : pystr) : res exn (option pystr * bool) :=
  if bool_decide (target ∈ ns3_modules) then mret (Some (str "lib" ++ target), false)
  else if bool_decide (target ∈ non_executable_targets) then
    let target := if bool_decide (target ∈ [str "contributing"; str "manual"; str "models"; str "tutorial"])
                  then str "sphinx_" ++ target else target in
    if bool_decide (target = str "docs") then mret (Some (str "sphinx"), true) else mret (Some target, false)
  else
    target ← get_target_to_build (m_out_dir m) target version profile;
    mret (target, false).

(** The loop over a list that grows while it runs: [false] when the fuel is out. *)
Fixpoint build_targets (fuel : nat) (folder : pystr) (ns3_modules : list pystr) (version profile : pystr)
    (targets : list pystr) : stm world bool :=
  match targets, fuel with
  | [], _ => mret true
  | _ :: _, O => mret false
  | target :: targets, S fuel =>
      '(t, docs) ← st_lift (cmake_target ns3_modules version profile target);
      _ ← (if bool_decide (target = str "check-version") && negb (bool_decide (target ∈ ns3_modules))
           then set_run_verbose false else mret tt : stm world unit);
      _ ← cmake_build folder t;
      build_targets fuel folder ns3_modules version profile
        (targets ++ if docs : bool then [str "doxygen"] else [])
  end.
Definition build_fuel (targets : list pystr) : nat := 2 * length targets.

Definition build_step (build : option (list pystr)) (build_and_run : bool) (target_to_run : pystr) (folder : pystr)
    (ns3_modules : list pystr) (version profile : pystr) : stm world unit :=
  _ ← match build with
      | None => mret tt
      | Some [] => cmake_build folder None
      | Some targets =>
          _ ← build_targets (build_fuel targets) folder ns3_modules version profile targets; mret tt
      end;
  if build_and_run then
    target ← st_lift (get_target_to_build (m_out_dir m) target_to_run version profile);
    cmake_build folder target
  else mret tt.

(** [template % s], for templates with [%s] and [%%] only. *)
Fixpoint percent (template : pystr) (arguments : list pystr) : res exn pystr :=
  match template with
  | [] => match arguments with [] => mret [] | _ => Raise TypeError end
  | "%"%char :: "%"%char :: t => cons "%"%char <$> percent t arguments
  | "%"%char :: "s"%char :: t =>
      match arguments with
      | [] => Raise TypeError
      | x :: arguments => app x <$> percent t arguments
      end
  | "%"%char :: _ => Raise ValueError
  | c :: t => cons c <$> percent t arguments
  end.

Definition debugger (used : bool) (name : pystr) (option : pystr) : res exn (list pystr) :=
  if used then program ← res_of_option TypeError (m_which m name); mret [program; option] else mret [].
Definition mpi_arguments (program : pystr) : list pystr :=
  if bool_decide (program ∈ [str "mpiexec"; str "mpirun"]) && truthy (m_env m (str "MPI_CI"))
  then [str "--allow-run-as-root"] ++ (if truthy (m_which m (str "ompi_info")) then [str "--oversubscribe"] else [])
  else [].

(** The command that runs the program, and the program itself. *)
Definition program_arguments (target_to_run : pystr) (target_args : list pystr) : res exn (list pystr * pystr) :=
  let target_args := target_args ++ a_program_args a in
  if a_shell a then mret (str "bash" :: target_args, str "bash")
  else
    let python := contains (str ".py") target_to_run in
    let target_args := if python then target_to_run :: target_args else target_args in
    let target := if python then str "python3" else target_to_run in
    let target_args := target_args ++ if a_visualize a
      then [str "--SimulatorImplementationType=ns3::VisualSimulatorImpl"] else [] in
    command ← (if truthy (a_command_template a) then
        text ← percent (default [] (a_command_template a)) [target];
        match split_words text with
        | [] => Raise IndexError
        | program :: commands => mret (program, mpi_arguments program ++ commands ++ target_args)
        end
      else mret (target, target_args) : res exn _);
    valgrind ← debugger (a_valgrind a) (str "valgrind") (str "--leak-check=full");
    gdb ← debugger (a_gdb a) (str "gdb") (str "--args");
    lldb ← debugger (a_lldb a) (str "lldb") (str "--");
    mret (valgrind ++ gdb ++ lldb ++ command.1 :: command.2, command.1).

Definition exported_variables : pystr :=
  let libdir := m_out_dir m ++ str "/lib" in
  str "export PATH=$PATH:" ++ libdir ++ str " PYTHONPATH=" ++ m_out_dir m ++ str "/bindings/python LD_LIBRARY_PATH="
    ++ libdir ++ str " ".

Definition run_step (target_to_run : pystr) (target_args : list pystr) : stm world unit :=
  let working_dir := if a_shell a then m_ns3_path m
                     else if truthy (a_cwd a) then default [] (a_cwd a) else m_ns3_path m in
  '(command, program) ← st_lift (program_arguments target_to_run target_args);
  w ← st_get;
  _ ← (if w_run_verbose w || a_dry_run a
       then print_and_buffer (str "cd " ++ m_relpath m (m_ns3_path m) working_dir ++ str "; " ++ exported_variables
                                ++ str "; " ++ join (str " ") command)
       else mret tt : stm world unit);
  unless_dry
    (status ← run_command command;
     if status =? 0 then st_raise (SystemExit 0)
     else
       _ ← print (m_error_text m (join (str " ") (m_relpath m program (m_ns3_path m) :: tail command)) status);
       st_raise (SystemExit status)).

Definition sudo_command (command : list pystr) : stm world pystr :=
  _ ← run_command ([str "sudo"; str "-S"] ++ command);
  _ ← run_command [str "sudo"; str "-k"];
  if contains (str "try again") (m_sudo_output m command).2 then st_raise GenericException
  else mret (m_sudo_output m command).1.
Definition sudo_change (command : list pystr) : stm world unit :=
  out ← sudo_command command;
  match out with [] => mret tt | _ => st_raise GenericException end.
Definition sudo_target (target : pystr) : stm world unit :=
  if negb (m_exists m target) || m_setuid m target then mret tt
  else
    let path := m_relpath m target (m_ns3_path m) in
    _ ← print_and_buffer (str "chown root " ++ path ++ str "; " ++ str "chmod u+s " ++ path);
    unless_dry
      (_ ← sudo_change (split_words (str "chown root " ++ path));
       sudo_change (split_words (str "chmod u+s " ++ path))).
Definition sudo_step (target_to_run : option pystr) (configure_post_build : list pystr) : stm world unit :=
  match m_which m (str "sudo") with
  | Some (_ :: _) =>
      st_for sudo_target (m_set_order m
        (configure_post_build ++ if truthy target_to_run then [default [] target_to_run] else []))
  | _ => st_raise GenericException
  end.
End wrapper.

(** ** [main] *)

Section main.
Context (m : machine) (a : args).

(** The caches are looked for after the output directory is gone. *)
Definition clean_cmake_artifacts : stm world unit :=
  let remove (command path : pystr) :=
    _ ← print_and_buffer (command ++ m_relpath m path (m_ns3_path m));
    unless_dry a (change (Removed path)) in
  let left := if a_dry_run a then m_caches m
    else base.filter (λ c, startswith (m_out_dir m ++ str "/") (c.1 ++ str "/") = false) (m_caches m) in
  _ ← remove (str "rm -R ") (m_out_dir m);
  _ ← st_for (λ c, remove (str "rm -R ") c.1) left;
  if m_exists m (m_lock_file m) then remove (str "rm ") (m_lock_file m) else mret tt.

(** Quotes around the program are removed; the rest is split at blanks. *)
Definition quote_char (c : option ascii) : bool := bool_decide (c = Some dquote ∨ c = Some squote).
Definition program_and_arguments (run : pystr) : res exn (pystr * list pystr) :=
  let run := if quote_char (head run) && quote_char (last run) then py_slice run 1 (-1) else run in
  match split_words run with
  | [] => Raise IndexError
  | program :: arguments => mret (program, arguments)
  end.

Definition docs_targets (docs : pystr) : list pystr :=
  if bool_decide (docs = str "all") then [str "sphinx"; str "doxygen"] else [docs].

(** [args.build] before the program is looked at: building everything, and the
    options that stand for targets. *)
Definition requested_build : option (list pystr) :=
  let build := if a_only a then Some [] else a_build a in
  let build := if a_install a then Some [str "install"] else build in
  let build := if a_uninstall a then Some [str "uninstall"] else build in
  let build := match a_docs a with Some docs => Some (docs_targets docs) | None => build end in
  if bool_decide (a_show a = Some (str "version")) then Some [str "check-version"] else build.

Definition quoted (s : pystr) : pystr := [dquote] ++ s ++ [dquote].
Definition docs_check : stm world unit :=
  match a_docs a with
  | Some docs =>
      if bool_decide (str "doxygen" ∈ docs_targets docs) &&
         negb (match m_lock m with Some l => l_examples l && l_tests l | None => false end)
      then
        _ ← print (str "The " ++ quoted (str "./ns3 docs doxygen") ++ str " and " ++ quoted (str "./ns3 docs all")
              ++ str " commands," ++ [newline]
              ++ str "require examples and tests to generate introspected documentation." ++ [newline]
              ++ str "Try " ++ quoted (str "./ns3 docs doxygen-no-build") ++ str " or enable examples and tests.");
        st_raise (SystemExit 1)
      else mret tt
  | None => mret tt
  end.

Definition show_profile : stm world unit :=
  if bool_decide (a_show a = Some (str "profile")) then
    match m_lock m with
    | Some l => if truthy (Some (l_build_profile l)) then print (str "Build profile: " ++ l_build_profile l)
                else project_not_configured
    | None => project_not_configured
    end
  else mret tt.

Definition running : bool := truthy (a_run a).
Definition run_only : bool := running && a_no_build a.
Definition build_and_run : bool := running && negb (a_no_build a).

(** The steps between the arguments and the list of programs: [None] when the
    script is done. *)
Definition prepare_cache : stm world (option (option pystr)) :=
  if run_only then mret (Some None)
  else
    '(folder, generator) ← st_lift (search_cmake_cache (l_build_profile <$> m_lock m) (m_which m) (m_caches m));
    if bool_decide (a_show a = Some (str "config")) then
      _ ← check_config m folder;
      mret None
    else
      _ ← (if truthy folder then
             match m_previous_scratches m (path_join (default [] folder) (str "ns3scratches")) with
             | Some previous =>
                 if bool_decide (split_char newline previous = m_scratch_sources m) then mret tt
                 else refresh_cmake m (default [] folder)
             | None => mret tt
             end
           else mret tt : stm world unit);
      _ ← match a_configure a with
          | Some o => configuration_step m a o folder generator
          | None => mret tt
          end;
      _ ← (if project_configured m folder then mret tt else project_not_configured : stm world unit);
      mret (Some folder).

Definition check_ambiguous_target (target_type target_to_check : pystr) (programs : PyDict pystr (list pystr)) :
    stm world pystr :=
  names ← st_lift (dlookup target_to_check programs);
  if (1 <? length names)%nat then
    _ ← print (ambiguous_message target_type target_to_check names);
    st_raise (SystemExit 1)
  else st_lift (res_of_option IndexError (head names)).
Definition resolve_program (programs : PyDict pystr (list pystr)) (target : pystr) : stm world pystr :=
  if dhas target programs then check_ambiguous_target (str "Run") target programs
  else if contains (str ".py") target && m_exists m target then mret target
  else st_raise GenericException.
Definition resolve_target (programs : PyDict pystr (list pystr)) (target : pystr) : stm world pystr :=
  if dhas target programs then check_ambiguous_target (str "Build") target programs else mret target.

(** From the cache folder on. *)
Definition build_and_start (target_to_run : option (pystr * list pystr)) (folder : option pystr) : stm world unit :=
  match check_lock_data m, m_lock m with
  | Some modules, Some l =>
      let modules := map (replace (str "ns3-") []) modules in
      programs ← st_lift (get_program_shortcuts (D:=PyDict pystr) (m_ns3_path m) (m_out_dir m) (l_build_profile l)
                            (l_version l) (m_exists m) (l_programs l) (l_scripts l) (m_scratch_scripts m));
      target ← (match target_to_run with
          | Some (program, _) => p ← resolve_program programs program; mret (Some p)
          | None => mret None
          end : stm world (option pystr));
      build ← (match requested_build with
          | Some targets => b ← st_map (resolve_target programs) targets; mret (Some b)
          | None => mret None
          end : stm world (option (list pystr)));
      _ ← (if run_only then mret tt
           else build_step m a build build_and_run (default [] target) (default [] folder) modules
                  (l_version l) (l_build_profile l) : stm world unit);
      target ← (if negb (a_shell a) && truthy target && negb (contains (str ".py") (default [] target)) then
          p ← st_lift (executable_to_run (m_out_dir m) (default [] (a_run a)) (m_exists m)
                 (bool_decide (folder = None)) run_only build_and_run (default [] target));
          mret (Some p)
        else mret target : stm world (option pystr));
      _ ← (if l_sudo l || (running && a_enable_sudo a)
           then sudo_step m a target (if l_sudo l then omap (λ k, default [] (dget k programs) !! 0%nat) (dkeys programs) else [])
           else mret tt : stm world unit);
      if a_shell a || running
      then run_step m a (default [] target) (match target_to_run with Some (_, args) => args | None => [] end)
      else mret tt
  | _, _ => project_not_configured
  end.

Definition main : stm world unit :=
  if bool_decide (m_user m = str "root") then st_raise GenericException
  else if a_clean a then clean_cmake_artifacts
  else
    _ ← docs_check;
    _ ← show_profile;
    _ ← (if running then set_run_verbose (a_run_verbose a) else mret tt : stm world unit);
    target ← st_lift (match a_run a with
        | Some (c :: run) => Some <$> program_and_arguments (c :: run)
        | _ => mret None
        end : res exn (option (pystr * list pystr)));
    cache ← prepare_cache;
    match cache with
    | None => mret tt
    | Some folder => build_and_start target folder
    end.
End main.

(** ** A dry run *)

(** Computations that run no command and change no file. *)
Definition quiet {A} (c : stm world A) : Prop :=
  ∀ w, w_ran (c w).2 = w_ran w ∧ w_changes (c w).2 = w_changes w.

Create HintDb quiet.

Lemma quiet_ret {A} (x : A) : quiet (mret x).
Proof. by intros w. Qed.
Lemma quiet_lift {A} (r : res exn A) : quiet (st_lift r).
Proof. by intros w. Qed.
Lemma quiet_raise {A} e : quiet (st_raise e : stm world A).
Proof. by intros w. Qed.
Lemma quiet_get : quiet (st_get : stm world world).
Proof. by intros w. Qed.
Lemma quiet_print line : quiet (print line).
Proof. by intros w. Qed.
Lemma quiet_buffer message : quiet (print_and_buffer message).
Proof. by intros w. Qed.
Lemma quiet_verbose b : quiet (set_run_verbose b).
Proof. by intros w. Qed.
Lemma quiet_ask : quiet ask_version.
Proof. by intros w. Qed.
Lemma quiet_bind {A B} (c : stm world A) (f : A → stm world B) :
  quiet c → (∀ x, quiet (f x)) → quiet (c ≫= f).
Proof.
  intros Hc Hf w. unfold mbind, stm_bind. destruct (Hc w) as [H1 H2].
  destruct (c w) as [[x|e] w1]; cbn in *; [|done]. destruct (Hf x w1). split; congruence.
Qed.
Lemma quiet_for {A} (f : A → stm world unit) l : (∀ x, quiet (f x)) → quiet (st_for f l).
Proof. intros Hf. induction l as [|x l IH]; [apply quiet_ret|]. by apply quiet_bind. Qed.
Lemma quiet_map {A B} (f : A → stm world B) l : (∀ x, quiet (f x)) → quiet (st_map f l).
Proof.
  intros Hf. induction l as [|x l IH]; [apply quiet_ret|]. apply quiet_bind; [done|intros y].
  apply quiet_bind; [done|intros ys]. apply quiet_ret.
Qed.
#[export] Hint Resolve quiet_ret quiet_lift quiet_raise quiet_get quiet_print quiet_buffer quiet_verbose quiet_ask : quiet.

(** Case analysis down to computations that are known to be quiet. *)
Ltac quiet_step :=
  match goal with
  | |- ∀ _, _ => intro
  | |- quiet (_ ≫= _) => apply quiet_bind
  | |- quiet (st_for _ _) => apply quiet_for
  | |- quiet (st_map _ _) => apply quiet_map
  | |- quiet (if ?b then _ else _) => destruct b
  | |- quiet (match ?x with _ => _ end) => destruct x
  | |- quiet (let _ := _ in _) => cbv zeta
  | |- quiet _ => solve [auto with quiet]
  end.
Ltac solve_quiet := repeat quiet_step.

Section dry.
Context (m : machine) (a : args) (Hdry : a_dry_run a = true).

Lemma quiet_unless_dry c : quiet (unless_dry a c).
Proof. unfold unless_dry. rewrite Hdry. apply quiet_ret. Qed.
#[local] Hint Resolve quiet_unless_dry : quiet.

Lemma quiet_not_configured : quiet project_not_configured.
Proof. unfold project_not_configured. solve_quiet. Qed.
#[local] Hint Resolve quiet_not_configured : quiet.
Lemma quiet_check_version : quiet (cmake_check_version m).
Proof. unfold cmake_check_version. solve_quiet. Qed.
#[local] Hint Resolve quiet_check_version : quiet.
Lemma quiet_cmake_build folder target : quiet (cmake_build m a folder target).
Proof. unfold cmake_build, echo_in. solve_quiet. Qed.
#[local] Hint Resolve quiet_cmake_build : quiet.
Lemma quiet_build_targets fuel folder modules version profile targets :
  quiet (build_targets m a fuel folder modules version profile targets).
Proof.
  revert targets. induction fuel as [|fuel IH]; intros [|target targets]; cbn [build_targets]; solve_quiet; apply IH.
Qed.
#[local] Hint Resolve quiet_build_targets : quiet.
Lemma quiet_build_step build bar target folder modules version profile :
  quiet (build_step m a build bar target folder modules version profile).
Proof. unfold build_step. solve_quiet. Qed.
#[local] Hint Resolve quiet_build_step : quiet.
Lemma quiet_configure_cmake cmake o folder generator : quiet (configure_cmake m a cmake o folder generator).
Proof. unfold configure_cmake, echo_in. solve_quiet. Qed.
Lemma quiet_run_step target arguments : quiet (run_step m a target arguments).
Proof. unfold run_step. solve_quiet. Qed.
#[local] Hint Resolve quiet_run_step : quiet.
Lemma quiet_sudo_step target post : quiet (sudo_step m a target post).
Proof. unfold sudo_step, sudo_target. solve_quiet. Qed.
#[local] Hint Resolve quiet_sudo_step : quiet.
Lemma quiet_build_and_start target folder : quiet (build_and_start m a target folder).
Proof.
  unfold build_and_start, resolve_program, resolve_target, check_ambiguous_target. solve_quiet.
Qed.
#[local] Hint Resolve quiet_build_and_start : quiet.
Lemma quiet_clean : quiet (clean_cmake_artifacts m a).
Proof. unfold clean_cmake_artifacts. solve_quiet. Qed.
End dry.

(** What a dry run can do: nothing; rerun cmake, when the list of scratch programs is
    out of date; write the backup of the settings, for a forced refresh. *)
Definition untouched (w0 w : world) : Prop := w_ran w = w_ran w0 ∧ w_changes w = w_changes w0.
Definition refreshed (m : machine) (w0 w : world) : Prop :=
  ∃ cmake folder previous,
    m_which m (str "cmake") = Some cmake ∧
    m_previous_scratches m (path_join folder (str "ns3scratches")) = Some previous ∧
    split_char newline previous ≠ m_scratch_sources m ∧
    w_ran w = w_ran w0 ++ [[cmake; str ".."]] ∧
    (w_changes w = w_changes w0 ∨
     w_changes w = w_changes w0 ++
       [Written (path_join folder (str "ns3scratches")) (join [newline] (m_scratch_sources m))]).
Definition pinned (m : machine) (a : args) (w0 w : world) : Prop :=
  ∃ o settings, a_configure a = Some o ∧ o_force_refresh o = true ∧
    w_ran w = w_ran w0 ∧ w_changes w = w_changes w0 ++ [Written settings_bak_file (m_json m settings)].

Section within.
Context (m : machine) (a : args).

(** Computations that stay within a relation of worlds. *)
Definition within {A} (R : world → world → Prop) (c : stm world A) : Prop := ∀ w, R w (c w).2.
Definition stale (w0 w : world) : Prop := untouched w0 w ∨ refreshed m w0 w.
Definition pins (w0 w : world) : Prop := untouched w0 w ∨ pinned m a w0 w.
Definition stale_pins (w0 w : world) : Prop := ∃ w1, stale w0 w1 ∧ pins w1 w.

Lemma untouched_refl w : untouched w w.
Proof. done. Qed.
Lemma quiet_stale {A} (c : stm world A) : quiet c → within stale c.
Proof. intros Hc w. left. apply Hc. Qed.
Lemma quiet_pins {A} (c : stm world A) : quiet c → within pins c.
Proof. intros Hc w. left. apply Hc. Qed.
Lemma within_bind {A B} (c : stm world A) (f : A → stm world B) :
  within stale c → (∀ x, within pins (f x)) → within stale_pins (c ≫= f).
Proof.
  intros Hc Hf w. specialize (Hc w). unfold mbind, stm_bind. destruct (c w) as [[x|e] w1]; cbn in *.
  - exists w1. split; [done|apply Hf].
  - exists w1. split; [done|by left].
Qed.
Lemma stale_then_quiet {A B} (c : stm world A) (f : A → stm world B) :
  within stale c → (∀ x, quiet (f x)) → within stale (c ≫= f).
Proof.
  intros Hc Hf w. specialize (Hc w). unfold mbind, stm_bind. destruct (c w) as [[x|e] w1]; cbn in *; [|done].
  destruct (Hf x w1) as [H1 H2]. unfold stale, untouched, refreshed in *. by rewrite H1, H2.
Qed.
Lemma pins_then_quiet {A B} (c : stm world A) (f : A → stm world B) :
  within pins c → (∀ x, quiet (f x)) → within pins (c ≫= f).
Proof.
  intros Hc Hf w. specialize (Hc w). unfold mbind, stm_bind. destruct (c w) as [[x|e] w1]; cbn in *; [|done].
  destruct (Hf x w1) as [H1 H2]. unfold pins, untouched, pinned in *. by rewrite H1, H2.
Qed.
Lemma quiet_then_pins {A B} (c : stm world A) (f : A → stm world B) :
  quiet c → (∀ x, within pins (f x)) → within pins (c ≫= f).
Proof.
  intros Hc Hf w. destruct (Hc w) as [H1 H2]. unfold mbind, stm_bind. destruct (c w) as [[x|e] w1]; cbn in *; [|by left].
  specialize (Hf x w1). unfold pins, untouched, pinned in *. by rewrite H1, H2 in Hf.
Qed.
Lemma stale_pins_then_quiet {A B} (c : stm world A) (f : A → stm world B) :
  within stale_pins c → (∀ x, quiet (f x)) → within stale_pins (c ≫= f).
Proof.
  intros Hc Hf w. specialize (Hc w). unfold mbind, stm_bind. destruct (c w) as [[x|e] w1]; cbn in *; [|done].
  destruct Hc as (w2 & Hs & Hp). exists w2. split; [done|].
  destruct (Hf x w1) as [H1 H2]. unfold pins, untouched, pinned in *. by rewrite H1, H2.
Qed.
Lemma quiet_then_stale_pins {A B} (c : stm world A) (f : A → stm world B) :
  quiet c → (∀ x, within stale_pins (f x)) → within stale_pins (c ≫= f).
Proof.
  intros Hc Hf w. destruct (Hc w) as [H1 H2]. unfold mbind, stm_bind. destruct (c w) as [[x|e] w1]; cbn in *.
  - destruct (Hf x w1) as (w2 & Hs & Hp). exists w2. split; [|done]. unfold stale, untouched, refreshed in *.
    by rewrite H1, H2 in Hs.
  - exists w1. split; by left.
Qed.
Lemma stale_stale_pins {A} (c : stm world A) : within stale c → within stale_pins c.
Proof. intros Hc w. exists (c w).2. split; [apply Hc|by left]. Qed.

Lemma refresh_cmake_stale folder previous :
  m_previous_scratches m (path_join folder (str "ns3scratches")) = Some previous →
  split_char newline previous ≠ m_scratch_sources m →
  within stale (refresh_cmake m folder).
Proof.
  intros Hp Hne w. unfold refresh_cmake. destruct (m_which m (str "cmake")) as [cmake|] eqn:E; [|by left].
  right. exists cmake, folder, previous. split_and!; [done..| |];
    unfold run_checked, mbind, stm_bind, run_command, st_lift; cbn [res_of_option];
    destruct (m_status m (w_ran w ++ [[cmake; str ".."]]) =? 0); cbn; auto.
Qed.

Context (Hdry : a_dry_run a = true).

Lemma forced_refresh_pins o cmake folder :
  a_configure a = Some o → o_force_refresh o = true → within pins (forced_refresh m a cmake folder).
Proof.
  intros Ho Hf w. unfold forced_refresh, reconfigure_cmake_to_force_refresh, mbind, stm_bind, st_get, st_lift.
  set (s := RefreshState _ _ _ _ _). destruct (settings_now folder s) as [settings|e].
  2: { left. split; cbn; by rewrite app_nil_r. }
  destruct folder as [[|c f]|]; cbn [some_path]; [left; split; cbn; by rewrite app_nil_r| |left; split; cbn; by rewrite app_nil_r].
  right. exists o, settings. rewrite Hdry. split_and!; [done|done|..]; cbn; by rewrite ?app_nil_r.
Qed.
Lemma configuration_step_pins o folder generator :
  a_configure a = Some o → within pins (configuration_step m a o folder generator).
Proof.
  intros Ho. unfold configuration_step. apply quiet_then_pins; [apply quiet_check_version|intros cmake].
  apply pins_then_quiet; [|intros; apply quiet_raise].
  destruct (o_force_refresh o) eqn:Hf; [by eapply forced_refresh_pins|apply quiet_pins; by apply quiet_configure_cmake].
Qed.

Lemma prepare_cache_within : within stale_pins (prepare_cache m a).
Proof.
  unfold prepare_cache. destruct (run_only a); [apply stale_stale_pins, quiet_stale, quiet_ret|].
  apply quiet_then_stale_pins; [apply quiet_lift|]. intros [folder generator].
  destruct (bool_decide _).
  { apply stale_stale_pins, quiet_stale. unfold check_config, project_not_configured. solve_quiet. }
  apply within_bind.
  - destruct (truthy folder); [|apply quiet_stale, quiet_ret].
    destruct (m_previous_scratches m _) as [previous|] eqn:Ep; [|apply quiet_stale, quiet_ret].
    case_bool_decide as Hs; [apply quiet_stale, quiet_ret|]. by eapply refresh_cmake_stale.
  - intros _. apply pins_then_quiet; [|unfold project_not_configured; solve_quiet].
    destruct (a_configure a) as [o|] eqn:Ho; [by apply configuration_step_pins|apply quiet_pins, quiet_ret].
Qed.
End within.

(** C21: A dry run runs no command and changes no file, except in two cases: when
    the list of scratch programs is out of date it runs cmake, and rewrites that list
    unless cmake fails; and a forced refresh writes its settings to settings.json.
    (cmake is also asked for its version.) *)
Theorem dry_run_safe m a w :
  a_dry_run a = true →
  ∃ w1, (untouched w w1 ∨ refreshed m w w1) ∧
    (untouched w1 (main m a w).2 ∨ pinned m a w1 (main m a w).2).
Proof.
  intros Hdry. revert w. change (within (stale_pins m a) (main m a)). unfold main.
  destruct (bool_decide _); [apply stale_stale_pins, quiet_stale, quiet_raise|].
  destruct (a_clean a); [apply stale_stale_pins, quiet_stale; by apply quiet_clean|].
  apply quiet_then_stale_pins; [unfold docs_check; solve_quiet|intros _].
  apply quiet_then_stale_pins; [unfold show_profile, project_not_configured; solve_quiet|intros _].
  apply quiet_then_stale_pins; [solve_quiet|intros _].
  apply quiet_then_stale_pins; [solve_quiet|intros target].
  apply stale_pins_then_quiet; [by apply prepare_cache_within|intros [folder|]].
  - by apply quiet_build_and_start.
  - apply quiet_ret.
Qed.

(** ** Building *)

Section build.
Context (m : machine) (a : args).

(** The abstract build: commands in order, up to the first that fails. *)
Fixpoint run_until (ran : list (list pystr)) (commands : list (list pystr)) : res exn unit * list (list pystr) :=
  match commands with
  | [] => (Ok tt, ran)
  | c :: commands =>
      let ran := ran ++ [c] in
      let status := m_status m ran in
      if status =? 0 then run_until ran commands else (Raise (SystemExit status), ran)
  end.

Lemma run_until_app ran xs ys :
  run_until ran (xs ++ ys) =
  match run_until ran xs with (Ok _, ran) => run_until ran ys | (Raise e, ran) => (Raise e, ran) end.
Proof. revert ran. induction xs as [|x xs IH]; intros ran; cbn; [done|]. by case_match. Qed.

Definition done_with {A} (r : res exn A) : res exn unit := match r with Ok _ => Ok tt | Raise e => Raise e end.
Definition implements {A} (c : stm world A) (commands : list (list pystr)) : Prop :=
  ∀ w, (done_with (c w).1, w_ran (c w).2) = run_until (w_ran w) commands.

Lemma implements_bind {A B} (c : stm world A) (f : A → stm world B) xs ys :
  implements c xs → (∀ x, implements (f x) ys) → implements (c ≫= f) (xs ++ ys).
Proof.
  intros Hc Hf w. rewrite run_until_app, <-(Hc w). unfold mbind, stm_bind.
  destruct (c w) as [[x|e] w1]; cbn; [apply Hf|done].
Qed.
Lemma implements_ok {A B} (c : stm world A) (f : A → stm world B) ys x :
  (∀ w, ∃ w', c w = (Ok x, w') ∧ w_ran w' = w_ran w) → implements (f x) ys → implements (c ≫= f) ys.
Proof.
  intros Hc Hf w. destruct (Hc w) as (w' & E & Hran). unfold mbind, stm_bind. rewrite E, <-Hran. apply Hf.
Qed.
Lemma implements_run command : implements (run_checked m command) [command].
Proof.
  intros w. unfold run_checked, run_command, mbind, stm_bind. cbn.
  by destruct (m_status m (w_ran w ++ [command]) =? 0) eqn:E.
Qed.
Lemma implements_lift {A B} (r : res exn A) (f : A → stm world B) ys x :
  r = Ok x → implements (f x) ys → implements (st_lift r ≫= f) ys.
Proof. intros -> Hf. eapply implements_ok; [|done]. intros w. by exists w. Qed.
Lemma implements_ret {A} (x : A) : implements (mret x) [].
Proof. by intros w. Qed.

Context (Hdry : a_dry_run a = false).
Context (cmake : pystr) (version : list Z).
Context (Hwhich : m_which m (str "cmake") = Some cmake) (Hcmake : cmake ≠ []).
Context (Hversion : parse_version (m_cmake_version m) = Ok version) (Hnew : tuple_ltb version [3; 10; 0] = false).

(** The command that builds a target. *)
Definition build_words (target : option pystr) : list pystr :=
  match build_command m a target with Ok text => split_words text | Raise _ => [] end.

Lemma implements_cmake_build folder target : implements (cmake_build m a folder target) [build_words target].
Proof.
  unfold cmake_build.
  eapply (implements_ok _ _ _ cmake).
  { intros w. unfold cmake_check_version. rewrite Hwhich. destruct cmake as [|c cm]; [done|].
    rewrite Hversion. unfold mbind, stm_bind, st_lift. cbn [ask_version st_modify]. rewrite Hnew. by eexists. }
  unfold build_words, build_command. rewrite Hversion. cbn [mbind res_bind mret res_ret].
  eapply implements_lift; [done|].
  eapply (implements_ok _ _ _ tt); [intros w; by eexists|]. unfold unless_dry. rewrite Hdry. apply implements_run.
Qed.

Context (folder : pystr) (modules : list pystr) (ns3_version profile : pystr).
Context (Hdoxygen : str "doxygen" ∉ modules).

(** The targets in the order they are built: those of docs come last. *)
Definition planned (ts : list (option pystr * bool)) : list (option pystr) :=
  map fst ts ++ replicate (length (base.filter (λ t, t.2 = true) ts)) (Some (str "doxygen")).

Lemma planned_cons t docs ts :
  planned ((t, docs) :: ts) = t :: planned (ts ++ if docs : bool then [(Some (str "doxygen"), false)] else []).
Proof.
  unfold planned. rewrite filter_cons, filter_app, !map_app. cbn [fst snd map]. destruct docs.
  - rewrite decide_True by done. rewrite filter_cons_False by done. rewrite filter_nil, app_nil_r.
    cbn [length replicate map fst]. by rewrite <-app_assoc.
  - rewrite decide_False by done. by rewrite filter_nil, !app_nil_r.
Qed.

Lemma cmake_target_doxygen : cmake_target m modules ns3_version profile (str "doxygen") = Ok (Some (str "doxygen"), false).
Proof. unfold cmake_target. rewrite bool_decide_eq_false_2 by done. reflexivity. Qed.

Lemma implements_build_targets fuel targets ts :
  mapM_res (cmake_target m modules ns3_version profile) targets = Ok ts →
  (length ts + length (base.filter (λ t, t.2 = true) ts) ≤ fuel)%nat →
  implements (build_targets m a fuel folder modules ns3_version profile targets) (map build_words (planned ts)).
Proof.
  revert targets ts. induction fuel as [|fuel IH]; intros [|target targets] ts Hts Hfuel; cbn [build_targets].
  - injection Hts as <-. apply implements_ret.
  - cbn in Hts. apply bind_ok_inv in Hts as (t & _ & (ts' & _ & [= <-])%bind_ok_inv). cbn in Hfuel. lia.
  - injection Hts as <-. apply implements_ret.
  - cbn [mapM_res] in Hts. apply bind_ok_inv in Hts as ([t docs] & Ht & (ts' & Hts & [= <-])%bind_ok_inv).
    eapply implements_lift; [done|]. cbv beta iota.
    eapply (implements_ok _ _ _ tt); [intros w; case_match; by eexists|].
    rewrite planned_cons. cbn [map]. apply (implements_bind _ _ [build_words t]); [apply implements_cmake_build|]. intros _. apply IH.
    + destruct docs; [|by rewrite !app_nil_r]. by apply mapM_res_snoc, cmake_target_doxygen.
    + rewrite length_app, filter_app, length_app. destruct docs.
      * rewrite filter_cons_True in Hfuel by done. rewrite filter_cons_False by done. cbn in *. lia.
      * rewrite filter_cons_False in Hfuel by done. cbn in *. lia.
Qed.

Lemma planned_fuel (ts : list (option pystr * bool)) n : length ts = n → (length ts + length (base.filter (λ t, t.2 = true) ts) ≤ 2 * n)%nat.
Proof. intros <-. pose proof (length_filter (λ t : option pystr * bool, t.2 = true) ts). lia. Qed.
End build.

(** C22: With a recent cmake, building resolved targets is the abstract build: one
    command per target in order, with doxygen again at the end for each docs, then
    the target of the program to run; an empty list builds everything; the first
    command that fails ends the script with its status. *)
Theorem build_step_refines m a cmake version build build_and_run target_to_run folder modules ns3_version profile ts run :
  a_dry_run a = false →
  m_which m (str "cmake") = Some cmake → cmake ≠ [] →
  parse_version (m_cmake_version m) = Ok version → tuple_ltb version [3; 10; 0] = false →
  str "doxygen" ∉ modules →
  mapM_res (cmake_target m modules ns3_version profile) (default [] build) = Ok ts →
  get_target_to_build (m_out_dir m) target_to_run ns3_version profile = Ok run →
  ∀ w,
    let '(r, w') := build_step m a build build_and_run target_to_run folder modules ns3_version profile w in
    (r, w_ran w') =
    run_until m (w_ran w)
      (map (build_words m a)
         ((if bool_decide (build = Some []) then [None] else planned ts) ++
          if build_and_run then [run] else [])).
Proof.
  intros Hdry Hwhich Hne Hversion Hnew Hdox Hts Hrun.
  assert (implements m (build_step m a build build_and_run target_to_run folder modules ns3_version profile)
    (map (build_words m a) ((if bool_decide (build = Some []) then [None] else planned ts) ++
       if build_and_run then [run] else []))) as H.
  { unfold build_step. rewrite map_app. apply implements_bind.
    - destruct build as [[|target targets]|]; cbn [default] in Hts.
      + rewrite bool_decide_eq_true_2 by done. by eapply implements_cmake_build.
      + rewrite bool_decide_eq_false_2 by done. rewrite <-(app_nil_r (map _ _)).
        apply implements_bind; [|intros _; apply implements_ret].
        eapply implements_build_targets; [done..|]. apply planned_fuel. by apply mapM_res_length in Hts.
      + injection Hts as <-. rewrite bool_decide_eq_false_2 by done. apply implements_ret.
    - intros _. destruct build_and_run; [|apply implements_ret].
      eapply implements_lift; [done|]. by eapply implements_cmake_build. }
  intros w. specialize (H w). destruct (build_step _ _ _ _ _ _ _ _ _ w) as [[[]|e] w']; done.
Qed.

(** ** Configuring *)

Definition strip_prefix (p s : pystr) : option pystr := if startswith p s then Some (drop (length p) s) else None.
(** cmake uses the last definition of a variable. *)
Definition flag_prefix (flag : pystr) : pystr := str "-DNS3_" ++ flag ++ str "=".
Definition effective (flag : pystr) (arguments : list pystr) : option pystr :=
  last (omap (strip_prefix (flag_prefix flag)) arguments).

(** What the build type says about a flag. *)
Definition type_default (profile flag : pystr) : option pystr :=
  if bool_decide (flag = str "ASSERT") || bool_decide (flag = str "LOG")
  then Some (on_off (bool_decide (profile = str "debug") || bool_decide (profile = str "default")))
  else if bool_decide (flag = str "WARNINGS_AS_ERRORS") then Some (on_off (bool_decide (profile = str "debug")))
  else None.

Lemma startswith_common p a b : startswith (p ++ a) (p ++ b) = startswith a b.
Proof. induction p as [|c p IH]; [done|]. cbn. by rewrite bool_decide_eq_true_2. Qed.

Lemma startswith_field c f g v :
  c ∉ f → c ∉ g → startswith (f ++ [c]) (g ++ c :: v) = bool_decide (f = g).
Proof.
  revert g. induction f as [|a f IH]; intros [|b g] Hf Hg; cbn.
  - by rewrite bool_decide_eq_true_2.
  - apply not_elem_of_cons in Hg as [Hb _]. by rewrite bool_decide_eq_false_2.
  - apply not_elem_of_cons in Hf as [Ha _]. by rewrite bool_decide_eq_false_2 by congruence.
  - apply not_elem_of_cons in Hf as [_ Hf], Hg as [_ Hg]. rewrite IH by done.
    repeat case_bool_decide; naive_solver.
Qed.

Lemma strip_flag flag flag' v :
  "="%char ∉ flag → "="%char ∉ flag' →
  strip_prefix (flag_prefix flag) (flag_prefix flag' ++ v) = if decide (flag = flag') then Some v else None.
Proof.
  intros H1 H2. unfold strip_prefix, flag_prefix.
  assert (startswith (str "-DNS3_" ++ flag ++ str "=") ((str "-DNS3_" ++ flag' ++ str "=") ++ v)
    = bool_decide (flag = flag')) as ->.
  { rewrite <-!app_assoc, startswith_common. by apply startswith_field. }
  case_bool_decide; [|by rewrite decide_False]. subst. by rewrite decide_True, drop_app_length.
Qed.

Lemma strip_other flag s : startswith (str "-DNS3_") s = false → strip_prefix (flag_prefix flag) s = None.
Proof.
  intros Hs. unfold strip_prefix. destruct (startswith (flag_prefix flag) s) eqn:E; [|done].
  apply startswith_spec in E as [t ->]. unfold flag_prefix in Hs. by rewrite <-!app_assoc, startswith_app in Hs.
Qed.

Section effective.
Context (flag : pystr) (Hflag : "="%char ∉ flag).

Abbreviation strip := (strip_prefix (flag_prefix flag)).

Lemma strip_given_other flag' o :
  "="%char ∉ flag' → flag ≠ flag' → omap strip (given (flag_prefix flag') o) = [].
Proof.
  intros Hf Hne. destruct o as [v|]; [|done]. cbn [given omap list_omap]. rewrite strip_flag by done.
  by rewrite decide_False.
Qed.
Lemma strip_given p o : (∀ v, startswith (str "-DNS3_") (p ++ v) = false) → omap strip (given p o) = [].
Proof. intros Hp. destruct o as [v|]; [|done]. cbn [given omap list_omap]. by rewrite strip_other. Qed.

Lemma strip_switches o (sw : list (pystr * pystr)) :
  NoDup sw.*1 → Forall (λ s, "="%char ∉ s.1) sw →
  ∀ option, (flag, option) ∈ sw →
  omap strip (omap (λ s, on_off_condition (o_switch o s.2) s.1) sw) =
  match o_switch o option with
  | (None, None) => []
  | (enable, disable) => [on_off (truth enable && negb (truth disable))]
  end.
Proof.
  assert (∀ s, "="%char ∉ s.1 → match on_off_condition (o_switch o s.2) s.1 with
      | Some x => strip x
      | None => None end = if decide (flag = s.1) then
        match o_switch o s.2 with
        | (None, None) => None
        | (enable, disable) => Some (on_off (truth enable && negb (truth disable))) end else None) as Hone.
  { intros [f n] Hf. cbn [fst snd] in *. destruct (o_switch o n) as [[e|] [d|]]; cbn [on_off_condition];
      [..|by case_decide];
      match goal with |- context [on_off ?b] => generalize (on_off b) end; intros v;
      rewrite <-(strip_flag flag f v) by done; unfold flag_prefix; by rewrite <-!app_assoc. }
  assert (∀ sw, Forall (λ s, "="%char ∉ s.1) sw → flag ∉ sw.*1 →
    omap strip (omap (λ s, on_off_condition (o_switch o s.2) s.1) sw) = []) as Hnone.
  { intros sw'. induction 1 as [|s sw' Hs Hsw IH]; [done|]. intros [Hf Hin]%not_elem_of_cons.
    specialize (Hone s Hs). rewrite decide_False in Hone by done. cbn [omap list_omap].
    destruct (on_off_condition _ _); cbn [omap list_omap]; rewrite ?Hone; by apply IH. }
  intros Hnd Hall. induction Hall as [|s sw Hs Hsw IH]; intros option Hin; [by apply elem_of_nil in Hin|].
  cbn [fmap list_fmap] in Hnd. apply NoDup_cons in Hnd as [Hn Hnd]. specialize (Hone s Hs).
  apply elem_of_cons in Hin as [<-|Hin].
  - cbn [fst snd] in *. rewrite decide_True in Hone by done. cbn [omap list_omap fst snd].
    assert (∀ rest : list pystr, rest = [] →
      match on_off_condition (o_switch o option) flag with
      | Some x => match strip x with Some y => y :: rest | None => rest end
      | None => rest end =
      match o_switch o option with
      | (None, None) => []
      | (enable, disable) => [on_off (truth enable && negb (truth disable))] end) as Hgoal.
    { intros rest ->. destruct (on_off_condition _ _); [rewrite Hone|]; destruct (o_switch o option) as [[?|] [?|]]; done. }
    rewrite <-(Hgoal (omap strip (omap (λ s, on_off_condition (o_switch o s.2) s.1) sw))) by by apply Hnone.
    by destruct (on_off_condition _ _).
  - assert (flag ≠ s.1) as Hne.
    { intros ->. apply Hn. by apply (list_elem_of_fmap_2 fst _ _ Hin). }
    rewrite decide_False in Hone by done. cbn [omap list_omap].
    destruct (on_off_condition _ _); cbn [omap list_omap]; rewrite ?Hone; by apply IH.
Qed.
End effective.

Lemma switches_nodup : NoDup switches.*1.
Proof. by_decision. Qed.
Lemma switches_plain : Forall (λ s, "="%char ∉ s.1) switches.
Proof. by_decision. Qed.

Lemma build_type_effective profile arguments flag option :
  (flag, option) ∈ switches → build_type_arguments profile = Ok arguments →
  last (omap (strip_prefix (flag_prefix flag)) arguments) = type_default profile flag.
Proof.
  intros Hin. unfold build_type_arguments. case_bool_decide as Hp; [|done]. intros [= <-].
  enough (Forall (λ s, Forall (λ p,
    last (omap (strip_prefix (flag_prefix s.1))
      (match build_type_arguments p with Ok l => l | Raise _ => [] end)) = type_default p s.1) build_types) switches) as H.
  { rewrite Forall_forall in H. specialize (H _ Hin). rewrite Forall_forall in H. specialize (H _ Hp).
    unfold build_type_arguments in H. by rewrite bool_decide_eq_true_2 in H. }
  by_decision.
Qed.

Lemma ok_inj {E A} (x y : A) : (Ok x : res E A) = Ok y → x = y.
Proof. by intros [=]. Qed.

Definition other_variables : list pystr :=
  [str "OUTPUT_DIRECTORY"; str "WITH_BRITE"; str "WITH_CLICK"; str "WITH_OPENFLOW"; str "ENABLED_MODULES";
   str "DISABLED_MODULES"; str "COVERAGE_ZERO_COUNTERS"].
(** The variables without a switch do not hide a flag. *)
Lemma strip_variables flag option name o :
  (flag, option) ∈ switches → name ∈ other_variables →
  omap (strip_prefix (flag_prefix flag)) (given (flag_prefix name) o) = [].
Proof.
  intros Hin Hname.
  enough (Forall (λ s, "="%char ∉ s.1 ∧ Forall (λ n, "="%char ∉ n ∧ s.1 ≠ n) other_variables) switches) as H.
  { rewrite Forall_forall in H. specialize (H _ Hin) as [Hf H]. rewrite Forall_forall in H.
    specialize (H _ Hname) as [Hn Hne]. by apply strip_given_other. }
  by_decision.
Qed.

(** Among the arguments for cmake, the last definition of a variable that has a
    switch is the switch when it was given, on exactly when it was enabled and not
    disabled, and otherwise what the build type says. *)
Theorem configure_effective cmake configured generator trace_file o arguments flag option :
  configure_arguments cmake configured generator trace_file o [] = Ok arguments →
  (flag, option) ∈ switches →
  startswith (str "-DNS3_") cmake = false → startswith (str "-DNS3_") generator = false →
  (∀ g, o_G o = Some g → startswith (str "-DNS3_") g = false) →
  let profile := if configured then o_build_profile o else Some (default (str "default") (o_build_profile o)) in
  effective flag arguments =
  match o_switch o option with
  | (None, None) => p ← profile; type_default (lower p) flag
  | (enable, disable) => Some (on_off (truth enable && negb (truth disable)))
  end.
Proof.
  intros Harg Hin Hcmake Hgen HG profile. unfold configure_arguments in Harg. fold profile in Harg.
  apply bind_ok_inv in Harg as (build_type & Hbuild & <-%ok_inj).
  assert ("="%char ∉ flag) as Hflag.
  { pose proof switches_plain as H. rewrite Forall_forall in H. apply (H _ Hin). }
  unfold effective. rewrite !omap_app.
  rewrite (strip_given flag (str "-DCMAKE_CXX_STANDARD=")) by done.
  rewrite (strip_switches flag Hflag o _ switches_nodup switches_plain _ Hin).
  rewrite (strip_given flag (str "-DCMAKE_INSTALL_PREFIX=")) by done.
  pose proof (λ name o' Hn, strip_variables flag option name o' Hin Hn) as Hv.
  rewrite (Hv (str "COVERAGE_ZERO_COUNTERS") (on_off <$> o_lcov_zerocounters o)) by by_decision.
  rewrite (Hv (str "OUTPUT_DIRECTORY")), (Hv (str "WITH_BRITE")), (Hv (str "WITH_CLICK")), (Hv (str "WITH_OPENFLOW")) by by_decision.
  assert (omap (strip_prefix (flag_prefix flag)) (given_truthy (str "-DNS3_ENABLED_MODULES=") (o_enable_modules o)) = []) as ->.
  { unfold given_truthy. destruct (truthy _); [|done]. apply (Hv (str "ENABLED_MODULES")). by_decision. }
  assert (omap (strip_prefix (flag_prefix flag)) (given_truthy (str "-DNS3_DISABLED_MODULES=") (o_disable_modules o)) = []) as ->.
  { unfold given_truthy. destruct (truthy _); [|done]. apply (Hv (str "DISABLED_MODULES")). by_decision. }
  assert (∀ l, Forall (λ s, startswith (str "-DNS3_") s = false) l → omap (strip_prefix (flag_prefix flag)) l = []) as Hnone.
  { induction 1 as [|s l Hs Hl IH]; [done|]. cbn [omap list_omap]. by rewrite strip_other. }
  rewrite (Hnone [cmake]) by by constructor.
  assert (∀ G, G = o_G o ∨ G = Some (default generator (o_G o)) →
    omap (strip_prefix (flag_prefix flag)) (if truthy G then [str "-G"; default [] G] else []) = []) as HGnone.
  { intros G HGs. apply Hnone. destruct (truthy G); [|constructor]. repeat constructor.
    destruct HGs as [-> | ->]; destruct (o_G o) eqn:E; cbn [default]; try done; by apply HG. }
  rewrite HGnone by (destruct configured; auto).
  rewrite (Hnone (if o_trace_cmake_perf o then _ else _)) by (destruct (o_trace_cmake_perf o); repeat constructor).
  rewrite (Hnone [str ".."]) by repeat constructor.
  rewrite !app_nil_l, !app_nil_r.
  destruct profile as [p|]; cbn [mbind option_bind].
  - rewrite last_app, (build_type_effective (lower p) build_type flag option Hin Hbuild).
    by destruct (o_switch o option) as [[?|] [?|]].
  - injection Hbuild as <-. by destruct (o_switch o option) as [[?|] [?|]].
Qed.

(** ** The number of jobs *)

Lemma fold_min_spec zs z :
  (∀ x, x ∈ z :: zs → fold_left Z.min zs z ≤ x) ∧ fold_left Z.min zs z ∈ z :: zs.
Proof.
  revert z. induction zs as [|y zs IH]; intros z; cbn [fold_left].
  - split; [|by left]. by intros x [->|[]%elem_of_nil]%elem_of_cons.
  - destruct (IH (Z.min z y)) as [H1 H2]. split.
    + intros x [->|[->|Hx]%elem_of_cons]%elem_of_cons.
      * etrans; [apply H1; by left|]. lia.
      * etrans; [apply H1; by left|]. lia.
      * apply H1. by right.
    + apply elem_of_cons in H2 as [H2|H2]; [|by do 2 right].
      rewrite H2. destruct (Z.min_spec z y) as [[_ ->]|[_ ->]]; [by left|by right; left].
Qed.

(** As the default of the wrapper itself is among the values, the number of jobs
    is at most the number of processors less one, whatever -j says; it is one of
    the values and at most each of them. *)
Theorem jobs_capped max_cpu_threads attributes z :
  (str "jobs", AInt max_cpu_threads) ∈ attributes →
  merge_jobs max_cpu_threads attributes = Ok z →
  z ≤ max_cpu_threads ∧
  (z = max_cpu_threads ∨ ∃ n v, (n, v) ∈ attributes ∧ contains (str "jobs") n = true ∧ int_of v = Ok z) ∧
  (∀ n v x, (n, v) ∈ attributes → contains (str "jobs") n = true →
     contains (str "disable") n = false → contains (str "enable") n = false → int_of v = Ok x → z ≤ x).
Proof.
  intros Hmax. unfold merge_jobs. set (f := λ a : pystr * attr, _).
  intros (values & Hvals & Hz)%bind_ok_inv. destruct values as [|y ys]; [done|]. apply ok_inj in Hz as <-.
  pose proof (fold_min_spec ys y) as [Hle Hin].
  assert (∀ n v x, (n, v) ∈ mergeable attributes → f (n, v) = Ok x → fold_left Z.min ys y ≤ x) as Hall.
  { intros n v x Hnv Hf. apply Hle. apply list_elem_of_lookup in Hnv as [i Hi].
    clear -Hvals Hf Hi. revert i Hi. generalize dependent (y :: ys). induction (mergeable attributes) as [|b l IH].
    - intros vs _ i Hi. done.
    - intros vs (w & Hw & (ws & Hws & [= <-])%bind_ok_inv)%bind_ok_inv [|i] Hi.
      + injection Hi as ->. rewrite Hf in Hw. injection Hw as ->. by left.
      + right. by eapply IH. }
  assert (∀ n v, (n, v) ∈ attributes → contains (str "disable") n = false → contains (str "enable") n = false →
    (n, v) ∈ mergeable attributes) as Hmerge.
  { intros n v Hnv Hd He. unfold mergeable. apply list_elem_of_filter. cbn [fst]. by rewrite Hd, He. }
  split_and!.
  - eapply (Hall (str "jobs") (AInt max_cpu_threads)); [|reflexivity]. by apply Hmerge.
  - destruct (mapM_res_elem _ _ _ _ Hvals Hin) as ([n v] & Hnv & Hf). unfold f in Hf. cbn [fst snd] in Hf.
    apply list_elem_of_filter in Hnv as [_ Hnv].
    destruct (contains (str "jobs") n) eqn:E; [right; by exists n, v|]. left. by injection Hf.
  - intros n v x Hnv Hj Hd He Hx. apply (Hall n v); [by apply Hmerge|]. unfold f. cbn [fst snd]. by rewrite Hj.
Qed.

(** ** Running a program *)

Section run.
Context (m : machine) (a : args).

(** Ends the script: with status 0 after all commands, else with the status of the
    first that failed. *)
Definition exits {A} (c : stm world A) (commands : list (list pystr)) : Prop :=
  ∀ w, (done_with (c w).1, w_ran (c w).2) =
    match run_until m (w_ran w) commands with
    | (Ok _, ran) => (Raise (SystemExit 0), ran)
    | (Raise e, ran) => (Raise e, ran)
    end.

Lemma exits_bind {A B} (c : stm world A) (f : A → stm world B) xs ys :
  implements m c xs → (∀ x, exits (f x) ys) → exits (c ≫= f) (xs ++ ys).
Proof.
  intros Hc Hf w. rewrite run_until_app, <-(Hc w). unfold mbind, stm_bind.
  destruct (c w) as [[x|e] w1]; cbn; [apply Hf|done].
Qed.
(** A step that succeeds without running anything. *)
Definition passes {A} (c : stm world A) (x : A) : Prop := ∀ w, ∃ w', c w = (Ok x, w') ∧ w_ran w' = w_ran w.
Lemma exits_pass {A B} (c : stm world A) (f : A → stm world B) ys x :
  passes c x → exits (f x) ys → exits (c ≫= f) ys.
Proof.
  intros Hc Hf w. destruct (Hc w) as (w' & E & Hran). unfold mbind, stm_bind. rewrite E, <-Hran. apply Hf.
Qed.
Lemma passes_ret {A} (x : A) : passes (mret x) x.
Proof. intros w. by exists w. Qed.
Lemma passes_lift {A} (r : res exn A) x : r = Ok x → passes (st_lift r) x.
Proof. intros -> w. by exists w. Qed.
Lemma passes_bind {A B} (c : stm world A) (f : A → stm world B) x y :
  passes c x → passes (f x) y → passes (c ≫= f) y.
Proof.
  intros Hc Hf w. destruct (Hc w) as (w1 & E & Hran). destruct (Hf w1) as (w2 & E2 & Hran2).
  exists w2. unfold mbind, stm_bind. rewrite E, E2. split; [done|congruence].
Qed.

Lemma exits_run_step target arguments command program :
  a_dry_run a = false → program_arguments m a target arguments = Ok (command, program) →
  exits (run_step m a target arguments) [command].
Proof.
  intros Hdry Hc. unfold run_step, unless_dry. rewrite Hdry.
  eapply exits_pass; [by apply passes_lift|]. cbv beta iota.
  intros w. unfold mbind at 1, stm_bind at 1, st_get at 1.
  revert w. match goal with |- ∀ w, (done_with ((?c ≫= ?f) w).1, _) = _ =>
    assert (∀ b : bool, exits ((if b then print_and_buffer (str "cd " ++ m_relpath m (m_ns3_path m)
      (if a_shell a then m_ns3_path m else if truthy (a_cwd a) then default [] (a_cwd a) else m_ns3_path m)
      ++ str "; " ++ exported_variables m ++ str "; " ++ join (str " ") command) else mret tt) ≫= f) [command]) as H end.
  { intros b. apply (exits_pass _ _ _ tt). { destruct b; [intros w; by eexists|apply passes_ret]. }
    intros w. unfold mbind, stm_bind, run_command. cbn [run_until w_ran].
    destruct (m_status m (w_ran w ++ [command]) =? 0) eqn:E; [done|]. done. }
  intros w. apply H.
Qed.
End run.

(** An invocation that only runs a program: no other subcommand, no sudo, not as
    root and not dry. *)
Definition plain_run (m : machine) (a : args) (l : lock_info) : bool :=
  negb (bool_decide (m_user m = str "root")) && negb (a_clean a) && negb (a_shell a) && negb (a_dry_run a) &&
  negb (a_only a) && negb (a_install a) && negb (a_uninstall a) && negb (a_enable_sudo a) && negb (l_sudo l) &&
  bool_decide (a_docs a = None) && bool_decide (a_show a = None) && bool_decide (a_build a = None) &&
  match a_configure a with None => true | Some _ => false end && truthy (a_run a).

(** The cache is found, the project is configured, and no scratch program is new. *)
Definition cache_ready (m : machine) (l : lock_info) (folder : pystr) : Prop :=
  (∃ generator, search_cmake_cache (Some (l_build_profile l)) (m_which m) (m_caches m) = Ok (Some folder, generator)) ∧
  project_configured m (Some folder) = true ∧
  match m_previous_scratches m (path_join folder (str "ns3scratches")) with
  | Some previous => split_char newline previous = m_scratch_sources m
  | None => True
  end.

Lemma prepare_cache_passes m a l folder :
  plain_run m a l = true → m_lock m = Some l →
  (if a_no_build a then folder = None else ∃ f, folder = Some f ∧ cache_ready m l f) →
  passes (prepare_cache m a) (Some folder).
Proof.
  unfold plain_run. intros Hp Hl Hf. unfold prepare_cache, run_only, running.
  assert (truthy (a_run a) = true) as -> by (by apply andb_true_iff in Hp as [_ ?]).
  destruct (a_no_build a); cbn [andb]; [subst; apply passes_ret|].
  destruct Hf as (f & -> & (generator & Hs) & Hconf & Hprev). rewrite Hl. cbn [fmap option_fmap option_map].
  eapply passes_bind; [by apply passes_lift|]. cbv beta iota.
  rewrite !andb_true_iff, !bool_decide_eq_true in Hp.
  assert (a_show a = None) as -> by tauto. destruct (a_configure a); [naive_solver|].
  rewrite bool_decide_eq_false_2 by done.
  apply (passes_bind _ _ tt).
  { destruct (truthy (Some f)); [|apply passes_ret]. cbn [default].
    destruct (m_previous_scratches m _); [|apply passes_ret].
    rewrite bool_decide_eq_true_2 by done. apply passes_ret. }
  apply (passes_bind _ _ tt); [apply passes_ret|]. rewrite Hconf.
  apply (passes_bind _ _ tt); apply passes_ret.
Qed.

(** C20: ns3 run without other options of the wrapper ([plain_run]: not as root, not
    dry, no sudo, no other subcommand), in a project whose cache is found and
    configured and whose list of scratch programs is up to date, with a recent cmake,
    of a program (no Python script) that one shortcut stands for and whose executable
    exists.  It runs exactly two commands, the build of the target of that program and, if it
    succeeds, the program; with --no-build only the second.  The exit status is 0 or
    that of the command that failed. *)
Theorem run_builds_and_runs m a l folder name arguments shortcuts path target command program cmake version run :
  plain_run m a l = true → m_lock m = Some l →
  (if a_no_build a then folder = None else ∃ f, folder = Some f ∧ cache_ready m l f) →
  program_and_arguments (default [] (a_run a)) = Ok (name, arguments) →
  get_program_shortcuts (D:=PyDict pystr) (m_ns3_path m) (m_out_dir m) (l_build_profile l) (l_version l)
    (m_exists m) (l_programs l) (l_scripts l) (m_scratch_scripts m) = Ok shortcuts →
  dget name shortcuts = Some [path] → path ≠ [] → contains (str ".py") path = false →
  get_target_to_build (m_out_dir m) path (l_version l) (l_build_profile l) = Ok run →
  executable_to_run (m_out_dir m) (default [] (a_run a)) (m_exists m) (bool_decide (folder = None))
    (a_no_build a) (negb (a_no_build a)) path = Ok target →
  program_arguments m a target arguments = Ok (command, program) →
  m_which m (str "cmake") = Some cmake → cmake ≠ [] →
  parse_version (m_cmake_version m) = Ok version → tuple_ltb version [3; 10; 0] = false →
  ∀ w,
    let '(r, w') := main m a w in
    (r, w_ran w') =
    match run_until m (w_ran w) ((if a_no_build a then [] else [build_words m a run]) ++ [command]) with
    | (Ok _, ran) => (Raise (SystemExit 0), ran)
    | (Raise e, ran) => (Raise e, ran)
    end.
Proof.
  intros Hp Hl Hf Hrun Hshort Hget Hpath Hpy Htarget Hexec Hcommand Hwhich Hne Hversion Hnew.
  assert (exits m (main m a) ((if a_no_build a then [] else [build_words m a run]) ++ [command])) as H.
  2:{ intros w. specialize (H w). by destruct (main m a w) as [[[]|e] w']. }
  pose proof (prepare_cache_passes m a l folder Hp Hl Hf) as Hprep.
  unfold plain_run in Hp. rewrite !andb_true_iff, !negb_true_iff, !bool_decide_eq_false, !bool_decide_eq_true in Hp.
  destruct Hp as [[[[[[[[[[[[[Hroot Hclean] Hshell] Hdry] Honly] Hinst] Huninst] Hsudo] Hlsudo] Hdocs] Hshow] Hbuild] Hconf] Hr].
  destruct (a_run a) as [[|c rn]|] eqn:Erun; [done| |done].
  change (default [] (Some (c :: rn))) with (c :: rn) in *.
  unfold main. rewrite bool_decide_eq_false_2, Hclean, Erun by done.
  apply (exits_pass _ _ _ _ tt). { unfold docs_check. rewrite Hdocs. apply passes_ret. }
  apply (exits_pass _ _ _ _ tt). { unfold show_profile. rewrite Hshow. apply passes_ret. }
  apply (exits_pass _ _ _ _ tt). { unfold running. rewrite Erun. intros w. by eexists. }
  eapply exits_pass. { apply passes_lift. by rewrite Hrun. }
  eapply exits_pass; [exact Hprep|]. cbv beta iota.
  unfold build_and_start. rewrite Hl.
  assert (∃ modules, check_lock_data m = Some modules) as [modules ->].
  { unfold check_lock_data. rewrite Hl. destruct (l_enabled_modules l); by eexists. }
  eapply exits_pass; [by apply passes_lift|]. cbv zeta.
  apply (exits_pass _ _ _ _ (Some path)).
  { apply (passes_bind _ _ path); [|apply passes_ret]. unfold resolve_program.
    rewrite (proj2 (dhas_true name shortcuts)) by by eexists.
    unfold check_ambiguous_target. apply (passes_bind _ _ [path]); [|by apply passes_lift].
    apply passes_lift. unfold dlookup. by rewrite Hget. }
  unfold requested_build. rewrite Honly, Hinst, Huninst, Hdocs, Hshow, Hbuild.
  apply (exits_pass _ _ _ _ None); [apply passes_ret|].
  unfold run_only, build_and_run, running. rewrite Erun.
  change (truthy (Some (c :: rn))) with true. cbn [andb].
  apply exits_bind.
  - destruct (a_no_build a); [apply implements_ret|]. cbn [negb default]. unfold build_step.
    change [build_words m a run] with ([] ++ [build_words m a run]).
    apply implements_bind; [apply implements_ret|intros _].
    eapply implements_lift; [done|]. by eapply implements_cmake_build.
  - intros _. apply (exits_pass _ _ _ _ (Some target)).
    { change (default [] (Some path)) with path. change (default [] (Some (c :: rn))) with (c :: rn).
      rewrite Hshell, Hpy, truthy_Some_nonnil by done. cbn [negb andb].
      apply (passes_bind _ _ target); [by apply passes_lift|apply passes_ret]. }
    rewrite Hlsudo, Hsudo, Hshell. apply (exits_pass _ _ _ _ tt); [apply passes_ret|].
    cbn [orb]. by eapply exits_run_step.
Qed.

(** ** Concrete instances *)

Definition example_lock : lock_info :=
  LockInfo [str "core"] [] (str "debug") (str "3-dev") true false true false false
    [str "/r/build/scratch/ns3-dev-sim-debug"] [].
Definition example_machine (scratches : pystr) (status : list (list pystr) → Z) : machine :=
  Machine (str "user") (str "/r") (str "/r/build") (str "/r/.lock-ns3_linux_build") (Some example_lock)
    (λ _, true) [(str "/r/cmake-cache", cache_text example_cache)] (λ _, []) [str "/r/scratch/sim.cc"] []
    (λ _, Some scratches) (λ name, Some (str "/usr/bin/" ++ name)) (str "3.20.1") (λ _, true) (λ _, None)
    (λ l, l) (λ _ _, []) (λ path _, path) (λ _, ([], [])) None (λ _, str "{}") status.
Definition example_args (dry_run no_build : bool) : args :=
  Args false dry_run false 3 false None false false None None false None (Some (str "sim --n=1")) false no_build
    false None false false false false None [str "--m=2"].
Definition example_world : world := World [] [] [] true [] 0.

(** A dry run of a run with an old list of scratch programs, and one of a forced
    refresh. *)
Definition forced_options : configure_options :=
  ConfigureOptions None None None (λ _, (None, None)) None None None None None None None None false true.
Definition forced_args : args :=
  Args false true false 3 false (Some forced_options) false false None None false None None false false
    false None false false false false None [].
Lemma dry_run_safe_witness :
  let dry pre a := (main (example_machine (str pre) (λ _, 0)) a example_world).2 in
  w_ran (dry "old" (example_args true false)) = [[str "/usr/bin/cmake"; str ".."]] ∧
  w_changes (dry "/r/scratch/sim.cc" forced_args) = [Written settings_bak_file (str "{}")] ∧
  Forall (λ a, a_dry_run a = true → ∃ w1,
      (untouched example_world w1 ∨ refreshed (example_machine (str "old") (λ _, 0)) example_world w1) ∧
      (untouched w1 (dry "old" a) ∨ pinned (example_machine (str "old") (λ _, 0)) a w1 (dry "old" a)))
    [example_args true false; forced_args].
Proof.
  intros dry. split; [vm_compute; reflexivity|split; [vm_compute; reflexivity|]].
  repeat apply Forall_cons_2; [intros Hd|intros Hd|apply Forall_nil_2];
    exact (dry_run_safe (example_machine (str "old") (λ _, 0)) _ example_world Hd).
Defined.

Lemma build_step_refines_witness :
  let m := example_machine (str "/r/scratch/sim.cc") (λ ran, if (length ran =? 3)%nat then 2 else 0) in
  let '(r, w') := build_step m (example_args false false) (Some [str "docs"; str "core"]) false (str "run.py")
                    (str "/r/cmake-cache") [str "core"] (str "3-dev") (str "release") example_world in
  (r, w_ran w') = (Raise (SystemExit 2),
    [split_words (str "cmake --build . -j 3 --target sphinx"); split_words (str "cmake --build . -j 3 --target libcore");
     split_words (str "cmake --build . -j 3 --target doxygen")]).
Proof.
  intros m.
  pose proof (build_step_refines m (example_args false false) (str "/usr/bin/cmake") [3; 20; 1]
    (Some [str "docs"; str "core"]) false (str "run.py") (str "/r/cmake-cache") [str "core"] (str "3-dev") (str "release")
    [(Some (str "sphinx"), true); (Some (str "libcore"), false)] None eq_refl eq_refl ltac:(done)
    ltac:(vm_compute; reflexivity) eq_refl ltac:(by_decision) ltac:(vm_compute; reflexivity)
    ltac:(vm_compute; reflexivity) example_world) as H.
  destruct (build_step _ _ _ _ _ _ _ _ _ example_world) as [r w']. rewrite H. vm_compute. reflexivity.
Defined.

Lemma configure_effective_witness :
  let o := ConfigureOptions (Some (str "optimized")) None None
    (λ s, if bool_decide (s = str "asserts") then (Some true, None) else (None, None))
    None None None None None None None None false false in
  match configure_arguments (str "cmake") true (str "Ninja") [] o [] with
  | Ok arguments => effective (str "ASSERT") arguments = Some (str "ON") ∧ effective (str "LOG") arguments = Some (str "OFF")
  | Raise _ => False
  end.
Proof.
  intros o. destruct (configure_arguments (str "cmake") true (str "Ninja") [] o []) as [arguments|e] eqn:E.
  - split.
    + by rewrite (configure_effective (str "cmake") true (str "Ninja") [] o arguments (str "ASSERT") (str "asserts") E
        ltac:(by_decision) eq_refl eq_refl ltac:(done)).
    + by rewrite (configure_effective (str "cmake") true (str "Ninja") [] o arguments (str "LOG") (str "logs") E
        ltac:(by_decision) eq_refl eq_refl ltac:(done)).
  - vm_compute in E. discriminate E.
Defined.

Lemma jobs_capped_witness :
  merge_jobs 7 [(str "jobs", AInt 7); (str "build_jobs", AStr (str "32")); (str "build", ANone)] = Ok 7 ∧ 7 ≤ 7.
Proof.
  assert (merge_jobs 7 [(str "jobs", AInt 7); (str "build_jobs", AStr (str "32")); (str "build", ANone)] = Ok 7) as H
    by (vm_compute; reflexivity).
  split; [exact H|]. apply (jobs_capped 7 _ 7 ltac:(by left) H).
Defined.

Definition ready_machine : machine := example_machine (str "/r/scratch/sim.cc") (λ _, 0).
Definition ready_shortcuts : res exn (PyDict pystr (list pystr)) :=
  get_program_shortcuts (m_ns3_path ready_machine) (m_out_dir ready_machine) (l_build_profile example_lock)
    (l_version example_lock) (m_exists ready_machine) (l_programs example_lock) (l_scripts example_lock)
    (m_scratch_scripts ready_machine).

Lemma run_builds_and_runs_witness :
  let '(r, w') := main ready_machine (example_args false false) example_world in
  (r, w_ran w') = (Raise (SystemExit 0),
    [split_words (str "cmake --build . -j 3 --target scratch_sim");
     [str "/r/build/scratch/ns3-dev-sim-debug"; str "--n=1"; str "--m=2"]]).
Proof.
  assert (∃ shortcuts, ready_shortcuts = Ok shortcuts ∧
    dget (str "sim") shortcuts = Some [str "/r/build/scratch/ns3-dev-sim-debug"]) as (shortcuts & E & Hd).
  { assert (match ready_shortcuts with Ok d => dget (str "sim") d | Raise _ => None end =
      Some [str "/r/build/scratch/ns3-dev-sim-debug"]) as H by (vm_compute; reflexivity).
    destruct ready_shortcuts as [d|e]; [|discriminate H]. by exists d. }
  assert (cache_ready ready_machine example_lock (str "/r/cmake-cache")) as Hcache.
  { split_and!; [exists (str "Ninja")|..]; vm_compute; reflexivity. }
  pose proof (run_builds_and_runs ready_machine (example_args false false) example_lock (Some (str "/r/cmake-cache"))
    (str "sim") [str "--n=1"] shortcuts (str "/r/build/scratch/ns3-dev-sim-debug") (str "/r/build/scratch/ns3-dev-sim-debug")
    [str "/r/build/scratch/ns3-dev-sim-debug"; str "--n=1"; str "--m=2"] (str "/r/build/scratch/ns3-dev-sim-debug")
    (str "/usr/bin/cmake") [3; 20; 1] (Some (str "scratch_sim"))
    ltac:(vm_compute; reflexivity) ltac:(vm_compute; reflexivity) ltac:(by exists (str "/r/cmake-cache"))
    ltac:(vm_compute; reflexivity) E Hd ltac:(done) ltac:(vm_compute; reflexivity) ltac:(vm_compute; reflexivity)
    ltac:(vm_compute; reflexivity) ltac:(vm_compute; reflexivity) ltac:(vm_compute; reflexivity) ltac:(done)
    ltac:(vm_compute; reflexivity) ltac:(vm_compute; reflexivity) example_world) as H.
  destruct (main _ _ _) as [r w']. rewrite H. vm_compute. reflexivity.
Defined.
