(* ===== verification/PyPath.v ===== *)
(** * [pathlib] and a tree of directories and files

    POSIX paths as [pathlib] keeps them, a file system as a finite map from
    absolute paths to directories and files, and the operations that
    create-module.py makes on it.  An operation can fail for a reason outside the
    tree (a permission, a full disk): which ones do is a parameter, and so is the
    order in which [shutil.rmtree] removes things; [is_dir] always answers.  Symbolic
    links, and paths with [..], are not modelled. *)
From Stdlib Require Import Ascii String.
From stdpp Require Import gmap.
From S2P Require Export PyOs.
Open Scope Z_scope.

(** ** Paths *)

(** The root is empty for a relative path. *)
Record path := MkPath { root : pystr; comps : list pystr }.
#[export] Instance path_eq_dec : EqDecision path.
Proof. solve_decision. Defined.

(** A component that [pathlib] keeps. *)
Definition kept_comp (c : pystr) : Prop := c ≠ [] ∧ c ≠ str ".".
#[export] Instance kept_comp_dec c : Decision (kept_comp c).
Proof. unfold kept_comp. apply _. Defined.

Definition Path (s : pystr) : path :=
  MkPath (initial_slashes s) (base.filter kept_comp (split_char "/" s)).
Definition path_str (p : path) : pystr :=
  match root p ++ join (str "/") (comps p) with [] => str "." | s => s end.
Definition parts (p : path) : list pystr :=
  match root p with [] => comps p | r => r :: comps p end.
Definition is_absolute (p : path) : bool := negb (bool_decide (root p = [])).

Definition joinpath (p q : path) : path :=
  if is_absolute q then q else MkPath (root p) (comps p ++ comps q).

(** [p.relative_to(q)] *)
Fixpoint strip_comps (q p : list pystr) : option (list pystr) :=
  match q, p with
  | [], _ => Some p
  | x :: q, y :: p => if decide (x = y) then strip_comps q p else None
  | _ :: _, [] => None
  end.
Definition relative_to (p q : path) : res exn path :=
  if bool_decide (root p = root q) then
    match strip_comps (comps q) (comps p) with
    | Some cs => Ok (MkPath [] cs)
    | None => Raise ValueError
    end
  else Raise ValueError.

(** The name before its suffix: a dot that is neither first nor last starts a
    suffix, and the last such dot counts. *)
Definition last_dot (name : pystr) : nat :=
  length name - 1 - length (default [] (head (split_char "." (rev name)))).
Definition stem (name : pystr) : pystr :=
  if bool_decide ("."%char ∈ name) && (0 <? last_dot name)%nat && (last_dot name <? length name - 1)%nat
  then take (last_dot name) name else name.
Definition with_suffix (suffix : pystr) (p : path) : res exn path :=
  match last (comps p) with
  | Some name => Ok (MkPath (root p) (removelast (comps p) ++ [stem name ++ suffix]))
  | None => Raise ValueError
  end.

(** ** The tree *)

Variant node := Dir | File (contents : pystr).
#[export] Instance node_eq_dec : EqDecision node.
Proof. solve_decision. Defined.

(** The key of a path is the list of its components from the root directory. *)
Abbreviation key := (list pystr).
Abbreviation tree := (gmap (list pystr) node).

Definition get_node (t : tree) (k : key) : option node :=
  match k with [] => Some Dir | _ => t !! k end.
Definition is_dir (t : tree) (k : key) : bool := bool_decide (get_node t k = Some Dir).

(** A tree in which what is not at the top lies in a directory. *)
Definition wf_tree (t : tree) : Prop :=
  ∀ k, is_Some (get_node t k) → get_node t (removelast k) = Some Dir.

Variant errno := ENOENT | ENOTDIR | EEXIST | EISDIR | EOTHER.
#[export] Instance errno_eq_dec : EqDecision errno.
Proof. solve_decision. Defined.

(** The operations that can fail for an outside reason: making a directory, opening
    and writing a file, asking whether something exists (for the first time, and
    again in a handler), and removing a file or an empty directory. *)
Variant fault := AtMkdir | AtOpen | AtWrite | AtExists | AtRecheck | AtRemove.

(** An order of removal: all that lies at and below a directory, and nothing before
    what is below it. *)
Record removal := Removal {
  removal_order : key → tree → list key;
  removal_all k t q : q ∈ removal_order k t ↔ k `prefix_of` q ∧ is_Some (t !! q);
  removal_after k t pre q post p : removal_order k t = pre ++ q :: post → p ∈ post → ¬ q `prefix_of` p }.

Record world := World {
  fs : tree; stdout : list pystr; stderr : list pystr }.
Definition on_fs (f : tree → tree) (w : world) : world := World (f (fs w)) (stdout w) (stderr w).
Definition print (s : pystr) : stm world unit :=
  st_modify (λ w, World (fs w) (stdout w ++ [s]) (stderr w)).
Definition eprint (s : pystr) : stm world unit :=
  st_modify (λ w, World (fs w) (stdout w) (stderr w ++ [s])).

(** [try: ... except Exception as e: ...]: [SystemExit] is not an [Exception]. *)
Definition st_try {S A} (m : stm S A) (handler : exn → stm S A) : stm S A := λ s,
  match m s with
  | (Raise (SystemExit c), s) => (Raise (SystemExit c), s)
  | (Raise e, s) => handler e s
  | r => r
  end.

Section files.
Context (faulty : fault → key → bool).

(** Why the parent of a new entry cannot take it. *)
Definition parent_error (t : tree) (k : key) : option errno :=
  match get_node t (removelast k) with
  | Some Dir => None
  | Some (File _) => Some ENOTDIR
  | None => Some ENOENT
  end.

Definition os_mkdir (k : key) (w : world) : option errno * world :=
  match parent_error (fs w) k with
  | Some e => (Some e, w)
  | None =>
      match get_node (fs w) k with
      | Some _ => (Some EEXIST, w)
      | None => if faulty AtMkdir k then (Some EOTHER, w) else (None, on_fs <[k := Dir]> w)
      end
  end.

(** What [Path.mkdir] does after [os.mkdir]: an error counts unless an existing
    directory is fine. *)
Definition mkdir_result (exist_ok : bool) (k : key) (r : option errno) : stm world unit :=
  match r with
  | None => mret tt
  | Some ENOENT => st_raise OSError
  | Some _ => w ← st_get; if exist_ok && is_dir (fs w) k then mret tt else st_raise OSError
  end.
Definition mkdir1 (exist_ok : bool) (k : key) : stm world unit :=
  r ← (λ w, let '(e, w) := os_mkdir k w in (Ok e, w));
  mkdir_result exist_ok k r.

(** [mkdir(parents=True)]; the fuel is the length of the path. *)
Fixpoint mkdir_parents (fuel : nat) (exist_ok : bool) (k : key) : stm world unit :=
  r ← (λ w, let '(e, w) := os_mkdir k w in (Ok e, w));
  match r, fuel with
  | Some ENOENT, S fuel => _ ← mkdir_parents fuel true (removelast k); mkdir1 exist_ok k
  | _, _ => mkdir_result exist_ok k r
  end.
Definition mkdir (k : key) : stm world unit := mkdir_parents (length k) false k.

(** [open("wt")] empties or creates the file. *)
Definition open_wt (k : key) : stm world unit := λ w,
  match parent_error (fs w) k, get_node (fs w) k with
  | Some _, _ | _, Some Dir => (Raise OSError, w)
  | None, _ => if faulty AtOpen k then (Raise OSError, w) else (Ok tt, on_fs <[k := File []]> w)
  end.
(** Writing to the file just opened, which is closed even when it fails. *)
Definition write_text (k : key) (s : pystr) : stm world unit := λ w,
  if faulty AtWrite k then (Raise OSError, w) else (Ok tt, on_fs <[k := File s]> w).

Definition exists_ (f : fault) (k : key) : stm world bool := λ w,
  if faulty f k then (Raise OSError, w) else (Ok (bool_decide (is_Some (get_node (fs w) k))), w).

(** [shutil.rmtree]: a directory with everything in it, up to the first thing that
    cannot be removed. *)
Definition remove (k : key) : stm world unit := λ w,
  if faulty AtRemove k then (Raise OSError, w) else (Ok tt, on_fs (delete k) w).
Definition rmtree (rm : removal) (k : key) : stm world unit :=
  w ← st_get;
  if is_dir (fs w) k then st_for remove (removal_order rm k (fs w)) else st_raise OSError.
End files.

(** ** The operations keep the tree in shape *)

Lemma get_node_cons (t : tree) x k : get_node t (x :: k) = t !! (x :: k).
Proof. done. Qed.
Lemma get_node_ne (t : tree) k : k ≠ [] → get_node t k = t !! k.
Proof. by destruct k. Qed.
Lemma get_insert (t : tree) k n : k ≠ [] → get_node (<[k := n]> t) k = Some n.
Proof. intros Hk. rewrite get_node_ne by done. by rewrite lookup_insert_eq. Qed.
Lemma get_insert_ne (t : tree) k n q : q ≠ k → get_node (<[k := n]> t) q = get_node t q.
Proof. intros Hq. destruct q; [done|]. cbn. by rewrite lookup_insert_ne. Qed.

Lemma removelast_ne (k : key) : k ≠ [] → removelast k ≠ k.
Proof.
  intros Hk He. apply (f_equal length) in He. destruct k as [|x k] using rev_ind; [done|].
  rewrite removelast_last, length_app in He. cbn in He. lia.
Qed.

(** A new directory, or a file that replaces none but a file. *)
Lemma wf_insert t k n :
  wf_tree t → k ≠ [] → get_node t (removelast k) = Some Dir →
  n = Dir ∨ get_node t k ≠ Some Dir → wf_tree (<[k := n]> t).
Proof.
  intros Ht Hk Hp Hn q Hq. destruct (decide (q = k)) as [->|Hqk].
  - rewrite get_insert_ne; [done|by apply removelast_ne].
  - rewrite get_insert_ne in Hq by done. destruct (decide (removelast q = k)) as [Hr|Hr].
    + rewrite Hr, get_insert by done. destruct Hn as [->|Hn]; [done|]. destruct Hn. rewrite <-Hr. by apply Ht.
    + rewrite get_insert_ne by done. by apply Ht.
Qed.

Lemma wf_below t k r : wf_tree t → get_node t k = None → get_node t (k ++ r) = None.
Proof.
  intros Ht Hk. induction r as [|x r IH] using rev_ind; [by rewrite app_nil_r|].
  destruct (get_node t (k ++ r ++ [x])) as [n|] eqn:E; [|done].
  specialize (Ht (k ++ r ++ [x]) ltac:(by rewrite E)).
  rewrite (assoc_L (++)), removelast_last in Ht. congruence.
Qed.

Lemma get_delete (t : tree) k p : k ≠ [] → get_node (delete k t) p = if decide (p = k) then None else get_node t p.
Proof.
  intros Hk. destruct p as [|x p]; cbn [get_node]; [by rewrite decide_False by congruence|].
  case_decide as Hp; [rewrite Hp; apply lookup_delete_eq|by rewrite lookup_delete_ne by congruence].
Qed.

(** Only directories on the way to [k] are new. *)
Definition dirs_added (k : key) (t t' : tree) : Prop := ∀ q,
  get_node t' q = get_node t q ∨ get_node t q = None ∧ get_node t' q = Some Dir ∧ q `prefix_of` k.

Lemma dirs_added_refl k t : dirs_added k t t.
Proof. intros q. by left. Qed.
Lemma dirs_added_trans j k t1 t2 t3 :
  j `prefix_of` k → dirs_added j t1 t2 → dirs_added k t2 t3 → dirs_added k t1 t3.
Proof.
  intros Hjk H12 H23 q. destruct (H12 q) as [E|(E1 & E2 & Hp)], (H23 q) as [F|(F1 & F2 & Hq)].
  - left. congruence.
  - right. split_and!; [congruence|done..].
  - right. split_and!; [done|congruence|by etrans].
  - congruence.
Qed.
Lemma dirs_added_insert k t : k ≠ [] → get_node t k = None → dirs_added k t (<[k := Dir]> t).
Proof.
  intros Hk Hn q. destruct (decide (q = k)) as [->|Hq].
  - right. by rewrite get_insert.
  - left. by rewrite get_insert_ne.
Qed.
Lemma removelast_prefix (k : key) : removelast k `prefix_of` k.
Proof.
  destruct k as [|x k] using rev_ind; [done|]. rewrite removelast_last. by apply prefix_app_r.
Qed.
Lemma not_prefix_removelast (k : key) : k ≠ [] → ¬ k `prefix_of` removelast k.
Proof.
  intros Hk Hp. apply (removelast_ne k Hk). apply (anti_symm prefix); [apply removelast_prefix|done].
Qed.

Section files_facts.
Context (faulty : fault → key → bool).

(** Nothing stands in the way of making [k] with its parents. *)
Definition makeable (t : tree) (k : key) : Prop := ∀ q, q `prefix_of` k →
  (get_node t q = None ∨ get_node t q = Some Dir) ∧ faulty AtMkdir q = false.

(** What an attempt to make [k] comes to. *)
Record mkdir_outcome (exist_ok : bool) (k : key) (w : world) (r : res exn unit) (w' : world) : Prop := {
  mo_stdout : stdout w' = stdout w;
  mo_stderr : stderr w' = stderr w;
  mo_wf : wf_tree (fs w');
  mo_added : dirs_added k (fs w) (fs w');
  mo_ok : r = Ok tt → get_node (fs w') k = Some Dir ∧ (exist_ok = false → get_node (fs w) k = None);
  mo_raise e : r = Raise e → e = OSError ∧ (get_node (fs w) k = None → get_node (fs w') k = None);
  mo_makeable : makeable (fs w) k → exist_ok = true ∨ get_node (fs w) k = None → r = Ok tt;
}.

Lemma mkdir_known exist_ok k w : wf_tree (fs w) → get_node (fs w) (removelast k) = Some Dir →
  ∃ r w', mkdir1 faulty exist_ok k w = (r, w') ∧ mkdir_outcome exist_ok k w r w' ∧
    ∀ n, mkdir_parents faulty n exist_ok k w = (r, w').
Proof.
  intros Hwf Hp.
  assert (∃ e w1, os_mkdir faulty k w = (e, w1) ∧ e ≠ Some ENOENT ∧
    ∃ r w', mkdir_result exist_ok k e w1 = (r, w') ∧ mkdir_outcome exist_ok k w r w')
    as (e & w1 & He & Hne & r & w' & Hr & Ho).
  { unfold os_mkdir, parent_error. rewrite Hp. destruct (get_node (fs w) k) as [nd|] eqn:Hk.
    - eexists _, w. split; [done|]. split; [done|]. unfold mkdir_result, mbind, stm_bind, st_get.
      destruct (exist_ok && is_dir (fs w) k) eqn:Hok; eexists _, w; (split; [done|]); split; try done;
        try apply dirs_added_refl.
      + intros _. apply andb_true_iff in Hok as [-> Hd%bool_decide_eq_true]. done.
      + intros e [= <-]. done.
      + intros Hm Hor. destruct (Hm k) as [Hd _]; [done|]. rewrite Hk in Hd, Hor. destruct Hor as [->|?]; [|done].
        destruct Hd as [?|Hd]; [done|]. unfold is_dir in Hok. by rewrite Hk, bool_decide_true in Hok.
    - assert (k ≠ []) as Hkn by (by intros ->). destruct (faulty AtMkdir k) eqn:Hf.
      + eexists _, w. split; [done|]. split; [done|]. unfold mkdir_result, mbind, stm_bind, st_get.
        unfold is_dir. rewrite Hk, bool_decide_false, andb_false_r by done.
        eexists _, w. split; [done|]. split; try done; try apply dirs_added_refl.
        * intros e [= <-]. done.
        * intros Hm _. destruct (Hm k); [done|congruence].
      + eexists _, _. split; [done|]. split; [done|]. eexists _, _. split; [done|]. split; cbn; try done.
        * apply wf_insert; auto.
        * by apply dirs_added_insert.
        * intros _. by rewrite get_insert. }
  exists r, w'. split; [|split; [done|]].
  - unfold mkdir1, mbind, stm_bind. by rewrite He.
  - intros n. destruct n; cbn; unfold mbind, stm_bind at 1; rewrite He;
      destruct e as [[]|]; done.
Qed.

Lemma mkdir_spec n exist_ok k w : (length k ≤ n)%nat → wf_tree (fs w) →
  ∃ r w', mkdir_parents faulty n exist_ok k w = (r, w') ∧ mkdir_outcome exist_ok k w r w'.
Proof.
  revert exist_ok k w. induction n as [|n IH]; intros exist_ok k w Hn Hwf.
  { destruct k; [|cbn in Hn; lia]. destruct (mkdir_known exist_ok [] w) as (r & w' & _ & ? & ?); eauto. }
  destruct (get_node (fs w) (removelast k)) as [[|s]|] eqn:Hp.
  - destruct (mkdir_known exist_ok k w) as (r & w' & _ & ? & ?); eauto.
  - assert (get_node (fs w) k = None) as Hk.
    { apply eq_None_not_Some. intros Hk%Hwf. congruence. }
    exists (Raise OSError), w. split.
    + cbn. unfold os_mkdir, parent_error, mkdir_result, mbind, stm_bind, st_get. rewrite Hp.
      unfold is_dir. by rewrite Hk, bool_decide_false, andb_false_r.
    + split; try done; [apply dirs_added_refl|by intros e [= <-]|].
      intros Hm _. destruct (Hm (removelast k)) as [[?|?] _]; [apply removelast_prefix|congruence..].
  - assert (k ≠ []) as Hkn by (by intros ->).
    assert (get_node (fs w) k = None) as Hk.
    { apply eq_None_not_Some. intros Hk%Hwf. congruence. }
    destruct (IH true (removelast k) w) as (r1 & w1 & Hr1 & H1); [|done|].
    { destruct k as [|x k] using rev_ind; [done|]. rewrite removelast_last. rewrite length_app in Hn. cbn in Hn. lia. }
    assert (mkdir_parents faulty (S n) exist_ok k w =
      (_ ← mkdir_parents faulty n true (removelast k); mkdir1 faulty exist_ok k) w) as Hrun.
    { cbn. unfold mbind, stm_bind at 1. unfold os_mkdir, parent_error. by rewrite Hp. }
    assert (get_node (fs w1) k = None) as Hk1.
    { destruct (mo_added _ _ _ _ _ H1 k) as [E|(_ & _ & Hpre)]; [congruence|by apply not_prefix_removelast in Hpre]. }
    destruct r1 as [[]|e].
    + destruct (mo_ok _ _ _ _ _ H1 eq_refl) as [Hd _].
      destruct (mkdir_known exist_ok k w1 (mo_wf _ _ _ _ _ H1) Hd) as (r & w' & Hr & H2 & _).
      exists r, w'. rewrite Hrun, (st_bind_step _ _ _ _ _ Hr1). split; [done|]. destruct H1, H2. split.
      * congruence.
      * congruence.
      * done.
      * eapply dirs_added_trans; [apply removelast_prefix|done..].
      * intros Hok. split; [by apply mo_ok1|done].
      * intros e He. destruct (mo_raise1 e He); auto.
      * intros Hm Hor. apply mo_makeable1; [|by right]. intros q Hq. split; [|by apply Hm].
        destruct (mo_added0 q) as [->|(_ & -> & _)]; [by apply Hm|by right].
    + exists (Raise e), w1. rewrite Hrun, (st_bind_raise _ _ _ _ _ Hr1). split; [done|]. destruct H1. split; try done.
      * eapply dirs_added_trans; [apply removelast_prefix|done|apply dirs_added_refl].
      * intros e' [= <-]. destruct (mo_raise0 e eq_refl). auto.
      * intros Hm _. discriminate mo_makeable0; [|by left]. intros q Hq. apply Hm. etrans; [done|apply removelast_prefix].
Qed.

(** ** Making several entries below a directory *)

Variant op := OMkdir (r : key) | OWrite (r : key) (s : pystr).
Definition op_key (o : op) : key := match o with OMkdir r | OWrite r _ => r end.
Definition op_node (o : op) : node := match o with OMkdir _ => Dir | OWrite _ s => File s end.
Definition apply_op (s : tree) (o : op) : tree := <[op_key o := op_node o]> s.

Section ops.
Context (base : key) (Hbase : base ≠ []).

Definition do_op (o : op) : stm world unit :=
  match o with
  | OMkdir r => mkdir faulty (base ++ r)
  | OWrite r s => _ ← open_wt faulty (base ++ r); write_text faulty (base ++ r) s
  end.
Definition op_fails (o : op) : bool :=
  match o with
  | OMkdir r => faulty AtMkdir (base ++ r)
  | OWrite r _ => faulty AtOpen (base ++ r) || faulty AtWrite (base ++ r)
  end.

(** [s] is what lies at and below the base; it is empty-keyed at the base. *)
Definition below (t s : tree) : Prop := ∀ r, get_node t (base ++ r) = s !! r.
Definition elsewhere (t t' : tree) : Prop := ∀ q, ¬ base `prefix_of` q → get_node t' q = get_node t q.

(** Each operation finds its directory made, and not its own name. *)
Definition op_ready (s : tree) (o : op) : Prop :=
  op_key o ≠ [] ∧ s !! removelast (op_key o) = Some Dir ∧
  match o with OMkdir r => s !! r = None | OWrite r _ => s !! r ≠ Some Dir end.
Fixpoint ready (s : tree) (ops : list op) : Prop :=
  match ops with
  | [] => True
  | o :: ops => op_ready s o ∧ ready (apply_op s o) ops
  end.

Lemma removelast_base r : r ≠ [] → removelast (base ++ r) = base ++ removelast r.
Proof. intros Hr. by rewrite removelast_app. Qed.

Lemma below_insert t s r n : below t s → below (<[base ++ r := n]> t) (<[r := n]> s).
Proof.
  intros Hb q. destruct (decide (q = r)) as [->|Hq].
  - rewrite lookup_insert_eq. apply get_insert. intros [? _]%app_nil. done.
  - rewrite lookup_insert_ne by done. rewrite get_insert_ne; [apply Hb|]. intros E%app_inv_head. done.
Qed.
Lemma elsewhere_insert t r n : elsewhere t (<[base ++ r := n]> t).
Proof. intros q Hq. apply get_insert_ne. intros ->. apply Hq. by apply prefix_app_r. Qed.
Lemma elsewhere_refl t : elsewhere t t.
Proof. done. Qed.
Lemma elsewhere_trans t1 t2 t3 : elsewhere t1 t2 → elsewhere t2 t3 → elsewhere t1 t3.
Proof. intros H1 H2 q Hq. by rewrite H2, H1. Qed.

(** The part of a state that making entries below the base leaves alone. *)
Record frame (w w' : world) : Prop := {
  fr_stdout : stdout w' = stdout w;
  fr_stderr : stderr w' = stderr w;
  fr_wf : wf_tree (fs w) → wf_tree (fs w');
  fr_elsewhere : elsewhere (fs w) (fs w');
  fr_base : get_node (fs w) base = Some Dir → get_node (fs w') base = Some Dir;
}.
Lemma frame_refl w : frame w w.
Proof. by split. Qed.
Lemma frame_trans w1 w2 w3 : frame w1 w2 → frame w2 w3 → frame w1 w3.
Proof.
  intros [] []. split; [congruence|congruence|auto|by eapply elsewhere_trans|auto].
Qed.

Lemma frame_insert w r n : r ≠ [] → get_node (fs w) (base ++ removelast r) = Some Dir →
  n = Dir ∨ get_node (fs w) (base ++ r) ≠ Some Dir → frame w (on_fs <[base ++ r := n]> w).
Proof.
  intros Hr Hp Hn. split; try done.
  - intros Hwf. apply wf_insert; [done|by intros [? _]%app_nil|by rewrite removelast_base|done].
  - apply elsewhere_insert.
  - intros Hd. cbn. rewrite get_insert_ne; [done|]. intros E.
    apply Hr. apply (app_inv_head base). by rewrite app_nil_r.
Qed.

Lemma do_op_spec o w s : below (fs w) s → op_ready s o →
  ∃ r w', do_op o w = (r, w') ∧ frame w w' ∧
    if op_fails o then r = Raise OSError else r = Ok tt ∧ below (fs w') (apply_op s o).
Proof.
  intros Hb (Hr & Hp & Ho). rewrite <-(Hb (removelast (op_key o))) in Hp.
  assert (parent_error (fs w) (base ++ op_key o) = None) as Hpe.
  { unfold parent_error. by rewrite removelast_base, Hp. }
  assert (base ++ op_key o ≠ []) as Hne by (by intros [? _]%app_nil).
  destruct o as [r|r c]; cbn [op_key op_fails do_op] in *; rewrite <-(Hb r) in Ho.
  - assert (∀ n, mkdir_parents faulty n false (base ++ r) w =
      if faulty AtMkdir (base ++ r) then (Raise OSError, w) else (Ok tt, on_fs <[base ++ r := Dir]> w)) as Hm.
    { intros n. assert (os_mkdir faulty (base ++ r) w = if faulty AtMkdir (base ++ r)
        then (Some EOTHER, w) else (None, on_fs <[base ++ r := Dir]> w)) as Hos.
      { unfold os_mkdir. by rewrite Hpe, Ho. }
      destruct n; cbn; unfold mbind, stm_bind at 1; rewrite Hos; by destruct (faulty AtMkdir (base ++ r)). }
    unfold mkdir. rewrite Hm. destruct (faulty AtMkdir (base ++ r)).
    + eexists _, w. split; [done|]. split; [apply frame_refl|done].
    + eexists _, _. split; [done|]. split; [by apply frame_insert; auto|]. split; [done|]. by apply below_insert.
  - assert (open_wt faulty (base ++ r) w = if faulty AtOpen (base ++ r) then (Raise OSError, w)
      else (Ok tt, on_fs <[base ++ r := File []]> w)) as Hopen.
    { unfold open_wt. rewrite Hpe. by destruct (get_node (fs w) (base ++ r)) as [[]|]. }
    destruct (faulty AtOpen (base ++ r)); cbn [orb].
    + rewrite (st_bind_raise _ _ _ _ _ Hopen). eexists _, w. split; [done|]. split; [apply frame_refl|done].
    + rewrite (st_bind_step _ _ _ _ _ Hopen). unfold write_text.
      assert (frame w (on_fs <[base ++ r := File []]> w)) as Hf by (apply frame_insert; auto).
      destruct (faulty AtWrite (base ++ r)).
      * eexists _, _. split; [done|]. split; done.
      * eexists _, _. split; [done|]. split.
        -- eapply frame_trans; [done|]. apply frame_insert; [done| |].
           ++ cbn. rewrite get_insert_ne; [done|]. intros E%app_inv_head. by apply (removelast_ne r).
           ++ right. cbn. by rewrite get_insert.
        -- split; [done|]. cbn. rewrite insert_insert_eq. by apply below_insert.
Qed.

Lemma do_ops_spec ops w s : below (fs w) s → ready s ops →
  ∃ r w', st_for do_op ops w = (r, w') ∧ frame w w' ∧
    if existsb op_fails ops then r = Raise OSError
    else r = Ok tt ∧ below (fs w') (fold_left apply_op ops s).
Proof.
  revert w s. induction ops as [|o ops IH]; intros w s Hb Hr; cbn.
  - eexists _, w. split; [done|]. split; [apply frame_refl|done].
  - destruct Hr as [Ho Hr]. destruct (do_op_spec o w s Hb Ho) as (r1 & w1 & E & Hf & H1).
    destruct (op_fails o); cbn [orb].
    + subst r1. eexists _, w1. rewrite (st_bind_raise _ _ _ _ _ E). done.
    + destruct H1 as [-> H1]. destruct (IH w1 _ H1 Hr) as (r2 & w2 & E2 & Hf2 & H2).
      exists r2, w2. rewrite (st_bind_step _ _ _ _ _ E). split; [done|].
      split; [by eapply frame_trans|done].
Qed.
End ops.
End files_facts.

(** ** Removal *)

(** Longer paths first. *)
Definition keys_below (k : key) (t : tree) : list key := base.filter (λ q, k `prefix_of` q) ((map_to_list t).*1).
Definition longer_first (p q : key) : Prop := (length q ≤ length p)%nat.
#[export] Instance longer_first_dec p q : Decision (longer_first p q).
Proof. unfold longer_first. apply _. Defined.
#[export] Instance longer_first_trans : Transitive longer_first.
Proof. intros x y z. unfold longer_first. lia. Qed.
#[export] Instance longer_first_total : Total longer_first.
Proof. intros x y. unfold longer_first. lia. Qed.
Lemma by_length_all k t q :
  q ∈ merge_sort longer_first (keys_below k t) ↔ k `prefix_of` q ∧ is_Some (t !! q).
Proof.
  rewrite merge_sort_Permutation. unfold keys_below. rewrite list_elem_of_filter, list_elem_of_fmap. split.
  - intros [Hp ([q' n] & -> & Hn%elem_of_map_to_list)]. split; [done|]. by exists n.
  - intros [Hp [n Hn]]. split; [done|]. exists (q, n). split; [done|]. by apply elem_of_map_to_list.
Qed.
Lemma by_length_after k t pre q post p :
  merge_sort longer_first (keys_below k t) = pre ++ q :: post → p ∈ post → ¬ q `prefix_of` p.
Proof.
  intros E Hp [r ->].
  pose proof (StronglySorted_merge_sort longer_first (keys_below k t)) as Hs.
  assert (NoDup (merge_sort longer_first (keys_below k t))) as Hnd.
  { rewrite merge_sort_Permutation. apply NoDup_filter, NoDup_fst_map_to_list. }
  rewrite E in Hs, Hnd. apply StronglySorted_app_1_r in Hs.
  apply StronglySorted_inv in Hs as [_ Hs]. rewrite Forall_forall in Hs. specialize (Hs _ Hp).
  unfold longer_first in Hs. rewrite length_app in Hs.
  destruct r; [|cbn in Hs; lia]. rewrite app_nil_r in Hp.
  apply NoDup_app in Hnd as (_ & _ & Hnd). by apply NoDup_cons in Hnd as [Hq _].
Qed.
Definition by_length : removal :=
  Removal (λ k t, merge_sort longer_first (keys_below k t)) by_length_all by_length_after.

Section removal_facts.
Context (faulty : fault → key → bool) (rm : removal) (k : key) (Hk : k ≠ []).

(** What a removal that has come as far as [pre] leaves. *)
Definition removed (pre : list key) (t t' : tree) : Prop :=
  ∀ q, get_node t' q = if decide (q ∈ pre) then None else get_node t q.

Lemma removed_wf t t' pre post :
  wf_tree t → removal_order rm k t = pre ++ post → removed pre t t' → wf_tree t'.
Proof.
  intros Hwf E Hr q Hq. rewrite Hr in *. case_decide as Hin; [by destruct Hq|]. specialize (Hwf q Hq).
  rewrite decide_False; [done|]. intros Hp. pose proof Hp as (a & b & Hab)%list_elem_of_split. rewrite Hab in E.
  assert (removelast q ∈ removal_order rm k t) as [Hkp _]%removal_all.
  { rewrite E. apply elem_of_app. left. by rewrite <-Hab. }
  destruct q as [|x q _] using rev_ind.
  { cbn in Hkp. by apply prefix_nil_inv in Hkp. }
  rewrite get_node_ne in Hq by (by intros [_ ?]%app_nil).
  assert (q ++ [x] ∈ post) as Hpost.
  { assert (q ++ [x] ∈ removal_order rm k t) as Hall.
    { apply removal_all. split; [|done]. rewrite removelast_last in Hkp. by apply prefix_app_r. }
    rewrite E, <-Hab in Hall. by apply elem_of_app in Hall as [?|?]. }
  rewrite <-(assoc_L (++)) in E. cbn [app] in E.
  apply (removal_after rm k t a _ (b ++ post) (q ++ [x]) E); [set_solver|]. rewrite removelast_last. by apply prefix_app_r.
Qed.

Lemma rmtree_loop post : ∀ pre w w1, wf_tree (fs w) → get_node (fs w) k = Some Dir →
  removal_order rm k (fs w) = pre ++ post → removed pre (fs w) (fs w1) →
  ∃ r w', st_for (remove faulty) post w1 = (r, w') ∧ stdout w' = stdout w1 ∧ stderr w' = stderr w1 ∧
    match r with
    | Ok _ => removed (pre ++ post) (fs w) (fs w')
    | Raise e => e = OSError ∧ ∃ a q b, post = a ++ q :: b ∧ faulty AtRemove q = true ∧ removed (pre ++ a) (fs w) (fs w')
    end.
Proof.
  induction post as [|q post IH]; intros pre w w1 Hwf Hd E Hr; cbn [st_for].
  - exists (Ok tt), w1. by rewrite app_nil_r.
  - unfold mbind, stm_bind, remove at 1. destruct (faulty AtRemove q) eqn:Hf.
    + exists (Raise OSError), w1. split_and!; try done. exists [], q, post. by rewrite app_nil_r.
    + assert (q ≠ []) as Hq.
      { intros ->. assert ([] ∈ removal_order rm k (fs w)) as [Hp _]%removal_all by (rewrite E; set_solver).
        by apply prefix_nil_inv in Hp. }
      destruct (IH (pre ++ [q]) w (on_fs (delete q) w1) Hwf Hd) as (r & w' & Hrun & Ho & He & Hres).
      { by rewrite <-(assoc_L (++)). }
      { intros p. cbn. rewrite get_delete, Hr by done. repeat case_decide; set_solver. }
      exists r, w'. rewrite Hrun. split_and!; [done..|]. destruct r as [[]|e].
      * by rewrite <-(assoc_L (++)) in Hres.
      * destruct Hres as (-> & a & q' & b & -> & Hf' & Hrem). split; [done|]. exists (q :: a), q', b.
        by rewrite <-(assoc_L (++)) in Hrem.
Qed.

Lemma rmtree_spec w : wf_tree (fs w) → get_node (fs w) k = Some Dir →
  ∃ r w', rmtree faulty rm k w = (r, w') ∧ stdout w' = stdout w ∧ stderr w' = stderr w ∧ wf_tree (fs w') ∧
    (∀ q, ¬ k `prefix_of` q → get_node (fs w') q = get_node (fs w) q) ∧
    match r with
    | Ok _ => ∀ q, k `prefix_of` q → get_node (fs w') q = None
    | Raise e => e = OSError ∧ (∃ q, k `prefix_of` q ∧ faulty AtRemove q = true) ∧ get_node (fs w') k = Some Dir
    end.
Proof.
  intros Hwf Hd. unfold rmtree, mbind, stm_bind, st_get, is_dir. rewrite bool_decide_true by done.
  destruct (rmtree_loop (removal_order rm k (fs w)) [] w w Hwf Hd eq_refl) as (r & w' & -> & Ho & He & Hr).
  { intros q. by rewrite decide_False by apply not_elem_of_nil. }
  assert (∃ pre post, removal_order rm k (fs w) = pre ++ post ∧ removed pre (fs w) (fs w')) as (pre & post & E & Hrem).
  { destruct r as [[]|e]; [exists (removal_order rm k (fs w)), []; by rewrite app_nil_r|].
    destruct Hr as (_ & a & q & b & E & _ & Hrem). by exists a, (q :: b). }
  exists r, w'. split_and!; [done..|by eapply removed_wf| |].
  - intros q Hq. rewrite Hrem, decide_False; [done|]. intros Hin. apply Hq.
    apply (removal_all rm k (fs w) q). rewrite E. set_solver.
  - assert (∀ q, k `prefix_of` q → q ∉ removal_order rm k (fs w) → get_node (fs w) q = None) as Hnone.
    { intros q Hq Hn. destruct q as [|x q]; [by apply prefix_nil_inv in Hq|]. cbn.
      apply eq_None_not_Some. intros Hs. apply Hn. by apply removal_all. }
    destruct r as [[]|e].
    + intros q Hq. rewrite Hr. case_decide as Hin; [done|]. by apply Hnone.
    + destruct Hr as (-> & a & q & b & Ea & Hf & Hra).
      assert (k `prefix_of` q) as Hkq by (apply (removal_all rm k (fs w) q); rewrite Ea; set_solver).
      split; [done|]. split; [by exists q|]. cbn [app] in Hra. rewrite (Hra k), decide_False; [done|].
      intros (a1 & a2 & ->)%list_elem_of_split. rewrite <-(assoc_L (++)) in Ea. cbn [app] in Ea.
      apply (removal_after rm k (fs w) a1 k _ q Ea); [set_solver|done].
Qed.
End removal_facts.

(** ** Paths of plain names *)

Definition plain (c : pystr) : Prop := kept_comp c ∧ c ≠ str ".." ∧ "/"%char ∉ c.

Lemma Path_plain c : plain c → Path c = MkPath [] [c].
Proof.
  intros ((Hne & Hdot) & _ & Hs). unfold Path. f_equal.
  - unfold initial_slashes. destruct c as [|a c]; [done|]. cbn.
    rewrite !bool_decide_false by (intros <-; apply Hs; left). done.
  - rewrite split_char_no by done. rewrite filter_cons, decide_True by done. done.
Qed.

Lemma with_suffix_plain r cs c suffix : "."%char ∉ c →
  with_suffix suffix (MkPath r (cs ++ [c])) = Ok (MkPath r (cs ++ [c ++ suffix])).
Proof.
  intros Hc. unfold with_suffix. cbn [comps root]. rewrite last_snoc, removelast_last.
  unfold stem. by rewrite bool_decide_false.
Qed.

Lemma norm_comps_plain b acc cs ds : Forall plain cs →
  norm_comps b acc (cs ++ ds) = norm_comps b (rev cs ++ acc) ds.
Proof.
  intros Hcs. revert acc. induction Hcs as [|c cs ((H1 & H2) & H3 & _) Hcs IH]; intros acc; cbn; [done|].
  rewrite !bool_decide_false by tauto. rewrite IH. cbn. by rewrite <-(assoc_L (++)).
Qed.

Lemma plain_nonnil c : plain c → c ≠ [].
Proof. intros ((? & ?) & _). done. Qed.
Lemma plain_no_slash c : plain c → "/"%char ∉ c.
Proof. intros (_ & _ & ?). done. Qed.

(** The string of an absolute path of plain names. *)
Definition abs_path (cs : list pystr) : path := MkPath (str "/") cs.
Lemma abs_path_str cs : path_str (abs_path cs) = str "/" ++ join (str "/") cs.
Proof. done. Qed.

(** A component without a slash, [.] included. *)
Definition slashless (c : pystr) : Prop := c ≠ [] ∧ "/"%char ∉ c.
Lemma plain_slashless cs : Forall plain cs → Forall slashless cs.
Proof. intros H. eapply Forall_impl; [done|]. intros c Hc. split; [by apply plain_nonnil|by apply plain_no_slash]. Qed.

Lemma join_no_slash_start cs s : Forall slashless cs → join (str "/") cs ≠ "/"%char :: s.
Proof.
  intros Hcs Hj. destruct Hcs as [|c cs [Hn Hs] Hcs]; [done|].
  assert (∃ t, join (str "/") (c :: cs) = c ++ t) as [t Ht].
  { destruct cs; [exists []; by rewrite app_nil_r|]. by eexists. }
  rewrite Ht in Hj. destruct c as [|a c]; [done|]. injection Hj as -> _. apply Hs. left.
Qed.
Lemma initial_slashes_abs cs : Forall slashless cs → initial_slashes (path_str (abs_path cs)) = str "/".
Proof.
  intros Hcs. rewrite abs_path_str. unfold initial_slashes.
  destruct (join (str "/") cs) as [|a s] eqn:E; [done|].
  destruct (decide (a = "/"%char)) as [->|Ha]; [by apply join_no_slash_start in E|].
  cbn. by rewrite (bool_decide_false ("/"%char = a)) by congruence.
Qed.
Lemma split_abs cs : Forall slashless cs → cs ≠ [] →
  split_char "/" (path_str (abs_path cs)) = [] :: cs.
Proof.
  intros Hcs Hne. rewrite abs_path_str. cbn. f_equal.
  apply (split_char_join "/"%char); [done|]. eapply Forall_impl; [done|]. by intros c [_ ?].
Qed.

Lemma normpath_abs cs : Forall slashless cs → cs ≠ [] →
  normpath (path_str (abs_path cs)) = path_str (abs_path (norm_comps true [] cs)).
Proof.
  intros Hcs Hne.
  assert (normpath (path_str (abs_path cs)) =
    let n := str "/" ++ join (str "/") (norm_comps true [] (split_char "/" (path_str (abs_path cs)))) in
    if bool_decide (n = []) then str "." else n) as E.
  { unfold normpath. rewrite (initial_slashes_abs cs Hcs). reflexivity. }
  rewrite E, split_abs by done. reflexivity.
Qed.
Lemma normpath_plain cs : Forall plain cs → normpath (path_str (abs_path cs)) = path_str (abs_path cs).
Proof.
  intros Hcs. destruct (decide (cs = [])) as [->|Hne]; [reflexivity|].
  rewrite normpath_abs by (try apply plain_slashless; done).
  pose proof (norm_comps_plain true [] cs [] Hcs) as E. rewrite !app_nil_r in E. rewrite E. cbn.
  by rewrite rev_involutive.
Qed.

Lemma path_comps_abs cs : Forall plain cs → path_comps (path_str (abs_path cs)) = cs.
Proof.
  intros Hcs. destruct cs as [|c cs]; [reflexivity|]. unfold path_comps.
  rewrite split_abs by (try apply plain_slashless; done).
  rewrite filter_cons, decide_False by tauto.
  induction Hcs as [|d ds Hd Hds IH]; [done|]. rewrite filter_cons, decide_True by by apply plain_nonnil.
  by f_equal.
Qed.

Lemma common_prefix_app (l k : list pystr) : common_prefix l (l ++ k) = length l.
Proof. induction l as [|x l IH]; cbn; [by destruct k|]. by rewrite decide_True, IH. Qed.

Lemma join_snoc cs c : join (str "/") (cs ++ [c]) =
  match cs with [] => c | _ => join (str "/") cs ++ str "/" ++ c end.
Proof.
  induction cs as [|d cs IH]; [done|]. destruct cs as [|e cs]; [done|].
  change (join (str "/") ((d :: e :: cs) ++ [c])) with (d ++ str "/" ++ join (str "/") ((e :: cs) ++ [c])).
  rewrite IH. cbn [join]. by rewrite <-!(assoc_L (++)).
Qed.

Lemma abs_not_endslash cs : Forall plain cs → cs ≠ [] → endswith (str "/") (path_str (abs_path cs)) = false.
Proof.
  intros Hcs Hne. destruct cs as [|c cs _] using rev_ind; [done|].
  apply Forall_app in Hcs as [_ [Hc _]%Forall_cons].
  assert (∃ t, path_str (abs_path (cs ++ [c])) = t ++ c) as [t ->].
  { rewrite abs_path_str, join_snoc. destruct cs; [by exists (str "/")|].
    eexists. by rewrite !(assoc_L (++)). }
  unfold endswith. rewrite rev_app_distr.
  pose proof (plain_nonnil _ Hc) as Hn. pose proof (plain_no_slash _ Hc) as Hs.
  destruct c as [|a c _] using rev_ind; [done|]. rewrite rev_app_distr. cbn.
  rewrite bool_decide_false; [done|]. intros <-. apply Hs. apply elem_of_app. right. left.
Qed.

(** The path of something below the working directory, seen from there. *)
Lemma relpath_below cwd r : Forall plain cwd → Forall plain r → r ≠ [] →
  relpath (path_str (abs_path cwd)) (path_str (abs_path (cwd ++ r))) (str ".") = Ok (join (str "/") r).
Proof.
  intros Hc Hr Hne. assert (Forall plain (cwd ++ r)) as Hcr by (by apply Forall_app).
  assert (abspath (path_str (abs_path cwd)) (str ".") = path_str (abs_path cwd)) as Es.
  { destruct (decide (cwd = [])) as [->|Hcn]; [reflexivity|].
    assert (path_join (path_str (abs_path cwd)) (str ".") = path_str (abs_path (cwd ++ [str "."]))) as Hj.
    { unfold path_join. rewrite (abs_not_endslash _ Hc Hcn). cbn [startswith str].
      rewrite !abs_path_str, join_snoc. by destruct cwd. }
    unfold abspath. rewrite Hj, normpath_abs; [|apply Forall_app; split; [by apply plain_slashless|]|by destruct cwd].
    - rewrite norm_comps_plain by done. cbn. by rewrite app_nil_r, rev_involutive.
    - repeat constructor; [done|]. by apply (bool_decide_unpack _). }
  assert (abspath (path_str (abs_path cwd)) (path_str (abs_path (cwd ++ r))) = path_str (abs_path (cwd ++ r))) as Ep.
  { unfold abspath. assert (path_join (path_str (abs_path cwd)) (path_str (abs_path (cwd ++ r))) = path_str (abs_path (cwd ++ r))) as -> by reflexivity.
    by apply normpath_plain. }
  assert (relpath (path_str (abs_path cwd)) (path_str (abs_path (cwd ++ r))) (str ".") =
    let s := path_comps (abspath (path_str (abs_path cwd)) (str ".")) in
    let p := path_comps (abspath (path_str (abs_path cwd)) (path_str (abs_path (cwd ++ r)))) in
    let i := common_prefix s p in
    match replicate (length s - i) (str "..") ++ drop i p with
    | [] => Ok (str ".") | rel => Ok (join (str "/") rel) end) as -> by reflexivity.
  cbn zeta. rewrite Es, Ep, !path_comps_abs, common_prefix_app, Nat.sub_diag, drop_app_length by done.
  by destruct r.
Qed.
