(* ===== verification/ModuleTemplates.v ===== *)
(** * The templates of create-module.py, and [str.format]

    The texts are those of the source, one string per line, with [^] for a
    double quote.  [py_format] is [str.format] with keyword arguments for
    templates whose fields are plain names, as all of these are. *)
From Stdlib Require Import Ascii String.
From S2P Require Export PyPath.
Open Scope Z_scope.

Definition blank : string := EmptyString.
Definition unquote (c : ascii) : ascii := if decide (c = "^"%char) then dquote else c.
Definition tmpl (lines : list string) : pystr := map unquote (join [newline] (map (λ l, str l) lines)).
Arguments tmpl lines%_string.

Definition CMAKELISTS_TEMPLATE : pystr := tmpl [
  "check_include_file_cxx(stdint.h HAVE_STDINT_H)";
  "if(HAVE_STDINT_H)";
  "    add_definitions(-DHAVE_STDINT_H)";
  "endif()";
  blank;
  "set(examples_as_tests_sources)";
  "if(${{ENABLE_EXAMPLES}})";
  "    set(examples_as_tests_sources    ";
  "        #test/{MODULE}-examples-test-suite.cc";
  "        )";
  "endif()    ";
  blank;
  "build_lib(";
  "    LIBNAME {MODULE}";
  "    SOURCE_FILES model/{MODULE}.cc";
  "                 helper/{MODULE}-helper.cc ";
  "    HEADER_FILES model/{MODULE}.h";
  "                 helper/{MODULE}-helper.h";
  "    LIBRARIES_TO_LINK ${{libcore}}";
  "    TEST_SOURCES test/{MODULE}-test-suite.cc";
  "                 ${{examples_as_tests_sources}}";
  ")";
  "    ";
  blank]%string.

Definition MODEL_CC_TEMPLATE : pystr := tmpl [
  "/* -*- Mode:C++; c-file-style:^gnu^; indent-tabs-mode:nil; -*- */";
  blank;
  "#include ^{MODULE}.h^";
  blank;
  "namespace ns3 {{";
  blank;
  "/* ... */";
  blank;
  blank;
  "}}";
  blank;
  blank]%string.

Definition MODEL_H_TEMPLATE : pystr := tmpl [
  "/* -*- Mode:C++; c-file-style:^gnu^; indent-tabs-mode:nil; -*- */";
  "#ifndef {INCLUDE_GUARD}";
  "#define {INCLUDE_GUARD}";
  blank;
  "namespace ns3 {{";
  blank;
  "/* ... */";
  blank;
  "}}";
  blank;
  "#endif /* {INCLUDE_GUARD} */";
  blank;
  blank]%string.

Definition HELPER_CC_TEMPLATE : pystr := tmpl [
  "/* -*- Mode:C++; c-file-style:^gnu^; indent-tabs-mode:nil; -*- */";
  blank;
  "#include ^{MODULE}-helper.h^";
  blank;
  "namespace ns3 {{";
  blank;
  "/* ... */";
  blank;
  blank;
  "}}";
  blank;
  blank]%string.

Definition HELPER_H_TEMPLATE : pystr := tmpl [
  "/* -*- Mode:C++; c-file-style:^gnu^; indent-tabs-mode:nil; -*- */";
  "#ifndef {INCLUDE_GUARD}";
  "#define {INCLUDE_GUARD}";
  blank;
  "#include ^ns3/{MODULE}.h^";
  blank;
  "namespace ns3 {{";
  blank;
  "/* ... */";
  blank;
  "}}";
  blank;
  "#endif /* {INCLUDE_GUARD} */";
  blank;
  blank]%string.

Definition EXAMPLES_CMAKELISTS_TEMPLATE : pystr := tmpl [
  "build_lib_example(";
  "    NAME {MODULE}-example";
  "    SOURCE_FILES {MODULE}-example.cc";
  "    LIBRARIES_TO_LINK ${{lib{MODULE}}}";
  ")";
  blank;
  blank]%string.

Definition EXAMPLE_CC_TEMPLATE : pystr := tmpl [
  "/* -*- Mode:C++; c-file-style:^gnu^; indent-tabs-mode:nil; -*- */";
  blank;
  "#include ^ns3/core-module.h^";
  "#include ^ns3/{MODULE}-helper.h^";
  blank;
  "using namespace ns3;";
  blank;
  blank;
  "int ";
  "main (int argc, char *argv[])";
  "{{";
  "  bool verbose = true;";
  blank;
  "  CommandLine cmd (__FILE__);";
  "  cmd.AddValue (^verbose^, ^Tell application to log if true^, verbose);";
  blank;
  "  cmd.Parse (argc,argv);";
  blank;
  "  /* ... */";
  blank;
  "  Simulator::Run ();";
  "  Simulator::Destroy ();";
  "  return 0;";
  "}}";
  blank;
  blank;
  blank]%string.

Definition TEST_CC_TEMPLATE : pystr := tmpl [
  "/* -*- Mode:C++; c-file-style:^gnu^; indent-tabs-mode:nil; -*- */";
  blank;
  "// Include a header file from your module to test.";
  "#include ^ns3/{MODULE}.h^";
  blank;
  "// An essential include is test.h";
  "#include ^ns3/test.h^";
  blank;
  "// Do not put your test classes in namespace ns3.  You may find it useful";
  "// to use the using directive to access the ns3 namespace directly";
  "using namespace ns3;";
  blank;
  "// This is an example TestCase.";
  "class {CAPITALIZED}TestCase1 : public TestCase";
  "{{";
  "public:";
  "  {CAPITALIZED}TestCase1 ();";
  "  virtual ~{CAPITALIZED}TestCase1 ();";
  blank;
  "private:";
  "  virtual void DoRun (void);";
  "}};";
  blank;
  "// Add some help text to this case to describe what it is intended to test";
  "{CAPITALIZED}TestCase1::{CAPITALIZED}TestCase1 ()";
  "  : TestCase (^{CAPITALIZED} test case (does nothing)^)";
  "{{";
  "}}";
  blank;
  "// This destructor does nothing but we include it as a reminder that";
  "// the test case should clean up after itself";
  "{CAPITALIZED}TestCase1::~{CAPITALIZED}TestCase1 ()";
  "{{";
  "}}";
  blank;
  "//";
  "// This method is the pure virtual method from class TestCase that every";
  "// TestCase must implement";
  "//";
  "void";
  "{CAPITALIZED}TestCase1::DoRun (void)";
  "{{";
  "  // A wide variety of test macros are available in src/core/test.h";
  "  NS_TEST_ASSERT_MSG_EQ (true, true, ^true doesn't equal true for some reason^);";
  "  // Use this one for floating point comparisons";
  "  NS_TEST_ASSERT_MSG_EQ_TOL (0.01, 0.01, 0.001, ^Numbers are not equal within tolerance^);";
  "}}";
  blank;
  "// The TestSuite class names the TestSuite, identifies what type of TestSuite,";
  "// and enables the TestCases to be run.  Typically, only the constructor for";
  "// this class must be defined";
  "//";
  "class {CAPITALIZED}TestSuite : public TestSuite";
  "{{";
  "public:";
  "  {CAPITALIZED}TestSuite ();";
  "}};";
  blank;
  "{CAPITALIZED}TestSuite::{CAPITALIZED}TestSuite ()";
  "  : TestSuite (^{MODULE}^, UNIT)";
  "{{";
  "  // TestDuration for TestCase can be QUICK, EXTENSIVE or TAKES_FOREVER";
  "  AddTestCase (new {CAPITALIZED}TestCase1, TestCase::QUICK);";
  "}}";
  blank;
  "// Do not forget to allocate an instance of this TestSuite";
  "static {CAPITALIZED}TestSuite s{COMPOUND}TestSuite;";
  blank;
  blank]%string.

Definition DOC_RST_TEMPLATE : pystr := tmpl [
  "Example Module Documentation";
  "----------------------------";
  blank;
  ".. include:: replace.txt";
  ".. highlight:: cpp";
  blank;
  ".. heading hierarchy:";
  "   ------------- Chapter";
  "   ************* Section (#.#)";
  "   ============= Subsection (#.#.#)";
  "   ############# Paragraph (no number)";
  blank;
  "This is a suggested outline for adding new module documentation to |ns3|.";
  "See ``src/click/doc/click.rst`` for an example.";
  blank;
  "The introductory paragraph is for describing what this code is trying to";
  "model.";
  blank;
  "For consistency (italicized formatting), please use |ns3| to refer to";
  "ns-3 in the documentation (and likewise, |ns2| for ns-2).  These macros";
  "are defined in the file ``replace.txt``.";
  blank;
  "Model Description";
  "*****************";
  blank;
  "The source code for the new module lives in the directory ``{MODULE_DIR}``.";
  blank;
  "Add here a basic description of what is being modeled.";
  blank;
  "Design";
  "======";
  blank;
  "Briefly describe the software design of the model and how it fits into ";
  "the existing ns-3 architecture. ";
  blank;
  "Scope and Limitations";
  "=====================";
  blank;
  "What can the model do?  What can it not do?  Please use this section to";
  "describe the scope and limitations of the model.";
  blank;
  "References";
  "==========";
  blank;
  "Add academic citations here, such as if you published a paper on this";
  "model, or if readers should read a particular specification or other work.";
  blank;
  "Usage";
  "*****";
  blank;
  "This section is principally concerned with the usage of your model, using";
  "the public API.  Focus first on most common usage patterns, then go";
  "into more advanced topics.";
  blank;
  "Building New Module";
  "===================";
  blank;
  "Include this subsection only if there are special build instructions or";
  "platform limitations.";
  blank;
  "Helpers";
  "=======";
  blank;
  "What helper API will users typically use?  Describe it here.";
  blank;
  "Attributes";
  "==========";
  blank;
  "What classes hold attributes, and what are the key ones worth mentioning?";
  blank;
  "Output";
  "======";
  blank;
  "What kind of data does the model generate?  What are the key trace";
  "sources?   What kind of logging output can be enabled?";
  blank;
  "Advanced Usage";
  "==============";
  blank;
  "Go into further details (such as using the API outside of the helpers)";
  "in additional sections, as needed.";
  blank;
  "Examples";
  "========";
  blank;
  "What examples using this new code are available?  Describe them here.";
  blank;
  "Troubleshooting";
  "===============";
  blank;
  "Add any tips for avoiding pitfalls, etc.";
  blank;
  "Validation";
  "**********";
  blank;
  "Describe how the model has been tested/validated.  What tests run in the";
  "test suite?  How much API and code is covered by the tests?  Again, ";
  "references to outside published work may help here.";
  blank]%string.

(** ** [str.format] *)

Definition keyword (name : pystr) (kw : list (pystr * pystr)) : option pystr :=
  '(_, e) ← list_find (λ e, e.1 = name) kw; Some e.2.

(** [field]: the name of the field being read, reversed. *)
Fixpoint format_go (kw : list (pystr * pystr)) (field : option pystr) (s : pystr) : res exn pystr :=
  match s, field with
  | [], None => Ok []
  | [], Some _ => Raise ValueError
  | c :: s, None =>
      if decide (c = "{"%char) then
        match s with
        | d :: s' => if decide (d = "{"%char) then cons c <$> format_go kw None s' else format_go kw (Some []) s
        | [] => Raise ValueError
        end
      else if decide (c = "}"%char) then
        match s with
        | d :: s' => if decide (d = "}"%char) then cons c <$> format_go kw None s' else Raise ValueError
        | [] => Raise ValueError
        end
      else cons c <$> format_go kw None s
  | c :: s, Some name =>
      if decide (c = "}"%char) then
        v ← res_of_option KeyError (keyword (rev name) kw);
        app v <$> format_go kw None s
      else format_go kw (Some (c :: name)) s
  end.
Definition py_format (kw : list (pystr * pystr)) (s : pystr) : res exn pystr := format_go kw None s.
