(* ===== verification/CreateModule.v ===== *)
(** * Module scaffolding: utils/create-module.py

    The functions that write the files of a new module, [make_module] with its
    handler that removes what was written, and [main] on parsed arguments.  The
    text of an exception is a parameter, and so are the operations on files that
    fail for outside reasons and the order of removal.  Names are ASCII. *)
From Stdlib Require Import Ascii String.
From stdpp Require Import gmap.
From S2P Require Export ModuleTemplates.
Open Scope Z_scope.

(** ** Strings *)

Definition lower_char (c : ascii) : ascii :=
  let n := nat_of_ascii c in
  if ((65 <=? n) && (n <=? 90))%nat then ascii_of_nat (n + 32) else c.
(** [s.capitalize()] *)
Definition capitalize (s : pystr) : pystr :=
  match s with [] => [] | c :: s => upper_char c :: map lower_char s end.
(** [s.replace('-', '_')] *)
Definition dashes_to_underscores (s : pystr) : pystr :=
  map (λ c, if decide (c = "-"%char) then "_"%char else c) s.
(** [s.strip('/')] *)
Fixpoint lstrip_slash (s : pystr) : pystr :=
  match s with c :: t => if decide (c = "/"%char) then lstrip_slash t else s | [] => [] end.
Definition strip_slash (s : pystr) : pystr := rev (lstrip_slash (rev (lstrip_slash s))).
(** [repr(s)] *)
Definition str_repr (s : pystr) : pystr := tail (bytes_repr s).

(** [\w], or a dash. *)
Definition word_or_dash (c : ascii) : bool :=
  let n := nat_of_ascii c in
  (((48 <=? n) && (n <=? 57)) || ((65 <=? n) && (n <=? 90)) || ((97 <=? n) && (n <=? 122)))%nat
  || bool_decide (c = "_"%char) || bool_decide (c = "-"%char).
(** The match of [^(\w|-)+$]: a dollar also matches before a newline at the end. *)
Definition allowedRE (s : pystr) : bool :=
  let body := match rev s with
              | c :: t => if decide (c = newline) then rev t else s
              | [] => [] end in
  negb (bool_decide (body = [])) && forallb word_or_dash body.

(** ** Writing the files of one module *)

Section scaffold.
Context (rm : removal) (faulty : fault → key → bool) (exn_str : exn → world → pystr).
(** The components of the working directory. *)
Context (cwd : list pystr).

Definition cwd_path : path := MkPath (str "/") cwd.
Definition path_key (p : path) : key := if is_absolute p then comps p else cwd ++ comps p.

Definition create_file (p : path) (template : pystr) (kwargs : list (pystr * pystr)) : stm world unit :=
  _ ← open_wt faulty (path_key p);
  s ← st_lift (py_format kwargs template);
  write_text faulty (path_key p) s.

Definition make_cmakelists (moduledir : path) (modname : pystr) : stm world bool :=
  _ ← create_file (joinpath moduledir (Path (str "CMakeLists.txt"))) CMAKELISTS_TEMPLATE
        [(str "MODULE", modname)];
  mret true.

Definition guard (modname suffix : pystr) : pystr := upper (dashes_to_underscores modname) ++ suffix.

Definition make_model (moduledir : path) (modname : pystr) : stm world bool :=
  let modelpath := joinpath moduledir (Path (str "model")) in
  _ ← mkdir faulty (path_key modelpath);
  srcfile_path ← st_lift (with_suffix (str ".cc") (joinpath modelpath (Path modname)));
  _ ← create_file srcfile_path MODEL_CC_TEMPLATE [(str "MODULE", modname)];
  hfile_path ← st_lift (with_suffix (str ".h") (joinpath modelpath (Path modname)));
  _ ← create_file hfile_path MODEL_H_TEMPLATE
        [(str "MODULE", modname); (str "INCLUDE_GUARD", guard modname (str "_H"))];
  mret true.

Definition capitalized (name_parts : list pystr) : pystr := concat (map capitalize name_parts).
Definition compound (name_parts : list pystr) : pystr :=
  match name_parts with [] => [] | w :: ws => w ++ concat (map capitalize ws) end.

Definition make_test (moduledir : path) (modname : pystr) : stm world bool :=
  let testpath := joinpath moduledir (Path (str "test")) in
  _ ← mkdir faulty (path_key testpath);
  file_path ← st_lift (with_suffix (str ".cc") (joinpath testpath (Path (modname ++ str "-test-suite"))));
  let name_parts := split_char "-" modname in
  _ ← create_file file_path TEST_CC_TEMPLATE
        [(str "MODULE", modname); (str "CAPITALIZED", capitalized name_parts);
         (str "COMPOUND", compound name_parts)];
  mret true.

Definition make_helper (moduledir : path) (modname : pystr) : stm world bool :=
  let helperpath := joinpath moduledir (Path (str "helper")) in
  _ ← mkdir faulty (path_key helperpath);
  srcfile_path ← st_lift (with_suffix (str ".cc") (joinpath helperpath (Path (modname ++ str "-helper"))));
  _ ← create_file srcfile_path HELPER_CC_TEMPLATE [(str "MODULE", modname)];
  h_file_path ← st_lift (with_suffix (str ".h") (joinpath helperpath (Path (modname ++ str "-helper"))));
  _ ← create_file h_file_path HELPER_H_TEMPLATE
        [(str "MODULE", modname); (str "INCLUDE_GUARD", guard modname (str "_HELPER_H"))];
  mret true.

Definition make_examples (moduledir : path) (modname : pystr) : stm world bool :=
  let examplespath := joinpath moduledir (Path (str "examples")) in
  _ ← mkdir faulty (path_key examplespath);
  let cmakelistspath := joinpath examplespath (Path (str "CMakeLists.txt")) in
  _ ← create_file cmakelistspath EXAMPLES_CMAKELISTS_TEMPLATE [(str "MODULE", modname)];
  examplesfile_path ← st_lift (with_suffix (str ".cc") (joinpath examplespath (Path (modname ++ str "-example"))));
  _ ← create_file examplesfile_path EXAMPLE_CC_TEMPLATE [(str "MODULE", modname)];
  mret true.

Definition make_doc (moduledir : path) (modname : pystr) : stm world bool :=
  let docpath := joinpath moduledir (Path (str "doc")) in
  _ ← mkdir faulty (path_key docpath);
  mod_relpath ← st_lift (relpath (path_str cwd_path) (path_str moduledir) (str "."));
  let file_path := joinpath docpath (Path (modname ++ str ".rst")) in
  _ ← create_file file_path DOC_RST_TEMPLATE [(str "MODULE", modname); (str "MODULE_DIR", mod_relpath)];
  mret true.

(** [all(...)] over a generator stops at the first false value. *)
Fixpoint all_of {A} (f : A → stm world bool) (l : list A) : stm world bool :=
  match l with
  | [] => mret true
  | x :: l => b ← f x; if b : bool then all_of f l else mret false
  end.

Definition functions : list (path → pystr → stm world bool) :=
  [make_cmakelists; make_model; make_test; make_helper; make_examples; make_doc].

Definition make_module (modpath : path) (modname : pystr) : stm world bool :=
  let modulepath := joinpath modpath (Path modname) in
  ex ← exists_ faulty AtExists (path_key modulepath);
  if ex : bool then
    _ ← eprint (str "Module " ++ str_repr modname ++ str " already exists");
    mret false
  else
    _ ← print (str "Creating module " ++ path_str modulepath);
    st_try (
      _ ← mkdir faulty (path_key modulepath);
      success ← all_of (λ func : path → pystr → stm world bool, func modulepath modname) functions;
      if success : bool then mret true else st_raise ValueError)
    (λ e,
      ex ← exists_ faulty AtRecheck (path_key modulepath);
      _ ← (if ex : bool then rmtree faulty rm (path_key modulepath) else mret tt);
      w ← st_get;
      _ ← eprint (str "Creating module " ++ str_repr modname ++ str " failed: " ++ exn_str e w);
      mret false).

(** ** [main] *)

(** The arguments after [parse_args]: at least one name. *)
Record arguments := Args { project : pystr; modnames : list pystr }.

Definition src_path : path := joinpath cwd_path (Path (str "src")).
Definition contrib_path : path := joinpath cwd_path (Path (str "contrib")).

Definition parser_error {A} : stm world A := st_raise (SystemExit 2).

(** The checks of the working directory and of the project. *)
Definition check_directories : stm world unit :=
  st_for (λ p, w ← st_get; if is_dir (fs w) (path_key p) then mret tt else parser_error)
    [src_path; contrib_path].
Definition check_project (args : arguments) : stm world (option path) :=
  if bool_decide (project args = []) then mret None
  else
    let p := Path (project args) in
    p ← (if is_absolute p then st_lift (relative_to p (Path (str "/"))) else mret p);
    if forallb allowedRE (parts p) then mret (Some p) else parser_error.

Definition first_part (p : path) : res exn pystr := res_of_option IndexError (head (parts p)).

(** One pass of the loop over the names. *)
Definition add_module (args : arguments) (project_path : option path)
    (modules : list (path * pystr)) (name : pystr) : stm world (list (path * pystr)) :=
  let name := strip_slash name in
  if bool_decide (name = []) then mret modules
  else
    let name_path := Path name in
    if (2 <? length (parts name_path))%nat then
      _ ← print (str "Skipping " ++ name ++ str ": module name can not be a path");
      mret modules
    else
      first ← st_lift (first_part name_path);
      '(modpath, name_path) ←
        (if bool_decide (first = str "src") then
           if bool_decide (project args = []) then
             q ← st_lift (relative_to name_path (Path (str "src"))); mret (src_path, q)
           else parser_error
         else if bool_decide (first = str "contrib") then
           q ← st_lift (relative_to name_path (Path (str "contrib"))); mret (contrib_path, q)
         else mret (contrib_path, name_path));
      let modpath := match project_path with Some p => joinpath contrib_path p | None => modpath end in
      modname ← st_lift (first_part name_path);
      if allowedRE modname then mret (modules ++ [(modpath, modname)])
      else
        _ ← print (str "Skipping " ++ modname ++ str ": module name may only contain the characters [a-zA-Z0-9_-]");
        mret modules.

Definition main (args : arguments) : stm world Z :=
  _ ← check_directories;
  project_path ← check_project args;
  modules ← st_fold (add_module args project_path) [] (modnames args);
  success ← all_of (λ m, make_module m.1 m.2) modules;
  _ ← (if success : bool then
         _ ← print [];
         _ ← print (str "Successfully created new modules");
         print (str "Run './ns3 configure' to include them in the build")
       else mret tt);
  mret 0.

(** The script: the status it exits with. *)
Definition run (args : arguments) : stm world Z :=
  st_try (main args)
    (λ e, w ← st_get; _ ← eprint (str "Exception: '" ++ exn_str e w ++ str "'"); mret 1).
End scaffold.

(** ** What a module consists of *)

(** The text of a file: the template with its fields filled in. *)
Definition file_of (template : pystr) (kwargs : list (pystr * pystr)) : pystr :=
  match py_format kwargs template with Ok s => s | Raise _ => [] end.

Section module_spec.
Context (m rel : pystr).
Definition cmakelists_ops : list op :=
  [OWrite [str "CMakeLists.txt"] (file_of CMAKELISTS_TEMPLATE [(str "MODULE", m)])].
Definition model_ops : list op :=
  [OMkdir [str "model"];
   OWrite [str "model"; m ++ str ".cc"] (file_of MODEL_CC_TEMPLATE [(str "MODULE", m)]);
   OWrite [str "model"; m ++ str ".h"] (file_of MODEL_H_TEMPLATE
     [(str "MODULE", m); (str "INCLUDE_GUARD", guard m (str "_H"))])].
Definition test_ops : list op :=
  [OMkdir [str "test"];
   OWrite [str "test"; (m ++ str "-test-suite") ++ str ".cc"] (file_of TEST_CC_TEMPLATE
     [(str "MODULE", m); (str "CAPITALIZED", capitalized (split_char "-" m));
      (str "COMPOUND", compound (split_char "-" m))])].
Definition helper_ops : list op :=
  [OMkdir [str "helper"];
   OWrite [str "helper"; (m ++ str "-helper") ++ str ".cc"] (file_of HELPER_CC_TEMPLATE [(str "MODULE", m)]);
   OWrite [str "helper"; (m ++ str "-helper") ++ str ".h"] (file_of HELPER_H_TEMPLATE
     [(str "MODULE", m); (str "INCLUDE_GUARD", guard m (str "_HELPER_H"))])].
Definition examples_ops : list op :=
  [OMkdir [str "examples"];
   OWrite [str "examples"; str "CMakeLists.txt"] (file_of EXAMPLES_CMAKELISTS_TEMPLATE [(str "MODULE", m)]);
   OWrite [str "examples"; (m ++ str "-example") ++ str ".cc"] (file_of EXAMPLE_CC_TEMPLATE [(str "MODULE", m)])].
Definition doc_ops : list op :=
  [OMkdir [str "doc"];
   OWrite [str "doc"; m ++ str ".rst"] (file_of DOC_RST_TEMPLATE [(str "MODULE", m); (str "MODULE_DIR", rel)])].
Definition module_ops : list op :=
  cmakelists_ops ++ model_ops ++ test_ops ++ helper_ops ++ examples_ops ++ doc_ops.

(** What lies at and below the directory of the module. *)
Definition module_tree : tree := fold_left apply_op module_ops {[ [] := Dir ]}.
End module_spec.

(** The braces of the templates are in order, and every field is given. *)
Lemma templates_format m rel g cap comp :
  Forall (λ e : pystr * list (pystr * pystr), py_format e.2 e.1 = Ok (file_of e.1 e.2))
    [(CMAKELISTS_TEMPLATE, [(str "MODULE", m)]); (MODEL_CC_TEMPLATE, [(str "MODULE", m)]);
     (MODEL_H_TEMPLATE, [(str "MODULE", m); (str "INCLUDE_GUARD", g)]);
     (TEST_CC_TEMPLATE, [(str "MODULE", m); (str "CAPITALIZED", cap); (str "COMPOUND", comp)]);
     (HELPER_CC_TEMPLATE, [(str "MODULE", m)]);
     (HELPER_H_TEMPLATE, [(str "MODULE", m); (str "INCLUDE_GUARD", g)]);
     (EXAMPLES_CMAKELISTS_TEMPLATE, [(str "MODULE", m)]); (EXAMPLE_CC_TEMPLATE, [(str "MODULE", m)]);
     (DOC_RST_TEMPLATE, [(str "MODULE", m); (str "MODULE_DIR", rel)])].
Proof. repeat constructor; vm_compute; reflexivity. Qed.

(** ** Names *)

(** A name that [allowedRE] lets pass. *)
Definition module_name (m : pystr) : Prop := plain m ∧ "."%char ∉ m.

Lemma word_or_dash_spec c : word_or_dash c = true → c ≠ "/"%char ∧ c ≠ "."%char ∧ c ≠ newline.
Proof. intros H. split_and!; intros ->; discriminate. Qed.

Lemma allowedRE_name m : allowedRE m = true → module_name m.
Proof.
  unfold allowedRE. intros [Hne Hw]%andb_true_iff.
  assert (m ≠ [] ∧ Forall (λ c, c ≠ "/"%char ∧ c ≠ "."%char) m) as [Hm Hc].
  { rewrite forallb_forall in Hw. destruct m as [|c m _] using rev_ind; [done|]. split; [by destruct m|].
    rewrite rev_app_distr in *. cbn in *. case_decide as Hc.
    - rewrite rev_involutive in *. apply Forall_app. split; [|by subst; repeat constructor].
      apply Forall_forall. intros d Hd%list_elem_of_In%Hw%word_or_dash_spec. tauto.
    - apply Forall_forall. intros d Hd%list_elem_of_In%Hw%word_or_dash_spec. tauto. }
  rewrite Forall_forall in Hc.
  assert ("."%char ∉ m) as Hdot by (intros [_ ?]%Hc; done).
  split; [|done]. split; [split; [done|]|split].
  - intros ->. apply Hdot. left.
  - intros ->. apply Hdot. left.
  - intros [? _]%Hc. done.
Qed.

Lemma module_name_app m s : module_name m → "/"%char ∉ s → plain (m ++ s).
Proof.
  intros [((Hne & _) & _ & Hs) Hdot] Hss. destruct m as [|c m]; [done|].
  assert (c ≠ "."%char) as Hc by (intros ->; apply Hdot; left).
  split; [split; [done|]|split].
  - intros [= ? _]. done.
  - intros [= ? _]. done.
  - intros [?|?]%elem_of_app; done.
Qed.
Lemma module_name_dotless m s : module_name m → "."%char ∉ s → "."%char ∉ m ++ s.
Proof. intros [_ Hdot] Hs [?|?]%elem_of_app; done. Qed.

(** ** The functions perform these operations *)

Lemma joinpath_plain cs c : plain c → joinpath (abs_path cs) (Path c) = abs_path (cs ++ [c]).
Proof. intros Hc. by rewrite Path_plain. Qed.

Section scaffold_facts.
Context (rm : removal) (faulty : fault → key → bool) (exn_str : exn → world → pystr) (cwd : list pystr).
Context (Hcwd : Forall plain cwd).

Section one_module.
Context (cs : list pystr) (m : pystr) (Hm : module_name m) (Hcs : Forall plain cs) (Hcsn : cs ≠ []).
(** The directory of the module, below the working directory. *)
Let base : key := cwd ++ cs.
Let dir : path := abs_path base.
Let rel : pystr := join (str "/") cs.

Lemma create_file_op r template kwargs w :
  py_format kwargs template = Ok (file_of template kwargs) →
  create_file faulty cwd (abs_path (base ++ r)) template kwargs w =
    do_op faulty base (OWrite r (file_of template kwargs)) w.
Proof.
  intros Hf. unfold create_file, do_op. rewrite Hf. unfold mbind, stm_bind, st_lift. cbn. by case_match.
Qed.

(** A name in a directory of the module, with its suffix. *)
Lemma named_path d n s : "."%char ∉ n →
  with_suffix s (abs_path ((base ++ [d]) ++ [n])) = Ok (abs_path (base ++ [d; n ++ s])).
Proof.
  intros Hdot. unfold abs_path. rewrite with_suffix_plain by done. by rewrite <-(assoc_L (++)).
Qed.

Local Ltac name_side :=
  first [ exact (proj1 Hm) | exact (proj2 Hm)
        | apply module_name_app; [exact Hm|by apply (bool_decide_unpack _)]
        | apply module_name_dotless; [exact Hm|by apply (bool_decide_unpack _)]
        | split; [split; discriminate|split; [discriminate|by apply (bool_decide_unpack _)]] ].
(** [k] performs [ops] and succeeds, or stops at the first one that fails. *)
Definition performs (k : stm world bool) (ops : list op) : Prop := ∀ w,
  k w = (_ ← st_for (do_op faulty base) ops; mret true) w.

Lemma performs_nil : performs (mret true) [].
Proof. done. Qed.
Lemma performs_cons (x : stm world unit) k o ops :
  (∀ w, x w = do_op faulty base o w) → performs k ops → performs (_ ← x; k) (o :: ops).
Proof.
  intros Hx Hk w. cbn [st_for]. unfold mbind, stm_bind. rewrite Hx.
  destruct (do_op faulty base o w) as [[[]|e] w1]; [|done]. rewrite (Hk w1). done.
Qed.
Lemma performs_lift {A} (r : res exn A) a (k : A → stm world bool) ops :
  r = Ok a → performs (k a) ops → performs (x ← st_lift r; k x) ops.
Proof. intros -> Hk w. exact (Hk w). Qed.

(** Making a directory of the module and then entries in it. *)
Lemma mkdir_op r w : mkdir faulty (path_key cwd (abs_path (base ++ r))) w = do_op faulty base (OMkdir r) w.
Proof. done. Qed.

Local Ltac formats :=
  pose proof (templates_format m rel (guard m (str "_H")) (capitalized (split_char "-" m)) (compound (split_char "-" m))) as Hf;
  pose proof (templates_format m rel (guard m (str "_HELPER_H")) [] []) as Hf2;
  repeat match goal with H : Forall _ (_ :: _) |- _ => apply Forall_cons in H as [? H] end; cbn [fst snd] in *.
Local Ltac perform :=
  formats; cbn zeta; rewrite ?joinpath_plain by name_side;
  repeat first
    [ apply performs_cons; [intros w; first [apply mkdir_op | apply (create_file_op [_]); assumption | apply (create_file_op [_; _]); assumption
        | rewrite <-(assoc_L (++)); apply (create_file_op [_; _]); assumption]|]
    | eapply performs_lift; [apply named_path; name_side|]; cbv beta ];
  exact performs_nil.

Lemma make_cmakelists_ops : performs (make_cmakelists faulty cwd dir m) (cmakelists_ops m).
Proof. unfold make_cmakelists, dir, cmakelists_ops. perform. Qed.
Lemma make_model_ops : performs (make_model faulty cwd dir m) (model_ops m).
Proof. unfold make_model, dir, model_ops. perform. Qed.
Lemma make_test_ops : performs (make_test faulty cwd dir m) (test_ops m).
Proof. unfold make_test, dir, test_ops. perform. Qed.
Lemma make_helper_ops : performs (make_helper faulty cwd dir m) (helper_ops m).
Proof. unfold make_helper, dir, helper_ops. perform. Qed.
Lemma make_examples_ops : performs (make_examples faulty cwd dir m) (examples_ops m).
Proof. unfold make_examples, dir, examples_ops. perform. Qed.
Lemma make_doc_ops : performs (make_doc faulty cwd dir m) (doc_ops m rel).
Proof.
  unfold make_doc, dir, doc_ops. cbn zeta. rewrite joinpath_plain by name_side.
  apply performs_cons; [intros w; apply mkdir_op|].
  eapply performs_lift; [by apply relpath_below|]. cbv beta. perform.
Qed.

(** All the functions one after the other. *)
Lemma performs_then k ks ops1 ops2 :
  performs k ops1 → performs ks ops2 → performs (b ← k; if b : bool then ks else mret false) (ops1 ++ ops2).
Proof.
  intros H1 H2 w. unfold mbind, stm_bind. rewrite H1, st_for_app. unfold mbind, stm_bind.
  destruct (st_for (do_op faulty base) ops1 w) as [[[]|e] w1]; [|done]. exact (H2 w1).
Qed.

Lemma functions_ops :
  performs (all_of (λ f : path → pystr → stm world bool, f dir m) (functions faulty cwd)) (module_ops m rel).
Proof.
  unfold functions, module_ops. cbn [all_of]. rewrite <-(app_nil_r (doc_ops m rel)).
  repeat (apply performs_then; [first [apply make_cmakelists_ops|apply make_model_ops|apply make_test_ops
    |apply make_helper_ops|apply make_examples_ops|apply make_doc_ops]|]).
  exact performs_nil.
Qed.

Lemma insert_file_not_dir (s : tree) p q c : s !! q ≠ Some Dir → <[p := File c]> s !! q ≠ Some Dir.
Proof. intros Hq. destruct (decide (p = q)) as [->|?]; [by rewrite lookup_insert_eq|by rewrite lookup_insert_ne]. Qed.
Lemma module_ready : ready {[ [] := Dir ]} (module_ops m rel).
Proof.
  unfold module_ops, cmakelists_ops, model_ops, test_ops, helper_ops, examples_ops, doc_ops.
  cbn [app ready]. unfold op_ready, apply_op. cbn [op_key op_node removelast].
  split_and!; try done;
    repeat (rewrite lookup_insert_eq || rewrite lookup_insert_ne by discriminate);
    rewrite ?lookup_singleton_eq; try done;
    repeat (apply insert_file_not_dir || rewrite lookup_insert_ne by discriminate);
    by rewrite lookup_singleton_ne.
Qed.

Lemma base_ne : base ≠ [].
Proof. unfold base. intros [_ ?]%app_nil. done. Qed.

(** The body of the [try] of [make_module], and what its handler leaves. *)
Definition module_body : stm world bool :=
  _ ← mkdir faulty base;
  success ← all_of (λ f : path → pystr → stm world bool, f dir m) (functions faulty cwd);
  if success : bool then mret true else st_raise ValueError.

Definition module_fails : bool := existsb (op_fails faulty base) (module_ops m rel).

Lemma body_spec w : wf_tree (fs w) → get_node (fs w) base = None →
  ∃ r w', module_body w = (r, w') ∧ wf_tree (fs w') ∧
    (∀ q, ¬ base `prefix_of` q → get_node (fs w') q = get_node (fs w) q ∨
       get_node (fs w) q = None ∧ get_node (fs w') q = Some Dir ∧ q `prefix_of` base) ∧
    (makeable faulty (fs w) base → module_fails = false → r = Ok true) ∧
    match r with
    | Ok b => b = true ∧ ∀ r, get_node (fs w') (base ++ r) = module_tree m rel !! r
    | Raise e => e = OSError ∧ (get_node (fs w') base = None ∨ get_node (fs w') base = Some Dir)
    end.
Proof.
  intros Hwf Hnone. destruct (mkdir_spec faulty (length base) false base w) as (r1 & w1 & E1 & H1); [lia|done|].
  fold (mkdir faulty base) in E1.
  destruct r1 as [[]|e].
  - destruct (mo_ok _ _ _ _ _ _ H1 eq_refl) as [Hdir _].
    assert (below base (fs w1) {[ [] := Dir ]}) as Hb.
    { intros r. destruct (decide (r = [])) as [->|Hr].
      - by rewrite app_nil_r, Hdir, lookup_singleton_eq.
      - rewrite lookup_singleton_ne by done.
        destruct (mo_added _ _ _ _ _ _ H1 (base ++ r)) as [->|(_ & _ & Hp)]; [by apply wf_below|].
        destruct Hr. destruct Hp as [t Ht]. apply (f_equal length) in Ht. rewrite !length_app in Ht.
        apply length_zero_iff_nil. lia. }
    destruct (do_ops_spec faulty base base_ne (module_ops m rel) w1 _ Hb module_ready) as (r2 & w2 & E2 & Hf & H2).
    assert (∀ q, ¬ base `prefix_of` q → get_node (fs w2) q = get_node (fs w) q ∨
       get_node (fs w) q = None ∧ get_node (fs w2) q = Some Dir ∧ q `prefix_of` base) as Hout.
    { intros q Hq. rewrite (fr_elsewhere _ _ _ Hf q Hq). apply (mo_added _ _ _ _ _ _ H1). }
    pose proof (fr_wf _ _ _ Hf (mo_wf _ _ _ _ _ _ H1)) as Hwf2.
    assert (module_body w = (if module_fails then Raise OSError else Ok true, w2)) as Hrun.
    { unfold module_body. rewrite (st_bind_step _ _ _ _ _ E1). unfold mbind, stm_bind.
      rewrite functions_ops. unfold mbind, stm_bind. rewrite E2. unfold module_fails.
      destruct (existsb _ _); [by subst r2|]. by destruct H2 as [-> _]. }
    eexists _, w2. split; [exact Hrun|]. unfold module_fails in *. split; [done|]. split; [done|].
    destruct (existsb _ _); [split; [done|]|split; [done|]].
    + split; [done|]. right. by apply (fr_base _ _ _ Hf).
    + split; [done|]. by destruct H2 as [_ ?].
  - destruct (mo_raise _ _ _ _ _ _ H1 e eq_refl) as [-> Hn]. exists (Raise OSError), w1.
    unfold module_body. rewrite (st_bind_raise _ _ _ _ _ E1). split; [done|].
    split; [by apply (mo_wf _ _ _ _ _ _ H1)|]. split; [|split].
    + intros q _. apply (mo_added _ _ _ _ _ _ H1).
    + intros Hmk _. discriminate (mo_makeable _ _ _ _ _ _ H1 Hmk). by right.
    + split; [done|]. left. by apply Hn.
Qed.

End one_module.

(** What [make_module] leaves of the file system, and what it comes to. *)
Record module_outcome (ds : list pystr) (m : pystr) (w : world) (r : res exn bool) (w' : world) : Prop := {
  mk_wf : wf_tree (fs w');
  mk_existing : get_node (fs w) (cwd ++ ds ++ [m]) ≠ None → r ≠ Ok true ∧ fs w' = fs w;
  mk_elsewhere q : ¬ (cwd ++ ds ++ [m]) `prefix_of` q →
    get_node (fs w') q = get_node (fs w) q ∨
    get_node (fs w) q = None ∧ get_node (fs w') q = Some Dir ∧ q `prefix_of` (cwd ++ ds ++ [m]);
  mk_inside b p : r = Ok b → get_node (fs w) (cwd ++ ds ++ [m]) = None →
    get_node (fs w') ((cwd ++ ds ++ [m]) ++ p) =
      if b then module_tree m (join (str "/") (ds ++ [m])) !! p else None;
  mk_success : get_node (fs w) (cwd ++ ds ++ [m]) = None →
    makeable faulty (fs w) (cwd ++ ds ++ [m]) → faulty AtExists (cwd ++ ds ++ [m]) = false →
    module_fails (ds ++ [m]) m = false → r = Ok true;
  mk_raise e : r = Raise e → e = OSError ∧
    (faulty AtExists (cwd ++ ds ++ [m]) = true ∧ fs w' = fs w ∨
     get_node (fs w) (cwd ++ ds ++ [m]) = None ∧
       (faulty AtRecheck (cwd ++ ds ++ [m]) = true ∨
        (∃ q, (cwd ++ ds ++ [m]) `prefix_of` q ∧ faulty AtRemove q = true) ∧
        get_node (fs w') (cwd ++ ds ++ [m]) = Some Dir));
}.

Lemma make_module_spec ds m w : module_name m → Forall plain ds → wf_tree (fs w) →
  ∃ r w', make_module rm faulty exn_str cwd (abs_path (cwd ++ ds)) m w = (r, w') ∧
    module_outcome ds m w r w'.
Proof.
  intros Hm Hds Hwf. set (k := cwd ++ ds ++ [m]).
  assert (joinpath (abs_path (cwd ++ ds)) (Path m) = abs_path k) as Hjoin.
  { rewrite joinpath_plain by apply Hm. unfold k. by rewrite (assoc_L (++)). }
  assert (k ≠ []) as Hk by (unfold k; intros [_ [_ ?]%app_nil]%app_nil; done).
  assert (Forall plain (ds ++ [m])) as Hcs by (apply Forall_app; split; [done|constructor; [apply Hm|done]]).
  assert (ds ++ [m] ≠ []) as Hcsn by (by intros [_ ?]%app_nil).
  unfold make_module. rewrite Hjoin. change (path_key cwd (abs_path k)) with k.
  destruct (faulty AtExists k) eqn:Hex.
  { rewrite (st_bind_raise _ _ w OSError w) by (unfold exists_; by rewrite Hex).
    eexists _, w. split; [done|]. split; fold k; rewrite ?Hex; try done; [by left|]. intros e [= <-]. auto. }
  destruct (get_node (fs w) k) as [n|] eqn:Hn.
  - rewrite (st_bind_step _ _ w true w) by (unfold exists_; by rewrite Hex, Hn).
    eexists _, _. split; [done|]. split; cbn [fs]; fold k; rewrite ?Hn; try done. by left.
  - rewrite (st_bind_step _ _ w false w) by (unfold exists_; by rewrite Hex, Hn).
    set (w0 := World (fs w) (stdout w ++ [str "Creating module " ++ path_str (abs_path k)]) (stderr w)).
    rewrite (st_bind_step _ _ w tt w0) by done.
    destruct (body_spec (ds ++ [m]) m Hm Hcs Hcsn w0 Hwf Hn) as (r & w1 & E & Hwf1 & Hout & Hok & Hr).
    fold k in E, Hout, Hok, Hr.
    unfold st_try. change (_ ← mkdir faulty k; _) with (module_body (ds ++ [m]) m) at 1. rewrite E.
    destruct r as [b|e].
    + destruct Hr as [-> Hb]. eexists _, w1. split; [done|]. split; fold k; rewrite ?Hn; try done. by intros b p [= <-] _.
    + destruct Hr as [-> Hb]. cbn beta iota.
      assert (∀ r3 w3, wf_tree (fs w3) → (∀ q, ¬ k `prefix_of` q → get_node (fs w3) q = get_node (fs w1) q) →
        (∀ b, r3 = Ok b → b = false ∧ ∀ q, k `prefix_of` q → get_node (fs w3) q = None) →
        (∀ e, r3 = Raise e → e = OSError ∧ (faulty AtRecheck k = true ∨
           (∃ q, k `prefix_of` q ∧ faulty AtRemove q = true) ∧ get_node (fs w3) k = Some Dir)) →
        module_outcome ds m w r3 w3) as Hfin.
      { intros r3 w3 Hwf3 Hsame Hret Hraise. split; fold k; rewrite ?Hn; try done.
        - intros q Hq. rewrite Hsame by done. by apply Hout.
        - intros b p Hb' _. destruct (Hret b Hb') as [-> Hnone]. apply Hnone. by apply prefix_app_r.
        - intros _ Hmk _ Hf. discriminate (Hok Hmk Hf).
        - intros e He. destruct (Hraise e He) as [-> Hor]. split; [done|]. by right. }
      destruct (faulty AtRecheck k) eqn:Hre.
      { rewrite (st_bind_raise _ _ w1 OSError w1) by (unfold exists_; by rewrite Hre).
        eexists _, w1. split; [done|]. apply Hfin; try done. intros e [= <-]. auto. }
      destruct Hb as [Hb|Hb].
      * rewrite (st_bind_step _ _ w1 false w1) by (unfold exists_; by rewrite Hre, Hb).
        eexists _, _. split; [done|]. apply Hfin; try done. intros b [= <-]. split; [done|].
        intros q [p ->]. by apply wf_below.
      * rewrite (st_bind_step _ _ w1 true w1) by (unfold exists_; by rewrite Hre, Hb).
        destruct (rmtree_spec faulty rm k Hk w1 Hwf1 Hb) as (r2 & w2 & Er & _ & _ & Hw & Hsame & Hr2).
        destruct r2 as [[]|e].
        -- rewrite (st_bind_step _ _ w1 tt w2) by done.
           eexists _, _. split; [done|]. apply Hfin; try done. by intros b [= <-].
        -- destruct Hr2 as (-> & Hq & Hd). rewrite (st_bind_raise _ _ w1 OSError w2) by done.
           eexists _, _. split; [done|]. apply Hfin; try done. intros e [= <-]. auto.
Qed.
End scaffold_facts.

(** ** The names on the command line *)

Section names.
Context (faulty : fault → key → bool) (exn_str : exn → world → pystr) (cwd : list pystr).

Lemma lstrip_slash_id s : (∀ t, s ≠ "/"%char :: t) → lstrip_slash s = s.
Proof. destruct s as [|c s]; intros H; [done|]. cbn. rewrite decide_False; [done|]. intros ->. by apply (H s). Qed.

Lemma strip_slash_ends s :
  (∀ t, s ≠ "/"%char :: t) → (∀ t, rev s ≠ "/"%char :: t) → strip_slash s = s.
Proof. intros H1 H2. unfold strip_slash. rewrite (lstrip_slash_id s H1), (lstrip_slash_id _ H2). apply rev_involutive. Qed.

Lemma starts_plain a s t : plain a → a ++ s ≠ "/"%char :: t.
Proof.
  intros Ha E. pose proof (plain_no_slash _ Ha) as Sa. destruct a as [|c a]; [by destruct (plain_nonnil _ Ha)|].
  injection E as -> _. apply Sa. left.
Qed.
Lemma ends_plain a s t : plain a → rev (s ++ a) ≠ "/"%char :: t.
Proof.
  intros Ha E. pose proof (plain_no_slash _ Ha) as Sa.
  destruct a as [|c a _] using rev_ind; [by destruct (plain_nonnil _ Ha)|].
  rewrite !rev_app_distr in E. injection E as -> _. apply Sa. apply elem_of_app. right. left.
Qed.
Lemma strip_slash_id a b : plain a → plain b → strip_slash (a ++ str "/" ++ b) = a ++ str "/" ++ b.
Proof.
  intros Ha Hb. apply strip_slash_ends; intros t; [by apply starts_plain|].
  rewrite (assoc_L (++)). by apply ends_plain.
Qed.
Lemma strip_slash_plain a : plain a → strip_slash a = a.
Proof.
  intros Ha. apply strip_slash_ends; intros t; [|by apply (ends_plain a [])].
  rewrite <-(app_nil_r a). by apply starts_plain.
Qed.

Lemma Path_two a b : plain a → plain b → Path (a ++ str "/" ++ b) = MkPath [] [a; b].
Proof.
  intros Ha Hb. pose proof (plain_nonnil _ Ha). pose proof (plain_no_slash _ Ha) as Sa.
  pose proof (plain_no_slash _ Hb) as Sb. unfold Path. f_equal.
  - unfold initial_slashes. destruct a as [|c a]; [done|]. cbn.
    rewrite !bool_decide_false by (intros <-; apply Sa; left). done.
  - change (str "/") with ["/"%char]. cbn [app]. rewrite split_char_app, split_char_no by done.
    rewrite !filter_cons, !decide_True by (apply Ha || apply Hb). done.
Qed.

Lemma relative_to_first a cs : plain a → relative_to (MkPath [] (a :: cs)) (Path a) = Ok (MkPath [] cs).
Proof. intros Ha. rewrite Path_plain by done. unfold relative_to. cbn. by rewrite decide_True. Qed.

Local Ltac pass :=
  unfold first_part, mbind, stm_bind, st_lift, mret, stm_ret;
  cbn [parts root comps length head res_of_option Nat.ltb Nat.leb project app].

(** What a name without a project stands for: a directory and a module. *)
Inductive names_module : pystr → pystr → pystr → Prop :=
  | bare_name m : m ≠ str "src" → m ≠ str "contrib" → allowedRE m = true → names_module m (str "contrib") m
  | in_contrib m : allowedRE m = true → names_module (str "contrib/" ++ m) (str "contrib") m
  | in_src m : allowedRE m = true → names_module (str "src/" ++ m) (str "src") m.

Definition top_path (top : pystr) : path := abs_path (cwd ++ [top]).

Lemma plain_src : plain (str "src").
Proof. by apply (bool_decide_unpack _). Qed.
Lemma plain_contrib : plain (str "contrib").
Proof. by apply (bool_decide_unpack _). Qed.

Lemma add_module_named names name top m ms w : names_module name top m →
  add_module cwd (Args [] names) None ms name w = (Ok (ms ++ [(top_path top, m)]), w).
Proof.
  destruct 1 as [m Hs Hc Hm|m Hm|m Hm]; pose proof (proj1 (allowedRE_name m Hm)) as Hp; unfold add_module.
  - rewrite strip_slash_plain, bool_decide_false by (done || by apply plain_nonnil).
    rewrite Path_plain by done. pass. rewrite !bool_decide_false by done. pass. by rewrite Hm.
  - change (str "contrib/") with (str "contrib" ++ str "/"). rewrite <-(assoc_L (++)).
    rewrite strip_slash_id by (done || apply plain_contrib). rewrite Path_two by (done || apply plain_contrib).
    rewrite bool_decide_false by done. pass.
    rewrite (bool_decide_false (str "contrib" = str "src")), bool_decide_true by done. pass.
    rewrite relative_to_first by apply plain_contrib. pass. by rewrite Hm.
  - change (str "src/") with (str "src" ++ str "/"). rewrite <-(assoc_L (++)).
    rewrite strip_slash_id by (done || apply plain_src). rewrite Path_two by (done || apply plain_src).
    rewrite bool_decide_false by done. pass.
    rewrite !bool_decide_true by done. pass. rewrite relative_to_first by apply plain_src. pass. by rewrite Hm.
Qed.

(** A path of two parts is taken for its first one. *)
Lemma second_part_dropped names a b ms w :
  allowedRE a = true → plain b → a ≠ str "src" → a ≠ str "contrib" →
  add_module cwd (Args [] names) None ms (a ++ str "/" ++ b) w = (Ok (ms ++ [(top_path (str "contrib"), a)]), w).
Proof.
  intros Ha Hb Hs Hc. pose proof (proj1 (allowedRE_name a Ha)) as Hp. unfold add_module.
  rewrite strip_slash_id, Path_two by done. rewrite bool_decide_false by by destruct a.
  pass. rewrite !bool_decide_false by done. pass. by rewrite Ha.
Qed.
End names.

(** ** Several modules *)

Lemma wf_prefix t k q n : wf_tree t → get_node t k = Some n → q `prefix_of` k → q ≠ k → get_node t q = Some Dir.
Proof.
  intros Ht Hk [r ->]. revert n Hk. induction r as [|x r IH] using rev_ind; intros n Hk Hq.
  { destruct Hq. by rewrite app_nil_r. }
  pose proof (Ht (q ++ r ++ [x]) ltac:(by rewrite Hk)) as Hp. rewrite (assoc_L (++)), removelast_last in Hp.
  destruct (decide (r = [])) as [->|Hr]; [by rewrite app_nil_r in Hp|].
  apply (IH Dir Hp). intros E. apply (f_equal length) in E. rewrite length_app in E.
  destruct r; [done|cbn in E; lia].
Qed.

Lemma prefix_snoc_inv (q l : key) x : q `prefix_of` l ++ [x] → q = l ++ [x] ∨ q `prefix_of` l.
Proof.
  intros [r E]. destruct r as [|y r _] using rev_ind; [left; by rewrite app_nil_r in E|right].
  rewrite (assoc_L (++)) in E. apply app_inj_tail in E as [-> _]. by exists r.
Qed.

Section several.
Context (rm : removal) (faulty : fault → key → bool) (exn_str : exn → world → pystr) (cwd : list pystr).
Context (Hcwd : Forall plain cwd).

Definition dest (t : pystr * pystr) : key := cwd ++ [t.1] ++ [t.2].
Lemma dest_snoc t : dest t = (cwd ++ [t.1]) ++ [t.2].
Proof. apply (assoc_L (++)). Qed.
Definition as_module (t : pystr * pystr) : path * pystr := (top_path cwd t.1, t.2).
Definition make_all (ts : list (pystr * pystr)) : stm world bool :=
  all_of (λ m : path * pystr, make_module rm faulty exn_str cwd m.1 m.2) (map as_module ts).
Definition target_ok (t : pystr * pystr) : Prop := plain t.1 ∧ allowedRE t.2 = true.
Definition target_text (t : pystr * pystr) : pystr := join (str "/") [t.1; t.2].

Lemma names_target_ok name t : names_module name t.1 t.2 → target_ok t.
Proof.
  destruct t as [top m]. cbn. destruct 1; split; cbn; try done; apply plain_contrib || apply plain_src.
Qed.

Lemma make_target t w : target_ok t → wf_tree (fs w) →
  ∃ r w', make_module rm faulty exn_str cwd (top_path cwd t.1) t.2 w = (r, w') ∧
    module_outcome faulty cwd [t.1] t.2 w r w'.
Proof.
  intros [Ht Hm] Hwf. apply (make_module_spec rm faulty exn_str cwd Hcwd [t.1] t.2 w); [by apply allowedRE_name|by constructor|done].
Qed.

(** Nothing in the way of looking at what is there and of removing it. *)
Definition tidy : Prop := ∀ f q, f = AtExists ∨ f = AtRecheck ∨ f = AtRemove → faulty f q = false.

(** Whatever else fails, the functions return. *)
Lemma tidy_returns t w r w' : tidy → module_outcome faulty cwd [t.1] t.2 w r w' → ∃ b, r = Ok b.
Proof.
  intros Ht Ho. destruct r as [b|e]; [by exists b|]. destruct (mk_raise _ _ _ _ _ _ _ Ho e eq_refl) as (_ & H).
  exfalso. destruct H as [[H _]|[_ [H|[(q & _ & H) _]]]]; rewrite Ht in H; auto; done.
Qed.
Lemma make_all_returns ts w : tidy → Forall target_ok ts → wf_tree (fs w) →
  ∃ b w', make_all ts w = (Ok b, w').
Proof.
  intros Htidy Hts. revert w. induction Hts as [|t ts Ht Hts IH]; intros w Hwf; cbn; [by exists true, w|].
  destruct (make_target t w Ht Hwf) as (r & w1 & E & Ho). destruct (tidy_returns t w r w1 Htidy Ho) as [b ->].
  unfold make_all. cbn [map all_of]. rewrite (st_bind_step _ _ _ _ _ E). destruct b; [|by eexists _, _].
  apply IH, Ho.
Qed.

Lemma dest_prefix t t' r : dest t `prefix_of` dest t' ++ r → t = t'.
Proof.
  intros [x E]. unfold dest in E. rewrite <-!(assoc_L (++)) in E. apply app_inv_head in E.
  destruct t, t'. by injection E as -> -> _.
Qed.

(** Without faults, and with the places free, every module is made and nothing
    else changes. *)
Lemma make_all_spec ts w :
  (∀ f q, faulty f q = false) → Forall target_ok ts → NoDup ts → wf_tree (fs w) →
  Forall (λ t, get_node (fs w) (cwd ++ [t.1]) = Some Dir ∧ get_node (fs w) (dest t) = None) ts →
  ∃ w', make_all ts w = (Ok true, w') ∧
    (∀ t r, t ∈ ts → get_node (fs w') (dest t ++ r) = module_tree t.2 (target_text t) !! r) ∧
    (∀ q, (∀ t, t ∈ ts → ¬ dest t `prefix_of` q) → get_node (fs w') q = get_node (fs w) q).
Proof.
  intros Hno Hts. revert w. induction Hts as [|t ts Ht Hts IH]; intros w Hnd Hwf Hfree.
  { exists w. split; [done|]. split; [by intros t r ?%elem_of_nil|done]. }
  apply NoDup_cons in Hnd as [Hnt Hnd]. apply Forall_cons in Hfree as [[Htop Hnone] Hfree].
  destruct (make_target t w Ht Hwf) as (r & w1 & E & Ho).
  assert (∀ q, q `prefix_of` dest t → q = dest t ∨ get_node (fs w) q = Some Dir) as Hpre.
  { intros q. rewrite dest_snoc. intros [->|Hq]%prefix_snoc_inv; [by left|right].
    destruct (decide (q = cwd ++ [t.1])) as [->|Hq']; [done|]. by eapply wf_prefix. }
  assert (makeable faulty (fs w) (dest t)) as Hmk.
  { intros q Hq. split; [|apply Hno]. destruct (Hpre q Hq) as [->|?]; auto. }
  assert (r = Ok true) as ->.
  { apply (mk_success _ _ _ _ _ _ _ Ho Hnone Hmk); [apply Hno|]. unfold module_fails.
    apply not_true_iff_false. rewrite existsb_exists. intros (o & _ & Hf).
    destruct o; cbn in Hf; rewrite !Hno in Hf; done. }
  assert (∀ q, ¬ dest t `prefix_of` q → get_node (fs w1) q = get_node (fs w) q) as Helse.
  { intros q Hq. destruct (mk_elsewhere _ _ _ _ _ _ _ Ho q Hq) as [?|(Hn & Hd & Hp)]; [done|].
    destruct (Hpre q Hp) as [->|Hd']; [done|congruence]. }
  destruct (IH w1 Hnd (mk_wf _ _ _ _ _ _ _ Ho)) as (w2 & E2 & Hin & Hout).
  { rewrite Forall_forall in Hfree |- *. intros t' Ht'. destruct (Hfree t' Ht') as [H1 H2].
    rewrite !Helse; [done| |].
    - intros Hp. rewrite <-(app_nil_r (dest t')) in Hp. apply dest_prefix in Hp as ->. done.
    - intros [r Hr]. apply (f_equal length) in Hr. unfold dest in Hr. rewrite !length_app in Hr. cbn in Hr. lia. }
  exists w2. unfold make_all. cbn [map all_of]. split; [by rewrite (st_bind_step _ _ _ _ _ E)|]. split.
  - intros t' r [->|Ht']%elem_of_cons; [|by apply Hin].
    rewrite Hout.
    + exact (mk_inside _ _ _ _ _ _ _ Ho true r eq_refl Hnone).
    + intros t' Ht' Hp. apply dest_prefix in Hp as ->. done.
  - intros q Hq. rewrite Hout by (intros t' Ht'; apply Hq; by right). apply Helse, Hq. by left.
Qed.

(** ** The script *)

Lemma add_names names ts args_names ms w :
  Forall2 (λ n t, names_module n t.1 t.2) names ts →
  st_fold (add_module cwd (Args [] args_names) None) ms names w = (Ok (ms ++ map as_module ts), w).
Proof.
  intros H. revert ms. induction H as [|n t names ts Hn H IH]; intros ms; cbn [st_fold map]; [by rewrite app_nil_r|].
  rewrite (st_bind_step _ _ _ _ _ (add_module_named cwd args_names n t.1 t.2 ms w Hn)).
  rewrite IH. by rewrite <-(assoc_L (++)).
Qed.

Lemma run_named names ts w b w1 :
  get_node (fs w) (cwd ++ [str "src"]) = Some Dir → get_node (fs w) (cwd ++ [str "contrib"]) = Some Dir →
  Forall2 (λ n t, names_module n t.1 t.2) names ts → make_all ts w = (Ok b, w1) →
  ∃ w', run rm faulty exn_str cwd (Args [] names) w = (Ok 0, w') ∧ fs w' = fs w1.
Proof.
  intros Hsrc Hcon Hnames Hall.
  assert (check_directories cwd w = (Ok tt, w)) as Hdirs.
  { unfold check_directories. cbn [st_for].
    rewrite (st_bind_step _ _ w tt w); [rewrite (st_bind_step _ _ w tt w); [done|]|];
      unfold mbind, stm_bind, st_get, is_dir.
    - change (path_key cwd (contrib_path cwd)) with (cwd ++ [str "contrib"]). by rewrite Hcon.
    - change (path_key cwd (src_path cwd)) with (cwd ++ [str "src"]). by rewrite Hsrc. }
  unfold run, st_try, main. rewrite (st_bind_step _ _ _ _ _ Hdirs).
  rewrite (st_bind_step _ _ w None w) by done.
  rewrite (st_bind_step _ _ _ _ _ (add_names names ts names [] w Hnames)).
  cbn [app]. rewrite (st_bind_step _ _ _ _ _ Hall). destruct b; by eexists.
Qed.
End several.

(** C25: [make_module] leaves all of a module or nothing of it, whatever fails while
    it is written.  Given the directory of a new module below the working directory:
    if the directory exists, no file is changed and the result is not true; otherwise,
    at and below the directory there is afterwards exactly the tree of the module (ten
    files in six directories, with the filled-in templates) when it returns true, and
    nothing when it returns false.  It returns true when no operation fails and no file
    is in the way.  It raises only when the file system cannot say whether the
    directory exists, before (nothing is changed) or in the handler, or when the
    handler cannot remove something at or below the directory: then the directory, with
    what has not been removed, stays.  Elsewhere at most the parents of the directory
    are new. *)
Theorem make_module_all_or_nothing rm faulty exn_str cwd ds m w
    (Hcwd : Forall plain cwd) (Hds : Forall plain ds) (Hm : allowedRE m = true) (Hwf : wf_tree (fs w)) :
  let k := cwd ++ ds ++ [m] in
  let rel := join (str "/") (ds ++ [m]) in
  ∃ r w', make_module rm faulty exn_str cwd (abs_path (cwd ++ ds)) m w = (r, w') ∧ wf_tree (fs w') ∧
    (get_node (fs w) k ≠ None → r ≠ Ok true ∧ fs w' = fs w) ∧
    (get_node (fs w) k = None → makeable faulty (fs w) k → faulty AtExists k = false →
       existsb (op_fails faulty k) (module_ops m rel) = false → r = Ok true) ∧
    match r with
    | Ok b => get_node (fs w) k = None → ∀ p, get_node (fs w') (k ++ p) = if b then module_tree m rel !! p else None
    | Raise e => e = OSError ∧
        (faulty AtExists k = true ∧ fs w' = fs w ∨
         get_node (fs w) k = None ∧
           (faulty AtRecheck k = true ∨
            (∃ q, k `prefix_of` q ∧ faulty AtRemove q = true) ∧ get_node (fs w') k = Some Dir))
    end ∧
    (∀ q, ¬ k `prefix_of` q → get_node (fs w') q = get_node (fs w) q ∨
       get_node (fs w) q = None ∧ get_node (fs w') q = Some Dir ∧ q `prefix_of` k).
Proof.
  destruct (make_module_spec rm faulty exn_str cwd Hcwd ds m w (allowedRE_name m Hm) Hds Hwf) as (r & w' & E & []).
  exists r, w'. split_and!; auto. destruct r; auto.
Qed.

(** C26: the script on names without a project: when [src] and [contrib] exist,
    the names stand for different modules that do not exist yet, and no operation
    fails, it ends with status 0, every module's directory holds exactly the
    tree of the module, and nothing else has changed. *)
Theorem modules_created rm faulty exn_str cwd names ts w
    (Hcwd : Forall plain cwd) (Hwf : wf_tree (fs w)) (Hno : ∀ f q, faulty f q = false)
    (Hdirs : Forall (λ top, get_node (fs w) (cwd ++ [top]) = Some Dir) [str "src"; str "contrib"])
    (Hnames : Forall2 (λ n t, names_module n t.1 t.2) names ts) (Hnd : NoDup ts)
    (Hnew : Forall (λ t, get_node (fs w) (cwd ++ [t.1] ++ [t.2]) = None) ts) :
  ∃ w', run rm faulty exn_str cwd (Args [] names) w = (Ok 0, w') ∧
    (∀ t r, t ∈ ts → get_node (fs w') ((cwd ++ [t.1] ++ [t.2]) ++ r) =
       module_tree t.2 (t.1 ++ str "/" ++ t.2) !! r) ∧
    (∀ q, (∀ t, t ∈ ts → ¬ (cwd ++ [t.1] ++ [t.2]) `prefix_of` q) → get_node (fs w') q = get_node (fs w) q).
Proof.
  apply Forall_cons in Hdirs as [Hsrc Hdirs]. apply Forall_cons in Hdirs as [Hcon _].
  assert (Forall (λ t, get_node (fs w) (cwd ++ [t.1]) = Some Dir ∧ get_node (fs w) (dest cwd t) = None) ts) as Hfree.
  { apply Forall_forall. intros t Ht. split; [|exact (proj1 (Forall_forall _ _) Hnew t Ht)].
    apply list_elem_of_lookup in Ht as [i Hi]. destruct (Forall2_lookup_r _ _ _ _ _ Hnames Hi) as (n & _ & Hn).
    by destruct Hn. }
  assert (Forall target_ok ts) as Hok.
  { apply Forall_forall. intros t Ht. apply list_elem_of_lookup in Ht as [i Hi].
    destruct (Forall2_lookup_r _ _ _ _ _ Hnames Hi) as (n & _ & Hn). by eapply names_target_ok. }
  destruct (make_all_spec rm faulty exn_str cwd Hcwd ts w Hno Hok Hnd Hwf Hfree) as (w1 & E & Hin & Hout).
  destruct (run_named rm faulty exn_str cwd names ts w true w1 Hsrc Hcon Hnames E) as (w' & Hrun & Hfs).
  exists w'. rewrite Hfs. split_and!; done.
Qed.

(** The status of the script says nothing about the modules: on names without
    a project it is 0 whatever fails in writing them; and when the first module exists already,
    no file is changed and no other module is made, with status 0. *)
Theorem status_hides_failures rm faulty exn_str cwd names ts w (Htidy : tidy faulty)
    (Hcwd : Forall plain cwd) (Hwf : wf_tree (fs w))
    (Hdirs : Forall (λ top, get_node (fs w) (cwd ++ [top]) = Some Dir) [str "src"; str "contrib"])
    (Hnames : Forall2 (λ n t, names_module n t.1 t.2) names ts) :
  ∃ w', run rm faulty exn_str cwd (Args [] names) w = (Ok 0, w') ∧
    ∀ t, head ts = Some t → get_node (fs w) (cwd ++ [t.1] ++ [t.2]) ≠ None → fs w' = fs w.
Proof.
  apply Forall_cons in Hdirs as [Hsrc Hdirs]. apply Forall_cons in Hdirs as [Hcon _].
  assert (Forall target_ok ts) as Hok.
  { apply Forall_forall. intros t Ht. apply list_elem_of_lookup in Ht as [i Hi].
    destruct (Forall2_lookup_r _ _ _ _ _ Hnames Hi) as (n & _ & Hn). by eapply names_target_ok. }
  destruct (make_all_returns rm faulty exn_str cwd Hcwd ts w Htidy Hok Hwf) as (b & w1 & E).
  destruct (run_named rm faulty exn_str cwd names ts w b w1 Hsrc Hcon Hnames E) as (w' & Hrun & Hfs).
  exists w'. split; [done|]. intros t Ht Hex. rewrite Hfs. destruct ts as [|t' ts]; [done|].
  injection Ht as ->. apply Forall_cons in Hok as [Ht _].
  destruct (make_target rm faulty exn_str cwd Hcwd t w Ht Hwf) as (r & w2 & E2 & Ho).
  destruct (mk_existing _ _ _ _ _ _ _ Ho Hex) as [Hr Hsame].
  destruct (tidy_returns faulty cwd t w r w2 Htidy Ho) as [[] ->]; [done|].
  unfold make_all in E. cbn [map all_of] in E. rewrite (st_bind_step _ _ _ _ _ E2) in E. by injection E as _ ->.
Qed.

(** ** Sample runs *)

Definition no_fault (f : fault) (k : key) : bool := false.
(** Writing the header of the model fails. *)
Definition full_disk (f : fault) (k : key) : bool :=
  match f with AtWrite => bool_decide (last k = Some (str "new.h")) | _ => false end.
Definition sample_str (e : exn) (w : world) : pystr := str "reason".
Definition sample_cwd : list pystr := [str "ns"].
Definition sample_fs : tree :=
  <[[str "ns"; str "contrib"; str "old"] := Dir]>
    (<[[str "ns"; str "contrib"] := Dir]> (<[[str "ns"; str "src"] := Dir]> (<[[str "ns"] := Dir]> ∅))).
Definition sample_world : world := World sample_fs [] [].

Lemma sample_wf : wf_tree (fs sample_world).
Proof.
  assert (wf_tree ∅) as H0 by (intros [|x k] [n Hn]; done).
  unfold sample_world, sample_fs. cbn [fs].
  do 4 (apply wf_insert; [|done|by vm_compute|by left]). exact H0.
Qed.
Lemma sample_cwd_plain : Forall plain sample_cwd.
Proof. by repeat first [apply Forall_nil | apply Forall_cons; split; [by apply (bool_decide_unpack _)|]]. Qed.

Definition make_new (faulty : fault → key → bool) : res exn bool * world :=
  make_module by_length faulty sample_str sample_cwd (abs_path [str "ns"; str "contrib"]) (str "new") sample_world.

Lemma make_module_all_or_nothing_witness :
  (∃ r w', make_new full_disk = (r, w') ∧
     (r = Ok false → get_node (fs w') [str "ns"; str "contrib"; str "new"; str "model"] = None)) ∧
  fst (make_new full_disk) = Ok false ∧ fst (make_new no_fault) = Ok true.
Proof.
  split; [|split; vm_compute; reflexivity].
  destruct (make_module_all_or_nothing by_length full_disk sample_str sample_cwd [str "contrib"] (str "new") sample_world
    sample_cwd_plain) as (r & w' & E & _ & _ & _ & Hr & _);
    [apply Forall_cons; split; [exact plain_contrib|apply Forall_nil; exact I]|vm_compute; reflexivity|exact sample_wf|].
  exists r, w'. split; [exact E|]. intros ->. exact (Hr ltac:(vm_compute; reflexivity) [str "model"]).
Defined.

(** When the file that could not be written cannot be removed either, the exception
    leaves the handler and a part of the module stays, which the next run takes for a
    module that exists. *)
Definition stuck_disk (f : fault) (k : key) : bool :=
  match f with AtWrite | AtRemove => bool_decide (last k = Some (str "new.h")) | _ => false end.
Example half_a_module :
  fst (make_new stuck_disk) = Raise OSError ∧
  map (get_node (fs (snd (make_new stuck_disk))))
    (map (app [str "ns"; str "contrib"; str "new"]) [[]; [str "model"]; [str "model"; str "new.h"]; [str "test"]]) =
  [Some Dir; Some Dir; Some (File []); None] ∧
  fst (make_module by_length no_fault sample_str sample_cwd (abs_path [str "ns"; str "contrib"]) (str "new")
    (snd (make_new stuck_disk))) = Ok false.
Proof. vm_compute. done. Qed.

Definition sample_names : list pystr := [str "foo-bar"; str "src/m1"].
Definition sample_targets : list (pystr * pystr) := [(str "contrib", str "foo-bar"); (str "src", str "m1")].
Lemma sample_named : Forall2 (λ n t, names_module n t.1 t.2) sample_names sample_targets.
Proof.
  apply Forall2_cons; split; [apply bare_name; by vm_compute|].
  apply Forall2_cons; split; [apply (in_src (str "m1")); by vm_compute|]. by apply Forall2_nil.
Qed.

Lemma modules_created_witness :
  ∃ w', run by_length no_fault sample_str sample_cwd (Args [] sample_names) sample_world = (Ok 0, w') ∧
    is_Some (get_node (fs w') [str "ns"; str "src"; str "m1"; str "doc"; str "m1.rst"]) ∧
    get_node (fs w') [str "ns"; str "contrib"; str "old"] = Some Dir.
Proof.
  destruct (modules_created by_length no_fault sample_str sample_cwd sample_names sample_targets sample_world
    sample_cwd_plain sample_wf) as (w' & E & Hin & Hout).
  - intros f q. reflexivity.
  - repeat first [apply Forall_nil; exact I|apply Forall_cons; split; [vm_compute; reflexivity|]].
  - exact sample_named.
  - apply (bool_decide_unpack _). vm_compute. exact I.
  - repeat first [apply Forall_nil; exact I|apply Forall_cons; split; [vm_compute; reflexivity|]].
  - exists w'. split; [exact E|]. split.
    + pose proof (Hin (str "src", str "m1") [str "doc"; str "m1.rst"]) as Hd. cbn [fst snd] in Hd.
      refine (eq_ind_r is_Some _ (Hd ltac:(right; left))). vm_compute. eexists. reflexivity.
    + rewrite Hout; [vm_compute; reflexivity|].
      intros t [->|[->|H%elem_of_nil]%elem_of_cons]%elem_of_cons [r Hr]; [discriminate Hr|discriminate Hr|exact H].
Defined.

Lemma status_hides_failures_witness :
  ∃ w', run by_length full_disk sample_str sample_cwd (Args [] [str "old"; str "new"]) sample_world = (Ok 0, w') ∧
    fs w' = fs sample_world.
Proof.
  destruct (status_hides_failures by_length full_disk sample_str sample_cwd [str "old"; str "new"]
    [(str "contrib", str "old"); (str "contrib", str "new")] sample_world
    ltac:(intros f q [-> | [-> | ->]]; reflexivity) sample_cwd_plain sample_wf) as (w' & E & Hs).
  - repeat first [apply Forall_nil; exact I|apply Forall_cons; split; [vm_compute; reflexivity|]].
  - repeat first [apply Forall2_nil; exact I|apply Forall2_cons; split; [apply bare_name; by vm_compute|]].
  - exists w'. split; [exact E|]. apply (Hs (str "contrib", str "old")); [reflexivity|].
    vm_compute. discriminate.
Defined.

(** A newline at the end passes the check of names. *)
Example newline_accepted : allowedRE (str "new" ++ [newline]) = true.
Proof. reflexivity. Qed.

(** A module whose name starts with a digit declares a class that does. *)
Example digit_class :
  contains (str "class 3gppTestCase1 : public TestCase")
    (file_of TEST_CC_TEMPLATE [(str "MODULE", str "3gpp"); (str "CAPITALIZED", capitalized (split_char "-" (str "3gpp")));
       (str "COMPOUND", compound (split_char "-" (str "3gpp")))]) = true ∧ allowedRE (str "3gpp") = true.
Proof. split; vm_compute; reflexivity. Qed.

(** The directory alone is no module name; the exception ends the script with 1. *)
Example top_alone :
  fst (run by_length no_fault sample_str sample_cwd (Args [] [str "src/"]) sample_world) = Ok 1.
Proof. vm_compute. reflexivity. Qed.

(** In the help's own example the comma makes the second of three names invalid. *)
Example help_example_skips :
  let w' := snd (run by_length no_fault sample_str sample_cwd
    (Args [] [str "src/module1"; str "contrib/module2,"; str "module3"]) sample_world) in
  get_node (fs w') [str "ns"; str "contrib"; str "module2"] = None ∧
  get_node (fs w') [str "ns"; str "contrib"; str "module2,"] = None ∧
  get_node (fs w') [str "ns"; str "contrib"; str "module3"] = Some Dir.
Proof. vm_compute. split_and!; reflexivity. Qed.
