(* ===== verification/BindingScan.v ===== *)
(** * Scanning the headers for the Python bindings: bindings/python

    ns3modulescan.py and ns3modulescan-modular.py: which header a declaration
    is in, the hook that gives pybindgen annotations before it scans a
    declaration, with the table that both scanners share, the list of callback
    classes, and the sections of the whole-tree scanner, ordered by [topsort].
    What pygccxml knows about a declaration is a record; its functions on
    template names are parameters. *)
From Stdlib Require Import Ascii String.
From stdpp Require Import gmap.
From S2P Require Export TopSort CreateModule.
Open Scope Z_scope.

(** ** Headers *)

(** [os.path.split(p)] *)
Definition path_split (p : pystr) : pystr * pystr :=
  let tail := basename p in
  let head := take (length p - length tail) p in
  (if forallb (λ c, bool_decide (c = "/"%char)) head then head
   else rev (lstrip_slash (rev head)), tail).
Definition dirname (p : pystr) : pystr := (path_split p).1.

(** [os.path.join] applied to the elements of a list *)
Definition join_all (l : list pystr) : res exn pystr :=
  match l with [] => Raise TypeError | a :: l => Ok (foldl path_join a l) end.

(** The function of ns3modulescan.py.  [None]: the loop has not ended after
    [fuel] rounds. *)
Fixpoint scan_relative_loop (fuel : nat) (l : list pystr) (head : pystr) : option (res exn pystr) :=
  match fuel with
  | O => None
  | S fuel =>
      match head with
      | [] => Some (Raise AssertionError)
      | _ =>
          let '(head, tail) := path_split head in
          if bool_decide (tail = str "ns3") then Some (join_all l)
          else scan_relative_loop fuel (tail :: l) head
      end
  end.

(** The one of ns3modulescan-modular.py, which stops when [os.path.split] does
    not shorten the path. *)
Fixpoint relative_loop (fuel : nat) (l : list pystr) (head : pystr) : option (res exn pystr) :=
  match fuel with
  | O => None
  | S fuel =>
      match head with
      | [] => Some (Raise AssertionError)
      | _ =>
          let '(new_head, tail) := path_split head in
          if bool_decide (new_head = head) then Some (Raise ValueError)
          else if bool_decide (tail = str "ns3") then Some (join_all l)
          else relative_loop fuel (tail :: l) new_head
      end
  end.

(** Every round shortens the path, so the fuel is enough ([relative_ends]) and
    the default is not used. *)
Definition get_ns3_relative_path (path : pystr) : res exn (option pystr) :=
  match path with
  | [] => Ok None
  | _ => Some <$> default (Raise AssertionError) (relative_loop (S (length path)) [] path)
  end.

(** ** Annotations *)

(** Values of annotations; [params] has a dictionary per parameter. *)
Inductive aval : Type :=
  | ANone | ATrue | AStr (s : pystr) | AParams (ps : list (pystr * list (pystr * pystr))).
#[export] Instance aval_eq_dec : EqDecision aval.
Proof. solve_decision. Defined.

Definition annotations : Type := list (pystr * aval).

Definition not_owned (param : string) : annotations :=
  [(str "params", AParams [(str param, [(str "transfer_ownership", str "false")])])].
Definition ignored : annotations := [(str "ignore", ANone)].
Definition ignored_true : annotations := [(str "ignore", AStr (str "true"))].
Definition returned_not_owned : annotations :=
  [(str "params", AParams [(str "return", [(str "caller_owns_return", str "false")])])].
Definition narrowed : annotations :=
  [(str "automatic_type_narrowing", AStr (str "true")); (str "allow_subclassing", AStr (str "false"))].

Definition initial_annotations : list (pystr * annotations) := [
  (str "::ns3::AttributeChecker", narrowed);
  (str "::ns3::AttributeValue", narrowed);
  (str "::ns3::CommandLine", [(str "allow_subclassing", AStr (str "true"))]);
  (str "::ns3::NscTcpL4Protocol", ignored_true);
  (str "ns3::RandomVariable::RandomVariable(ns3::RandomVariableBase const & variable) [constructor]", ignored);
  (str "ns3::RandomVariableBase * ns3::RandomVariable::Peek() const [member function]", ignored);
  (str "void ns3::RandomVariable::GetSeed(uint32_t * seed) const [member function]",
    [(str "params", AParams [(str "seed", [(str "direction", str "out"); (str "array_length", str "6")])])]);
  (str "bool ns3::TypeId::LookupAttributeByName(std::string name, ns3::TypeId::AttributeInformation * info) const [member function]",
    not_owned "info");
  (str "static bool ns3::TypeId::LookupByNameFailSafe(std::string name, ns3::TypeId * tid) [member function]", ignored);
  (str "bool ns3::TraceSourceAccessor::ConnectWithoutContext(ns3::ObjectBase * obj, ns3::CallbackBase const & cb) const [member function]",
    not_owned "obj");
  (str "bool ns3::TraceSourceAccessor::Connect(ns3::ObjectBase * obj, std::string context, ns3::CallbackBase const & cb) const [member function]",
    not_owned "obj");
  (str "bool ns3::TraceSourceAccessor::DisconnectWithoutContext(ns3::ObjectBase * obj, ns3::CallbackBase const & cb) const [member function]",
    not_owned "obj");
  (str "bool ns3::TraceSourceAccessor::Disconnect(ns3::ObjectBase * obj, std::string context, ns3::CallbackBase const & cb) const [member function]",
    not_owned "obj");
  (str "bool ns3::AttributeAccessor::Set(ns3::ObjectBase * object, ns3::AttributeValue const & value) const [member function]",
    not_owned "object");
  (str "ns3::EmpiricalVariable::EmpiricalVariable(ns3::RandomVariableBase const & variable) [constructor]", ignored);
  (str "static ns3::AttributeList * ns3::AttributeList::GetGlobal() [member function]",
    [(str "caller_owns_return", AStr (str "false"))]);
  (str "void ns3::CommandLine::Parse(int argc, char * * argv) const [member function]", ignored);
  (str "extern void ns3::PythonCompleteConstruct(ns3::Ptr<ns3::Object> object, ns3::TypeId typeId, ns3::AttributeList const & attributes) [free function]", ignored);
  (str "ns3::Ptr<ns3::Ipv4RoutingProtocol> ns3::Ipv4ListRouting::GetRoutingProtocol(uint32_t index, int16_t & priority) const [member function]",
    [(str "params", AParams [(str "priority", [(str "direction", str "out")])])]);
  (str "ns3::Ipv4RoutingTableEntry * ns3::GlobalRouter::GetInjectedRoute(uint32_t i) [member function]", returned_not_owned);
  (str "ns3::Ipv4RoutingTableEntry * ns3::Ipv4GlobalRouting::GetRoute(uint32_t i) const [member function]", returned_not_owned);
  (str "::ns3::TestCase", ignored_true);
  (str "::ns3::TestRunner", ignored_true);
  (str "::ns3::TestSuite", ignored_true)].

(** ** Declarations and the state of a hook *)

Inductive decl_kind : Type :=
  | ClassDecl | EnumDecl | FreeFunction | MemberFunction | Constructor | OtherCalldef | OtherDecl.
#[export] Instance decl_kind_eq_dec : EqDecision decl_kind.
Proof. solve_decision. Defined.

(** What the hooks read: [location.file_name] (empty or [None]: empty), [name],
    [parent.name], [decl_string], [str(definition)] and [demangled_name]. *)
Record decl := MkDecl {
  decl_of : decl_kind; file_name : pystr; decl_name : pystr; parent_name : pystr;
  decl_string : pystr; decl_str : pystr; demangled_name : pystr }.

(** What a call of a hook changes: the table of the module, the dictionaries
    pybindgen hands it for this declaration, and the default values of its
    arguments. *)
Record scan := MkScan {
  type_annotations : list (pystr * annotations);
  global_annotations : annotations;
  parameter_annotations : list (pystr * list (pystr * pystr));
  default_values : list (option pystr) }.

Definition with_globals g s := MkScan (type_annotations s) g (parameter_annotations s) (default_values s).
Definition with_params p s := MkScan (type_annotations s) (global_annotations s) p (default_values s).
Definition with_table t s := MkScan t (global_annotations s) (parameter_annotations s) (default_values s).
Definition with_defaults a s := MkScan (type_annotations s) (global_annotations s) (parameter_annotations s) a.

(** [d.update(e)] *)
Definition dict_update {V} (e d : list (pystr * V)) : list (pystr * V) :=
  foldl (λ d kv, aset kv.1 kv.2 d) d e.

Definition annotate (k : string) (v : aval) : stm scan unit :=
  st_modify (λ s, with_globals (aset (str k) v (global_annotations s)) s).
Definition update_globals (a : annotations) : stm scan unit :=
  st_modify (λ s, with_globals (dict_update a (global_annotations s)) s).

(** [parameter_annotations.update(value)]: only a dictionary or an empty
    string has pairs to give. *)
Definition update_params (value : aval) : stm scan unit :=
  match value with
  | AParams ps => st_modify (λ s, with_params (dict_update ps (parameter_annotations s)) s)
  | AStr [] => mret tt
  | AStr _ => st_raise ValueError
  | _ => st_raise TypeError
  end.

(** [del annotations['params']], in the entry of the table itself *)
Definition del_params (key : pystr) : stm scan unit :=
  st_modify (λ s, with_table
    (match aget key (type_annotations s) with
     | Some a => aset key (adel (str "params") a) (type_annotations s)
     | None => type_annotations s end) s).
Definition entry (key : pystr) : stm scan (option annotations) :=
  s ← st_get; mret (aget key (type_annotations s)).

(** ** The hooks *)

Section hooks.
(** [templates.args], [templates.is_instantiation] and [templates.split] of
    pygccxml, and the file where the declaration with a name is found ([None]:
    what is found has no location). *)
Context (template_args : pystr → list pystr) (is_instantiation : pystr → bool)
  (template_split : pystr → pystr * list pystr) (find_location : pystr → option pystr).

(** [Object::GetObject], [Simulator::Schedule*] and [Simulator::Run]; the first
    is told by the template arguments of [shown]. *)
Definition member_rules (shown : pystr) (d : decl) : stm scan unit :=
  let member := bool_decide (decl_of d = MemberFunction) in
  _ ← st_when (member && bool_decide (parent_name d = str "Object")
               && bool_decide (decl_name d = str "GetObject"))
        (st_when (bool_decide (template_args shown = [str "ns3::Object"]))
           (annotate "template_instance_names" (AStr (str "ns3::Object=>GetObject"))));
  _ ← st_when (member && bool_decide (parent_name d = str "Simulator")
               && startswith (str "Schedule") (decl_name d))
        (annotate "ignore" ANone);
  st_when (member && bool_decide (parent_name d = str "Simulator")
           && bool_decide (decl_name d = str "Run"))
    (annotate "ignore" ATrue).

Definition is_calldef (k : decl_kind) : bool :=
  match k with FreeFunction | MemberFunction | Constructor | OtherCalldef => true | _ => false end.
Definition fix_default (v : option pystr) : option pystr :=
  match v with
  | None => None
  | Some v =>
      if bool_decide (v = str "ns3::MilliSeconds( )") then Some (str "ns3::MilliSeconds(0)")
      else if bool_decide (v = str "ns3::Seconds( )") then Some (str "ns3::Seconds(0)")
      else Some v
  end.
Definition default_rules (d : decl) : stm scan unit :=
  st_when (is_calldef (decl_of d))
    (st_modify (λ s, with_defaults (map fix_default (default_values s)) s)).

(** The rules for classes; the result says that the hook returns. *)
Definition class_rules (d : decl) : stm scan bool :=
  if startswith (str "::ns3::SimpleRefCount<") (decl_string d) then
    _ ← annotate "incref_method" (AStr (str "Ref"));
    _ ← annotate "decref_method" (AStr (str "Unref"));
    _ ← annotate "peekref_method" (AStr (str "GetReferenceCount"));
    _ ← annotate "automatic_type_narrowing" (AStr (str "true"));
    mret true
  else if startswith (str "::ns3::Callback<") (decl_string d) then
    _ ← annotate "ignore" ANone; mret true
  else if startswith (str "::ns3::TracedCallback<") (decl_string d) then
    _ ← annotate "ignore" ANone; mret true
  else if startswith (str "::ns3::Ptr<") (decl_string d) then
    _ ← annotate "ignore" ANone; mret true
  else
    e ← entry (decl_string d);
    _ ← match e with Some a => update_globals a | None => mret tt end;
    mret false.

Definition in_table (k : decl_kind) : bool :=
  match k with FreeFunction | MemberFunction | Constructor => true | _ => false end.

(** The table of functions, over a copy of the items of the entry. *)
Definition function_rules (d : decl) : stm scan unit :=
  st_when (in_table (decl_of d)) (
    e ← entry (decl_str d);
    match e with
    | None => mret tt
    | Some a =>
        _ ← st_for (λ kv, st_when (bool_decide (kv.1 = str "params"))
                            (_ ← update_params kv.2; del_params (decl_str d))) a;
        e ← entry (decl_str d);
        update_globals (default [] e)
    end).

(** The module of a template instance: this one, if it has an argument from
    here. *)
Definition argument_module (headers_map : list (pystr * pystr)) (templ : pystr) : res exn (option pystr) :=
  match find_location templ with
  | None => Ok None
  | Some f =>
      match get_ns3_relative_path f with
      | Raise ValueError => Ok None
      | Raise e => Raise e
      | Ok None => Raise KeyError
      | Ok (Some h) => Some <$> res_of_option KeyError (aget h headers_map)
      end
  end.
Definition template_module (headers_map : list (pystr * pystr)) (module : pystr) (d : decl)
    (definition_module : pystr) : res exn pystr :=
  if is_instantiation (decl_string d) then
    modules ← mapM_res (argument_module headers_map) (template_split (decl_name d)).2;
    mret (if bool_decide (Some module ∈ modules) then module else definition_module)
  else mret definition_module.

(** [PreScanHook(headers_map, module)] called on a declaration *)
Definition PreScanHook (headers_map : list (pystr * pystr)) (module : pystr) (d : decl) : stm scan unit :=
  match get_ns3_relative_path (file_name d) with
  | Raise ValueError | Ok None | Ok (Some []) => mret tt
  | Raise e => st_raise e
  | Ok (Some ns3_header) =>
      definition_module ← st_lift (res_of_option KeyError (aget ns3_header headers_map));
      _ ← annotate "pygen_comment" (AStr (ns3_header ++ str " (module " ++ str_repr definition_module
            ++ str "): " ++ decl_str d));
      _ ← member_rules (decl_str d) d;
      _ ← default_rules d;
      let is_class := bool_decide (decl_of d = ClassDecl) in
      definition_module ← (if is_class then st_lift (template_module headers_map module d definition_module)
                           else mret definition_module);
      let elsewhere := negb (bool_decide (definition_module = module)) in
      _ ← st_when (is_class && elsewhere)
            (annotate "import_from_module" (AStr (str "ns." ++ dashes_to_underscores definition_module)));
      returned ← (if is_class then class_rules d else mret false);
      if (returned : bool) then mret tt else
      _ ← st_when (bool_decide (decl_of d = EnumDecl) && elsewhere)
            (annotate "import_from_module" (AStr (str "ns." ++ definition_module)));
      if bool_decide (decl_of d = FreeFunction) && (elsewhere || bool_decide (decl_name d = str "PeekPointer"))
      then annotate "ignore" ANone
      else function_rules d
  end.

(** The function table in ns3modulescan.py: the loop is over the entry itself,
    which Python 3 refuses to continue once a key has been deleted. *)
Fixpoint live_items (key : pystr) (l : annotations) : stm scan unit :=
  match l with
  | [] => mret tt
  | (k, value) :: l =>
      if bool_decide (k = str "params") then
        _ ← update_params value; _ ← del_params key; st_raise RuntimeError
      else live_items key l
  end.
Definition scan_function_rules (d : decl) : stm scan unit :=
  st_when (in_table (decl_of d)) (
    e ← entry (decl_str d);
    match e with
    | None => mret tt
    | Some a =>
        _ ← live_items (decl_str d) a;
        e ← entry (decl_str d);
        update_globals (default [] e)
    end).

(** [pre_scan_hook] of ns3modulescan.py; [None]: the header is not found in
    [fuel] rounds. *)
Definition pre_scan_hook (fuel : nat) (d : decl) : option (stm scan unit) :=
  r ← scan_relative_loop fuel [] (file_name d);
  Some (
    ns3_header ← st_lift r;
    _ ← annotate "pygen_comment" (AStr (ns3_header ++ str ": " ++ decl_str d));
    _ ← member_rules (demangled_name d) d;
    _ ← default_rules d;
    returned ← (if bool_decide (decl_of d = ClassDecl) then class_rules d else mret false);
    if (returned : bool) then mret tt
    else if bool_decide (decl_of d = FreeFunction) && bool_decide (decl_name d = str "PeekPointer")
    then annotate "ignore" ANone
    else scan_function_rules d).

(** [repr] of a list of strings *)
Definition list_repr (l : list pystr) : pystr :=
  str "[" ++ join (str ", ") (map str_repr l) ++ str "]".

(** [scan_callback_classes], on the name and the declaration string of each
    class; the state is what the file holds. *)
Definition scan_callback_classes (classes : list (pystr * pystr)) : stm pystr unit :=
  _ ← st_modify (λ out, out ++ str "callback_classes = [" ++ [newline]);
  _ ← st_for (λ '(name, decl_string),
        if negb (startswith (str "Callback<") name) then mret tt
        else if negb (is_instantiation decl_string) then st_raise AssertionError
        else st_modify (λ out, out ++ str "    " ++ list_repr (template_split decl_string).2
                                 ++ str "," ++ [newline])) classes;
  st_modify (λ out, out ++ str "]" ++ [newline]).
End hooks.

(** The header a module is scanned from: its scan-header.h, or one of the two
    places of its own header. *)
Definition scan_header (exists_ : pystr → bool) (top_builddir module_name output_file_name : pystr) : pystr :=
  let own := path_join (dirname output_file_name) (str "scan-header.h") in
  let first := path_join (path_join top_builddir (str "ns3")) (module_name ++ str "-module.h") in
  let second := path_join (path_join (path_join top_builddir (str "include")) (str "ns3"))
                  (module_name ++ str "-module.h") in
  let h := if exists_ own then own else first in
  if exists_ h then h else second.

(** ** The sections of the whole-tree scanner *)

Definition classify (headers_map : list (pystr * pystr)) (d : decl) : pystr :=
  default (str "__main__") (aget (basename (file_name d)) headers_map).
Definition get_section_precedence (section_precendences : list (pystr * Z)) (section_name : pystr) : res exn Z :=
  if bool_decide (section_name = str "__main__") then Ok (-1)
  else res_of_option KeyError (aget section_name section_precendences).

(** [ns3_modules]: the dependencies and the headers of every module. *)
Definition modules : Type := list (pystr * (list pystr * list pystr)).

Definition module_edges (ns3_modules : modules) (name : pystr) : list (pystr * pystr) :=
  map (λ dep, (dep, name)) (py_sort (default [] (fst <$> aget name ns3_modules))).
Definition module_graph (ns3_modules : modules) : list (pystr * pystr) :=
  concat (map (module_edges ns3_modules) (py_sort ns3_modules.*1)).

Definition section_name (ns3_module : pystr) : pystr :=
  str "ns3_module_" ++ dashes_to_underscores ns3_module.

(** Name, file and local name of a [PygenSection]. *)
Record plan := MkPlan {
  sections : list (pystr * pystr * option pystr);
  headers_map : list (pystr * pystr);
  section_precendences : list (pystr * Z) }.

Definition add_section (pygen_file_name : pystr) (ns3_modules : modules) (p : plan) (m : nat * pystr) : res exn plan :=
  let '(prec, ns3_module) := m in
  let section := section_name ns3_module in
  let file_name := path_join (dirname pygen_file_name) (section ++ str ".py") in
  entry ← res_of_option KeyError (aget ns3_module ns3_modules);
  mret (MkPlan (sections p ++ [(section, file_name, Some (section ++ str "__local"))])
          (foldl (λ hm header, aset header section hm) (headers_map p) entry.2)
          (aset section (Z.of_nat prec) (section_precendences p))).

(** What goes wrong: an exception, or one of [topsort]. *)
Definition scan_error : Type := exn + topsort_error pystr (PyDict pystr).

(** The first half of [ns3_module_scan]; the keys of a dictionary can be sorted
    in place in Python 2 only.  [None] would be a [topsort] that does not end. *)
Definition plan_sections (python2 : bool) (pygen_file_name : pystr) (ns3_modules : modules) :
    option (res scan_error plan) :=
  if negb python2 then Some (Raise (inl AttributeError)) else
  sorted ← topsort (D := PyDict pystr) (module_graph ns3_modules);
  Some (match sorted with
        | Raise e => Raise (inr e)
        | Ok sorted_ns3_modules =>
            match fold_res (add_section pygen_file_name ns3_modules)
                    (MkPlan [(str "__main__", pygen_file_name, None)] [] [])
                    (imap pair sorted_ns3_modules) with
            | Raise e => Raise (inl e)
            | Ok p => Ok p
            end
        end).

(** ** Lemmas: paths *)

Lemma lstrip_slash_suffix s : ∃ t, s = t ++ lstrip_slash s.
Proof.
  induction s as [|c s [t IH]]; [by exists []|]. cbn. case_decide; [|by exists []].
  exists (c :: t). cbn. by f_equal.
Qed.

Lemma path_split_prefix p : ∃ t, p = (path_split p).1 ++ t.
Proof.
  unfold path_split. cbn [fst]. set (n := (length p - length (basename p))%nat).
  destruct (forallb _ _); [exists (drop n p); by rewrite take_drop|].
  destruct (lstrip_slash_suffix (rev (take n p))) as [t Ht].
  exists (rev t ++ drop n p). rewrite app_assoc, <-rev_app_distr, <-Ht, rev_involutive.
  by rewrite take_drop.
Qed.

Lemma path_split_shorter p : (path_split p).1 ≠ p → (length (path_split p).1 < length p)%nat.
Proof.
  intros Hne. destruct (path_split_prefix p) as [t Ht]. destruct t as [|c t].
  - by rewrite app_nil_r in Ht.
  - rewrite Ht at 2. rewrite length_app. cbn. lia.
Qed.

Lemma relative_ends fuel l head : (length head < fuel)%nat → is_Some (relative_loop fuel l head).
Proof.
  revert l head. induction fuel as [|fuel IH]; intros l head Hf; [lia|]. cbn [relative_loop].
  destruct head as [|c head]; [eauto|].
  pose proof (path_split_shorter (c :: head)) as Hs. destruct (path_split _) as [new tail]. cbn [fst] in Hs.
  case_bool_decide as Heq; [eauto|]. specialize (Hs Heq). case_bool_decide; [eauto|].
  apply IH. lia.
Qed.

Lemma forallb_slash_abs cs : Forall slashless cs → cs ≠ [] →
  forallb (λ c, bool_decide (c = "/"%char)) (path_str (abs_path cs) ++ str "/") = false.
Proof.
  intros Hcs Hne. destruct cs as [|c cs]; [done|]. apply Forall_cons in Hcs as [[Hc Hs] _].
  destruct c as [|a c]; [done|]. rewrite abs_path_str.
  apply not_true_iff_false. rewrite forallb_forall. intros Hall.
  apply Hs. replace "/"%char with a; [left|].
  apply (bool_decide_eq_true (a = "/"%char)), Hall. right. destruct cs; left; done.
Qed.

Lemma slashless_rev c : slashless c → ∃ a s, rev c = a :: s ∧ a ≠ "/"%char.
Proof.
  intros [Hne Hs]. destruct (rev c) as [|a s] eqn:Hr.
  - destruct Hne. by rewrite <-(rev_involutive c), Hr.
  - exists a, s. split; [done|]. intros ->. apply Hs. rewrite <-(rev_involutive c), Hr.
    apply elem_of_app. right. left.
Qed.

Lemma abs_path_snoc cs c : path_str (abs_path (cs ++ [c])) =
  (if decide (cs = []) then str "/" else path_str (abs_path cs) ++ str "/") ++ c.
Proof.
  rewrite !abs_path_str, join_snoc. destruct cs as [|d cs]; [done|].
  rewrite decide_False by done. by rewrite <-!(assoc_L (++)).
Qed.

Lemma path_split_abs cs c : Forall slashless cs → slashless c →
  path_split (path_str (abs_path (cs ++ [c]))) = (path_str (abs_path cs), c).
Proof.
  intros Hcs [Hne Hc]. rewrite abs_path_snoc.
  set (h := if decide (cs = []) then str "/" else path_str (abs_path cs) ++ str "/").
  assert (∃ g, h = g ++ str "/") as [g Hg] by (subst h; case_decide; [by exists []|eauto]).
  assert (basename (h ++ c) = c) as Hb.
  { unfold basename. rewrite Hg, <-app_assoc. cbn [str app String.list_ascii_of_string].
    rewrite split_char_app_sep, (split_char_no _ c) by done. by rewrite last_snoc. }
  unfold path_split. rewrite Hb, length_app.
  replace (length h + length c - length c)%nat with (length h) by lia. rewrite take_app_length.
  f_equal. subst h. case_decide as Hd; [by subst|]. rewrite forallb_slash_abs by done.
  rewrite rev_app_distr. cbn [str rev app String.list_ascii_of_string lstrip_slash].
  rewrite decide_True by done.
  destruct cs as [|b bs _] using rev_ind; [done|].
  apply Forall_app in Hcs as [_ [Hb' _]%Forall_cons]. rewrite abs_path_snoc, rev_app_distr.
  destruct (slashless_rev b Hb') as (a & s & Hr & Ha). rewrite Hr. cbn [app].
  rewrite lstrip_slash_id by (intros t [= ->]; done).
  change (a :: s ++ ?t) with ((a :: s) ++ t). rewrite <-Hr, rev_app_distr, !rev_involutive.
  done.
Qed.

Lemma abs_path_cons cs : ∃ s, path_str (abs_path cs) = "/"%char :: s.
Proof. rewrite abs_path_str. cbn. eauto. Qed.

Lemma abs_path_snoc_ne cs c : slashless c → path_str (abs_path cs) ≠ path_str (abs_path (cs ++ [c])).
Proof.
  intros [Hc _] He%(f_equal length). rewrite abs_path_snoc, length_app in He.
  destruct c; [done|]. case_decide; subst; cbn in He; [|rewrite length_app in He; cbn in He]; lia.
Qed.

(** One round of the two loops on an absolute path. *)
Lemma relative_round fuel l cs c : Forall slashless cs → slashless c →
  relative_loop (S fuel) l (path_str (abs_path (cs ++ [c]))) =
    (if decide (c = str "ns3") then Some (join_all l)
     else relative_loop fuel (c :: l) (path_str (abs_path cs))) ∧
  scan_relative_loop (S fuel) l (path_str (abs_path (cs ++ [c]))) =
    (if decide (c = str "ns3") then Some (join_all l)
     else scan_relative_loop fuel (c :: l) (path_str (abs_path cs))).
Proof.
  intros Hcs Hc. pose proof (path_split_abs cs c Hcs Hc) as Hp.
  pose proof (abs_path_snoc_ne cs c Hc) as Hne.
  destruct (abs_path_cons (cs ++ [c])) as [s Hs]. rewrite Hs in *.
  cbn [relative_loop scan_relative_loop]. rewrite Hp, bool_decide_eq_false_2 by done.
  by repeat case_bool_decide; repeat case_decide.
Qed.

Lemma relative_loops_below fuel l cs ds : Forall slashless cs → Forall slashless ds →
  str "ns3" ∉ ds → (length ds < fuel)%nat →
  relative_loop fuel l (path_str (abs_path (cs ++ str "ns3" :: ds))) = Some (join_all (ds ++ l)) ∧
  scan_relative_loop fuel l (path_str (abs_path (cs ++ str "ns3" :: ds))) = Some (join_all (ds ++ l)).
Proof.
  intros Hcs. revert fuel l.
  assert (slashless (str "ns3")) as Hns by (split; [done|by apply (bool_decide_unpack _)]).
  induction ds as [|d ds IH] using rev_ind; intros [|fuel] l Hds Hno Hf; try lia.
  - destruct (relative_round fuel l cs (str "ns3") Hcs Hns) as [-> ->]. by rewrite decide_True.
  - rewrite length_app in Hf. cbn in Hf. apply Forall_app in Hds as [Hds [Hd _]%Forall_cons].
    rewrite app_comm_cons, (assoc_L (++)).
    destruct (relative_round fuel l (cs ++ str "ns3" :: ds) d) as [-> ->]; [|done|].
    { apply Forall_app. split; [done|]. by apply Forall_cons. }
    rewrite !decide_False by (intros ->; apply Hno; set_solver).
    rewrite <-(assoc_L (++)). apply IH; [done| |lia]. intros Hin. apply Hno. set_solver.
Qed.

Lemma relative_loops_foreign cs : Forall slashless cs → str "ns3" ∉ cs →
  (∀ fuel l, (length cs < fuel)%nat →
     relative_loop fuel l (path_str (abs_path cs)) = Some (Raise ValueError)) ∧
  ∀ fuel l, scan_relative_loop fuel l (path_str (abs_path cs)) = None.
Proof.
  induction cs as [|c cs IH] using rev_ind; intros Hcs Hno.
  - split; [by intros [|fuel] l ?; [lia|]|]. intros fuel. induction fuel as [|fuel IH]; intros l; [done|].
    apply IH.
  - apply Forall_app in Hcs as [Hcs [Hc _]%Forall_cons].
    destruct IH as [IH1 IH2]; [done|set_solver|].
    assert (c ≠ str "ns3") by (intros ->; apply Hno; set_solver).
    split; intros [|fuel] l; rewrite ?length_app; cbn [length]; try lia; intros; [|done|].
    + rewrite (proj1 (relative_round fuel l cs c Hcs Hc)), decide_False by done. apply IH1. lia.
    + rewrite (proj2 (relative_round fuel l cs c Hcs Hc)), decide_False by done. apply IH2.
Qed.

Lemma join_all_slashless ds : Forall slashless ds → ds ≠ [] → join_all ds = Ok (join (str "/") ds).
Proof.
  destruct ds as [|a ds]; [done|]. intros [Ha Hds]%Forall_cons _. cbn [join_all]. f_equal.
  destruct (slashless_rev a Ha) as (z & s & Hz & Hsl).
  assert (∃ z s, rev a = z :: s ∧ z ≠ "/"%char) as Hend by eauto. clear Hz Hsl.
  assert (a ≠ []) as Hne by apply Ha. clear Ha. revert a Hend Hne.
  induction Hds as [|d ds Hd Hds IH]; intros a Hend Hne; [done|]. cbn [foldl].
  assert (path_join a d = a ++ str "/" ++ d) as ->.
  { unfold path_join. destruct d as [|e d]; [by destruct Hd|].
    replace (startswith (str "/") (e :: d)) with false.
    2: { symmetry. cbn. rewrite bool_decide_eq_false_2; [done|]. intros <-. apply Hd. left. }
    destruct Hend as (z' & s' & Hr & Hz'). unfold endswith. rewrite Hr. cbn.
    rewrite (bool_decide_eq_false_2 (a = [])) by done.
    rewrite bool_decide_eq_false_2 by (intros <-; done). done. }
  rewrite IH; [destruct ds; cbn [join]; by rewrite <-?(assoc_L (++))| |by destruct a].
  destruct (slashless_rev d Hd) as (y & t & Hr & Hy). exists y, (t ++ rev (a ++ str "/")). split; [|done].
  by rewrite (assoc_L (++)), rev_app_distr, Hr.
Qed.

Lemma abs_path_length cs : (length cs ≤ length (path_str (abs_path cs)))%nat.
Proof.
  induction cs as [|c cs IH] using rev_ind; [cbn; lia|]. rewrite abs_path_snoc, !length_app.
  case_decide; subst; rewrite ?length_app; change (length (str "/")) with 1%nat; cbn [length]; lia.
Qed.

(** Both scanners find the header of a file below a directory ns3: what follows
    the last such directory. *)
Theorem header_found cs ds : Forall slashless cs → Forall slashless ds → ds ≠ [] → str "ns3" ∉ ds →
  let path := path_str (abs_path (cs ++ str "ns3" :: ds)) in
  get_ns3_relative_path path = Ok (Some (join (str "/") ds)) ∧
  scan_relative_loop (S (length path)) [] path = Some (Ok (join (str "/") ds)).
Proof.
  intros Hcs Hds Hne Hno path.
  pose proof (abs_path_length (cs ++ str "ns3" :: ds)) as Hlen. rewrite length_app in Hlen. cbn in Hlen.
  destruct (relative_loops_below (S (length path)) [] cs ds Hcs Hds Hno) as [H1 H2]; [subst path; cbn; lia|].
  fold path in H1, H2. rewrite app_nil_r, join_all_slashless in H1, H2 by done.
  split; [|done]. unfold get_ns3_relative_path. destruct (abs_path_cons (cs ++ str "ns3" :: ds)) as [s Hs].
  fold path in Hs. rewrite Hs in *. rewrite H1. done.
Qed.

(** On the path of a file that is not below a directory ns3 the modular scanner
    raises [ValueError], and the loop of the other one never ends. *)
Theorem foreign_header cs : Forall slashless cs → str "ns3" ∉ cs →
  let path := path_str (abs_path cs) in
  get_ns3_relative_path path = Raise ValueError ∧ ∀ fuel, scan_relative_loop fuel [] path = None.
Proof.
  intros Hcs Hno path. destruct (relative_loops_foreign cs Hcs Hno) as [H1 H2]. split; [|intros; apply H2].
  pose proof (abs_path_length cs) as Hlen. fold path in H1, Hlen.
  unfold get_ns3_relative_path. destruct (abs_path_cons cs) as [s Hs]. fold path in Hs. rewrite Hs in *.
  rewrite H1 by lia. done.
Qed.

(** ** Lemmas: annotations *)

Lemma aget_dict_update {V} k (e d : list (pystr * V)) : NoDup e.*1 →
  aget k (dict_update e d) = match aget k e with Some v => Some v | None => aget k d end.
Proof.
  unfold dict_update. revert d. induction e as [|[k0 v0] e IH]; intros d; [done|].
  intros [Hk0 Hnd]%NoDup_cons. cbn [foldl fst snd]. rewrite IH, aget_aset by done. cbn [aget].
  destruct (decide (k = k0)) as [->|Hne]; [|done].
  destruct (aget k0 e) eqn:He; [|done]. destruct Hk0. apply aget_keys. eauto.
Qed.

(** What the hook leaves of an entry, and what it takes from it. *)
Definition is_params (v : aval) : Prop := match v with AParams _ => True | _ => False end.
Definition entry_ok (a : annotations) : Prop :=
  NoDup a.*1 ∧ ∀ v, aget (str "params") a = Some v → is_params v.
Definition params_of (a : annotations) : list (pystr * list (pystr * pystr)) :=
  match aget (str "params") a with Some (AParams ps) => ps | _ => [] end.
Definition take_params (key : pystr) (a : annotations) (s : scan) : scan :=
  match aget (str "params") a with
  | Some (AParams ps) =>
      MkScan (match aget key (type_annotations s) with
              | Some b => aset key (adel (str "params") b) (type_annotations s)
              | None => type_annotations s end)
        (global_annotations s) (dict_update ps (parameter_annotations s)) (default_values s)
  | _ => s
  end.

Lemma params_loop key a s : entry_ok a →
  st_for (λ kv : pystr * aval, st_when (bool_decide (kv.1 = str "params"))
            (_ ← update_params kv.2; del_params key)) a s = (Ok tt, take_params key a s).
Proof.
  intros [Hnd Hty]. revert s. unfold take_params.
  assert (∀ b s, str "params" ∉ b.*1 →
    st_for (λ kv : pystr * aval, st_when (bool_decide (kv.1 = str "params"))
            (_ ← update_params kv.2; del_params key)) b s = (Ok tt, s)) as Hskip.
  { induction b as [|[k v] b IH]; intros s Hb; [done|]. cbn [st_for fst].
    rewrite bool_decide_eq_false_2 by (cbn in Hb; set_solver). apply IH. cbn in Hb. set_solver. }
  induction a as [|[k v] a IH]; intros s; [done|]. apply NoDup_cons in Hnd as [Hk Hnd].
  cbn [st_for fst snd aget] in *. destruct (decide (str "params" = k)) as [<-|Hne].
  - rewrite bool_decide_eq_true_2 by done. specialize (Hty v eq_refl). destruct v as [| | |ps]; try done.
    unfold mbind, stm_bind. cbn [st_when update_params st_modify del_params]. by rewrite Hskip.
  - rewrite bool_decide_eq_false_2 by done. apply IH; done.
Qed.

Lemma live_loop key a s : entry_ok a → str "params" ∈ a.*1 →
  live_items key a s = (Raise RuntimeError, take_params key a s).
Proof.
  intros [Hnd Hty] Hin. unfold take_params. induction a as [|[k v] a IH]; [by apply elem_of_nil in Hin|].
  apply NoDup_cons in Hnd as [Hk Hnd]. cbn [live_items aget fst] in *.
  destruct (decide (str "params" = k)) as [<-|Hne].
  - rewrite bool_decide_eq_true_2 by done. specialize (Hty v eq_refl). by destruct v.
  - rewrite bool_decide_eq_false_2 by done. apply IH; [done|done|]. cbn in Hin. set_solver.
Qed.

Section hook_facts.
Context (template_args : pystr → list pystr) (is_instantiation : pystr → bool)
  (template_split : pystr → pystr * list pystr) (find_location : pystr → option pystr).

(** A step that only adds annotations, and not the one that imports. *)
Definition import_key : pystr := str "import_from_module".
Definition adds (m : stm scan unit) : Prop :=
  ∀ s, ∃ g, m s = (Ok tt, with_globals g s) ∧ aget import_key g = aget import_key (global_annotations s).

Lemma adds_annotate k v : import_key ≠ str k → adds (annotate k v).
Proof. intros Hk s. eexists. split; [done|]. by rewrite aget_aset, decide_False. Qed.
Lemma adds_nothing : adds (mret tt).
Proof. intros s. exists (global_annotations s). by destruct s. Qed.
Lemma adds_when b m : adds m → adds (st_when b m).
Proof. destruct b; [done|]. intros _. apply adds_nothing. Qed.
Lemma adds_seq m n : adds m → adds n → adds (_ ← m; n).
Proof.
  intros Hm Hn s. destruct (Hm s) as (g & Hg & Ha). destruct (Hn (with_globals g s)) as (g' & Hg' & Ha').
  exists g'. unfold mbind, stm_bind. rewrite Hg, Hg'. split; [done|]. exact (eq_trans Ha' Ha).
Qed.
Lemma adds_globals a : NoDup a.*1 → aget import_key a = None → adds (update_globals a).
Proof. intros Hnd Ha s. eexists. split; [done|]. by rewrite aget_dict_update, Ha by done. Qed.

Lemma member_rules_adds shown d : adds (member_rules template_args shown d).
Proof.
  unfold member_rules.
  repeat first [apply adds_seq | apply adds_when | by apply adds_annotate; by_decision].
Qed.

Lemma default_rules_ok d s : ∃ v, default_rules d s = (Ok tt, with_defaults v s).
Proof.
  unfold default_rules. destruct (is_calldef _); [by eexists|]. exists (default_values s). by destruct s.
Qed.

(** What the hook does up to the rules for classes, enumerations and functions. *)
Lemma hook_prefix shown d text s :
  ∃ g v, (∀ A (m : stm scan A), (_ ← annotate "pygen_comment" text; _ ← member_rules template_args shown d; _ ← default_rules d; m) s
         = m (with_defaults v (with_globals g s))) ∧
    aget import_key g = aget import_key (global_annotations s).
Proof.
  destruct (member_rules_adds shown d (with_globals (aset (str "pygen_comment") text (global_annotations s)) s))
    as (g & Hg & Ha).
  destruct (default_rules_ok d (with_globals g s)) as [v Hv]. exists g, v. split.
  - intros A m. unfold mbind, stm_bind. cbn [annotate st_modify].
    rewrite Hg. change (with_globals g (with_globals ?x s)) with (with_globals g s). by rewrite Hv.
  - rewrite Ha. cbn [global_annotations with_globals]. by rewrite aget_aset, decide_False by by_decision.
Qed.

(** The entry that is left, which is what goes to the globals. *)
Lemma take_params_entry key a s : aget key (type_annotations s) = Some a → entry_ok a →
  ∃ b, aget key (type_annotations (take_params key a s)) = Some b ∧ NoDup b.*1 ∧
    ∀ k, aget k b = aget k (adel (str "params") a).
Proof.
  intros Ha [Hnd Hty]. unfold take_params.
  destruct (aget (str "params") a) as [v|] eqn:Hp.
  - specialize (Hty v eq_refl). destruct v; try done. cbn [type_annotations]. rewrite Ha.
    exists (adel (str "params") a). rewrite aget_aset, decide_True by done.
    split_and!; [done|by apply adel_nodup|done].
  - exists a. split_and!; [done|done|]. intros k. rewrite aget_adel. case_decide; congruence.
Qed.
Lemma take_params_frame key a s :
  global_annotations (take_params key a s) = global_annotations s ∧
  (entry_ok a → parameter_annotations (take_params key a s)
                = dict_update (params_of a) (parameter_annotations s)) ∧
  ∀ k, k ≠ key → aget k (type_annotations (take_params key a s)) = aget k (type_annotations s).
Proof.
  unfold take_params, params_of. split_and!.
  - by destruct (aget (str "params") a) as [[]|].
  - intros [_ Hty]. by destruct (aget (str "params") a) as [[]|].
  - intros k Hk. destruct (aget (str "params") a) as [[]|]; try done. cbn.
    destruct (aget key _); [|done]. by rewrite aget_aset, decide_False.
Qed.

Lemma entry_step key s : entry key s = (Ok (aget key (type_annotations s)), s).
Proof. done. Qed.

Lemma function_rules_ok d a s : in_table (decl_of d) = true →
  aget (decl_str d) (type_annotations s) = Some a → entry_ok a →
  ∃ g, function_rules d s = (Ok tt, with_globals g (take_params (decl_str d) a s)) ∧
    ∀ k, aget k g = match aget k (adel (str "params") a) with Some v => Some v
                    | None => aget k (global_annotations s) end.
Proof.
  intros Hk Ha Hok. destruct (take_params_entry _ _ _ Ha Hok) as (b & Hb & Hnd & Heq).
  exists (dict_update b (global_annotations s)). split.
  - unfold function_rules. rewrite Hk. cbn [st_when].
    rewrite (st_bind_step _ _ _ _ _ (entry_step _ _)), Ha.
    rewrite (st_bind_step _ _ _ _ _ (params_loop _ a s Hok)).
    rewrite (st_bind_step _ _ _ _ _ (entry_step _ _)), Hb. cbn [default update_globals].
    unfold update_globals, st_modify. by rewrite (proj1 (take_params_frame _ _ _)).
  - intros k. by rewrite aget_dict_update, Heq by done.
Qed.

(** The rules for a class leave the import alone. *)
Lemma class_rules_adds d s :
  (∀ a, aget (decl_string d) (type_annotations s) = Some a → NoDup a.*1 ∧ aget import_key a = None) →
  ∃ r g, class_rules d s = (Ok r, with_globals g s) ∧ aget import_key g = aget import_key (global_annotations s).
Proof.
  intros Htab. unfold class_rules.
  assert (∀ (m : stm scan unit) (r : bool), adds m → ∃ r' g, (_ ← m; mret r) s = (Ok r', with_globals g s) ∧
    aget import_key g = aget import_key (global_annotations s)) as Hret.
  { intros m r Hm. destruct (Hm s) as (g & Hg & Ha). exists r, g. by rewrite (st_bind_step _ _ _ _ _ Hg). }
  repeat case_match.
  - destruct (adds_seq _ _ (adds_annotate "incref_method" (AStr (str "Ref")) ltac:(by_decision))
      (adds_seq _ _ (adds_annotate "decref_method" (AStr (str "Unref")) ltac:(by_decision))
      (adds_seq _ _ (adds_annotate "peekref_method" (AStr (str "GetReferenceCount")) ltac:(by_decision))
      (adds_annotate "automatic_type_narrowing" (AStr (str "true")) ltac:(by_decision)))) s) as (g & Hg & Ha).
    exists true, g. split; [|done]. injection Hg as <-. done.
  - by apply Hret, adds_annotate; by_decision.
  - by apply Hret, adds_annotate; by_decision.
  - by apply Hret, adds_annotate; by_decision.
  - rewrite (st_bind_step _ _ _ _ _ (entry_step _ _)). apply Hret.
    destruct (aget _ _) as [a|] eqn:Ha; [|apply adds_nothing]. destruct (Htab a eq_refl). by apply adds_globals.
Qed.

(** What the hook of the modular scanner does to a class from another module:
    it is imported from there, unless it is an instance of a template with an
    argument from this module, which belongs here. *)
Theorem hook_imports_classes hm module d s h dm mods :
  get_ns3_relative_path (file_name d) = Ok (Some h) → h ≠ [] → aget h hm = Some dm →
  decl_of d = ClassDecl →
  (if is_instantiation (decl_string d)
   then mapM_res (argument_module find_location hm) (template_split (decl_name d)).2 = Ok mods
   else mods = []) →
  (∀ a, aget (decl_string d) (type_annotations s) = Some a → NoDup a.*1 ∧ aget import_key a = None) →
  ∃ s', PreScanHook template_args is_instantiation template_split find_location hm module d s = (Ok tt, s') ∧
    type_annotations s' = type_annotations s ∧
    aget import_key (global_annotations s') =
      if decide (dm = module ∨ Some module ∈ mods) then aget import_key (global_annotations s)
      else Some (AStr (str "ns." ++ dashes_to_underscores dm)).
Proof.
  intros Hh Hne Hdm Hk Hmods Htab. unfold PreScanHook. rewrite Hh. destruct h as [|c h]; [done|].
  rewrite Hdm. cbn [res_of_option]. rewrite (st_bind_step _ _ s dm s) by done.
  destruct (hook_prefix (decl_str d) d (AStr ((c :: h) ++ str " (module " ++ str_repr dm
    ++ str "): " ++ decl_str d)) s) as (g & v & Heq & Hg). rewrite Heq. clear Heq.
  set (s1 := with_defaults v (with_globals g s)).
  rewrite Hk, (bool_decide_eq_true_2 (ClassDecl = ClassDecl)) by done.
  set (home := if bool_decide (Some module ∈ mods) then module else dm).
  assert (template_module is_instantiation template_split find_location hm module d dm = Ok home) as Ht.
  { unfold template_module, home. destruct (is_instantiation _); [by rewrite Hmods|]. subst mods.
    by rewrite bool_decide_eq_false_2 by apply not_elem_of_nil. }
  rewrite Ht, (st_bind_step _ _ s1 home s1) by done. cbn [andb].
  assert (bool_decide (home = module) = bool_decide (dm = module ∨ Some module ∈ mods)) as Hhome.
  { apply bool_decide_ext. unfold home. case_bool_decide; intuition congruence. }
  rewrite Hhome. clear Hhome.
  set (g2 := if bool_decide (dm = module ∨ Some module ∈ mods) then g
             else aset import_key (AStr (str "ns." ++ dashes_to_underscores home)) g).
  rewrite (st_bind_step _ _ s1 tt (with_globals g2 s1)).
  2: { subst g2. by case_bool_decide. }
  destruct (class_rules_adds d (with_globals g2 s1) Htab) as (r & g3 & Hr & Hg3).
  rewrite (st_bind_step _ _ _ _ _ Hr). exists (with_globals g3 (with_globals g2 s1)).
  split; [|split; [done|]].
  - destruct r; [done|]. rewrite !bool_decide_eq_false_2 by done. cbn [andb].
    rewrite (st_bind_step _ _ _ tt (with_globals g3 (with_globals g2 s1))) by done.
    unfold function_rules. by rewrite Hk.
  - cbn [global_annotations with_globals] in *. rewrite Hg3. subst g2.
    case_bool_decide as Hc; [by rewrite decide_True|]. rewrite decide_False, aget_aset, decide_True by done.
    subst home. rewrite bool_decide_eq_false_2; [done|]. tauto.
Qed.

(** A function that is in the table gets the annotations of its parameters
    once: the hook takes them out of the table of the module, where a second
    scan of the same declaration does not find them; the other annotations stay
    and go to the globals every time. *)
Theorem hook_annotates_functions hm module d s h dm a :
  get_ns3_relative_path (file_name d) = Ok (Some h) → h ≠ [] → aget h hm = Some dm →
  in_table (decl_of d) = true →
  (decl_of d = FreeFunction → dm = module ∧ decl_name d ≠ str "PeekPointer") →
  aget (decl_str d) (type_annotations s) = Some a → entry_ok a →
  ∃ s', PreScanHook template_args is_instantiation template_split find_location hm module d s = (Ok tt, s') ∧
    parameter_annotations s' = dict_update (params_of a) (parameter_annotations s) ∧
    (∀ k v, k ≠ str "params" → aget k a = Some v → aget k (global_annotations s') = Some v) ∧
    (∃ b, aget (decl_str d) (type_annotations s') = Some b ∧ entry_ok b ∧ params_of b = [] ∧
       ∀ k, k ≠ str "params" → aget k b = aget k a) ∧
    ∀ k, k ≠ decl_str d → aget k (type_annotations s') = aget k (type_annotations s).
Proof.
  intros Hh Hne Hdm Hk Hfree Ha Hok. unfold PreScanHook. rewrite Hh. destruct h as [|c h]; [done|].
  rewrite Hdm. cbn [res_of_option]. rewrite (st_bind_step _ _ s dm s) by done.
  destruct (hook_prefix (decl_str d) d (AStr ((c :: h) ++ str " (module " ++ str_repr dm
    ++ str "): " ++ decl_str d)) s) as (g & v & Heq & Hg). rewrite Heq. clear Heq Hg.
  set (s1 := with_defaults v (with_globals g s)).
  destruct (function_rules_ok d a s1 Hk Ha Hok) as (g' & Hf & Hg').
  destruct (take_params_entry (decl_str d) a s1 Ha Hok) as (b & Hb & Hnd & Hbk).
  destruct (take_params_frame (decl_str d) a s1) as (_ & Hp & Hframe).
  exists (with_globals g' (take_params (decl_str d) a s1)). split_and!.
  - rewrite (bool_decide_eq_false_2 (decl_of d = ClassDecl)), (bool_decide_eq_false_2 (decl_of d = EnumDecl))
      by (intros He; by rewrite He in Hk). cbn [andb].
    rewrite (st_bind_step _ _ s1 dm s1), (st_bind_step _ _ s1 tt s1), (st_bind_step _ _ s1 false s1),
      (st_bind_step _ _ s1 tt s1) by done.
    replace (bool_decide (decl_of d = FreeFunction) && _) with false; [done|].
    symmetry. case_bool_decide as Hfd; [|done]. destruct (Hfree Hfd) as [-> Hn].
    by rewrite bool_decide_eq_true_2, bool_decide_eq_false_2.
  - cbn [parameter_annotations with_globals]. by rewrite Hp.
  - intros k w Hkp Hw. cbn [global_annotations with_globals]. by rewrite Hg', aget_adel, decide_False, Hw.
  - exists b. cbn [type_annotations with_globals].
    assert (aget (str "params") b = None) as Hnone by by rewrite Hbk, aget_adel, decide_True.
    split_and!; [done|split; [done|by rewrite Hnone]|by unfold params_of; rewrite Hnone|].
    intros k Hkp. by rewrite Hbk, aget_adel, decide_False.
  - intros k Hkd. cbn [type_annotations with_globals]. by rewrite Hframe.
Qed.

(** The scanner of the whole tree, in Python 3: a function whose entry has
    annotations of parameters makes the hook raise [RuntimeError], after they
    have been taken out of the table. *)
Theorem scan_hook_params fuel d s h a :
  scan_relative_loop fuel [] (file_name d) = Some (Ok h) →
  in_table (decl_of d) = true → (decl_of d = FreeFunction → decl_name d ≠ str "PeekPointer") →
  aget (decl_str d) (type_annotations s) = Some a → entry_ok a → str "params" ∈ a.*1 →
  ∃ m s', pre_scan_hook template_args fuel d = Some m ∧ m s = (Raise RuntimeError, s') ∧
    parameter_annotations s' = dict_update (params_of a) (parameter_annotations s) ∧
    ∃ b, aget (decl_str d) (type_annotations s') = Some b ∧ params_of b = [].
Proof.
  intros Hh Hk Hfree Ha Hok Hin. unfold pre_scan_hook. rewrite Hh. cbn [mbind option_bind].
  destruct (hook_prefix (demangled_name d) d (AStr (h ++ str ": " ++ decl_str d)) s)
    as (g & v & Heq & _). set (s1 := with_defaults v (with_globals g s)) in *.
  destruct (take_params_entry (decl_str d) a s1 Ha Hok) as (b & Hb & Hnd & Hbk).
  destruct (take_params_frame (decl_str d) a s1) as (_ & Hp & _).
  eexists _, (take_params (decl_str d) a s1). split; [done|]. split_and!.
  - rewrite (st_bind_step _ _ s h s), Heq by done.
    rewrite (bool_decide_eq_false_2 (decl_of d = ClassDecl)) by (intros He; by rewrite He in Hk).
    rewrite (st_bind_step _ _ s1 false s1) by done.
    replace (bool_decide (decl_of d = FreeFunction) && _) with false.
    2: { symmetry. case_bool_decide as Hfd; [|done]. by rewrite bool_decide_eq_false_2 by by apply Hfree. }
    unfold scan_function_rules. rewrite Hk. cbn [st_when].
    rewrite (st_bind_step _ _ _ _ _ (entry_step _ _)).
    change (type_annotations s1) with (type_annotations s). rewrite Ha. by rewrite (st_bind_raise _ _ _ _ _ (live_loop _ _ s1 Hok Hin)).
  - by rewrite Hp.
  - exists b. split; [done|]. unfold params_of. by rewrite Hbk, aget_adel, decide_True.
Qed.
End hook_facts.

(** ** Lemmas: the sections *)

Section plans.
Context (pygen : pystr) (mods : modules).
Implicit Types (p : plan) (m : pystr).

Definition headers_of (m : pystr) : list pystr := default [] (snd <$> aget m mods).


Lemma headers_fold sec hs (hm : list (pystr * pystr)) h :
  aget h (foldl (λ hm header, aset header sec hm) hm hs) = if decide (h ∈ hs) then Some sec else aget h hm.
Proof.
  revert hm. induction hs as [|x hs IH]; intros hm; [by rewrite decide_False by apply not_elem_of_nil|].
  cbn [foldl]. rewrite IH, aget_aset. repeat case_decide; set_solver.
Qed.

Lemma imap_pair_elem (l : list pystr) i m : (i, m) ∈ imap pair l ↔ l !! i = Some m.
Proof.
  rewrite list_elem_of_lookup. split.
  - intros [j Hj]. rewrite list_lookup_imap in Hj. destruct (l !! j) eqn:Hl; cbn in Hj; congruence.
  - intros Hl. exists i. by rewrite list_lookup_imap, Hl.
Qed.

(** What the loop over the sorted modules has done. *)
Record sectioned (l : list pystr) (done : list (nat * pystr)) (p : plan) : Prop := {
  sec_prec i m : (i, m) ∈ done → aget (section_name m) (section_precendences p) = Some (Z.of_nat i);
  sec_head i m h : (i, m) ∈ done → h ∈ headers_of m →
    (∀ i' m', (i', m') ∈ done → h ∈ headers_of m' → (i' ≤ i)%nat) → aget h (headers_map p) = Some (section_name m);
  sec_none h : (∀ i m, (i, m) ∈ done → h ∉ headers_of m) → aget h (headers_map p) = None;
  sec_list : sections p = (str "__main__", pygen, None) ::
    map (λ im, (section_name im.2, path_join (dirname pygen) (section_name im.2 ++ str ".py"),
                Some (section_name im.2 ++ str "__local"))) done }.

Lemma sections_fold l : NoDup l → (∀ m, m ∈ l → is_Some (aget m mods)) →
  (∀ m m', m ∈ l → m' ∈ l → section_name m = section_name m' → m = m') →
  ∃ p, fold_res (E := exn) (add_section pygen mods) (MkPlan [(str "__main__", pygen, None)] [] []) (imap pair l) = Ok p ∧
    sectioned l (imap pair l) p.
Proof.
  intros Hnd Hin Hinj.
  destruct (fold_res_inv (E := exn) (add_section pygen mods)
    (λ pre post p, pre ++ post = imap pair l ∧ sectioned l pre p)) with (l := imap pair l)
    (pre := @nil (nat * pystr)) (s := MkPlan [(str "__main__", pygen, None)] [] [])
    as (p & Hp & _ & Hs); [|by split; [|split; [intros ?? []%elem_of_nil|intros ??? []%elem_of_nil|..]]|
                           exists p; split; [exact Hp|exact Hs]].
  intros pre [i m] post q [Hl [Hprec Hhead Hnone Hlist]].
  assert (l !! i = Some m) as Him by (apply imap_pair_elem; rewrite <-Hl; set_solver).
  assert (∀ i' m', (i', m') ∈ pre → l !! i' = Some m') as Hpre
    by (intros; apply imap_pair_elem; rewrite <-Hl; set_solver).
  assert (∀ i' m', (i', m') ∈ pre → (i' < i)%nat) as Hlt.
  { assert (∀ j x, (pre ++ (i, m) :: post) !! j = Some x → x.1 = j) as Hidx.
    { intros j x Hj. rewrite Hl, list_lookup_imap in Hj. by destruct (l !! j); cbn in Hj; simplify_eq. }
    intros i' m' [j Hj]%list_elem_of_lookup. pose proof (lookup_lt_Some _ _ _ Hj).
    pose proof (Hidx j (i', m') (lookup_app_l_Some _ _ _ _ Hj)) as H1.
    pose proof (Hidx (length pre) (i, m) (list_lookup_middle _ _ _ _ eq_refl)) as H2.
    cbn [fst] in H1, H2. lia. }
  assert (m ∈ l) as Hm by by eapply list_elem_of_lookup_2.
  destruct (Hin m Hm) as [e He]. unfold add_section. rewrite He. eexists. split; [done|].
  split; [by rewrite <-(assoc_L (++))|].
  assert (headers_of m = e.2) as Hh by (unfold headers_of; by rewrite He).
  split.
  - intros i' m' Hel. cbn [section_precendences]. rewrite aget_aset.
    apply elem_of_app in Hel as [Hel|[= -> ->]%list_elem_of_singleton]; [|by rewrite decide_True].
    case_decide as Heq; [|by apply Hprec].
    assert (m' = m) as -> by (apply Hinj; [eapply list_elem_of_lookup_2, Hpre, Hel|done|done]).
    by rewrite (NoDup_lookup l i i' m Hnd Him (Hpre _ _ Hel)).
  - intros i' m' h Hel Hh' Hu. cbn [headers_map]. rewrite headers_fold, <-Hh.
    apply elem_of_app in Hel as [Hel|[= -> ->]%list_elem_of_singleton]; [|by rewrite decide_True].
    case_decide as Hd; [|eapply Hhead; [done..|]; intros ????; eapply Hu; [apply elem_of_app; left; done|done]].
    specialize (Hlt i' m' Hel). specialize (Hu i m ltac:(set_solver) Hd). lia.
  - intros h Hno. cbn [headers_map]. rewrite headers_fold, <-Hh, decide_False.
    + apply Hnone. intros i' m' Hel. apply (Hno i'). set_solver.
    + apply (Hno i). set_solver.
  - cbn [sections]. by rewrite Hlist, map_app.
Qed.
End plans.

Lemma module_graph_edge mods d m :
  edge (module_graph mods) d m ↔ ∃ e, aget m mods = Some e ∧ d ∈ e.1.
Proof.
  unfold edge, module_graph. rewrite list_elem_of_In, in_concat. split.
  - intros (l & (n & <- & Hn)%in_map_iff & (d' & [= -> ->] & Hd)%in_map_iff).
    apply list_elem_of_In in Hd. unfold py_sort in Hd. rewrite merge_sort_Permutation in Hd.
    destruct (aget m mods) as [e|]; [eauto|by apply elem_of_nil in Hd].
  - intros (e & He & Hd). exists (module_edges mods m). split.
    + apply in_map, list_elem_of_In. unfold py_sort. rewrite merge_sort_Permutation. apply aget_keys. eauto.
    + unfold module_edges. apply (in_map (λ dep, (dep, m))), list_elem_of_In. unfold py_sort.
      by rewrite merge_sort_Permutation, He.
Qed.

(** [topsort] as the scanner uses it. *)
Lemma topsort_cases (E : list (pystr * pystr)) :
  (¬ cyclic E ∧ ∃ l, topsort (D := PyDict pystr) E = Some (Ok l) ∧ NoDup l ∧ (∀ x, x ∈ l ↔ x ∈ nodes E) ∧
     ∀ p c, edge E p c → before l p c) ∨
  (cyclic E ∧ ∃ l np ch, topsort (D := PyDict pystr) E = Some (Raise (CycleError l np ch))).
Proof.
  destruct (topsort_result (D := PyDict pystr) E) as (V & np & ch & -> & Hd & Hr & Hnd & Hsub & Hord).
  pose proof (cyclic_leftover E V np ch Hd Hr Hnd Hsub Hord) as Hcyc. case_decide as Hk; [left|right].
  - split; [by intros Hc; apply Hcyc in Hc|]. exists V. pose proof (proj1 (dkeys_done E V np ch Hd) Hk) as Hall.
    split_and!; [done|done|intros x; split; auto|]. intros p c He. apply Hord; [done|].
    apply Hall. by apply (edge_nodes E p c).
  - split; [by apply Hcyc|]. by exists V, np, ch.
Qed.

(** The modules the scanner can place: an edge only leads from a module that
    exists, and the sections of different modules have different names. *)
Record placeable (mods : modules) : Prop := {
  deps_exist m e d : aget m mods = Some e → d ∈ e.1 → is_Some (aget d mods);
  names_differ m m' : m ∈ mods.*1 → m' ∈ mods.*1 → section_name m = section_name m' → m = m' }.

Lemma graph_nodes mods m : placeable mods → m ∈ nodes (module_graph mods) → is_Some (aget m mods).
Proof.
  intros Hp. unfold nodes. rewrite elem_of_app, !list_elem_of_fmap.
  intros [([d c] & -> & (e & He & Hd)%module_graph_edge)|([d c] & -> & (e & He & Hd)%module_graph_edge)]; cbn.
  - by eapply deps_exist.
  - eauto.
Qed.

Lemma section_not_main m : section_name m ≠ str "__main__".
Proof. discriminate. Qed.

(** A module that is not in the dictionary. *)
Lemma sections_key_error pygen mods (l : list (nat * pystr)) p :
  (∃ m, m ∈ l ∧ aget m.2 mods = None) → fold_res (E := exn) (add_section pygen mods) p l = Raise KeyError.
Proof.
  revert p. induction l as [|[i m] l IH]; intros p (x & Hx & Hn); [by apply elem_of_nil in Hx|].
  cbn [fold_res]. unfold add_section at 1. destruct (aget m mods) as [e|] eqn:He; [|done].
  apply IH. exists x. split; [|done]. apply elem_of_cons in Hx as [->|Hx]; [cbn in Hn; congruence|done].
Qed.


(** ** Witnesses *)

Lemma aget_elem {V} k (l : list (pystr * V)) v : aget k l = Some v → (k, v) ∈ l.
Proof.
  induction l as [|[k' w] l IH]; [done|]. cbn. case_decide; intros; simplify_eq; [left|right; auto].
Qed.

(** Every entry of the initial table is well formed, and none imports. *)
Lemma initial_entries_ok k a : aget k initial_annotations = Some a →
  entry_ok a ∧ aget import_key a = None.
Proof.
  assert (Forall (λ x : pystr * annotations, NoDup x.2.*1 ∧
    match aget (str "params") x.2 with Some (AParams _) | None => True | _ => False end ∧
    aget import_key x.2 = None) initial_annotations) as Hall.
  { repeat constructor; try (by apply (bool_decide_unpack _)); set_solver. }
  intros Hk%aget_elem. rewrite Forall_forall in Hall. destruct (Hall _ Hk) as (Hnd & Hp & Hi).
  cbn [snd] in *. split; [|done]. split; [done|]. intros v Hv. rewrite Hv in Hp. by destruct v.
Qed.

Lemma placeable_check (mods : modules) :
  Forall (λ x, Forall (λ d, d ∈ mods.*1) x.2.1) mods → NoDup (section_name <$> mods.*1) → placeable mods.
Proof.
  intros Hdep Hnd. split.
  - intros m e d He%aget_elem Hd. rewrite Forall_forall in Hdep. specialize (Hdep _ He).
    rewrite Forall_forall in Hdep. apply aget_keys. by apply Hdep.
  - intros m m' [i Hi]%list_elem_of_lookup [j Hj]%list_elem_of_lookup Heq.
    assert (i = j) as ->; [|congruence]. apply (NoDup_lookup _ i j (section_name m) Hnd).
    + by rewrite list_lookup_fmap, Hi.
    + by rewrite list_lookup_fmap, Hj, Heq.
Qed.

Lemma acyclic_check E l : topsort (D := PyDict pystr) E = Some (Ok l) → ¬ cyclic E.
Proof. intros Ht Hc. destruct (topsort_cases E) as [[? _]|(_ & ? & ? & ? & ?)]; [done|congruence]. Qed.

Definition tree_sample : modules :=
  [(str "network", ([str "core"], [str "node.h"])); (str "core", ([], [str "simulator.h"]));
   (str "brite", ([], [str "brite-topology-helper.h"]));
   (str "point-to-point", ([str "network"; str "core"], [str "p2p.h"]))].


Definition seed_decl : decl := MkDecl MemberFunction (str "/b/ns3/random-variable.h") (str "GetSeed")
  (str "RandomVariable") [] (str "void ns3::RandomVariable::GetSeed(uint32_t * seed) const [member function]") [].
Definition fresh_scan : scan := MkScan initial_annotations [] [] [Some (str "ns3::Seconds( )")].

Lemma hook_annotates_functions_witness :
  ∃ s', PreScanHook (λ _, []) (λ _, false) (λ n, (n, [])) (λ _, None)
          [(str "random-variable.h", str "core")] (str "core") seed_decl fresh_scan = (Ok tt, s') ∧
    parameter_annotations s' = [(str "seed", [(str "direction", str "out"); (str "array_length", str "6")])] ∧
    ∃ b, aget (decl_str seed_decl) (type_annotations s') = Some b ∧ params_of b = [].
Proof.
  assert (∃ a, aget (decl_str seed_decl) (type_annotations fresh_scan) = Some a ∧
    params_of a = [(str "seed", [(str "direction", str "out"); (str "array_length", str "6")])])
    as (a & Ha & Hps) by (eexists; split; reflexivity).
  destruct (hook_annotates_functions (λ _, []) (λ _, false) (λ n, (n, [])) (λ _, None)
    [(str "random-variable.h", str "core")] (str "core") seed_decl fresh_scan
    (str "random-variable.h") (str "core") a) as (s' & Hrun & Hp & _ & (b & Hb & _ & Hnone & _) & _).
  - vm_compute. reflexivity.
  - discriminate.
  - reflexivity.
  - reflexivity.
  - discriminate.
  - exact Ha.
  - exact (proj1 (initial_entries_ok _ _ Ha)).
  - exists s'. split; [exact Hrun|]. split; [rewrite Hp, Hps; reflexivity|]. exists b. split; assumption.
Defined.

(** A container of [Packet]s that is defined in the header of another module. *)
Definition list_decl : decl := MkDecl ClassDecl (str "/b/ns3/simple-ref-count.h")
  (str "SimpleRefCount<ns3::Packet>") (str "ns3") (str "::ns3::SimpleRefCount<ns3::Packet>") (str "class") [].

Lemma hook_imports_classes_witness :
  let run arg := PreScanHook (λ _, []) (λ _, true) (λ n, (n, [arg]))
    (λ n, if bool_decide (n = str "ns3::Packet") then Some (str "/b/ns3/packet.h") else Some (str "/usr/vector"))
    [(str "simple-ref-count.h", str "core"); (str "packet.h", str "network")] (str "network") list_decl fresh_scan in
  (∃ s', run (str "ns3::Packet") = (Ok tt, s') ∧ aget import_key (global_annotations s') = None) ∧
  ∃ s', run (str "int") = (Ok tt, s') ∧ aget import_key (global_annotations s') = Some (AStr (str "ns.core")).
Proof.
  intros run.
  assert (∀ a, aget (decl_string list_decl) (type_annotations fresh_scan) = Some a →
    NoDup a.*1 ∧ aget import_key a = None) as Htab.
  { intros a Ha. destruct (initial_entries_ok _ _ Ha) as [[? _] ?]. split; assumption. }
  split.
  - destruct (hook_imports_classes (λ _, []) (λ _, true) (λ n, (n, [str "ns3::Packet"]))
      (λ n, if bool_decide (n = str "ns3::Packet") then Some (str "/b/ns3/packet.h") else Some (str "/usr/vector"))
      [(str "simple-ref-count.h", str "core"); (str "packet.h", str "network")] (str "network") list_decl fresh_scan
      (str "simple-ref-count.h") (str "core") [Some (str "network")]) as (s' & Hrun & _ & Hi);
      [vm_compute; reflexivity|discriminate|reflexivity|reflexivity|vm_compute; reflexivity|exact Htab|].
    exists s'. split; [exact Hrun|]. rewrite Hi, decide_True; [reflexivity|]. right. left.
  - destruct (hook_imports_classes (λ _, []) (λ _, true) (λ n, (n, [str "int"]))
      (λ n, if bool_decide (n = str "ns3::Packet") then Some (str "/b/ns3/packet.h") else Some (str "/usr/vector"))
      [(str "simple-ref-count.h", str "core"); (str "packet.h", str "network")] (str "network") list_decl fresh_scan
      (str "simple-ref-count.h") (str "core") [None]) as (s' & Hrun & _ & Hi);
      [vm_compute; reflexivity|discriminate|reflexivity|reflexivity|vm_compute; reflexivity|exact Htab|].
    exists s'. split; [exact Hrun|]. rewrite Hi. vm_compute. reflexivity.
Defined.

Example callback_classes_sample :
  scan_callback_classes (λ _, true) (λ n, (n, [str "void"; str "ns3::empty"]))
    [(str "Callback<void>", str "d"); (str "Object", str "e")] []
  = (Ok tt, str "callback_classes = [" ++ [newline] ++ str "    ['void', 'ns3::empty']," ++ [newline]
            ++ str "]" ++ [newline]).
Proof. vm_compute. reflexivity. Qed.
