(* ===== verification/BindingGen.v ===== *)
(** * Generating the Python bindings: bindings/python

    ns3modulegen_core_customizations.py: the transformation of smart pointers,
    the code for parameters that are callbacks and the classes that implement
    them, the creation of objects and the default values of attributes;
    ns3modulegen-modular.py: the order of the steps and the errors that are
    reported; the customizations of the modules that leave out classes.  The
    type handlers, code sinks and modules of pybindgen are records of what is
    asked of them, its lookups are parameters.  [CodeGenerationError] of
    pybindgen is [GenericException]; the wrapper of a callback class whose types are
    known is taken to be generated without one. *)
From Stdlib Require Import Ascii String.
From stdpp Require Import gmap.
From S2P Require Export BindingScan.
Open Scope Z_scope.

(** ** Smart pointers *)

Definition after_prefix (p s : pystr) : option pystr :=
  if startswith p s then Some (drop (length p) s) else None.
Fixpoint until_close (s : pystr) : option (pystr * pystr) :=
  match s with
  | [] => None
  | c :: s => if decide (c = ">"%char) then Some ([], s)
              else '(a, b) ← until_close s; Some (c :: a, b)
  end.
(** What follows the optional namespace: [Ptr<([^>]+)>\s*$]. *)
Definition match_ptr (s : pystr) : option pystr :=
  s ← after_prefix (str "Ptr<") s;
  '(body, rest) ← until_close s;
  if negb (bool_decide (body = [])) && forallb is_space rest then Some body else None.
Definition rx_match (name : pystr) : option pystr :=
  match after_prefix (str "ns3::") name ≫= match_ptr with
  | Some b => Some b
  | None =>
      match after_prefix (str "::ns3::") name ≫= match_ptr with
      | Some b => Some b
      | None => match_ptr name
      end
  end.

(** [s[:-n]] for a positive n *)
Definition drop_end (n : nat) (s : pystr) : pystr := take (length s - n) s.

Definition _get_untransformed_type_traits (name : pystr) : option pystr * bool :=
  match rx_match name with
  | None => (None, false)
  | Some g =>
      let name1 := strip g in
      let '(name1, is_const) :=
        if startswith (str "const ") name1 then (drop 6 name1, true) else (name1, false) in
      let '(name1, is_const) :=
        if endswith (str " const") name1 then (drop_end 6 name1, true) else (name1, is_const) in
      let new_name := name1 ++ str " *" in
      (Some (if startswith (str "::") new_name then drop 2 new_name else new_name), is_const)
  end.
Definition get_untransformed_name (name : pystr) : option pystr := (_get_untransformed_type_traits name).1.

Inductive handler_class : Type := ParameterClass | ReturnValueClass | OtherClass.

(** What [create_type_handler] makes: the keyword set to [False], the type the
    handler is made for, and the untransformed type. *)
Definition create_type_handler (type_handler : handler_class) (name : pystr) : res exn (pystr * pystr * pystr) :=
  keyword ← (match type_handler with
             | ParameterClass => Ok (str "transfer_ownership")
             | ReturnValueClass => Ok (str "caller_owns_return")
             | OtherClass => Raise AssertionError end : res exn pystr);
  let '(orig_ctype, is_const) := _get_untransformed_type_traits name in
  orig_ctype ← res_of_option TypeError orig_ctype;
  let correct_ctype := str "ns3::Ptr< " ++ drop_end 2 orig_ctype
                         ++ (if is_const then str " const >" else str " >") in
  mret (keyword, correct_ctype, orig_ctype).

Definition untransform (untransformed_ctype expression : pystr) : pystr :=
  str "const_cast<" ++ untransformed_ctype ++ str "> (ns3::PeekPointer (" ++ expression ++ str "))".
Definition transform (untransformed_ctype expression : pystr) : res exn pystr :=
  match last untransformed_ctype with
  | None => Raise IndexError
  | Some c =>
      if decide (c = "*"%char)
      then Ok (str "ns3::Ptr< " ++ drop_end 1 untransformed_ctype ++ str " > (" ++ expression ++ str ")")
      else Raise AssertionError
  end.

(** ** Code blocks *)

(** What is asked of the blocks of a wrapper. *)
Inductive gen_op : Type :=
  | DeclareVar (ty name : pystr) (init : option pystr)
  | ParseParam (format : pystr) (args : list pystr) (param : pystr) (optional : bool)
  | ErrorCheck (condition : pystr) (failure : option pystr)
  | Code (line : pystr) | Indent | Unindent
  | Cleanup (line : pystr) | CallParam (arg : pystr).

Section blocks.
(** The name [declare_variable] gives to a variable. *)
Context (fresh : list gen_op → pystr → pystr).

Definition emit (o : gen_op) : stm (list gen_op) unit := st_modify (λ ops, ops ++ [o]).
Definition declare_variable (ty name : pystr) (init : option pystr) : stm (list gen_op) pystr :=
  ops ← st_get; let n := fresh ops name in _ ← emit (DeclareVar ty n init); mret n.

(** [CallbackImplProxyMethod.generate_python_call] *)
Definition generate_python_call (build_params : list pystr) : stm (list gen_op) unit :=
  first ← st_lift (res_of_option IndexError (head build_params));
  c ← st_lift (res_of_option IndexError (head first));
  let build_params := if decide (c = dquote) then (str "(char *) " ++ first) :: tail build_params else build_params in
  args ← declare_variable (str "PyObject*") (str "args") None;
  _ ← emit (Code (args ++ str " = Py_BuildValue(" ++ join (str ", ") build_params ++ str ");"));
  _ ← emit (Cleanup (str "Py_DECREF(" ++ args ++ str ");"));
  _ ← emit (Code (str "py_retval = PyObject_CallObject(m_callback, " ++ args ++ str ");"));
  _ ← emit (ErrorCheck (str "py_retval == NULL") None);
  emit (Cleanup (str "Py_DECREF(py_retval);")).

(** ** Parameters that are callbacks *)

(** A class of parameters, and one parameter of it. *)
Record handler := MkHandler { impl_name : pystr; TEMPLATE_ARGS : list pystr; DISABLED : bool }.

Definition callable_check (py_callback name : pystr) : gen_op :=
  ErrorCheck (str "!PyCallable_Check(" ++ py_callback ++ str ")")
    (Some (str "PyErr_SetString(PyExc_TypeError, " ++ [dquote] ++ str "parameter '" ++ name
             ++ str "' must be callbale" ++ [dquote] ++ str ");")).

Definition convert_python_to_c (h : handler) (name : pystr) (default_value : option pystr) (forward : bool) :
    stm (list gen_op) unit :=
  if negb forward then st_raise AssertionError
  else if DISABLED h then st_raise GenericException
  else
    let callback_type := str "ns3::Callback<" ++ join (str ", ") (TEMPLATE_ARGS h) ++ str ">" in
    match default_value with
    | None =>
        py_callback ← declare_variable (str "PyObject*") name None;
        _ ← emit (ParseParam (str "O") [str "&" ++ py_callback] name false);
        _ ← emit (callable_check py_callback name);
        callback_impl ← declare_variable (str "ns3::Ptr<" ++ impl_name h ++ str ">") (name ++ str "_cb_impl") None;
        _ ← emit (Code (callback_impl ++ str " = ns3::Create<" ++ impl_name h ++ str "> (" ++ py_callback ++ str ");"));
        emit (CallParam (callback_type ++ str " (" ++ callback_impl ++ str ")"))
    | Some d =>
        py_callback ← declare_variable (str "PyObject*") name (Some (str "NULL"));
        _ ← emit (ParseParam (str "O") [str "&" ++ py_callback] name true);
        value ← declare_variable callback_type (name ++ str "_value") (Some d);
        _ ← emit (Code (str "if (" ++ py_callback ++ str ") {"));
        _ ← emit Indent;
        _ ← emit (callable_check py_callback name);
        _ ← emit (Code (value ++ str " = " ++ callback_type ++ str " (ns3::Create<" ++ impl_name h ++ str "> ("
                          ++ py_callback ++ str "));"));
        _ ← emit Unindent;
        _ ← emit (Code (str "}"));
        emit (CallParam value)
    end.
End blocks.

(** The handlers by the name of their type. *)
Definition callback_name (template_parameters : list pystr) : pystr :=
  str "ns3::Callback< " ++ join (str ", ") template_parameters ++ str " >".
Definition impl_class (num : nat) : pystr := str "PythonCallbackImpl" ++ str_of_Z (Z.of_nat num).

Definition register_callback_classes (callbacks : list (list pystr)) (handlers : list (pystr * handler)) :
    list (pystr * handler) :=
  foldl (λ hs (x : nat * list pystr), aset (callback_name x.2) (MkHandler (impl_class x.1) x.2 false) hs)
    handlers (imap pair callbacks).

(** A class that implements a callback: the text of its start, the return type
    and the types and names of the arguments of its call operator. *)
Record impl := MkImpl { class_text : pystr; return_ctype : pystr; impl_args : list (pystr * pystr) }.
Record gen := MkGen {
  handlers : list (pystr * handler);
  helpers : list (nat * bool);        (* helper classes, and whether they cannot be constructed *)
  helper_class_disabled : list nat;
  flushed : list (nat * impl) }.

Definition impl_text (class_name : pystr) (template_parameters : list pystr) : pystr :=
  let lines := [
    []; str "class " ++ class_name ++ str " : public ns3::CallbackImpl<" ++ join (str ", ") template_parameters ++ str ">";
    str "{"; str "public:"; str "    PyObject *m_callback;";
    str "    " ++ class_name ++ str "(PyObject *callback)"; str "    {";
    str "        Py_INCREF(callback);"; str "        m_callback = callback;"; str "    }";
    str "    virtual ~" ++ class_name ++ str "()"; str "    {";
    str "        PyGILState_STATE __py_gil_state;";
    str "        __py_gil_state = (PyEval_ThreadsInitialized() ? PyGILState_Ensure() : (PyGILState_STATE) 0);";
    str "        Py_DECREF(m_callback);"; str "        m_callback = NULL;";
    str "        PyGILState_Release(__py_gil_state);"; str "    }"; [];
    str "    virtual bool IsEqual(ns3::Ptr<const ns3::CallbackImplBase> other_base) const"; str "    {";
    str "        const " ++ class_name ++ str " *other = dynamic_cast<const " ++ class_name
      ++ str "*> (ns3::PeekPointer (other_base));";
    str "        if (other != NULL)"; str "            return (other->m_callback == m_callback);";
    str "        else"; str "            return false;"; str "    }"; []; []] in
  join [newline] lines.

Section callbacks.
(** [ReturnValue.new] and [Parameter.new] on the parsed type: whether the type
    has a handler, and for a parameter the class it refers to. *)
Context (new_return : pystr → bool) (new_param : pystr → option (option nat)).

(** One argument of a callback: [None] when its type is unknown. *)
Definition use_helper (cls : option nat) (s : gen) : gen :=
  match cls with
  | Some c =>
      match aget c (helpers s) with
      | Some true => MkGen (handlers s) (adel c (helpers s)) (helper_class_disabled s ++ [c]) (flushed s)
      | _ => s
      end
  | None => s
  end.
Definition argument_step (st : gen * (list (pystr * pystr) * bool)) (x : nat * pystr) :
    gen * (list (pystr * pystr) * bool) :=
  let '(s, (arguments, ok)) := st in
  let arg_name := str "arg" ++ str_of_Z (Z.of_nat (S x.1)) in
  match new_param x.2 with
  | Some cls => (use_helper cls s, (arguments ++ [(x.2, arg_name)], ok))
  | None => (s, (arguments, false))
  end.

Definition disable (cls_name : pystr) (s : gen) : gen :=
  match aget cls_name (handlers s) with
  | Some h => MkGen (aset cls_name (MkHandler (impl_name h) (TEMPLATE_ARGS h) true) (handlers s))
                (helpers s) (helper_class_disabled s) (flushed s)
  | None => s
  end.

(** One round of [generate_callback_classes]. *)
Definition callback_step (s : gen) (x : nat * list pystr) : res exn gen :=
  let '(callback_impl_num, template_parameters) := x in
  callback_return ← res_of_option IndexError (head template_parameters);
  if negb (new_return callback_return) then mret s
  else
    let callback_parameters := List.filter (λ arg, negb (bool_decide (arg = str "ns3::empty"))) (tail template_parameters) in
    let '(s, (arguments, ok)) := foldl argument_step (s, ([], true)) (imap pair callback_parameters) in
    if negb ok then mret (disable (callback_name template_parameters) s)
    else mret (MkGen (handlers s) (helpers s) (helper_class_disabled s)
                 (flushed s ++ [(callback_impl_num,
                    MkImpl (impl_text (impl_class callback_impl_num) template_parameters) callback_return arguments)])).
Definition generate_callback_classes (callbacks : list (list pystr)) (s : gen) : res exn gen :=
  fold_res callback_step s (imap pair callbacks).
End callbacks.

Lemma foldl_aset {X V} (k : X → pystr) (v : X → V) (l : list X) d x : NoDup (k <$> l) → x ∈ l →
  aget (k x) (foldl (λ d x, aset (k x) (v x) d) d l) = Some (v x).
Proof.
  assert (∀ l d n, n ∉ k <$> l → aget n (foldl (λ d x, aset (k x) (v x) d) d l) = aget n d) as Hskip.
  { clear. induction l as [|y l IH]; intros d n Hn; [done|]. cbn in *. rewrite IH by set_solver.
    rewrite aget_aset, decide_False; [done|set_solver]. }
  revert d. induction l as [|y l IH]; intros d Hnd Hx; [by apply elem_of_nil in Hx|].
  cbn in *. apply NoDup_cons in Hnd as [Hy Hnd]. apply elem_of_cons in Hx as [->|Hx]; [|by apply IH].
  rewrite Hskip by done. by rewrite aget_aset, decide_True.
Qed.

Section callback_facts.
Context (new_return : pystr → bool) (new_param : pystr → option (option nat)).

(** Whether the return type and the types of the arguments have handlers. *)
Definition returnable (tp : list pystr) : bool := default false (new_return <$> head tp).
Definition known_args (tp : list pystr) : bool :=
  forallb (λ arg, bool_decide (is_Some (new_param arg)))
    (List.filter (λ arg, negb (bool_decide (arg = str "ns3::empty"))) (tail tp)).

Lemma arguments_ok (l : list (nat * pystr)) s args ok :
  ∃ s' args', foldl (argument_step new_param) (s, (args, ok)) l =
      (s', (args', ok && forallb (λ arg, bool_decide (is_Some (new_param arg))) l.*2)) ∧
    handlers s' = handlers s ∧ flushed s' = flushed s.
Proof.
  revert s args ok. induction l as [|[i a] l IH]; intros s args ok; cbn [foldl].
  - exists s, args. by rewrite andb_true_r.
  - cbn [argument_step fst snd fmap list_fmap forallb]. destruct (new_param a) as [cls|] eqn:Ha.
    + destruct (IH (use_helper cls s) (args ++ [(a, str "arg" ++ str_of_Z (Z.of_nat (S i)))]) ok)
        as (s' & args' & -> & H1 & H2).
      exists s', args'. split; [by rewrite bool_decide_eq_true_2 by eauto|]. rewrite H1, H2.
      destruct cls as [c|]; [|done]. cbn. by destruct (aget c (helpers s)) as [[]|].
    + destruct (IH s args false) as (s' & args' & -> & H1 & H2). exists s', args'.
      split; [|done]. rewrite bool_decide_eq_false_2 by (by intros [? ?]). by rewrite andb_false_r.
Qed.

Lemma imap_pair_snd (l : list pystr) : (imap pair l).*2 = l.
Proof.
  apply list_eq. intros i. rewrite list_lookup_fmap, list_lookup_imap. by destruct (l !! i).
Qed.

(** One round: the class is flushed when everything is known, and the handler
    disabled when an argument is not. *)
Lemma callback_step_ok s i tp : tp ≠ [] →
  ∃ s', callback_step new_return new_param s (i, tp) = Ok s' ∧
    (∀ j, (∃ im, (j, im) ∈ flushed s') ↔
       (∃ im, (j, im) ∈ flushed s) ∨ j = i ∧ returnable tp && known_args tp = true) ∧
    (∀ n, aget n (handlers s') =
       if decide (n = callback_name tp ∧ returnable tp && negb (known_args tp) = true)
       then (λ h, MkHandler (impl_name h) (TEMPLATE_ARGS h) true) <$> aget n (handlers s)
       else aget n (handlers s)).
Proof.
  intros Hne. destruct tp as [|r tp]; [done|]. unfold callback_step. cbn [head res_of_option tail].
  cbn [mbind res_bind].
  destruct (new_return r) eqn:Hr; cbn [negb].
  2: { exists s. unfold returnable. cbn. rewrite Hr. split_and!; [done|intros j; naive_solver|].
       intros n. rewrite decide_False; [done|]. by intros [_ ?]. }
  assert (returnable (r :: tp) = true) as Hret by (unfold returnable; cbn; by rewrite Hr).
  destruct (arguments_ok (imap pair (List.filter (λ arg, negb (bool_decide (arg = str "ns3::empty"))) tp)) s [] true)
    as (s1 & args & -> & Hh & Hf). rewrite imap_pair_snd. cbn [andb].
  change (forallb _ _) with (known_args (r :: tp)). rewrite Hret. cbn [andb].
  destruct (known_args (r :: tp)) eqn:Hk; cbn [negb].
  - eexists. split; [done|]. cbn [flushed handlers]. rewrite Hf, Hh. split.
    + intros j. set_solver.
    + intros n. by rewrite decide_False by (by intros [_ ?]).
  - eexists. split; [done|]. unfold disable. rewrite Hh.
    destruct (aget (callback_name (r :: tp)) (handlers s)) as [h|] eqn:Hg; cbn [flushed handlers]; rewrite ?Hf, ?Hh.
    + split; [intros j; naive_solver|]. intros n. rewrite aget_aset.
      repeat case_decide; try tauto. destruct H0 as [-> _]. by rewrite Hg.
    + split; [intros j; naive_solver|]. intros n. case_decide as Hd; [|done]. destruct Hd as [-> _]. by rewrite Hg.
Qed.

(** C15: after the registration and the generation of the callbacks, the class of
    a callback is there exactly when its return type and arguments are known; its
    handler refuses parameters only when an argument is unknown, so a callback
    with an unknown return type is still used, without its class. *)
Theorem callbacks_generated callbacks (s0 : gen) : NoDup (callback_name <$> callbacks) →
  [] ∉ callbacks →
  ∃ s, generate_callback_classes new_return new_param callbacks
         (MkGen (register_callback_classes callbacks (handlers s0)) (helpers s0)
            (helper_class_disabled s0) []) = Ok s ∧
    ∀ i tp, callbacks !! i = Some tp →
      ((∃ im, (i, im) ∈ flushed s) ↔ returnable tp = true ∧ known_args tp = true) ∧
      aget (callback_name tp) (handlers s) =
        Some (MkHandler (impl_class i) tp (returnable tp && negb (known_args tp))).
Proof.
  intros Hnd Hne. unfold generate_callback_classes.
  assert (∀ i tp, (i, tp) ∈ imap pair callbacks ↔ callbacks !! i = Some tp) as Himap.
  { intros i tp. rewrite list_elem_of_lookup. setoid_rewrite list_lookup_imap. split.
    - intros [j Hj]. destruct (callbacks !! j) eqn:Hc; cbn in Hj; congruence.
    - intros Hc. exists i. by rewrite Hc. }
  assert (∀ i j tp tq, callbacks !! i = Some tp → callbacks !! j = Some tq →
    callback_name tp = callback_name tq → i = j) as Hinj.
  { intros i j tp tq Hi Hj Heq. apply (NoDup_lookup _ i j (callback_name tp) Hnd); rewrite list_lookup_fmap.
    - by rewrite Hi.
    - by rewrite Hj, Heq. }
  set (s1 := MkGen _ _ _ _).
  destruct (fold_res_inv (E := exn) (callback_step new_return new_param)
    (λ pre post s, pre ++ post = imap pair callbacks ∧
       (∀ i, (∃ im, (i, im) ∈ flushed s) ↔ ∃ tp, (i, tp) ∈ pre ∧ returnable tp && known_args tp = true) ∧
       ∀ i tp, callbacks !! i = Some tp → aget (callback_name tp) (handlers s) =
         Some (MkHandler (impl_class i) tp (bool_decide ((i, tp) ∈ pre) && (returnable tp && negb (known_args tp))))))
    with (l := imap pair callbacks) (pre := @nil (nat * list pystr))
    (s := s1) as (s & Hs & _ & Hf & Hh).
  - intros pre [i tp] post s (Hl & Hf & Hh).
    assert (callbacks !! i = Some tp) as Hi by (apply Himap; rewrite <-Hl; set_solver).
    destruct (callback_step_ok s i tp) as (s' & Hstep & Hf' & Hh').
    { intros ->. apply Hne. by eapply list_elem_of_lookup_2. }
    exists s'. split; [done|]. split; [by rewrite <-(assoc_L (++))|]. split.
    + intros j. rewrite Hf', Hf. split.
      * intros [(tq & Hq & Hk)|[-> Hk]]; [exists tq|exists tp]; split; set_solver.
      * intros (tq & [Hq|[= -> ->]%list_elem_of_singleton]%elem_of_app & Hk); eauto.
    + intros j tq Hj. rewrite Hh', (Hh j tq Hj).
      destruct (decide (callback_name tq = _ ∧ _)) as [Hd|Hd].
      * destruct Hd as [Heq Hd]. pose proof (Hinj _ _ _ _ Hj Hi Heq) as ->. simplify_eq. cbn.
        rewrite bool_decide_eq_true_2 by set_solver. by rewrite Hd.
      * do 2 f_equal. destruct (returnable tq && negb (known_args tq)) eqn:Hr; [|by rewrite !andb_false_r].
        rewrite !andb_true_r. apply bool_decide_ext. rewrite elem_of_app, list_elem_of_singleton.
        split; [tauto|]. intros [?|[= -> ->]]; [done|]. by destruct Hd.
  - split; [done|]. split.
    + intros i. cbn. split; [by intros [? []%elem_of_nil]|by intros (? & []%elem_of_nil & _)].
    + intros i tp Hi. subst s1. cbn [handlers]. unfold register_callback_classes.
      rewrite (foldl_aset (λ x : nat * list pystr, callback_name x.2) (λ x, MkHandler (impl_class x.1) x.2 false)
        (imap pair callbacks) _ (i, tp)); [done| |by apply Himap].
      replace ((λ x : nat * list pystr, callback_name x.2) <$> imap pair callbacks) with (callback_name <$> callbacks);
        [done|]. apply list_eq. intros j. rewrite !list_lookup_fmap, list_lookup_imap. by destruct (callbacks !! j).
  - exists s. split; [exact Hs|]. cbn [app] in Hf, Hh. intros i tp Hi. split.
    + rewrite Hf. setoid_rewrite Himap. rewrite <-andb_true_iff. split; [|by eauto].
      intros (tq & Hq & Hk). by simplify_eq.
    + rewrite (Hh i tp Hi), bool_decide_eq_true_2 by by apply Himap. done.
Qed.
End callback_facts.

(** ** Objects and attributes *)

(** What the hooks of [Object_customizations] read of a class. *)
Record cpp_class := MkClass { full_name : pystr; cannot_be_constructed : bool; incomplete_type : bool }.

(** The format of the first error has a field more than arguments. *)
Definition ns3_object_instance_creation_function (c : cpp_class) (lvalue parameters construct_type_name : pystr) :
    stm (list gen_op) unit :=
  if bool_decide (lvalue = []) || startswith (str "None") lvalue then st_raise AssertionError
  else if cannot_be_constructed c then st_raise TypeError
  else if incomplete_type c then st_raise GenericException
  else
    _ ← emit (Code (lvalue ++ str " = new " ++ construct_type_name ++ str "(" ++ parameters ++ str ");"));
    emit (Code (lvalue ++ str "->Ref ();")).
Definition ns3_object_post_instance_creation_function (lvalue : pystr) : stm (list gen_op) unit :=
  emit (Code (str "ns3::CompleteConstruct(" ++ lvalue ++ str ");")).

Definition helper_get_type_id (helper_name class_name : pystr) : pystr :=
  join [newline] [ []; str "static ns3::TypeId GetTypeId (void)"; str "{";
    str "  static ns3::TypeId tid = ns3::TypeId (" ++ [dquote] ++ helper_name ++ [dquote] ++ str ")";
    str "    .SetParent< " ++ class_name ++ str " > ()"; str "    ;"; str "  return tid;"; str "}"].
Definition helper_registration (helper_name : pystr) : pystr :=
  str "NS_OBJECT_ENSURE_REGISTERED (" ++ helper_name ++ str ");".

(** A parameter: the class it refers to if it is a reference, its default value
    and the type of that. *)
Record parameter := MkParam {
  ref_class : option pystr; default_value : option pystr; default_value_type : option pystr }.
Definition attribute_param (p : parameter) : parameter :=
  if bool_decide (ref_class p = Some (str "AttributeValue")) && bool_decide (is_Some (default_value p))
     && bool_decide (default_value_type p = None)
  then MkParam (ref_class p) (default_value p) (Some (str "ns3::EmptyAttributeValue")) else p.
(** Over the parameters of the methods of the classes. *)
Definition Attribute_customizations (classes : list (list (list parameter))) : list (list (list parameter)) :=
  map (map (map attribute_param)) classes.

Definition add_std_ios_openmode (after_init : list pystr) : list pystr :=
  after_init ++ map (λ flag, str "PyModule_AddIntConstant(m, (char *) " ++ [dquote] ++ str "STD_IOS_" ++ upper flag
                               ++ [dquote] ++ str ", std::ios::" ++ flag ++ str ");")
    [str "in"; str "out"; str "ate"; str "app"; str "trunc"; str "binary"].

(** ** Customizations of modules *)

(** A module of pybindgen: what its names stand for, and the lists of classes and
    enumerations for which code is generated. *)
Record pymodule := MkModule { names : list (pystr * nat); classes : list nat; enums : list nat }.

(** [l.remove(x)] *)
Fixpoint list_remove (x : nat) (l : list nat) : res exn (list nat) :=
  match l with
  | [] => Raise ValueError
  | y :: l => if decide (x = y) then Ok l else cons y <$> list_remove x l
  end.
Definition remove_class (name : pystr) : stm pymodule unit := λ m,
  match res_of_option KeyError (aget name (names m)) ≫= λ c, list_remove c (classes m) with
  | Ok cs => (Ok tt, MkModule (names m) cs (enums m))
  | Raise e => (Raise e, m)
  end.
Definition remove_enum (name : pystr) : stm pymodule unit := λ m,
  match res_of_option KeyError (aget name (names m)) ≫= λ c, list_remove c (enums m) with
  | Ok es => (Ok tt, MkModule (names m) (classes m) es)
  | Raise e => (Raise e, m)
  end.
(** Only if the name is there; and whatever the exception, or only a [KeyError]. *)
Definition if_there (name : pystr) (f : pystr → stm pymodule unit) : stm pymodule unit := λ m,
  if bool_decide (is_Some (aget name (names m))) then f name m else (Ok tt, m).
Definition except_all (f : stm pymodule unit) : stm pymodule unit := λ m, (Ok tt, (f m).2).
Definition except_key_error (f : stm pymodule unit) : stm pymodule unit := λ m,
  match f m with (Raise KeyError, m') => (Ok tt, m') | r => r end.

Definition ns3_name (clsname : string) : pystr := str "ns3::" ++ str clsname.

Section customizations.
(** [os.environ['NS3_ENABLED_FEATURES'].split(',')] *)
Context (enabled_features : list pystr).
Definition without (feature : string) (f : stm pymodule unit) : stm pymodule unit :=
  st_when (bool_decide (str feature ∉ enabled_features)) f.

Definition core_features : stm pymodule unit :=
  without "RealTime" (
    _ ← st_for (λ c, remove_class (ns3_name c)) ["WallClockSynchronizer"; "RealtimeSimulatorImpl"]%string;
    remove_enum (ns3_name "RealtimeSimulatorImpl::SynchronizationMode")).
Definition stats_features : stm pymodule unit :=
  without "SQLiteStats" (
    st_for (λ c, except_all (remove_class (ns3_name c)))
      ["SimpleRefCount< ns3::SQLiteOutput, ns3::empty, ns3::DefaultDeleter<ns3::SQLiteOutput> >";
       "SQLiteOutput"; "SqliteDataOutput"; "DefaultDeleter< ns3::SQLiteOutput >"]%string).
Definition lte_features : stm pymodule unit :=
  without "EmuFdNetDevice" (if_there (ns3_name "EmuEpcHelper") remove_class).
Definition fd_net_device_features : stm pymodule unit :=
  _ ← without "EmuFdNetDevice" (if_there (ns3_name "EmuFdNetDeviceHelper") remove_class);
  _ ← without "TapFdNetDevice" (if_there (ns3_name "TapFdNetDeviceHelper") remove_class);
  without "FdNetDevice" (
    _ ← st_for (λ c, if_there (ns3_name c) remove_class) ["FdNetDevice"; "FdNetDeviceHelper"; "FdNetDeviceFdReader"]%string;
    if_there (ns3_name "FdNetDeviceHelper::EncapsulationMode") remove_enum).
Definition config_store_features : stm pymodule unit :=
  without "GtkConfigStore" (except_key_error (remove_class (ns3_name "GtkConfigStore"))).
Definition tap_bridge_features : stm pymodule unit :=
  without "TapBridge" (
    _ ← st_for (λ c, remove_class (ns3_name c)) ["TapBridge"; "TapBridgeHelper"; "TapBridgeFdReader"]%string;
    remove_enum (ns3_name "TapBridge::Mode")).
End customizations.

(** The overloads the wifi module gives a method of its helper: a type and up to
    six pairs of an attribute name and value. *)
Definition param_pair (i : nat) : list (pystr * pystr) :=
  let n := str "param" ++ str_of_Z (Z.of_nat i) in
  [(str "std::string &", n ++ str "_name"); (str "ns3::AttributeValue const &", n ++ str "_value")].
Definition overload (n : nat) : list (pystr * pystr) :=
  (str "std::string", str "type") :: concat (map param_pair (seq 1 n)).
Definition wifi_overloads : list (pystr * list (pystr * pystr)) :=
  concat (map (λ m, map (λ n, (m, overload n)) (seq 0 7)) [str "SetType"; str "SetProtectionManager"; str "SetAckManager"]).

(** ** The generator of one module *)

Inductive gen_step : Type :=
  | ModuleInit | SetName (n : pystr) | AddInclude (i : pystr) | StdIosOpenmode
  | RegisterTypes | PostRegisterTypes | RegisterCallbacks (cs : list (list pystr))
  | RegisterMethods | PostRegisterMethods | ObjectCustomizations | AttributeCustomizations
  | GenerateCallbacks (cs : list (list pystr)) | RegisterFunctions | PostRegisterFunctions | Generate.

(** The functions a module's customizations define. *)
Record customization := MkCustom { post_types : bool; post_methods : bool; post_functions : bool }.

(** What [__import__] gives for the three files of the directory that is put in
    front of [sys.path]: the API definitions, the customizations and the callbacks
    ([None]: [ImportError]). *)
Record bindings := MkBindings {
  has_apidefs : bool; customizations : option customization; callbacks_list : option (list (list pystr)) }.

Definition when (b : bool) (s : gen_step) : list gen_step := if b then [s] else [].
(** The path after the imports, and the steps; [None] when the import of the API
    definitions fails. *)
Definition main (sys_path : list pystr) (module_abs_src_path extension_name : pystr)
    (import : list pystr → bindings) : list pystr * option (list gen_step) :=
  let module_name := basename module_abs_src_path in
  let inner := path_join module_abs_src_path (str "bindings") :: sys_path in
  let b := import inner in
  let sys_path := tail inner in
  if negb (has_apidefs b) then (sys_path, None)
  else
    let c := default (MkCustom false false false) (customizations b) in
    let callback_classes := default [] (callbacks_list b) in
    (sys_path, Some (
      [ModuleInit; SetName extension_name;
       AddInclude ([dquote] ++ str "ns3/" ++ module_name ++ str "-module.h" ++ [dquote]); StdIosOpenmode; RegisterTypes]
      ++ when (post_types c) PostRegisterTypes
      ++ [RegisterCallbacks callback_classes; RegisterMethods]
      ++ when (post_methods c) PostRegisterMethods
      ++ [ObjectCustomizations; AttributeCustomizations; GenerateCallbacks callback_classes; RegisterFunctions]
      ++ when (post_functions c) PostRegisterFunctions
      ++ [Generate])).

(** [ErrorHandler.handle_error] on the frames where the wrapper was defined,
    whose list it reverses in place: where the warning is placed. *)
Definition handle_error (apidefs_file : pystr) (stack : list (pystr * Z)) : option (pystr * Z) * list (pystr * Z) :=
  let stack := rev stack in
  (List.find (λ l, bool_decide (l.1 = apidefs_file)) stack, stack).

(** ** Lemmas: spellings of smart pointers *)

Lemma startswith_app_cases p a b : startswith p (a ++ b) =
  if (length p <=? length a)%nat then startswith p a
  else startswith a p && startswith (drop (length a) p) b.
Proof.
  revert p. induction a as [|x a IH]; intros [|y p]; cbn; [done|done|done|].
  rewrite IH. cbn. destruct (length p <=? length a)%nat; [done|].
  rewrite (bool_decide_ext (y = x) (x = y)) by naive_solver. by rewrite andb_assoc.
Qed.

Lemma startswith_long p a b : (length p ≤ length a)%nat → startswith p (a ++ b) = startswith p a.
Proof. intros Hl. rewrite startswith_app_cases. by rewrite (proj2 (Nat.leb_le _ _) Hl). Qed.

Lemma until_close_ok body rest : ">"%char ∉ body → until_close (body ++ ">"%char :: rest) = Some (body, rest).
Proof.
  induction body as [|c body IH]; intros Hb; cbn [app until_close]; [by rewrite decide_True|].
  rewrite decide_False by (intros ->; apply Hb; left). rewrite IH; [done|]. intros Hin. apply Hb. by right.
Qed.

(** A string that neither starts nor ends with a space. *)
Definition edges_ok (s : pystr) : Prop :=
  (∃ a u, s = a :: u ∧ is_space a = false) ∧ ∃ a u, rev s = a :: u ∧ is_space a = false.

Lemma spaces_Forall w : forallb is_space w = true → Forall (λ a, is_space a = true) w.
Proof. rewrite forallb_forall, Forall_forall. intros Hw a Ha%list_elem_of_In. auto. Qed.

Lemma strip_edges w1 s w2 : edges_ok s → forallb is_space w1 = true → forallb is_space w2 = true →
  strip (w1 ++ s ++ w2) = s.
Proof.
  intros [(a & u & -> & Ha) (b & v & Hr & Hb)] H1%spaces_Forall H2%spaces_Forall.
  unfold strip. rewrite lstrip_spaces by done.
  cbn [app lstrip]. rewrite Ha. change (a :: u ++ w2) with ((a :: u) ++ w2). rewrite rev_app_distr.
  rewrite lstrip_spaces by by apply Forall_rev.
  rewrite Hr. cbn [lstrip]. rewrite Hb, <-Hr. apply rev_involutive.
Qed.

(** The name of a type that no qualifier hides. *)
Record base_type (t : pystr) : Prop := {
  base_edges : edges_ok t;
  base_close : ">"%char ∉ t;
  base_start : startswith (str "const ") t = false;
  base_end : endswith (str " const") t = false;
  base_global : startswith (str "::") t = false;
  base_const : t ≠ str "const" }.

Inductive qualifier : Type := Plain | ConstBefore | ConstAfter.
Definition is_const_q (q : qualifier) : bool := match q with Plain => false | _ => true end.
Definition qualified (q : qualifier) (s : pystr) : pystr :=
  match q with Plain => s | ConstBefore => str "const " ++ s | ConstAfter => s ++ str " const" end.
Definition normal (q : qualifier) (t : pystr) : pystr :=
  str "ns3::Ptr< " ++ t ++ (if is_const_q q then str " const >" else str " >").

Lemma base_length t : base_type t → (1 ≤ length t)%nat.
Proof. intros [[(a & u & -> & _) _] _ _ _ _ _]. cbn. lia. Qed.

Section spellings.
Context (t : pystr) (Ht : base_type t) (g : pystr) (Hg : g ∈ [[]; str "::"]).

Lemma global_cases : g = [] ∨ g = str "::".
Proof. apply elem_of_cons in Hg as [Heq|Heq%list_elem_of_singleton]; auto. Qed.

Lemma spelled_start rest : rest = [] ∨ rest = str " const" → startswith (str "const ") (g ++ t ++ rest) = false.
Proof.
  intros Hrest. destruct global_cases as [Heq|Heq]; rewrite Heq; [|done].
  cbn [app]. rewrite startswith_app_cases. destruct (_ <=? _)%nat eqn:Hl; [apply Ht|].
  apply Nat.leb_gt in Hl. destruct (startswith t (str "const ")) eqn:Hs; [|done]. cbn [andb].
  apply startswith_spec in Hs as [u Hu]. pose proof (base_length t Ht) as Hpos.
  assert (t = take (length t) (str "const ")) as Htake by by rewrite Hu, take_app_length.
  pose proof (base_const t Ht) as Hne. clear Hu. change (length (str "const ")) with 6%nat in Hl.
  destruct (length t) as [|[|[|[|[|[|]]]]]]; try lia; try (by destruct Hrest as [-> | ->]).
Qed.

Lemma spelled_end pre : startswith (rev (str " const")) (rev t ++ rev g ++ pre) = false ∨ g = [].
Proof.
  destruct global_cases as [Heq|Heq]; [by right|left]. rewrite Heq.
  rewrite startswith_app_cases, (length_rev t). destruct (_ <=? _)%nat eqn:Hl; [apply Ht|].
  apply Nat.leb_gt in Hl. change (length (rev (str " const"))) with 6%nat in Hl.
  apply andb_false_intro2. destruct (length t) as [|[|[|[|[|[|]]]]]]; try lia; done.
Qed.

Lemma spelled_no_end : endswith (str " const") (g ++ t) = false.
Proof.
  unfold endswith. rewrite rev_app_distr. destruct (spelled_end []) as [Hs|Heq].
  - by rewrite app_nil_r in Hs.
  - rewrite Heq, app_nil_r. apply Ht.
Qed.

Lemma spelled_global : (let n := (g ++ t) ++ str " *" in
  if startswith (str "::") n then drop 2 n else n) = t ++ str " *".
Proof.
  cbn zeta. destruct global_cases as [Heq|Heq]; rewrite Heq; [|done].
  cbn [app]. rewrite startswith_app_cases. destruct (_ <=? _)%nat eqn:Hl; [by rewrite (base_global t Ht)|].
  apply Nat.leb_gt in Hl. change (length (str "::")) with 2%nat in Hl. pose proof (base_length t Ht).
  destruct (length t) as [|[|]]; try lia. by rewrite andb_false_r.
Qed.

Lemma drop_end_app (a b : pystr) : drop_end (length b) (a ++ b) = a.
Proof.
  unfold drop_end. rewrite length_app. replace (length a + length b - length b)%nat with (length a) by lia.
  apply take_app_length.
Qed.

Lemma edges_qualified q : edges_ok (qualified q (g ++ t)).
Proof.
  destruct (base_edges t Ht) as [(a & u & Ha & Hsa) (b & v & Hb & Hsb)].
  assert (edges_ok (g ++ t)) as [(c & w & Hc & Hsc) (d & x & Hd & Hsd)].
  { split.
    - destruct global_cases as [Heq|Heq]; rewrite Heq; [by exists a, u|]. by eexists _, _.
    - rewrite rev_app_distr, Hb. by eexists _, _. }
  destruct q; cbn [qualified]; split.
  - by exists c, w.
  - by exists d, x.
  - by eexists _, _.
  - rewrite rev_app_distr, Hd. by eexists _, _.
  - rewrite Hc. by eexists _, _.
  - rewrite rev_app_distr. by eexists _, _.
Qed.

Lemma close_qualified q : ">"%char ∉ qualified q (g ++ t).
Proof.
  assert (">"%char ∉ g ++ t) as Hn.
  { rewrite elem_of_app. intros [Hin|Hin]; [|by apply (base_close t Ht)].
    revert Hin. destruct global_cases as [Heq|Heq]; rewrite Heq; by apply (bool_decide_unpack _). }
  destruct q; cbn [qualified]; [done| |]; rewrite elem_of_app; intros [Hin|Hin]; try done;
    revert Hin; by apply (bool_decide_unpack _).
Qed.

(** The traits of a name that the expression matches with this body. *)
Lemma traits_of name w1 w2 q : forallb is_space w1 = true → forallb is_space w2 = true →
  rx_match name = Some (w1 ++ qualified q (g ++ t) ++ w2) →
  _get_untransformed_type_traits name = (Some (t ++ str " *"), is_const_q q).
Proof.
  intros H1 H2 Hm. unfold _get_untransformed_type_traits. rewrite Hm, strip_edges by (done || apply edges_qualified).
  assert (∀ c, (let '(name1, is_const) := if endswith (str " const") (g ++ t)
      then (drop_end 6 (g ++ t), true) else (g ++ t, c) in
      (Some (let n := name1 ++ str " *" in if startswith (str "::") n then drop 2 n else n), is_const))
      = (Some (t ++ str " *"), c)) as Hrest.
  { intros c. rewrite spelled_no_end. cbn zeta. f_equal. f_equal. apply spelled_global. }
  destruct q; cbn [qualified is_const_q].
  - replace (startswith (str "const ") (g ++ t)) with false; [apply Hrest|].
    symmetry. pose proof (spelled_start [] (or_introl eq_refl)) as Hs. by rewrite app_nil_r in Hs.
  - rewrite startswith_app. apply Hrest.
  - replace (startswith (str "const ") ((g ++ t) ++ str " const")) with false.
    2: { symmetry. rewrite <-(assoc_L (++)). by apply spelled_start; right. }
    replace (endswith (str " const") ((g ++ t) ++ str " const")) with true.
    2: { unfold endswith. rewrite rev_app_distr. by rewrite startswith_app. }
    rewrite (drop_end_app (g ++ t) (str " const") : drop_end 6 _ = _). f_equal. f_equal. apply spelled_global.
Qed.

Lemma match_spelled p w1 w2 w3 q : p ∈ [[]; str "ns3::"; str "::ns3::"] → forallb is_space w1 = true →
  forallb is_space w2 = true → forallb is_space w3 = true →
  rx_match (p ++ str "Ptr<" ++ (w1 ++ qualified q (g ++ t) ++ w2) ++ str ">" ++ w3)
  = Some (w1 ++ qualified q (g ++ t) ++ w2).
Proof.
  intros Hp H1 H2 H3. set (body := w1 ++ qualified q (g ++ t) ++ w2).
  assert (∀ w, forallb is_space w = true → ">"%char ∉ w) as Hsp.
  { intros w Hw Hin. rewrite forallb_forall in Hw. specialize (Hw ">"%char).
    rewrite list_elem_of_In in Hin. by specialize (Hw Hin). }
  assert (match_ptr (str "Ptr<" ++ body ++ str ">" ++ w3) = Some body) as Hm.
  { unfold match_ptr, after_prefix. rewrite startswith_app. cbn [mbind option_bind].
    change (drop (length (str "Ptr<")) (str "Ptr<" ++ ?x)) with x.
    change (str ">" ++ w3) with (">"%char :: w3). rewrite until_close_ok.
    - cbn [mbind option_bind]. rewrite H3, andb_true_r. destruct (edges_qualified q) as [(a & u & Ha & _) _]. subst body.
      rewrite Ha. by destruct w1.
    - subst body. rewrite !elem_of_app. intros [?|[?|?]]; [by apply (Hsp w1)| |by apply (Hsp w2)].
      by apply (close_qualified q). }
  assert (p = [] ∨ p = str "ns3::" ∨ p = str "::ns3::") as [-> | [-> | ->]] by set_solver; unfold rx_match.
  - change (after_prefix (str "ns3::") _) with (@None pystr). change (after_prefix (str "::ns3::") _) with (@None pystr).
    exact Hm.
  - unfold after_prefix at 1. rewrite startswith_app. cbn [mbind option_bind].
    change (drop (length (str "ns3::")) (str "ns3::" ++ ?x)) with x. by rewrite Hm.
  - change (after_prefix (str "ns3::") _) with (@None pystr). cbn [mbind option_bind].
    unfold after_prefix at 1. rewrite startswith_app. cbn [mbind option_bind].
    change (drop (length (str "::ns3::")) (str "::ns3::" ++ ?x)) with x. by rewrite Hm.
Qed.
End spellings.

(** Every way to write a smart pointer to a type (with or without namespace,
    spaces and const on either side) is untransformed to the same pointer, and
    the handler is made for one normal spelling, which has the same traits. *)
Theorem smart_pointer_normal t g p w1 w2 w3 q : base_type t → g ∈ [[]; str "::"] →
  p ∈ [[]; str "ns3::"; str "::ns3::"] →
  forallb is_space w1 = true → forallb is_space w2 = true → forallb is_space w3 = true →
  let name := p ++ str "Ptr<" ++ (w1 ++ qualified q (g ++ t) ++ w2) ++ str ">" ++ w3 in
  _get_untransformed_type_traits name = (Some (t ++ str " *"), is_const_q q) ∧
  create_type_handler ParameterClass name =
    Ok (str "transfer_ownership", normal q t, t ++ str " *") ∧
  _get_untransformed_type_traits (normal q t) = (Some (t ++ str " *"), is_const_q q).
Proof.
  intros Ht Hg Hp H1 H2 H3 name.
  assert (_get_untransformed_type_traits name = (Some (t ++ str " *"), is_const_q q)) as Hname.
  { apply (traits_of t Ht g Hg name w1 w2 q H1 H2). by apply match_spelled. }
  split; [done|]. split.
  - unfold create_type_handler. rewrite Hname. cbn [mbind res_bind res_of_option].
    rewrite (drop_end_app t (str " *") : drop_end 2 _ = _). done.
  - assert (normal q t = str "ns3::" ++ str "Ptr<" ++ (str " " ++ qualified (match q with Plain => Plain | _ => ConstAfter end)
      ([] ++ t) ++ str " ") ++ str ">" ++ []) as Hn.
    { unfold normal. rewrite app_nil_r. destruct q; cbn [qualified is_const_q]; cbn [app]; by rewrite <-!(assoc_L (++)). }
    rewrite Hn, (traits_of t Ht [] (list_elem_of_here _ _) _ (str " ") (str " ") (match q with Plain => Plain | _ => ConstAfter end)).
    + by destruct q.
    + done.
    + done.
    + apply match_spelled; [done|left|set_solver|done|done|done].
Qed.

Lemma smart_pointer_normal_witness :
  _get_untransformed_type_traits (str "::ns3::Ptr<const ns3::Packet> ") = (Some (str "ns3::Packet *"), true) ∧
  create_type_handler ParameterClass (str "::ns3::Ptr<const ns3::Packet> ") =
    Ok (str "transfer_ownership", str "ns3::Ptr< ns3::Packet const >", str "ns3::Packet *").
Proof.
  destruct (smart_pointer_normal (str "ns3::Packet") [] (str "::ns3::") [] [] (str " ") ConstBefore) as (H1 & H2 & _).
  - split; [|apply (bool_decide_unpack _); vm_compute; exact I|reflexivity|reflexivity|reflexivity|discriminate].
    split; eexists _, _; split; reflexivity.
  - left.
  - right; right; left.
  - reflexivity.
  - reflexivity.
  - reflexivity.
  - split; [exact H1|exact H2].
Defined.

(** ** Lemmas and theorems: modules *)

Lemma filter_all {A} (P : A → Prop) `{∀ x, Decision (P x)} (l : list A) : (∀ x, x ∈ l → P x) → filter P l = l.
Proof.
  induction l as [|x l IH]; intros Hl; [done|]. rewrite filter_cons_True by (apply Hl; left).
  f_equal. apply IH. intros y Hy. apply Hl. by right.
Qed.

Lemma list_remove_ok x l : NoDup l →
  list_remove x l = if decide (x ∈ l) then Ok (filter (λ y, x ≠ y) l) else Raise ValueError.
Proof.
  induction l as [|y l IH]; intros Hnd; [by rewrite decide_False by apply not_elem_of_nil|].
  apply NoDup_cons in Hnd as [Hy Hnd]. cbn [list_remove]. destruct (decide (x = y)) as [->|Hne].
  - rewrite decide_True by left. rewrite filter_cons_False by tauto. f_equal. symmetry.
    apply filter_all. intros z Hz ->. done.
  - rewrite IH by done. destruct (decide (x ∈ l)) as [Hx|Hx].
    + rewrite decide_True by by right. by rewrite filter_cons_True.
    + rewrite decide_False; [done|]. rewrite elem_of_cons. tauto.
Qed.

(** The module without the class of a name. *)
Definition leave_out (name : pystr) (m : pymodule) : pymodule :=
  MkModule (names m) (filter (λ x, aget name (names m) ≠ Some x) (classes m)) (enums m).

Lemma except_all_ok name m : NoDup (classes m) → except_all (remove_class name) m = (Ok tt, leave_out name m).
Proof.
  intros Hnd. unfold except_all, remove_class, leave_out. f_equal.
  destruct (aget name (names m)) as [c|] eqn:Hc; cbn.
  - rewrite list_remove_ok by done. case_decide as Hin; cbn; rewrite ?Hc.
    + f_equal. apply list_filter_iff. intros x. naive_solver.
    + destruct m as [ns cs es]. cbn in *. f_equal. symmetry. apply filter_all. intros x Hx [= ->]. done.
  - destruct m as [ns cs es]. cbn in *. f_equal. symmetry. by apply filter_all.
Qed.

Lemma leave_all_out ns m : NoDup (classes m) →
  ∃ m', st_for (λ n, except_all (remove_class n)) ns m = (Ok tt, m') ∧ names m' = names m ∧ enums m' = enums m ∧
    ∀ x, x ∈ classes m' ↔ x ∈ classes m ∧ ∀ n, n ∈ ns → aget n (names m) ≠ Some x.
Proof.
  revert m. induction ns as [|n ns IH]; intros m Hnd.
  - exists m. split_and!; try done. intros x. split; [|by intros [? _]]. intros Hx. split; [done|].
    by intros n Hn%elem_of_nil.
  - cbn [st_for]. rewrite (st_bind_step _ _ _ _ _ (except_all_ok n m Hnd)).
    destruct (IH (leave_out n m)) as (m' & -> & Hn & He & Hc); [by apply NoDup_filter|].
    exists m'. split_and!; [done|done|done|]. intros x. rewrite Hc. cbn [leave_out classes names].
    rewrite list_elem_of_filter. setoid_rewrite elem_of_cons. naive_solver.
Qed.

(** Without sqlite the statistics module leaves out exactly the classes that are
    registered under the four names, and no exception comes out; with it nothing
    changes. *)
Theorem sqlite_left_out enabled_features m : NoDup (classes m) →
  ∃ m', stats_features enabled_features m = (Ok tt, m') ∧ enums m' = enums m ∧
    ∀ x, x ∈ classes m' ↔ x ∈ classes m ∧
      (str "SQLiteStats" ∈ enabled_features ∨
       ∀ n, n ∈ map ns3_name ["SimpleRefCount< ns3::SQLiteOutput, ns3::empty, ns3::DefaultDeleter<ns3::SQLiteOutput> >";
                              "SQLiteOutput"; "SqliteDataOutput"; "DefaultDeleter< ns3::SQLiteOutput >"]%string →
            aget n (names m) ≠ Some x).
Proof.
  intros Hnd. unfold stats_features, without. case_bool_decide as Hf; cbn [st_when].
  - set (l := ["SimpleRefCount< ns3::SQLiteOutput, ns3::empty, ns3::DefaultDeleter<ns3::SQLiteOutput> >";
      "SQLiteOutput"; "SqliteDataOutput"; "DefaultDeleter< ns3::SQLiteOutput >"]%string).
    destruct (leave_all_out (map ns3_name l) m Hnd) as (m' & Hm & _ & He & Hc).
    exists m'. split; [exact Hm|]. split; [done|]. intros x. rewrite Hc. tauto.
  - exists m. split_and!; [done|done|]. intros x. tauto.
Qed.

(** The tap bridge insists on its classes: one that is not registered is a
    [KeyError], when its feature is off. *)
Theorem tap_bridge_strict enabled_features m : str "TapBridge" ∉ enabled_features →
  aget (ns3_name "TapBridge") (names m) = None → tap_bridge_features enabled_features m = (Raise KeyError, m).
Proof.
  intros Hf Hn. unfold tap_bridge_features, without. rewrite bool_decide_eq_true_2 by done.
  cbn [st_when]. apply st_bind_raise. cbn [st_for]. apply st_bind_raise. unfold remove_class. by rewrite Hn.
Qed.

Example overloads_distinct : bool_decide (NoDup wifi_overloads) = true ∧ length wifi_overloads = 21%nat.
Proof. split; vm_compute; reflexivity. Qed.

(** A step is, or is not, in an explicit list. *)
Ltac some_step := cbn; repeat first [apply list_elem_of_here | apply list_elem_of_further].
Ltac no_step :=
  let H := fresh in intros H; cbn in H;
  repeat (apply elem_of_cons in H as [H|H]; [discriminate H|]); by apply elem_of_nil in H.

(** The generator leaves [sys.path] as it found it, whatever the imports give;
    types are registered before methods and methods before functions, the
    customizations of a stage directly follow it, and the code is generated last. *)
Theorem main_ordered sys_path src extension import :
  (main sys_path src extension import).1 = sys_path ∧
  ∀ steps, (main sys_path src extension import).2 = Some steps →
    before steps RegisterTypes RegisterMethods ∧ before steps RegisterMethods RegisterFunctions ∧
    (∃ l, steps = l ++ [Generate]) ∧
    (PostRegisterTypes ∈ steps → ∃ l r, steps = l ++ RegisterTypes :: PostRegisterTypes :: r) ∧
    (PostRegisterMethods ∈ steps → ∃ l r, steps = l ++ RegisterMethods :: PostRegisterMethods :: r) ∧
    (PostRegisterFunctions ∈ steps → ∃ l r, steps = l ++ RegisterFunctions :: PostRegisterFunctions :: r).
Proof.
  unfold main. destruct (import _) as [[] c cs]; [|done]. cbn [has_apidefs negb customizations callbacks_list].
  split; [done|]. intros steps [= <-].
  destruct (default (MkCustom false false false) c) as [t m f]. generalize (default [] cs). intros callbacks.
  clear c cs import sys_path.
  split_and!.
  - eexists [_; _; _; _], _. split; [reflexivity|]. split; [|no_step]. destruct t; some_step.
  - destruct t; [eexists [_; _; _; _; _; _; _], _|eexists [_; _; _; _; _; _], _];
      (split; [reflexivity|]); (split; [|no_step]); destruct m; some_step.
  - destruct t, m, f; match goal with |- ∃ l, ?s = _ => exists (removelast s); reflexivity end.
  - destruct t; [intros _; by eexists [_; _; _; _], _|]. intros Hin. exfalso. revert Hin. destruct m, f; no_step.
  - destruct m; [intros _; destruct t; [by eexists [_; _; _; _; _; _; _], _|by eexists [_; _; _; _; _; _], _]|].
    intros Hin. exfalso. revert Hin. destruct t, f; no_step.
  - destruct f; [intros _; destruct t, m|intros Hin; exfalso; revert Hin; destruct t, m; no_step].
    + by eexists [_; _; _; _; _; _; _; _; _; _; _; _], _.
    + by eexists [_; _; _; _; _; _; _; _; _; _; _], _.
    + by eexists [_; _; _; _; _; _; _; _; _; _; _], _.
    + by eexists [_; _; _; _; _; _; _; _; _; _], _.
Qed.

(** The frames are reversed in the list of the wrapper itself: the second error
    of a wrapper is placed at the other end of its stack. *)
Theorem handle_error_alternates apidefs_file stack :
  let '(first, stack1) := handle_error apidefs_file stack in
  let '(second, stack2) := handle_error apidefs_file stack1 in
  stack2 = stack ∧
  first = List.find (λ l, bool_decide (l.1 = apidefs_file)) (rev stack) ∧
  second = List.find (λ l, bool_decide (l.1 = apidefs_file)) stack.
Proof. unfold handle_error. by rewrite rev_involutive. Qed.

Example handle_error_sample :
  let api := str "modulegen.py" in
  let '(first, stack) := handle_error api [(api, 10); (str "base.py", 3); (api, 20)] in
  (first, (handle_error api stack).1) = (Some (api, 20), Some (api, 10)).
Proof. vm_compute. reflexivity. Qed.

(** A class that cannot be constructed is to be reported as a
    [CodeGenerationError]; what is raised is the [TypeError] of the format. *)
Theorem construct_error c lvalue parameters construct_type_name ops : lvalue ≠ [] →
  startswith (str "None") lvalue = false → cannot_be_constructed c = true →
  ns3_object_instance_creation_function c lvalue parameters construct_type_name ops = (Raise TypeError, ops).
Proof.
  intros Hl Hn Hc. unfold ns3_object_instance_creation_function.
  by rewrite bool_decide_eq_false_2, Hn, Hc by done.
Qed.

Lemma attribute_customizations_idem cs : Attribute_customizations (Attribute_customizations cs) = Attribute_customizations cs.
Proof.
  unfold Attribute_customizations. rewrite map_map. apply map_ext. intros ms. rewrite map_map. apply map_ext.
  intros ps. rewrite map_map. apply map_ext. intros [r d t]. unfold attribute_param. cbn.
  destruct (bool_decide (r = _)) eqn:Hr, (bool_decide (is_Some d)) eqn:Hd, (bool_decide (t = None)) eqn:Ht;
    cbn; rewrite ?Hr, ?Hd, ?Ht; reflexivity.
Qed.

(** A callback parameter with a default value, and one whose handler is disabled. *)
Example callback_parameter_sample :
  let fresh (_ : list gen_op) (n : pystr) := n in
  let h := MkHandler (impl_class 2) [str "void"; str "ns3::Packet"] false in
  (convert_python_to_c fresh h (str "cb") None true []).1 = Ok tt ∧
  last (convert_python_to_c fresh h (str "cb") None true []).2
    = Some (CallParam (str "ns3::Callback<void, ns3::Packet> (cb_cb_impl)")) ∧
  last (convert_python_to_c fresh h (str "cb") (Some (str "0")) true []).2 = Some (CallParam (str "cb_value")) ∧
  convert_python_to_c fresh (MkHandler (impl_class 2) [] true) (str "cb") None true [] = (Raise GenericException, []).
Proof. vm_compute. split_and!; reflexivity. Qed.

Lemma callbacks_generated_witness :
  let cbs := [[str "void"; str "int"]; [str "odd"; str "int"]; [str "void"; str "odd"]] in
  let known s := bool_decide (s = str "void" ∨ s = str "int") in
  let param s := if bool_decide (s = str "odd") then None else Some None in
  NoDup (callback_name <$> cbs) ∧
  ∃ s, generate_callback_classes known param cbs
         (MkGen (register_callback_classes cbs []) [] [] []) = Ok s ∧
    (∃ im, (0%nat, im) ∈ flushed s) ∧
    aget (callback_name [str "odd"; str "int"]) (handlers s)
      = Some (MkHandler (impl_class 1) [str "odd"; str "int"] false) ∧
    aget (callback_name [str "void"; str "odd"]) (handlers s)
      = Some (MkHandler (impl_class 2) [str "void"; str "odd"] true).
Proof.
  intros cbs known param.
  assert (NoDup (callback_name <$> cbs)) as Hnd by (apply (bool_decide_unpack _); vm_compute; exact I).
  split; [exact Hnd|].
  destruct (callbacks_generated known param cbs (MkGen [] [] [] []) Hnd) as (s & Hs & Hall).
  { apply (bool_decide_unpack _). vm_compute. exact I. }
  exists s. split; [exact Hs|]. split; [|split].
  - apply (proj1 (Hall 0%nat _ eq_refl)). split; vm_compute; reflexivity.
  - rewrite (proj2 (Hall 1%nat _ eq_refl)). vm_compute. reflexivity.
  - rewrite (proj2 (Hall 2%nat _ eq_refl)). vm_compute. reflexivity.
Defined.
