(* ===== verification/PyXml.v ===== *)
(** * [xml.etree.ElementTree]: elements

    The element trees that the reports of test.py and flowmon-parse-results.py
    read, with [find], [findall] and [get], and the events of [iterparse]. *)
From Stdlib Require Import Ascii.
From S2P Require Export PyOs.
Open Scope Z_scope.

(** ** Element trees *)

(** Tag, attributes, text before the first child, children. *)
#[warnings="-register-all"]
Inductive element : Type :=
  Element (tag : pystr) (attrib : list (pystr * pystr)) (text : option pystr)
    (children : list element).

Definition tag (e : element) : pystr := let 'Element t _ _ _ := e in t.
Definition attrib (e : element) : list (pystr * pystr) := let 'Element _ a _ _ := e in a.
Definition etext (e : element) : option pystr := let 'Element _ _ t _ := e in t.
Definition children (e : element) : list element := let 'Element _ _ _ cs := e in cs.

(** [e.find(t)], [e.findall(t)] and [e.get(k)] *)
Definition has_tag (t : pystr) (e : element) : bool := bool_decide (tag e = t).
Definition findall (t : pystr) (e : element) : list element :=
  List.filter (has_tag t) (children e).
Definition find_elem (t : pystr) (e : element) : option element := head (findall t e).
Definition get_attrib (k : pystr) (e : element) : option pystr :=
  snd <$> List.find (λ kv, bool_decide (kv.1 = k)) (attrib e).

(** [e.findall('s/t')]: the grandchildren with tag [t] of children with tag [s]. *)
Definition findall2 (s t : pystr) (e : element) : list element :=
  concat (map (findall t) (findall s e)).

(** [iterparse(..., events=("start", "end"))]: the element of an end event is
    complete. *)
Variant event := EvStart (e : element) | EvEnd (e : element).
Fixpoint iterparse (e : element) : list event :=
  let 'Element _ _ _ cs := e in
  EvStart e :: (fix go (cs : list element) : list event :=
                  match cs with [] => [] | c :: cs => iterparse c ++ go cs end) cs ++ [EvEnd e].

Lemma element_induction (P : element → Prop) :
  (∀ t a x cs, Forall P cs → P (Element t a x cs)) → ∀ e, P e.
Proof.
  intros Hstep. fix IH 1. intros [t a x cs]. apply Hstep.
  induction cs as [|c cs IHcs]; constructor; [apply IH|exact IHcs].
Qed.

Lemma iterparse_eq e : iterparse e = EvStart e :: concat (map iterparse (children e)) ++ [EvEnd e].
Proof.
  destruct e as [t a x cs]. cbn [iterparse children]. do 2 f_equal.
  induction cs as [|c cs IH]; [done|]. cbn. by rewrite IH.
Qed.
