(* ===== verification/PyFloat.v ===== *)
(** * Python 3 and NumPy floats

    A float is a rational, an infinity or a NaN.  Rational results are kept
    reduced, so that equal numbers are equal terms.  Rounding, overflow to
    infinity and the sign of zero are not modelled.  Python and NumPy differ
    on a zero divisor: Python raises, NumPy gives an infinity or a NaN.
    [py_float] is [float(s)]; [py_min], [py_max] and [sort_by] compare the way
    the built-ins do, NaN included. *)
From Stdlib Require Export QArith Qreduction Qabs Qround Lqa.
From Stdlib Require Import Ascii String.
From S2P Require Export PyStr PyOs.
Open Scope Z_scope.

Inductive xfloat : Type :=
  | Fin (q : Q)
  | Inf (neg : bool)
  | NaN.

Definition fin (q : Q) : xfloat := Fin (Qred q).
Definition of_Z (z : Z) : xfloat := Fin (inject_Z z).

Definition Qlt_bool (a b : Q) : bool := negb (Qle_bool b a).
Definition Qneg_bool (a : Q) : bool := Qnum a <? 0.
Definition Qzero_bool (a : Q) : bool := Qnum a =? 0.

(** ** Arithmetic *)

Definition xneg (a : xfloat) : xfloat :=
  match a with Fin q => fin (- q) | Inf s => Inf (negb s) | NaN => NaN end.

Definition xadd (a b : xfloat) : xfloat :=
  match a, b with
  | Fin p, Fin q => fin (p + q)
  | NaN, _ | _, NaN => NaN
  | Inf s, Inf t => if Bool.eqb s t then Inf s else NaN
  | Inf s, _ | _, Inf s => Inf s
  end.
Definition xsub (a b : xfloat) : xfloat := xadd a (xneg b).

(** Whether a number other than a NaN is negative, and whether it is zero. *)
Definition xneg_bool (a : xfloat) : bool :=
  match a with Fin q => Qneg_bool q | Inf s => s | NaN => false end.
Definition xzero (a : xfloat) : bool := match a with Fin q => Qzero_bool q | _ => false end.

Definition xmul (a b : xfloat) : xfloat :=
  match a, b with
  | Fin p, Fin q => fin (p * q)
  | NaN, _ | _, NaN => NaN
  | _, _ => if xzero a || xzero b then NaN else Inf (xorb (xneg_bool a) (xneg_bool b))
  end.

(** NumPy division. *)
Definition np_div (a b : xfloat) : xfloat :=
  match a, b with
  | NaN, _ | _, NaN => NaN
  | Inf _, Inf _ => NaN
  | Fin _, Inf _ => Fin 0
  | Inf s, Fin q => Inf (xorb s (Qneg_bool q))
  | Fin p, Fin q => if Qzero_bool q then (if Qzero_bool p then NaN else Inf (Qneg_bool p))
                    else fin (p / q)
  end.

(** Python division. *)
Definition py_div (a b : xfloat) : res exn xfloat :=
  if xzero b then Raise ZeroDivisionError else Ok (np_div a b).

(** ** Comparison: everything is false on a NaN *)

Definition xlt (a b : xfloat) : bool :=
  match a, b with
  | NaN, _ | _, NaN => false
  | Fin p, Fin q => Qlt_bool p q
  | Inf s, Inf t => s && negb t
  | Inf s, Fin _ => s
  | Fin _, Inf t => negb t
  end.
Definition xeqb (a b : xfloat) : bool :=
  match a, b with
  | Fin p, Fin q => Qeq_bool p q
  | Inf s, Inf t => Bool.eqb s t
  | _, _ => false
  end.
Definition xle (a b : xfloat) : bool := xlt a b || xeqb a b.

(** The first smallest element of [x :: l]. *)
Definition min_by {A} (lt : A → A → bool) (x : A) (l : list A) : A :=
  fold_left (λ m y, if lt y m then y else m) l x.

(** [min(l)] and [max(l)]: a [ValueError] on an empty sequence. *)
Definition py_min (l : list xfloat) : res exn xfloat :=
  match l with [] => Raise ValueError | x :: l => Ok (min_by xlt x l) end.
Definition py_max (l : list xfloat) : res exn xfloat :=
  match l with [] => Raise ValueError | x :: l => Ok (min_by (flip xlt) x l) end.

(** ** [float(s)] *)

(** An underscore is dropped between two digits and is an error elsewhere. *)
Fixpoint drop_underscores (prev : bool) (s : pystr) : option pystr :=
  match s with
  | [] => Some []
  | c :: s' =>
      if decide (c = "_"%char) then
        match s' with
        | d :: _ => if prev && is_digit_in 10 d then drop_underscores false s' else None
        | [] => None
        end
      else (c ::.) <$> drop_underscores (is_digit_in 10 c) s'
  end.

(** The part before the first character that satisfies [p], and the part
    after it. *)
Fixpoint split_at (p : ascii → bool) (s : pystr) : pystr * option pystr :=
  match s with
  | [] => ([], None)
  | c :: s' => if p c then ([], Some s')
               else let '(u, r) := split_at p s' in (c :: u, r)
  end.

Definition sign_of (s : pystr) : bool * pystr :=
  match s with
  | c :: s' => if decide (c = "-"%char) then (true, s')
               else if decide (c = "+"%char) then (false, s') else (false, s)
  | [] => (false, [])
  end.

Definition all_digits (s : pystr) : bool := forallb (is_digit_in 10) s.

(** [q] times ten to the power [e]. *)
Definition scale10 (q : Q) (e : Z) : Q :=
  if 0 <=? e then q * inject_Z (10 ^ e) else q / inject_Z (10 ^ (- e)).

Definition decimal (s : pystr) : option Q :=
  let '(mant, ex) := split_at (λ c, bool_decide (c = "e"%char) || bool_decide (c = "E"%char)) s in
  let '(ip, fp) := split_at (λ c, bool_decide (c = "."%char)) mant in
  let fp := default [] fp in
  if negb (all_digits ip && all_digits fp) || bool_decide (ip ++ fp = []) then None
  else
    let q := scale10 (inject_Z (digits_val 10 (ip ++ fp))) (- Z.of_nat (length fp)) in
    match ex with
    | None => Some q
    | Some e =>
        let '(neg, ds) := sign_of e in
        if negb (all_digits ds) || bool_decide (ds = []) then None
        else Some (scale10 q (if neg then - digits_val 10 ds else digits_val 10 ds))
    end.

Definition py_float (s : pystr) : res exn xfloat :=
  let '(neg, body) := sign_of (strip s) in
  let word := upper body in
  if bool_decide (word = str "INF") || bool_decide (word = str "INFINITY") then Ok (Inf neg)
  else if bool_decide (word = str "NAN") then Ok NaN
  else match drop_underscores false body ≫= decimal with
       | Some q => Ok (fin (if neg then - q else q))
       | None => Raise ValueError
       end.

(** [round(x)] to an integer, [int(x)] and [math.ceil(x)]. *)
Definition py_round (a : xfloat) : res exn Z :=
  match a with Fin q => Ok (round_half_even q) | Inf _ => Raise OverflowError | NaN => Raise ValueError end.
Definition Qtrunc (q : Q) : Z := Z.quot (Qnum q) (Zpos (Qden q)).

(** ** Sorting by a key

    [sort_by lt l] is [sorted(l)] where [lt x y] says that the key of [x] is
    smaller: an element goes before the first one that is greater.  When [lt]
    is a strict weak order this is the stable sort; when no element is smaller
    than another, as with keys that are all NaN, the order does not change. *)
Section sort_by.
Context {A : Type} (lt : A → A → bool).

Fixpoint sort_insert (x : A) (l : list A) : list A :=
  match l with
  | [] => [x]
  | y :: l' => if lt x y then x :: l else y :: sort_insert x l'
  end.
Definition sort_by (l : list A) : list A := fold_left (λ acc x, sort_insert x acc) l [].
End sort_by.

(** ** Strict weak orders

    [lt] on the elements that satisfy [P]: numbers that are not NaN, or
    elements whose keys are. *)
Class WeakOrder {A} (P : A → Prop) (lt : A → A → bool) : Prop := {
  lt_irrefl x : P x → lt x x = false;
  lt_asym x y : P x → P y → lt x y = true → lt y x = false;
  lt_negtrans x y z : P x → P y → P z → lt x y = false → lt y z = false → lt x z = false;
}.

(** Some [x] of [l] has everything before it greater and nothing after it
    smaller: it is the first smallest element. *)
Definition first_min {A} (lt : A → A → bool) (l : list A) (x : A) : Prop :=
  ∃ l1 l2, l = l1 ++ x :: l2 ∧ Forall (λ y, lt x y = true) l1 ∧ Forall (λ y, lt y x = false) l2.

Section weak_order.
Context {A : Type} (P : A → Prop) (lt : A → A → bool) `{!WeakOrder P lt}.

Lemma lt_trans_l x y z : P x → P y → P z → lt x y = true → lt z y = false → lt x z = true.
Proof.
  intros Hx Hy Hz Hxy Hzy. apply not_false_is_true. intros Hxz.
  rewrite (lt_negtrans x z y) in Hxy; done.
Qed.

Lemma min_by_first l x : P x → Forall P l → first_min lt (x :: l) (min_by lt x l).
Proof.
  intros Hx Hl. unfold min_by.
  enough (∀ l' pre post m, P m → Forall P pre → Forall P post → Forall P l' →
    Forall (λ y, lt m y = true) pre → Forall (λ y, lt y m = false) post →
    first_min lt (pre ++ m :: post ++ l') (fold_left (λ m y, if lt y m then y else m) l' m)) as H.
  { apply (H l [] [] x); auto. }
  clear x l Hx Hl. induction l' as [|y l' IH]; intros pre post m Hm Hpre Hpost Hl Hlt Hge; cbn.
  - rewrite app_nil_r. by exists pre, post.
  - apply Forall_cons in Hl as [Hy Hl]. destruct (lt y m) eqn:Hym.
    + replace (pre ++ m :: post ++ y :: l') with ((pre ++ m :: post) ++ y :: [] ++ l')
        by (by rewrite <-app_assoc).
      apply IH; try done.
      { apply Forall_app_2; [done|]. by constructor. }
      { apply Forall_app_2; [|constructor; [done|]].
        - rewrite Forall_forall in Hlt, Hpre |- *. intros z Hz.
          apply (lt_trans_l y m z); auto. apply lt_asym; auto.
        - rewrite Forall_forall in Hge, Hpost |- *. intros z Hz.
          apply (lt_trans_l y m z); auto. }
    + replace (pre ++ m :: post ++ y :: l') with (pre ++ m :: (post ++ [y]) ++ l')
        by (by rewrite <-app_assoc).
      apply IH; try done; apply Forall_app_2; auto.
Qed.

Lemma first_min_unique l x y : Forall P l → first_min lt l x → first_min lt l y → x = y.
Proof.
  intros Hl (l1 & l2 & -> & H1 & H2) (k1 & k2 & Heq & K1 & K2).
  apply app_eq_inv in Heq as [([|z k] & -> & Hk)|([|z k] & -> & Hk)];
    cbn in Hk; [by injection Hk| |by injection Hk|]; injection Hk as <- ->.
  - apply Forall_app in H1 as [_ [H1 _]%Forall_cons].
    apply Forall_app in K2 as [_ [K2 _]%Forall_cons]. congruence.
  - apply Forall_app in K1 as [_ [K1 _]%Forall_cons].
    apply Forall_app in H2 as [_ [H2 _]%Forall_cons]. congruence.
Qed.

Lemma first_min_min l x y : Forall P l → first_min lt l x → y ∈ l → lt y x = false.
Proof.
  intros HP (l1 & l2 & -> & H1 & H2) [Hy|[->|Hy]%elem_of_cons]%elem_of_app.
  - apply Forall_app in HP as [HP1 [HPx _]%Forall_cons]. rewrite Forall_forall in H1, HP1.
    apply lt_asym; auto.
  - apply lt_irrefl. by apply Forall_app in HP as [_ [? _]%Forall_cons].
  - rewrite Forall_forall in H2. auto.
Qed.
End weak_order.

Lemma first_min_elem {A} (lt : A → A → bool) l x : first_min lt l x → x ∈ l.
Proof. intros (l1 & l2 & -> & _). set_solver. Qed.

(** A projection of the key keeps the first smallest element. *)
Lemma first_min_fmap {A B} (f : A → B) (lt : B → B → bool) l x :
  first_min (λ y z, lt (f y) (f z)) l x → first_min lt (f <$> l) (f x).
Proof.
  intros (l1 & l2 & -> & H1 & H2). exists (f <$> l1), (f <$> l2).
  rewrite fmap_app. split_and!; [done|..]; by apply Forall_fmap.
Qed.

(** The sorted list has the same elements; its head is the first smallest. *)
Section sort_facts.
Context {A : Type} (lt : A → A → bool).

Lemma sort_insert_perm x l : sort_insert lt x l ≡ₚ x :: l.
Proof.
  induction l as [|y l IH]; cbn; [done|]. destruct (lt x y); [done|].
  rewrite IH. apply perm_swap.
Qed.
Lemma sort_perm l : sort_by lt l ≡ₚ l.
Proof.
  unfold sort_by. change l with ([] ++ l) at 2. generalize (@nil A) as acc.
  induction l as [|x l IH]; intros acc; cbn; [by rewrite app_nil_r|].
  rewrite IH, sort_insert_perm. by rewrite <-Permutation_middle.
Qed.

Lemma sort_by_head x l : ∃ l', sort_by lt (x :: l) = min_by lt x l :: l'.
Proof.
  unfold sort_by, min_by. cbn. change [x] with (x :: []). generalize (@nil A) as acc.
  revert x. induction l as [|y l IH]; intros x acc; cbn; [by exists acc|].
  destruct (lt y x); apply IH.
Qed.

Lemma sort_by_id l : (∀ x y, x ∈ l → y ∈ l → lt x y = false) → sort_by lt l = l.
Proof.
  intros Hl. unfold sort_by.
  enough (∀ k acc, acc ++ k = l → fold_left (λ acc x, sort_insert lt x acc) k acc = l)
    as H by by apply H.
  induction k as [|x k IH]; intros acc Heq; cbn; [by rewrite app_nil_r in Heq|].
  assert (sort_insert lt x acc = acc ++ [x]) as ->.
  { assert (∀ y, y ∈ acc → lt x y = false) as Hx by (intros; apply Hl; set_solver).
    clear -Hx. induction acc as [|y acc IH]; cbn; [done|].
    rewrite (Hx y) by set_solver. f_equal. apply IH. set_solver. }
  apply IH. by rewrite <-app_assoc.
Qed.
End sort_facts.

(** ** Finite numbers *)

Definition finite (a : xfloat) : Prop := ∃ q, a = Fin q.
Definition xval (a : xfloat) : Q := match a with Fin q => q | _ => 0 end.

Lemma Qlt_bool_iff a b : Qlt_bool a b = true ↔ (a < b)%Q.
Proof.
  unfold Qlt_bool. rewrite negb_true_iff. split.
  - intros Hf. apply Qnot_le_lt. intros Hle%Qle_bool_iff. congruence.
  - intros Hlt. apply not_true_iff_false. intros Hle%Qle_bool_iff. by apply Qlt_not_le in Hlt.
Qed.
Lemma Qlt_bool_false a b : Qlt_bool a b = false ↔ (b <= a)%Q.
Proof. unfold Qlt_bool. rewrite negb_false_iff. apply Qle_bool_iff. Qed.
Lemma Qzero_bool_iff a : Qzero_bool a = true ↔ (a == 0)%Q.
Proof. unfold Qzero_bool, Qeq. rewrite Z.eqb_eq. cbn. lia. Qed.
Lemma Qneg_bool_iff a : Qneg_bool a = true ↔ (a < 0)%Q.
Proof. unfold Qneg_bool, Qlt. rewrite Z.ltb_lt. cbn. lia. Qed.

Lemma fin_eq p q : (p == q)%Q → fin p = fin q.
Proof. intros. unfold fin. f_equal. by apply Qred_complete. Qed.
Lemma xval_fin q : (xval (fin q) == q)%Q.
Proof. apply Qred_correct. Qed.
Lemma finite_fin q : finite (fin q).
Proof. by eexists. Qed.
#[export] Hint Resolve finite_fin : py.

#[export] Instance xlt_weak : WeakOrder finite xlt.
Proof.
  split.
  - intros ? [q ->]. apply Qlt_bool_false. apply Qle_refl.
  - intros ?? [p ->] [q ->] ?%Qlt_bool_iff. apply Qlt_bool_false. by apply Qlt_le_weak.
  - intros ??? [p ->] [q ->] [r ->] H1%Qlt_bool_false H2%Qlt_bool_false.
    apply Qlt_bool_false. by apply (Qle_trans _ q).
Qed.
Lemma flip_weak {A} (P : A → Prop) lt : WeakOrder P lt → WeakOrder P (flip lt).
Proof.
  intros [Hi Ha Hn]. split; unfold flip.
  - done.
  - intros x y Hx Hy. by apply Ha.
  - intros x y z Hx Hy Hz H1 H2. by apply (Hn z y x).
Qed.
#[export] Instance flip_xlt_weak : WeakOrder finite (flip xlt).
Proof. apply flip_weak, _. Qed.
(** A key that satisfies [P] orders the elements. *)
Lemma key_weak {A B} (f : A → B) P lt :
  WeakOrder P lt → WeakOrder (λ x, P (f x)) (λ x y, lt (f x) (f y)).
Proof. intros [Hi Ha Hn]. split; eauto. Qed.

Lemma py_min_ok l : l ≠ [] → Forall finite l → ∃ m, py_min l = Ok m ∧ first_min xlt l m.
Proof.
  destruct l as [|x l]; [done|]. intros _ [Hx Hl]%Forall_cons. eexists. split; [done|].
  apply (min_by_first finite xlt); assumption.
Qed.
Lemma py_max_ok l : l ≠ [] → Forall finite l → ∃ m, py_max l = Ok m ∧ first_min (flip xlt) l m.
Proof.
  destruct l as [|x l]; [done|]. intros _ [Hx Hl]%Forall_cons. eexists. split; [done|].
  by apply (min_by_first finite _).
Qed.

Example py_float_examples :
  py_float (str " -12.5e-1 ") = Ok (Fin (-5 # 4)) ∧ py_float (str "nan") = Ok NaN ∧
  py_float (str "-Infinity") = Ok (Inf true) ∧ py_float (str "1_0.") = Ok (Fin 10) ∧
  py_float (str ".") = Raise ValueError ∧ py_float (str "1e") = Raise ValueError ∧
  py_float (str "_1") = Raise ValueError ∧ py_float (str ".5") = Ok (Fin (1 # 2)).
Proof. vm_compute. split_and!; reflexivity. Qed.
