(* ===== verification/RadFloat.v ===== *)
(** * rad_util.py: areas, quantiles, units and ranges of floats

    The functions of bindings/python/rad_util.py on integers mixed with floats:
    [polygon_area], [quantile], [trim], [nice_units], [random_vec] and
    [float_range].  Numbers are those of [PyNum] (Python 2: the division of
    integers floors); random draws are an argument. *)
From Stdlib Require Import Qpower Ascii String.
From S2P Require Import PyFloat.
From S2P Require Export RadUtil PyNum.
Open Scope Z_scope.

(** ** [polygon_area] *)

(** The list of points is changed: each point is scaled and truncated, and the
    first one is repeated at the end unless it is there. *)
Definition scale_point (precision : Z) (p : num * num) : Z * Z :=
  (nint (nmul p.1 (PInt precision)), nint (nmul p.2 (PInt precision))).
Definition close_polygon (points : list (Z * Z)) : res exn (list (Z * Z)) :=
  l ← res_of_option IndexError (last points);
  f ← res_of_option IndexError (head points);
  mret (if bool_decide (l = f) then points else points ++ [f]).
Fixpoint cross_sum (points : list (Z * Z)) (area : Z) : Z :=
  match points with
  | (x, y) :: ((x1, y1) :: _) as points' => cross_sum points' (area + x1 * y - y1 * x)
  | _ => area
  end.
(** The area and the list that the caller is left with. *)
Definition polygon_area (points_list : list (num * num)) (precision : Z) : res exn (Q * list (Z * Z)) :=
  points ← close_polygon (scale_point precision <$> points_list);
  let area := Z.abs (cross_sum points 0 / 2) in
  if precision =? 0 then Raise ZeroDivisionError
  else mret ((inject_Z area / inject_Z (precision ^ 2))%Q, points).

(** ** [quantile] and [trim] *)

Definition sort_nums (l : list num) : list num := PyFloat.sort_by nlt l.
Definition quantile (l : list num) (p : num) : res exn num :=
  let l_sort := sort_nums l in
  let n := Z.of_nat (length l) in
  let r := nadd (PInt 1) (nmul (PInt (n - 1)) p) in
  let i := nint r in
  let f := nsub r (PInt i) in
  a ← res_of_option IndexError (py_get l_sort (i - 1));
  if i <? n then
    b ← res_of_option IndexError (py_get l_sort i);
    mret (nadd (nmul (nsub (PInt 1) f) a) (nmul f b))
  else mret a.

(** The median is computed and not used; an empty list makes it raise. *)
Definition median (l_sort : list num) : res exn num :=
  let index := Z.of_nat (length l_sort) / 2 in
  b ← res_of_option IndexError (py_get l_sort index);
  if Z.even (Z.of_nat (length l_sort)) then
    a ← res_of_option IndexError (py_get l_sort (index - 1));
    ndiv (nfloat (nadd b a)) (PInt 2)
  else mret b.
Definition trim (l : list num) : res exn (list num) :=
  let l_sort := sort_nums l in
  _ ← median l_sort;
  q1 ← quantile l_sort (PFloat (1 # 4));
  q3 ← quantile l_sort (PFloat (3 # 4));
  let i := nmul (nsub q3 q1) (PFloat (3 # 2)) in
  mret (base.filter (λ x, nle (nsub q1 i) x && nle x (nadd q3 i) = true) l_sort).

(** ** [nice_units] *)

Definition prefix : Type := num * (pystr * pystr).
Definition ten (e : Z) : num := PFloat (inject_Z 10 ^ e)%Q.
Definition si_prefixes : list prefix := [
  (ten 24, (str "Y", str "yotta")); (ten 21, (str "Z", str "zetta")); (ten 18, (str "E", str "exa"));
  (ten 15, (str "P", str "peta")); (ten 12, (str "T", str "tera")); (ten 9, (str "G", str "giga"));
  (ten 6, (str "M", str "mega")); (ten 3, (str "k", str "kilo")); (ten (-3), (str "m", str "milli"));
  (ten (-6), (str "u", str "micro")); (ten (-9), (str "n", str "nano")); (ten (-12), (str "p", str "pico"));
  (ten (-15), (str "f", str "femto")); (ten (-18), (str "a", str "atto")); (ten (-21), (str "z", str "zepto"));
  (ten (-24), (str "y", str "yocto"))].
Definition extra_prefixes : list prefix := [
  (ten 2, (str "h", str "hecto")); (ten 1, (str "da", str "deka")); (ten (-1), (str "d", str "deci"));
  (ten (-2), (str "c", str "centi"))].
Definition bin_prefixes : list prefix := [
  (PInt (2 ^ 10), (str "K", str "kilo")); (PInt (2 ^ 20), (str "M", str "mega"));
  (PInt (2 ^ 30), (str "G", str "mega")); (PInt (2 ^ 40), (str "T", str "tera"));
  (PInt (2 ^ 50), (str "P", str "peta")); (PInt (2 ^ 60), (str "E", str "exa"))].
Definition prefixes (bin extra : bool) : list prefix :=
  (if bin then bin_prefixes else si_prefixes ++ if extra then extra_prefixes else []) ++ [(PInt 1, ([], []))].

Definition multipliers (bin extra : bool) : list prefix :=
  PyFloat.sort_by (λ a b : prefix, nlt a.1 b.1) (prefixes bin extra).

(** [round(x, dp)] of Python 2: halves away from zero. *)
Definition round_away (q : Q) : Z := Z.sgn (Qnum q) * Qfloor (Qabs q + (1 # 2)).
Definition round_dp (dp : Z) (q : Q) : Q := (inject_Z (round_away (q * inject_Z 10 ^ dp)) / inject_Z 10 ^ dp)%Q.

(** The place of the multiplier in the sorted list. *)
Fixpoint find_multiplier (i : nat) (ms : list prefix) (value : num) : option nat :=
  match ms with
  | lower :: ((upper :: _) as ms') =>
      if nle lower.1 value && nlt value upper.1 then Some i else find_multiplier (S i) ms' value
  | _ => None
  end.
Definition first_multiplier (ms : list prefix) (value : num) : res exn nat :=
  match find_multiplier 0 ms value with
  | Some i => mret i
  | None =>
      lo ← res_of_option IndexError (head ms);
      hi ← res_of_option IndexError (last ms);
      if nlt value lo.1 then mret 0%nat
      else if nle hi.1 value then mret (length ms - 1)%nat
      else Raise UnboundLocalError
  end.
(** The multiplier and the value to show: the next multiplier when the rounded
    value reaches it. *)
Definition choose_multiplier (ms : list prefix) (dp : Z) (by_digits : bool) (value : num) : res exn (prefix * num) :=
  i ← first_multiplier ms value;
  m ← res_of_option IndexError (ms !! i);
  new_value ← ndiv value m.1;
  match (if by_digits then None else ms !! S i) with
  | Some next =>
      ratio ← ndiv next.1 m.1;
      if Qeq_bool (round_dp dp (nq new_value)) (round_dp dp (nq ratio))
      then v ← ndiv value next.1; mret (next, v)
      else mret (m, new_value)
  | None => mret (m, new_value)
  end.

(** ['%.<dp>f' % q] *)
Definition pad_left (n : nat) (s : pystr) : pystr := replicate (n - length s) "0"%char ++ s.
Definition fmt_f (dp : nat) (q : Q) : pystr :=
  let m := round_half_even (Qabs q * inject_Z 10 ^ Z.of_nat dp) in
  let d := 10 ^ Z.of_nat dp in
  (if Qnum q <? 0 then str "-" else []) ++ digits 10 (m / d) ++
    (if (dp =? 0)%nat then [] else str "." ++ pad_left dp (digits 10 (m mod d))).
(** ['%.<n>g' % q]: [n] significant digits, without the zeros at the end. *)
Fixpoint decimal_exponent (fuel : nat) (e : Z) (q : Q) : Z :=
  match fuel with
  | O => e
  | S fuel =>
      if Qle_bool (inject_Z 10 ^ (e + 1))%Q q then decimal_exponent fuel (e + 1) q
      else if Qle_bool (inject_Z 10 ^ e)%Q q then e
      else decimal_exponent fuel (e - 1) q
  end.
Fixpoint drop_zeros (s : pystr) : pystr :=
  match s with
  | c :: s' => if decide (c = "0"%char) then drop_zeros s' else s
  | [] => []
  end.
Definition strip_zeros (s : pystr) : pystr :=
  if bool_decide ("."%char ∈ s) then
    rev (match drop_zeros (rev s) with "."%char :: s' => s' | s' => s' end)
  else s.
Definition fmt_g (n : nat) (q : Q) : pystr :=
  let n := max n 1 in
  let a := Qabs q in
  let neg := if Qnum q <? 0 then str "-" else [] in
  if Qeq_bool a 0 then str "0"
  else
    let e := decimal_exponent (Z.to_nat (Z.log2 (Qnum a) + Z.log2 (Zpos (Qden a)) + 3)) 0 a in
    let m := round_half_even (a * inject_Z 10 ^ (Z.of_nat n - 1 - e)) in
    let '(m, e) := if m =? 10 ^ Z.of_nat n then (m / 10, e + 1) else (m, e) in
    if (-4 <=? e) && (e <? Z.of_nat n)
    then neg ++ strip_zeros (fmt_f (Z.to_nat (Z.of_nat n - 1 - e)) (inject_Z m * inject_Z 10 ^ (e - (Z.of_nat n - 1))))
    else neg ++ strip_zeros (fmt_f (n - 1) (inject_Z m / inject_Z 10 ^ (Z.of_nat n - 1))) ++ str "e" ++
           (if e <? 0 then str "-" else str "+") ++ pad_left 2 (digits 10 (Z.abs e)).

(** A negative precision is no format. *)
Definition nice_units (value : num) (dp : Z) (sigfigs : option Z) (suffix space : pystr)
    (use_extra_prefixes use_full_name bin : bool) : res exn pystr :=
  let ms := multipliers bin use_extra_prefixes in
  let by_digits := match sigfigs with Some _ => true | None => false end in
  '(m, v) ← choose_multiplier ms dp by_digits value;
  let p := default dp sigfigs in
  if p <? 0 then Raise ValueError
  else mret ((if by_digits then fmt_g (Z.to_nat p) (nq v) else fmt_f (Z.to_nat p) (nq v)) ++ space ++
               (if use_full_name then m.2.2 else m.2.1) ++ suffix).

(** ** [random_vec] and [float_range] *)

(** [draws] are the results of [random.random()]. *)
Definition draw_bits (vector : pystr) (draw : Q) : res exn pystr :=
  s ← int2bin false (Qfloor (1024 * draw)) 10; mret (vector ++ s).
Definition random_vec (bits : nat) (max_value : option Z) (draws : list Q) : res exn pystr :=
  vector ← fold_res draw_bits [] (take (bits / 10 + 1) draws);
  let top := 2 ^ Z.of_nat bits - 1 in
  vector ← match max_value with
           | Some m =>
               if negb (m =? 0) && (m <? top) then
                 if top =? 0 then Raise ZeroDivisionError
                 else v ← bin2int vector; let i := v / top * m in int2bin (2 ^ 63 <=? i) i (Z.of_nat bits)
               else mret vector
           | None => mret vector
           end;
  mret (take bits vector).

Definition float_range (fuel : nat) (start : Q) (stop step : option Q) : option (list Q) :=
  let '(start, stop) := match stop with None => (0%Q, start) | Some stop => (start, stop) end in
  progression fuel start (default 1%Q step) stop.

(** ** Examples *)

Definition ints (l : list (Z * Z)) : list (num * num) := (λ p, (PInt p.1, PInt p.2)) <$> l.
Example area_doc :
  match polygon_area (ints [(0, 0); (0, 1); (1, 1); (1, 2); (2, 2); (2, 0); (0, 0)]) 100 with
  | Ok (a, _) => Qred a = 3%Q | Raise _ => False end.
Proof. reflexivity. Qed.
Example units_doc : nice_units (PFloat (2 # 100000000000)) 0 None [] (str " ") false false false = Ok (str "20 p").
Proof. vm_compute. reflexivity. Qed.
Example units_digits :
  nice_units (PFloat (123456 # 10)) 0 (Some 3) (str "Hz") (str " ") false false false = Ok (str "12.3 kHz").
Proof. vm_compute. reflexivity. Qed.
Example units_rounded : nice_units (PFloat (9996 # 10)) 0 None [] (str " ") false true false = Ok (str "1 kilo").
Proof. vm_compute. reflexivity. Qed.
Example quantile_example :
  match quantile (PInt <$> [9; 1; 5; 3]) (PFloat (1 # 4)) with Ok q => Qred (nq q) = (5 # 2)%Q | Raise _ => False end.
Proof. vm_compute. reflexivity. Qed.
Example trim_example : trim (PInt <$> [100; 1; 2; 3; 4]) = Ok (PInt <$> [1; 2; 3; 4]).
Proof. vm_compute. reflexivity. Qed.
Example range_example : float_range 10 0 (Some 1%Q) (Some (1 # 4)) = Some ([0; 0 + (1 # 4); 0 + (1 # 4) + (1 # 4); 0 + (1 # 4) + (1 # 4) + (1 # 4)]%Q).
Proof. vm_compute. reflexivity. Qed.

(** ** Sorting numbers *)

Definition nval (l : list num) (i : nat) : Q := nq (default (PInt 0) (l !! i)).
Definition sorted (l : list num) : Prop := StronglySorted (λ a b, nq a <= nq b)%Q l.

Lemma sort_insert_sorted x l : sorted l → sorted (PyFloat.sort_insert nlt x l).
Proof.
  unfold sorted. induction 1 as [|y l Hl IH Hy]; cbn; [by repeat constructor|].
  destruct (nlt x y) eqn:E.
  - apply nlt_spec in E. constructor; [by constructor|]. constructor; [lra|].
    eapply Forall_impl; [exact Hy|]. cbn. intros z Hz. lra.
  - apply nlt_false in E. constructor; [exact IH|]. rewrite PyFloat.sort_insert_perm. by constructor.
Qed.
Lemma sort_nums_sorted l : sorted (sort_nums l).
Proof.
  unfold sort_nums, PyFloat.sort_by. assert (sorted []) as H by constructor. revert H. generalize (@nil num).
  induction l as [|x l IH]; intros acc H; cbn; [done|]. by apply IH, sort_insert_sorted.
Qed.
Lemma sort_nums_perm l : sort_nums l ≡ₚ l.
Proof. apply PyFloat.sort_perm. Qed.
Lemma sort_nums_length l : length (sort_nums l) = length l.
Proof. by rewrite sort_nums_perm. Qed.
Lemma sorted_nval l i j : sorted l → (i <= j < length l)%nat → (nval l i <= nval l j)%Q.
Proof.
  intros Hl. revert i j. induction Hl as [|x l Hl IH Hx]; intros i j Hij; [cbn in *; lia|].
  destruct i as [|i], j as [|j]; cbn [length] in Hij; [apply Qle_refl| |lia|apply (IH i j); lia].
  destruct (lookup_lt_is_Some_2 l j) as [y Hy]; [lia|]. unfold nval. change ((x :: l) !! S j) with (l !! j). rewrite Hy. cbn.
  rewrite Forall_forall in Hx. apply Hx. by eapply list_elem_of_lookup_2.
Qed.
Lemma sort_nums_id l : sorted l → sort_nums l = l.
Proof.
  intros Hl. unfold sort_nums, PyFloat.sort_by.
  enough (∀ k acc, acc ++ k = l → fold_left (λ acc x, PyFloat.sort_insert nlt x acc) k acc = l) as H by by apply H.
  induction k as [|x k IH]; intros acc Heq; cbn; [by rewrite app_nil_r in Heq|].
  assert (PyFloat.sort_insert nlt x acc = acc ++ [x]) as ->.
  { assert (∀ y, y ∈ acc → (nq y <= nq x)%Q) as Hx.
    { intros y Hy. rewrite <-Heq in Hl. clear -Hl Hy. induction acc as [|z acc IH]; [by apply elem_of_nil in Hy|].
      cbn in Hl. apply StronglySorted_inv in Hl as [Hl Hz]. apply elem_of_cons in Hy as [->|Hy]; [|by apply IH].
      rewrite Forall_forall in Hz. apply Hz. set_solver. }
    clear -Hx. induction acc as [|y acc IH]; cbn; [done|].
    rewrite (proj2 (nlt_false x y)) by (apply Hx; by left). f_equal. apply IH. intros z Hz. apply Hx. by right. }
  apply IH. by rewrite <-app_assoc.
Qed.

(** ** Quantiles: facts *)

(** The value at place [h] of a list, on the line between its neighbours. *)
Definition interpolate (s : list num) (h : Q) : Q :=
  let k := Qfloor h in
  ((1 - (h - inject_Z k)) * nval s (Z.to_nat k) + (h - inject_Z k) * nval s (S (Z.to_nat k)))%Q.
(** The place of the quantile [p] in a list of [n] elements. *)
Definition place (n : nat) (p : Q) : Q := (inject_Z (Z.of_nat n - 1) * p)%Q.

Lemma nint_floor a : (0 <= nq a)%Q → nint a = Qfloor (nq a).
Proof.
  destruct a as [z|[x d]]; cbn; intros H; [symmetry; apply (Qfloor_Z z)|]. unfold Qle in H. cbn in H.
  apply Z.quot_div_nonneg; lia.
Qed.
Lemma floor_between h : (inject_Z (Qfloor h) <= h < inject_Z (Qfloor h) + 1)%Q.
Proof.
  split; [apply Qfloor_le|]. pose proof (Qlt_floor h) as H. rewrite inject_Z_plus in H. exact H.
Qed.
Lemma Qfloor_unique h k : (inject_Z k <= h → h < inject_Z k + 1 → Qfloor h = k)%Q.
Proof.
  intros H1 H2. destruct (floor_between h) as [H3 H4].
  assert (inject_Z (Qfloor h) < inject_Z (k + 1))%Q as H5 by (rewrite inject_Z_plus; change (inject_Z 1) with 1%Q; lra).
  assert (inject_Z k < inject_Z (Qfloor h + 1))%Q as H6 by (rewrite inject_Z_plus; change (inject_Z 1) with 1%Q; lra).
  rewrite <-Zlt_Qlt in H5, H6. lia.
Qed.
Lemma place_bounds n p : (0 < n)%nat → (0 <= p <= 1)%Q → (0 <= place n p <= inject_Z (Z.of_nat n - 1))%Q.
Proof.
  intros Hn [H0 H1]. unfold place. assert (0 <= inject_Z (Z.of_nat n - 1))%Q as H by (rewrite <-(Zle_Qle 0); lia).
  split; nra.
Qed.
Lemma place_floor n p : (0 < n)%nat → (0 <= p <= 1)%Q → 0 <= Qfloor (place n p) <= Z.of_nat n - 1.
Proof.
  intros Hn Hp. destruct (place_bounds n p Hn Hp) as [H0 H1]. split.
  - by apply (Qfloor_resp_le 0).
  - rewrite <-(Qfloor_Z (Z.of_nat n - 1)). by apply Qfloor_resp_le.
Qed.
Lemma quantile_value l p :
  l ≠ [] → (0 <= nq p <= 1)%Q →
  ∃ r, quantile l p = Ok r ∧ (nq r == interpolate (sort_nums l) (place (length l) (nq p)))%Q.
Proof.
  intros Hl Hp. assert (0 < length l)%nat as Hn by (destruct l; [done|cbn; lia]).
  pose proof (place_floor _ _ Hn Hp) as Hk. pose proof (place_bounds _ _ Hn Hp) as Hb.
  set (h := place (length l) (nq p)) in *. set (k := Qfloor h) in *. unfold quantile.
  set (r := nadd (PInt 1) (nmul (PInt (Z.of_nat (length l) - 1)) p)).
  assert (nq r == 1 + h)%Q as Hr by (unfold r; rewrite nq_add, nq_mul; reflexivity).
  pose proof (floor_between h) as [Hk1 Hk2]. fold k in Hk1, Hk2.
  assert (nint r = k + 1) as Hi.
  { rewrite nint_floor by lra. apply Qfloor_unique; rewrite inject_Z_plus; change (inject_Z 1) with 1%Q; lra. }
  rewrite Hi. replace (k + 1 - 1) with (Z.of_nat (Z.to_nat k)) by lia. rewrite py_get_nat.
  destruct (lookup_lt_is_Some_2 (sort_nums l) (Z.to_nat k)) as [a Ha]; [rewrite sort_nums_length; lia|].
  rewrite Ha. cbn [res_of_option mbind res_bind].
  assert (interpolate (sort_nums l) h == (1 - (h - inject_Z k)) * nq a + (h - inject_Z k) * nval (sort_nums l) (S (Z.to_nat k)))%Q
    as Hint by (unfold interpolate; fold k; unfold nval at 1; rewrite Ha; reflexivity).
  destruct (Z.ltb_spec (k + 1) (Z.of_nat (length l))) as [Hlt|Hge].
  - destruct (lookup_lt_is_Some_2 (sort_nums l) (S (Z.to_nat k))) as [b Hb']; [rewrite sort_nums_length; lia|].
    assert (py_get (sort_nums l) (k + 1) = Some b) as ->
      by (replace (k + 1) with (Z.of_nat (S (Z.to_nat k))) by lia; by rewrite py_get_nat).
    cbn [res_of_option mbind res_bind]. eexists. split; [done|].
    rewrite Hint, nq_add, !nq_mul, !nq_sub, Hr. unfold nval. rewrite Hb'. cbn [from_option id nq].
    rewrite inject_Z_plus. change (inject_Z 1) with 1%Q. ring.
  - exists a. split; [done|]. rewrite Hint. assert (k = Z.of_nat (length l) - 1) as Hk' by lia.
    assert (h == inject_Z k)%Q as -> by (rewrite Hk'; rewrite Hk' in Hk1; lra). ring.
Qed.

Lemma interpolate_bounds s h :
  sorted s → s ≠ [] → (0 <= h <= inject_Z (Z.of_nat (length s) - 1))%Q →
  let k := Z.to_nat (Qfloor h) in
  (k < length s)%nat ∧ (nval s k <= interpolate s h <= nval s (min (S k) (length s - 1)))%Q.
Proof.
  intros Hs Hne [H0 H1] k. assert (0 < length s)%nat as Hn by (destruct s; [done|cbn; lia]).
  assert (0 <= Qfloor h)%Z as Hk0 by by apply (Qfloor_resp_le 0).
  assert (Qfloor h <= Z.of_nat (length s) - 1)%Z as Hk1.
  { rewrite <-(Qfloor_Z (Z.of_nat (length s) - 1)). by apply Qfloor_resp_le. }
  pose proof (floor_between h) as [Hf0 Hf1]. split; [lia|]. unfold interpolate. fold k.
  destruct (decide (S k < length s)%nat) as [Hk|Hk].
  - rewrite Nat.min_l by lia. pose proof (sorted_nval s k (S k) Hs ltac:(lia)) as Hv.
    set (f := (h - inject_Z (Qfloor h))%Q) in *. assert (0 <= f /\ f <= 1)%Q as [? ?] by (unfold f; lra). split; nra.
  - assert (Qfloor h = Z.of_nat (length s) - 1) as Hq by lia. rewrite <-Hq in H1.
    assert (h - inject_Z (Qfloor h) == 0)%Q as -> by lra. rewrite Nat.min_r by lia.
    replace (length s - 1)%nat with k by lia. split; lra.
Qed.
Lemma interpolate_mono s h h' :
  sorted s → s ≠ [] → (0 <= h → h <= h' → h' <= inject_Z (Z.of_nat (length s) - 1) →
  interpolate s h <= interpolate s h')%Q.
Proof.
  intros Hs Hne H0 Hle H1. destruct (interpolate_bounds s h Hs Hne) as [Hk [Ha Hb]]; [split; lra|].
  destruct (interpolate_bounds s h' Hs Hne) as [Hk' [Ha' Hb']]; [split; lra|].
  assert (0 <= Qfloor h)%Z as Hf0 by by apply (Qfloor_resp_le 0).
  pose proof (Qfloor_resp_le _ _ Hle) as Hf. destruct (decide (Qfloor h = Qfloor h')) as [Hq|Hq].
  - unfold interpolate. rewrite <-Hq in Hb' |- *. set (k := Z.to_nat (Qfloor h)) in *.
    destruct (decide (S k < length s)%nat) as [Hlt|Hge].
    + pose proof (sorted_nval s k (S k) Hs ltac:(lia)) as Hv. nra.
    + assert (Qfloor h = Z.of_nat (length s) - 1) as Hq' by lia. rewrite <-Hq' in H1.
      pose proof (floor_between h) as [Hf1 _]. assert (h' == h)%Q as -> by lra. apply Qle_refl.
  - eapply Qle_trans; [exact Hb|]. eapply Qle_trans; [|exact Ha']. apply sorted_nval; [done|]. lia.
Qed.
Lemma interpolate_at s i : (interpolate s (inject_Z (Z.of_nat i)) == nval s i)%Q.
Proof. unfold interpolate. rewrite Qfloor_Z, Nat2Z.id. ring. Qed.
Lemma sort_nums_nonnil l : l ≠ [] → sort_nums l ≠ [].
Proof. intros Hl E. apply Hl. apply length_zero_iff_nil. by rewrite <-sort_nums_length, E. Qed.

(** C35: for a list that is not empty and a [p] from 0 to 1 the quantile is the value at
    the place [(n - 1) * p] of the sorted list, on the line between its neighbours;
    it lies between the smallest and the largest element and does not decrease when
    [p] grows.  On an empty list an [IndexError] is raised. *)
Theorem quantile_interpolates (l : list num) (p p' : num) :
  (0 <= nq p ∧ nq p <= nq p' ∧ nq p' <= 1)%Q →
  if decide (l = []) then quantile l p = Raise IndexError
  else ∃ r r', quantile l p = Ok r ∧ quantile l p' = Ok r' ∧
    (nq r == interpolate (sort_nums l) (place (length l) (nq p)))%Q ∧
    (nval (sort_nums l) 0 <= nq r ∧ nq r <= nq r' ∧ nq r' <= nval (sort_nums l) (length l - 1))%Q.
Proof.
  intros (H0 & Hpp & H1). case_decide as Hl; [subst|].
  - unfold quantile. cbn [length sort_nums]. by destruct (nint _ - 1) as [|[]|[]].
  - destruct (quantile_value l p Hl) as (r & Hr & Hv); [split; lra|].
    destruct (quantile_value l p' Hl) as (r' & Hr' & Hv'); [split; lra|]. exists r, r'.
    split; [done|]. split; [done|]. split; [done|]. rewrite Hv, Hv'.
    assert (0 < length l)%nat as Hn by (destruct l; [done|cbn; lia]).
    destruct (place_bounds (length l) (nq p) Hn) as [Hp0 Hp1]; [split; lra|].
    destruct (place_bounds (length l) (nq p') Hn) as [Hp0' Hp1']; [split; lra|].
    pose proof (sort_nums_sorted l) as Hs. pose proof (sort_nums_nonnil l Hl) as Hne.
    assert (Z.of_nat (length l) - 1 = Z.of_nat (length (sort_nums l)) - 1) as E by by rewrite sort_nums_length.
    rewrite E in Hp1, Hp1'.
    destruct (interpolate_bounds _ _ Hs Hne (conj Hp0 Hp1)) as [Hk [Ha _]].
    destruct (interpolate_bounds _ _ Hs Hne (conj Hp0' Hp1')) as [Hk' [_ Hb]]. rewrite sort_nums_length in Hk, Hk', Hb.
    split_and!.
    + eapply Qle_trans; [|exact Ha]. apply sorted_nval; [done|]. rewrite sort_nums_length. lia.
    + apply interpolate_mono; [done|done|done| |done]. unfold place.
      assert (0 <= inject_Z (Z.of_nat (length l) - 1))%Q as Hpos by (rewrite <-(Zle_Qle 0); lia). nra.
    + eapply Qle_trans; [exact Hb|]. apply sorted_nval; [done|]. rewrite sort_nums_length. lia.
Qed.
Lemma quantile_interpolates_witness :
  ∃ r r', quantile (PInt <$> [9; 1; 5]) (PFloat (1 # 4)) = Ok r ∧ quantile (PInt <$> [9; 1; 5]) (PInt 1) = Ok r' ∧
    (nq r <= nq r')%Q.
Proof.
  destruct (quantile_interpolates (PInt <$> [9; 1; 5]) (PFloat (1 # 4)) (PInt 1)) as (r & r' & H1 & H2 & _ & _ & H3 & _).
  - split; [discriminate|split; discriminate].
  - exists r, r'. split; [exact H1|]. split; [exact H2|exact H3].
Defined.
(** Below 0 the index wraps around: this "quantile" is the largest element. *)
Example quantile_wraps :
  match quantile (PInt <$> [1; 2; 3]) (PFloat (- (1 # 2))) with Ok q => Qred (nq q) = 3%Q | Raise _ => False end.
Proof. vm_compute. reflexivity. Qed.

(** ** Trimmed lists: facts *)

Lemma median_ok s : s ≠ [] → ∃ m, median s = Ok m.
Proof.
  intros Hs. assert (0 < length s)%nat as Hn by (destruct s; [done|cbn; lia]). unfold median.
  pose proof (Z.div_lt (Z.of_nat (length s)) 2 ltac:(lia) ltac:(lia)) as Hi.
  pose proof (Z.div_pos (Z.of_nat (length s)) 2 ltac:(lia) ltac:(lia)) as Hi0.
  set (i := Z.of_nat (length s) / 2) in *. rewrite <-(Z2Nat.id i), py_get_nat by done.
  destruct (lookup_lt_is_Some_2 s (Z.to_nat i)) as [b ->]; [lia|]. cbn [res_of_option mbind res_bind].
  destruct (Z.even (Z.of_nat (length s))) eqn:E; [|by eexists].
  assert (1 <= i) as Hi1.
  { apply Z.even_spec in E as [m Hm]. unfold i. rewrite Hm, Z.mul_comm, Z.div_mul by lia. lia. }
  replace (Z.of_nat (Z.to_nat i) - 1) with (Z.of_nat (Z.to_nat i - 1)) by lia. rewrite py_get_nat.
  destruct (lookup_lt_is_Some_2 s (Z.to_nat i - 1)) as [a ->]; [lia|]. cbn. by eexists.
Qed.

(** A quarter of the way between the ends, in place [(n - 1) / 4], and three quarters. *)
Definition q1_of (s : list num) : Q := interpolate s (place (length s) (1 # 4)).
Definition q3_of (s : list num) : Q := interpolate s (place (length s) (3 # 4)).
Definition inside (s : list num) (x : num) : Prop :=
  let i := ((q3_of s - q1_of s) * (3 # 2))%Q in (q1_of s - i <= nq x ∧ nq x <= q3_of s + i)%Q.

Lemma trim_eq l :
  l ≠ [] → ∃ t, trim l = Ok t ∧ t `sublist_of` sort_nums l ∧ ∀ x, x ∈ t ↔ x ∈ l ∧ inside (sort_nums l) x.
Proof.
  intros Hl. pose proof (sort_nums_nonnil l Hl) as Hne. pose proof (sort_nums_id _ (sort_nums_sorted l)) as Hid.
  unfold trim. destruct (median_ok _ Hne) as [m ->]. cbn [mbind res_bind].
  destruct (quantile_value (sort_nums l) (PFloat (1 # 4)) Hne) as (q1 & -> & H1); [by split|].
  destruct (quantile_value (sort_nums l) (PFloat (3 # 4)) Hne) as (q3 & -> & H3); [by split|]. cbn [mbind res_bind].
  rewrite Hid in H1, H3. cbn [nq] in H1, H3. fold (q1_of (sort_nums l)) in H1. fold (q3_of (sort_nums l)) in H3.
  eexists. split; [done|]. split; [apply sublist_filter|]. intros x.
  assert (x ∈ l ↔ x ∈ sort_nums l) as -> by (by rewrite sort_nums_perm).
  rewrite list_elem_of_filter, andb_true_iff, !nle_spec. unfold inside.
  rewrite nq_sub, nq_add, nq_mul, nq_sub, H1, H3. cbn [nq]. tauto.
Qed.
Lemma quartiles_ordered s : sorted s → s ≠ [] → (q1_of s <= q3_of s)%Q.
Proof.
  intros Hs Hne. assert (0 < length s)%nat as Hn by (destruct s; [done|cbn; lia]).
  destruct (place_bounds (length s) (1 # 4) Hn) as [? ?]; [by split|].
  destruct (place_bounds (length s) (3 # 4) Hn) as [? ?]; [by split|].
  apply interpolate_mono; [done|done|done| |done]. unfold place.
  assert (0 <= inject_Z (Z.of_nat (length s) - 1))%Q by (rewrite <-(Zle_Qle 0); lia). lra.
Qed.
(** The middle half of the sorted list is kept. *)
Lemma middle_inside s i x :
  sorted s → s !! i = Some x → (length s - 1 <= 4 * i)%nat → (4 * i <= 3 * (length s - 1))%nat → inside s x.
Proof.
  intros Hs Hx H1 H3. assert (s ≠ []) as Hne by (intros ->; done).
  assert (i < length s)%nat as Hi by by eapply lookup_lt_Some.
  assert (nval s i = nq x) as Hv by (unfold nval; by rewrite Hx).
  assert (q1_of s <= nq x ∧ nq x <= q3_of s)%Q as [Ha Hb].
  { rewrite <-Hv, <-interpolate_at. unfold q1_of, q3_of, place.
    assert (inject_Z (Z.of_nat (length s) - 1) <= 4 * inject_Z (Z.of_nat i))%Q.
    { change 4%Q with (inject_Z 4). rewrite <-inject_Z_mult, <-Zle_Qle. lia. }
    assert (4 * inject_Z (Z.of_nat i) <= 3 * inject_Z (Z.of_nat (length s) - 1))%Q.
    { change 4%Q with (inject_Z 4). change 3%Q with (inject_Z 3). rewrite <-!inject_Z_mult, <-Zle_Qle. lia. }
    assert (0 <= inject_Z (Z.of_nat (length s) - 1))%Q by (rewrite <-(Zle_Qle 0); lia).
    assert (0 <= inject_Z (Z.of_nat i))%Q by (rewrite <-(Zle_Qle 0); lia).
    split; apply interpolate_mono; try done; lra. }
  unfold inside. cbv zeta. split; lra.
Qed.
Lemma trim_nonempty s : sorted s → s ≠ [] → ∃ x, x ∈ s ∧ inside s x.
Proof.
  intros Hs Hne. destruct (decide (length s = 2)%nat) as [H2|H2].
  - destruct s as [|a [|b [|]]]; try done. exists a. split; [by left|].
    unfold inside, q1_of, q3_of, place, interpolate. cbn [length].
    change (inject_Z (Z.of_nat 2 - 1)) with 1%Q.
    change (Qfloor (1 * (1 # 4))) with 0. change (Qfloor (1 * (3 # 4))) with 0.
    pose proof (sorted_nval _ 0 1 Hs ltac:(cbn; lia)) as Hv. unfold nval in *.
    change (Z.to_nat 0) with 0%nat. change (inject_Z 0) with 0%Q. cbn in *. split; lra.
  - assert (0 < length s)%nat as Hn by (destruct s; [done|cbn; lia]). set (i := ((length s - 1 + 3) / 4)%nat).
    assert (length s - 1 <= 4 * i)%nat as H1.
    { unfold i. pose proof (Nat.div_mod (length s - 1 + 3) 4 ltac:(lia)).
      pose proof (Nat.mod_upper_bound (length s - 1 + 3) 4 ltac:(lia)). lia. }
    assert (4 * i <= 3 * (length s - 1))%nat as H3.
    { unfold i. pose proof (Nat.Div0.mul_div_le (length s - 1 + 3) 4). lia. }
    destruct (lookup_lt_is_Some_2 s i) as [x Hx]; [lia|].
    exists x. split; [by eapply list_elem_of_lookup_2|by apply (middle_inside s i)].
Qed.

(** For a list that is not empty [trim] returns, in order, exactly the elements
    within one and a half times the distance of the quartiles from them; some element
    is left, and all of the middle half of the sorted list are.  On an empty list it
    raises an [IndexError]. *)
Theorem trim_keeps_middle (l : list num) :
  if decide (l = []) then trim l = Raise IndexError
  else ∃ t, trim l = Ok t ∧ sorted t ∧ t ≠ [] ∧ (∀ x, x ∈ t ↔ x ∈ l ∧ inside (sort_nums l) x) ∧
    ∀ i x, sort_nums l !! i = Some x → (length l - 1 <= 4 * i)%nat → (4 * i <= 3 * (length l - 1))%nat → x ∈ t.
Proof.
  case_decide as Hl; [by subst|]. destruct (trim_eq l Hl) as (t & Ht & Hsub & Hin). exists t.
  pose proof (sort_nums_sorted l) as Hs. split_and!; [done| | |done|].
  - clear -Hs Hsub. induction Hsub as [|x t s Hsub IH|x t s Hsub IH]; [done| |].
    + apply StronglySorted_inv in Hs as [Hs Hx]. constructor; [by apply IH|]. rewrite Forall_forall in *.
      intros y Hy. apply Hx. by eapply elem_of_sublist.
    + apply StronglySorted_inv in Hs as [Hs _]. by apply IH.
  - intros ->. destruct (trim_nonempty _ Hs (sort_nums_nonnil l Hl)) as (x & Hx & Hi).
    rewrite sort_nums_perm in Hx. by apply (not_elem_of_nil x), Hin.
  - intros i x Hx H1 H3. apply Hin. split; [rewrite <-sort_nums_perm; by eapply list_elem_of_lookup_2|].
    apply (middle_inside _ i); [done|done| |]; by rewrite sort_nums_length.
Qed.

(** ** Units: facts *)

(** Each multiplier is smaller than the next, and they are positive. *)
Definition ascending (ms : list prefix) : Prop :=
  ms ≠ [] ∧ Forall (λ p, 0 < nq p.1)%Q ms ∧
  ∀ i m next, ms !! i = Some m → ms !! S i = Some next → (nq m.1 < nq next.1)%Q.
Lemma multipliers_ascending bin extra : ascending (multipliers bin extra).
Proof.
  assert (multipliers bin extra ≠ [] ∧ forallb (λ p, nlt (PInt 0) p.1) (multipliers bin extra) = true ∧
    forallb (λ p : prefix * prefix, nlt p.1.1 p.2.1) (zip (multipliers bin extra) (tail (multipliers bin extra))) = true)
    as (H1 & H2 & H3) by (by destruct bin, extra; vm_compute).
  split; [done|]. split.
  - apply Forall_forall. intros p Hp. rewrite forallb_forall in H2. apply (nlt_spec (PInt 0)), H2. by apply list_elem_of_In.
  - intros i m next Hm Hn. apply nlt_spec. rewrite forallb_forall in H3. apply (H3 (m, next)).
    apply list_elem_of_In, list_elem_of_lookup. exists i. apply lookup_zip_Some. split; [done|]. by rewrite lookup_tail.
Qed.
Lemma find_multiplier_some ms value : ∀ k i,
  find_multiplier k ms value = Some i →
  (k <= i)%nat ∧ ∃ m next, ms !! (i - k)%nat = Some m ∧ ms !! S (i - k) = Some next ∧
    (nq m.1 <= nq value ∧ nq value < nq next.1)%Q.
Proof.
  induction ms as [|m [|next ms] IH]; intros k i; [done|done|].
  cbn [find_multiplier]. destruct (nle m.1 value && nlt value next.1) eqn:E.
  - intros [= ->]. apply andb_true_iff in E as [E1%nle_spec E2%nlt_spec]. split; [lia|]. exists m, next.
    by rewrite Nat.sub_diag.
  - intros Hf. destruct (IH (S k) i Hf) as (Hk & m' & next' & H1 & H2 & H3). split; [lia|]. exists m', next'.
    replace (i - k)%nat with (S (i - S k)) by lia. done.
Qed.
Lemma find_multiplier_none ms value : ∀ k m last_,
  find_multiplier k ms value = None → head ms = Some m → last ms = Some last_ → (nq m.1 <= nq value → nq last_.1 <= nq value)%Q.
Proof.
  induction ms as [|m [|next ms] IH]; intros k m' last_; [done|by intros _ [= ->] [= ->]|].
  cbn [find_multiplier]. destruct (nle m.1 value && nlt value next.1) eqn:E; [done|].
  intros Hf [= ->] Hlast Hle. apply (IH (S k) next last_ Hf eq_refl Hlast).
  rewrite (proj2 (nle_spec m'.1 value) Hle) in E. by apply nlt_false.
Qed.
(** The multiplier is the largest one up to the value, or the smallest of all. *)
Lemma first_multiplier_spec ms value :
  ascending ms → ∃ i m, first_multiplier ms value = Ok i ∧ ms !! i = Some m ∧
    (i = 0%nat ∨ (nq m.1 <= nq value)%Q) ∧ (∀ next, ms !! S i = Some next → (nq value < nq next.1)%Q).
Proof.
  intros (Hne & _ & Hasc). unfold first_multiplier. destruct (find_multiplier 0 ms value) as [i|] eqn:E.
  - destruct (find_multiplier_some _ _ _ _ E) as (_ & m & next & H1 & H2 & H3 & H4). rewrite Nat.sub_0_r in H1, H2.
    exists i, m. split_and!; [done|done|by right|]. intros next' Hn. by simplify_eq.
  - destruct ms as [|m ms]; [done|]. cbn [head res_of_option mbind res_bind].
    destruct (last (m :: ms)) as [l|] eqn:El; [|by apply last_None in El]. cbn [res_of_option mbind res_bind].
    destruct (nlt value m.1) eqn:Elt.
    + apply nlt_spec in Elt. exists 0%nat, m. split_and!; [done|done|by left|]. intros next Hn.
      pose proof (Hasc 0%nat m next eq_refl Hn). lra.
    + apply nlt_false in Elt. pose proof (find_multiplier_none _ _ _ _ _ E eq_refl El Elt) as Hl.
      rewrite (proj2 (nle_spec l.1 value) Hl). rewrite last_lookup in El.
      exists (length (m :: ms) - 1)%nat, l. split_and!; [done| |by right|].
      * by replace (length (m :: ms) - 1)%nat with (pred (length (m :: ms))) by lia.
      * intros next Hn. apply lookup_lt_Some in Hn. cbn [length] in Hn. unfold prefix in *. lia.
Qed.
Lemma ndiv_positive a b : (0 < nq b)%Q → ∃ q, ndiv a b = Ok q.
Proof.
  intros Hb. unfold ndiv. destruct (nzero b) eqn:E; [|by eexists]. unfold nzero in E. apply Qeq_bool_iff in E.
  rewrite E in Hb. by apply Qlt_irrefl in Hb.
Qed.
Lemma choose_multiplier_spec ms dp by_digits value :
  ascending ms → ∃ i m p q, choose_multiplier ms dp by_digits value = Ok (p, q) ∧ ms !! i = Some m ∧
    (i = 0%nat ∨ (nq m.1 <= nq value)%Q) ∧ (∀ next, ms !! S i = Some next → (nq value < nq next.1)%Q) ∧
    ndiv value p.1 = Ok q ∧ (p = m ∨ by_digits = false ∧ ms !! S i = Some p ∧ ∃ v r,
      ndiv value m.1 = Ok v ∧ ndiv p.1 m.1 = Ok r ∧ (round_dp dp (nq v) == round_dp dp (nq r))%Q).
Proof.
  intros Hms. destruct (first_multiplier_spec ms value Hms) as (i & m & Hi & Hm & Hlo & Hhi).
  destruct Hms as (_ & Hpos & _). pose proof (Forall_lookup_1 _ _ _ _ Hpos Hm) as Hm0.
  destruct (ndiv_positive value m.1 Hm0) as [v Hv]. unfold choose_multiplier. rewrite Hi. cbn [mbind res_bind].
  rewrite Hm. cbn [res_of_option mbind res_bind]. rewrite Hv. cbn [mbind res_bind]. exists i, m.
  destruct by_digits; [exists m, v; by repeat (split; [done || by left|]); left|].
  destruct (ms !! S i) as [next|] eqn:En; [|exists m, v; split_and!; try done; by left].
  destruct (ndiv_positive next.1 m.1 Hm0) as [r Hr]. rewrite Hr. cbn [mbind res_bind].
  destruct (Qeq_bool _ _) eqn:E; [|exists m, v; split_and!; try done; by left].
  destruct (ndiv_positive value next.1 (Forall_lookup_1 _ _ _ _ Hpos En)) as [v' Hv']. rewrite Hv'.
  exists next, v'. split_and!; try done. right. apply Qeq_bool_iff in E. split_and!; [done|done|]. by exists v, r.
Qed.

(** [nice_units] always finds a unit: the largest one that is not above the value
    (the smallest of all for a value below it, zero and negative ones included), or
    the next one when, to the places shown, the value in the first unit rounds to the
    next unit; it then prints the value divided by the unit, which for integers is
    the quotient without remainder, with the symbol or the name of the unit.  A
    negative precision is a [ValueError]. *)
Theorem nice_units_scales (value : num) (dp : Z) (sigfigs : option Z) (suffix space : pystr) (extra full bin : bool) :
  let ms := multipliers bin extra in
  let p := default dp sigfigs in
  if p <? 0 then nice_units value dp sigfigs suffix space extra full bin = Raise ValueError
  else ∃ i m u q, ms !! i = Some m ∧
    (i = 0%nat ∨ (nq m.1 <= nq value)%Q) ∧ (∀ next, ms !! S i = Some next → (nq value < nq next.1)%Q) ∧
    ndiv value u.1 = Ok q ∧ (u = m ∨ sigfigs = None ∧ ms !! S i = Some u ∧ ∃ v r,
      ndiv value m.1 = Ok v ∧ ndiv u.1 m.1 = Ok r ∧ (round_dp dp (nq v) == round_dp dp (nq r))%Q) ∧
    nice_units value dp sigfigs suffix space extra full bin =
      Ok ((match sigfigs with Some _ => fmt_g | None => fmt_f end) (Z.to_nat p) (nq q) ++ space ++
            (if full then u.2.2 else u.2.1) ++ suffix).
Proof.
  intros ms p. unfold nice_units. fold ms. set (by_digits := match sigfigs with Some _ => true | None => false end).
  destruct (choose_multiplier_spec ms dp by_digits value (multipliers_ascending bin extra))
    as (i & m & u & q & -> & H1 & H2 & H3 & H4 & H5). cbn [mbind res_bind]. fold p.
  destruct (p <? 0); [done|]. exists i, m, u, q. split_and!; try done.
  - destruct H5 as [->|[Hb H5]]; [by left|right]. split; [by destruct sigfigs|done].
  - by destruct sigfigs.
Qed.
(** Zero is shown in the smallest unit, a negative value too. *)
Example units_of_zero : nice_units (PInt 0) 0 None [] (str " ") false false false = Ok (str "0 y").
Proof. vm_compute. reflexivity. Qed.
Example units_negative : nice_units (PInt (-5)) 0 None [] (str " ") false true false = Ok (str "-5000000000000000000000000 yocto").
Proof. vm_compute. reflexivity. Qed.
(** In binary units the fraction of an integer is lost, and 1024 megabytes are mega. *)
Example units_binary : nice_units (PInt 1536) 1 None (str "B") (str " ") false false true = Ok (str "1.0 KB").
Proof. vm_compute. reflexivity. Qed.
Example units_giga : nice_units (PInt (2 ^ 31)) 0 None (str "byte") (str " ") false true true = Ok (str "2 megabyte").
Proof. vm_compute. reflexivity. Qed.

(** ** Polygons: facts *)

Definition cross (p q : Z * Z) : Z := q.1 * p.2 - q.2 * p.1.
(** Twice the signed area of a closed list of points. *)
Definition shoelace (points : list (Z * Z)) : Z := cross_sum points 0.
Lemma cross_sum_cons p q l a : cross_sum (p :: q :: l) a = cross_sum (q :: l) (a + q.1 * p.2 - q.2 * p.1).
Proof. by destruct p, q. Qed.
Lemma cross_sum_acc l : ∀ a, cross_sum l a = a + shoelace l.
Proof.
  unfold shoelace. induction l as [|[x y] [|q l] IH]; intros a; [cbn; lia|cbn; lia|].
  rewrite !cross_sum_cons, IH, (IH (0 + _ - _)). lia.
Qed.
Lemma shoelace_one p : shoelace [p] = 0.
Proof. by destruct p. Qed.
Lemma shoelace_cons p q l : shoelace (p :: q :: l) = cross p q + shoelace (q :: l).
Proof. unfold shoelace at 1. rewrite cross_sum_cons, cross_sum_acc. unfold cross. lia. Qed.
Lemma shoelace_snoc l p q : shoelace (l ++ [p; q]) = shoelace (l ++ [p]) + cross p q.
Proof.
  induction l as [|r [|s l] IH]; cbn [app] in *.
  - rewrite shoelace_cons. rewrite !shoelace_one. lia.
  - rewrite !shoelace_cons. rewrite !shoelace_one. lia.
  - rewrite !shoelace_cons, IH. lia.
Qed.
Lemma shoelace_rev l : shoelace (rev l) = - shoelace l.
Proof.
  induction l as [|p [|q l] IH]; [done|by cbn [rev app]; rewrite shoelace_one|]. cbn [rev] in *. rewrite <-app_assoc. cbn [app].
  rewrite shoelace_snoc, IH, shoelace_cons. unfold cross. lia.
Qed.
Definition shift (d p : Z * Z) : Z * Z := (p.1 + d.1, p.2 + d.2).
Lemma shoelace_shift d l : ∀ p,
  let e := default p (last l) in
  shoelace (shift d <$> p :: l) = shoelace (p :: l) + d.2 * (e.1 - p.1) - d.1 * (e.2 - p.2).
Proof.
  induction l as [|q l IH]; intros p; cbn [fmap list_fmap last from_option id] in *.
  - rewrite !shoelace_one. lia.
  - rewrite !shoelace_cons, IH. unfold cross, shift. cbn [fst snd].
    destruct l as [|r l]; cbn [last from_option id]; [lia|].
    destruct (last (r :: l)) as [e|] eqn:E; [cbn [from_option id]; lia|by apply last_None in E].
Qed.
Lemma close_polygon_ok points :
  points ≠ [] → ∃ closed, close_polygon points = Ok closed ∧ head closed = last closed ∧ closed ≠ [] ∧
    (closed = points ∨ ∃ f, head points = Some f ∧ closed = points ++ [f]).
Proof.
  intros Hp. destruct points as [|f l]; [done|]. unfold close_polygon.
  destruct (last (f :: l)) as [e|] eqn:E; [|by apply last_None in E]. cbn [head res_of_option mbind res_bind mret res_ret].
  case_bool_decide as He; [subst; exists (f :: l); split_and!; [done|done|done|by left]|].
  exists ((f :: l) ++ [f]). split_and!; [done| |done|right; by exists f]. by rewrite last_snoc.
Qed.

(** For a list that is not empty the area is that of the polygon through the points
    scaled by the precision and truncated, which are also what the caller's list is
    changed to, closed: half its shoelace sum, and exactly when that sum is even, else
    half a unit off, downwards or upwards with the direction in which the points run.
    The sum does not depend on where the polygon lies. *)
Theorem polygon_area_shoelace (points : list (num * num)) (precision : Z) :
  points ≠ [] → 0 < precision →
  ∃ a closed, polygon_area points precision = Ok ((inject_Z a / inject_Z (precision ^ 2))%Q, closed) ∧
    head closed = last closed ∧
    (closed = scale_point precision <$> points ∨ ∃ f, head points = Some f ∧
       closed = (scale_point precision <$> points) ++ [scale_point precision f]) ∧
    2 * a = Z.abs (shoelace closed) + (if Z.even (shoelace closed) then 0 else if 0 <? shoelace closed then -1 else 1) ∧
    shoelace (rev closed) = - shoelace closed ∧ (∀ d, shoelace (shift d <$> closed) = shoelace closed).
Proof.
  intros Hp Hprec. destruct (close_polygon_ok (scale_point precision <$> points)) as (closed & Hc & Hends & Hne & Hform).
  { by destruct points. }
  unfold polygon_area. rewrite Hc. cbn [mbind res_bind]. rewrite (proj2 (Z.eqb_neq precision 0)) by lia.
  exists (Z.abs (shoelace closed / 2)), closed. split_and!; [done|done| | |apply shoelace_rev|].
  - destruct Hform as [?|(f & Hf & ->)]; [by left|right]. destruct points as [|p l]; [done|]. exists p. cbn in Hf. by simplify_eq.
  - pose proof (Z.div_mod (shoelace closed) 2 ltac:(lia)) as Hd. rewrite Zmod_even in Hd.
    destruct (Z.even (shoelace closed)); [lia|]. destruct (Z.ltb_spec 0 (shoelace closed)); lia.
  - intros d. destruct closed as [|p l]; [done|]. rewrite shoelace_shift. cbn [head] in Hends.
    destruct l as [|q l]; cbn [last from_option id]; [lia|].
    cbn [last] in Hends. rewrite <-Hends. cbn [from_option id]. lia.
Qed.
Lemma polygon_area_shoelace_witness :
  ∃ a closed, polygon_area (ints [(0, 0); (0, 3); (4, 0)]) 100 = Ok ((inject_Z a / inject_Z (100 ^ 2))%Q, closed) ∧
    head closed = last closed.
Proof.
  destruct (polygon_area_shoelace (ints [(0, 0); (0, 3); (4, 0)]) 100) as (a & closed & H1 & H2 & _);
    [discriminate|reflexivity|].
  exists a, closed. split; [exact H1|exact H2].
Defined.
(** The same triangle in both directions. *)
Example area_by_direction :
  let area l := match polygon_area (ints l) 1 with Ok (a, _) => Qred a | Raise _ => (-1)%Q end in
  (area [(0, 0); (0, 1); (1, 0)], area [(1, 0); (0, 1); (0, 0)]) = (0%Q, 1%Q).
Proof. vm_compute. reflexivity. Qed.
(** A second call on the same list scales it again. *)
Example area_twice :
  match polygon_area (ints [(0, 0); (0, 1); (1, 1); (1, 0)]) 10 with
  | Ok (_, l) => match polygon_area (ints l) 10 with Ok (a, _) => Qred a = 100%Q | Raise _ => False end
  | Raise _ => False
  end.
Proof. vm_compute. reflexivity. Qed.

(** ** Random vectors and ranges: facts *)

Lemma draw_bits_ok v q :
  Forall bit_char v → (0 <= q → q < 1 →
  ∃ v', draw_bits v q = Ok v' ∧ Forall bit_char v' ∧ length v' = (length v + 10)%nat)%Q.
Proof.
  intros Hv H0 H1. unfold draw_bits. destruct (int2bin_ok false (Qfloor (1024 * q)) 10) as (s & -> & Hl & Hb & _); [|lia|].
  - split; [apply (Qfloor_resp_le 0); lra|]. change (2 ^ 10) with 1024. rewrite Zlt_Qlt.
    eapply Qle_lt_trans; [apply Qfloor_le|]. change (inject_Z 1024) with 1024%Q. lra.
  - exists (v ++ s). split_and!; [done|by apply Forall_app|]. rewrite length_app. lia.
Qed.
Lemma draws_ok qs : ∀ v,
  Forall bit_char v → Forall (λ q, 0 <= q ∧ q < 1)%Q qs →
  ∃ v', fold_res draw_bits v qs = Ok v' ∧ Forall bit_char v' ∧ length v' = (length v + 10 * length qs)%nat.
Proof.
  induction qs as [|q qs IH]; intros v Hv Hq; cbn [fold_res length]; [exists v; split_and!; [done|done|lia]|].
  apply Forall_cons in Hq as [[H0 H1] Hq]. destruct (draw_bits_ok v q Hv H0 H1) as (v1 & -> & Hv1 & Hl).
  destruct (IH v1 Hv1 Hq) as (v2 & H2 & Hv2 & Hl2). exists v2. split_and!; [done|done|lia].
Qed.
Lemma bin2int_bits s : s ≠ [] → Forall bit_char s → bin2int s = Ok (digits_val 2 s).
Proof. intros Hs Hb. apply py_int_digits; [lia|done|]. eapply Forall_impl; [exact Hb|apply bit_char_base]. Qed.

(** Whatever the draws, a vector without a maximum has exactly [bits] bits.  With a
    maximum that does not exceed them, what is returned is a multiple of the maximum,
    in [bits] bits, or a [ValueError] when it does not fit. *)
Theorem random_vec_bits (bits : nat) (max_value : option Z) (draws : list Q) :
  (bits / 10 < length draws)%nat → Forall (λ q, 0 <= q ∧ q < 1)%Q draws →
  match max_value with
  | None => ∃ v, random_vec bits None draws = Ok v ∧ Forall bit_char v ∧ length v = bits
  | Some m =>
      0 < m < 2 ^ Z.of_nat bits - 1 →
      ∃ k, 0 <= k ∧
        if k * m <? 2 ^ Z.of_nat bits
        then ∃ v, random_vec bits (Some m) draws = Ok v ∧ Forall bit_char v ∧ length v = bits ∧ bin2int v = Ok (k * m)
        else random_vec bits (Some m) draws = Raise ValueError
  end.
Proof.
  intros Hlen Hd. unfold random_vec.
  destruct (draws_ok (take (bits / 10 + 1) draws) []) as (v & -> & Hv & Hl); [constructor|by apply Forall_take|].
  rewrite length_take, Nat.min_l in Hl by lia. cbn [length] in Hl.
  assert (bits < length v)%nat as Hbits.
  { pose proof (Nat.div_mod bits 10 ltac:(lia)). pose proof (Nat.mod_upper_bound bits 10 ltac:(lia)). lia. }
  cbn [mbind res_bind]. destruct max_value as [m|].
  - intros Hm. rewrite (proj2 (Z.eqb_neq m 0)), (proj2 (Z.ltb_lt m _)) by lia. cbn [negb andb].
    rewrite (proj2 (Z.eqb_neq _ 0)) by lia. rewrite (bin2int_bits v ltac:(intros ->; cbn in Hbits; lia) Hv). cbn [mbind res_bind].
    pose proof (digits_val_bits_bound v Hv) as Hb. set (top := 2 ^ Z.of_nat bits - 1) in *.
    exists (digits_val 2 v / top). split; [apply Z.div_pos; lia|].
    assert (0 < bits)%nat as Hpos by (destruct bits; [unfold top in Hm; cbn in Hm; lia|lia]).
    set (i := digits_val 2 v / top * m). assert (0 <= i) as Hi by (apply Z.mul_nonneg_nonneg; [apply Z.div_pos; lia|lia]).
    destruct (Z.ltb_spec i (2 ^ Z.of_nat bits)) as [Hlt|Hge].
    + destruct (int2bin_ok (2 ^ 63 <=? i) i (Z.of_nat bits)) as (s & -> & Hsl & Hs & Hsv); [lia|lia|].
      exists s. cbn [mbind res_bind mret res_ret]. rewrite take_ge by lia. split_and!; [done|done|lia|done].
    + destruct (int2bin_cases (2 ^ 63 <=? i) i (Z.of_nat bits)) as (r & _ & _ & ->); [lia|lia|].
      by rewrite (proj2 (Z.ltb_ge _ _)).
  - exists (take bits v). split_and!; [done|by apply Forall_take|]. rewrite length_take. lia.
Qed.
Lemma random_vec_bits_witness :
  ∃ v, random_vec 12 None [(1 # 2); (3 # 4)]%Q = Ok v ∧ Forall bit_char v ∧ length v = 12%nat.
Proof.
  apply (random_vec_bits 12 None [(1 # 2); (3 # 4)]%Q).
  - vm_compute. repeat constructor.
  - repeat constructor; discriminate.
Defined.
(** A maximum of 3 in 4 bits: the draw decides between 9, above the maximum, and an
    exception. *)
Example random_vec_above : random_vec 4 (Some 3) [(45 # 1024)%Q] = Ok (str "1001").
Proof. vm_compute. reflexivity. Qed.
Example random_vec_raises : random_vec 4 (Some 3) [(1 # 2)%Q] = Raise ValueError.
Proof. vm_compute. reflexivity. Qed.

Lemma progression_endless step stop fuel : ∀ x,
  (step <= 0 → x < stop → progression fuel x step stop = None)%Q.
Proof.
  induction fuel as [|fuel IH]; intros x Hs Hx; [done|]. rewrite progression_S, (proj2 (Qle_bool_false _ _) Hx).
  by rewrite IH by lra.
Qed.
Lemma progression_more fuel : ∀ fuel' x step stop l,
  (fuel <= fuel')%nat → progression fuel x step stop = Some l → progression fuel' x step stop = Some l.
Proof.
  induction fuel as [|fuel IH]; intros [|fuel'] x step stop l Hf; [done|done|lia|]. rewrite !progression_S.
  destruct (Qle_bool stop x); [done|]. destruct (progression fuel _ step stop) as [r|] eqn:E; [|done].
  by rewrite (IH fuel' _ _ _ _ ltac:(lia) E).
Qed.

(** With a positive step the range ends and holds [start], [start + step], ... up
    to the last one below [stop]; with another step it ends, empty, exactly when
    [start] is not below [stop]. *)
Theorem float_range_ends (start stop step : Q) :
  (if Qle_bool step 0 then
     if Qle_bool stop start then ∀ fuel, (0 < fuel)%nat → float_range fuel start (Some stop) (Some step) = Some []
     else ∀ fuel, float_range fuel start (Some stop) (Some step) = None
   else ∃ n l, (∀ fuel, (n <= fuel)%nat → float_range fuel start (Some stop) (Some step) = Some l) ∧
     (∀ i x, l !! i = Some x → x == start + inject_Z (Z.of_nat i) * step ∧ x < stop)%Q ∧
     (stop <= start + inject_Z (Z.of_nat (length l)) * step)%Q).
Proof.
  unfold float_range. cbn [from_option id]. destruct (Qle_bool step 0) eqn:Es.
  - apply Qle_bool_iff in Es. destruct (Qle_bool stop start) eqn:E.
    + intros [|fuel] Hf; [lia|]. by rewrite progression_S, E.
    + apply Qle_bool_false in E. intros fuel. by apply progression_endless.
  - apply Qle_bool_false in Es. set (n := Z.to_nat (Qceiling ((stop - start) / step))).
    destruct (progression_spec step stop n start) as (l & Hl & H1 & H2); [|done|].
    + intros _. pose proof (Qle_ceiling ((stop - start) / step)) as Hc.
      apply (Qmult_le_l _ _ step Es) in Hc. assert (step * ((stop - start) / step) == stop - start)%Q as Hd by (field; lra).
      assert (inject_Z (Qceiling ((stop - start) / step)) <= inject_Z (Z.of_nat n))%Q as Hn by (rewrite <-Zle_Qle; lia).
      apply (Qmult_le_l _ _ step Es) in Hn. lra.
    + exists (S n), l. split_and!; [|done|done]. intros fuel Hf. by apply (progression_more (S n)).
Qed.
