(* ===== verification/FlowMon.v ===== *)
(** * Statistics of flows: src/flow-monitor/examples/flowmon-parse-results.py

    The classes [FiveTuple], [Histogram], [Flow], [ProbeFlowStats] and
    [Simulation] over the element tree of a results file, and [main], which reads
    the events of the parser and prints five lines per flow.  The objects that
    [flow_map] and [flows] share are the entries of one list, which [flow_map]
    refers to by position.  Opening and parsing the file are parameters. *)
From Stdlib Require Import Ascii String.
From S2P Require Export PyXml PyFloat Dict.
Open Scope Z_scope.

(** ** Attributes *)

(** [int(x)] and [float(x)] of an attribute, which is None when it is missing. *)
Definition int_attr (k : pystr) (el : element) : res exn Z :=
  match get_attrib k el with Some s => py_int 10 s | None => Raise TypeError end.
Definition float_attr (k : pystr) (el : element) : res exn xfloat :=
  match get_attrib k el with Some s => py_float s | None => Raise TypeError end.

(** [tm[:-2]] *)
Definition without_unit (tm : pystr) : pystr := py_slice_to tm (-2).
Definition parse_time_ns (tm : option pystr) : res exn xfloat :=
  match tm with
  | None => Raise AttributeError
  | Some tm => if endswith (str "ns") tm then py_float (without_unit tm) else Raise ValueError
  end.

(** ** The classes *)

Record FiveTuple := MkFiveTuple {
  sourceAddress : option pystr; destinationAddress : option pystr;
  sourcePort : Z; destinationPort : Z; protocol : Z }.
Definition read_FiveTuple (el : element) : res exn FiveTuple :=
  sport ← int_attr (str "sourcePort") el;
  dport ← int_attr (str "destinationPort") el;
  proto ← int_attr (str "protocol") el;
  mret (MkFiveTuple (get_attrib (str "sourceAddress") el) (get_attrib (str "destinationAddress") el)
          sport dport proto).

(** The bins of a histogram: start, width and count. *)
Definition Histogram (el : element) : res exn (list (xfloat * xfloat * Z)) :=
  mapM_res (λ bin,
    s ← float_attr (str "start") bin; w ← float_attr (str "width") bin; n ← int_attr (str "count") bin;
    mret (s, w, n)) (findall (str "bin") el).

Record ProbeFlowStats := MkProbe {
  probeId : Z; packets : Z; bytes : xfloat; delayFromFirstProbe : xfloat }.

Record Flow := MkFlow {
  flowId : Z; delayMean : option xfloat; packetLossRatio : option xfloat;
  rxBitrate : option xfloat; txBitrate : option xfloat; fiveTuple : option FiveTuple;
  packetSizeMean : option xfloat; probe_stats_unsorted : list ProbeFlowStats; hopCount : xfloat;
  flowInterruptionsHistogram : option (list (xfloat * xfloat * Z)); rx_duration : xfloat }.

Definition nano : xfloat := Fin (1 # 1000000000).
(** A float is true unless it is zero. *)
Definition xtrue (x : xfloat) : bool := negb (xzero x).

Definition duration (el : element) (last first : pystr) : res exn xfloat :=
  l ← parse_time_ns (get_attrib last el);
  f ← parse_time_ns (get_attrib first el);
  mret (xmul (xsub l f) nano).

(** The mean number of hops, delay and packet size. *)
Definition hop_count (el : element) (rxPackets : xfloat) : res exn xfloat :=
  if xtrue rxPackets then
    n ← float_attr (str "timesForwarded") el; m ← py_div n rxPackets; mret (xadd m (of_Z 1))
  else mret (of_Z (-1000)).
Definition means (el : element) (rxPackets : xfloat) : res exn (option xfloat * option xfloat) :=
  if xtrue rxPackets then
    d ← match get_attrib (str "delaySum") el with
        | Some s => py_float (without_unit s) | None => Raise TypeError end;
    d ← py_div d rxPackets;
    b ← float_attr (str "rxBytes") el; b ← py_div b rxPackets;
    mret (Some (xmul d nano), Some b)
  else mret (None, None).
Definition bitrate (el : element) (k : pystr) (duration : xfloat) : res exn (option xfloat) :=
  if xlt (of_Z 0) duration then
    b ← float_attr k el; r ← py_div (xmul b (of_Z 8)) duration; mret (Some r)
  else mret None.
Definition loss_ratio (lost rxPackets : xfloat) : res exn (option xfloat) :=
  if xeqb rxPackets (of_Z 0) then mret None
  else r ← py_div lost (xadd rxPackets lost); mret (Some r).

Definition read_Flow (el : element) : res exn Flow :=
  id ← int_attr (str "flowId") el;
  rxPackets ← float_attr (str "rxPackets") el;
  txPackets ← float_attr (str "txPackets") el;
  tx_duration ← duration el (str "timeLastTxPacket") (str "timeFirstTxPacket");
  rx_dur ← duration el (str "timeLastRxPacket") (str "timeFirstRxPacket");
  hops ← hop_count el rxPackets;
  '(delay, psize) ← means el rxPackets;
  rx ← bitrate el (str "rxBytes") rx_dur;
  tx ← bitrate el (str "txBytes") tx_duration;
  lost ← float_attr (str "lostPackets") el;
  loss ← loss_ratio lost rxPackets;
  hist ← match find_elem (str "flowInterruptionsHistogram") el with
         | None => mret None
         | Some h => Some <$> Histogram h
         end;
  mret (MkFlow id delay loss rx tx None psize [] hops hist rx_dur).

Definition set_fiveTuple (t : FiveTuple) (f : Flow) : Flow :=
  MkFlow (flowId f) (delayMean f) (packetLossRatio f) (rxBitrate f) (txBitrate f) (Some t)
    (packetSizeMean f) (probe_stats_unsorted f) (hopCount f) (flowInterruptionsHistogram f) (rx_duration f).
Definition append_probe (s : ProbeFlowStats) (f : Flow) : Flow :=
  MkFlow (flowId f) (delayMean f) (packetLossRatio f) (rxBitrate f) (txBitrate f) (fiveTuple f)
    (packetSizeMean f) (probe_stats_unsorted f ++ [s]) (hopCount f) (flowInterruptionsHistogram f)
    (rx_duration f).

(** ** [Simulation] *)

(** The object that [flow_map] holds for an identifier: the last one read with it. *)
Fixpoint flow_index (id : Z) (flows : list Flow) : option nat :=
  match flows with
  | [] => None
  | f :: flows =>
      match flow_index id flows with
      | Some i => Some (S i)
      | None => if flowId f =? id then Some 0%nat else None
      end
  end.
Definition on_flow (id : Z) (g : Flow → Flow) (flows : list Flow) : res exn (list Flow) :=
  match flow_index id flows with
  | Some i => Ok (alter g i flows)
  | None => Raise KeyError
  end.

Definition classify (flows : list Flow) (flow_cls : element) : res exn (list Flow) :=
  id ← int_attr (str "flowId") flow_cls;
  t ← read_FiveTuple flow_cls;
  on_flow id (set_fiveTuple t) flows.

Definition read_probe_stats (probeId : Z) (stats : element) : res exn (Z * ProbeFlowStats) :=
  id ← int_attr (str "flowId") stats;
  n ← int_attr (str "packets") stats;
  b ← float_attr (str "bytes") stats;
  d ← (if 0 <? n then
         t ← parse_time_ns (get_attrib (str "delayFromFirstProbeSum") stats); py_div t (of_Z n)
       else mret (of_Z 0));
  mret (id, MkProbe probeId n b d).
Definition add_stats (probeId : Z) (flows : list Flow) (stats : element) : res exn (list Flow) :=
  '(id, s) ← read_probe_stats probeId stats;
  on_flow id (append_probe s) flows.
Definition add_probe (flows : list Flow) (probe_elem : element) : res exn (list Flow) :=
  id ← int_attr (str "index") probe_elem;
  fold_res (add_stats id) flows (findall (str "FlowStats") probe_elem).

Definition Simulation (el : element) : res exn (list Flow) :=
  match findall (str "Ipv4FlowClassifier") el with
  | [classifier] =>
      flows ← mapM_res read_Flow (findall2 (str "FlowStats") (str "Flow") el);
      flows ← fold_res classify flows (findall (str "Flow") classifier);
      fold_res add_probe flows (findall2 (str "FlowProbes") (str "FlowProbe") el)
  | _ => Raise ValueError
  end.

(** ** [main] *)

(** What has been printed is the state. *)
Definition print (s : pystr) : stm (list pystr) unit := st_modify (λ out, out ++ [s]).

(** The loop over the events: the level, and the simulations so far. *)
Definition on_event (st : Z * list (list Flow)) (ev : event) : stm (list pystr) (Z * list (list Flow)) :=
  let '(level, sims) := st in
  match ev with
  | EvStart _ => mret (level + 1, sims)
  | EvEnd e =>
      let level := level - 1 in
      if (level =? 0) && bool_decide (tag e = str "FlowMonitor") then
        sim ← st_lift (Simulation e);
        _ ← print (str ".");
        mret (level, sims ++ [sim])
      else mret (level, sims)
  end.

(** ['%.2f' % x] *)
Definition fmt2 (x : xfloat) : pystr :=
  match x with
  | NaN => str "nan"
  | Inf s => if s then str "-inf" else str "inf"
  | Fin q =>
      let m := round_half_even (q * (100 # 1)) in
      let a := Z.abs m in
      (if Qneg_bool q then str "-" else []) ++ digits 10 (a / 100) ++ str "."
        ++ [digit_char (a / 10 mod 10); digit_char (a mod 10)]
  end.

Definition tab : ascii := "009"%char.
Definition show_address (a : option pystr) : pystr := default (str "None") a.
Definition proto_name (p : Z) : res exn pystr :=
  if p =? 6 then Ok (str "TCP") else if p =? 17 then Ok (str "UDP") else Raise KeyError.

Definition title_line (f : Flow) : res exn pystr :=
  t ← res_of_option AttributeError (fiveTuple f);
  proto ← proto_name (protocol t);
  mret (str "FlowID: " ++ str_of_Z (flowId f) ++ str " (" ++ proto ++ str " "
    ++ show_address (sourceAddress t) ++ str "/" ++ str_of_Z (sourcePort t) ++ str " --> "
    ++ show_address (destinationAddress t) ++ str "/" ++ str_of_Z (destinationPort t) ++ str ")").
Definition measure_line (label : pystr) (x : option xfloat) (scale : xfloat) (unit_ : pystr) : pystr :=
  [tab] ++ label ++ str ": " ++
  match x with None => str "None" | Some x => fmt2 (xmul x scale) ++ str " " ++ unit_ end.
Definition flow_lines (f : Flow) : list pystr :=
  [measure_line (str "TX bitrate") (txBitrate f) (Fin (1 # 1000)) (str "kbit/s");
   measure_line (str "RX bitrate") (rxBitrate f) (Fin (1 # 1000)) (str "kbit/s");
   measure_line (str "Mean Delay") (delayMean f) (of_Z 1000) (str "ms");
   measure_line (str "Packet Loss Ratio") (packetLossRatio f) (of_Z 100) (str "%")].

Definition print_flow (f : Flow) : stm (list pystr) unit :=
  title ← st_lift (title_line f);
  _ ← print title;
  st_for print (flow_lines f).

(** [open_] opens the file that [argv[1]] names and [parse] parses it; an error of
    the parser can only come before the end of the root, so before a simulation. *)
Definition main (open_ : pystr → res exn pystr) (parse : pystr → res exn element) (argv : list pystr) :
    stm (list pystr) unit :=
  file ← st_lift (res_of_option IndexError (argv !! 1%nat));
  text ← st_lift (open_ file);
  _ ← print (str "Reading XML file ");
  root ← st_lift (parse text);
  st ← st_fold on_event (0, []) (iterparse root);
  _ ← print (str " done.");
  st_for (λ sim, st_for print_flow sim) st.2.

(** ** Objects shared between the list and the map *)

Lemma flow_index_some id flows i : flow_index id flows = Some i → ∃ f, flows !! i = Some f ∧ flowId f = id.
Proof.
  revert i. induction flows as [|f flows IH]; intros i; [done|]. cbn.
  destruct (flow_index id flows) as [j|].
  - intros [= <-]. by apply IH.
  - destruct (Z.eqb_spec (flowId f) id); [|done]. intros [= <-]. by exists f.
Qed.
Lemma flow_index_none id flows : flow_index id flows = None ↔ id ∉ flowId <$> flows.
Proof.
  induction flows as [|f flows IH]; cbn; [split; [intros _; apply not_elem_of_nil|done]|].
  rewrite not_elem_of_cons. destruct (flow_index id flows) as [j|].
  - split; [done|]. intros [_ H%IH]. done.
  - destruct (Z.eqb_spec (flowId f) id); split; try done.
    + intros [? _]. congruence.
    + intros _. split; [congruence|by apply IH].
Qed.

(** Changing the flow with an identifier. *)
Definition change (id : Z) (g : Flow → Flow) (f : Flow) : Flow := if flowId f =? id then g f else f.

Lemma alter_change id g flows i :
  NoDup (flowId <$> flows) → flow_index id flows = Some i → alter g i flows = change id g <$> flows.
Proof.
  intros Hnd Hi. destruct (flow_index_some _ _ _ Hi) as (f & Hf & Hid).
  apply list_eq. intros j. rewrite list_lookup_fmap. destruct (decide (j = i)) as [->|Hne].
  - rewrite list_lookup_alter_eq, Hf. cbn. unfold change. by rewrite Hid, Z.eqb_refl.
  - rewrite list_lookup_alter_ne by done. destruct (flows !! j) as [f'|] eqn:Hj; [|done]. cbn.
    unfold change. destruct (Z.eqb_spec (flowId f') id) as [E|]; [|done].
    destruct Hne. apply (NoDup_lookup (flowId <$> flows) j i id); [done|by rewrite list_lookup_fmap, Hj, <-E|].
    by rewrite list_lookup_fmap, Hf, <-Hid.
Qed.

Lemma on_flow_spec id g flows : NoDup (flowId <$> flows) →
  on_flow id g flows = if decide (id ∈ flowId <$> flows) then Ok (change id g <$> flows) else Raise KeyError.
Proof.
  intros Hnd. unfold on_flow. destruct (flow_index id flows) as [i|] eqn:Hi.
  - rewrite (alter_change _ _ _ _ Hnd Hi). destruct (flow_index_some _ _ _ Hi) as (f & Hf & <-).
    rewrite decide_True; [done|]. apply list_elem_of_fmap. exists f. split; [done|]. by eapply list_elem_of_lookup_2.
  - apply flow_index_none in Hi. by rewrite decide_False.
Qed.

(** The entries for one flow, in order. *)
Definition for_flow {A} (id : Z) (l : list (Z * A)) : list A :=
  snd <$> base.filter (λ e, e.1 = id) l.

Lemma for_flow_cons {A} id id' (a : A) l :
  for_flow id ((id', a) :: l) = if decide (id' = id) then a :: for_flow id l else for_flow id l.
Proof. unfold for_flow. rewrite filter_cons. cbn [fst]. by case_decide. Qed.

Lemma on_flows_spec {A} (g : A → Flow → Flow) (entries : list (Z * A)) flows :
  (∀ a f, flowId (g a f) = flowId f) → NoDup (flowId <$> flows) →
  fold_res (λ fl e, on_flow e.1 (g e.2) fl) flows entries =
    if decide (Forall (λ e, e.1 ∈ flowId <$> flows) entries)
    then Ok ((λ f, fold_left (λ f a, g a f) (for_flow (flowId f) entries) f) <$> flows)
    else Raise KeyError.
Proof.
  intros Hg. revert flows. induction entries as [|[id a] es IH]; intros flows Hnd; cbn [fold_res].
  - rewrite decide_True by done. by rewrite list_fmap_id.
  - cbn [fst snd]. rewrite on_flow_spec by done. destruct (decide (id ∈ flowId <$> flows)) as [Hin|Hout].
    + cbn [mbind res_bind].
      assert (flowId <$> (change id (g a) <$> flows) = flowId <$> flows) as Hids.
      { rewrite <-list_fmap_compose. apply list_fmap_ext. intros i f _. cbn. unfold change. case_match; [apply Hg|done]. }
      rewrite IH by by rewrite Hids. rewrite Hids.
      destruct (decide (Forall (λ e, e.1 ∈ flowId <$> flows) es)) as [Hes|Hes].
      * rewrite decide_True by by constructor. f_equal. rewrite <-list_fmap_compose. apply list_fmap_ext.
        intros i f _. unfold compose, change. rewrite for_flow_cons.
        destruct (Z.eqb_spec (flowId f) id) as [E|E].
        -- rewrite decide_True by done. cbn [fold_left]. by rewrite Hg.
        -- by rewrite decide_False by congruence.
      * rewrite decide_False; [done|]. intros H. apply Hes. by inversion H.
    + rewrite decide_False; [done|]. intros H. apply Hout. by inversion H.
Qed.

(** ** What a simulation holds *)

Definition tuple_entry (el : element) : res exn (Z * FiveTuple) :=
  id ← int_attr (str "flowId") el; t ← read_FiveTuple el; mret (id, t).
Definition probe_entries (el : element) : res exn (list (Z * ProbeFlowStats)) :=
  id ← int_attr (str "index") el; mapM_res (read_probe_stats id) (findall (str "FlowStats") el).

(** A flow with its last classification and the probes' statistics in order. *)
Definition finish (f : Flow) (ts : list FiveTuple) (ps : list ProbeFlowStats) : Flow :=
  MkFlow (flowId f) (delayMean f) (packetLossRatio f) (rxBitrate f) (txBitrate f) (last ts)
    (packetSizeMean f) ps (hopCount f) (flowInterruptionsHistogram f) (rx_duration f).

Lemma read_Flow_fresh el f : read_Flow el = Ok f → fiveTuple f = None ∧ probe_stats_unsorted f = [].
Proof.
  unfold read_Flow. intros H.
  repeat (apply bind_ok_inv in H as (? & _ & H); cbv beta in H;
          try match type of H with (let '(_, _) := ?x in _) = _ => destruct x end).
  by injection H as <-.
Qed.

Lemma classify_fold ts f : fold_left (λ f t, set_fiveTuple t f) ts f =
  MkFlow (flowId f) (delayMean f) (packetLossRatio f) (rxBitrate f) (txBitrate f)
    (match last ts with Some t => Some t | None => fiveTuple f end)
    (packetSizeMean f) (probe_stats_unsorted f) (hopCount f) (flowInterruptionsHistogram f) (rx_duration f).
Proof.
  induction ts as [|t ts IH] using rev_ind; [by destruct f|].
  rewrite fold_left_app, IH, last_snoc. done.
Qed.
Lemma probes_fold ps f : fold_left (λ f s, append_probe s f) ps f =
  MkFlow (flowId f) (delayMean f) (packetLossRatio f) (rxBitrate f) (txBitrate f) (fiveTuple f)
    (packetSizeMean f) (probe_stats_unsorted f ++ ps) (hopCount f) (flowInterruptionsHistogram f) (rx_duration f).
Proof.
  induction ps as [|p ps IH] using rev_ind; [destruct f; cbn; by rewrite app_nil_r|].
  rewrite fold_left_app, IH. cbn. unfold append_probe. cbn. by rewrite <-(assoc_L (++)).
Qed.

Lemma classify_entries flows els ts : mapM_res tuple_entry els = Ok ts →
  fold_res classify flows els = fold_res (λ fl e, on_flow e.1 (set_fiveTuple e.2) fl) flows ts.
Proof.
  apply fold_res_mapM. intros fl el [id t] (i & Hi & (t' & Ht & [= -> ->])%bind_ok_inv)%bind_ok_inv.
  unfold classify. by rewrite Hi, Ht.
Qed.
Lemma probes_entries flows els pss : mapM_res probe_entries els = Ok pss →
  fold_res add_probe flows els = fold_res (λ fl e, on_flow e.1 (append_probe e.2) fl) flows (concat pss).
Proof.
  intros H. rewrite <-fold_res_concat. revert H. apply fold_res_mapM.
  intros fl p es (id & Hid & Hes)%bind_ok_inv. unfold add_probe. rewrite Hid. cbn. revert Hes.
  apply fold_res_mapM. intros fl' st [i s] Hs. unfold add_stats. by rewrite Hs.
Qed.

(** C39: [Simulation] on a results file whose attributes read as numbers and whose
    flows have different identifiers: it raises a [KeyError] exactly when a
    classification or a probe names a flow that is not there; otherwise it holds
    the flows in the order of the file, each with the statistics of its own
    element, with its last classification, and with the statistics of the probes
    for it in the order of the file. *)
Theorem simulation_groups el classifier flows ts pss
    (Hcl : findall (str "Ipv4FlowClassifier") el = [classifier])
    (Hfl : mapM_res read_Flow (findall2 (str "FlowStats") (str "Flow") el) = Ok flows)
    (Hts : mapM_res tuple_entry (findall (str "Flow") classifier) = Ok ts)
    (Hps : mapM_res probe_entries (findall2 (str "FlowProbes") (str "FlowProbe") el) = Ok pss)
    (Hnd : NoDup (flowId <$> flows)) :
  Simulation el =
    if decide (Forall (λ e, e.1 ∈ flowId <$> flows) ts ∧ Forall (λ e, e.1 ∈ flowId <$> flows) (concat pss))
    then Ok ((λ f, finish f (for_flow (flowId f) ts) (for_flow (flowId f) (concat pss))) <$> flows)
    else Raise KeyError.
Proof.
  unfold Simulation. rewrite Hcl, Hfl. cbn [mbind res_bind].
  rewrite (classify_entries _ _ _ Hts), on_flows_spec by done.
  destruct (decide (Forall _ ts)) as [Ht|Ht]; [|by rewrite decide_False by tauto]. cbn [mbind res_bind].
  set (flows1 := _ <$> flows).
  assert (flowId <$> flows1 = flowId <$> flows) as Hids.
  { unfold flows1. rewrite <-list_fmap_compose. apply list_fmap_ext. intros i f _. unfold compose.
    by rewrite classify_fold. }
  rewrite (probes_entries _ _ _ Hps), on_flows_spec by (done || by rewrite Hids). rewrite Hids.
  destruct (decide (Forall _ (concat pss))) as [Hp|Hp]; [|by rewrite decide_False by tauto].
  rewrite decide_True by done. f_equal. unfold flows1. rewrite <-list_fmap_compose.
  apply list_fmap_ext. intros i f Hf. unfold compose. rewrite classify_fold, probes_fold. cbn [flowId].
  assert (fiveTuple f = None ∧ probe_stats_unsorted f = []) as [Ef Ep].
  { destruct (mapM_res_elem _ _ _ f Hfl) as (x & _ & Hx); [by eapply list_elem_of_lookup_2|].
    by eapply read_Flow_fresh. }
  unfold finish. cbn. rewrite Ef, Ep. cbn. by destruct (last _).
Qed.

(** ** The statistics of one flow *)

Lemma py_div_fin p q : ¬ (q == 0)%Q → py_div (Fin p) (Fin q) = Ok (fin (p / q)).
Proof.
  intros Hq. unfold py_div. cbn. destruct (Qzero_bool q) eqn:E; [by apply Qzero_bool_iff in E|done].
Qed.
Lemma xtrue_pos q : (0 < q)%Q → xtrue (Fin q) = true.
Proof.
  intros Hq. unfold xtrue. cbn. destruct (Qzero_bool q) eqn:E; [|done]. apply Qzero_bool_iff in E. lra.
Qed.
Lemma xtrue_zero q : (q == 0)%Q → xtrue (Fin q) = false.
Proof. intros Hq. unfold xtrue. cbn. by apply Qzero_bool_iff in Hq as ->. Qed.

Lemma loss_ratio_zero lost rx : (rx == 0)%Q → loss_ratio lost (Fin rx) = Ok None.
Proof. intros H. unfold loss_ratio. cbn [xeqb of_Z]. change (inject_Z 0) with 0%Q. by apply Qeq_bool_iff in H as ->. Qed.
Lemma loss_ratio_pos lost rx : (0 < rx)%Q → (0 <= lost)%Q →
  ∃ p, loss_ratio (Fin lost) (Fin rx) = Ok (Some (Fin p)) ∧ (0 <= p < 1)%Q ∧ (p * (rx + lost) == lost)%Q.
Proof.
  intros Hrx Hl. unfold loss_ratio. cbn [xeqb of_Z].
  destruct (Qeq_bool rx (inject_Z 0)) eqn:E; [apply Qeq_bool_iff in E; unfold inject_Z in E; lra|].
  cbn [xadd]. unfold fin at 1. rewrite py_div_fin by (rewrite Qred_correct; lra). cbn.
  eexists. split; [done|]. rewrite !Qred_correct.
  assert (lost / (rx + lost) * (rx + lost) == lost)%Q as Hm by (field; lra).
  split; [|done]. split; [apply Qle_shift_div_l; lra|apply Qlt_shift_div_r; lra].
Qed.

Lemma hop_count_zero el rx : (rx == 0)%Q → hop_count el (Fin rx) = Ok (of_Z (-1000)).
Proof. intros H. unfold hop_count. by rewrite xtrue_zero. Qed.
Lemma hop_count_pos el rx fwd h : (0 < rx)%Q → (0 <= fwd)%Q →
  float_attr (str "timesForwarded") el = Ok (Fin fwd) → hop_count el (Fin rx) = Ok h →
  ∃ q, h = Fin q ∧ (1 <= q)%Q ∧ ((q - 1) * rx == fwd)%Q.
Proof.
  intros Hrx Hf Hfwd. unfold hop_count. rewrite xtrue_pos, Hfwd by done. cbn [mbind res_bind].
  rewrite py_div_fin by lra. cbn. intros [= <-]. eexists. split; [done|]. rewrite !Qred_correct. unfold inject_Z.
  assert (fwd / rx * rx == fwd)%Q as Hm by (field; lra).
  split; [|by ring_simplify; rewrite Hm]. assert (0 <= fwd / rx)%Q by (apply Qle_shift_div_l; lra). lra.
Qed.

Lemma means_zero el rx : (rx == 0)%Q → means el (Fin rx) = Ok (None, None).
Proof. intros H. unfold means. by rewrite xtrue_zero. Qed.

Lemma bitrate_spec el k d b r : float_attr k el = Ok (Fin b) → bitrate el k (Fin d) = Ok r →
  if Qlt_bool 0 d then ∃ q, r = Some (Fin q) ∧ (q * d == 8 * b)%Q else r = None.
Proof.
  intros Hb. unfold bitrate. cbn [xlt of_Z]. change (inject_Z 0) with 0%Q.
  destruct (Qlt_bool 0 d) eqn:E; [|by intros [= <-]]. apply Qlt_bool_iff in E. rewrite Hb.
  cbn [mbind res_bind xmul of_Z]. unfold fin at 1. rewrite py_div_fin by lra. cbn. intros [= <-].
  eexists. split; [done|]. rewrite !Qred_correct. unfold inject_Z. field. lra.
Qed.

(** What reading a flow goes through. *)
Lemma read_Flow_inv el f : read_Flow el = Ok f → ∃ rx tx tx_dur lost,
  float_attr (str "rxPackets") el = Ok rx ∧ float_attr (str "txPackets") el = Ok tx ∧
  duration el (str "timeLastTxPacket") (str "timeFirstTxPacket") = Ok tx_dur ∧
  duration el (str "timeLastRxPacket") (str "timeFirstRxPacket") = Ok (rx_duration f) ∧
  hop_count el rx = Ok (hopCount f) ∧ means el rx = Ok (delayMean f, packetSizeMean f) ∧
  bitrate el (str "rxBytes") (rx_duration f) = Ok (rxBitrate f) ∧
  bitrate el (str "txBytes") tx_dur = Ok (txBitrate f) ∧
  float_attr (str "lostPackets") el = Ok lost ∧ loss_ratio lost rx = Ok (packetLossRatio f).
Proof.
  unfold read_Flow. intros H.
  apply bind_ok_inv in H as (id & _ & H). apply bind_ok_inv in H as (rx & Hrx & H).
  apply bind_ok_inv in H as (tx & Htx & H). apply bind_ok_inv in H as (txd & Htxd & H).
  apply bind_ok_inv in H as (rxd & Hrxd & H). apply bind_ok_inv in H as (hops & Hh & H).
  apply bind_ok_inv in H as ([d p] & Hm & H). apply bind_ok_inv in H as (rb & Hrb & H).
  apply bind_ok_inv in H as (tb & Htb & H). apply bind_ok_inv in H as (lost & Hl & H).
  apply bind_ok_inv in H as (loss & Hloss & H). apply bind_ok_inv in H as (hist & _ & H).
  injection H as <-. exists rx, tx, txd, lost. by split_and!.
Qed.

(** The statistics of a flow with finite, non-negative counts.  Without a
    received packet the loss ratio and the means are None (so a flow that lost
    everything has no loss ratio) and the number of hops is -1000; otherwise the
    loss ratio is the share of the lost packets, at least 0 and below 1, and the
    mean number of hops is at least 1.  The bit rate is eight times the bytes
    over the duration, and None when the duration is not positive. *)
Theorem flow_statistics el f rx lost fwd
    (Hf : read_Flow el = Ok f) (Hrx : float_attr (str "rxPackets") el = Ok (Fin rx))
    (Hlost : float_attr (str "lostPackets") el = Ok (Fin lost))
    (Hfwd : float_attr (str "timesForwarded") el = Ok (Fin fwd))
    (Hrx0 : (0 <= rx)%Q) (Hlost0 : (0 <= lost)%Q) (Hfwd0 : (0 <= fwd)%Q) :
  ((rx == 0)%Q → packetLossRatio f = None ∧ delayMean f = None ∧ packetSizeMean f = None ∧
     hopCount f = of_Z (-1000)) ∧
  ((0 < rx)%Q → ∃ p h, packetLossRatio f = Some (Fin p) ∧ (0 <= p < 1)%Q ∧ (p * (rx + lost) == lost)%Q ∧
     hopCount f = Fin h ∧ (1 <= h)%Q ∧ ((h - 1) * rx == fwd)%Q) ∧
  (∀ d b, rx_duration f = Fin d → float_attr (str "rxBytes") el = Ok (Fin b) →
     if Qlt_bool 0 d then ∃ q, rxBitrate f = Some (Fin q) ∧ (q * d == 8 * b)%Q else rxBitrate f = None).
Proof.
  destruct (read_Flow_inv el f Hf) as (rx' & tx & txd & lost' & E1 & _ & _ & _ & Hh & Hm & Hb & _ & E2 & Hl).
  rewrite Hrx in E1. injection E1 as <-. rewrite Hlost in E2. injection E2 as <-. split_and!.
  - intros Hz. rewrite hop_count_zero in Hh by done. rewrite means_zero in Hm by done.
    rewrite loss_ratio_zero in Hl by done. injection Hh as <-. injection Hm as <- <-. by injection Hl as <-.
  - intros Hpos. destruct (loss_ratio_pos lost rx Hpos Hlost0) as (p & Hp & Hp1 & Hp2).
    destruct (hop_count_pos el rx fwd _ Hpos Hfwd0 Hfwd Hh) as (h & Eh & Hh1 & Hh2).
    rewrite Hp in Hl. injection Hl as Hl. exists p, h. split; [done|]. split; [exact Hp1|].
    split; [exact Hp2|]. split; [exact Eh|]. by split.
  - intros d b Hd Hbytes. rewrite Hd in Hb. by eapply bitrate_spec.
Qed.

(** ** What [main] prints *)

Definition flow_report (f : Flow) : res exn (list pystr) :=
  title ← title_line f; mret (title :: flow_lines f).

Lemma st_for_print ls out : st_for print ls out = (Ok tt, out ++ ls).
Proof.
  revert out. induction ls as [|l ls IH]; intros out; cbn; [by rewrite app_nil_r|].
  unfold mbind, stm_bind, print, st_modify. rewrite IH. by rewrite <-(assoc_L (++)).
Qed.
Lemma print_flow_spec f out : print_flow f out =
  match flow_report f with Ok ls => (Ok tt, out ++ ls) | Raise e => (Raise e, out) end.
Proof.
  unfold print_flow, flow_report. destruct (title_line f) as [t|e]; [|done].
  rewrite (st_bind_step _ _ out t out) by done. rewrite (st_bind_step _ _ out tt (out ++ [t])) by done.
  rewrite st_for_print. by rewrite <-(assoc_L (++)).
Qed.

(** The flows up to the first that cannot be shown. *)
Lemma print_flows_spec flows reports out : mapM_res flow_report flows = Ok reports →
  st_for print_flow flows out = (Ok tt, out ++ concat reports).
Proof.
  revert reports out. induction flows as [|f flows IH]; intros reports out; cbn; [intros [= <-]; by rewrite app_nil_r|].
  intros (r & Hr & (rs & Hrs & [= <-])%bind_ok_inv)%bind_ok_inv. unfold mbind, stm_bind.
  rewrite print_flow_spec, Hr, (IH rs) by done. cbn. by rewrite <-(assoc_L (++)).
Qed.
Lemma print_flows_raise flows f rest reports e out : mapM_res flow_report flows = Ok reports →
  flow_report f = Raise e →
  st_for print_flow (flows ++ f :: rest) out = (Raise e, out ++ concat reports).
Proof.
  intros Hr Hf. rewrite st_for_app. unfold mbind, stm_bind. rewrite (print_flows_spec _ _ _ Hr). cbn.
  unfold mbind, stm_bind. by rewrite print_flow_spec, Hf.
Qed.

(** Below the root the events change nothing. *)
Lemma events_inside e level sims out : 0 < level →
  st_fold on_event (level, sims) (iterparse e) out = (Ok (level, sims), out).
Proof.
  revert level. induction e as [t a x cs IH] using element_induction. intros level Hl. rewrite iterparse_eq. cbn [children st_fold].
  assert (∀ level, 0 < level → st_fold on_event (level, sims) (concat (map iterparse cs)) out = (Ok (level, sims), out)) as Hcs.
  { clear Hl level. induction IH as [|c cs Hc _ IHcs]; intros level Hl; [done|]. cbn. rewrite st_fold_app. unfold mbind, stm_bind.
    rewrite Hc by done. by apply IHcs. }
  unfold mbind, stm_bind. cbn [on_event mret stm_ret]. rewrite st_fold_app. unfold mbind, stm_bind.
  rewrite Hcs by lia. cbn. replace (level + 1 - 1) with level by lia.
  by rewrite (proj2 (Z.eqb_neq level 0)) by lia.
Qed.

(** The loop over the events of a document acts on the root only. *)
Lemma events_root root out :
  st_fold on_event (0, []) (iterparse root) out =
    if bool_decide (tag root = str "FlowMonitor") then
      match Simulation root with Ok sim => (Ok (0, [sim]), out ++ [str "."]) | Raise e => (Raise e, out) end
    else (Ok (0, []), out).
Proof.
  rewrite iterparse_eq. cbn [st_fold]. rewrite (st_bind_step _ _ out (1, []) out) by done.
  rewrite st_fold_app.
  assert (st_fold on_event (1, []) (concat (map iterparse (children root))) out = (Ok (1, []), out)) as Hin.
  { induction (children root) as [|c cs IH]; [done|]. cbn. rewrite st_fold_app.
    rewrite (st_bind_step _ _ out (1, []) out) by by apply events_inside. exact IH. }
  rewrite (st_bind_step _ _ _ _ _ Hin). cbn [st_fold on_event]. cbn.
  case_bool_decide; [|done]. by destruct (Simulation root).
Qed.

(** What the script prints for a document.  Only the root element counts,
    and only if it is a FlowMonitor: nested elements, of whatever tag, never
    start a simulation.  An error of the simulation ends the script before any
    flow is printed.  The flows are printed in order, five lines each; the first
    flow without a classification, or with a protocol other than 6 and 17, ends
    the script with an exception after the lines of the flows before it. *)
Theorem main_prints open_ parse argv file text root
    (Hargv : argv !! 1%nat = Some file) (Hopen : open_ file = Ok text) (Hdoc : parse text = Ok root) :
  (tag root ≠ str "FlowMonitor" → main open_ parse argv [] = (Ok tt, [str "Reading XML file "; str " done."])) ∧
  (tag root = str "FlowMonitor" →
     (∀ e, Simulation root = Raise e → main open_ parse argv [] = (Raise e, [str "Reading XML file "])) ∧
     (∀ flows reports, Simulation root = Ok flows → mapM_res flow_report flows = Ok reports →
        main open_ parse argv [] = (Ok tt, [str "Reading XML file "; str "."; str " done."] ++ concat reports) ∧
        Forall (λ r, length r = 5%nat) reports) ∧
     (∀ flows f rest reports, Simulation root = Ok (flows ++ f :: rest) → mapM_res flow_report flows = Ok reports →
        (∀ t, fiveTuple f = Some t → protocol t ≠ 6 ∧ protocol t ≠ 17) →
        main open_ parse argv [] = (Raise (if fiveTuple f is Some _ then KeyError else AttributeError),
          [str "Reading XML file "; str "."; str " done."] ++ concat reports))).
Proof.
  assert (∀ r out, st_fold on_event (0, []) (iterparse root) [str "Reading XML file "] = (r, out) →
    main open_ parse argv [] = match r with
      | Ok st => (_ ← print (str " done."); st_for (λ sim, st_for print_flow sim) st.2) out
      | Raise e => (Raise e, out) end) as Hmain.
  { intros r out H. unfold main. rewrite Hargv. rewrite (st_bind_step _ _ [] file []) by done.
    rewrite Hopen. rewrite (st_bind_step _ _ [] text []) by done.
    rewrite (st_bind_step _ _ [] tt [str "Reading XML file "]) by done.
    rewrite Hdoc. rewrite (st_bind_step _ _ [str "Reading XML file "] root [str "Reading XML file "]) by done.
    unfold mbind at 1, stm_bind. rewrite H. by destruct r. }
  rewrite events_root in Hmain. split.
  - intros Ht. rewrite bool_decide_false in Hmain by done. by rewrite (Hmain _ _ eq_refl).
  - intros Ht. rewrite bool_decide_true in Hmain by done. split_and!.
    + intros e He. rewrite He in Hmain. by rewrite (Hmain _ _ eq_refl).
    + intros flows reports Hs Hr. rewrite Hs in Hmain. rewrite (Hmain _ _ eq_refl). split.
      * rewrite (st_bind_step _ _ _ tt [str "Reading XML file "; str "."; str " done."]) by done.
        cbn [snd st_for]. by rewrite (st_bind_step _ _ _ _ _ (print_flows_spec _ _ _ Hr)).
      * apply Forall_forall. intros r Hin. destruct (mapM_res_elem _ _ _ _ Hr Hin) as (f & _ & Hf).
        unfold flow_report in Hf. by apply bind_ok_inv in Hf as (t & _ & [= <-]).
    + intros flows f rest reports Hs Hr Hbad. rewrite Hs in Hmain. rewrite (Hmain _ _ eq_refl).
      rewrite (st_bind_step _ _ _ tt [str "Reading XML file "; str "."; str " done."]) by done.
      cbn [snd st_for]. apply st_bind_raise. apply print_flows_raise; [done|].
      unfold flow_report, title_line. destruct (fiveTuple f) as [t|] eqn:Hf; [|done].
      destruct (Hbad t eq_refl) as [H6 H17]. cbn. unfold proto_name.
      by rewrite (proj2 (Z.eqb_neq _ _) H6), (proj2 (Z.eqb_neq _ _) H17).
Qed.

(** ** A sample file: two flows, the second without a received packet *)

Definition sample_flow (id rx lost : string) : element :=
  Element (str "Flow")
    [(str "flowId", str id); (str "rxPackets", str rx); (str "txPackets", str "4");
     (str "timeFirstTxPacket", str "+1000000000.0ns"); (str "timeLastTxPacket", str "+3000000000.0ns");
     (str "timeFirstRxPacket", str "+0.0ns"); (str "timeLastRxPacket", str "+2000000000.0ns");
     (str "timesForwarded", str "6"); (str "delaySum", str "+9000000.0ns"); (str "rxBytes", str "3000");
     (str "txBytes", str "4000"); (str "lostPackets", str lost)] None [].
Definition sample_class (id proto : string) : element :=
  Element (str "Flow")
    [(str "flowId", str id); (str "sourceAddress", str "10.1.1.1"); (str "destinationAddress", str "10.1.1.2");
     (str "protocol", str proto); (str "sourcePort", str "49153"); (str "destinationPort", str "9")] None [].
Definition sample_probe : element :=
  Element (str "FlowProbe") [(str "index", str "0")] None
    [Element (str "FlowStats") [(str "flowId", str "1"); (str "packets", str "2"); (str "bytes", str "2000");
                                (str "delayFromFirstProbeSum", str "+5.0ns")] None []].
Definition sample_doc (classes : list element) : element :=
  Element (str "FlowMonitor") [] None
    [Element (str "FlowStats") [] None [sample_flow "1" "3" "1"; sample_flow "2" "0" "4"];
     Element (str "Ipv4FlowClassifier") [] None classes;
     Element (str "Ipv6FlowClassifier") [] None [];
     Element (str "FlowProbes") [] None [sample_probe]].
Definition sample_classes : list element := [sample_class "1" "17"; sample_class "2" "6"].
Definition get_ok {A} (d : A) (r : res exn A) : A := match r with Ok a => a | Raise _ => d end.
Definition sample_elements : list element := [sample_flow "1" "3" "1"; sample_flow "2" "0" "4"].
Definition sample_flows : list Flow := Eval vm_compute in get_ok [] (mapM_res read_Flow sample_elements).
Definition sample_tuples : list (Z * FiveTuple) := Eval vm_compute in get_ok [] (mapM_res tuple_entry sample_classes).
Definition sample_stats : list (list (Z * ProbeFlowStats)) :=
  Eval vm_compute in get_ok [] (mapM_res probe_entries [sample_probe]).

Lemma simulation_groups_witness :
  ∃ flows, Simulation (sample_doc sample_classes) = Ok flows ∧
    (packets <$> (flows ≫= probe_stats_unsorted)) = [2] ∧ (option_map protocol ∘ fiveTuple <$> flows) = [Some 17; Some 6].
Proof.
  eexists. split; [rewrite (simulation_groups (sample_doc sample_classes)
    (Element (str "Ipv4FlowClassifier") [] None sample_classes) sample_flows sample_tuples sample_stats)|].
  - rewrite decide_True; [reflexivity|]. apply (bool_decide_unpack _). vm_compute. exact I.
  - reflexivity.
  - vm_compute. reflexivity.
  - vm_compute. reflexivity.
  - vm_compute. reflexivity.
  - apply (bool_decide_unpack _). vm_compute. exact I.
  - split; vm_compute; reflexivity.
Defined.

Lemma sample_lossy : read_Flow (sample_flow "2" "0" "4") = Ok (nth 1 sample_flows (nth 0 sample_flows (MkFlow 0 None None None None None None [] NaN None NaN))).
Proof. vm_compute. reflexivity. Qed.

Lemma flow_statistics_witness :
  packetLossRatio <$> read_Flow (sample_flow "1" "3" "1") = Ok (Some (Fin (1 # 4))) ∧
  ∃ f, read_Flow (sample_flow "2" "0" "4") = Ok f ∧ packetLossRatio f = None.
Proof.
  split; [vm_compute; reflexivity|]. eexists. split; [exact sample_lossy|].
  eapply (flow_statistics (sample_flow "2" "0" "4") _ 0 4 6 sample_lossy);
    try (vm_compute; reflexivity); vm_compute; discriminate.
Defined.

(** A protocol such as ICMP has no name. *)
Definition sample_icmp : element :=
  Element (str "FlowMonitor") [] None
    [Element (str "FlowStats") [] None [sample_flow "1" "3" "1"];
     Element (str "Ipv4FlowClassifier") [] None [sample_class "1" "1"]].
Definition icmp_flows : list Flow := Eval vm_compute in get_ok [] (Simulation sample_icmp).

Lemma main_prints_witness :
  (let out := snd (main Ok (λ _, Ok (sample_doc sample_classes)) [[]; str "f.xml"] []) in
   firstn 5 out = [str "Reading XML file "; str "."; str " done.";
     str "FlowID: 1 (UDP 10.1.1.1/49153 --> 10.1.1.2/9)"; [tab] ++ str "TX bitrate: 16.00 kbit/s"] ∧
   length out = 13%nat) ∧
  main Ok (λ _, Ok sample_icmp) [[]; str "f.xml"] [] =
    (Raise KeyError, [str "Reading XML file "; str "."; str " done."]).
Proof.
  split; [split; vm_compute; reflexivity|].
  destruct (main_prints Ok (λ _, Ok sample_icmp) [[]; str "f.xml"] (str "f.xml") (str "f.xml") sample_icmp eq_refl eq_refl eq_refl) as [_ H].
  destruct (H eq_refl) as (_ & _ & H3).
  refine (H3 [] (nth 0 icmp_flows (MkFlow 0 None None None None None None [] NaN None NaN)) [] [] _ eq_refl _).
  - vm_compute. reflexivity.
  - intros t Ht. vm_compute in Ht. injection Ht as <-. split; discriminate.
Defined.
