(* ===== verification/Fog.v ===== *)
(** * Fog4VR: the table of fog servers

    The simulator writes one line per fog server to the controller log and calls
    a Python script to choose the server that a client moves to: src/Fog4VR/AHP/AHP.py,
    src/Fog4VR/PLI/pliLocal.py and pli.py, src/Fog4VR/Guloso-Aleatorio/exemplo.py.
    All four read the log with the same function, [concatenarServers]; they differ
    in the measure of memory use and in the entries of the result.  The delay
    matrix, which pandas reads, is an argument.  The scripts' choices are in
    [FogPolicy]. *)
From Stdlib Require Import Ascii String Qminmax.
From S2P Require Export Dict PyFloat.
Open Scope Z_scope.

(** ** Arguments and files *)

(** The script's arguments: [sys.argv[1]] to [sys.argv[5]]. *)
Record fog_args : Type := FogArgs {
  folder : pystr;
  simu : pystr;
  size : xfloat;
  pos : Z;
  contentId : pystr;
}.

Definition nth_arg (l : list pystr) (n : nat) : res exn pystr := res_of_option IndexError (l !! n).

Definition fog_parse_args (argv : list pystr) : res exn fog_args :=
  folder ← nth_arg argv 1;
  simu ← nth_arg argv 2;
  a3 ← nth_arg argv 3; size ← py_float a3;
  a4 ← nth_arg argv 4; pos ← py_int 10 a4;
  contentId ← nth_arg argv 5;
  mret (FogArgs folder simu size pos contentId).

Definition log_name (simu : pystr) : pystr := str "Controller_sim" ++ simu ++ str "_Log.csv".
Definition delay_name (simu : pystr) : pystr := str "delays_sim" ++ simu ++ str "_Log.csv".

(** [delays[i][j]] *)
Definition matrix_get (delays : list (list xfloat)) (i j : Z) : res exn xfloat :=
  row ← res_of_option IndexError (py_get delays i);
  res_of_option IndexError (py_get row j).

(** ** Reading the lines *)

(** The lists that the first loop fills. *)
Record table : Type := Table {
  totalMemory : list xfloat;
  freeMemory : list xfloat;
  ServersIP : list pystr;
  band : list Z;
  hasContent : list Z;
  latency : list xfloat;
  memoryUsage : list xfloat;
}.
Definition empty_table : table := Table [] [] [] [] [] [] [].

(** One line: [i] counts all the lines, and [freeMemory[i]] is looked up in the
    list of the accepted ones. *)
Definition scan_line (usage : xfloat → xfloat → res exn xfloat) (a : fog_args)
    (delays : list (list xfloat)) (t : table) (i : Z) (line : pystr) : res exn table :=
  let fields := split_char ";" line in
  s2 ← nth_arg fields 2; free ← py_float s2;
  if xle (size a) free then
    s1 ← nth_arg fields 1; total ← py_float s1;
    ip ← nth_arg fields 3;
    s4 ← nth_arg fields 4;
    let contents := split_char "/" s4 in
    time ← matrix_get delays (pos a) i;
    let free' := freeMemory t ++ [free] in
    fi ← res_of_option IndexError (py_get free' i);
    u ← usage (size a) fi;
    mret (Table (totalMemory t ++ [total]) free' (ServersIP t ++ [ip])
            (band t ++ [Z.of_nat (length contents)])
            (hasContent t ++ if bool_decide (contentId a ∈ contents) then [i] else [])
            (latency t ++ [time]) (memoryUsage t ++ [u]))
  else mret t.

Fixpoint scan_lines (usage : xfloat → xfloat → res exn xfloat) (a : fog_args)
    (delays : list (list xfloat)) (t : table) (i : Z) (lines : list pystr) : res exn table :=
  match lines with
  | [] => Ok t
  | line :: lines =>
      t ← scan_line usage a delays t i line;
      scan_lines usage a delays t (i + 1) lines
  end.

(** ** Migration times *)

Definition TCPWindow : xfloat := of_Z 8388608.

(** [maxThroughput] for a transfer with the given smallest delay. *)
Definition max_throughput (delay : xfloat) : xfloat :=
  let m := np_div (np_div TCPWindow (xmul delay (of_Z 1000))) (of_Z 8) in
  if xlt (of_Z 120) m then of_Z 120 else m.

Definition migration_time (a : fog_args) (delays : list (list xfloat)) (has : list Z) (i : Z) :
    res exn xfloat :=
  if bool_decide (i ∈ has) then Ok (of_Z 0)
  else
    times ← mapM_res (matrix_get delays (pos a)) has;
    times ← (match times with [] => d ← matrix_get delays i 7; mret [d] | _ => mret times end);
    m ← py_min times;
    mret (np_div (size a) (max_throughput m)).

(** ** Normalisation *)

(** [(x - min(x)) / (max(x) - min(x))] with NumPy's division. *)
Definition normalise (l : list xfloat) : res exn (list xfloat) :=
  mn ← py_min l;
  mx ← py_max l;
  mret ((λ x, np_div (xsub x mn) (xsub mx mn)) <$> l).

Definition normalise_usage (l : list xfloat) : res exn (list xfloat) :=
  mx ← py_max l;
  mn ← py_min l;
  if xeqb mx mn then mret ((λ x, xmul x (of_Z 0)) <$> l) else normalise l.

(** ** The servers *)

(** What the caller sees afterwards: the dictionary, the global list of
    addresses, and its own list of migration times, which stays unnormalised
    because the function rebinds its local name. *)
Record fog_result : Type := FogResult {
  Servers : PyDict pystr (list xfloat);
  server_ips : list pystr;
  migrationTime : list xfloat;
}.

(** The entry of a server: [keep] is the guard on the number of contents and
    [extra] what follows the three measures. *)
Definition add_server (keep : Z → bool) (extra : Z → list xfloat)
    (d : PyDict pystr (list xfloat)) (e : pystr * Z * (xfloat * xfloat * xfloat)) :
    PyDict pystr (list xfloat) :=
  let '(ip, b, (l, m, u)) := e in
  if keep b then dset ip ([l; m; u] ++ extra b) d else d.

(** The entries of the four lists side by side. *)
Definition entries (t : table) (l m u : list xfloat) : list (pystr * Z * (xfloat * xfloat * xfloat)) :=
  zip (zip (ServersIP t) (band t)) (zip (zip l m) u).

Definition concatenarServers (usage : xfloat → xfloat → res exn xfloat) (keep : Z → bool)
    (extra : Z → list xfloat) (a : fog_args) (log : pystr) (delays : list (list xfloat)) :
    res exn fog_result :=
  match readlines log with
  | [] => Raise StopIteration
  | _ :: lines =>
      t ← scan_lines usage a delays empty_table 0 lines;
      raw ← mapM_res (migration_time a delays (hasContent t)) (seqZ 0 (Z.of_nat (length (ServersIP t))));
      l ← normalise (latency t);
      m ← normalise raw;
      u ← normalise_usage (memoryUsage t);
      mret (FogResult (fold_left (add_server keep extra) (entries t l m u) dempty) (ServersIP t) raw)
  end.

(** The function of each script. *)
Definition usage_ratio (size free : xfloat) : res exn xfloat := py_div size free.
Definition usage_left (size free : xfloat) : res exn xfloat := Ok (xsub free size).
Definition below_ten (b : Z) : bool := b <? 10.

Definition ahp_concatenarServers : fog_args → pystr → list (list xfloat) → res exn fog_result :=
  concatenarServers usage_ratio below_ten (λ _, []).
Definition pliLocal_concatenarServers : fog_args → pystr → list (list xfloat) → res exn fog_result :=
  concatenarServers usage_left below_ten (λ b, [of_Z b]).
Definition pli_concatenarServers : fog_args → pystr → list (list xfloat) → res exn fog_result :=
  concatenarServers usage_ratio (λ _, true) (λ _, [of_Z 0]).
Definition exemplo_concatenarServers : fog_args → pystr → list (list xfloat) → res exn fog_result :=
  concatenarServers usage_ratio (λ _, true) (λ _, [of_Z 0]).

(** ** What the table holds

    A line read into its fields, and the servers with enough free memory. *)
Record server : Type := Server {
  sv_total : xfloat;
  sv_free : xfloat;
  sv_ip : pystr;
  sv_contents : list pystr;
}.

Definition parse_server (line : pystr) : res exn server :=
  let fields := split_char ";" line in
  s2 ← nth_arg fields 2; free ← py_float s2;
  s1 ← nth_arg fields 1; total ← py_float s1;
  ip ← nth_arg fields 3;
  s4 ← nth_arg fields 4;
  mret (Server total free ip (split_char "/" s4)).

Definition accepted (a : fog_args) (r : server) : bool := xle (size a) (sv_free r).

(** The servers before the first rejected one, and those from it on. *)
Fixpoint split_accepted (a : fog_args) (rs : list server) : list server * list server :=
  match rs with
  | [] => ([], [])
  | r :: rs' => if accepted a r then let '(g, b) := split_accepted a rs' in (r :: g, b)
                else ([], rs)
  end.

Definition holds (a : fog_args) (r : server) : bool := bool_decide (contentId a ∈ sv_contents r).

(** The positions, from [i] on, of the servers that hold the content. *)
Fixpoint holders (a : fog_args) (i : Z) (rs : list server) : list Z :=
  match rs with
  | [] => []
  | r :: rs => (if holds a r then [i] else []) ++ holders a (i + 1) rs
  end.

Definition contents_count (r : server) : Z := Z.of_nat (length (sv_contents r)).

Definition table_of (a : fog_args) (dp us : list xfloat) (rs : list server) : table :=
  Table (sv_total <$> rs) (sv_free <$> rs) (sv_ip <$> rs) (contents_count <$> rs)
    (holders a 0 rs) (take (length rs) dp) us.

Lemma holders_app a i rs1 rs2 :
  holders a i (rs1 ++ rs2) = holders a i rs1 ++ holders a (i + Z.of_nat (length rs1)) rs2.
Proof.
  revert i. induction rs1 as [|r rs1 IH]; intros i; cbn.
  - f_equal. lia.
  - rewrite IH, <-app_assoc. do 3 f_equal. lia.
Qed.
Lemma holders_elem a i rs j :
  j ∈ holders a i rs ↔ ∃ n r, rs !! n = Some r ∧ holds a r = true ∧ j = i + Z.of_nat n.
Proof.
  revert i. induction rs as [|r rs IH]; intros i; cbn.
  - rewrite elem_of_nil. split; [done|]. intros (n & r & Hn & _). by rewrite lookup_nil in Hn.
  - rewrite elem_of_app, IH. split.
    + intros [Hj|(n & r' & Hn & Hr & ->)].
      * destruct (holds a r) eqn:Hr; [|by apply elem_of_nil in Hj].
        apply list_elem_of_singleton in Hj as ->. exists 0%nat, r. split_and!; [done..|lia].
      * exists (S n), r'. split_and!; [done..|lia].
    + intros ([|n] & r' & Hn & Hr & ->).
      * injection Hn as ->. left. rewrite Hr. apply list_elem_of_singleton. lia.
      * right. exists n, r'. split_and!; [done..|lia].
Qed.

Lemma parse_server_inv line r :
  parse_server line = Ok r → ∃ s2 s1 s4,
    let fields := split_char ";" line in
    nth_arg fields 2 = Ok s2 ∧ py_float s2 = Ok (sv_free r) ∧
    nth_arg fields 1 = Ok s1 ∧ py_float s1 = Ok (sv_total r) ∧
    nth_arg fields 3 = Ok (sv_ip r) ∧ nth_arg fields 4 = Ok s4 ∧
    sv_contents r = split_char "/" s4.
Proof.
  unfold parse_server. cbn zeta. intros (s2 & H2 & Hp)%bind_ok_inv.
  apply bind_ok_inv in Hp as (f & Hf & Hp). apply bind_ok_inv in Hp as (s1 & H1 & Hp).
  apply bind_ok_inv in Hp as (t & Ht & Hp). apply bind_ok_inv in Hp as (ip & Hip & Hp).
  apply bind_ok_inv in Hp as (s4 & H4 & [= <-]). by exists s2, s1, s4.
Qed.

Section scan.
Context (usage : xfloat → xfloat → res exn xfloat) (a : fog_args) (delays : list (list xfloat)).
Context (dp : list xfloat) (Hdp : py_get delays (pos a) = Some dp).

Lemma scan_line_rejected t i line r :
  parse_server line = Ok r → accepted a r = false → scan_line usage a delays t i line = Ok t.
Proof.
  intros (s2 & s1 & s4 & H2 & Hf & _)%parse_server_inv Hr. unfold scan_line. cbn zeta.
  rewrite H2. cbn [mbind res_bind]. rewrite Hf. cbn [mbind res_bind].
  unfold accepted in Hr. by rewrite Hr.
Qed.

Lemma scan_line_accepted t (i : nat) line r d u :
  parse_server line = Ok r → accepted a r = true → length (freeMemory t) = i →
  dp !! i = Some d → usage (size a) (sv_free r) = Ok u →
  scan_line usage a delays t (Z.of_nat i) line =
  Ok (Table (totalMemory t ++ [sv_total r]) (freeMemory t ++ [sv_free r]) (ServersIP t ++ [sv_ip r])
        (band t ++ [contents_count r]) (hasContent t ++ if holds a r then [Z.of_nat i] else [])
        (latency t ++ [d]) (memoryUsage t ++ [u])).
Proof.
  intros (s2 & s1 & s4 & H2 & Hf & H1 & Ht & Hip & H4 & Hc)%parse_server_inv Hr Hi Hd Hu.
  unfold scan_line. cbn zeta. rewrite H2. cbn [mbind res_bind]. rewrite Hf. cbn [mbind res_bind].
  unfold accepted in Hr. rewrite Hr, H1. cbn [mbind res_bind]. rewrite Ht, Hip, H4.
  cbn [mbind res_bind]. unfold matrix_get. rewrite Hdp. cbn [mbind res_bind res_of_option].
  rewrite !py_get_nat, Hd. cbn [mbind res_bind res_of_option].
  rewrite list_lookup_middle by done. cbn [mbind res_bind res_of_option].
  rewrite Hu. cbn [mbind res_bind]. unfold contents_count, holds. rewrite Hc. by case_bool_decide.
Qed.

Lemma scan_line_late t (i : nat) line r :
  parse_server line = Ok r → accepted a r = true → (length (freeMemory t) < i)%nat →
  scan_line usage a delays t (Z.of_nat i) line = Raise IndexError.
Proof.
  intros (s2 & s1 & s4 & H2 & Hf & H1 & Ht & Hip & H4 & Hc)%parse_server_inv Hr Hi.
  unfold scan_line. cbn zeta. rewrite H2. cbn [mbind res_bind]. rewrite Hf. cbn [mbind res_bind].
  unfold accepted in Hr. rewrite Hr, H1. cbn [mbind res_bind]. rewrite Ht, Hip, H4.
  cbn [mbind res_bind]. unfold matrix_get. rewrite Hdp. cbn [mbind res_bind res_of_option].
  rewrite !py_get_nat. destruct (dp !! i); cbn; [|done].
  rewrite lookup_ge_None_2; [done|]. rewrite length_app. cbn. lia.
Qed.

(** The accepted lines at the start fill the table. *)
Lemma scan_good pre lines rs us ups :
  Forall2 (λ line r, parse_server line = Ok r) lines rs → Forall (λ r, accepted a r = true) rs →
  (length pre + length rs ≤ length dp)%nat →
  mapM_res (usage (size a)) (sv_free <$> rs) = Ok us → length ups = length pre →
  ∀ rest, scan_lines usage a delays (table_of a dp ups pre) (Z.of_nat (length pre)) (lines ++ rest) =
  scan_lines usage a delays (table_of a dp (ups ++ us) (pre ++ rs))
    (Z.of_nat (length (pre ++ rs))) rest.
Proof.
  intros Hl. revert pre us ups. induction Hl as [|line r lines rs Hp Hl IH];
    intros pre us ups Hacc Hlen Hus Hups rest.
  - injection Hus as <-. by rewrite !app_nil_r.
  - apply Forall_cons in Hacc as [Hr Hacc]. cbn in Hus, Hlen.
    apply bind_ok_inv in Hus as (u & Hu & (us' & Hus & [= <-])%bind_ok_inv).
    destruct (lookup_lt_is_Some_2 dp (length pre)) as [d Hd]; [lia|].
    cbn [scan_lines app].
    rewrite (scan_line_accepted _ (length pre) _ r d u); try done.
    2: { cbn. by rewrite length_fmap. }
    cbn [mbind res_bind]. replace (Z.of_nat (length pre) + 1) with (Z.of_nat (length (pre ++ [r])))
      by (rewrite length_app; cbn; lia).
    replace (Table _ _ _ _ _ _ _) with (table_of a dp (ups ++ [u]) (pre ++ [r])).
    { rewrite (IH (pre ++ [r]) us' (ups ++ [u])); try done.
      - by rewrite <-!app_assoc.
      - rewrite length_app. cbn. lia.
      - rewrite !length_app. cbn. lia. }
    unfold table_of. cbn [totalMemory freeMemory ServersIP band hasContent latency memoryUsage].
    rewrite !fmap_app, holders_app, length_app. cbn [fmap list_fmap holders length].
    rewrite app_nil_r, Nat.add_1_r, (take_S_r _ _ _ Hd). done.
Qed.

(** Rejected lines change nothing; an accepted line after one is an error. *)
Lemma scan_bad t (i : nat) lines rs :
  Forall2 (λ line r, parse_server line = Ok r) lines rs → (length (freeMemory t) < i)%nat →
  scan_lines usage a delays t (Z.of_nat i) lines =
  if existsb (accepted a) rs then Raise IndexError else Ok t.
Proof.
  intros Hl. revert i. induction Hl as [|line r lines rs Hp Hl IH]; intros i Hi; cbn; [done|].
  destruct (accepted a r) eqn:Hr; cbn.
  - by rewrite (scan_line_late _ _ _ r).
  - rewrite (scan_line_rejected _ _ _ r) by done. cbn.
    replace (Z.of_nat i + 1) with (Z.of_nat (S i)) by lia. apply IH. lia.
Qed.

Lemma split_accepted_spec rs g b :
  split_accepted a rs = (g, b) →
  rs = g ++ b ∧ Forall (λ r, accepted a r = true) g ∧ (∀ r, head b = Some r → accepted a r = false).
Proof.
  revert g b. induction rs as [|r rs IH]; intros g b; cbn.
  - intros [= <- <-]. split_and!; [done|constructor|done].
  - destruct (accepted a r) eqn:Hr.
    + destruct (split_accepted a rs) as [g' b']. intros [= <- <-].
      destruct (IH g' b') as (-> & ? & ?); [done|]. split_and!; auto.
    + intros [= <- <-]. split_and!; [done|constructor|]. by intros ? [= <-].
Qed.

Lemma scan_lines_spec lines rs g b us :
  Forall2 (λ line r, parse_server line = Ok r) lines rs → split_accepted a rs = (g, b) →
  (length rs ≤ length dp)%nat → mapM_res (usage (size a)) (sv_free <$> g) = Ok us →
  scan_lines usage a delays empty_table 0 lines =
  if existsb (accepted a) b then Raise IndexError else Ok (table_of a dp us g).
Proof.
  intros Hl (-> & Hg & Hb)%split_accepted_spec Hlen Hus.
  apply Forall2_app_inv_r in Hl as (l1 & l2 & Hl1 & Hl2 & ->). rewrite length_app in Hlen.
  pose proof (scan_good [] l1 g us [] Hl1 Hg ltac:(cbn; lia) Hus eq_refl l2) as Hs.
  cbn [length app] in Hs. change (table_of a dp [] []) with empty_table in Hs.
  change (Z.of_nat 0) with 0 in Hs. rewrite Hs.
  destruct Hl2 as [|line r l2 b Hp Hl2]; [done|].
  specialize (Hb r eq_refl). cbn [scan_lines existsb]. rewrite Hb. cbn [orb].
  rewrite (scan_line_rejected _ _ _ r) by done. cbn [mbind res_bind].
  replace (Z.of_nat (length g) + 1) with (Z.of_nat (S (length g))) by lia.
  apply scan_bad; [done|]. cbn. rewrite length_fmap. lia.
Qed.
End scan.

(** ** Normalised columns *)

Definition spread (l : list xfloat) : Prop := ∃ x y, x ∈ l ∧ y ∈ l ∧ xlt x y = true.

Definition scaled (mn mx : Q) (x : xfloat) : xfloat := fin ((xval x - mn) / (mx - mn)).

Lemma min_max_finite l :
  l ≠ [] → Forall finite l → ∃ p q, py_min l = Ok (Fin p) ∧ py_max l = Ok (Fin q) ∧
    Fin p ∈ l ∧ Fin q ∈ l ∧ ∀ x, x ∈ l → (p <= xval x)%Q ∧ (xval x <= q)%Q.
Proof.
  intros Hne Hl. destruct (py_min_ok l) as (mn & -> & Hmn); [done..|].
  destruct (py_max_ok l) as (mx & -> & Hmx); [done..|].
  pose proof (first_min_elem _ _ _ Hmn) as Emn. pose proof (first_min_elem _ _ _ Hmx) as Emx.
  rewrite Forall_forall in Hl. destruct (Hl _ Emn) as [p ->], (Hl _ Emx) as [q ->].
  exists p, q. split_and!; try done. intros x Hx. destruct (Hl x Hx) as [r ->]. cbn.
  rewrite <-Forall_forall in Hl.
  split; [apply Qlt_bool_false, (first_min_min finite xlt l (Fin p) (Fin r))
         |apply Qlt_bool_false, (first_min_min finite (flip xlt) l (Fin q) (Fin r))]; done.
Qed.

Lemma np_div_scaled p q x :
  finite x → (p < q)%Q → np_div (xsub x (Fin p)) (xsub (Fin q) (Fin p)) = scaled p q x.
Proof.
  intros [r ->] Hpq. unfold scaled, xsub, xneg, xadd, np_div, fin. cbn [xval].
  replace (Qzero_bool _) with false.
  - apply fin_eq. rewrite !Qred_correct. by unfold Qminus.
  - symmetry. apply not_true_iff_false. rewrite Qzero_bool_iff, !Qred_correct. lra.
Qed.
Lemma np_div_flat p q x :
  finite x → (xval x == p)%Q → (q == p)%Q → np_div (xsub x (Fin p)) (xsub (Fin q) (Fin p)) = NaN.
Proof.
  intros [r ->] Hr Hq. cbn in Hr. unfold xsub, xneg, xadd, np_div, fin.
  replace (Qzero_bool (Qred (q + _))) with true; [replace (Qzero_bool _) with true; [done|]|];
    symmetry; rewrite Qzero_bool_iff, !Qred_correct; lra.
Qed.

Lemma normalise_spread l :
  Forall finite l → spread l → ∃ p q, (p < q)%Q ∧ normalise l = Ok (scaled p q <$> l) ∧
    Fin p ∈ l ∧ Fin q ∈ l ∧ ∀ x, x ∈ l → (p <= xval x)%Q ∧ (xval x <= q)%Q.
Proof.
  intros Hl (x & y & Hx & Hy & Hxy).
  destruct (min_max_finite l) as (p & q & Hp & Hq & Ep & Eq & Hb); [by intros ->; set_solver|done|].
  assert (p < q)%Q as Hpq.
  { rewrite Forall_forall in Hl. destruct (Hl x Hx) as [r ->], (Hl y Hy) as [s ->].
    apply Qlt_bool_iff in Hxy. apply Hb in Hx as [Hx _], Hy as [_ Hy]. cbn in *. lra. }
  exists p, q. split_and!; try done. unfold normalise. rewrite Hp, Hq. cbn. f_equal.
  apply list_fmap_ext. intros i z Hz%list_elem_of_lookup_2. apply np_div_scaled; [|done].
  by eapply Forall_forall in Hl.
Qed.

(** A constant column becomes NaN: NumPy divides zero by zero. *)
Lemma normalise_flat l : l ≠ [] → Forall finite l → ¬ spread l → normalise l = Ok ((λ _, NaN) <$> l).
Proof.
  intros Hne Hl Hs. destruct (min_max_finite l) as (p & q & Hp & Hq & Ep & Eq & Hb); [done..|].
  assert (∀ x y, x ∈ l → y ∈ l → (xval x <= xval y)%Q) as Hflat.
  { intros x y Hx Hy. apply Qnot_lt_le. intros Hlt. apply Hs. exists y, x. split_and!; [done..|].
    rewrite Forall_forall in Hl. destruct (Hl x Hx) as [r ->], (Hl y Hy) as [s ->].
    by apply Qlt_bool_iff. }
  unfold normalise. rewrite Hp, Hq. cbn. f_equal.
  apply list_fmap_ext. intros i z Hz%list_elem_of_lookup_2. apply np_div_flat.
  - by eapply Forall_forall in Hl.
  - apply Qle_antisym; [apply (Hflat z (Fin p))|apply (Hflat (Fin p) z)]; done.
  - apply Qle_antisym; [apply (Hflat (Fin q) (Fin p))|apply (Hflat (Fin p) (Fin q))]; done.
Qed.

(** A scaled column keeps the order and lies between 0 and 1. *)
Lemma scaled_bounds p q x :
  (p < q)%Q → (p <= xval x)%Q → (xval x <= q)%Q → (0 <= xval (scaled p q x))%Q ∧ (xval (scaled p q x) <= 1)%Q.
Proof.
  intros Hpq Hx1 Hx2. unfold scaled. rewrite xval_fin. split.
  - apply Qle_shift_div_l; lra.
  - apply Qle_shift_div_r; lra.
Qed.
Lemma scaled_lt p q x y :
  (p < q)%Q → finite x → finite y → xlt (scaled p q x) (scaled p q y) = xlt x y.
Proof.
  intros Hpq [r ->] [s ->]. unfold scaled, fin. cbn [xlt xval].
  apply Bool.eq_iff_eq_true. rewrite !Qlt_bool_iff, !Qred_correct.
  unfold Qdiv. rewrite Qmult_lt_r; [split; intros; lra|]. apply Qinv_lt_0_compat. lra.
Qed.

(** ** The dictionary of servers *)

Lemma aset_fresh {V} k (v : V) (l : list (pystr * V)) : k ∉ l.*1 → aset k v l = l ++ [(k, v)].
Proof.
  induction l as [|[k' v'] l IH]; cbn; [done|]. intros Hk.
  rewrite decide_False by set_solver. f_equal. apply IH. set_solver.
Qed.

Definition entry_item (keep : Z → bool) (extra : Z → list xfloat)
    (e : pystr * Z * (xfloat * xfloat * xfloat)) : option (pystr * list xfloat) :=
  let '(ip, b, (l, m, u)) := e in
  if keep b then Some (ip, [l; m; u] ++ extra b) else None.

Lemma add_servers_items keep extra es d :
  NoDup ((λ e, e.1.1) <$> es) → (∀ e, e ∈ es → e.1.1 ∉ (items d).*1) →
  items (fold_left (add_server keep extra) es d) = items d ++ omap (entry_item keep extra) es.
Proof.
  revert d. induction es as [|[[ip b] [[l m] u]] es IH]; intros d Hnd Hd; cbn; [by rewrite app_nil_r|].
  cbn in Hnd. apply NoDup_cons in Hnd as [Hip Hnd].
  assert (ip ∉ (items d).*1) as Hfresh by (apply (Hd (ip, b, (l, m, u))); by left).
  destruct (keep b) eqn:Hb; rewrite IH; try done.
  - cbn [items dset pydict_ops]. rewrite aset_fresh, <-app_assoc by done. done.
  - intros e He. cbn [items dset pydict_ops]. rewrite aset_fresh, fmap_app, elem_of_app by done.
    intros [Hin|Hin]; [by apply (Hd e); [right|]|]. apply list_elem_of_singleton in Hin.
    apply Hip. cbn [fst] in Hin. rewrite <-Hin.
    apply list_elem_of_fmap. by exists e.
  - intros e He. apply Hd. by right.
Qed.

(** ** The function as a whole *)

Lemma concatenar_table usage keep extra a log delays header lines t :
  readlines log = header :: lines → scan_lines usage a delays empty_table 0 lines = Ok t →
  concatenarServers usage keep extra a log delays =
  (raw ← mapM_res (migration_time a delays (hasContent t)) (seqZ 0 (Z.of_nat (length (ServersIP t))));
   l ← normalise (latency t); m ← normalise raw; u ← normalise_usage (memoryUsage t);
   mret (FogResult (fold_left (add_server keep extra) (entries t l m u) dempty) (ServersIP t) raw)).
Proof. intros Hr Hs. unfold concatenarServers. by rewrite Hr, Hs. Qed.

Lemma concatenar_result usage keep extra a log delays header lines rs g b dp us raw
    (Hlog : readlines log = header :: lines)
    (Hrs : Forall2 (λ line r, parse_server line = Ok r) lines rs)
    (Hdp : py_get delays (pos a) = Some dp) (Hlen : (length rs ≤ length dp)%nat)
    (Hg : split_accepted a rs = (g, b))
    (Hus : mapM_res (usage (size a)) (sv_free <$> g) = Ok us)
    (Hraw : mapM_res (migration_time a delays (holders a 0 g)) (seqZ 0 (Z.of_nat (length g))) = Ok raw) :
  if existsb (accepted a) b
  then concatenarServers usage keep extra a log delays = Raise IndexError
  else if decide (g = [])
  then concatenarServers usage keep extra a log delays = Raise ValueError
  else ∃ l m u result,
    normalise (take (length g) dp) = Ok l ∧ normalise raw = Ok m ∧ normalise_usage us = Ok u ∧
    length l = length g ∧ length m = length g ∧ length u = length g ∧
    concatenarServers usage keep extra a log delays = Ok result ∧
    server_ips result = sv_ip <$> g ∧ migrationTime result = raw ∧
    Servers result = fold_left (add_server keep extra)
      (zip (zip (sv_ip <$> g) (contents_count <$> g)) (zip (zip l m) u)) dempty ∧
    (NoDup (sv_ip <$> g) →
     items (Servers result) =
       omap (entry_item keep extra) (zip (zip (sv_ip <$> g) (contents_count <$> g)) (zip (zip l m) u))).
Proof.
  pose proof (scan_lines_spec usage a delays dp Hdp lines rs g b us Hrs Hg Hlen Hus) as Hscan.
  destruct (existsb (accepted a) b) eqn:Hb.
  { unfold concatenarServers. by rewrite Hlog, Hscan. }
  apply split_accepted_spec in Hg as (-> & Hacc & _).
  rewrite (concatenar_table _ _ _ _ _ _ _ _ _ Hlog Hscan). cbn [hasContent ServersIP latency memoryUsage table_of].
  rewrite length_fmap, Hraw. cbn [mbind res_bind].
  case_decide as Hne; [by subst|].
  apply mapM_res_length in Hus, Hraw as Hlraw. rewrite length_fmap in Hus. rewrite length_seqZ in Hlraw.
  rewrite length_app in Hlen.
  assert (∀ l : list xfloat, length l = length g → ∃ l', normalise l = Ok l' ∧ length l' = length g) as Hnorm.
  { intros [|x l] Hl; [by destruct g|]. unfold normalise. cbn [py_min py_max mbind res_bind].
    eexists. split; [done|]. by rewrite length_fmap. }
  destruct (Hnorm (take (length g) dp)) as (l & Hl & Ll); [rewrite length_take; lia|].
  destruct (Hnorm raw) as (m & Hm & Lm); [lia|].
  assert (∃ u, normalise_usage us = Ok u ∧ length u = length g) as (u & Hu & Lu).
  { destruct (Hnorm us Hus) as (l' & Hl' & Ll').
    unfold normalise_usage. destruct us as [|x us]; [by destruct g|].
    cbn [py_max py_min mbind res_bind]. destruct (xeqb _ _); [|eauto].
    eexists. split; [done|]. by rewrite length_fmap. }
  eexists l, m, u, _. rewrite Hl, Hm, Hu. split_and!; try done. intros Hnd. cbn [Servers].
  rewrite add_servers_items; [done|..]; [|set_solver].
  unfold entries. cbn [ServersIP band table_of].
  assert (∀ es : list (pystr * Z * (xfloat * xfloat * xfloat)),
    (λ e, e.1.1) <$> es = fst <$> (fst <$> es)) as -> by (intros; by rewrite <-list_fmap_compose).
  rewrite fst_zip.
  - rewrite fst_zip; [done|]. by rewrite !length_fmap.
  - rewrite !length_zip, !length_fmap. lia.
Qed.

(** ** Migration times *)

(** The time to transfer [s] with the given delay: the throughput that the TCP
    window allows, at most 120. *)
Definition transfer_time (s d : Q) : Q := Qmax (s / 120) (s * d * 8000 / 8388608).

Lemma np_div_fin p q : ¬ (q == 0)%Q → np_div (Fin p) (Fin q) = fin (p / q).
Proof.
  intros Hq. unfold np_div. replace (Qzero_bool q) with false; [done|].
  symmetry. apply not_true_iff_false. by rewrite Qzero_bool_iff.
Qed.

Lemma throughput_bound d :
  (0 < d)%Q → (120 < 8388608 / (d * 8000))%Q ↔ (d * 960000 < 8388608)%Q.
Proof.
  intros Hd. assert (8388608 == 8388608 / (d * 8000) * (d * 8000))%Q as Ht by (field; lra).
  set (t := (8388608 / (d * 8000))%Q) in *. split; intros ?; nra.
Qed.

Lemma max_throughput_fin d :
  (0 < d)%Q →
  max_throughput (Fin d) = if Qlt_bool (d * 960000) 8388608 then of_Z 120 else fin (8388608 / (d * 8000)).
Proof.
  intros Hd. unfold max_throughput.
  assert (np_div (np_div TCPWindow (xmul (Fin d) (of_Z 1000))) (of_Z 8) = fin (8388608 / (d * 8000))) as ->.
  { unfold TCPWindow, of_Z, xmul, fin.
    rewrite np_div_fin by (rewrite Qred_correct; unfold inject_Z; intros Hz; lra).
    unfold fin. rewrite np_div_fin by done. apply fin_eq. rewrite !Qred_correct.
    unfold inject_Z. field. lra. }
  assert (xlt (of_Z 120) (fin (8388608 / (d * 8000))) = Qlt_bool (d * 960000) 8388608) as ->; [|done].
  cbn [xlt fin of_Z]. apply Bool.eq_iff_eq_true. rewrite !Qlt_bool_iff, Qred_correct. by apply throughput_bound.
Qed.

Lemma transfer_time_correct s d :
  (0 <= s)%Q → (0 <= d)%Q →
  np_div (Fin s) (max_throughput (Fin d)) = fin (transfer_time s d).
Proof.
  intros Hs Hd. unfold transfer_time.
  assert (s / 120 == s * (1 # 120))%Q as E1 by field.
  assert (s * d * 8000 / 8388608 == s * d * (8000 # 8388608))%Q as E2 by field.
  destruct (Qeq_dec d 0) as [H0|H0].
  - assert (max_throughput (Fin d) = of_Z 120) as ->.
    { unfold max_throughput, TCPWindow, of_Z, xmul, fin, np_div.
      replace (Qzero_bool _) with true; [done|]. symmetry. rewrite Qzero_bool_iff, Qred_correct, H0.
      cbn. lra. }
    unfold of_Z. rewrite np_div_fin by done. apply fin_eq.
    rewrite Q.max_l; [reflexivity|]. rewrite E1, E2, H0. lra.
  - assert (0 < d)%Q as Hpos by (apply Qnot_le_lt; intros ?; apply H0, Qle_antisym; done).
    rewrite max_throughput_fin by done. destruct (Qlt_bool _ _) eqn:Hlt.
    + apply Qlt_bool_iff in Hlt. unfold of_Z. rewrite np_div_fin by done. apply fin_eq.
      rewrite Q.max_l; [reflexivity|]. rewrite E1, E2. nra.
    + apply Qlt_bool_false in Hlt. unfold fin at 1. rewrite np_div_fin.
      * apply fin_eq. rewrite Q.max_r; [rewrite Qred_correct; field; lra|]. rewrite E1, E2. nra.
      * rewrite Qred_correct. intros Hz. assert (8388608 == 8388608 / (d * 8000) * (d * 8000))%Q as Ht by (field; lra).
        rewrite Hz in Ht. lra.
Qed.

Section migration.
Context (a : fog_args) (delays : list (list xfloat)) (dp : list xfloat) (s : Q).
Context (Hsize : size a = Fin s) (Hs : (0 <= s)%Q) (Hdp : py_get delays (pos a) = Some dp).

Lemma delays_of has :
  (∀ j, j ∈ has → ∃ n, j = Z.of_nat n ∧ (n < length dp)%nat) →
  mapM_res (matrix_get delays (pos a)) has = Ok ((λ j, default NaN (dp !! Z.to_nat j)) <$> has).
Proof.
  intros Hb. apply mapM_res_fmap. intros j (n & -> & Hn)%Hb. unfold matrix_get.
  rewrite Hdp. cbn [mbind res_bind res_of_option]. rewrite py_get_nat, Nat2Z.id.
  by destruct (lookup_lt_is_Some_2 dp n Hn) as [d ->].
Qed.
End migration.

(** The time to migrate to a server.  It is 0 when the server already holds
    the content; otherwise it is the size over the throughput of the fastest
    server that holds it (the smallest delay from the client's position), capped
    at 120, so at least a 120th of the size, and the same for every such server;
    when no server holds it, the delay is the one between the server and the
    eighth one. *)
Theorem migration_times_correct a delays dp s has i
    (Hsize : size a = Fin s) (Hs : (0 <= s)%Q) (Hdp : py_get delays (pos a) = Some dp)
    (Hpos : Forall (λ d, finite d ∧ (0 <= xval d)%Q) dp)
    (Hhas : ∀ j, j ∈ has → ∃ n, j = Z.of_nat n ∧ (n < length dp)%nat) :
  (i ∈ has → migration_time a delays has i = Ok (of_Z 0)) ∧
  (i ∉ has → has ≠ [] → ∃ n d, Z.of_nat n ∈ has ∧ dp !! n = Some (Fin d) ∧
     (∀ j e, Z.of_nat j ∈ has → dp !! j = Some (Fin e) → (d <= e)%Q) ∧
     migration_time a delays has i = Ok (fin (transfer_time s d)) ∧
     (s / 120 <= transfer_time s d)%Q) ∧
  (has = [] → ∀ d, matrix_get delays i 7 = Ok (Fin d) → (0 <= d)%Q →
     migration_time a delays has i = Ok (fin (transfer_time s d))).
Proof.
  unfold migration_time. split_and!.
  - intros Hi. by rewrite bool_decide_true.
  - intros Hi Hne. rewrite bool_decide_false by done.
    rewrite (delays_of a delays dp Hdp has Hhas).
    destruct has as [|j0 has0] eqn:Eh; [done|]. rewrite <-Eh in *. clear Hne.
    set (ts := (λ j, default NaN (dp !! Z.to_nat j)) <$> has). cbn [mbind res_bind].
    destruct (min_max_finite ts) as (p & q & Hp & _ & Ep & _ & Hb).
    { unfold ts. by rewrite Eh. }
    { apply Forall_fmap, Forall_forall. intros j (n & -> & Hn)%Hhas. cbn. rewrite Nat2Z.id.
      destruct (lookup_lt_is_Some_2 dp n Hn) as [x Hx]. rewrite Hx. cbn.
      by apply (Forall_lookup_1 _ _ _ _ Hpos Hx). }
    replace (match ts with [] => _ | _ :: _ => _ end) with (Ok ts : res exn (list xfloat))
      by (unfold ts; by rewrite Eh).
    cbn [mbind res_bind]. rewrite Hp. cbn [mbind res_bind].
    apply list_elem_of_fmap in Ep as (j & Ej & Hj). destruct (Hhas j Hj) as (n & -> & Hn).
    rewrite Nat2Z.id in Ej. destruct (lookup_lt_is_Some_2 dp n Hn) as [x Hx].
    rewrite Hx in Ej. cbn in Ej. subst x. exists n, p. split_and!; try done.
    + intros k e Hk He. apply (Hb (Fin e)). apply list_elem_of_fmap. exists (Z.of_nat k).
      by rewrite Nat2Z.id, He.
    + rewrite Hsize, transfer_time_correct; [done..|].
      by apply (Forall_lookup_1 _ _ _ _ Hpos Hx).
    + apply Q.le_max_l.
  - intros -> d Hd Hd0. rewrite bool_decide_false by set_solver. cbn [mapM_res mbind res_bind].
    rewrite Hd. cbn [mbind res_bind mret res_ret py_min]. unfold min_by. cbn [fold_left].
    by rewrite Hsize, transfer_time_correct.
Qed.

(** ** The table in terms of the log

    What follows does not use the definitions of the columns: a log that can be
    read, and what the entry of each server has to be. *)

(** A column with its least element at 0 and its greatest at 1; [flat] if all its
    elements are equal. *)
Definition rescaled (flat : xfloat) (xs : list Q) (x : Q) (v : xfloat) : Prop :=
  (∀ y z, y ∈ xs → z ∈ xs → (y == z)%Q) ∧ v = flat ∨
  ∃ p q, p ∈ xs ∧ q ∈ xs ∧ (p < q)%Q ∧ (∀ y, y ∈ xs → (p <= y)%Q ∧ (y <= q)%Q) ∧
    v = fin ((x - p) / (q - p)).

Lemma rescale_column mn mx p q (l : list xfloat) x :
  Forall finite l → mn = Fin p → mx = Fin q → Fin p ∈ l → Fin q ∈ l →
  (∀ y, y ∈ l → (p <= xval y)%Q ∧ (xval y <= q)%Q) → x ∈ l →
  rescaled NaN (xval <$> l) (xval x) (np_div (xsub x mn) (xsub mx mn)).
Proof.
  intros Hl -> -> Ep Eq Hb Hx. assert (finite x) as Hf by by eapply Forall_forall in Hl.
  destruct (Qlt_le_dec p q) as [Hpq|Hpq]; [right|left].
  - exists p, q. split_and!; try done.
    + apply list_elem_of_fmap. by exists (Fin p).
    + apply list_elem_of_fmap. by exists (Fin q).
    + intros y (z & -> & Hz)%list_elem_of_fmap. by apply Hb.
    + by rewrite np_div_scaled.
  - assert (∀ z, z ∈ l → (xval z == p)%Q) as Hall.
    { intros z Hz. destruct (Hb z Hz). apply Qle_antisym; [|done]. by eapply Qle_trans. }
    split.
    + intros y z (y' & -> & Hy)%list_elem_of_fmap (z' & -> & Hz)%list_elem_of_fmap.
      by rewrite (Hall y' Hy), (Hall z' Hz).
    + apply np_div_flat; [done|auto|]. apply (Hall (Fin q) Eq).
Qed.

Lemma normalise_rescaled l ls : Forall finite l → normalise l = Ok ls →
  ∀ i x, l !! i = Some x → ∃ v, ls !! i = Some v ∧ rescaled NaN (xval <$> l) (xval x) v.
Proof.
  intros Hl Hn i x Hi. assert (l ≠ []) as Hne by (by intros ->).
  destruct (min_max_finite l Hne Hl) as (p & q & Hp & Hq & Ep & Eq & Hb).
  unfold normalise in Hn. rewrite Hp, Hq in Hn. injection Hn as <-.
  eexists. split; [by rewrite list_lookup_fmap, Hi|].
  exact (rescale_column (Fin p) (Fin q) p q l x Hl eq_refl eq_refl Ep Eq Hb (list_elem_of_lookup_2 _ _ _ Hi)).
Qed.

Lemma normalise_usage_rescaled l ls : Forall finite l → normalise_usage l = Ok ls →
  ∀ i x, l !! i = Some x → ∃ v, ls !! i = Some v ∧ rescaled (Fin 0) (xval <$> l) (xval x) v.
Proof.
  intros Hl Hn i x Hi. assert (l ≠ []) as Hne by (by intros ->).
  destruct (min_max_finite l Hne Hl) as (p & q & Hp & Hq & Ep & Eq & Hb).
  unfold normalise_usage in Hn. rewrite Hp, Hq in Hn. cbn [mbind res_bind xeqb] in Hn.
  destruct (Qeq_bool q p) eqn:Hpq.
  - injection Hn as <-. apply Qeq_bool_iff in Hpq.
    eexists. split; [by rewrite list_lookup_fmap, Hi|]. left. split.
    + intros y z (y' & -> & [H1 H2]%Hb)%list_elem_of_fmap (z' & -> & [H3 H4]%Hb)%list_elem_of_fmap.
      apply Qle_antisym; lra.
    + destruct (proj1 (Forall_forall _ _) Hl x (list_elem_of_lookup_2 _ _ _ Hi)) as [r ->].
      change (Fin 0) with (fin 0). apply fin_eq. unfold inject_Z. ring.
  - destruct (normalise_rescaled l ls Hl Hn i x Hi) as (v & Hv & [[Hflat _]|Hr]).
    + exfalso. apply Qeq_bool_neq in Hpq. apply Hpq, Hflat; apply list_elem_of_fmap; [by exists (Fin q)|by exists (Fin p)].
    + exists v. split; [done|]. by right.
Qed.

(** The two measures of memory use. *)
Inductive measure : Type := Ratio | Left.
Definition usage_of (u : measure) : xfloat → xfloat → res exn xfloat :=
  match u with Ratio => usage_ratio | Left => usage_left end.
Definition used (u : measure) (s f : Q) : Q := match u with Ratio => s / f | Left => f - s end.

(** A log that can be read, with the sizes and delays it needs: the free memories
    and the delays are numbers, the content is not empty. *)
Record readable (a : fog_args) (log : pystr) (delays : list (list xfloat)) (s : Q) (rs : list server)
    (dp : list xfloat) : Prop := {
  rd_log : ∃ header lines, readlines log = header :: lines ∧
             Forall2 (λ line r, parse_server line = Ok r) lines rs;
  rd_size : size a = Fin s;
  rd_pos : (0 < s)%Q;
  rd_free : Forall (λ r, finite (sv_free r)) rs;
  rd_row : py_get delays (pos a) = Some dp;
  rd_cover : (length rs ≤ length dp)%nat;
  rd_delays : Forall (λ d, finite d ∧ (0 <= xval d)%Q) dp;
  rd_eighth i : (i < length rs)%nat → ∃ d, matrix_get delays (Z.of_nat i) 7 = Ok (Fin d) ∧ (0 <= d)%Q }.

(** The time to migrate to the [i]th of the servers [g]. *)
Definition migrates (a : fog_args) (delays : list (list xfloat)) (dp : list xfloat) (s : Q)
    (g : list server) (i : nat) (r : server) (t : xfloat) : Prop :=
  contentId a ∈ sv_contents r ∧ t = Fin 0 ∨
  contentId a ∉ sv_contents r ∧
    ((∃ n r' d, g !! n = Some r' ∧ contentId a ∈ sv_contents r' ∧ dp !! n = Some (Fin d) ∧
        (∀ j r'' e, g !! j = Some r'' → contentId a ∈ sv_contents r'' → dp !! j = Some (Fin e) → (d <= e)%Q) ∧
        t = fin (transfer_time s d)) ∨
     (∀ r', r' ∈ g → contentId a ∉ sv_contents r') ∧
        ∃ d, matrix_get delays (Z.of_nat i) 7 = Ok (Fin d) ∧ t = fin (transfer_time s d)).

Lemma holders_in a g i r : g !! i = Some r → Z.of_nat i ∈ holders a 0 g ↔ contentId a ∈ sv_contents r.
Proof.
  intros Hi. rewrite holders_elem. unfold holds. split.
  - intros (n & r' & Hn & Hr & Heq). replace n with i in Hn by lia. simplify_eq. by apply bool_decide_eq_true in Hr.
  - intros Hr. exists i, r. split_and!; [done|by apply bool_decide_eq_true|lia].
Qed.

Lemma migration_entry a log delays s rs dp g i r : readable a log delays s rs dp →
  (length g ≤ length rs)%nat → g !! i = Some r →
  ∃ t, migration_time a delays (holders a 0 g) (Z.of_nat i) = Ok t ∧ finite t ∧ migrates a delays dp s g i r t.
Proof.
  intros [_ Hsize Hs _ Hrow Hcov Hdel H7] Hlen Hi.
  assert (∀ j, j ∈ holders a 0 g → ∃ n, j = Z.of_nat n ∧ (n < length dp)%nat) as Hhas.
  { intros j (n & r' & Hn%lookup_lt_Some & _ & ->)%holders_elem. exists n. split; [lia|]. lia. }
  destruct (migration_times_correct a delays dp s (holders a 0 g) (Z.of_nat i) Hsize
    (Qlt_le_weak _ _ Hs) Hrow Hdel Hhas) as (H0 & H1 & H2).
  destruct (decide (contentId a ∈ sv_contents r)) as [Hin|Hin].
  - exists (of_Z 0). split_and!; [by apply H0, (holders_in a g i r)|by eexists|by left].
  - assert (Z.of_nat i ∉ holders a 0 g) as Hni by by rewrite (holders_in a g i r).
    destruct (holders a 0 g) as [|h hs] eqn:Hh.
    + apply lookup_lt_Some in Hi as Hl. destruct (H7 i) as (d & Hd & Hd0); [lia|].
      exists (fin (transfer_time s d)). split_and!; [by apply H2|apply finite_fin|]. right. split; [done|]. right.
      split; [|by exists d]. intros r' [j Hj]%list_elem_of_lookup Hr'.
      apply (holders_in a g j r' Hj) in Hr'. rewrite Hh in Hr'. by apply elem_of_nil in Hr'.
    + rewrite <-Hh in *. destruct (H1 Hni) as (n & d & Hn & Hd & Hleast & Ht & _); [by rewrite Hh|].
      exists (fin (transfer_time s d)). split_and!; [done|apply finite_fin|]. right. split; [done|]. left.
      apply holders_elem in Hn as (n' & r' & Hn' & Hr' & Heq). replace n' with n in Hn' by lia.
      exists n, r', d. split_and!; [done|by apply bool_decide_eq_true in Hr'|done| |done].
      intros j r'' e Hj Hr''. apply Hleast. by apply (holders_in a g j r'').
Qed.

Lemma usage_entry u s f : (0 < s)%Q → (s <= f)%Q →
  ∃ q, usage_of u (Fin s) (Fin f) = Ok (fin q) ∧ q = used u s f.
Proof.
  intros Hs Hf. destruct u; cbn [usage_of used].
  - exists (s / f)%Q. split; [|done]. unfold usage_ratio, py_div. cbn [xzero].
    replace (Qzero_bool f) with false; [by rewrite np_div_fin by (intros Hz; lra)|].
    symmetry. apply not_true_iff_false. rewrite Qzero_bool_iff. intros Hz. lra.
  - exists (f - s)%Q. split; [|done]. unfold usage_left. f_equal. apply fin_eq. rewrite Qred_correct. ring.
Qed.

(** The last entry of a server that is kept is the one in the dictionary. *)
Lemma add_servers_skip keep extra es (d : PyDict pystr (list xfloat)) ip :
  (∀ e, e ∈ es → e.1.1 = ip → keep e.1.2 = false) →
  dget ip (fold_left (add_server keep extra) es d) = dget ip d.
Proof.
  revert d. induction es as [|[[ip' b] [[l m] u]] es IH]; intros d Hes; [done|]. cbn [fold_left].
  rewrite IH by (intros e He; apply Hes; by right). cbn [add_server].
  destruct (keep b) eqn:Hb; [|done]. rewrite dget_set, decide_False; [done|].
  intros ->. specialize (Hes _ (list_elem_of_here _ _) eq_refl). cbn in Hes. congruence.
Qed.
Lemma add_servers_last keep extra es (d : PyDict pystr (list xfloat)) i ip b l m u :
  es !! i = Some (ip, b, (l, m, u)) → keep b = true →
  (∀ j e, (i < j)%nat → es !! j = Some e → e.1.1 = ip → keep e.1.2 = false) →
  dget ip (fold_left (add_server keep extra) es d) = Some ([l; m; u] ++ extra b).
Proof.
  intros Hi Hb Hlast. rewrite <-(take_drop_middle _ _ _ Hi), fold_left_app. cbn [fold_left].
  rewrite add_servers_skip.
  - cbn [add_server]. by rewrite Hb, dget_set, decide_True.
  - intros e [j Hj]%list_elem_of_lookup. rewrite lookup_drop in Hj. apply (Hlast (S i + j)%nat); [lia|done].
Qed.

(** A server with too little free memory is listed before one with enough. *)
Definition late (a : fog_args) (rs : list server) : Prop :=
  ∃ i j r r', (i < j)%nat ∧ rs !! i = Some r ∧ rs !! j = Some r' ∧ accepted a r = false ∧ accepted a r' = true.

Lemma late_split a rs g b : split_accepted a rs = (g, b) → late a rs ↔ existsb (accepted a) b = true.
Proof.
  intros (-> & Hg & Hb)%split_accepted_spec. rewrite existsb_exists. split.
  - intros (i & j & r & r' & Hij & Hi & Hj & Hr & Hr'). exists r'. split; [|done]. apply list_elem_of_In.
    rewrite lookup_app_Some in Hi, Hj. destruct Hi as [Hi|[Hl Hi]].
    { eapply Forall_lookup_1 in Hi; [|exact Hg]. congruence. }
    destruct Hj as [Hj%lookup_lt_Some|[_ Hj]]; [lia|]. by eapply list_elem_of_lookup_2.
  - intros (r' & [j Hj]%list_elem_of_In%list_elem_of_lookup & Hr'). destruct b as [|r b]; [done|].
    specialize (Hb r eq_refl). exists (length g), (length g + j)%nat, r, r'.
    assert (j ≠ 0%nat) by (intros ->; cbn in Hj; congruence).
    split_and!; [lia|by apply list_lookup_middle| |done|done].
    rewrite lookup_app_r by lia. by replace (length g + j - length g)%nat with j by lia.
Qed.

(** The columns of the accepted servers. *)
Lemma columns_ok u a log delays s rs dp g b : readable a log delays s rs dp → split_accepted a rs = (g, b) →
  ∃ raw,
    mapM_res (usage_of u (size a)) (sv_free <$> g) = Ok ((λ r, fin (used u s (xval (sv_free r)))) <$> g) ∧
    mapM_res (migration_time a delays (holders a 0 g)) (seqZ 0 (Z.of_nat (length g))) = Ok raw ∧
    Forall finite raw ∧ ∀ i r, g !! i = Some r → ∃ t, raw !! i = Some t ∧ migrates a delays dp s g i r t.
Proof.
  intros Hread (Hrs & Hacc & _)%split_accepted_spec. pose proof Hread as [_ Hsize Hs Hfree _ _ _ _].
  assert (length g ≤ length rs)%nat as Hlg by (rewrite Hrs, length_app; lia).
  destruct (mapM_res_pointwise (migration_time a delays (holders a 0 g))
    (λ i _ t, finite t ∧ ∀ r, g !! i = Some r → migrates a delays dp s g i r t)
    (seqZ 0 (Z.of_nat (length g)))) as (raw & Hraw & Hpt).
  { intros i x Hi. destruct (decide (i < length g)%nat) as [Hlt|Hge].
    - rewrite lookup_seqZ_lt in Hi by lia. injection Hi as <-.
      destruct (lookup_lt_is_Some_2 g i Hlt) as [r Hr].
      destruct (migration_entry a log delays s rs dp g i r Hread Hlg Hr) as (t & Ht & Hf & Hm).
      exists t. rewrite Z.add_0_l. split_and!; [done|done|]. intros r' Hr'. by simplify_eq.
    - by rewrite lookup_seqZ_ge in Hi by lia. }
  pose proof (mapM_res_length _ _ _ Hraw) as Hlen. rewrite length_seqZ, Nat2Z.id in Hlen.
  exists raw. split_and!; [|done| |].
  - rewrite (mapM_res_fmap _ (λ x, fin (used u s (xval x)))); [by rewrite <-list_fmap_compose|].
    intros x (r & -> & Hr)%list_elem_of_fmap. rewrite Forall_forall in Hacc.
    rewrite Hrs, Forall_app in Hfree. destruct Hfree as [Hfree _]. rewrite Forall_forall in Hfree.
    destruct (Hfree r Hr) as [f Hf]. specialize (Hacc r Hr). unfold accepted in Hacc. rewrite Hf, Hsize in *.
    assert (s <= f)%Q as Hle.
    { unfold xle in Hacc. cbn [xlt xeqb] in Hacc. apply orb_true_iff in Hacc as [Ha|Ha].
      - apply Qlt_bool_iff in Ha. lra.
      - apply Qeq_bool_iff in Ha. lra. }
    destruct (usage_entry u s f Hs Hle) as (q & Hq & ->). by rewrite Hq.
  - apply Forall_forall. intros t [i Hi]%list_elem_of_lookup. pose proof (lookup_lt_Some _ _ _ Hi) as Hlt.
    destruct (Hpt i (0 + Z.of_nat i)) as (t' & Ht' & Hf & _); [apply lookup_seqZ_lt; lia|]. by simplify_eq.
  - intros i r Hi. pose proof (lookup_lt_Some _ _ _ Hi) as Hlt.
    destruct (Hpt i (0 + Z.of_nat i)) as (t & Ht & _ & Hm); [apply lookup_seqZ_lt; lia|]. eauto.
Qed.

Lemma zip_entry {B} (g : list server) (es : list B) j e :
  zip (zip (sv_ip <$> g) (contents_count <$> g)) es !! j = Some e →
  ∃ r, g !! j = Some r ∧ e.1.1 = sv_ip r ∧ e.1.2 = contents_count r.
Proof.
  rewrite lookup_zip_with. intros (p & Hp & (c & _ & [= <-])%bind_Some)%bind_Some.
  rewrite lookup_zip_with in Hp. apply bind_Some in Hp as (ip & Hip & (n & Hn & [= <-])%bind_Some).
  rewrite list_lookup_fmap in Hip. rewrite list_lookup_fmap in Hn. destruct (g !! j) as [r|]; [|done]. exists r.
  injection Hip as <-. by injection Hn as <-.
Qed.



(** ** A sample log *)

Definition sample_line (free ip contents : string) : pystr :=
  str "1;1000;" ++ str free ++ str ";" ++ str ip ++ str ";" ++ str contents ++ str ";".
Definition sample_text (lines : list pystr) : pystr :=
  concat ((.++ [newline]) <$> (str "OnOff;TotalMemory;FreeMemory;ServerAddress;AllocatedContent" :: lines)).

Definition sample_lines : list pystr :=
  [sample_line "500" "1.0.0.1" "3/4"; sample_line "800" "2.0.0.1" "5"; sample_line "900" "3.0.0.1" ""].
Definition sample_servers : list server :=
  [Server (of_Z 1000) (of_Z 500) (str "1.0.0.1") [str "3"; str "4"];
   Server (of_Z 1000) (of_Z 800) (str "2.0.0.1") [str "5"];
   Server (of_Z 1000) (of_Z 900) (str "3.0.0.1") [[]]].
Definition sample_log : pystr := sample_text sample_lines.
Definition sample_delays : list (list xfloat) :=
  [of_Z <$> [22; 10; 31; 1; 1; 1; 1; 6]; of_Z <$> [10; 1; 7; 1; 1; 1; 1; 9];
   of_Z <$> [31; 7; 1; 1; 1; 1; 1; 2]].
Definition sample_args (size : Z) : fog_args :=
  FogArgs (str "dash") (str "0") (of_Z size) 0 (str "5").

(** With 600 needed, the first server is rejected and the second accepted. *)
Example late_server_fails :
  ahp_concatenarServers (sample_args 600) sample_log sample_delays = Raise IndexError.
Proof. vm_compute. reflexivity. Qed.

Lemma sample_lines_read :
  readlines sample_log =
    (str "OnOff;TotalMemory;FreeMemory;ServerAddress;AllocatedContent" ++ [newline])
      :: ((.++ [newline]) <$> sample_lines) ∧
  Forall2 (λ line r, parse_server line = Ok r) ((.++ [newline]) <$> sample_lines) sample_servers.
Proof. split; [vm_compute; reflexivity|]. repeat constructor. Qed.

Lemma sample_readable size s : (0 < s)%Q → of_Z size = Fin s →
  readable (sample_args size) sample_log sample_delays s sample_servers (of_Z <$> [22; 10; 31; 1; 1; 1; 1; 6]).
Proof.
  intros Hs Hsize. destruct sample_lines_read as [Hlog Hrs]. split; try done.
  - eauto.
  - repeat constructor; by eexists.
  - cbn. lia.
  - repeat constructor; try (by eexists); vm_compute; discriminate.
  - intros [|[|[|i]]] Hi; [eexists; split; [reflexivity|by vm_compute]..|cbn in Hi; lia].
Qed.


Lemma migration_times_correct_witness :
  migration_time (sample_args 100) sample_delays [1] 1 = Ok (of_Z 0) ∧
  migration_time (sample_args 100) sample_delays [] 0 = Ok (fin (transfer_time 100 6)) ∧
  ∃ d, migration_time (sample_args 100) sample_delays [1; 2] 0 = Ok (fin (transfer_time 100 d)).
Proof.
  assert (Forall (λ d, finite d ∧ (0 <= xval d)%Q) (of_Z <$> [22; 10; 31; 1; 1; 1; 1; 6])) as Hpos.
  { repeat constructor; try (by eexists); vm_compute; discriminate. }
  assert (∀ has i, (∀ j, j ∈ has → ∃ n, j = Z.of_nat n ∧ (n < 8)%nat) → _) as H by
    (intros has i Hhas; exact (migration_times_correct (sample_args 100) sample_delays _ 100 has i
       eq_refl ltac:(lra) eq_refl Hpos Hhas)).
  split_and!.
  - destruct (H [1] 1) as (H1 & _); [|by apply H1; left].
    intros j ->%list_elem_of_singleton. exists 1%nat. split; [done|lia].
  - destruct (H [] 0) as (_ & _ & H3); [by intros j ?%elem_of_nil|].
    by apply H3; [|reflexivity|lra].
  - destruct (H [1; 2] 0) as (_ & H2 & _).
    { intros j [-> | ->%list_elem_of_singleton]%elem_of_cons; [exists 1%nat|exists 2%nat]; split; lia. }
    destruct H2 as (n & d & _ & _ & _ & Hd & _); [set_solver|done|].
    by exists d.
Defined.
