(* ===== verification/FogPolicy.v ===== *)
(** * Fog4VR: choosing a server

    The policies that the simulator can ask for: the analytic hierarchy process
    (AHP.py, AnalyticHierarchyProcess.py), the greedy and the random choice
    (exemplo.py), the linear program (pliLocal.py) and the precomputed one
    (pli.py).  Each prints the position of the chosen server in the log and its
    migration time.  [Scored] is what the first, second and fourth have in
    common.  The classes of guloso.py and aleatorio.py, and the scripts that
    prepare or summarise the logs (Delays.py, StallRebuffer.py), are here too.
    NumPy's random choice, docplex and pandas are parameters. *)
From Stdlib Require Import Ascii String.
From S2P Require Export Fog.
Open Scope Z_scope.

(** ** AnalyticHierarchyProcess.py *)

Abbreviation vector := (list xfloat).
Abbreviation matrix := (list (list xfloat)).

(** [np.sum] of a row, exact, and of a list with Python's [sum]. *)
Definition xsum (v : vector) : xfloat := fold_left xadd v (of_Z 0).

(** [np.linalg.matrix_power(m, 2)]; [LinAlgError] unless the matrix is square. *)
Definition dot (u v : vector) : xfloat := xsum (zip_with xmul u v).
Definition column (m : matrix) (j : nat) : vector := (λ row, default NaN (row !! j)) <$> m.
Definition square (m : matrix) : bool := forallb (λ row, (length row =? length m)%nat) m.
Definition matrix_square (m : matrix) : res exn matrix :=
  if square m then Ok ((λ row, (λ j, dot row (column m j)) <$> seq 0 (length m)) <$> m)
  else Raise GenericException.

(** [x.round(p)] *)
Definition np_round (p : nat) (x : xfloat) : xfloat :=
  match x with
  | Fin q => let s := 10 ^ Z.of_nat p in fin (inject_Z (round_half_even (q * inject_Z s)) / inject_Z s)
  | _ => x
  end.
(** [np.any]: a NaN counts as true. *)
Definition np_any (v : vector) : bool := existsb (λ x, negb (xzero x)) v.

(** One pass gives the next matrix and the priority vector; [interacao] counts
    the passes left, this one included. *)
Fixpoint AutoValor (interacao : nat) (matriz : matrix) (precisao : nat)
    (autovetor_anterior : option vector) : res exn vector :=
  matriz_quadrada ← matrix_square matriz;
  let soma_linhas := xsum <$> matriz_quadrada in
  let soma_coluna := xsum soma_linhas in
  let autovetor_atual := (λ x, np_div x soma_coluna) <$> soma_linhas in
  let anterior := default (replicate (length matriz) (of_Z 0)) autovetor_anterior in
  let diferenca := np_round precisao <$> zip_with xsub autovetor_atual anterior in
  if negb (np_any diferenca) then mret (np_round precisao <$> autovetor_atual)
  else match interacao with
       | S (S _ as n) => AutoValor n matriz_quadrada precisao (Some autovetor_atual)
       | _ => mret (np_round precisao <$> autovetor_atual)
       end.

(** The comparison matrix of latency, migration time and memory use. *)
Definition matriz : matrix :=
  [[Fin 1; Fin 3; Fin 6]; [Fin (1 # 3); Fin 1; Fin 3]; [Fin (1 # 6); Fin (1 # 3); Fin 1]].
Definition peso : res exn vector := AutoValor 100 matriz 10 None.

(** [sum(influ)] for one server. *)
Definition influence (peso parametros : vector) : res exn xfloat :=
  influ ← mapM_res (λ i, x ← res_of_option IndexError (parametros !! i);
                         w ← res_of_option IndexError (peso !! i);
                         mret (xmul x w)) (seq 0 3);
  mret (xsum influ).

(** A loop over the items of a dictionary that builds another one. *)
Definition map_dict {V W} (f : V → res exn W) (d : PyDict pystr V) : res exn (PyDict pystr W) :=
  fold_res (λ acc e, w ← f e.2; mret (dset e.1 w acc)) dempty (items d).

Definition Influenciacompeso (parametro : PyDict pystr vector) : res exn (PyDict pystr xfloat) :=
  w ← peso;
  map_dict (influence w) parametro.

Definition Politica : PyDict pystr vector → res exn (PyDict pystr xfloat) := Influenciacompeso.

(** [Normaliza]: [soma] is the attribute that the constructor sets to zeros. *)
Definition normalize_one (soma parametros : vector) : res exn xfloat :=
  ns ← mapM_res (λ i, s ← res_of_option IndexError (soma !! i);
                      if xeqb s (of_Z 0) then mret (of_Z 0)
                      else x ← res_of_option IndexError (parametros !! i);
                           mret (np_div x (np_div s (of_Z (Z.of_nat (length soma)))))) (seq 0 3);
  mret (xsum ns).
Definition init_soma : vector := replicate 4 (of_Z 0).
Definition Normaliza (soma : vector) (parametro : PyDict pystr vector) : res exn (PyDict pystr xfloat) :=
  map_dict (normalize_one soma) parametro.

(** [Distanciaeuclidiana] removes [ip] from its argument: the second result. *)
Definition distance_one (atual parametros : vector) : res exn xfloat :=
  fold_res (λ soma i, x ← res_of_option IndexError (atual !! i);
                      y ← res_of_option IndexError (parametros !! i);
                      mret (xadd soma (xsub x y))) (of_Z 0) (seq 0 3).
Definition Distanciaeuclidiana (parametro : PyDict pystr vector) (ip : pystr) :
    res exn (PyDict pystr xfloat * PyDict pystr vector) :=
  atual ← dlookup ip parametro;
  parametro ← ddelete ip parametro;
  d ← map_dict (distance_one atual) parametro;
  mret (d, parametro).

(** [score]: no identifier (the integer 0) when no value is positive. *)
Definition score (parametro : PyDict pystr xfloat) : option pystr * xfloat :=
  fold_left (λ best e, if xlt best.2 e.2 then (Some e.1, e.2) else best) (items parametro) (None, of_Z 0).

(** [Consistencia], given the largest eigenvalue that NumPy finds. *)
Definition random_index (n : nat) : option Q :=
  match n with
  | 3%nat => Some (52 # 100) | 4%nat => Some (89 # 100) | 5%nat => Some (111 # 100)
  | 6%nat => Some (125 # 100) | 7%nat => Some (135 # 100) | 8%nat => Some (140 # 100)
  | 9%nat => Some (145 # 100) | 10%nat => Some (149 # 100) | 11%nat => Some (152 # 100)
  | 12%nat => Some (154 # 100) | 13%nat => Some (150 # 100) | 14%nat => Some (158 # 100)
  | 15%nat => Some (159 # 100) | _ => None
  end%Q.
Definition Consistencia (max_eigenvalue : matrix → res exn xfloat) (m : matrix) :
    res exn (xfloat * xfloat * xfloat) :=
  let rows := length m in
  let cols := match m with r :: _ => length r | [] => 0%nat end in
  if negb (rows =? 0)%nat && (2 <? cols)%nat then
    lambda_max ← max_eigenvalue m;
    let ic := np_div (xsub lambda_max (of_Z (Z.of_nat rows))) (of_Z (Z.of_nat rows - 1)) in
    ri ← res_of_option KeyError (random_index rows);
    mret (lambda_max, ic, np_div ic (Fin ri))
  else mret (of_Z 0, of_Z 0, of_Z 0).

(** ** The scripts *)

(** [l.index(x)] *)
Definition list_index (x : pystr) (l : list pystr) : res exn nat :=
  res_of_option ValueError (fst <$> list_find (x =.) l).

(** [print(Choice, migrationTime[Choice])] *)
Definition print_choice (r : fog_result) (selecionado : pystr) : res exn (nat * xfloat) :=
  choice ← list_index selecionado (server_ips r);
  t ← res_of_option IndexError (migrationTime r !! choice);
  mret (choice, t).

(** The best server by score: [ServersScores.sort(key=itemgetter(1))], then the
    first entry. *)
Definition first_key {V} (l : list (pystr * V)) : res exn pystr :=
  match l with best :: _ => mret best.1 | [] => Raise IndexError end.
Definition ahp_choose (servers : PyDict pystr vector) : res exn pystr :=
  scores ← Politica servers;
  first_key (sort_by (λ x y, xlt x.2 y.2) (items scores)).
Definition ahp_main (a : fog_args) (log : pystr) (delays : matrix) : res exn (nat * xfloat) :=
  r ← ahp_concatenarServers a log delays;
  selecionado ← ahp_choose (Servers r);
  print_choice r selecionado.

(** [guloso()]: the key of an entry is its first measure. *)
Definition first_measure (e : pystr * vector) : xfloat := default NaN (e.2 !! 0%nat).
Definition guloso (servers : PyDict pystr vector) : res exn pystr :=
  first_key (sort_by (λ x y, xlt (first_measure x) (first_measure y)) (items servers)).
(** [random.choice] takes the index from the random generator. *)
Definition aleatorio (rnd : nat → nat) (ips : list pystr) : res exn pystr :=
  res_of_option IndexError (ips !! rnd (length ips)).

Definition exemplo_main (rnd : nat → nat) (Type_ : pystr) (a : fog_args) (log : pystr) (delays : matrix) :
    res exn (nat * xfloat) :=
  r ← exemplo_concatenarServers a log delays;
  selecionado ← (if bool_decide (Type_ = str "guloso") then guloso (Servers r)
                 else aleatorio rnd (server_ips r));
  print_choice r selecionado.

(** pliLocal.py: [solve] is docplex on one binary variable per server, exactly
    one of them set: it takes the coefficients of the objective and returns the
    names of the variables set in the solution it found.  The last name is the
    result; without a solution [pli] returns None, which is not in the list of
    addresses. *)
Definition pli_cost (e : pystr * vector) : res exn (pystr * xfloat) :=
  x ← res_of_option IndexError (e.2 !! 0%nat);
  y ← res_of_option IndexError (e.2 !! 1%nat);
  z ← res_of_option IndexError (e.2 !! 2%nat);
  mret (e.1, xadd (xadd x y) z).
Definition pliLocal_choose (solve : list (pystr * xfloat) → option (list pystr))
    (servers : PyDict pystr vector) : res exn pystr :=
  costs ← mapM_res pli_cost (items servers);
  match solve costs with
  | None => Raise ValueError
  | Some names => res_of_option UnboundLocalError (last names)
  end.
Definition pliLocal_main (solve : list (pystr * xfloat) → option (list pystr))
    (a : fog_args) (log : pystr) (delays : matrix) : res exn (nat * xfloat) :=
  r ← pliLocal_concatenarServers a log delays;
  selecionado ← pliLocal_choose solve (Servers r);
  print_choice r selecionado.

(** pli.py: [read_csv] gives the rows of a file of solutions computed before;
    the number of clients is the third component of the folder. *)
Definition pli_doc (simu num : pystr) : pystr := str "res" ++ num ++ str "_" ++ simu ++ str ".csv".
Definition pli (read_csv : pystr → res exn matrix) (a : fog_args) (Id : pystr) : res exn nat :=
  num ← nth_arg (split_char "/" (folder a)) 2;
  rows ← read_csv (pli_doc (simu a) num);
  id ← py_int 10 Id;
  line ← res_of_option IndexError (py_get rows id);
  res_of_option ValueError (fst <$> list_find (λ x, xeqb x (of_Z 1) = true) line).
Definition pli_main (read_csv : pystr → res exn matrix) (Id : pystr) (a : fog_args)
    (log : pystr) (delays : matrix) : res exn (nat * xfloat) :=
  r ← pli_concatenarServers a log delays;
  selecionado ← pli read_csv a Id;
  t ← res_of_option IndexError (migrationTime r !! selecionado);
  mret (selecionado, t).

(** ** guloso.py and aleatorio.py

    [x not in fog] is a test for a substring, as [fog] is an address. *)
Definition Limiares : list Q := [200; -1; 2; 2; 1]%Q.
Definition limiar (n : nat) : xfloat := Fin (default 0%Q (Limiares !! n)).

Definition param (v : vector) (n : nat) : res exn xfloat := res_of_option IndexError (v !! n).

(** The first other fog below the first threshold that has no client. *)
Fixpoint first_free (fogs : list (pystr * vector)) : res exn (option pystr) :=
  match fogs with
  | [] => Ok None
  | (i, v) :: fogs =>
      _ ← param v 4;
      p0 ← param v 0;
      p4 ← param v 4;
      if xlt p0 (limiar 0) && xlt p4 (of_Z 1) then Ok (Some i) else first_free fogs
  end.
Definition guloso_mudarFog (fog : pystr) (Fogs : PyDict pystr vector) : res exn pystr :=
  r ← first_free (List.filter (λ e, negb (contains e.1 fog)) (items Fogs));
  mret (default fog r).

(** [atualizarFogsEntrada] of guloso.py reads a name that is not defined, and
    [Politica] assigns a name from itself. *)
Definition guloso_atualizarFogsEntrada (fogs : PyDict pystr vector) : res exn pystr :=
  Raise NameError.
Definition guloso_Politica (matrizesdepreferencias : PyDict pystr vector) : res exn pystr :=
  Raise UnboundLocalError.

Definition aleatorio_mudarFog (rnd : nat → nat) (Fogs : PyDict pystr vector) : res exn pystr :=
  aleatorio rnd (items Fogs).*1.
Definition aleatorio_atualizarFogsEntrada (rnd : nat → nat) (fogs : PyDict pystr vector)
    (server : pystr) : res exn pystr :=
  parametro ← dlookup server fogs;
  p0 ← param parametro 0;
  mudar ← (if xlt (limiar 0) p0 then mret true
           else p4 ← param parametro 4; mret (xlt (limiar 4) p4));
  if mudar : bool then aleatorio_mudarFog rnd fogs else mret server.
Definition aleatorio_Politica (rnd : nat → nat) (matrizesdepreferencias : PyDict pystr vector)
    (ip : pystr) : res exn pystr :=
  aleatorio_atualizarFogsEntrada rnd matrizesdepreferencias ip.

(** ** Delays.py

    The arguments from the fourth on fill a ten by ten matrix by rows: each one
    without its first and its last ten characters, halved. *)
Definition strip_delay (s : pystr) : res exn pystr :=
  match take (length s - 10) s with [] => Raise IndexError | _ :: aux => Ok aux end.
Definition delay_value (s : pystr) : res exn xfloat :=
  aux ← strip_delay s;
  d ← py_float aux;
  mret (np_div d (of_Z 2)).
Definition matrix_set (m : matrix) (k j : nat) (x : xfloat) : res exn matrix :=
  row ← res_of_option IndexError (m !! k);
  if decide (j < length row)%nat then mret (<[k := <[j := x]> row]> m) else Raise IndexError.
Fixpoint fill_delays (m : matrix) (j k : nat) (args : list pystr) : res exn matrix :=
  match args with
  | [] => Ok m
  | s :: args =>
      let '(j, k) := if (10 <=? j)%nat then (0%nat, S k) else (j, k) in
      d ← delay_value s;
      m ← matrix_set m k j d;
      fill_delays m (S j) k args
  end.
Definition delays_main (argv : list pystr) : res exn matrix :=
  fill_delays (replicate 10 (replicate 10 (of_Z 0))) 0 0 (drop 3 argv).

(** ** StallRebuffer.py

    The stalls and their total time per server, over the files in the order that
    [glob] gives them.  The counters of clients are computed but not returned. *)
Inductive stall_server : Type := S1 | S2 | S3 | Cloud.
#[export] Instance stall_server_eq_dec : EqDecision stall_server.
Proof. solve_decision. Defined.

Definition stall_class (address : pystr) : stall_server :=
  if bool_decide (address = str "1.0.0.1") then S1
  else if bool_decide (address = str "2.0.0.1") || bool_decide (address = str "1.0.0.3") then S2
  else if bool_decide (address = str "3.0.0.1") || bool_decide (address = str "1.0.0.5") then S3
  else Cloud.

(** The number of stalls and their time, per server, and the servers seen in
    the current file with the number of clients of each. *)
Record stalls : Type := Stalls {
  Nstalls : stall_server → Z;
  timeTotal : stall_server → xfloat;
  Clients : stall_server → Z;
}.
Definition bump {V} (c : stall_server) (v : V) (f : stall_server → V) (x : stall_server) : V :=
  if decide (x = c) then v else f x.
Definition no_stalls : stalls := Stalls (λ _, 0) (λ _, of_Z 0) (λ _, 0).

Definition stall_line (st : stalls * list stall_server) (line : pystr) :
    res exn (stalls * list stall_server) :=
  let '(s, seen) := st in
  let fields := split_char ";" line in
  if (length fields <? 5)%nat then mret st
  else
    address ← nth_arg fields 0;
    let c := stall_class address in
    let '(clients, seen) :=
      if bool_decide (c ∈ seen) then (Clients s, seen)
      else (bump c (Clients s c + 1) (Clients s), c :: seen) in
    s3 ← nth_arg fields 3;
    t ← py_float s3;
    mret (Stalls (bump c (Nstalls s c + 1) (Nstalls s)) (bump c (xadd (timeTotal s c) t) (timeTotal s))
            clients, seen).

Definition stall_file (s : stalls) (text : pystr) : res exn stalls :=
  fst <$> fold_res stall_line (s, []) (drop 1 (readlines text)).
Definition bufferUnderrunGraphs (files : list pystr) : res exn stalls :=
  fold_res stall_file no_stalls files.

Definition dividir (a b : xfloat) : res exn xfloat :=
  if xzero b then mret (of_Z 0) else py_div a b.

(** ** The weights *)

Definition pesos : vector := [Fin (6548067379 # 10000000000); Fin (249855533 # 1000000000); Fin (953377291 # 10000000000)].
Lemma peso_value : peso = Ok pesos.
Proof. vm_compute. reflexivity. Qed.
#[local] Opaque peso pesos.

(** [AutoValor] ends on every square matrix after at most the given number of
    passes (100 by default) and gives one weight per row.  On the matrix of the
    script the weights are positive, add up to 1, rank latency before migration
    time before memory, and are an eigenvector of the matrix up to 1e-6. *)
Theorem AutoValor_weights :
  (∀ n m p prev, square m = true → from_option length (length m) prev = length m →
     ∃ v, AutoValor n m p prev = Ok v ∧ length v = length m) ∧
  ∃ w0 w1 w2 ev : Q, peso = Ok [Fin w0; Fin w1; Fin w2] ∧
    (w0 + w1 + w2 == 1)%Q ∧ (0 < w2)%Q ∧ (w2 < w1)%Q ∧ (w1 < w0)%Q ∧
    (Qabs (w0 + 3 * w1 + 6 * w2 - ev * w0) < 1 # 1000000)%Q ∧
    (Qabs ((1 # 3) * w0 + w1 + 3 * w2 - ev * w1) < 1 # 1000000)%Q ∧
    (Qabs ((1 # 6) * w0 + (1 # 3) * w1 + w2 - ev * w2) < 1 # 1000000)%Q.
Proof.
  split.
  - induction n as [n IH] using lt_wf_ind. intros m p prev Hm Hprev.
    assert (∃ m2, matrix_square m = Ok m2 ∧ length m2 = length m ∧ square m2 = true) as (m2 & Hm2 & L2 & S2).
    { unfold matrix_square. rewrite Hm. eexists. split_and!; [done|by rewrite length_fmap|].
      unfold square. apply forallb_forall. intros row Hrow%list_elem_of_In.
      apply list_elem_of_fmap in Hrow as (x & -> & _).
      rewrite !length_fmap, length_seq. by apply Nat.eqb_refl. }
    destruct n as [|[|n]]; cbn [AutoValor]; rewrite Hm2; cbn [mbind res_bind];
      destruct (negb _); try (eexists; split; [done|]; by rewrite !length_fmap).
    destruct (IH (S n) ltac:(lia) m2 p (Some ((λ x, np_div x (xsum (xsum <$> m2))) <$> (xsum <$> m2))) S2)
      as (v & Hv & Lv).
    { cbn. by rewrite !length_fmap. }
    exists v. split; [exact Hv|congruence].
  - exists (6548067379 # 10000000000), (249855533 # 1000000000), (953377291 # 10000000000), (30182947 # 10000000).
    split_and!; [apply peso_value|vm_compute; reflexivity..].
Qed.

(** ** Policies by score

    [Minimises choose cost]: among servers with three measures and finite costs,
    [choose] gives one of minimal cost.  [FirstMinimum] adds how it breaks ties,
    and that it takes the first server when all costs are NaN. *)
Definition measured (e : pystr * vector) : Prop := (3 ≤ length e.2)%nat.

Class Minimises (choose : PyDict pystr vector → res exn pystr) (cost : pystr * vector → xfloat) : Prop :=
  minimises_best d : items d ≠ [] → Forall (λ e, measured e ∧ finite (cost e)) (items d) →
    ∃ e, e ∈ items d ∧ (∀ e', e' ∈ items d → xlt (cost e') (cost e) = false) ∧ choose d = Ok e.1.

Class FirstMinimum (choose : PyDict pystr vector → res exn pystr) (cost : pystr * vector → xfloat) : Prop := {
  first_minimum_best d : items d ≠ [] → Forall (λ e, measured e ∧ finite (cost e)) (items d) →
    ∃ e, first_min (λ x y, xlt (cost x) (cost y)) (items d) e ∧ choose d = Ok e.1;
  first_minimum_blind d e es : items d = e :: es →
    Forall (λ e, measured e ∧ cost e = NaN) (items d) → choose d = Ok e.1;
}.

#[export] Instance cost_weak (cost : pystr * vector → xfloat) :
  WeakOrder (λ e, finite (cost e)) (λ x y, xlt (cost x) (cost y)).
Proof. apply (key_weak cost finite xlt), _. Qed.

#[export] Instance first_minimum_minimises choose cost :
  FirstMinimum choose cost → Minimises choose cost.
Proof.
  intros Hf d Hne Hd. destruct (first_minimum_best d Hne Hd) as (e & He & Hc).
  exists e. split_and!; [by eapply first_min_elem| |done].
  intros e' He'. apply (first_min_min (λ e, finite (cost e)) (λ x y, xlt (cost x) (cost y)) (items d) e e'); try done.
  eapply Forall_impl; [exact Hd|]. by intros ? [_ ?].
Qed.

Lemma first_min_fmap_inv {A B} (f : A → B) (lt : B → B → bool) l y :
  first_min lt (f <$> l) y → ∃ x, y = f x ∧ first_min (λ a b, lt (f a) (f b)) l x.
Proof.
  intros (l1 & l2 & Hl & H1 & H2). apply fmap_app_inv in Hl as (k1 & k2 & -> & Hk & ->).
  destruct k2 as [|x k2]; [done|]. injection Hk as -> ->. exists x. split; [done|].
  exists k1, k2. split_and!; [done|by apply Forall_fmap in H1|by apply Forall_fmap in H2].
Qed.

(** Sorting by a key and taking the first entry. *)
Lemma first_key_sort {V} (lt : pystr * V → pystr * V → bool) (P : pystr * V → Prop) l :
  WeakOrder P lt → l ≠ [] → Forall P l → ∃ e, first_min lt l e ∧ first_key (sort_by lt l) = Ok e.1.
Proof.
  intros Hw Hne Hl. destruct l as [|x l]; [done|]. destruct (sort_by_head lt x l) as (l' & ->).
  apply Forall_cons in Hl as [Hx Hl]. exists (min_by lt x l). split; [by apply (min_by_first P lt)|done].
Qed.
Lemma first_key_blind {V} (lt : pystr * V → pystr * V → bool) x l :
  (∀ y z, lt y z = false) → first_key (sort_by lt (x :: l)) = Ok x.1.
Proof. intros Hlt. rewrite sort_by_id; auto. Qed.

#[export] Instance guloso_first : FirstMinimum guloso first_measure.
Proof.
  split.
  - intros d Hne Hd. apply (first_key_sort _ (λ e, finite (first_measure e))); [apply _|done|].
    eapply Forall_impl; [exact Hd|]. by intros ? [_ ?].
  - intros d e es Hes Hd. unfold guloso.
    assert (∀ y, y ∈ items d → first_measure y = NaN) as Hn.
    { intros y Hy. by eapply Forall_forall in Hd as [_ ?]. }
    rewrite sort_by_id; [by rewrite Hes|]. intros y z Hy Hz. by rewrite (Hn y).
Qed.

(** The weighted sum that the analytic hierarchy process gives a server. *)
Definition ahp_cost (e : pystr * vector) : xfloat :=
  match influence pesos e.2 with Ok x => x | Raise _ => NaN end.

Lemma influence_ok e : measured e → influence pesos e.2 = Ok (ahp_cost e).
Proof.
  unfold measured, ahp_cost, influence. destruct e.2 as [|x [|y [|z v]]]; cbn; try lia. done.
Qed.

Lemma map_dict_items {V W} (f : V → res exn W) (g : V → W) (d : PyDict pystr V) :
  (∀ e, e ∈ items d → f e.2 = Ok (g e.2)) →
  ∃ d', map_dict f d = Ok d' ∧ items d' = (λ e, (e.1, g e.2)) <$> items d.
Proof.
  intros Hf. unfold map_dict. pose proof (items_nodup d) as Hnd. revert Hf Hnd.
  generalize (items d) as l. intros l Hf Hnd.
  enough (∀ acc : PyDict pystr W, (∀ k, k ∈ (items acc).*1 → k ∉ l.*1) → ∃ d',
    fold_res (λ acc e, w ← f e.2; mret (dset e.1 w acc)) acc l = Ok d' ∧
    items d' = items acc ++ ((λ e, (e.1, g e.2)) <$> l)) as H.
  { destruct (H dempty) as (d' & Hd' & Hi); [cbn; set_solver|]. by exists d'. }
  revert Hf Hnd. induction l as [|e l IH]; intros Hf Hnd acc Hacc; cbn [fold_res].
  - exists acc. by rewrite app_nil_r.
  - cbn in Hnd. apply NoDup_cons in Hnd as [He Hnd]. rewrite Hf by (by left).
    cbn [mbind res_bind mret res_ret].
    assert (items (dset e.1 (g e.2) acc) = items acc ++ [(e.1, g e.2)]) as Hset.
    { cbn [items dset pydict_ops]. apply aset_fresh. intros Hin. apply (Hacc _ Hin). by left. }
    destruct (IH ltac:(intros; apply Hf; by right) Hnd (dset e.1 (g e.2) acc)) as (d' & Hd' & Hi).
    { intros k. rewrite Hset, fmap_app, elem_of_app. intros [Hk|Hk].
      - intros Hl. apply (Hacc k Hk). by right.
      - apply list_elem_of_singleton in Hk as ->. done. }
    exists d'. split; [done|]. by rewrite Hi, Hset, <-app_assoc.
Qed.

Lemma ahp_scores d :
  Forall measured (items d) →
  ∃ s, Politica d = Ok s ∧ items s = (λ e, (e.1, ahp_cost e)) <$> items d.
Proof.
  intros Hd. unfold Politica, Influenciacompeso. rewrite peso_value. cbn [mbind res_bind].
  destruct (map_dict_items (influence pesos) (λ v, ahp_cost ([], v)) d) as (s & Hs & Hi).
  { intros e He. eapply Forall_forall in Hd; [|exact He]. by apply (influence_ok e). }
  by exists s.
Qed.

#[export] Instance ahp_first : FirstMinimum ahp_choose ahp_cost.
Proof.
  split.
  - intros d Hne Hd. destruct (ahp_scores d) as (s & Hs & Hi).
    { eapply Forall_impl; [exact Hd|]. by intros ? [? _]. }
    unfold ahp_choose. rewrite Hs. clear Hs. cbn [mbind res_bind].
    destruct (first_key_sort (λ x y : pystr * xfloat, xlt x.2 y.2) (λ e, finite e.2) (items s))
      as (y & Hy & ->).
    { apply (key_weak snd finite xlt), _. }
    { rewrite Hi. by intros ?%fmap_nil_inv. }
    { rewrite Hi. apply Forall_fmap. eapply Forall_impl; [exact Hd|]. intros e' He'. exact (proj2 He'). }
    rewrite Hi in Hy. apply first_min_fmap_inv in Hy as (e & -> & He). exists e. split; [exact He|reflexivity].
  - intros d e es Hes Hd. destruct (ahp_scores d) as (s & Hs & Hi).
    { eapply Forall_impl; [exact Hd|]. by intros ? [? _]. }
    unfold ahp_choose. rewrite Hs. clear Hs. cbn [mbind res_bind]. rewrite sort_by_id.
    + by rewrite Hi, Hes.
    + rewrite Hi. intros y z (x & -> & Hx)%list_elem_of_fmap _. cbn.
      eapply Forall_forall in Hd as [_ ->]; done.
Qed.

(** The linear program: docplex finds an optimal solution, in which exactly one
    variable is set. *)
Definition measures_sum (e : pystr * vector) : xfloat :=
  match pli_cost e with Ok x => x.2 | Raise _ => NaN end.
Definition solves (solve : list (pystr * xfloat) → option (list pystr)) : Prop :=
  ∀ costs, costs ≠ [] → Forall (λ c, finite c.2) costs →
    ∃ c, solve costs = Some [c.1] ∧ c ∈ costs ∧ ∀ c', c' ∈ costs → xlt c'.2 c.2 = false.

Lemma pliLocal_minimises solve : solves solve → Minimises (pliLocal_choose solve) measures_sum.
Proof.
  intros Hsolve d Hne Hd. unfold pliLocal_choose.
  rewrite (mapM_res_fmap pli_cost (λ e, (e.1, measures_sum e))).
  2: { intros e He. eapply Forall_forall in Hd as [Hm _]; [|exact He]. revert Hm.
       unfold measured, measures_sum, pli_cost. destruct e.2 as [|x [|y [|z v]]]; cbn; try lia. done. }
  cbn [mbind res_bind].
  destruct (Hsolve ((λ e, (e.1, measures_sum e)) <$> items d)) as (c & -> & Hc & Hmin).
  { intros Hn. apply fmap_nil_inv in Hn. exact (Hne Hn). }
  { apply Forall_fmap. eapply Forall_impl; [exact Hd|]. intros e' He'. exact (proj2 He'). }
  apply list_elem_of_fmap in Hc as (e & -> & He). exists e. split_and!; [done| |done].
  intros e' He'. apply (Hmin (e'.1, measures_sum e')). apply list_elem_of_fmap. by exists e'.
Qed.

(** ** From the chosen server to its position in the log *)

(** The entry of the server at position [k], if it is kept. *)
Definition candidate (keep : Z → bool) (extra : Z → list xfloat) (g : list server)
    (l m u : list xfloat) (k : nat) : option (pystr * vector) :=
  sv ← g !! k; x ← l !! k; y ← m !! k; z ← u !! k;
  entry_item keep extra (sv_ip sv, contents_count sv, (x, y, z)).

Lemma list_index_nodup (l : list pystr) k x : NoDup l → l !! k = Some x → list_index x l = Ok k.
Proof.
  intros Hnd Hk. unfold list_index.
  destruct (list_find_elem_of (x =.) l x) as [[j y] Hj]; [by eapply list_elem_of_lookup_2|done|].
  rewrite Hj. apply list_find_Some in Hj as (Hj & <- & _). cbn. f_equal.
  by apply (NoDup_lookup l j k x).
Qed.

Section chosen.
Context (keep : Z → bool) (extra : Z → list xfloat) (g : list server) (l m u raw : list xfloat).
Context (Ll : length l = length g) (Lm : length m = length g) (Lu : length u = length g)
  (Lraw : length raw = length g) (Hnd : NoDup (sv_ip <$> g)).
Context (r : fog_result) (Hips : server_ips r = sv_ip <$> g) (Hraw : migrationTime r = raw)
  (Hitems : items (Servers r) =
     omap (entry_item keep extra) (zip (zip (sv_ip <$> g) (contents_count <$> g)) (zip (zip l m) u))).

Lemma candidate_item e : e ∈ items (Servers r) ↔ ∃ k, candidate keep extra g l m u k = Some e.
Proof.
  rewrite Hitems, list_elem_of_omap. unfold candidate. split.
  - intros ([[ip b] [[x y] z]] & [k Hk]%list_elem_of_lookup & He). exists k.
    apply lookup_zip_Some in Hk as [H1 H2]. apply lookup_zip_Some in H1 as [Ha Hb].
    apply lookup_zip_Some in H2 as [H2 Hu]. apply lookup_zip_Some in H2 as [Hl Hm].
    rewrite list_lookup_fmap in Ha. rewrite list_lookup_fmap in Hb.
    destruct (g !! k) as [sv|]; [|done]. injection Ha as <-. injection Hb as <-.
    cbn. by rewrite Hl, Hm, Hu.
  - intros [k Hk]. destruct (g !! k) as [sv|] eqn:Hg; [|done].
    destruct (l !! k) as [x|] eqn:Hl; [|done]. destruct (m !! k) as [y|] eqn:Hm; [|done].
    destruct (u !! k) as [z|] eqn:Hu; [|done]. cbn in Hk.
    exists (sv_ip sv, contents_count sv, (x, y, z)). split; [|done].
    apply list_elem_of_lookup. exists k.
    apply lookup_zip_Some. split; apply lookup_zip_Some; split; cbn.
    + by rewrite list_lookup_fmap, Hg.
    + by rewrite list_lookup_fmap, Hg.
    + by apply lookup_zip_Some.
    + done.
Qed.

Lemma candidate_ip k e : candidate keep extra g l m u k = Some e → (sv_ip <$> g) !! k = Some e.1.
Proof.
  unfold candidate. rewrite list_lookup_fmap. destruct (g !! k) as [sv|]; [|done].
  destruct (l !! k), (m !! k), (u !! k); cbn; try done.
  destruct (keep _); [|done]. by intros [= <-].
Qed.

Lemma candidate_measured k e : candidate keep extra g l m u k = Some e → measured e.
Proof.
  unfold candidate, measured. destruct (g !! k) as [sv|]; [|done].
  destruct (l !! k), (m !! k), (u !! k); cbn; try done.
  destruct (keep _); [|done]. intros [= <-]. cbn. lia.
Qed.

Lemma print_candidate k e :
  candidate keep extra g l m u k = Some e → ∃ t, raw !! k = Some t ∧ print_choice r e.1 = Ok (k, t).
Proof.
  intros Hk%candidate_ip. destruct (lookup_lt_is_Some_2 raw k) as [t Ht].
  { rewrite Lraw. apply lookup_lt_Some in Hk. by rewrite length_fmap in Hk. }
  exists t. split; [done|]. unfold print_choice.
  rewrite Hips, (list_index_nodup _ k), Hraw; [|done..]. cbn. by rewrite Ht.
Qed.

Lemma minimal_choice choose cost `{!Minimises choose cost} :
  (∃ k e, candidate keep extra g l m u k = Some e) →
  (∀ k e, candidate keep extra g l m u k = Some e → finite (cost e)) →
  ∃ k e t, candidate keep extra g l m u k = Some e ∧ raw !! k = Some t ∧
    (selecionado ← choose (Servers r); print_choice r selecionado) = Ok (k, t) ∧
    ∀ j e', candidate keep extra g l m u j = Some e' → xlt (cost e') (cost e) = false.
Proof.
  intros (k0 & e0 & H0) Hfin.
  destruct (minimises_best (Servers r)) as (e & He & Hmin & Hc).
  { intros Hn. apply (elem_of_nil e0). rewrite <-Hn. apply candidate_item. eauto. }
  { apply Forall_forall. intros e [k Hk]%candidate_item. split; [|by eapply Hfin].
    by eapply candidate_measured. }
  apply candidate_item in He as [k Hk]. destruct (print_candidate k e Hk) as (t & Ht & Hp).
  exists k, e, t. rewrite Hc. split_and!; try done.
  intros j e' Hj. apply Hmin, candidate_item. eauto.
Qed.

(** Without finite costs to compare, the first kept server is chosen. *)
Lemma blind_choice choose cost `{!FirstMinimum choose cost} :
  (∃ k e, candidate keep extra g l m u k = Some e) →
  (∀ k e, candidate keep extra g l m u k = Some e → cost e = NaN) →
  ∃ k e t, candidate keep extra g l m u k = Some e ∧ raw !! k = Some t ∧
    (selecionado ← choose (Servers r); print_choice r selecionado) = Ok (k, t) ∧
    ∀ j e', candidate keep extra g l m u j = Some e' → (k ≤ j)%nat.
Proof.
  intros (k0 & e0 & H0) Hnan.
  assert (∃ e es, items (Servers r) = e :: es) as (e & es & Hes).
  { pose proof (proj2 (candidate_item e0) (ex_intro _ k0 H0)) as Hin. revert Hin.
    generalize (items (Servers r)) as its. intros [|e es] Hin; [by apply elem_of_nil in Hin|eauto]. }
  assert (choose (Servers r) = Ok e.1) as Hc.
  { apply (first_minimum_blind _ e es Hes). apply Forall_forall. intros x [k Hk]%candidate_item.
    split; [by eapply candidate_measured|by eapply Hnan]. }
  assert (∃ k, candidate keep extra g l m u k = Some e ∧
    ∀ j e', candidate keep extra g l m u j = Some e' → (k ≤ j)%nat) as (k & Hk & Hfirst).
  { rewrite Hitems in Hes. clear -Hes Ll Lm Lu. revert Hes Ll Lm Lu. unfold candidate. revert l m u.
    induction g as [|sv g' IH]; intros [|x l'] [|y m'] [|z u'] Hes Ll Lm Lu; try done.
    cbn in Hes. destruct (keep (contents_count sv)) eqn:Hb.
    - injection Hes as <- _. exists 0%nat. cbn. rewrite Hb. split; [done|]. lia.
    - destruct (IH l' m' u') as (k & Hk & Hf); [done|by injection Ll|by injection Lm|by injection Lu|].
      exists (S k). split; [exact Hk|]. intros [|j] e' Hj; cbn in Hj; [by rewrite Hb in Hj|].
      apply Hf in Hj. lia. }
  destruct (print_candidate k e Hk) as (t & Ht & Hp).
  exists k, e, t. rewrite Hc. split_and!; done.
Qed.
End chosen.

(** ** The choices of the scripts *)

(** A log whose accepted servers [g] come first, with different addresses. *)
Record good_log (usage : xfloat → xfloat → res exn xfloat) (a : fog_args) (log : pystr)
    (delays : matrix) (g : list server) (dp us raw : vector) : Prop := {
  gl_lines : ∃ header lines b, readlines log = header :: lines ∧
    Forall2 (λ line r, parse_server line = Ok r) lines (g ++ b) ∧
    Forall (λ r, accepted a r = true) g ∧ Forall (λ r, accepted a r = false) b ∧
    (length (g ++ b) ≤ length dp)%nat;
  gl_delays : py_get delays (pos a) = Some dp;
  gl_usage : mapM_res (usage (size a)) (sv_free <$> g) = Ok us;
  gl_migration : mapM_res (migration_time a delays (holders a 0 g)) (seqZ 0 (Z.of_nat (length g))) = Ok raw;
  gl_nonempty : g ≠ [];
  gl_nodup : NoDup (sv_ip <$> g);
}.

Lemma split_accepted_app a g b :
  Forall (λ r, accepted a r = true) g → Forall (λ r, accepted a r = false) b →
  split_accepted a (g ++ b) = (g, b).
Proof.
  intros Hg Hb. induction Hg as [|r g Hr Hg IH]; cbn.
  - destruct Hb as [|r b Hr Hb]; cbn; [done|by rewrite Hr].
  - by rewrite Hr, IH.
Qed.

Lemma good_log_result usage keep extra a log delays g dp us raw :
  good_log usage a log delays g dp us raw → ∃ l m u r,
    normalise (take (length g) dp) = Ok l ∧ normalise raw = Ok m ∧ normalise_usage us = Ok u ∧
    length l = length g ∧ length m = length g ∧ length u = length g ∧ length raw = length g ∧
    concatenarServers usage keep extra a log delays = Ok r ∧
    server_ips r = sv_ip <$> g ∧ migrationTime r = raw ∧
    items (Servers r) =
      omap (entry_item keep extra) (zip (zip (sv_ip <$> g) (contents_count <$> g)) (zip (zip l m) u)).
Proof.
  intros [(header & lines & b & Hlog & Hrs & Hg & Hb & Hlen) Hdp Hus Hraw Hne Hnd].
  pose proof (concatenar_result usage keep extra a log delays header lines (g ++ b) g b dp us raw
    Hlog Hrs Hdp Hlen (split_accepted_app _ _ _ Hg Hb) Hus Hraw) as H.
  replace (existsb (accepted a) b) with false in H.
  2: { symmetry. apply not_true_iff_false. rewrite existsb_exists. intros (r & Hr%list_elem_of_In & Hacc).
       eapply Forall_forall in Hb; [|exact Hr]. congruence. }
  rewrite decide_False in H by done.
  destruct H as (l & m & u & r & Hl & Hm & Hu & Ll & Lm & Lu & Hr & Hip & Ht & _ & Hi).
  apply mapM_res_length in Hraw. rewrite length_seqZ in Hraw.
  exists l, m, u, r. split_and!; try done; [lia|auto].
Qed.

(** The entries that a script without a guard, or with one, gives its servers. *)
Lemma candidate_spec keep extra g l m u k e :
  candidate keep extra g l m u k = Some e ↔
  ∃ sv x y z, g !! k = Some sv ∧ l !! k = Some x ∧ m !! k = Some y ∧ u !! k = Some z ∧
    keep (contents_count sv) = true ∧ e = (sv_ip sv, [x; y; z] ++ extra (contents_count sv)).
Proof.
  unfold candidate. split.
  - destruct (g !! k) as [sv|] eqn:Hg; [|done]. destruct (l !! k) as [x|] eqn:Hl; [|done].
    destruct (m !! k) as [y|] eqn:Hm; [|done]. destruct (u !! k) as [z|] eqn:Hu; [|done].
    cbn. destruct (keep _) eqn:Hk; [|done]. intros [= <-]. by exists sv, x, y, z.
  - intros (sv & x & y & z & -> & -> & -> & -> & Hk & ->). cbn. by rewrite Hk.
Qed.

Lemma candidate_exists keep extra g l m u k sv :
  length l = length g → length m = length g → length u = length g →
  g !! k = Some sv → keep (contents_count sv) = true → ∃ e, candidate keep extra g l m u k = Some e.
Proof.
  intros Ll Lm Lu Hg Hk. pose proof (lookup_lt_Some _ _ _ Hg) as Hlt.
  destruct (lookup_lt_is_Some_2 l k) as [x Hx]; [lia|].
  destruct (lookup_lt_is_Some_2 m k) as [y Hy]; [lia|].
  destruct (lookup_lt_is_Some_2 u k) as [z Hz]; [lia|].
  eexists. apply candidate_spec. by exists sv, x, y, z.
Qed.

(** The two lists of the measures are in step with the servers. *)
Lemma normalise_finite l l' : Forall finite l → spread l → normalise l = Ok l' → Forall finite l'.
Proof.
  intros Hl Hs Hn. destruct (normalise_spread l Hl Hs) as (p & q & _ & Hn' & _).
  rewrite Hn' in Hn. injection Hn as <-. apply Forall_fmap, Forall_forall. intros x _. apply finite_fin.
Qed.
Lemma normalise_usage_finite l l' : l ≠ [] → Forall finite l → normalise_usage l = Ok l' → Forall finite l'.
Proof.
  intros Hne Hl. unfold normalise_usage.
  destruct (min_max_finite l Hne Hl) as (p & q & Hp & Hq & Ep & Eq & Hb). rewrite Hp, Hq.
  cbn [mbind res_bind xeqb]. destruct (Qeq_bool q p) eqn:Hpq.
  - intros [= <-]. apply Forall_fmap. eapply Forall_impl; [exact Hl|]. intros x [r ->]. apply finite_fin.
  - apply normalise_finite; [done|]. exists (Fin p), (Fin q). split_and!; [done..|].
    apply Qlt_bool_iff, Qnot_le_lt. intros Hle.
    assert (q == p)%Q as Heq.
    { apply Qle_antisym; [done|]. by apply (Hb (Fin q)). }
    apply Qeq_bool_iff in Heq. congruence.
Qed.

Definition weighted (x y z : xfloat) : Q :=
  ((6548067379 # 10000000000) * xval x + (249855533 # 1000000000) * xval y
   + (953377291 # 10000000000) * xval z)%Q.

Lemma ahp_cost_finite ip x y z v :
  finite x → finite y → finite z → ∃ q, ahp_cost (ip, [x; y; z] ++ v) = Fin q ∧ (q == weighted x y z)%Q.
Proof.
  intros [p ->] [q ->] [r ->]. eexists. split; [reflexivity|].
  rewrite !Qred_correct. unfold weighted. cbn [xval inject_Z]. ring.
Qed.
Lemma ahp_cost_nan ip x y z v : x = NaN ∨ y = NaN → ahp_cost (ip, [x; y; z] ++ v) = NaN.
Proof. intros [-> | ->]; [destruct y, z|destruct x, z]; reflexivity. Qed.

(** Policies whose cost of a server is a number computed from its three measures:
    the server that the script prints has a smallest one. *)
Lemma scored_choice choose cost `{!Minimises choose cost} (w : xfloat → xfloat → xfloat → Q)
    usage keep extra a log delays g dp us raw :
  (∀ ip x y z v, finite x → finite y → finite z →
     ∃ q, cost (ip, [x; y; z] ++ v) = Fin q ∧ (q == w x y z)%Q) →
  good_log usage a log delays g dp us raw →
  Forall finite (take (length g) dp) → Forall finite raw → Forall finite us →
  spread (take (length g) dp) → spread raw →
  Exists (λ sv, keep (contents_count sv) = true) g →
  ∃ l m u k sv x y z t,
    normalise (take (length g) dp) = Ok l ∧ normalise raw = Ok m ∧ normalise_usage us = Ok u ∧
    (r ← concatenarServers usage keep extra a log delays;
     selecionado ← choose (Servers r); print_choice r selecionado) = Ok (k, t) ∧
    g !! k = Some sv ∧ keep (contents_count sv) = true ∧ raw !! k = Some t ∧
    l !! k = Some x ∧ m !! k = Some y ∧ u !! k = Some z ∧
    ∀ j sv' x' y' z', g !! j = Some sv' → keep (contents_count sv') = true →
      l !! j = Some x' → m !! j = Some y' → u !! j = Some z' → (w x y z <= w x' y' z')%Q.
Proof.
  intros Hw Hlog Hdp Hraw Hus Sdp Sraw Hsome.
  destruct (good_log_result _ keep extra _ _ _ _ _ _ _ Hlog)
    as (l & m & u & r & Hl & Hm & Hu & Ll & Lm & Lu & Lr & Hr & Hip & Ht & Hi).
  pose proof (normalise_finite _ _ Hdp Sdp Hl) as Fl. pose proof (normalise_finite _ _ Hraw Sraw Hm) as Fm.
  assert (Forall finite u) as Fu.
  { apply (normalise_usage_finite us); [|done..]. intros ->.
    pose proof (mapM_res_length _ _ _ (gl_usage _ _ _ _ _ _ _ _ Hlog)) as Lus.
    pose proof (gl_nonempty _ _ _ _ _ _ _ _ Hlog) as Hne. by destruct g. }
  assert (∀ k e, candidate keep extra g l m u k = Some e → ∃ sv x y z,
    g !! k = Some sv ∧ l !! k = Some x ∧ m !! k = Some y ∧ u !! k = Some z ∧
    keep (contents_count sv) = true ∧ ∃ q, cost e = Fin q ∧ (q == w x y z)%Q) as Hcost.
  { intros k e (sv & x & y & z & Hg & Hx & Hy & Hz & Hb & ->)%candidate_spec.
    exists sv, x, y, z. split_and!; try done. apply Hw;
      [exact (Forall_lookup_1 _ _ _ _ Fl Hx)|exact (Forall_lookup_1 _ _ _ _ Fm Hy)|exact (Forall_lookup_1 _ _ _ _ Fu Hz)]. }
  destruct (minimal_choice keep extra g l m u raw Ll Lm Lu Lr (gl_nodup _ _ _ _ _ _ _ _ Hlog)
    r Hip Ht Hi choose cost) as (k & e & t & Hk & Hkt & Hc & Hmin).
  { apply Exists_exists in Hsome as (sv & [k Hk]%list_elem_of_lookup & Hb).
    exists k. by apply (candidate_exists _ _ _ _ _ _ k sv). }
  { intros k e (sv & x & y & z & _ & _ & _ & _ & _ & q & -> & _)%Hcost. by eexists. }
  destruct (Hcost k e Hk) as (sv & x & y & z & Hg & Hx & Hy & Hz & Hb & q & Hq & Hqw).
  exists l, m, u, k, sv, x, y, z, t. rewrite Hr. split_and!; try done.
  intros j sv' x' y' z' Hg' Hb' Hx' Hy' Hz'.
  assert (candidate keep extra g l m u j = Some (sv_ip sv', [x'; y'; z'] ++ extra (contents_count sv'))) as Hj.
  { apply candidate_spec. by exists sv', x', y', z'. }
  specialize (Hmin j _ Hj).
  destruct (Hcost j _ Hj) as (? & ? & ? & ? & _ & E1 & E2 & E3 & _ & q' & Hq' & Hqw'). simplify_eq.
  rewrite Hq, Hq' in Hmin. apply Qlt_bool_false in Hmin. by rewrite <-Hqw, <-Hqw'.
Qed.

(** When the accepted servers all have the same delay, or all the same
    migration time (all of them hold the content, for instance), a column of the
    table is NaN and so is every score of AHP.py: the script prints the first
    server with fewer than ten contents, whatever the other measures are. *)
Theorem ahp_equal_column a log delays g dp us raw
    (Hlog : good_log usage_ratio a log delays g dp us raw)
    (Hdp : Forall finite (take (length g) dp)) (Hraw : Forall finite raw)
    (Hflat : ¬ spread (take (length g) dp) ∨ ¬ spread raw)
    (Hsome : Exists (λ sv, below_ten (contents_count sv) = true) g) :
  ∃ k sv t, ahp_main a log delays = Ok (k, t) ∧ g !! k = Some sv ∧ raw !! k = Some t ∧
    below_ten (contents_count sv) = true ∧
    ∀ j sv', g !! j = Some sv' → below_ten (contents_count sv') = true → (k ≤ j)%nat.
Proof.
  destruct (good_log_result _ below_ten (λ _, []) _ _ _ _ _ _ _ Hlog)
    as (l & m & u & r & Hl & Hm & Hu & Ll & Lm & Lu & Lr & Hr & Hip & Ht & Hi).
  assert (∀ k, l !! k = Some NaN ∨ m !! k = Some NaN ∨ (length g ≤ k)%nat) as Hnan.
  { intros k. destruct (decide (k < length g)%nat) as [Hlt|]; [|right; right; lia].
    assert (take (length g) dp ≠ [] ∧ raw ≠ []) as [N1 N2].
    { split; intros Hn; [rewrite Hn in Hl; done|]. rewrite Hn in Lr. cbn [length] in Lr. lia. }
    destruct Hflat as [Hf|Hf]; [left|right; left].
    - rewrite (normalise_flat _ N1 Hdp Hf) in Hl. injection Hl as <-. rewrite length_fmap in Ll.
      rewrite list_lookup_fmap. destruct (lookup_lt_is_Some_2 (take (length g) dp) k) as [? ->]; [lia|done].
    - rewrite (normalise_flat _ N2 Hraw Hf) in Hm. injection Hm as <-. rewrite length_fmap in Lm.
      rewrite list_lookup_fmap. destruct (lookup_lt_is_Some_2 raw k) as [? ->]; [lia|done]. }
  destruct (blind_choice below_ten (λ _, []) g l m u raw Ll Lm Lu Lr (gl_nodup _ _ _ _ _ _ _ _ Hlog)
    r Hip Ht Hi ahp_choose ahp_cost) as (k & e & t & Hk & Hkt & Hc & Hfirst).
  { apply Exists_exists in Hsome as (sv & [k Hk]%list_elem_of_lookup & Hb).
    exists k. by apply (candidate_exists _ _ _ _ _ _ k sv). }
  { intros k e (sv & x & y & z & Hg & Hx & Hy & Hz & Hb & ->)%candidate_spec.
    apply ahp_cost_nan. apply lookup_lt_Some in Hg. destruct (Hnan k) as [H|[H|H]]; [left; congruence|right; congruence|]. lia. }
  apply candidate_spec in Hk as (sv & x & y & z & Hg & _ & _ & _ & Hb & _).
  exists k, sv, t. split_and!; [|exact Hg|exact Hkt|exact Hb|].
  - unfold ahp_main, ahp_concatenarServers. rewrite Hr. exact Hc.
  - clear Hc. intros j sv' Hj Hb'. destruct (candidate_exists below_ten (λ _, []) g l m u j sv') as [e' He']; try done.
    by apply (Hfirst j e').
Qed.

Lemma spread_or_flat l : l ≠ [] → Forall finite l → spread l ∨ ¬ spread l.
Proof.
  intros Hne Hl. destruct (min_max_finite l Hne Hl) as (p & q & _ & _ & Ep & Eq & Hb).
  destruct (Qlt_le_dec p q) as [Hpq|Hpq]; [left|right].
  - exists (Fin p), (Fin q). split_and!; [done..|by apply Qlt_bool_iff].
  - intros (x & y & Hx & Hy & Hxy). rewrite Forall_forall in Hl.
    destruct (Hl x Hx) as [r ->], (Hl y Hy) as [s ->]. apply Qlt_bool_iff in Hxy.
    apply Hb in Hx as [Hx _], Hy as [_ Hy]. cbn in *. lra.
Qed.

(** A log that can be read, with the servers that have enough memory first, gives
    the columns. *)
Lemma readable_good_log v a log delays s g b dp :
  readable a log delays s (g ++ b) dp →
  Forall (λ r, accepted a r = true) g → Forall (λ r, accepted a r = false) b → g ≠ [] → NoDup (sv_ip <$> g) →
  ∃ raw, good_log (usage_of v) a log delays g dp ((λ r, fin (used v s (xval (sv_free r)))) <$> g) raw ∧
    Forall finite (take (length g) dp) ∧ Forall finite raw ∧ length raw = length g ∧
    ∀ i r t, g !! i = Some r → raw !! i = Some t → migrates a delays dp s g i r t.
Proof.
  intros Hread Hg Hb Hne Hnd. pose proof Hread as [(header & lines & Hlog & Hrs) _ _ _ Hrow Hcov Hdel _].
  destruct (columns_ok v a log delays s (g ++ b) dp g b Hread (split_accepted_app _ _ _ Hg Hb))
    as (raw & Hus & Hraw & Hfin & Hm).
  pose proof (mapM_res_length _ _ _ Hraw) as Hlen. rewrite length_seqZ, Nat2Z.id in Hlen.
  exists raw. split_and!; [|apply Forall_take; eapply Forall_impl; [exact Hdel|by intros ? [? _]]|done|lia|].
  - split; try done. by exists header, lines, b.
  - intros i r t Hi Ht. destruct (Hm i r Hi) as (t' & Ht' & Hmt). by simplify_eq.
Qed.

(** C28: AHP.py, on a log that can be read, in which the servers with enough
    memory have different addresses and come first, and one of them has fewer
    than ten contents.  It prints the position and the migration time, before it
    is normalised, of a server with fewer than ten contents.  If the delays are
    not all equal, nor the migration times, it is one whose weighted sum of
    normalised delay, migration time and memory use is smallest; if the delays or
    the migration times are all equal, every score is NaN and it is simply the
    first one. *)
Theorem ahp_picks_best a log delays s g b dp
    (Hlog : readable a log delays s (g ++ b) dp)
    (Hg : Forall (λ r, accepted a r = true) g) (Hb : Forall (λ r, accepted a r = false) b)
    (Hnd : NoDup (sv_ip <$> g)) (Hsome : Exists (λ sv, below_ten (contents_count sv) = true) g) :
  ∃ raw k sv t,
    length raw = length g ∧
    (∀ i r t, g !! i = Some r → raw !! i = Some t → migrates a delays dp s g i r t) ∧
    ahp_main a log delays = Ok (k, t) ∧
    g !! k = Some sv ∧ below_ten (contents_count sv) = true ∧ raw !! k = Some t ∧
    (spread (take (length g) dp) ∧ spread raw →
       ∃ l m u x y z, normalise (take (length g) dp) = Ok l ∧ normalise raw = Ok m ∧
         normalise_usage ((λ r, fin (s / xval (sv_free r))) <$> g) = Ok u ∧
         l !! k = Some x ∧ m !! k = Some y ∧ u !! k = Some z ∧
         ∀ j sv' x' y' z', g !! j = Some sv' → below_ten (contents_count sv') = true →
           l !! j = Some x' → m !! j = Some y' → u !! j = Some z' →
           (weighted x y z <= weighted x' y' z')%Q) ∧
    (¬ spread (take (length g) dp) ∨ ¬ spread raw →
       ∀ j sv', g !! j = Some sv' → below_ten (contents_count sv') = true → (k ≤ j)%nat).
Proof.
  assert (g ≠ []) as Hne by (intros ->; by apply Exists_nil in Hsome).
  destruct (readable_good_log Ratio a log delays s g b dp Hlog Hg Hb Hne Hnd)
    as (raw & Hgood & Hdp & Hraw & Hlen & Hm).
  assert (take (length g) dp ≠ [] ∧ raw ≠ []) as [N1 N2].
  { destruct Hlog as [_ _ _ _ _ Hcov _ _]. rewrite length_app in Hcov.
    destruct g; [done|]. cbn [length] in *. by destruct dp, raw; cbn [length take] in *; try lia. }
  destruct (spread_or_flat _ N1 Hdp) as [Sdp|Sdp]; [destruct (spread_or_flat _ N2 Hraw) as [Sraw|Sraw]|].
  2, 3: destruct (ahp_equal_column a log delays g dp _ raw Hgood Hdp Hraw ltac:(auto) Hsome)
      as (k & sv & t & Hmain & Hk & Ht & Hten & Hfirst);
    exists raw, k, sv, t; split_and!; try done; by intros [].
  destruct (scored_choice ahp_choose ahp_cost weighted usage_ratio below_ten (λ _, []) a log delays g dp _ raw
    ahp_cost_finite Hgood Hdp Hraw ltac:(apply Forall_fmap, Forall_forall; intros; apply finite_fin) Sdp Sraw Hsome)
    as (l & m & u & k & sv & x & y & z & t & Hl & Hm' & Hu & Hmain & Hk & Hten & Ht & Hx & Hy & Hz & Hbest).
  exists raw, k, sv, t. split_and!; try done.
  - intros _. exists l, m, u, x, y, z. split_and!; done.
  - by intros [].
Qed.

(** What exemplo.py prints when every accepted server is in the table. *)
Section exemplo.
Context (g : list server) (delays l m u raw : list xfloat).
Context (Ll : length l = length g) (Lm : length m = length g) (Lu : length u = length g)
  (Lraw : length raw = length g) (Hnd : NoDup (sv_ip <$> g)).
Context (r : fog_result) (Hips : server_ips r = sv_ip <$> g) (Hraw : migrationTime r = raw)
  (Hitems : items (Servers r) =
    omap (entry_item (λ _, true) (λ _, [of_Z 0])) (zip (zip (sv_ip <$> g) (contents_count <$> g)) (zip (zip l m) u))).
Context (Hne : delays ≠ []) (Hdelays : Forall finite delays) (Hl : normalise delays = Ok l).

Local Abbreviation candidate := (candidate (λ _, true) (λ _, [of_Z 0]) g l m u).

Lemma all_candidates k : (k < length g)%nat → ∃ e, candidate k = Some e.
Proof.
  intros [sv Hk]%lookup_lt_is_Some_2. by apply (candidate_exists (λ _, true) (λ _, [of_Z 0]) g l m u k sv).
Qed.
Lemma some_candidate : g ≠ [] → ∃ k e, candidate k = Some e.
Proof. intros Hg. exists 0%nat. apply all_candidates. destruct g; [done|cbn; lia]. Qed.

Lemma candidate_measure k e : candidate k = Some e →
  (k < length g)%nat ∧ ∃ x y z, l !! k = Some x ∧ e.2 = [x; y; z] ++ [of_Z 0].
Proof.
  intros (sv & x & y & z & Hg & Hx & _ & _ & _ & ->)%candidate_spec.
  split; [by eapply lookup_lt_Some|]. by exists x, y, z.
Qed.

Lemma guloso_spread : g ≠ [] → spread delays →
  ∃ k d t, (selecionado ← guloso (Servers r); print_choice r selecionado) = Ok (k, t) ∧
    (k < length g)%nat ∧ raw !! k = Some t ∧ delays !! k = Some d ∧
    ∀ j d', delays !! j = Some d' → (xval d <= xval d')%Q.
Proof.
  intros Hg Hs. destruct (normalise_spread _ Hdelays Hs) as (p & q & Hpq & Hl' & _ & _ & _).
  rewrite Hl in Hl'. injection Hl' as El.
  destruct (minimal_choice _ _ g l m u raw Ll Lm Lu Lraw Hnd r Hips Hraw Hitems guloso first_measure
    (some_candidate Hg)) as (k & e & t & Hk & Hkt & Hc & Hmin).
  { intros k e (_ & x & y & z & Hx & He)%candidate_measure. unfold first_measure. rewrite He.
    rewrite El in Hx. apply list_lookup_fmap_Some in Hx as (d & -> & _). apply finite_fin. }
  destruct (candidate_measure k e Hk) as (Hlt & x & y & z & Hx & He). rewrite El in Hx.
  apply list_lookup_fmap_Some in Hx as (d & -> & Hd).
  exists k, d, t. split_and!; try done. intros j d' Hd'.
  assert (j < length g)%nat as Hj by (rewrite <-Ll, El, length_fmap; by eapply lookup_lt_Some).
  destruct (all_candidates j Hj) as [e' He']. specialize (Hmin j e' He').
  destruct (candidate_measure j e' He') as (_ & x & y' & z' & Hx & He'2).
  rewrite El, list_lookup_fmap, Hd' in Hx. injection Hx as <-.
  unfold first_measure in Hmin. rewrite He, He'2 in Hmin.
  change (xlt (scaled p q d') (scaled p q d) = false) in Hmin.
  pose proof (Forall_lookup_1 _ _ _ _ Hdelays Hd) as Fd. pose proof (Forall_lookup_1 _ _ _ _ Hdelays Hd') as Fd'.
  rewrite scaled_lt in Hmin by done. destruct Fd as [v ->], Fd' as [v' ->]. by apply Qlt_bool_false in Hmin.
Qed.

Lemma guloso_flat : g ≠ [] → ¬ spread delays →
  ∃ k d t, (selecionado ← guloso (Servers r); print_choice r selecionado) = Ok (k, t) ∧
    (k < length g)%nat ∧ raw !! k = Some t ∧ delays !! k = Some d ∧
    ∀ j d', delays !! j = Some d' → (xval d <= xval d')%Q.
Proof.
  intros Hg Hs. pose proof (normalise_flat _ Hne Hdelays Hs) as Hl'. rewrite Hl in Hl'. injection Hl' as El.
  destruct (blind_choice _ _ g l m u raw Ll Lm Lu Lraw Hnd r Hips Hraw Hitems guloso first_measure
    (some_candidate Hg)) as (k & e & t & Hk & Hkt & Hc & _).
  { intros k e (_ & x & y & z & Hx & He)%candidate_measure. unfold first_measure. rewrite He.
    rewrite El in Hx. by apply list_lookup_fmap_Some in Hx as (d & -> & _). }
  destruct (candidate_measure k e Hk) as (Hlt & x & y & z & Hx & _). rewrite El in Hx.
  apply list_lookup_fmap_Some in Hx as (d & _ & Hd).
  exists k, d, t. split_and!; try done. intros j d' Hd'. apply Qnot_lt_le. intros Hlt'. apply Hs.
  exists d', d. split_and!; [by eapply list_elem_of_lookup_2..|].
  destruct (Forall_lookup_1 _ _ _ _ Hdelays Hd) as [? ->], (Forall_lookup_1 _ _ _ _ Hdelays Hd') as [? ->].
  by apply Qlt_bool_iff.
Qed.

Lemma aleatorio_print rnd : (rnd (length g) < length g)%nat →
  ∃ t, raw !! rnd (length g) = Some t ∧
    (selecionado ← aleatorio rnd (server_ips r); print_choice r selecionado) = Ok (rnd (length g), t).
Proof.
  intros Hrnd. destruct (all_candidates _ Hrnd) as [e He].
  destruct (print_candidate _ _ g l m u raw Lraw Hnd r Hips Hraw _ e He) as (t & Hkt & Hp).
  apply candidate_ip in He. exists t. split; [done|].
  unfold aleatorio. rewrite Hips, length_fmap, He. cbn [mbind res_bind res_of_option]. exact Hp.
Qed.
End exemplo.

(** Exemplo.py on a log whose accepted servers come first.  The greedy choice
    is a server with the smallest delay from the client's position, whether the
    delays differ or not; the random choice is the server at the position that
    the generator drew among all the accepted ones. *)
Theorem exemplo_choices a log delays g dp us raw
    (Hlog : good_log usage_ratio a log delays g dp us raw)
    (Hdp : Forall finite (take (length g) dp)) :
  (∀ rnd, ∃ k d t, exemplo_main rnd (str "guloso") a log delays = Ok (k, t) ∧ (k < length g)%nat ∧
     raw !! k = Some t ∧ dp !! k = Some d ∧
     ∀ j d', (j < length g)%nat → dp !! j = Some d' → (xval d <= xval d')%Q) ∧
  (∀ rnd Type_, Type_ ≠ str "guloso" → (rnd (length g) < length g)%nat →
     ∃ t, raw !! rnd (length g) = Some t ∧ exemplo_main rnd Type_ a log delays = Ok (rnd (length g), t)).
Proof.
  destruct (good_log_result _ (λ _, true) (λ _, [of_Z 0]) _ _ _ _ _ _ _ Hlog)
    as (l & m & u & r & Hl & Hm & Hu & Ll & Lm & Lu & Lr & Hr & Hip & Ht & Hi).
  pose proof (gl_nodup _ _ _ _ _ _ _ _ Hlog) as Hnd. pose proof (gl_nonempty _ _ _ _ _ _ _ _ Hlog) as Hg.
  assert (take (length g) dp ≠ []) as Hne by (intros Hn; by rewrite Hn in Hl).
  split; intros rnd; unfold exemplo_main, exemplo_concatenarServers; rewrite Hr; cbn [mbind res_bind].
  - assert (∃ k d t, (selecionado ← guloso (Servers r); print_choice r selecionado) = Ok (k, t) ∧
      (k < length g)%nat ∧ raw !! k = Some t ∧ take (length g) dp !! k = Some d ∧
      ∀ j d', take (length g) dp !! j = Some d' → (xval d <= xval d')%Q) as (k & d & t & Hc & Hk & Hkt & Hd & Hmin).
    { destruct (spread_or_flat _ Hne Hdp); [apply (guloso_spread g _ l m u raw Ll Lm Lu Lr Hnd r Hip Ht Hi Hdp Hl Hg)
        |apply (guloso_flat g _ l m u raw Ll Lm Lu Lr Hnd r Hip Ht Hi Hne Hdp Hl Hg)]; assumption. }
    rewrite lookup_take_lt in Hd by done. exists k, d, t. split_and!; try done.
    intros j d' Hj Hd'. apply (Hmin j). by rewrite lookup_take_lt.
  - intros Type_ Hty Hrnd. rewrite bool_decide_false by done.
    exact (aleatorio_print g l m u raw Ll Lm Lu Lr Hnd r Hip Ht rnd Hrnd).
Qed.

Lemma measures_sum_finite ip x y z v :
  finite x → finite y → finite z →
  ∃ q, measures_sum (ip, [x; y; z] ++ v) = Fin q ∧ (q == xval x + xval y + xval z)%Q.
Proof.
  intros [p ->] [q ->] [r ->]. eexists. split; [reflexivity|]. by rewrite !Qred_correct.
Qed.

(** PliLocal.py on a log whose accepted servers come first, when docplex finds
    an optimal solution: the printed server has fewer than ten contents and a
    smallest unweighted sum of the three normalised measures.  Memory use is here
    the free memory that would be left, so among servers equal otherwise the one
    with the least memory left wins. *)
Theorem pliLocal_picks_best solve a log delays g dp us raw
    (Hsolve : solves solve) (Hlog : good_log usage_left a log delays g dp us raw)
    (Hdp : Forall finite (take (length g) dp)) (Hraw : Forall finite raw) (Hus : Forall finite us)
    (Sdp : spread (take (length g) dp)) (Sraw : spread raw)
    (Hsome : Exists (λ sv, below_ten (contents_count sv) = true) g) :
  ∃ l m u k sv x y z t,
    normalise (take (length g) dp) = Ok l ∧ normalise raw = Ok m ∧ normalise_usage us = Ok u ∧
    pliLocal_main solve a log delays = Ok (k, t) ∧
    g !! k = Some sv ∧ below_ten (contents_count sv) = true ∧ raw !! k = Some t ∧
    l !! k = Some x ∧ m !! k = Some y ∧ u !! k = Some z ∧
    ∀ j sv' x' y' z', g !! j = Some sv' → below_ten (contents_count sv') = true →
      l !! j = Some x' → m !! j = Some y' → u !! j = Some z' →
      (xval x + xval y + xval z <= xval x' + xval y' + xval z')%Q.
Proof.
  pose proof (pliLocal_minimises solve Hsolve) as Hinst.
  exact (scored_choice (pliLocal_choose solve) measures_sum (λ x y z, xval x + xval y + xval z)%Q
    usage_left below_ten (λ b, [of_Z b]) a log delays g dp us raw
    measures_sum_finite Hlog Hdp Hraw Hus Sdp Sraw Hsome).
Qed.

(** ** Helpers that do less than their names say *)

(** With the sums that the constructor sets, [Normaliza] gives 0 to every server. *)
Lemma Normaliza_zero parametro :
  ∃ d, Normaliza init_soma parametro = Ok d ∧ items d = (λ e, (e.1, of_Z 0)) <$> items parametro.
Proof. apply (map_dict_items (normalize_one init_soma) (λ _, of_Z 0)). intros e _. reflexivity. Qed.

(** [Distanciaeuclidiana] is the sum of the differences, so two opposite ones
    cancel; and its argument loses the server that is asked about. *)
Example distance_not_euclidean :
  (Distanciaeuclidiana (dset (str "b") [of_Z 3; of_Z 0; of_Z 0] (dset (str "a") [of_Z 0; of_Z 3; of_Z 0] dempty))
     (str "a") ≫= λ r, Ok (items r.1, (items r.2).*1)) = Ok ([(str "b", of_Z 0)], [str "b"]).
Proof. vm_compute. reflexivity. Qed.

(** ** Stalls *)

(** The stall that a line reports: its server and its duration. *)
Definition stall_of (line : pystr) : res exn (option (stall_server * xfloat)) :=
  let fields := split_char ";" line in
  if (length fields <? 5)%nat then mret None
  else
    address ← nth_arg fields 0;
    s3 ← nth_arg fields 3;
    t ← py_float s3;
    mret (Some (stall_class address, t)).
Fixpoint present {A} (l : list (option A)) : list A :=
  match l with [] => [] | o :: l => option_list o ++ present l end.
Definition stalls_of (text : pystr) : res exn (list (stall_server * xfloat)) :=
  os ← mapM_res stall_of (drop 1 (readlines text)); mret (present os).

Definition of_server (c : stall_server) (rows : list (stall_server * xfloat)) : list (stall_server * xfloat) :=
  filter (λ r, r.1 = c) rows.
Definition stall_times (c : stall_server) (rows : list (stall_server * xfloat)) : xfloat :=
  xsum (snd <$> of_server c rows).
(** The number of files that mention the server. *)
Definition files_with (c : stall_server) (files : list (list (stall_server * xfloat))) : nat :=
  length (filter (λ rows, of_server c rows ≠ []) files).

Lemma xsum_snoc (l : list (stall_server * xfloat)) d t : xsum (l ++ [(d, t)]).*2 = xadd (xsum l.*2) t.
Proof. unfold xsum. by rewrite fmap_app, fold_left_app. Qed.

Lemma of_server_snoc c rows d t :
  of_server c (rows ++ [(d, t)]) = of_server c rows ++ if decide (d = c) then [(d, t)] else [].
Proof. unfold of_server. rewrite filter_app, filter_cons, filter_nil. cbn. by destruct (decide (d = c)). Qed.

(** The state after the rows [rows], of which [here] are those of the current
    file; [full] are the files before. *)
Definition stall_inv (full : list (list (stall_server * xfloat))) (here : list (stall_server * xfloat))
    (st : stalls * list stall_server) : Prop :=
  ∀ c, Nstalls st.1 c = Z.of_nat (length (of_server c (concat full ++ here))) ∧
       timeTotal st.1 c = stall_times c (concat full ++ here) ∧
       Clients st.1 c = Z.of_nat (files_with c full) + (if decide (of_server c here = []) then 0 else 1) ∧
       (c ∈ st.2 ↔ of_server c here ≠ []).

Lemma stall_line_inv full here st line o :
  stall_of line = Ok o → stall_inv full here st →
  ∃ st', stall_line st line = Ok st' ∧ stall_inv full (here ++ option_list o) st'.
Proof.
  unfold stall_of, stall_line. destruct st as [s seen]. destruct (length _ <? 5)%nat.
  { intros [= <-] HI. exists (s, seen). cbn. by rewrite app_nil_r. }
  intros (address & -> & (s3 & -> & (t & Ht & [= <-])%bind_ok_inv)%bind_ok_inv)%bind_ok_inv HI.
  cbn [mbind res_bind option_list]. set (d := stall_class address).
  destruct (bool_decide (d ∈ seen)) eqn:Hd; cbn [mbind res_bind]; rewrite Ht; cbn [mbind res_bind];
    eexists; (split; [done|]); intros c; destruct (HI c) as (H1 & H2 & H3 & H4);
    destruct (HI d) as (D1 & D2 & D3 & D4); cbn [fst snd] in *;
    [apply bool_decide_eq_true in Hd|apply bool_decide_eq_false in Hd];
    unfold bump, stall_times in *; cbn [Nstalls timeTotal Clients];
    change (option_list (Some (d, t))) with [(d, t)];
    rewrite !app_assoc, !of_server_snoc; destruct (decide (d = c)) as [<-|Hne];
    rewrite ?decide_True, ?(decide_False (P := c = d)) by congruence; rewrite ?app_nil_r; try done.
  - rewrite xsum_snoc, length_app, D1, D2. cbn [length]. split_and!; [lia|done| |].
    + rewrite H3, !decide_False; [done|by intros [_ ?]%app_nil|by apply D4].
    + split; [|done]. by intros _ [_ ?]%app_nil.
  - rewrite xsum_snoc, length_app, D1, D2. cbn [length]. split_and!; [lia|done| |].
    + assert (of_server d here = []) as E.
      { destruct (of_server d here) eqn:E; [done|]. exfalso. apply Hd, D4. done. }
      rewrite H3, E. rewrite decide_True, decide_False by done. lia.
    + split; [by intros _ [_ ?]%app_nil|]. by left.
  - split; [done|]. split; [done|]. split; [done|]. rewrite elem_of_cons, <-H4.
    split; [by intros [-> | ?]|by right].
Qed.

Lemma stall_lines_inv full lines os : ∀ here st,
  mapM_res stall_of lines = Ok os → stall_inv full here st →
  ∃ st', fold_res stall_line st lines = Ok st' ∧ stall_inv full (here ++ present os) st'.
Proof.
  revert os. induction lines as [|line lines IH]; intros os here st; cbn.
  - intros [= <-] HI. exists st. by rewrite app_nil_r.
  - intros (o & Ho & (os' & Hos & [= <-])%bind_ok_inv)%bind_ok_inv HI.
    destruct (stall_line_inv full here st line o Ho HI) as (st' & -> & HI').
    destruct (IH os' _ st' Hos HI') as (st'' & Hst'' & HI''). exists st''. split; [done|].
    by rewrite <-app_assoc in HI''.
Qed.

Lemma files_with_snoc c full rows :
  files_with c (full ++ [rows]) = (files_with c full + if decide (of_server c rows = []) then 0 else 1)%nat.
Proof.
  unfold files_with. rewrite filter_app, length_app, filter_cons, filter_nil.
  destruct (decide (of_server c rows = [])); [rewrite decide_False by tauto|rewrite decide_True by done]; done.
Qed.

Lemma stall_files_inv files rowss : ∀ full s,
  mapM_res stalls_of files = Ok rowss → stall_inv full [] (s, []) →
  ∃ s', fold_res stall_file s files = Ok s' ∧ stall_inv (full ++ rowss) [] (s', []).
Proof.
  revert rowss. induction files as [|text files IH]; intros rowss full s; cbn.
  - intros [= <-] HI. exists s. by rewrite app_nil_r.
  - intros (rows & (os & Hos & [= <-])%bind_ok_inv & (rest & Hrest & [= <-])%bind_ok_inv)%bind_ok_inv HI.
    destruct (stall_lines_inv full _ os [] _ Hos HI) as ([s' seen] & Hs' & HI').
    unfold stall_file at 1. rewrite Hs'. cbn.
    destruct (IH rest (full ++ [present os]) s' Hrest) as (s'' & Hs'' & HI'').
    + intros c. destruct (HI' c) as (H1 & H2 & H3 & _). cbn [fst snd] in *.
      rewrite concat_app. cbn [concat]. rewrite !app_nil_r, files_with_snoc. cbn [app] in H1, H2, H3.
      split_and!; [done..| |].
      * rewrite H3, (decide_True (P := of_server c [] = [])) by done. case_decide; lia.
      * split; [by intros ?%elem_of_nil|done].
    + exists s''. split; [done|]. by rewrite <-app_assoc in HI''.
Qed.

(** StallRebuffer.py.  When every line with five fields or more holds a number
    in its fourth field, the result counts each stall exactly once, under the
    server of its address and under the cloud when the address is none of the
    known ones, and adds up its time; the header line of each file and shorter
    lines do not count. *)
Theorem stalls_counted files rowss (Hfiles : mapM_res stalls_of files = Ok rowss) :
  ∃ s, bufferUnderrunGraphs files = Ok s ∧
    (∀ c, Nstalls s c = Z.of_nat (length (of_server c (concat rowss))) ∧
          timeTotal s c = stall_times c (concat rowss) ∧
          Clients s c = Z.of_nat (files_with c rowss)) ∧
    Nstalls s S1 + Nstalls s S2 + Nstalls s S3 + Nstalls s Cloud = Z.of_nat (length (concat rowss)).
Proof.
  destruct (stall_files_inv files rowss [] no_stalls Hfiles) as (s & Hs & HI).
  { intros c. cbn. split_and!; try done. split; [by intros ?%elem_of_nil|done]. }
  exists s. cbn [app] in HI. split; [done|]. split.
  - intros c. destruct (HI c) as (H1 & H2 & H3 & _). cbn [fst] in *. rewrite app_nil_r in H1, H2.
    split_and!; [done..|]. rewrite H3, (decide_True (P := of_server c [] = [])) by done. lia.
  - destruct (HI S1) as (E1 & _), (HI S2) as (E2 & _), (HI S3) as (E3 & _), (HI Cloud) as (E4 & _).
    cbn [fst] in *. rewrite E1, E2, E3, E4, app_nil_r. generalize (concat rowss) as rows. clear.
    induction rows as [|[c t] rows IH]; [done|]. unfold of_server in *.
    rewrite !filter_cons. cbn [fst length].
    destruct c; repeat (case_decide; try done); cbn [length]; lia.
Qed.

Definition sample_stalls : pystr :=
  concat ((.++ [newline]) <$> [str "server;a;b;time;x"; str "1.0.0.1;a;b;2.5;x"; str "9.9.9.9;a;b;1;x"; str "short"]).
Lemma stalls_counted_witness :
  ∃ s, bufferUnderrunGraphs [sample_stalls; sample_stalls] = Ok s ∧ Nstalls s S1 = 2 ∧ Clients s Cloud = 2 ∧
    timeTotal s S1 = of_Z 5.
Proof.
  destruct (stalls_counted [sample_stalls; sample_stalls]
    [[(S1, Fin (5 # 2)); (Cloud, of_Z 1)]; [(S1, Fin (5 # 2)); (Cloud, of_Z 1)]]) as (s & Hs & Hc & _).
  { vm_compute. reflexivity. }
  exists s. destruct (Hc S1) as (H1 & H2 & _), (Hc Cloud) as (_ & _ & H3).
  split_and!; [exact Hs|rewrite H1; vm_compute; reflexivity|rewrite H3; vm_compute; reflexivity|
    rewrite H2; vm_compute; reflexivity].
Defined.

(** ** Delays *)

(** A ten by ten matrix with [pre] written by rows and zeros after it. *)
Definition grid (m : matrix) (pre : vector) : Prop :=
  length m = 10%nat ∧ ∀ k row, m !! k = Some row → length row = 10%nat ∧
    ∀ i, (i < 10)%nat → row !! i = Some (default (of_Z 0) (pre !! (10 * k + i)%nat)).

Lemma grid_set m pre d k j :
  grid m pre → (j < 10)%nat → length pre = (10 * k + j)%nat →
  if decide (k < 10)%nat then ∃ m', matrix_set m k j d = Ok m' ∧ grid m' (pre ++ [d])
  else matrix_set m k j d = Raise IndexError.
Proof.
  intros [Hlen Hrow] Hj Hpre. unfold matrix_set. case_decide as Hk.
  - destruct (lookup_lt_is_Some_2 m k) as [row Hm]; [lia|]. destruct (Hrow k row Hm) as [Hr Hi].
    rewrite Hm. cbn [res_of_option mbind res_bind]. rewrite decide_True by lia.
    eexists. split; [done|]. split; [by rewrite length_insert|].
    intros k' row' Hm'. rewrite list_lookup_insert_Some in Hm'.
    destruct Hm' as [(<- & <- & _)|[Hne Hm']].
    + rewrite length_insert. split; [done|]. intros i Hi'. destruct (decide (i = j)) as [->|Hij].
      * rewrite list_lookup_insert_eq by lia. rewrite list_lookup_middle by lia. done.
      * rewrite list_lookup_insert_ne, Hi by done. do 2 f_equal.
        destruct (decide (i < j)%nat); [by rewrite lookup_app_l by lia|].
        rewrite !lookup_ge_None_2; [done|rewrite length_app; cbn; lia|lia].
    + destruct (Hrow k' row' Hm') as [Hr' Hi']. split; [done|]. intros i Hlt. rewrite Hi' by done.
      do 2 f_equal. destruct (decide (k' < k)%nat); [by rewrite lookup_app_l by lia|].
      rewrite !lookup_ge_None_2; [done|rewrite length_app; cbn; lia|lia].
  - by rewrite lookup_ge_None_2 by lia.
Qed.

Lemma fill_delays_spec args : ∀ vs pre m j k,
  mapM_res delay_value args = Ok vs → (j ≤ 10)%nat → length pre = (10 * k + j)%nat →
  (length pre ≤ 100)%nat → grid m pre →
  if decide (length pre + length vs ≤ 100)%nat
  then ∃ m', fill_delays m j k args = Ok m' ∧ grid m' (pre ++ vs)
  else fill_delays m j k args = Raise IndexError.
Proof.
  induction args as [|s args IH]; intros vs pre m j k; cbn [mapM_res].
  - intros [= <-] Hj Hpre Hle Hg. cbn [length]. rewrite decide_True by lia.
    exists m. by rewrite app_nil_r.
  - intros (d & Hd & (vs' & Hvs & [= <-])%bind_ok_inv)%bind_ok_inv Hj Hpre Hle Hg.
    cbn [fill_delays].
    assert (∃ j' k', (if (10 <=? j)%nat then (0%nat, S k) else (j, k)) = (j', k') ∧
      (j' < 10)%nat ∧ length pre = (10 * k' + j')%nat) as (j' & k' & -> & Hj' & Hpre').
    { destruct (Nat.leb_spec 10 j); eexists _, _; (split; [done|]); lia. }
    rewrite Hd. cbn [mbind res_bind length].
    pose proof (grid_set m pre d k' j' Hg Hj' Hpre') as Hset. destruct (decide (k' < 10)%nat).
    + destruct Hset as (m' & -> & Hg'). cbn [mbind res_bind].
      specialize (IH vs' (pre ++ [d]) m' (S j') k' Hvs ltac:(lia)).
      rewrite length_app in IH. cbn [length] in IH.
      specialize (IH ltac:(lia) ltac:(lia) Hg').
      replace (length pre + 1 + length vs')%nat with (length pre + S (length vs'))%nat in IH by lia.
      case_decide; [|done]. by rewrite <-app_assoc in IH.
    + rewrite Hset. by rewrite decide_False by lia.
Qed.

(** Delays.py.  When every argument is a delay, the first hundred fill the
    matrix by rows, in order, each halved, the entries without an argument stay
    0, and a hundred and first argument is an [IndexError]. *)
Theorem delays_fill argv vs (Hvs : mapM_res delay_value (drop 3 argv) = Ok vs) :
  if decide (length vs ≤ 100)%nat
  then ∃ m, delays_main argv = Ok m ∧ length m = 10%nat ∧
    ∀ k i, (k < 10)%nat → (i < 10)%nat →
      matrix_get m (Z.of_nat k) (Z.of_nat i) = Ok (default (of_Z 0) (vs !! (10 * k + i)%nat))
  else delays_main argv = Raise IndexError.
Proof.
  pose proof (fill_delays_spec (drop 3 argv) vs [] (replicate 10 (replicate 10 (of_Z 0))) 0 0 Hvs) as H.
  cbn [length Nat.add] in H. unfold delays_main.
  specialize (H ltac:(lia) eq_refl ltac:(lia)). destruct (decide (length vs ≤ 100)%nat).
  - destruct H as (m & Hm & Hlen & Hrow).
    { split; [done|]. intros k row [-> Hk]%lookup_replicate. rewrite length_replicate. split; [done|].
      intros i Hi. by rewrite lookup_replicate_2 by done. }
    exists m. split_and!; [done..|]. intros k i Hk Hi.
    destruct (lookup_lt_is_Some_2 m k) as [row Hr]; [lia|]. destruct (Hrow k row Hr) as [_ Hri].
    unfold matrix_get. rewrite py_get_nat, Hr. cbn [res_of_option mbind res_bind].
    by rewrite py_get_nat, Hri.
  - apply H. split; [done|]. intros k row [-> Hk]%lookup_replicate. rewrite length_replicate. split; [done|].
    intros i Hi. by rewrite lookup_replicate_2 by done.
Qed.

Lemma delays_fill_witness :
  ∃ m, delays_main [str "Delays.py"; str "d/"; str "0"; str "+22000000.0ns12345678"; str "+7.0xxxxxxxxxx"] = Ok m ∧
    matrix_get m 0 1 = Ok (Fin (7 # 2)) ∧ matrix_get m 9 9 = Ok (of_Z 0).
Proof.
  destruct (delays_fill [str "Delays.py"; str "d/"; str "0"; str "+22000000.0ns12345678"; str "+7.0xxxxxxxxxx"]
    [of_Z 11000000; Fin (7 # 2)] ltac:(vm_compute; reflexivity)) as (m & Hm & _ & Hget).
  exists m. split_and!; [exact Hm|apply (Hget 0%nat 1%nat); lia|apply (Hget 9%nat 9%nat); lia].
Defined.

(** ** The sample log *)

Definition sample_us : vector := [Fin (1 # 5); Fin (1 # 8); Fin (1 # 9)].
Definition sample_left : vector := [of_Z 400; of_Z 700; of_Z 800].
Definition sample_raw : vector := [Fin (15625 # 16384); of_Z 0; Fin (15625 # 16384)].
Definition sample_solve (costs : list (pystr * xfloat)) : option (list pystr) :=
  match costs with [] => None | c :: cs => Some [(min_by (λ x y, xlt x.2 y.2) c cs).1] end.

Definition sample_flat : matrix := map of_Z <$> [[5; 5; 5]; [1; 1; 1]; [1; 1; 1]].

Lemma sample_solves : solves sample_solve.
Proof.
  intros [|c cs] Hne Hfin; [done|]. apply Forall_cons in Hfin as Hf. destruct Hf as [Hc Hcs].
  assert (WeakOrder (λ x : pystr * xfloat, finite x.2) (λ x y, xlt x.2 y.2)) as Hw
    by apply (key_weak snd finite xlt), _.
  pose proof (min_by_first (λ x : pystr * xfloat, finite x.2) (λ x y, xlt x.2 y.2) cs c Hc Hcs) as Hm.
  exists (min_by (λ x y, xlt x.2 y.2) c cs). split_and!; [done|by eapply first_min_elem|].
  intros c' Hc'.
  exact (first_min_min (λ x : pystr * xfloat, finite x.2) (λ x y, xlt x.2 y.2) (c :: cs) _ c' Hfin Hm Hc').
Qed.

Lemma sample_good_log usage us :
  mapM_res (usage (of_Z 100)) (sv_free <$> sample_servers) = Ok us →
  good_log usage (sample_args 100) sample_log sample_delays sample_servers
    (of_Z <$> [22; 10; 31; 1; 1; 1; 1; 6]) us sample_raw.
Proof.
  intros Hus. destruct sample_lines_read as [Hlog Hrs]. split.
  - eexists _, _, []. split_and!; [exact Hlog|exact Hrs|repeat constructor|constructor|cbn; lia].
  - reflexivity.
  - exact Hus.
  - vm_compute. reflexivity.
  - discriminate.
  - apply (bool_decide_unpack _). vm_compute. exact I.
Qed.

Lemma sample_finite l : forallb (λ x, match x with Fin _ => true | _ => false end) l = true → Forall finite l.
Proof.
  induction l as [|[q|s|] l IH]; cbn; try done. intros Hl. constructor; [by exists q|auto].
Qed.
Lemma sample_spreads : spread (take 3 (of_Z <$> [22; 10; 31; 1; 1; 1; 1; 6])) ∧ spread sample_raw.
Proof.
  split; [exists (of_Z 22), (of_Z 31)|exists (of_Z 0), (Fin (15625 # 16384))];
    (split_and!; [cbn; set_solver..|reflexivity]).
Qed.

Lemma sample_all_accepted :
  Forall (λ r, accepted (sample_args 100) r = true) sample_servers ∧ NoDup (sv_ip <$> sample_servers).
Proof. split; [repeat constructor|apply (bool_decide_unpack _); vm_compute; exact I]. Qed.

(** The second server holds the content: it is the best one, and nothing moves. *)
Lemma ahp_picks_best_witness :
  (∃ k t sv, ahp_main (sample_args 100) sample_log sample_delays = Ok (k, t) ∧ sample_servers !! k = Some sv ∧
     migrates (sample_args 100) sample_delays (of_Z <$> [22; 10; 31; 1; 1; 1; 1; 6]) 100 sample_servers k sv t) ∧
  ahp_main (sample_args 100) sample_log sample_delays = Ok (1%nat, of_Z 0).
Proof.
  destruct sample_all_accepted as [Hacc Hnd]. split; [|vm_compute; reflexivity].
  destruct (ahp_picks_best (sample_args 100) sample_log sample_delays 100 sample_servers [] _
    (sample_readable 100 100 ltac:(lra) eq_refl) Hacc ltac:(constructor) Hnd ltac:(left; reflexivity))
    as (raw & k & sv & t & _ & Hm & Hmain & Hk & _ & Ht & _).
  exists k, t, sv. split_and!; [exact Hmain|exact Hk|]. by apply Hm.
Defined.

Lemma ahp_equal_column_witness :
  ∃ k t, ahp_main (sample_args 100) sample_log sample_flat = Ok (k, t) ∧
    (k ≤ 0)%nat.
Proof.
  destruct sample_lines_read as [Hlog Hrs].
  destruct (ahp_equal_column (sample_args 100) sample_log sample_flat
    sample_servers (of_Z <$> [5; 5; 5]) sample_us [Fin (5 # 6); of_Z 0; Fin (5 # 6)])
    as (k & sv & t & Hmain & _ & _ & _ & Hfirst).
  - split.
    + eexists _, _, []. split_and!; [exact Hlog|exact Hrs|repeat constructor|constructor|cbn; lia].
    + reflexivity.
    + vm_compute. reflexivity.
    + vm_compute. reflexivity.
    + discriminate.
    + apply (bool_decide_unpack _). vm_compute. exact I.
  - apply sample_finite; reflexivity.
  - apply sample_finite; reflexivity.
  - left. intros (x & y & Hx & Hy & Hxy). cbn in Hx, Hy.
    assert (x = of_Z 5 ∧ y = of_Z 5) as [-> ->] by set_solver. done.
  - left. reflexivity.
  - exists k, t. split; [exact Hmain|]. by apply (Hfirst 0%nat (Server (of_Z 1000) (of_Z 500) (str "1.0.0.1") [str "3"; str "4"])).
Defined.

Lemma exemplo_choices_witness :
  (∃ k t, exemplo_main (λ _, 2%nat) (str "guloso") (sample_args 100) sample_log sample_delays = Ok (k, t)) ∧
  ∃ t, exemplo_main (λ _, 2%nat) (str "ale") (sample_args 100) sample_log sample_delays = Ok (2%nat, t).
Proof.
  destruct (exemplo_choices (sample_args 100) sample_log sample_delays sample_servers _ sample_us sample_raw
    (sample_good_log usage_ratio sample_us ltac:(vm_compute; reflexivity))
    ltac:(apply sample_finite; reflexivity)) as [Hg Ha].
  destruct (Hg (λ _, 2%nat)) as (k & d & t & Hk & _). destruct (Ha (λ _, 2%nat) (str "ale")) as (t' & _ & Ht').
  - vm_compute. discriminate.
  - cbn. lia.
  - split; [exists k, t; exact Hk|exists t'; exact Ht'].
Defined.

Lemma pliLocal_picks_best_witness :
  ∃ k t, pliLocal_main sample_solve (sample_args 100) sample_log sample_delays = Ok (k, t).
Proof.
  destruct sample_spreads as [S1 S2].
  destruct (pliLocal_picks_best sample_solve (sample_args 100) sample_log sample_delays sample_servers _
    sample_left sample_raw sample_solves (sample_good_log usage_left sample_left ltac:(vm_compute; reflexivity))
    ltac:(apply sample_finite; reflexivity) ltac:(apply sample_finite; reflexivity)
    ltac:(apply sample_finite; reflexivity) S1 S2 ltac:(left; reflexivity))
    as (l & m & u & k & sv & x & y & z & t & _ & _ & _ & Hmain & _).
  exists k, t. exact Hmain.
Defined.
