(* ===== verification/Graficos.v ===== *)
(** * Fog4VR: statistics of the simulations

    What graficos2.py and graficos.py compute from the logs before they plot it:
    the bitrates and clients per server of [qualityGraphs], the throughput of
    [throughtputServer], the bars of [barGraphs], the cost of [graphtotals], and
    [playbackStart], [StallsRebuffers] and [fogStatus].  A file is its text, a
    table that pandas reads is the record of its columns, and the files of a
    simulation come in the order of [glob].  NumPy's square root and standard
    deviation are parameters; plots are not modelled. *)
From Stdlib Require Import Ascii String.
From S2P Require Export FogPolicy.
Open Scope Z_scope.

(** ** NumPy *)

(** [np.mean]: NaN for an empty array. *)
Definition np_mean (v : vector) : xfloat := np_div (xsum v) (of_Z (Z.of_nat (length v))).
Definition not_nan (x : xfloat) : bool := match x with NaN => false | _ => true end.
Definition nan_mean (v : vector) : xfloat := np_mean (base.filter (λ x, not_nan x = true) v).
Definition zeros (n : nat) : vector := replicate n (of_Z 0).
(** Sum and mean of the rows of a matrix. *)
Definition width (m : matrix) : nat := match m with [] => 0 | row :: _ => length row end.
Definition sum_columns (m : matrix) : vector := (λ j, xsum (column m j)) <$> seq 0 (width m).
Definition divide_by (n : Z) (v : vector) : vector := (λ x, np_div x (of_Z n)) <$> v.
Definition mean_columns (m : matrix) : vector := divide_by (Z.of_nat (length m)) (sum_columns m).
(** [a[i] = a[i] + x] *)
Definition add_at (i : nat) (x : xfloat) (a : vector) : res exn vector :=
  old ← res_of_option IndexError (a !! i); mret (<[i := xadd old x]> a).
(** [int(x)] *)
Definition int_of_float (x : xfloat) : res exn Z :=
  match x with Fin q => mret (Qtrunc q) | Inf _ => Raise OverflowError | NaN => Raise ValueError end.
(** [l[k::n]] *)
Definition stride {A} (k n : nat) (l : list A) : list A :=
  omap (λ i, l !! (k + n * i)%nat) (seq 0 (length l)).

(** The index of fairness of Jain. *)
Definition fairness_index (v : vector) : xfloat :=
  np_div (xmul (xsum v) (xsum v)) (xmul (of_Z (Z.of_nat (length v))) (xsum ((λ x, xmul x x) <$> v))).

(** ** [toBitrate] and [divisor] *)

(** Both change or fill a list of floats, one place at a time. *)
Definition bitrate (x : xfloat) : xfloat :=
  let line a b c := xadd (xmul (of_Z a) (xsub x (of_Z b))) (of_Z c) in
  if xeqb x (of_Z (-1)) then of_Z 0
  else if xle x (of_Z 1) then line 250 0 400
  else if xle x (of_Z 2) then line 350 1 650
  else if xle x (of_Z 3) then line 500 2 1000
  else if xle x (of_Z 4) then line 750 3 1500
  else if xle x (of_Z 5) then line 1150 4 2250
  else line 1300 5 3400.
Definition toBitrate (vet : vector) : vector := bitrate <$> vet.

Fixpoint divisor (vet1 vet2 : vector) : res exn vector :=
  match vet1, vet2 with
  | [], _ => mret []
  | x :: vet1, y :: vet2 =>
      let q := if xzero y then of_Z (-1) else np_div x y in
      resp ← divisor vet1 vet2; mret (q :: resp)
  | _ :: _, [] => Raise IndexError
  end.

(** ** [qualityGraphs] *)

(** The lines after the header; [next] stops the script on an empty file. *)
Definition lines_after_header (text : pystr) : res exn (list pystr) :=
  match readlines text with [] => Raise StopIteration | _ :: lines => mret lines end.

Record playback : Type := Playback { segment : xfloat; qualityLevel : xfloat; Server : pystr }.
Definition playback_line (line : pystr) : res exn playback :=
  let fields := split_char ";" line in
  s ← nth_arg fields 0; segment ← py_float s;
  q ← nth_arg fields 2; level ← py_float q;
  server ← nth_arg fields 3;
  mret (Playback segment level server).
Definition playback_rows (text : pystr) : res exn (list playback) :=
  lines ← lines_after_header text; mapM_res playback_line lines.

(** The sums of the levels and the numbers of clients, per server and segment. *)
Record tally : Type := Tally { Quality : stall_server → vector; Watching : stall_server → vector }.
Record switches : Type := Switches { bitSwitch : Z; bitSwitchUp : Z; bitSwitchDown : Z }.
(** The best and the worst client so far. *)
Record extremes : Type := Extremes {
  bestScore : xfloat; worstScore : xfloat; bestClient : list playback; worstClient : list playback;
}.
Definition zero_tally (numSegments : nat) : tally := Tally (λ _, zeros numSegments) (λ _, zeros numSegments).
Definition no_switches : switches := Switches 0 0 0.
Definition no_extremes : extremes := Extremes (of_Z (-1)) (of_Z 10000000) [] [].

Definition ClientScore (rows : list playback) : xfloat := xsum (qualityLevel <$> rows).
Definition compare_client (e : extremes) (rows : list playback) : extremes :=
  if xlt (bestScore e) (ClientScore rows)
  then Extremes (ClientScore rows) (worstScore e) rows (worstClient e)
  else if xlt (ClientScore rows) (worstScore e)
  then Extremes (bestScore e) (ClientScore rows) (bestClient e) rows
  else e.

(** The loop over [zip(segment, segment[1:], ...)] stops before the last row. *)
Definition count_segment (t : tally) (p : nat * playback) : res exn tally :=
  let c := stall_class (Server p.2) in
  q ← add_at p.1 (qualityLevel p.2) (Quality t c);
  n ← add_at p.1 (of_Z 1) (Watching t c);
  mret (Tally (bump c q (Quality t)) (bump c n (Watching t))).
Definition shown_segments (rows : list playback) : list (nat * playback) :=
  imap pair (take (length rows - 1) rows).
Definition count_switch (s : switches) (p : xfloat * xfloat) : switches :=
  if xeqb p.2 p.1 then s
  else if xlt p.1 p.2 then Switches (bitSwitch s + 1) (bitSwitchUp s + 1) (bitSwitchDown s)
  else Switches (bitSwitch s + 1) (bitSwitchUp s) (bitSwitchDown s + 1).
Definition level_pairs (rows : list playback) : list (xfloat * xfloat) :=
  zip (qualityLevel <$> rows) (drop 1 (qualityLevel <$> rows)).

Definition client_file (s : extremes * tally * switches) (text : pystr) : res exn (extremes * tally * switches) :=
  let '(e, t, sw) := s in
  rows ← playback_rows text;
  t ← fold_res count_segment t (shown_segments rows);
  mret (compare_client e rows, t, fold_left count_switch (level_pairs rows) sw).

Definition servers : list stall_server := [S1; S2; S3; Cloud].
Definition per_server {A} (a b c d : A) (s : stall_server) : A :=
  match s with S1 => a | S2 => b | S3 => c | Cloud => d end.
Definition for_servers {A} (f : stall_server → res exn A) : res exn (stall_server → A) :=
  a ← f S1; b ← f S2; c ← f S3; d ← f Cloud; mret (per_server a b c d).

(** What is kept of one simulation; the divisor is the number of clients that the
    script is written for. *)
Definition group_size : Z := 18.
Record summary : Type := Summary {
  QualityMean : vector;
  SQualityMean : stall_server → vector;
  SClientsMean : stall_server → vector;
  bitSwitchMean : xfloat;
  bitSwitchUpMean : xfloat;
  bitSwitchDownMean : xfloat;
}.
Definition summarise (t : tally) (sw : switches) : res exn summary :=
  levels ← for_servers (λ c, divisor (Quality t c) (Watching t c));
  mret (Summary (divide_by group_size (sum_columns (Quality t <$> servers)))
          (λ c, toBitrate (levels c)) (Watching t)
          (np_div (of_Z (bitSwitch sw)) (of_Z group_size))
          (np_div (of_Z (bitSwitchUp sw)) (of_Z group_size))
          (np_div (of_Z (bitSwitchDown sw)) (of_Z group_size))).

Definition quality_run (numSegments : nat) (s : extremes * list summary) (files : list pystr) :
    res exn (extremes * list summary) :=
  '(e, t, sw) ← fold_res client_file (s.1, zero_tally numSegments, no_switches) files;
  r ← summarise t sw; mret (e, s.2 ++ [r]).

(** What is appended to the lists of the script, in this order. *)
Record quality_report : Type := QualityReport {
  QualityMeanTotal : vector;
  qualityLevelTotals : stall_server → vector;
  ClientsTotals : stall_server → vector;
  bitSwitchtotals : list xfloat;
  bitSwitchtotalsConfInt : list xfloat;
  MeansTotals : stall_server → Z;
  MeansBW : Z * Z;
  fairness : xfloat;
}.

Section statistics.
Context (np_std : vector → xfloat) (np_sqrt : xfloat → xfloat).

Definition half_width (v : vector) (n : Z) : xfloat :=
  xmul (Fin (49 # 25)) (np_div (np_std v) (np_sqrt (of_Z n))).

Definition qualityGraphs (numSegments : nat) (runs : list (list pystr)) : res exn quality_report :=
  '(e, rs) ← fold_res (quality_run numSegments) (no_extremes, []) runs;
  let switched := [bitSwitchMean <$> rs; bitSwitchUpMean <$> rs; bitSwitchDownMean <$> rs] in
  let levels c := mean_columns ((λ r, SQualityMean r c) <$> rs) in
  let clients c := mean_columns ((λ r, SClientsMean r c) <$> rs) in
  means ← for_servers (λ c, int_of_float (np_mean (levels c)));
  best ← int_of_float (np_mean (toBitrate (qualityLevel <$> bestClient e)));
  worst ← int_of_float (np_mean (toBitrate (qualityLevel <$> worstClient e)));
  mret (QualityReport (toBitrate (mean_columns (QualityMean <$> rs))) levels clients
          (np_mean <$> switched) ((λ v, half_width v (Z.of_nat (length runs))) <$> switched)
          means (best, worst)
          (fairness_index ((λ c, np_div (np_mean (clients c)) (of_Z 10)) <$> servers))).

(** ** [throughtputServer] *)

Definition reading : Type := xfloat * xfloat * xfloat.
Definition throughput_line (line : pystr) : res exn reading :=
  let fields := split_char ";" line in
  t ← nth_arg fields 0; time ← py_float t;
  m ← nth_arg fields 1; mbps ← py_float m;
  e ← nth_arg fields 2; mme ← py_float e;
  mret (time, mbps, mme).
Definition throughput_rows (text : pystr) : res exn (list reading) :=
  lines ← lines_after_header text; mapM_res throughput_line lines.

(** [sum(np.array(rows))]: an integer when there are no rows. *)
Inductive summed : Type := Scalar (x : xfloat) | Rows (v : vector).
Definition sum_rows (runs : Z) (rows : matrix) : summed :=
  match rows with
  | [] => Scalar (np_div (of_Z 0) (of_Z runs))
  | _ => Rows (divide_by runs (sum_columns rows))
  end.
(** The first shortest list. *)
Definition shortest (ls : matrix) : res exn vector :=
  match ls with
  | [] => Raise ValueError
  | l :: ls => mret (min_by (λ a b, length a <? length b)%nat l ls)
  end.

Definition time_of (r : reading) : xfloat := r.1.1.
Definition mbps_of (r : reading) : xfloat := r.1.2.
Definition mme_of (r : reading) : xfloat := r.2.
(** The mean over the runs of what server [k] reported, cut to [n] rows. *)
Definition server_rows (runs : Z) (n : nat) (f : reading → xfloat) (logs : list (list reading)) (k : nat) : summed :=
  sum_rows runs (take n <$> stride k 4 (map (map f) logs)).
(** Per server: the times, the mean throughput and the mean moving average. *)
Definition throughtputServer (runs : list (list pystr)) : res exn (list (vector * summed * summed)) :=
  logs ← mapM_res throughput_rows (concat runs);
  times ← shortest (map (map time_of) logs);
  let server f k := server_rows (Z.of_nat (length runs)) (length times) f logs k in
  mret ((λ k, (times, server mbps_of k, server mme_of k)) <$> seq 0 4).

(** ** [StallsGraphs], [RebufferGraphs] and [barGraphs] *)

(** The fields of the last line of each file. *)
Definition last_fields (text : pystr) : res exn (list pystr) :=
  line ← res_of_option IndexError (last (readlines text)); mret (split_char ";" line).

Definition append_at (i : nat) (x : pystr) (m : matrix) : res exn matrix :=
  l ← res_of_option IndexError (m !! i); y ← py_float x; mret (<[i := l ++ [y]]> m).
(** Column [l]: odd ones hold plain values, even ones moving averages. *)
Definition bar_column (collum : list pystr) (s : matrix * matrix) (l : nat) : res exn (matrix * matrix) :=
  x ← nth_arg collum l;
  if Nat.odd l then m ← append_at ((l - 1) / 2) x s.1; mret (m, s.2)
  else m ← append_at (l / 2 - 1) x s.2; mret (s.1, m).
Definition bar_row (collums : list (list pystr)) (s : matrix * matrix) (k : nat) : res exn (matrix * matrix) :=
  collum ← res_of_option IndexError (collums !! k);
  fold_res (bar_column collum) s (seq 1 (length collum - 2)).
(** The means and deviations, of the plain values and of the moving averages. *)
Definition barGraphs (runs : nat) (collums : list (list pystr)) : res exn (list (vector * vector)) :=
  '(default_, MME) ← fold_res (bar_row collums) (replicate 4 [], replicate 4 []) (seq 0 runs);
  mret ((λ m : matrix, (np_mean <$> m, np_std <$> m)) <$> [default_; MME]).
Definition StallsGraphs (runs : list (list pystr)) : res exn (list (vector * vector)) :=
  collums ← mapM_res last_fields (concat runs); barGraphs (length runs) collums.

(** ** [graphtotals]: the cost per hour *)

Definition price : stall_server → xfloat :=
  per_server (fin (42408 # 100000)) (fin (22896 # 100000)) (fin (22896 # 100000)) (fin (7272 # 100000)).
Definition cost_per_segment (clients : stall_server → vector) : vector :=
  sum_columns ((λ c, (λ x, xmul x (price c)) <$> clients c) <$> servers).
(** The last entry is replaced by the one before it, and the first is dropped. *)
Definition cost_vector (clients : stall_server → vector) : res exn vector :=
  let cost := cost_per_segment clients in
  x ← res_of_option IndexError (py_get cost (-2));
  mret (drop 1 (<[(length cost - 1)%nat := x]> cost)).
Definition policy_cost (runs : nat) (clients : stall_server → vector) : res exn (xfloat * xfloat) :=
  cost ← cost_vector clients;
  mret (np_div (np_mean cost) (of_Z 6), np_div (half_width cost (Z.of_nat runs)) (of_Z 6)).

(** The mean bitrate of the first twenty segments, of all and of the last twenty
    but one, over the clients. *)
Definition bitrate_means (levels : list vector) : vector * vector :=
  let bitrates := toBitrate <$> levels in
  let parts := [(λ b, np_mean (py_slice_to b 20)) <$> bitrates; np_mean <$> bitrates;
                (λ b, np_mean (py_slice b (-21) (-1))) <$> bitrates] in
  (np_mean <$> parts, (λ v, half_width v 60) <$> parts).

(** ** graficos.py *)

(** The first line after the header, or an empty one. *)
Definition first_download (text : pystr) : res exn pystr :=
  lines ← lines_after_header text; mret (default [] (head lines)).
(** The times until the first segment starts and ends to arrive. *)
Definition start_times (text : pystr) : res exn (option (xfloat * xfloat)) :=
  line ← first_download text;
  let fields := split_char ";" line in
  if (2 <=? length fields)%nat then
    e ← nth_arg fields 3; end_ ← py_float e;
    m ← nth_arg fields 2; mid ← py_float m;
    b ← nth_arg fields 1; begin ← py_float b;
    mret (Some (xsub mid begin, xsub end_ mid))
  else mret None.
Definition playback_run (files : list pystr) : res exn (xfloat * xfloat) :=
  ts ← mapM_res start_times files;
  mret (np_mean (present ts).*1, np_mean (present ts).*2).
Definition mean_and_std (pairs : list (xfloat * xfloat)) : vector * vector :=
  ([np_mean pairs.*1; np_mean pairs.*2], [np_std pairs.*1; np_std pairs.*2]).
Definition playbackStart (runs : list (list pystr)) : res exn (vector * vector) :=
  mean_and_std <$> mapM_res playback_run runs.

(** The column of durations of each file; [num] is the number of clients. *)
Definition StallsRebuffers (num : Z) (runs : list (list vector)) : vector * vector :=
  mean_and_std
    ((λ files, (np_div (np_mean ((λ d, of_Z (Z.of_nat (length d))) <$> files)) (of_Z num),
                np_div (nan_mean (xsum <$> files)) (of_Z num))) <$> runs).

Record fog_log : Type := FogLog {
  OnOff : vector; Cost : vector; AllocatedContent : list pystr; FreeMemory : vector; TotalMemory : vector;
}.
Definition usage (f : fog_log) : xfloat :=
  np_mean ((λ per, xsub (of_Z 1) per) <$> zip_with np_div (TotalMemory f) (FreeMemory f)).
Definition allocated (f : fog_log) : res exn Z :=
  content ← res_of_option IndexError (AllocatedContent f !! 60%nat);
  mret (Z.of_nat (length (base.filter (λ x, x ≠ str "nan") (split_char "/" content)))).
Definition cloud_file (simulation : nat) : pystr :=
  str "throughputServer_sim" ++ str_of_Z (Z.of_nat simulation) ++ str "_2.0.14.1_Log.csv".
Definition fog_price (f : fog_log) : xfloat := xsum (zip_with xmul (OnOff f) (Cost f)).

(** The price, the fairness and the number of allocated contents of a run. *)
Definition fog_run (simulation : nat) (files : list (pystr * fog_log)) : res exn (xfloat * xfloat * Z) :=
  number ← mapM_res (λ f, if bool_decide (f.1 = cloud_file simulation) then mret 0 else allocated f.2) files;
  mret (xmul (of_Z 30) (xsum (fog_price ∘ snd <$> files)), fairness_index (usage ∘ snd <$> files),
        foldr Z.add 0 number).
Definition fogStatus (runs : list (list (pystr * fog_log))) : res exn (vector * xfloat * vector * vector) :=
  rs ← mapM_res (λ p, fog_run p.1 p.2) (imap pair runs);
  let prices := (λ r : xfloat * xfloat * Z, r.1.1) <$> rs in
  let numbers := (λ r : xfloat * xfloat * Z, of_Z r.2) <$> rs in
  mret ([np_mean prices; np_mean ((λ r : xfloat * xfloat * Z, r.1.2) <$> rs)], np_std prices,
        [nan_mean numbers], [np_std numbers]).
End statistics.

(** ** Floats that stand for rationals *)

Definition isq (x : xfloat) (q : Q) : Prop := ∃ p, x = Fin p ∧ (p == q)%Q.
#[export] Instance isq_proper x : Proper (Qeq ==> iff) (isq x).
Proof. intros p q Hpq. split; intros (r & -> & Hr); exists r; (split; [done|]); by rewrite Hr, Hpq. Qed.

Lemma is_fin q : isq (fin q) q.
Proof. exists (Qred q). split; [done|]. apply Qred_correct. Qed.
Lemma is_Fin q : isq (Fin q) q.
Proof. by exists q. Qed.
Lemma is_of_Z z : isq (of_Z z) (inject_Z z).
Proof. by exists (inject_Z z). Qed.
Lemma is_add a b p q : isq a p → isq b q → isq (xadd a b) (p + q).
Proof. intros (p' & -> & <-) (q' & -> & <-). apply is_fin. Qed.
Lemma is_sub a b p q : isq a p → isq b q → isq (xsub a b) (p - q).
Proof. intros Ha (q' & -> & <-). apply is_add; [done|]. apply is_fin. Qed.
Lemma is_mul a b p q : isq a p → isq b q → isq (xmul a b) (p * q).
Proof. intros (p' & -> & <-) (q' & -> & <-). apply is_fin. Qed.
Lemma is_div a b p q : ¬ (q == 0)%Q → isq a p → isq b q → isq (np_div a b) (p / q).
Proof.
  intros Hq (p' & -> & <-) (q' & -> & Hq'). cbn [np_div].
  destruct (Qzero_bool q') eqn:E; [apply Qzero_bool_iff in E; by rewrite E in Hq'|]. rewrite <-Hq'. apply is_fin.
Qed.
#[export] Hint Resolve is_fin is_Fin is_of_Z is_add is_sub is_mul : py.

Lemma is_finite x q : isq x q → finite x.
Proof. intros (p & -> & _). by exists p. Qed.
Lemma finite_is x : finite x → isq x (xval x).
Proof. intros [q ->]. by exists q. Qed.
Lemma is_unique x p q : isq x p → isq x q → (p == q)%Q.
Proof. intros (r & -> & <-) (s & [= <-] & <-). done. Qed.
Lemma is_xlt a b p q : isq a p → isq b q → xlt a b = true ↔ (p < q)%Q.
Proof. intros (p' & -> & <-) (q' & -> & <-). apply Qlt_bool_iff. Qed.
Lemma is_xeqb a b p q : isq a p → isq b q → xeqb a b = true ↔ (p == q)%Q.
Proof. intros (p' & -> & <-) (q' & -> & <-). apply Qeq_bool_iff. Qed.
Lemma is_xle a b p q : isq a p → isq b q → xle a b = true ↔ (p <= q)%Q.
Proof.
  intros Ha Hb. unfold xle. rewrite orb_true_iff, (is_xlt a b p q), (is_xeqb a b p q) by done.
  rewrite Qle_lteq. done.
Qed.
Lemma is_zero a p : isq a p → xzero a = true ↔ (p == 0)%Q.
Proof. intros (p' & -> & <-). apply Qzero_bool_iff. Qed.

Definition Qsum (l : list Q) : Q := foldr Qplus 0%Q l.
Lemma is_sum v qs : Forall2 isq v qs → isq (xsum v) (Qsum qs).
Proof.
  unfold xsum. intros H. enough (∀ a p, isq a p → isq (fold_left xadd v a) (p + Qsum qs)) as He.
  { rewrite <-(Qplus_0_l (Qsum qs)). apply He. apply is_of_Z. }
  induction H as [|x q v qs Hx _ IH]; intros a p Ha; cbn.
  - by rewrite Qplus_0_r.
  - rewrite Qplus_assoc. apply IH. eauto with py.
Qed.
Lemma Forall2_is v : Forall finite v → Forall2 isq v (xval <$> v).
Proof. induction 1; cbn; constructor; eauto using finite_is. Qed.
Lemma of_nat_nonzero n : n ≠ 0%nat → ¬ (inject_Z (Z.of_nat n) == 0)%Q.
Proof. intros Hn. unfold Qeq. cbn. lia. Qed.
Lemma is_mean v qs : v ≠ [] → Forall2 isq v qs → isq (np_mean v) (Qsum qs / inject_Z (Z.of_nat (length qs))).
Proof.
  intros Hv H. unfold np_mean. rewrite <-(Forall2_length _ _ _ H). apply is_div; [|by apply is_sum|apply is_of_Z].
  apply of_nat_nonzero. by destruct v.
Qed.

(** ** The ladder of bitrates *)

Definition piece (a b c : Z) (q : Q) : Q := (inject_Z a * (q - inject_Z b) + inject_Z c)%Q.
Lemma bitrate_pieces x q :
  isq x q → ¬ (q == -1)%Q →
  ∃ r, isq (bitrate x) r ∧
    (q <= 1 ∧ r == piece 250 0 400 q ∨ 1 < q <= 2 ∧ r == piece 350 1 650 q ∨
     2 < q <= 3 ∧ r == piece 500 2 1000 q ∨ 3 < q <= 4 ∧ r == piece 750 3 1500 q ∨
     4 < q <= 5 ∧ r == piece 1150 4 2250 q ∨ 5 < q ∧ r == piece 1300 5 3400 q)%Q.
Proof.
  intros Hx Hq. unfold bitrate.
  destruct (xeqb x (of_Z (-1))) eqn:E0; [by apply (is_xeqb _ _ _ _ Hx (is_of_Z _)) in E0|].
  assert (∀ a b c, isq (xadd (xmul (of_Z a) (xsub x (of_Z b))) (of_Z c)) (piece a b c q)) as Hp
    by (intros; unfold piece; eauto 6 with py).
  assert (∀ z, xle x (of_Z z) = false → (inject_Z z < q)%Q) as Hf.
  { intros z Hz. apply Qnot_le_lt. intros Hle. apply not_true_iff_false in Hz. apply Hz.
    by apply (is_xle _ _ _ _ Hx (is_of_Z z)). }
  assert (∀ z, xle x (of_Z z) = true → (q <= inject_Z z)%Q) as Ht
    by (intros z; apply (is_xle _ _ _ _ Hx (is_of_Z z))).
  repeat match goal with |- context [if xle x (of_Z ?z) then _ else _] =>
    let E := fresh "E" in destruct (xle x (of_Z z)) eqn:E; [apply Ht in E|apply Hf in E] end;
    (eexists; split; [apply Hp|]);
    [left|right; left|do 2 right; left|do 3 right; left|do 4 right; left|do 5 right]; try split; try done.
Qed.

(** The bitrates of the levels 0 to 6, in kbit/s. *)
Definition ladder : list Z := [400; 650; 1000; 1500; 2250; 3400; 4700].

(** A level between two whole numbers gets the bitrate on the line between the
    bitrates of these in the ladder, a higher level a higher bitrate, and -1, the
    mark of a segment without clients, gets 0. *)
Theorem bitrate_interpolates :
  (∀ n lo hi x q, ladder !! n = Some lo → ladder !! S n = Some hi → isq x q →
     (inject_Z (Z.of_nat n) <= q)%Q → (q <= inject_Z (Z.of_nat n) + 1)%Q →
     isq (bitrate x) (inject_Z lo + (q - inject_Z (Z.of_nat n)) * (inject_Z hi - inject_Z lo))) ∧
  (∀ x y p q, isq x p → isq y q → ¬ (p == -1)%Q → ¬ (q == -1)%Q →
     xlt (bitrate x) (bitrate y) = true ↔ (p < q)%Q) ∧
  bitrate (of_Z (-1)) = of_Z 0.
Proof.
  split_and!; [| |done].
  - intros n lo hi x q Hlo Hhi Hx H1 H2. destruct (bitrate_pieces x q Hx) as (r & Hr & Hp).
    { assert (0 <= inject_Z (Z.of_nat n))%Q by (unfold Qle; cbn; lia). lra. }
    enough (r == inject_Z lo + (q - inject_Z (Z.of_nat n)) * (inject_Z hi - inject_Z lo))%Q as <- by done.
    unfold piece in Hp.
    do 6 (destruct n as [|n]; [injection Hlo as <-; injection Hhi as <-; unfold inject_Z in *; cbv [Z.of_nat Pos.of_succ_nat Pos.succ] in H1, H2 |- *;
      decompose [or and] Hp; lra|]). done.
  - intros x y p q Hx Hy Hp Hq.
    destruct (bitrate_pieces x p Hx Hp) as (r & Hr & Hrp), (bitrate_pieces y q Hy Hq) as (s & Hs & Hsq).
    rewrite (is_xlt _ _ _ _ Hr Hs). unfold piece, inject_Z in *.
    decompose [or and] Hrp; clear Hrp; decompose [or and] Hsq; clear Hsq; split; lra.
Qed.

(** ** The index of fairness *)

Definition squares (qs : list Q) : list Q := (λ x, x * x)%Q <$> qs.
Definition nQ (qs : list Q) : Q := inject_Z (Z.of_nat (length qs)).
Definition zero (q : Q) : Prop := (q == 0)%Q.

Lemma nQ_cons q qs : (nQ (q :: qs) == 1 + nQ qs)%Q.
Proof. unfold nQ. cbn [length]. rewrite Nat2Z.inj_succ, <-Z.add_1_l, inject_Z_plus. done. Qed.
Lemma nQ_pos qs : qs ≠ [] → (0 < nQ qs)%Q.
Proof. destruct qs; [done|]. intros _. unfold nQ, Qlt. cbn. lia. Qed.
Lemma square_nonneg q : (0 <= q * q)%Q.
Proof. nra. Qed.
Lemma square_zero q : (q * q == 0)%Q → (q == 0)%Q.
Proof. intros H. destruct (Qlt_le_dec q 0), (Qlt_le_dec 0 q); nra. Qed.

Lemma Qsum_cons q qs : Qsum (q :: qs) = (q + Qsum qs)%Q.
Proof. done. Qed.
Lemma Qsum_nonneg qs : Forall (λ q, 0 <= q)%Q qs → (0 <= Qsum qs)%Q.
Proof. induction 1; [done|]. rewrite Qsum_cons. lra. Qed.
Lemma Qsum_zero qs : Forall (λ q, 0 <= q)%Q qs → (Qsum qs == 0)%Q ↔ Forall zero qs.
Proof.
  induction 1 as [|q qs Hq Hqs IH]; [done|]. pose proof (Qsum_nonneg qs Hqs) as Hs. rewrite Qsum_cons, Forall_cons, <-IH.
  unfold zero. split; [intros; split; lra|intros [-> ->]; done].
Qed.
Lemma squares_nonneg qs : Forall (λ q, 0 <= q)%Q (squares qs).
Proof. apply Forall_fmap, Forall_true. intros q. apply square_nonneg. Qed.
Lemma squares_zero qs : Forall zero (squares qs) ↔ Forall zero qs.
Proof.
  unfold squares. rewrite Forall_fmap. apply Forall_iff. intros q. unfold zero. cbn.
  split; [apply square_zero|intros ->; done].
Qed.

(** The sum of the squared distances from a point. *)
Lemma distances qs m :
  (Qsum (squares ((λ q, q - m) <$> qs)) == Qsum (squares qs) - 2 * m * Qsum qs + nQ qs * m * m)%Q.
Proof. induction qs as [|q qs IH]; [cbn; unfold nQ; cbn; ring|]. unfold squares in *.
  rewrite nQ_cons, !fmap_cons, !Qsum_cons, IH. ring.
Qed.

#[local] Instance Qeq_default : DefaultRelation Qeq := {}.
Lemma sum_square_bound qs : qs ≠ [] → (Qsum qs * Qsum qs <= nQ qs * Qsum (squares qs))%Q.
Proof.
  intros Hqs. pose proof (nQ_pos qs Hqs) as Hn.
  pose proof (Qsum_nonneg _ (squares_nonneg ((λ q, q - Qsum qs / nQ qs) <$> qs)%Q)) as H. rewrite distances in H.
  apply (Qmult_le_l _ _ (nQ qs) Hn) in H.
  setoid_replace (nQ qs * (Qsum (squares qs) - 2 * (Qsum qs / nQ qs) * Qsum qs + nQ qs * (Qsum qs / nQ qs) * (Qsum qs / nQ qs)))%Q
    with (nQ qs * Qsum (squares qs) - Qsum qs * Qsum qs)%Q in H; [lra|]. field. lra.
Qed.
(** The bound is reached when all numbers are equal, and only then. *)
Lemma sum_square_tight qs :
  qs ≠ [] → (Qsum qs * Qsum qs == nQ qs * Qsum (squares qs))%Q ↔ (∀ p q, p ∈ qs → q ∈ qs → (p == q)%Q).
Proof.
  intros Hqs. pose proof (nQ_pos qs Hqs) as Hn. set (m := (Qsum qs / nQ qs)%Q).
  assert (Qsum qs * Qsum qs == nQ qs * Qsum (squares qs) ↔ Forall zero ((λ q, q - m) <$> qs))%Q as ->.
  { rewrite <-squares_zero, <-Qsum_zero by apply squares_nonneg. rewrite distances.
    setoid_replace (Qsum (squares qs) - 2 * m * Qsum qs + nQ qs * m * m)%Q
      with ((nQ qs * Qsum (squares qs) - Qsum qs * Qsum qs) / nQ qs)%Q by (unfold m; field; lra).
    split; intros H.
    - rewrite H. field. lra.
    - apply (Qmult_inj_r _ _ (/ nQ qs)); [intros Hz; apply (Qmult_inj_r _ _ (nQ qs)) in Hz; [|lra]; field_simplify in Hz; lra|].
      unfold Qdiv in H. lra. }
  rewrite Forall_fmap. split.
  - intros H p q Hp Hq. rewrite Forall_forall in H. pose proof (H p Hp) as H1. pose proof (H q Hq) as H2.
    unfold zero in *. cbn in *. lra.
  - intros H. destruct qs as [|q qs]; [done|]. assert (m == q)%Q as Hm.
    { unfold m. enough (∀ l, (∀ p, p ∈ l → p == q)%Q → Qsum l == nQ l * q)%Q as ->; [field; lra| |].
      - intros p Hp. apply H; [done|by left].
      - clear. intros l Hl. induction l as [|p l IH]; [unfold nQ; cbn; ring|]. rewrite nQ_cons, Qsum_cons.
        rewrite (Hl p) by set_solver. rewrite IH by set_solver. ring. }
    apply Forall_forall. intros p Hp. unfold zero. cbn. rewrite (H p q Hp) by left. lra.
Qed.
(** Numbers of one sign add up to at least the root of the sum of their squares. *)
Lemma square_sum_bound qs : Forall (λ q, q <= 0)%Q qs → (Qsum (squares qs) <= Qsum qs * Qsum qs ∧ Qsum qs <= 0)%Q.
Proof.
  induction 1 as [|q qs Hq _ IH]; [cbn; lra|]. destruct IH as [IH1 IH2]. unfold squares in *. rewrite fmap_cons, !Qsum_cons.
  split; [|lra]. nra.
Qed.

Lemma fairness_index_value v qs :
  Forall2 isq v qs →
  (Forall zero qs → fairness_index v = NaN) ∧
  (¬ Forall zero qs → isq (fairness_index v) (Qsum qs * Qsum qs / (nQ qs * Qsum (squares qs)))).
Proof.
  intros H. pose proof (is_sum v qs H) as Hs. unfold fairness_index.
  assert (Forall2 isq ((λ x, xmul x x) <$> v) (squares qs)) as H2.
  { apply Forall2_fmap. eapply Forall2_impl; [done|]. intros; eauto with py. }
  pose proof (is_mul _ _ _ _ (is_of_Z (Z.of_nat (length v))) (is_sum _ _ H2)) as Hd.
  rewrite (Forall2_length _ _ _ H) in *. change (inject_Z _) with (nQ qs) in Hd.
  pose proof (is_mul _ _ _ _ Hs Hs) as Hn. split.
  - intros Hz. rewrite (proj2 (Qsum_zero _ (squares_nonneg qs))) in Hd by by apply squares_zero.
    assert (Qsum qs == 0)%Q as Hz'. { clear -Hz. induction Hz as [|q qs Hq _ IH]; [done|]. unfold zero in *. rewrite Qsum_cons. lra. }
    rewrite Hz' in Hn. destruct Hn as (p & -> & Hp), Hd as (d & -> & Hd'). cbn [np_div].
    rewrite (proj2 (Qzero_bool_iff d)), (proj2 (Qzero_bool_iff p)); [done|by rewrite Hp|]. rewrite Hd'. ring.
  - intros Hz. apply is_div; [|done|done]. intros H0. apply Hz, squares_zero, Qsum_zero; [apply squares_nonneg|].
    assert (qs ≠ []) as Hqs by (intros ->; by apply Hz). pose proof (nQ_pos qs Hqs). nra.
Qed.

(** *** The usage of a server *)

(** Every sample has some memory, of which a part is free. *)
Definition sane (f : fog_log) : Prop :=
  TotalMemory f ≠ [] ∧
  Forall2 (λ t r, ∃ p q, isq t p ∧ isq r q ∧ 0 < p ∧ 0 <= q <= p)%Q (TotalMemory f) (FreeMemory f).
Definition filled (f : fog_log) : bool := existsb xzero (FreeMemory f).
Definition idle (f : fog_log) : Prop := Forall2 (λ t r, xeqb t r = true) (TotalMemory f) (FreeMemory f).

Lemma xadd_sided s a x :
  finite a ∨ a = Inf s → finite x ∨ x = Inf s →
  finite (xadd a x) ∧ a ≠ Inf s ∧ x ≠ Inf s ∨ xadd a x = Inf s ∧ (a = Inf s ∨ x = Inf s).
Proof.
  intros [[p ->]| ->] [[q ->]| ->]; cbn; rewrite ?Bool.eqb_reflx; [left; split; [apply finite_fin|done]|right; by auto..].
Qed.
(** A sum of numbers and of infinities of one sign. *)
Lemma xsum_sided s v :
  Forall (λ x, finite x ∨ x = Inf s) v → (finite (xsum v) ∧ Inf s ∉ v) ∨ (xsum v = Inf s ∧ Inf s ∈ v).
Proof.
  intros Hv. unfold xsum.
  enough (∀ a, finite a ∨ a = Inf s →
    (finite (fold_left xadd v a) ∧ a ≠ Inf s ∧ Inf s ∉ v) ∨
    (fold_left xadd v a = Inf s ∧ (a = Inf s ∨ Inf s ∈ v))) as H.
  { destruct (H (of_Z 0)) as [(? & _ & ?)|[? [?|?]]]; [left; by eexists|by left|done|by right]. }
  induction Hv as [|x v Hx _ IH]; intros a Ha; cbn [fold_left].
  { destruct Ha as [[q ->]| ->]; [left|right; by auto]. split; [by eexists|]. split; [done|apply not_elem_of_nil]. }
  rewrite not_elem_of_cons, elem_of_cons. destruct (xadd_sided s a x Ha Hx) as [(Hfin & Hna & Hnx)|[Hinf Hax]].
  - destruct (IH _ (or_introl Hfin)) as [(? & _ & ?)|[? [Hi|?]]]; [left; by auto|right|right; by auto].
    destruct Hfin as [q Hq]. congruence.
  - destruct (IH _ (or_intror Hinf)) as [(? & ? & ?)|[? _]]; [done|right]. destruct Hax as [-> | ->]; by auto.
Qed.

Lemma np_mean_low v : v ≠ [] → xsum v = Inf true → np_mean v = Inf true.
Proof. intros Hv H. unfold np_mean. rewrite H. destruct v; [done|]. by cbn. Qed.

Definition unused (t r : xfloat) : xfloat := xsub (of_Z 1) (np_div t r).
Lemma unused_cases t r p q :
  isq t p → isq r q → (0 < p)%Q → (0 <= q <= p)%Q →
  if xzero r then unused t r = Inf true
  else ∃ u, isq (unused t r) u ∧ (u <= 0)%Q ∧ ((u == 0)%Q ↔ xeqb t r = true).
Proof.
  intros Ht Hr Hp Hq. unfold unused. destruct (xzero r) eqn:Er.
  - apply (is_zero _ _ Hr) in Er. destruct Ht as (p' & -> & Hp'), Hr as (q' & -> & Hq'). cbn [np_div].
    rewrite (proj2 (Qzero_bool_iff q')) by by rewrite Hq'.
    destruct (Qzero_bool p') eqn:E; [apply Qzero_bool_iff in E; rewrite Hp' in E; lra|].
    destruct (Qneg_bool p') eqn:E2; [apply Qneg_bool_iff in E2; rewrite Hp' in E2; lra|]. done.
  - assert (¬ (q == 0)%Q) as Hq0 by (intros ?%(is_zero _ _ Hr); congruence).
    exists (1 - p / q)%Q. split; [apply is_sub; [apply is_of_Z|by apply is_div]|].
    rewrite (is_xeqb _ _ _ _ Ht Hr). assert (p == p / q * q)%Q as Hpq by (field; done).
    split; [|split; intros H; [|rewrite H; field; done]]; nra.
Qed.

Lemma usage_cases f :
  sane f →
  if filled f then usage f = Inf true
  else ∃ u, isq (usage f) u ∧ (u <= 0)%Q ∧ ((u == 0)%Q ↔ idle f).
Proof.
  intros [Hne H]. unfold usage, filled, idle.
  assert ((λ x, xsub (of_Z 1) x) <$> zip_with np_div (TotalMemory f) (FreeMemory f)
          = zip_with unused (TotalMemory f) (FreeMemory f)) as ->.
  { clear. generalize (FreeMemory f). induction (TotalMemory f) as [|t ts IH]; intros [|r rs]; [done..|].
    cbn [zip_with fmap list_fmap]. f_equal. apply IH. }
  set (per := zip_with unused _ _).
  assert (per ≠ []) as Hper.
  { unfold per. clear per. destruct (TotalMemory f), (FreeMemory f); [done..| |done]. by inversion H. }
  assert (if existsb xzero (FreeMemory f)
          then Forall (λ x, finite x ∨ x = Inf true) per ∧ Inf true ∈ per
          else ∃ us, Forall2 isq per us ∧ Forall (λ u, u <= 0)%Q us ∧
                     (Forall zero us ↔ Forall2 (λ t r, xeqb t r = true) (TotalMemory f) (FreeMemory f))) as Hc.
  { unfold per. clear Hne Hper per. induction H as [|t r ts rs (p & q & Ht & Hr & Hp & Hq) _ IH]; cbn [existsb zip_with].
    { exists []. split_and!; [constructor..|split; constructor]. }
    pose proof (unused_cases t r p q Ht Hr Hp Hq) as Hu. destruct (xzero r); cbn [orb].
    - rewrite Hu. split; [|by left]. constructor; [by right|].
      destruct (existsb xzero rs); [apply IH|]. destruct IH as (us & Hus & _).
      clear -Hus. induction Hus; constructor; [left; by eapply is_finite|done].
    - destruct Hu as (u & Hu & Hle & Hz). destruct (existsb xzero rs).
      + destruct IH as [IH1 IH2]. split; [constructor; [left; by eapply is_finite|done]|by right].
      + destruct IH as (us & H1 & H2 & H3). exists (u :: us). split_and!; [by constructor..|].
        rewrite Forall_cons, Forall2_cons, H3. unfold zero. by rewrite Hz. }
  destruct (existsb xzero (FreeMemory f)).
  - destruct Hc as [H1 H2]. apply np_mean_low; [done|]. by destruct (xsum_sided true per H1) as [[_ ?]|[? _]].
  - destruct Hc as (us & H1 & H2 & H3). exists (Qsum us / nQ us)%Q.
    assert (us ≠ []) as Hus by (intros ->; by inversion H1; subst). pose proof (nQ_pos us Hus) as Hn.
    assert (Qsum us == (Qsum us / nQ us) * nQ us)%Q as Hq by (field; lra).
    destruct (square_sum_bound us H2) as [_ Hs]. split; [by apply is_mean|]. split; [nra|]. rewrite <-H3.
    assert (Qsum us == 0 ↔ Forall zero us)%Q as <-.
    { assert (Forall (λ q, 0 <= q)%Q (Qopp <$> us)) as Ho
        by (apply Forall_fmap; eapply Forall_impl; [exact H2|]; intros u Hu; cbv beta in Hu; change (0 <= - u)%Q; lra).
      assert (Qsum (Qopp <$> us) == - Qsum us)%Q as Hn'
        by (clear; induction us as [|u us IH]; [done|]; rewrite fmap_cons, !Qsum_cons, IH; ring).
      transitivity (Qsum (Qopp <$> us) == 0)%Q; [rewrite Hn'; split; intros; lra|].
      rewrite (Qsum_zero _ Ho), Forall_fmap. apply Forall_iff. intros u. change ((- u == 0)%Q ↔ (u == 0)%Q). split; intros; lra. }
    split; intros H0; [rewrite Hq, H0; ring|rewrite H0; field; lra].
Qed.

(** The usages of servers none of which is ever full. *)
Lemma usages_values logs :
  Forall sane logs → existsb filled logs = false →
  ∃ us, Forall2 isq (usage <$> logs) us ∧ Forall (λ u, u <= 0)%Q us ∧ (Forall zero us ↔ Forall idle logs).
Proof.
  induction 1 as [|f logs Hf _ IH]; cbn [existsb].
  { intros _. exists []. split_and!; [constructor..|split; constructor]. }
  intros [Hff Hl]%orb_false_iff. destruct (IH Hl) as (us & H1 & H2 & H3).
  pose proof (usage_cases f Hf) as Hu. rewrite Hff in Hu. destruct Hu as (u & Hu & Hle & Hz).
  exists (u :: us). rewrite fmap_cons, !Forall_cons, H3. unfold zero. rewrite Hz. split_and!; by try constructor.
Qed.
Lemma usages_full logs :
  Forall sane logs → existsb filled logs = true →
  Forall (λ x, finite x ∨ x = Inf true) (usage <$> logs) ∧ Inf true ∈ usage <$> logs.
Proof.
  intros Hs Hf. split.
  - apply Forall_fmap. eapply Forall_impl; [exact Hs|]. intros f Hf'. pose proof (usage_cases f Hf') as Hu. cbn.
    destruct (filled f); [by right|left]. destruct Hu as (u & Hu & _). by eapply is_finite.
  - apply existsb_exists in Hf as (f & Hin%list_elem_of_In & Hff).
    apply list_elem_of_fmap. exists f. split; [|done]. rewrite Forall_forall in Hs.
    pose proof (usage_cases f (Hs f Hin)) as Hu. by rewrite Hff in Hu.
Qed.
Lemma fairness_infinite v :
  Forall (λ x, finite x ∨ x = Inf true) v → Inf true ∈ v → fairness_index v = NaN.
Proof.
  intros Hv Hin. unfold fairness_index. destruct (xsum_sided true v Hv) as [[_ ?]|[-> _]]; [done|].
  destruct (xsum_sided false ((λ x, xmul x x) <$> v)) as [[_ Hn]|[-> _]].
  - apply Forall_fmap. eapply Forall_impl; [exact Hv|]. intros x [[q ->]| ->]; cbn; [left; apply finite_fin|by right].
  - exfalso. apply Hn, list_elem_of_fmap. by exists (Inf true).
  - destruct v; [by apply elem_of_nil in Hin|]. by cbn.
Qed.
Lemma all_equal v us :
  Forall2 isq v us →
  (∀ p q, p ∈ us → q ∈ us → (p == q)%Q) ↔ (∀ x y, x ∈ v → y ∈ v → xeqb x y = true).
Proof.
  intros H. split.
  - intros Hp x y [i Hi]%list_elem_of_lookup [j Hj]%list_elem_of_lookup.
    destruct (Forall2_lookup_l _ _ _ _ _ H Hi) as (p & Hpi & Hx), (Forall2_lookup_l _ _ _ _ _ H Hj) as (q & Hqj & Hy).
    apply (is_xeqb _ _ _ _ Hx Hy), Hp; by eapply list_elem_of_lookup_2.
  - intros Hx p q [i Hi]%list_elem_of_lookup [j Hj]%list_elem_of_lookup.
    destruct (Forall2_lookup_r _ _ _ _ _ H Hi) as (x & Hxi & Hp), (Forall2_lookup_r _ _ _ _ _ H Hj) as (y & Hyj & Hq).
    apply (is_xeqb _ _ _ _ Hp Hq), Hx; by eapply list_elem_of_lookup_2.
Qed.

(** When every sample of every server has some memory, the fairness of a run is
    NaN if no server is ever used or one is full at some time; otherwise it is at
    least one over the number of servers and at most 1, and 1 exactly when all
    usages are equal. *)
Theorem fairness_in_range simulation files price fair number :
  fog_run simulation files = Ok (price, fair, number) → Forall sane files.*2 →
  if existsb filled files.*2 then fair = NaN
  else (Forall idle files.*2 → fair = NaN) ∧
    (¬ Forall idle files.*2 →
       ∃ q, fair = Fin q ∧ (1 / inject_Z (Z.of_nat (length files)) <= q <= 1)%Q ∧
         ((q == 1)%Q ↔ ∀ f g, f ∈ files.*2 → g ∈ files.*2 → xeqb (usage f) (usage g) = true)).
Proof.
  intros Hrun Hs. unfold fog_run in Hrun. apply bind_ok_inv in Hrun as (numbers & _ & Hr).
  injection Hr as _ Hfair _. subst fair. rewrite list_fmap_compose. set (logs := files.*2) in *.
  replace (length files) with (length logs) by apply length_fmap.
  destruct (existsb filled logs) eqn:Ef.
  - destruct (usages_full _ Hs Ef). by apply fairness_infinite.
  - destruct (usages_values logs Hs Ef) as (us & H1 & H2 & H3). destruct (fairness_index_value _ _ H1) as [Hz Hnz].
    rewrite H3 in Hz, Hnz. split; [done|]. intros Hidle. destruct (Hnz Hidle) as (q & -> & Hq). exists q. split; [done|].
    assert (length us = length logs) as Hlen by (rewrite <-(Forall2_length _ _ _ H1); apply length_fmap).
    assert (us ≠ []) as Hus by (intros ->; apply Hidle, H3; constructor).
    pose proof (nQ_pos us Hus) as Hn. rewrite <-Hlen. change (inject_Z _) with (nQ us).
    assert (0 < Qsum (squares us))%Q as Hsq.
    { destruct (Qle_lt_or_eq 0 (Qsum (squares us))) as [?|He]; [apply Qsum_nonneg, squares_nonneg|done|].
      exfalso. apply Hidle, H3, squares_zero, Qsum_zero; [apply squares_nonneg|by symmetry]. }
    assert (q * (nQ us * Qsum (squares us)) == Qsum us * Qsum us)%Q as Hq' by (rewrite Hq; field; split; lra).
    pose proof (sum_square_bound us Hus) as Hb. destruct (square_sum_bound us H2) as [Hc _]. split; [split|].
    + apply Qle_shift_div_r; [done|]. nra.
    + nra.
    + assert (q == 1 ↔ Qsum us * Qsum us == nQ us * Qsum (squares us))%Q as ->.
      { split; intros H; [rewrite <-Hq', H; ring|]. rewrite H in Hq'. nra. }
      rewrite sum_square_tight, (all_equal _ _ H1) by done. split.
      * intros H f g Hf Hg. apply H; apply list_elem_of_fmap; eauto.
      * intros H x y (f & -> & Hf)%list_elem_of_fmap (g & -> & Hg)%list_elem_of_fmap. by apply H.
Qed.

(** ** The clients of a simulation *)

Lemma fin_of_Z q z : (q == inject_Z z)%Q → fin q = of_Z z.
Proof.
  intros H. unfold fin, of_Z. f_equal. rewrite (Qred_complete _ _ H). unfold inject_Z, Qred.
  pose proof (Z.ggcd_gcd z 1) as Hg. pose proof (Z.ggcd_correct_divisors z 1) as Hd. rewrite Z.gcd_1_r in Hg.
  destruct (Z.ggcd z 1) as [g [a b]]. cbn in *. subst g. destruct Hd as [-> Hb]. rewrite Z.mul_1_l in *. by subst b.
Qed.
Lemma of_Z_succ n : xadd (of_Z (Z.of_nat n)) (of_Z 1) = of_Z (Z.of_nat (S n)).
Proof. apply fin_of_Z. rewrite Nat2Z.inj_succ, <-Z.add_1_r, inject_Z_plus. done. Qed.

(** The row of a client that counts for a server and a segment: the last row of a
    client counts for none. *)
Definition gain (c : stall_server) (i : nat) (rows : list playback) : option playback :=
  r ← take (length rows - 1) rows !! i;
  if decide (stall_class (Server r) = c) then Some r else None.
Definition watched (c : stall_server) (i : nat) (clients : list (list playback)) : list playback :=
  omap (gain c i) clients.

Definition wf_tally (n : nat) (t : tally) : Prop :=
  ∀ c, length (Quality t c) = n ∧ length (Watching t c) = n.
Definition gained (f : playback → xfloat) (o : option playback) (x : xfloat) : xfloat :=
  match o with Some r => xadd x (f r) | None => x end.

Lemma add_at_spec i x a :
  match add_at i x a with
  | Ok b => (i < length a)%nat ∧ length b = length a ∧
            ∀ j, b !! j = (if decide (j = i) then (λ y, xadd y x) <$> a !! j else a !! j)
  | Raise e => e = IndexError ∧ (length a ≤ i)%nat
  end.
Proof.
  unfold add_at. destruct (a !! i) as [y|] eqn:E; cbn.
  - pose proof (lookup_lt_Some _ _ _ E) as Hi. split; [done|]. split; [apply length_insert|]. intros j.
    destruct (decide (j = i)) as [->|Hj]; [|by rewrite list_lookup_insert_ne].
    rewrite E. by apply list_lookup_insert_eq.
  - split; [done|]. by apply lookup_ge_None.
Qed.

Lemma count_segment_spec n t i r :
  wf_tally n t →
  match count_segment t (i, r) with
  | Ok t' => (i < n)%nat ∧ wf_tally n t' ∧
      ∀ c j, let o := if decide (j = i ∧ stall_class (Server r) = c) then Some r else None in
        Quality t' c !! j = gained qualityLevel o <$> Quality t c !! j ∧
        Watching t' c !! j = gained (λ _, of_Z 1) o <$> Watching t c !! j
  | Raise e => e = IndexError ∧ (n ≤ i)%nat
  end.
Proof.
  intros Hwf. unfold count_segment. cbn [fst snd]. set (d := stall_class (Server r)).
  destruct (Hwf d) as [Hq Hn]. pose proof (add_at_spec i (qualityLevel r) (Quality t d)) as H1.
  destruct (add_at _ _ (Quality t d)) as [q|e]; cbn [mbind res_bind]; [|by rewrite Hq in H1].
  pose proof (add_at_spec i (of_Z 1) (Watching t d)) as H2.
  destruct (add_at _ _ (Watching t d)) as [m|e]; cbn [mbind res_bind]; [|by rewrite Hn in H2].
  destruct H1 as (Hi & Hlq & Hq'), H2 as (_ & Hlm & Hm'). split; [congruence|]. cbn [mret res_ret Quality Watching]. split.
  - intros c. unfold bump. cbn. case_decide as Hc; [split; congruence|apply Hwf].
  - intros c j. unfold bump. cbn. destruct (decide (c = d)) as [->|Hc].
    + rewrite Hq', Hm'. destruct (decide (j = i)) as [->|Hj].
      * rewrite decide_True by done. done.
      * rewrite decide_False by (by intros [? _]). cbn. by destruct (Quality t d !! j), (Watching t d !! j).
    + rewrite decide_False by (by intros [_ ?]). by destruct (Quality t c !! j), (Watching t c !! j).
Qed.

Lemma count_segments_spec n rows : ∀ k t,
  wf_tally n t →
  match fold_res count_segment t (imap (λ j, pair (k + j)%nat) rows) with
  | Ok t' => (k + length rows ≤ n ∨ rows = [])%nat ∧ wf_tally n t' ∧
      ∀ c j, let o := (r ← (if decide (k ≤ j)%nat then rows !! (j - k)%nat else None);
                       if decide (stall_class (Server r) = c) then Some r else None) in
        Quality t' c !! j = gained qualityLevel o <$> Quality t c !! j ∧
        Watching t' c !! j = gained (λ _, of_Z 1) o <$> Watching t c !! j
  | Raise e => e = IndexError ∧ (n < k + length rows)%nat
  end.
Proof.
  induction rows as [|r rows IH]; intros k t Hwf; cbn [imap fold_res].
  - split; [by right|]. split; [done|]. intros c j.
    replace (if decide (k ≤ j)%nat then [] !! (j - k)%nat else None) with (@None playback) by (by case_decide).
    cbn. by destruct (Quality t c !! j), (Watching t c !! j).
  - rewrite Nat.add_0_r. pose proof (count_segment_spec n t k r Hwf) as H1.
    destruct (count_segment t (k, r)) as [t1|e]; [|cbn; split; [apply H1|lia]]. destruct H1 as (Hk & Hwf1 & H1).
    specialize (IH (S k) t1 Hwf1).
    replace (imap (λ j, pair (k + S j)%nat) rows) with (imap (λ j, pair (S k + j)%nat) rows)
      by (apply imap_ext; intros; f_equal; lia).
    change (imap ((λ j, pair (k + j)%nat) ∘ S) rows) with (imap (λ j, pair (k + S j)%nat) rows).
    replace (imap (λ j, pair (k + S j)%nat) rows) with (imap (λ j, pair (S k + j)%nat) rows)
      by (apply imap_ext; intros; f_equal; lia).
    destruct (fold_res count_segment t1 _) as [t2|e].
    + destruct IH as (Hlen & Hwf2 & H2). split; [left; destruct Hlen as [? | ->]; cbn; lia|]. split; [done|].
      intros c j. destruct (H1 c j) as [Q1 W1], (H2 c j) as [Q2 W2]. cbv zeta. rewrite Q2, W2, Q1, W1.
      destruct (decide (j = k)) as [->|Hj].
      * rewrite (decide_False (P := (S k ≤ k)%nat)), (decide_True (P := (k ≤ k)%nat)), Nat.sub_diag by lia.
        cbn [lookup list_lookup mbind option_bind gained].
        destruct (decide (stall_class (Server r) = c)) as [Hc|Hc].
        -- rewrite decide_True by done. by destruct (Quality t c !! k), (Watching t c !! k).
        -- rewrite decide_False by (by intros [_ ?]). by destruct (Quality t c !! k), (Watching t c !! k).
      * rewrite (decide_False (P := j = k ∧ _)) by (by intros [? _]). cbn [gained].
        destruct (decide (S k ≤ j)%nat) as [Hle|Hle].
        -- rewrite (decide_True (P := (k ≤ j)%nat)) by lia. replace (j - k)%nat with (S (j - S k)) by lia.
           cbn [lookup list_lookup]. by destruct (Quality t c !! j), (Watching t c !! j).
        -- rewrite (decide_False (P := (k ≤ j)%nat)) by lia. by destruct (Quality t c !! j), (Watching t c !! j).
    + destruct IH as [-> IH]. split; [done|]. cbn. lia.
Qed.

Definition changes (clients : list (list playback)) : list (xfloat * xfloat) :=
  base.filter (λ p, xeqb p.2 p.1 = false) (concat (level_pairs <$> clients)).
Definition upward (p : xfloat * xfloat) : Prop := xlt p.1 p.2 = true.

Lemma count_switches ps sw :
  let sw' := fold_left count_switch ps sw in
  let cs := base.filter (λ p, xeqb p.2 p.1 = false) ps in
  bitSwitch sw' = bitSwitch sw + Z.of_nat (length cs) ∧
  bitSwitchUp sw' = bitSwitchUp sw + Z.of_nat (length (base.filter upward cs)) ∧
  bitSwitchDown sw' = bitSwitchDown sw + Z.of_nat (length (base.filter (λ p, ¬ upward p) cs)).
Proof.
  cbv zeta. revert sw. induction ps as [|p ps IH]; intros sw; cbn [fold_left]; [cbn; lia|].
  destruct (IH (count_switch sw p)) as (-> & -> & ->). rewrite !filter_cons. unfold count_switch, upward.
  destruct (xeqb p.2 p.1); cbn [bool_decide]; [rewrite !decide_False by done; lia|].
  rewrite !(decide_True (P := false = false)) by done. rewrite !filter_cons.
  destruct (xlt p.1 p.2).
  - rewrite (decide_True (P := true = true)), (decide_False (P := true ≠ true)) by (done || by intros H; apply H).
    cbn [bitSwitch bitSwitchUp bitSwitchDown length]. lia.
  - rewrite (decide_False (P := false = true)), (decide_True (P := false ≠ true)) by done.
    cbn [bitSwitch bitSwitchUp bitSwitchDown length]. lia.
Qed.

(** The state after some clients: [t] and [sw] count exactly these. *)
Definition counted (n : nat) (clients : list (list playback)) (t : tally) (sw : switches) : Prop :=
  Forall (λ rows, length rows ≤ S n)%nat clients ∧ wf_tally n t ∧
  (∀ c i, (i < n)%nat →
     Quality t c !! i = Some (xsum (qualityLevel <$> watched c i clients)) ∧
     Watching t c !! i = Some (of_Z (Z.of_nat (length (watched c i clients))))) ∧
  bitSwitch sw = Z.of_nat (length (changes clients)) ∧
  bitSwitchUp sw = Z.of_nat (length (base.filter upward (changes clients))) ∧
  bitSwitchDown sw = Z.of_nat (length (base.filter (λ p, ¬ upward p) (changes clients))).

Lemma watched_snoc c i clients rows :
  watched c i (clients ++ [rows]) = watched c i clients ++ option_list (gain c i rows).
Proof. unfold watched. rewrite omap_app. cbn. by destruct (gain c i rows). Qed.

Lemma counted_nil n : counted n [] (zero_tally n) no_switches.
Proof.
  split_and!; try done.
  - intros c. unfold zero_tally, zeros. cbn [Quality Watching]. by rewrite !length_replicate.
  - intros c i Hi. unfold zero_tally, zeros. cbn [Quality Watching]. by rewrite lookup_replicate_2.
Qed.

Lemma client_file_spec n clients e t sw text rows :
  playback_rows text = Ok rows → counted n clients t sw →
  match client_file (e, t, sw) text with
  | Ok (e', t', sw') => e' = compare_client e rows ∧ counted n (clients ++ [rows]) t' sw'
  | Raise x => x = IndexError ∧ (S n < length rows)%nat
  end.
Proof.
  intros Hrows (Hlen & Hwf & Hcount & Hs & Hu & Hd). unfold client_file. rewrite Hrows. cbn [mbind res_bind].
  pose proof (count_segments_spec n (take (length rows - 1) rows) 0 t Hwf) as H.
  unfold shown_segments. change (imap pair) with (imap (λ j, @pair nat playback (0 + j)%nat)).
  destruct (fold_res count_segment t _) as [t'|x]; cbn [mbind res_bind].
  2: { destruct H as [-> H]. rewrite length_take in H. split; [done|lia]. }
  destruct H as (Hn & Hwf' & Ht). split; [done|]. split_and!; [|done|..].
  - apply Forall_app. split; [done|]. constructor; [|constructor].
    destruct Hn as [Hn|Hn]; [rewrite length_take in Hn; lia|].
    apply (f_equal length) in Hn. rewrite length_take in Hn. cbn in Hn. lia.
  - intros c i Hi. destruct (Ht c i) as [Hq Hw], (Hcount c i Hi) as [Hq0 Hw0]. cbv zeta in Hq, Hw.
    rewrite decide_True, Nat.sub_0_r in Hq, Hw by lia. fold (gain c i rows) in Hq, Hw.
    rewrite Hq, Hw, Hq0, Hw0, watched_snoc. destruct (gain c i rows) as [r|]; cbn [fmap option_fmap option_map gained option_list].
    + unfold xsum. rewrite fmap_app, fold_left_app, length_app, of_Z_succ. cbn. by rewrite Nat.add_1_r.
    + by rewrite app_nil_r.
  - destruct (count_switches (level_pairs rows) sw) as (H1 & _ & _). rewrite H1, Hs. unfold changes.
    rewrite fmap_app, concat_app, filter_app, length_app. cbn. rewrite app_nil_r. lia.
  - destruct (count_switches (level_pairs rows) sw) as (_ & H1 & _). rewrite H1, Hu. unfold changes.
    rewrite fmap_app, concat_app, !filter_app, length_app. cbn. rewrite app_nil_r. lia.
  - destruct (count_switches (level_pairs rows) sw) as (_ & _ & H1). rewrite H1, Hd. unfold changes.
    rewrite fmap_app, concat_app, !filter_app, length_app. cbn. rewrite app_nil_r. lia.
Qed.

Lemma client_files_spec n files : ∀ todo clients e t sw,
  mapM_res playback_rows files = Ok todo → counted n clients t sw →
  match fold_res client_file (e, t, sw) files with
  | Ok (e', t', sw') => e' = fold_left compare_client todo e ∧ counted n (clients ++ todo) t' sw'
  | Raise x => x = IndexError ∧ Exists (λ rows, S n < length rows)%nat todo
  end.
Proof.
  induction files as [|text files IH]; intros todo clients e t sw; cbn [mapM_res fold_res].
  - intros [= <-] H. by rewrite app_nil_r.
  - intros (rows & Hrows & (todo' & Htodo & [= <-])%bind_ok_inv)%bind_ok_inv H.
    pose proof (client_file_spec n clients e t sw text rows Hrows H) as H1.
    destruct (client_file (e, t, sw) text) as [[[e1 t1] sw1]|x].
    + destruct H1 as [-> H1]. specialize (IH todo' (clients ++ [rows]) (compare_client e rows) t1 sw1 Htodo H1).
      destruct (fold_res client_file _ files) as [[[e2 t2] sw2]|x]; [by rewrite <-app_assoc in IH|].
      destruct IH as [-> ?]. split; [done|]. by right.
    + destruct H1 as [-> ?]. split; [done|]. by left.
Qed.

Definition quotient (x y : xfloat) : xfloat := if xzero y then of_Z (-1) else np_div x y.
Lemma divisor_ok v1 v2 : length v1 = length v2 → divisor v1 v2 = Ok (zip_with quotient v1 v2).
Proof.
  revert v2. induction v1 as [|x v1 IH]; intros [|y v2]; try done. cbn. intros [= H]. by rewrite IH.
Qed.
Lemma for_servers_ok {A} (f : stall_server → res exn A) g :
  (∀ c, f c = Ok (g c)) → ∃ h, for_servers f = Ok h ∧ ∀ c, h c = g c.
Proof. intros H. unfold for_servers. rewrite !H. eexists. split; [done|]. by intros []. Qed.

Lemma summarise_spec n clients t sw :
  counted n clients t sw →
  ∃ r, summarise t sw = Ok r ∧
    (∀ c i, (i < n)%nat →
       SClientsMean r c !! i = Some (of_Z (Z.of_nat (length (watched c i clients)))) ∧
       SQualityMean r c !! i =
         Some (match watched c i clients with [] => of_Z 0 | l => bitrate (np_mean (qualityLevel <$> l)) end)) ∧
    (∀ c, length (SClientsMean r c) = n ∧ length (SQualityMean r c) = n) ∧
    bitSwitchMean r = np_div (of_Z (bitSwitch sw)) (of_Z group_size) ∧
    bitSwitchUpMean r = np_div (of_Z (bitSwitchUp sw)) (of_Z group_size) ∧
    bitSwitchDownMean r = np_div (of_Z (bitSwitchDown sw)) (of_Z group_size).
Proof.
  intros (_ & Hwf & Hcount & _). unfold summarise.
  destruct (for_servers_ok (λ c, divisor (Quality t c) (Watching t c)) (λ c, zip_with quotient (Quality t c) (Watching t c)))
    as (h & -> & Hh).
  { intros c. apply divisor_ok. destruct (Hwf c). congruence. }
  eexists. split; [done|]. cbn [SClientsMean SQualityMean bitSwitchMean bitSwitchUpMean bitSwitchDownMean].
  split; [|split; [|done]].
  - intros c i Hi. destruct (Hcount c i Hi) as [Hq Hw]. split; [done|]. unfold toBitrate.
    rewrite Hh, list_lookup_fmap, lookup_zip_with, Hq, Hw. f_equal.
    destruct (watched c i clients) as [|r l]; [done|]. cbn [Nat.add]. unfold np_mean, quotient. by rewrite length_fmap.
  - intros c. destruct (Hwf c) as [Hq Hw]. unfold toBitrate. rewrite length_fmap, Hh, length_zip_with, Hq, Hw. split; [done|lia].
Qed.

(** Every client that goes beyond a segment watches it on one server. *)
Lemma watched_total i clients :
  (length (watched S1 i clients) + length (watched S2 i clients) + length (watched S3 i clients)
     + length (watched Cloud i clients) = length (base.filter (λ rows, S i < length rows)%nat clients))%nat.
Proof.
  induction clients as [|rows clients IH]; [done|]. unfold watched, gain in *. cbn [omap list_omap]. rewrite filter_cons.
  destruct (decide (S i < length rows)%nat) as [Hi|Hi].
  - destruct (lookup_lt_is_Some_2 (take (length rows - 1) rows) i) as [r ->]; [rewrite length_take; lia|].
    cbn [mbind option_bind length]. destruct (stall_class (Server r));
      repeat (case_decide; try done); cbn [length]; lia.
  - rewrite (lookup_ge_None_2 (take _ rows)) by (rewrite length_take; lia). cbn [mbind option_bind length]. lia.
Qed.

(** C27: When every line of the logs can be read, a simulation ends with an [IndexError]
    exactly when a client has more than one row beyond the number of segments.
    Otherwise each client counts once per segment but its last, under the server
    of its row; the bitrate of a segment is that of the mean level of its clients,
    and 0 without any; each change of the level counts once, as up or as down. *)
Theorem segments_counted n e rs files clients :
  mapM_res playback_rows files = Ok clients →
  match quality_run n (e, rs) files with
  | Ok (e', rs') =>
      Forall (λ rows, length rows ≤ S n)%nat clients ∧ e' = fold_left compare_client clients e ∧
      ∃ r, rs' = rs ++ [r] ∧
        (∀ c i, (i < n)%nat →
           SClientsMean r c !! i = Some (of_Z (Z.of_nat (length (watched c i clients)))) ∧
           SQualityMean r c !! i =
             Some (match watched c i clients with [] => of_Z 0 | l => bitrate (np_mean (qualityLevel <$> l)) end)) ∧
        (∀ i, length (watched S1 i clients) + length (watched S2 i clients) + length (watched S3 i clients)
                + length (watched Cloud i clients) = length (base.filter (λ rows, S i < length rows) clients))%nat ∧
        ∃ up down, (up + down = length (changes clients))%nat ∧
          bitSwitchMean r = np_div (of_Z (Z.of_nat (up + down))) (of_Z group_size) ∧
          bitSwitchUpMean r = np_div (of_Z (Z.of_nat up)) (of_Z group_size) ∧
          bitSwitchDownMean r = np_div (of_Z (Z.of_nat down)) (of_Z group_size)
  | Raise x => x = IndexError ∧ Exists (λ rows, S n < length rows)%nat clients
  end.
Proof.
  intros Hread. unfold quality_run. cbn [fst snd].
  pose proof (client_files_spec n files clients [] e _ _ Hread (counted_nil n)) as H.
  destruct (fold_res client_file _ files) as [[[e' t] sw]|x]; cbn [mbind res_bind]; [|done].
  destruct H as [-> Hc]. cbn [app] in Hc. destruct (summarise_spec n clients t sw Hc) as (r & -> & H1 & _ & H2 & H3 & H4).
  destruct Hc as (Hlen & _ & _ & Hs & Hu & Hd). cbn [mbind res_bind]. split; [done|]. split; [done|].
  exists r. split; [done|]. split; [done|]. split; [intros i; apply watched_total|].
  exists (length (base.filter upward (changes clients))), (length (base.filter (λ p, ¬ upward p) (changes clients))).
  assert (∀ l : list (xfloat * xfloat), (length (base.filter upward l) + length (base.filter (λ p, ¬ upward p) l) = length l)%nat)
    as Hpart.
  { intros l. induction l as [|p l IH]; [done|]. rewrite !filter_cons. unfold upward in *.
    repeat case_decide; try tauto; cbn [length]; lia. }
  rewrite Hpart. rewrite H2, H3, H4, Hs, Hu, Hd. done.
Qed.

(** ** The best and the worst client *)

(** Some rows, levels that are not negative, and a score below the first worst one. *)
Definition scored (rows : list playback) : Prop :=
  rows ≠ [] ∧ Forall (λ r, finite (qualityLevel r) ∧ 0 <= xval (qualityLevel r))%Q rows ∧
  xlt (ClientScore rows) (of_Z 10000000) = true.
Definition improves (a b : list playback) : Prop := xlt (ClientScore a) (ClientScore b) = true.

Lemma xlt_val a b : finite a → finite b → xlt a b = true ↔ (xval a < xval b)%Q.
Proof. intros Ha Hb. by apply is_xlt; apply finite_is. Qed.
Lemma xlt_val_false a b : finite a → finite b → xlt a b = false ↔ (xval b <= xval a)%Q.
Proof.
  intros Ha Hb. rewrite <-not_true_iff_false, xlt_val by done. split; [apply Qnot_lt_le|apply Qle_not_lt].
Qed.
Lemma score_value rows : scored rows → finite (ClientScore rows) ∧ (0 <= xval (ClientScore rows))%Q.
Proof.
  intros (_ & H & _). assert (Forall2 isq (qualityLevel <$> rows) (xval <$> (qualityLevel <$> rows))) as H2.
  { apply Forall2_is, Forall_fmap. eapply Forall_impl; [exact H|]. by intros r [? _]. }
  pose proof (is_sum _ _ H2) as Hs. split; [by eapply is_finite|].
  rewrite (is_unique _ _ _ (finite_is _ (is_finite _ _ Hs)) Hs). apply Qsum_nonneg.
  rewrite !Forall_fmap. eapply Forall_impl; [exact H|]. by intros r [_ ?].
Qed.

Lemma StronglySorted_snoc {A} (R : A → A → Prop) l x :
  StronglySorted R (l ++ [x]) ↔ StronglySorted R l ∧ Forall (λ y, R y x) l.
Proof.
  induction l as [|y l IH]; cbn.
  - split; [by intros _; split; constructor|]. intros _. by repeat constructor.
  - split.
    + intros [H1 H2]%StronglySorted_inv. apply IH in H1 as [H1 H3]. apply Forall_app in H2 as [H2 H4].
      apply Forall_cons in H4 as [H4 _]. by split; constructor.
    + intros [[H1 H2]%StronglySorted_inv [H3 H4]%Forall_cons]. constructor; [by apply IH|].
      apply Forall_app. split; [done|by repeat constructor].
Qed.

Lemma extremes_spec clients :
  Forall scored clients →
  let e := fold_left compare_client clients no_extremes in
  (clients = [] ∧ e = no_extremes ∨ bestClient e ∈ clients ∧ bestScore e = ClientScore (bestClient e)) ∧
  (∀ rows, rows ∈ clients → (xval (ClientScore rows) <= xval (bestScore e))%Q) ∧
  (worstClient e = [] ∧ worstScore e = of_Z 10000000 ∧ StronglySorted improves clients ∨
   worstClient e ∈ clients ∧ ¬ StronglySorted improves clients).
Proof.
  cbv zeta. induction clients as [|rows clients IH] using rev_ind.
  { intros _. cbn. split; [by left|]. split; [by intros ? ?%elem_of_nil|]. left. split_and!; [done..|constructor]. }
  intros [Hc Hr]%Forall_app. apply Forall_cons in Hr as [Hr _]. destruct (IH Hc) as (Hbest & Hmax & Hworst). clear IH.
  rewrite fold_left_app, StronglySorted_snoc. cbn [fold_left]. set (e := fold_left compare_client clients no_extremes) in *.
  destruct (score_value rows Hr) as [Hfin Hpos].
  assert (finite (bestScore e)) as Hbf.
  { destruct Hbest as [[_ ->]|[Hin ->]]; [by eexists|]. rewrite Forall_forall in Hc. by apply score_value, Hc. }
  unfold compare_client. destruct (xlt (bestScore e) (ClientScore rows)) eqn:Eb.
  - apply xlt_val in Eb; [|done..]. cbn [bestClient bestScore worstClient worstScore]. split_and!.
    + right. split; [set_solver|done].
    + intros rs [Hrs| ->%list_elem_of_singleton]%elem_of_app; [|apply Qle_refl]. specialize (Hmax rs Hrs). lra.
    + destruct Hworst as [(-> & -> & Hs)|[Hin Hs]]; [left|right; split; [set_solver|tauto]].
      split_and!; [done..|]. apply Forall_forall. intros rs Hrs. specialize (Hmax rs Hrs).
      rewrite Forall_forall in Hc. apply xlt_val; [by apply score_value, Hc|done|lra].
  - apply xlt_val_false in Eb; [|done..].
    assert (bestClient e ∈ clients ∧ bestScore e = ClientScore (bestClient e)) as [Hin Hsc].
    { destruct Hbest as [[_ He]|?]; [|done]. rewrite He in Eb. change (xval (bestScore no_extremes)) with (-1)%Q in Eb. lra. }
    assert (¬ (StronglySorted improves clients ∧ Forall (λ y, improves y rows) clients)) as Hns.
    { intros [_ H]. rewrite Forall_forall in H. specialize (H _ Hin). unfold improves in H. rewrite <-Hsc in H.
      apply xlt_val in H; [|done..]. lra. }
    assert (∀ rs, rs ∈ clients ++ [rows] → (xval (ClientScore rs) <= xval (bestScore e))%Q) as Hmax'
      by (intros rs [Hrs| ->%list_elem_of_singleton]%elem_of_app; auto).
    destruct (xlt (ClientScore rows) (worstScore e)) eqn:Ew; cbn [bestClient bestScore worstClient worstScore];
      (split; [right; split; [set_solver|done]|split; [done|right; split; [|done]]]); [set_solver|].
    destruct Hworst as [(_ & Hw & _)|[? _]]; [|set_solver]. rewrite Hw in Ew. destruct Hr as (_ & _ & Hr). congruence.
Qed.

(** *** The report *)

Lemma bitrate_finite x : finite x → finite (bitrate x).
Proof.
  intros Hx. destruct (xeqb x (of_Z (-1))) eqn:E.
  - unfold bitrate. rewrite E. by eexists.
  - destruct (bitrate_pieces x _ (finite_is x Hx)) as (r & Hr & _); [|by eapply is_finite].
    intros Hq. apply (is_xeqb _ _ _ _ (finite_is x Hx) (is_of_Z (-1))) in Hq. congruence.
Qed.
Lemma mean_finite v : v ≠ [] → Forall finite v → finite (np_mean v).
Proof. intros Hv H. eapply is_finite, is_mean; [done|]. by apply Forall2_is. Qed.
Lemma mean_columns_finite n m :
  n ≠ 0%nat → m ≠ [] → Forall (λ row, length row = n ∧ Forall finite row) m →
  mean_columns m ≠ [] ∧ Forall finite (mean_columns m).
Proof.
  intros Hn Hm H. assert (width m = n) as Hw by (destruct H as [|row m' [<- _] _]; done).
  unfold mean_columns, divide_by, sum_columns. rewrite Hw, <-list_fmap_compose. split.
  - intros E%fmap_nil_inv. destruct n; [done|]. by cbn in E.
  - apply Forall_fmap, Forall_forall. intros j Hj%elem_of_seq. cbn.
    assert (Forall finite (column m j)) as Hc.
    { apply Forall_fmap. eapply Forall_impl; [exact H|]. intros row [Hl Hf]. cbn.
      destruct (lookup_lt_is_Some_2 row j) as [x Hx]; [lia|]. rewrite Hx. cbn. by eapply Forall_lookup_1. }
    eapply is_finite, is_div; [|apply is_sum, Forall2_is; exact Hc|apply is_of_Z]. apply of_nat_nonzero. by destruct m.
Qed.

Definition settled (n : nat) (r : summary) : Prop :=
  ∀ c, length (SQualityMean r c) = n ∧ Forall finite (SQualityMean r c).

Lemma watched_elem c i clients r : r ∈ watched c i clients → ∃ rows, rows ∈ clients ∧ r ∈ rows.
Proof.
  intros (rows & Hrows & Hg)%list_elem_of_omap. exists rows. split; [done|]. unfold gain in Hg.
  destruct (take _ rows !! i) as [r'|] eqn:E; [|done]. cbn in Hg. case_decide; [|done]. injection Hg as <-.
  rewrite lookup_take_Some in E. eapply list_elem_of_lookup_2. apply E.
Qed.

Lemma summarise_settled n clients t sw :
  counted n clients t sw → Forall scored clients → ∃ r, summarise t sw = Ok r ∧ settled n r.
Proof.
  intros Hc Hs. destruct (summarise_spec n clients t sw Hc) as (r & Hr & H & Hlen & _). exists r. split; [done|].
  intros c. destruct (Hlen c) as [_ Hl]. split; [done|]. apply Forall_lookup. intros i x Hx.
  destruct (H c i) as [_ Hq]; [rewrite <-Hl; by eapply lookup_lt_Some|]. rewrite Hx in Hq. injection Hq as ->.
  assert (Forall finite (qualityLevel <$> watched c i clients)) as Hf.
  { rewrite Forall_fmap, Forall_forall. intros z (rows & Hrows & Hz)%watched_elem. rewrite Forall_forall in Hs.
    destruct (Hs rows Hrows) as (_ & Hf & _). rewrite Forall_forall in Hf. by apply Hf. }
  destruct (watched c i clients) as [|y l]; [by eexists|]. by apply bitrate_finite, mean_finite.
Qed.

Lemma quality_runs_spec n runs : ∀ clientss e rs,
  mapM_res (mapM_res playback_rows) runs = Ok clientss →
  Forall scored (concat clientss) → Forall (λ rows, length rows ≤ S n)%nat (concat clientss) → Forall (settled n) rs →
  ∃ rs', fold_res (quality_run n) (e, rs) runs = Ok (fold_left compare_client (concat clientss) e, rs ++ rs') ∧
    length rs' = length runs ∧ Forall (settled n) rs'.
Proof.
  induction runs as [|files runs IH]; intros clientss e rs; cbn [mapM_res fold_res].
  { intros [= <-] _ _ _. exists []. by rewrite app_nil_r. }
  intros (clients & Hfiles & (clientss' & Hruns & [= <-])%bind_ok_inv)%bind_ok_inv. cbn [concat].
  intros [Hs Hs']%Forall_app [Hl Hl']%Forall_app Hrs. unfold quality_run at 1. cbn [fst snd].
  pose proof (client_files_spec n files clients [] e _ _ Hfiles (counted_nil n)) as H.
  destruct (fold_res client_file _ files) as [[[e1 t] sw]|x]; cbn [mbind res_bind].
  - destruct H as [-> Hc]. destruct (summarise_settled n _ t sw Hc Hs) as (r & -> & Hr). cbn [mbind res_bind mret res_ret].
    destruct (IH clientss' (fold_left compare_client clients e) (rs ++ [r]) Hruns Hs' Hl') as (rs' & -> & Hlen & Hrs').
    { apply Forall_app. split; [done|]. constructor; [done|constructor]. }
    exists (r :: rs'). rewrite fold_left_app, <-app_assoc. split; [done|]. split; [cbn; lia|by constructor].
  - exfalso. destruct H as [_ H]. clear -H Hl. induction H as [rows l Hx|rows l _ IH]; apply Forall_cons in Hl as [? ?]; [lia|auto].
Qed.

Lemma int_of_mean v : int_of_float (np_mean v) = Raise ValueError ∧ v = [] ∨
  v ≠ [] ∧ (Forall finite v → ∃ z, int_of_float (np_mean v) = Ok z).
Proof.
  destruct v as [|x v]; [by left|right]. split; [done|]. intros H. destruct (mean_finite (x :: v)) as [q ->]; [done..|].
  by eexists.
Qed.

(** When every log can be read, has a row, levels that are not negative and a
    score below ten millions, [qualityGraphs] ends with a [ValueError] exactly when
    each client scores more than all before it, as a single one does: then there is
    no worst client to take the mean of.  Otherwise it produces its report. *)
Theorem worst_client_needed np_std np_sqrt n runs clientss :
  n ≠ 0%nat → runs ≠ [] → mapM_res (mapM_res playback_rows) runs = Ok clientss →
  Forall scored (concat clientss) → Forall (λ rows, length rows ≤ S n)%nat (concat clientss) →
  (qualityGraphs np_std np_sqrt n runs = Raise ValueError ↔ StronglySorted improves (concat clientss)) ∧
  (¬ StronglySorted improves (concat clientss) → ∃ report, qualityGraphs np_std np_sqrt n runs = Ok report).
Proof.
  intros Hn Hruns Hread Hs Hl. unfold qualityGraphs.
  destruct (quality_runs_spec n runs clientss no_extremes [] Hread Hs Hl) as (rs & -> & Hlen & Hrs); [constructor|].
  cbn [mbind res_bind app]. set (e := fold_left compare_client (concat clientss) no_extremes).
  assert (rs ≠ []) as Hne by (intros ->; by destruct runs).
  assert (∀ c, ∃ z, int_of_float (np_mean (mean_columns ((λ r, SQualityMean r c) <$> rs))) = Ok z) as Hz.
  { intros c. destruct (mean_columns_finite n ((λ r, SQualityMean r c) <$> rs)) as [H1 H2]; [done|by destruct rs| |].
    - apply Forall_fmap. eapply Forall_impl; [exact Hrs|]. intros r Hr. apply Hr.
    - by destruct (mean_finite _ H1 H2) as [q ->]; eexists. }
  destruct (for_servers_ok (λ c, int_of_float (np_mean (mean_columns ((λ r, SQualityMean r c) <$> rs))))
    (λ c, match int_of_float (np_mean (mean_columns ((λ r, SQualityMean r c) <$> rs))) with Ok z => z | Raise _ => 0 end))
    as (means & -> & _); [by intros c; destruct (Hz c) as [z ->]|]. cbn [mbind res_bind].
  destruct (extremes_spec _ Hs) as (Hbest & _ & Hworst). fold e in Hbest, Hworst. rewrite Forall_forall in Hs.
  assert (∀ rows, rows ∈ concat clientss → ∃ z, int_of_float (np_mean (toBitrate (qualityLevel <$> rows))) = Ok z) as Hint.
  { intros rows (Hr0 & Hr & _)%Hs. destruct (int_of_mean (toBitrate (qualityLevel <$> rows))) as [[_ H]|[_ H]].
    - apply fmap_nil_inv, fmap_nil_inv in H. done.
    - apply H. unfold toBitrate. rewrite !Forall_fmap. eapply Forall_impl; [exact Hr|]. intros r [? _]. by apply bitrate_finite. }
  destruct Hbest as [[Hc He]|[Hin _]].
  { rewrite He, Hc. cbn. split; [split; [by intros _; constructor|done]|]. intros []. constructor. }
  destruct (Hint _ Hin) as [z ->]. cbn [mbind res_bind]. destruct Hworst as [(-> & _ & Hsort)|[Hin' Hns]].
  - cbn. split; [by split|]. by intros [].
  - destruct (Hint _ Hin') as [z' ->]. cbn [mbind res_bind mret res_ret]. split; [by split|]. by eexists.
Qed.

(** ** Throughput *)

Lemma mapM_res_concat {A B} (f : A → res exn B) ls yss :
  mapM_res (mapM_res f) ls = Ok yss → mapM_res f (concat ls) = Ok (concat yss).
Proof.
  revert yss. induction ls as [|l ls IH]; intros yss; cbn [mapM_res concat]; [by intros [= <-]|].
  intros (ys & Hys & (zss & Hzss & [= <-])%bind_ok_inv)%bind_ok_inv. cbn [concat]. specialize (IH zss Hzss). clear Hzss.
  revert ys Hys. induction l as [|x l IHl]; intros ys; cbn [mapM_res app]; [by intros [= <-]|].
  intros (y & -> & (ys' & Hys & [= <-])%bind_ok_inv)%bind_ok_inv. cbn [mbind res_bind]. by rewrite (IHl ys' Hys).
Qed.

Lemma omap_seq_shift {B} (f : nat → option B) n : omap f (seq 1 n) = omap (f ∘ S) (seq 0 n).
Proof. rewrite <-fmap_S_seq. generalize (seq 0 n). intros l. induction l as [|i l IH]; [done|]. cbn. by rewrite <-IH. Qed.
Lemma omap_seq_none {B} (f : nat → option B) a n : (∀ i, (a ≤ i)%nat → f i = None) → omap f (seq a n) = [].
Proof. revert a. induction n as [|n IH]; intros a H; [done|]. cbn. rewrite (H a), IH; [done|intros; apply H; lia|lia]. Qed.

Lemma stride_groups {A} (k n : nat) (gs : list (list A)) :
  (k < n)%nat → Forall (λ g, length g = n) gs → stride k n (concat gs) = omap (.!! k) gs.
Proof.
  intros Hk. induction 1 as [|g gs Hg _ IH]; [done|]. cbn [concat omap list_omap].
  assert (∀ a l : list A, stride k n (a ++ l) = omap (λ i, (a ++ l) !! (k + n * i)%nat) (seq 0 (length a + length l))) as Hs
    by (intros; unfold stride; by rewrite length_app).
  rewrite Hs, Hg. destruct n as [|n]; [lia|]. cbn [Nat.add seq omap list_omap]. rewrite Nat.mul_0_r, Nat.add_0_r, lookup_app_l by lia.
  assert (omap (λ i, (g ++ concat gs) !! (k + S n * i)%nat) (seq 1 (n + length (concat gs))) = omap (.!! k) gs) as ->.
  { rewrite omap_seq_shift, <-IH, Nat.add_comm, seq_app, omap_app. unfold stride. cbn [Nat.add].
    assert (∀ i, ((λ i, (g ++ concat gs) !! (k + S n * i)%nat) ∘ S) i = concat gs !! (k + S n * i)%nat) as Hi.
    { intros i. cbn. rewrite lookup_app_r by lia. f_equal. lia. }
    rewrite (omap_seq_none _ (length (concat gs))), app_nil_r.
    - generalize (seq 0 (length (concat gs))). intros l. induction l as [|i l IHl]; [done|]. cbn [omap list_omap].
      by rewrite Hi, IHl.
    - intros i Hle. rewrite Hi. apply lookup_ge_None. lia. }
  done.
Qed.

Lemma shortest_spec ls l :
  shortest ls = Ok l → l ∈ ls ∧ ∀ l', l' ∈ ls → (length l ≤ length l')%nat.
Proof.
  destruct ls as [|l0 ls]; [done|]. intros [= <-]. revert l0. unfold min_by.
  induction ls as [|l1 ls IH]; intros l0; cbn [fold_left].
  - split; [by left|]. by intros l' ->%list_elem_of_singleton.
  - destruct (IH (if (length l1 <? length l0)%nat then l1 else l0)) as [H1 H2]. clear IH. split.
    + apply elem_of_cons in H1 as [-> |?]; [|by right; right]. destruct (_ <? _)%nat; [right; left|left].
    + intros l' [-> | [-> |Hl']%elem_of_cons]%elem_of_cons.
      * etransitivity; [apply H2; by left|]. destruct (_ <? _)%nat eqn:E; [apply Nat.ltb_lt in E|]; lia.
      * etransitivity; [apply H2; by left|]. destruct (_ <? _)%nat eqn:E; [|apply Nat.ltb_ge in E]; lia.
      * apply H2. by right.
Qed.

(** What the server [k] reported in row [t], run by run. *)
Definition reported (f : reading → xfloat) (k t : nat) (logss : list (list (list reading))) : vector :=
  omap (λ logs, log ← logs !! k; f <$> log !! t) logss.

Lemma server_rows_spec f k n runs logss :
  (k < 4)%nat → logss ≠ [] → Forall (λ logs, length logs = 4%nat) logss →
  Forall (λ log, n ≤ length log)%nat (concat logss) →
  ∃ v, server_rows runs n f (concat logss) k = Rows v ∧ length v = n ∧
    ∀ t, (t < n)%nat → length (reported f k t logss) = length logss ∧
      v !! t = Some (np_div (xsum (reported f k t logss)) (of_Z runs)).
Proof.
  intros Hk Hne H4 Hlen. unfold server_rows.
  assert (map (map f) (concat logss) = concat (map (map (map f)) logss)) as -> by apply concat_map.
  rewrite stride_groups; [|done|].
  2: { apply list.Forall_fmap. eapply Forall_impl; [exact H4|]. intros logs Hl. cbn. by rewrite length_map. }
  assert (∃ cols : list (list reading), omap (.!! k) (map (map (map f)) logss) = map (map f) cols ∧
    length cols = length logss ∧ Forall (λ log, n ≤ length log)%nat cols ∧
    ∀ t, reported f k t logss = omap (λ log, f <$> log !! t) cols) as (cols & -> & Hc & Hcl & Hrep).
  { clear Hne. induction logss as [|logs logss IH]; [by exists []|]. cbn [concat] in Hlen.
    apply Forall_cons in H4 as [H4 H4']. apply Forall_app in Hlen as [Hl Hl'].
    destruct (IH H4' Hl') as (cols & H1 & H2 & H3 & H5).
    destruct (lookup_lt_is_Some_2 logs k) as [log Hlog]; [lia|]. exists (log :: cols). split_and!.
    - cbn [map omap list_omap]. rewrite H1. change (map (map f) logs) with (map f <$> logs).
      rewrite list_lookup_fmap, Hlog. done.
    - cbn. by rewrite H2.
    - constructor; [|done]. by eapply Forall_lookup_1 in Hl.
    - intros t. unfold reported in *. cbn [omap list_omap]. rewrite Hlog. cbn [mbind option_bind].
      by rewrite H5. }
  destruct cols as [|log cols]; [by destruct logss|]. cbn [map fmap list_fmap]. unfold sum_rows.
  eexists. split; [done|]. unfold divide_by, sum_columns. cbn [width]. apply Forall_cons in Hcl as [Hlog Hcl].
  rewrite !length_fmap, length_seq, length_take, length_map, Nat.min_l by done. split; [done|].
  intros t Ht. rewrite Hrep. assert (∀ cs, Forall (λ log, n ≤ length log)%nat cs →
    length (omap (λ log, f <$> log !! t) cs) = length cs ∧
    column (take n <$> map (map f) cs) t = omap (λ log, f <$> log !! t) cs) as Hcol.
  { clear -Ht. induction cs as [|l cs IH]; [done|]. intros [Hl Hcs]%Forall_cons. destruct (IH Hcs) as [IH1 IH2].
    destruct (lookup_lt_is_Some_2 l t) as [r Hr]; [lia|]. cbn [omap list_omap map fmap list_fmap]. rewrite Hr.
    cbn [fmap option_fmap option_map length]. split; [by rewrite IH1|]. unfold column in *. cbn [fmap list_fmap].
    rewrite lookup_take_lt by done. change (map f l) with (f <$> l). rewrite list_lookup_fmap, Hr. cbn [fmap option_fmap option_map default].
    by rewrite <-IH2. }
  destruct (Hcol (log :: cols)) as [Hl Hcc]; [by constructor|]. rewrite Hl, <-Hc. split; [done|].
  rewrite !list_lookup_fmap, lookup_seq_lt by done. cbn [fmap option_fmap option_map Nat.add]. by rewrite <-Hcc.
Qed.

(** When every run has the logs of four servers, the times are those of a shortest
    log, and for each server and each of these rows the throughput shown is the mean
    over the runs of what that server reported in that row; so is the average. *)
Theorem throughput_means runs logss :
  runs ≠ [] → mapM_res (mapM_res throughput_rows) runs = Ok logss →
  Forall (λ logs, length logs = 4%nat) logss →
  ∃ log out, throughtputServer runs = Ok out ∧ length out = 4%nat ∧
    log ∈ concat logss ∧ (∀ log', log' ∈ concat logss → length log ≤ length log')%nat ∧
    ∀ k, (k < 4)%nat → ∃ v w, out !! k = Some (map time_of log, Rows v, Rows w) ∧
      length v = length log ∧ length w = length log ∧
      ∀ t, (t < length log)%nat →
        length (reported mbps_of k t logss) = length runs ∧
        v !! t = Some (np_mean (reported mbps_of k t logss)) ∧ w !! t = Some (np_mean (reported mme_of k t logss)).
Proof.
  intros Hne Hread H4. unfold throughtputServer. rewrite (mapM_res_concat _ _ _ Hread). cbn [mbind res_bind].
  pose proof (mapM_res_length _ _ _ Hread) as Hlen.
  assert (logss ≠ []) as Hne' by (intros ->; by destruct runs).
  destruct (shortest (map (map time_of) (concat logss))) as [times|e] eqn:Es.
  2: { destruct logss as [|logs logss]; [done|]. apply Forall_cons in H4 as [H4 _]. by destruct logs. }
  destruct (shortest_spec _ _ Es) as [Hin Hmin]. apply list_elem_of_fmap in Hin as (log & -> & Hlog).
  assert (∀ log', log' ∈ concat logss → (length log ≤ length log')%nat) as Hshort.
  { intros log' Hlog'. assert (map time_of log' ∈ map (map time_of) (concat logss)) as H
      by (apply list_elem_of_fmap; by exists log').
    apply Hmin in H. by rewrite !length_map in H. }
  exists log; eexists. split; [done|]. split; [done|]. split; [done|]. split; [done|]. intros k Hk.
  rewrite list_lookup_fmap, lookup_seq_lt by done. cbn [fmap option_fmap option_map Nat.add]. rewrite !length_map.
  assert (Forall (λ log', length log ≤ length log')%nat (concat logss)) as Hall by by apply Forall_forall.
  destruct (server_rows_spec mbps_of k _ (Z.of_nat (length runs)) logss Hk Hne' H4 Hall) as (v & -> & Hv & Hvt).
  destruct (server_rows_spec mme_of k _ (Z.of_nat (length runs)) logss Hk Hne' H4 Hall) as (w & -> & Hw & Hwt).
  exists v, w. split_and!; [done..|]. intros t Ht. destruct (Hvt t Ht) as [L1 ->], (Hwt t Ht) as [L2 ->].
  unfold np_mean. rewrite L1, L2, Hlen. done.
Qed.

(** ** Concrete inputs *)

Definition text_of (lines : list string) : pystr := concat ((λ l, str l ++ [newline]) <$> lines).
Definition header : string := "Segment_Index;Playback_Start;Quality_Level;Server_Address".
Definition first_client : pystr :=
  text_of [header; "0;0.5;2;1.0.0.1;"; "1;2.5;3;1.0.0.3;"; "2;4.5;1;9.9.9.9;"]%string.
Definition second_client : pystr :=
  text_of [header; "0;0.5;4;1.0.0.1;"; "1;2.5;0.5;2.0.0.1;"; "2;4.5;0;1.0.0.1;"]%string.
Definition rows_of (text : pystr) : list playback := match playback_rows text with Ok rows => rows | Raise _ => [] end.
Definition both_clients : list (list playback) := [rows_of first_client; rows_of second_client].
Lemma both_read : mapM_res playback_rows [first_client; second_client] = Ok both_clients.
Proof. vm_compute. reflexivity. Qed.

Lemma bitrate_interpolates_witness :
  (map bitrate (of_Z <$> [-1; 0; 1; 2; 3; 4; 5; 6]) = of_Z <$> 0 :: ladder) ∧
  isq (bitrate (Fin (5 # 2))) (inject_Z 1000 + ((5 # 2) - 2) * (inject_Z 1500 - inject_Z 1000)).
Proof.
  split; [vm_compute; reflexivity|]. pose proof (proj1 bitrate_interpolates 2%nat 1000 1500 (Fin (5 # 2)) (5 # 2)
    eq_refl eq_refl (is_Fin _)) as H. apply H; vm_compute; congruence.
Defined.

Definition both_counted : res exn (extremes * list summary) :=
  quality_run 3 (no_extremes, []) [first_client; second_client].
Definition clients_counted : list vector :=
  match both_counted with Ok (_, [r]) => SClientsMean r <$> servers | _ => [] end.
Lemma segments_counted_witness :
  clients_counted = (map of_Z <$> [[2; 0; 0]; [0; 2; 0]; [0; 0; 0]; [0; 0; 0]]) ∧
  (length (watched S1 0 both_clients) + length (watched S2 0 both_clients) + length (watched S3 0 both_clients)
    + length (watched Cloud 0 both_clients) = 2)%nat.
Proof.
  split; [vm_compute; reflexivity|].
  pose proof (segments_counted 3 no_extremes [] _ _ both_read) as H. fold both_counted in H.
  destruct both_counted as [[e rs]|x] eqn:E; [|vm_compute in E; discriminate E].
  destruct H as (_ & _ & r & _ & _ & H & _). exact (H 0%nat).
Defined.

(** Alone, the first client is the best one; the second one scores less. *)
Definition no_std (v : vector) : xfloat := of_Z 0.
Lemma both_scored : Forall scored both_clients ∧ Forall (λ rows, length rows ≤ 4)%nat both_clients.
Proof.
  split; [|vm_compute; repeat constructor].
  assert (∀ rows, forallb (λ r, match qualityLevel r with Fin q => Qle_bool 0 q | _ => false end) rows
    && xlt (ClientScore rows) (of_Z 10000000) && negb (bool_decide (length rows = 0%nat)) = true → scored rows) as H.
  { intros rows [[Hq Hs]%andb_true_iff Hl%negb_true_iff]%andb_true_iff. apply bool_decide_eq_false in Hl.
    split; [by intros ->|]. split; [|done]. apply Forall_forall. intros r Hr.
    rewrite forallb_forall in Hq. specialize (Hq r (proj1 (list_elem_of_In _ _) Hr)).
    destruct (qualityLevel r) as [q| |]; [|done..]. split; [by exists q|]. by apply Qle_bool_iff. }
  constructor; [|constructor; [|constructor]]; apply H; vm_compute; reflexivity.
Qed.
Lemma worst_client_needed_witness :
  qualityGraphs no_std (λ x, x) 3 [[first_client]] = Raise ValueError ∧
  ∃ report, qualityGraphs no_std (λ x, x) 3 [[first_client; second_client]] = Ok report.
Proof.
  destruct both_scored as [Hs Hl]. split.
  - apply (worst_client_needed no_std (λ x, x) 3 [[first_client]] [[rows_of first_client]]);
      [discriminate|discriminate|vm_compute; reflexivity| | |repeat constructor].
    + inversion_clear Hs. by constructor.
    + inversion_clear Hl. by constructor.
  - apply (worst_client_needed no_std (λ x, x) 3 [[first_client; second_client]] [both_clients]);
      [discriminate|discriminate|vm_compute; reflexivity|exact Hs|exact Hl|].
    intros [_ H]%StronglySorted_inv. inversion_clear H as [|? ? Hi _]. by vm_compute in Hi.
Defined.

(** A table of 61 samples: the memory, the part that is free, and the content. *)
Definition sampled (total free : Z) : fog_log :=
  FogLog (replicate 61 (of_Z 1)) (replicate 61 (of_Z 2)) (replicate 61 (str "a/b/nan"))
    (replicate 61 (of_Z free)) (replicate 61 (of_Z total)).
Definition two_servers (free : Z) : list (pystr * fog_log) :=
  [(str "throughputServer_sim0_1.0.0.1_Log.csv", sampled 8 4);
   (str "throughputServer_sim0_2.0.14.1_Log.csv", sampled 8 free)].
Lemma sampled_sane total free : 0 < total → 0 <= free <= total → sane (sampled total free).
Proof.
  intros Ht Hf. split; [done|]. unfold sampled. cbn [TotalMemory FreeMemory].
  generalize 61%nat. intros n. induction n as [|n IH]; [constructor|].
  cbn [replicate]. constructor; [|done]. exists (inject_Z total), (inject_Z free).
  split_and!; try apply is_of_Z; unfold Qlt, Qle; cbn; lia.
Qed.
Lemma fairness_in_range_witness :
  (∃ price number, fog_run 0 (two_servers 2) = Ok (price, Fin (4 # 5), number)) ∧ (1 / 2 <= 4 # 5)%Q ∧
  ∃ price number, fog_run 0 (two_servers 0) = Ok (price, NaN, number).
Proof.
  assert (∀ free, 0 <= free <= 8 → Forall sane (two_servers free).*2) as Hs.
  { intros free Hf. constructor; [by apply sampled_sane|]. constructor; [by apply sampled_sane|constructor]. }
  split; [eexists _, _; vm_compute; reflexivity|]. split.
  - pose proof (fairness_in_range 0 (two_servers 2) (of_Z 7320) (Fin (4 # 5)) 2 ltac:(vm_compute; reflexivity)
      (Hs 2 ltac:(lia))) as H.
    assert (existsb filled (two_servers 2).*2 = false) as E by (vm_compute; reflexivity). rewrite E in H.
    destruct H as [_ H]. destruct H as (q & [= <-] & [Hq _] & _); [|exact Hq].
    intros Hi. inversion_clear Hi as [|? ? Hi' _]. unfold idle in Hi'. inversion_clear Hi' as [|? ? ? ? Hx _].
    by vm_compute in Hx.
  - destruct (fog_run 0 (two_servers 0)) as [[[price fair] number]|e] eqn:E; [|by vm_compute in E].
    pose proof (fairness_in_range 0 (two_servers 0) price fair number E (Hs 0 ltac:(lia))) as H.
    assert (existsb filled (two_servers 0).*2 = true) as E2 by (vm_compute; reflexivity). rewrite E2 in H.
    subst fair. eexists _, _. reflexivity.
Defined.
(** A server that is half full has the usage -1: total and free memory are exchanged. *)
Example usage_half : usage (sampled 8 4) = of_Z (-1).
Proof. vm_compute. reflexivity. Qed.

Definition server_text (mbps : string) : pystr := text_of ["Time;Mbps;MME"; "1;" ++ mbps ++ ";4;"; "2;3;5;"]%string.
Definition four_files (mbps : string) : list pystr := [server_text mbps; server_text "6"; server_text "7"; server_text "8"].
Definition readings_of (text : pystr) : list reading := match throughput_rows text with Ok rows => rows | Raise _ => [] end.
Lemma throughput_means_witness :
  (∃ out, throughtputServer [four_files "2"; four_files "5"] = Ok out ∧ length out = 4%nat) ∧
  np_mean (reported mbps_of 0 0 (map (map readings_of) [four_files "2"; four_files "5"])) = Fin (7 # 2).
Proof.
  split; [|vm_compute; reflexivity].
  destruct (throughput_means [four_files "2"; four_files "5"] (map (map readings_of) [four_files "2"; four_files "5"])
    ltac:(discriminate) ltac:(vm_compute; reflexivity) ltac:(repeat constructor)) as (log & out & Hout & Hlen & _).
  exists out. split; [exact Hout|exact Hlen].
Defined.

(** The rows that a server writes have other columns: the throughput that is read is
    the flag that the server is on, and the average its cost. *)
Example server_log_columns :
  throughput_line (str "0.5;1;0.25;120;118;800;700;10.0.0.1;a/b;") = Ok (Fin (1 # 2), of_Z 1, Fin (1 # 4)).
Proof. vm_compute. reflexivity. Qed.
Example bars_example :
  barGraphs no_std 1 [split_char ";" (str "sim0;1;10;2;20;3;30;4;40;")] =
    Ok [(of_Z <$> [1; 2; 3; 4], of_Z <$> [0; 0; 0; 0]); (of_Z <$> [10; 20; 30; 40], of_Z <$> [0; 0; 0; 0])].
Proof. vm_compute. reflexivity. Qed.
(** A fifth server has no list. *)
Example bars_too_many :
  barGraphs no_std 1 [split_char ";" (str "sim0;1;10;2;20;3;30;4;40;5;50;")] = Raise IndexError.
Proof. vm_compute. reflexivity. Qed.
(** Two files of one simulation: only the first is used. *)
Example bars_first_file :
  (fst <$> (StallsGraphs no_std [[text_of ["h"; "0;1;1;1;1;1;1;1;1;"]%string; text_of ["h"; "0;5;5;5;5;5;5;5;5;"]%string]] ≫= λ l,
     res_of_option IndexError (head l))) = Ok (of_Z <$> [1; 1; 1; 1]).
Proof. vm_compute. reflexivity. Qed.
Example start_example :
  playbackStart no_std [[text_of ["h"; "0;1;1.5;3;900;Y;"]%string; text_of ["h"]%string]] =
    Ok ([Fin (1 # 2); Fin (3 # 2)], of_Z <$> [0; 0]).
Proof. vm_compute. reflexivity. Qed.
