(* ===== verification/Uavs.v ===== *)
(** * The placement of the UAVs: scratch/uavs_ag.py

    A genetic algorithm that moves the UAVs of the simulation.  A solution is a
    NumPy array with one movement vector per UAV; the list of solutions holds
    references to such arrays, and [crossover] writes into them, so the arrays
    live in a heap.  The generators of random numbers are streams of values that
    the state consumes.  Parameters: [math.log10], and [np.linalg.norm] of a
    vector of two numbers.  Numbers are exact rationals.  Drawing is left out. *)
From Stdlib Require Import Ascii String Qminmax.
From stdpp Require Import gmap.
From S2P Require Export PyFloat.
Open Scope Z_scope.

(** ** Constants *)

Definition tx_power : Q := 15.
Definition f : Q := 600000000.
Definition timestep : Q := 5.
Definition speed : Q := 50.
Definition n_services : nat := 5.
Definition N : nat := 20.
Definition n_users : nat := 200.

(** ** Positions and objects

    A position is a tuple when it was read from a file, and an array when it was
    drawn or computed. *)
Definition vec : Type := Q * Q.
Abbreviation array := (list vec).
Inductive position : Type :=
  | PTuple (x y : Z)
  | PArray (v : vec).
Definition coords (p : position) : vec :=
  match p with PTuple x y => (inject_Z x, inject_Z y) | PArray v => v end.

Definition vadd (u v : vec) : vec := (u.1 + v.1, u.2 + v.2)%Q.
Definition vsub (u v : vec) : vec := (u.1 - v.1, u.2 - v.2)%Q.

(** [p + v] with an array [v], and [a - b]: two tuples cannot be subtracted. *)
Definition padd (p : position) (v : vec) : position := PArray (vadd (coords p) v).
Definition psub (a b : position) : res exn vec :=
  match a, b with PTuple _ _, PTuple _ _ => Raise TypeError | _, _ => Ok (vsub (coords a) (coords b)) end.

(** A field that is text when read from a file and a number when generated. *)
Inductive field : Type :=
  | FStr (s : pystr)
  | FInt (z : Z).

Record Service : Type := MkService { computing_cycles : Z; storage : Z; bandwidth : Q }.
Record UAV : Type := MkUAV {
  uav_id : field;
  uav_position : position;
  energy : field;
  computing : Z;
  uav_storage : Z;
}.
Record User : Type := MkUser { user_id : field; user_position : position }.

Definition set_new_position (u : UAV) (mov_vector : vec) : UAV :=
  MkUAV (uav_id u) (padd (uav_position u) mov_vector) (energy u) (computing u) (uav_storage u).

(** ** Radio *)

Section radio.
Context (log10 : Q → Q) (pi : Q) (norm : vec → Q).

Definition received_power_calculation (d : Q) : Q :=
  (let light_speed := 300000000 in
   let tx_gain := 1 in
   let rx_gain := 1 in
   let d := if Qlt_bool d 1 then 1 else d in
   let loss := 20 * log10 d + 20 * log10 f + 20 * log10 (4 * pi / light_speed) - tx_gain - rx_gain in
   tx_power - loss)%Q.

Definition distance (a b : position) : res exn Q := v ← psub a b; mret (norm v).

Fixpoint distances (p : position) (uavs : list UAV) : res exn (list Q) :=
  match uavs with
  | [] => Ok []
  | u :: uavs => d ← distance p (uav_position u); ds ← distances p uavs; mret (d :: ds)
  end.

(** [np.argmin]: the first smallest element. *)
Definition argmin (l : list Q) : res exn nat :=
  match l with
  | [] => Raise ValueError
  | x :: l =>
      Ok (fold_left (λ b e, if Qlt_bool e.2 b.2 then e else b) (zip (seq 1 (length l)) l) (0%nat, x)).1
  end.

Definition get_closest_uav (user : User) (uavs : list UAV) : res exn nat :=
  ds ← distances (user_position user) uavs;
  argmin ds.

(** The power that a user receives from the UAV that serves it. *)
Definition received_signal (user : User) (uavs : list UAV) : res exn (nat * Q) :=
  serving_uav_index ← get_closest_uav user uavs;
  serving_uav ← res_of_option IndexError (uavs !! serving_uav_index);
  d ← distance (user_position user) (uav_position serving_uav);
  mret (serving_uav_index, received_power_calculation d).

Definition scenario_fitness (users : list User) (uavs : list UAV) : res exn Q :=
  fold_res (λ sum_signals user, r ← received_signal user uavs; mret (sum_signals + r.2)%Q) 0%Q users.

(** The matrix has a row per UAV and a column per user; [verbose] is off. *)
Definition set_entry (m : list (list Z)) (i j : nat) : list (list Z) :=
  match m !! i with Some row => <[i := <[j := 1]> row]> m | None => m end.
Definition get_coverage (users : list User) (uavs : list UAV) : res exn (list (list Z)) :=
  fold_res (λ m e, r ← received_signal e.2 uavs; mret (set_entry m r.1 e.1))
    (replicate (length uavs) (replicate (length users) 0)) (zip (seq 0 (length users)) users).

(** ** Reading the scenario

    The rows of [csv.reader] on a text without quotation marks: an empty line is
    an empty row. *)
Definition chomp (line : pystr) : pystr :=
  List.filter (λ c, negb (bool_decide (c = newline) || bool_decide (c = "013"%char))) line.
Definition csv_rows (text : pystr) : list (list pystr) :=
  (λ line, match chomp line with [] => [] | s => split_char "," s end) <$> readlines text.

Definition csv_number (s : pystr) : res exn Z := x ← py_float s; py_round x.

Definition load_uav (row : list pystr) : res exn UAV :=
  match row with
  | [uavId; x; y; remainingEnergy] =>
      x ← csv_number x; y ← csv_number y;
      mret (MkUAV (FStr uavId) (PTuple x y) (FStr remainingEnergy) 100 100)
  | _ => Raise ValueError
  end.
Definition load_user (row : list pystr) : res exn User :=
  match row with
  | [userId; x; y] => x ← csv_number x; y ← csv_number y; mret (MkUser (FStr userId) (PTuple x y))
  | _ => Raise ValueError
  end.
Fixpoint load_rows {A} (load : list pystr → res exn A) (rows : list (list pystr)) : res exn (list A) :=
  match rows with
  | [] => Ok []
  | r :: rows => x ← load r; xs ← load_rows load rows; mret (x :: xs)
  end.

(** ** Solutions

    The heap of arrays, and the random numbers still to come: [rand] for
    [np.random.rand], [choice] for [random.choice], [randint] for
    [np.random.randint]. *)
Record state : Type := State {
  heap : gmap nat array;
  next : nat;
  rand : nat → Q;
  rand_pos : nat;
  choice : nat → nat;
  choice_pos : nat;
  randint : nat → Z → Z → Z;
  randint_pos : nat;
}.

Definition draw_rand : stm state Q := λ s,
  (Ok (rand s (rand_pos s)),
   State (heap s) (next s) (rand s) (S (rand_pos s)) (choice s) (choice_pos s) (randint s) (randint_pos s)).
(** [random.choice([-1, 1])] *)
Definition draw_sign : stm state Q := λ s,
  (Ok (if (choice s (choice_pos s) =? 0)%nat then (-1)%Q else 1%Q),
   State (heap s) (next s) (rand s) (rand_pos s) (choice s) (S (choice_pos s)) (randint s) (randint_pos s)).
Definition draw_int (lo hi : Z) : stm state Z := λ s,
  (Ok (randint s (randint_pos s) lo hi),
   State (heap s) (next s) (rand s) (rand_pos s) (choice s) (choice_pos s) (randint s) (S (randint_pos s))).
Definition alloc (a : array) : stm state nat := λ s,
  (Ok (next s),
   State (<[next s := a]> (heap s)) (S (next s)) (rand s) (rand_pos s) (choice s) (choice_pos s)
     (randint s) (randint_pos s)).
(** Reading and writing an array, and one of its rows. *)
Definition read (r : nat) : stm state array := λ s,
  (match heap s !! r with Some a => Ok a | None => Raise NameError end, s).
Definition read_row (r g : nat) : stm state vec :=
  a ← read r; st_lift (res_of_option IndexError (a !! g)).
Definition write_row (r g : nat) (v : vec) : stm state unit := λ s,
  match heap s !! r with
  | Some a =>
      if decide (g < length a)%nat then
        (Ok tt, State (<[r := <[g := v]> a]> (heap s)) (next s) (rand s) (rand_pos s) (choice s)
                  (choice_pos s) (randint s) (randint_pos s))
      else (Raise IndexError, s)
  | None => (Raise NameError, s)
  end.

Definition gen_services : stm state Service :=
  c ← draw_int 0 100; st ← draw_int 2 10; b ← draw_rand;
  mret (MkService c st (b * 10)%Q).

Definition load_scenario (uav_status ue_status : pystr) :
    stm state (list UAV * list User * list Service) :=
  services ← st_map (λ _, gen_services) (seq 0 n_services);
  uavs ← st_lift (load_rows load_uav (csv_rows uav_status));
  users ← st_lift (load_rows load_user (csv_rows ue_status));
  mret (uavs, users, services).

Definition draw_place : stm state position :=
  x ← draw_int 0 1000; y ← draw_int 0 1000;
  mret (PArray (inject_Z x, inject_Z y)).
Definition gen_scenario : stm state (list UAV * list User * list Service) :=
  services ← st_map (λ _, gen_services) (seq 0 n_services);
  uavs ← st_map (λ i, p ← draw_place;
                 mret (MkUAV (FInt (Z.of_nat i)) p (FInt 100) 100 100)) (seq 0 N);
  users ← st_map (λ i, p ← draw_place; mret (MkUser (FInt (Z.of_nat i)) p)) (seq 0 n_users);
  mret (uavs, users, services).

(** One movement: the signs are drawn first, then the two lengths. *)
Definition gen_new_position (time : Q) : stm state vec :=
  let mov_range := (speed * time)%Q in
  s1 ← draw_sign; s2 ← draw_sign;
  r1 ← draw_rand; r2 ← draw_rand;
  mret (r1 * mov_range * s1, r2 * mov_range * s2)%Q.

Definition gen_movement_vector (uavs : list UAV) : stm state nat :=
  new_positions ← st_map (λ _, gen_new_position timestep) uavs;
  alloc new_positions.

(** The UAVs after a movement; a solution longer than the list of UAVs is an
    [IndexError].  The argument itself does not move: the code copies it. *)
Fixpoint move_uavs (uavs : list UAV) (mov_vector : array) : res exn (list UAV) :=
  match mov_vector, uavs with
  | [], _ => Ok uavs
  | m :: mov_vector, u :: uavs => us ← move_uavs uavs mov_vector; mret (set_new_position u m :: us)
  | _ :: _, [] => Raise IndexError
  end.

Definition score_solution (users : list User) (uavs : list UAV) (mov_vector : array) : res exn Q :=
  uavs_tmp ← move_uavs uavs mov_vector;
  scenario_fitness users uavs_tmp.

(** ** The genetic operators *)

(** [sorted(solutions, key=..., reverse=True)]: the keys are computed first;
    equal ones keep their order. *)
Definition sort_solutions (users : list User) (uavs : list UAV) (solutions : list nat) :
    stm state (list nat) :=
  keyed ← st_map (λ r, a ← read r; k ← st_lift (score_solution users uavs a); mret (k, r)) solutions;
  mret (sort_by (λ x y, Qlt_bool y.1 x.1) keyed).*2.

(** A loop over the indices of the list of solutions. *)
Definition enumerate (solutions : list nat) : list nat := seq 0 (length solutions).

(** [np.random.rand() < rate and (elitism and i != 0)] *)
Definition mutate (uavs : list UAV) (solutions : list nat) : stm state (list nat) :=
  st_fold (λ solutions i,
    r ← draw_rand;
    if Qlt_bool r (1 # 10) && negb (i =? 0)%nat then
      new ← gen_movement_vector uavs;
      mret (<[i := new]> solutions)
    else mret solutions) solutions (enumerate solutions).

(** The simultaneous assignment of two rows: both right-hand sides are views, so
    the second store reads what the first one wrote.  [exchange s1 s2 g n] runs it
    for the [n] rows from [g] on; an [IndexError] ends the loop and is ignored. *)
Definition swap_rows (r1 r2 g : nat) : stm state unit :=
  v2 ← read_row r2 g;
  _ ← read_row r1 g;
  _ ← write_row r1 g v2;
  v1 ← read_row r1 g;
  write_row r2 g v1.
Fixpoint exchange (solutions : list nat) (i g n : nat) : stm state unit :=
  match n with
  | O => mret tt
  | S n =>
      r2 ← st_lift (res_of_option IndexError (solutions !! S i));
      r1 ← st_lift (res_of_option IndexError (solutions !! i));
      _ ← swap_rows r1 r2 g;
      exchange solutions i (S g) n
  end.
(** [try: ... except IndexError: pass] *)
Definition ignore_index_error (m : stm state unit) : stm state unit := λ s,
  match m s with
  | (Raise IndexError, s') => (Ok tt, s')
  | r => r
  end.

Definition crossover (solutions : list nat) : stm state (list nat) :=
  _ ← st_for (λ i,
    if (i mod 2 =? 0)%nat && (0 <? i)%nat then
      r ← draw_rand;
      if Qlt_bool r (2 # 10) then
        s ← st_lift (res_of_option IndexError (solutions !! i));
        a ← read s;
        ignore_index_error (exchange solutions i 0 (length a))
      else mret tt
    else mret tt) (enumerate solutions);
  mret solutions.

(** [i > rate * len(solutions)] with a rate of one half *)
Definition prune (uavs : list UAV) (solutions : list nat) : stm state (list nat) :=
  st_fold (λ solutions i,
    if Qlt_bool ((1 # 2) * inject_Z (Z.of_nat (length solutions))) (inject_Z (Z.of_nat i)) then
      new ← gen_movement_vector uavs;
      mret (<[i := new]> solutions)
    else mret solutions) solutions (enumerate solutions).

(** One round, and the fitness it appends. *)
Definition ga_round (users : list User) (uavs : list UAV) (acc : list nat * list Q) (r : nat) :
    stm state (list nat * list Q) :=
  let '(solutions, fitness) := acc in
  solutions ← sort_solutions users uavs solutions;
  solutions ← mutate uavs solutions;
  solutions ← crossover solutions;
  solutions ← prune uavs solutions;
  best ← st_lift (res_of_option IndexError (solutions !! 0%nat));
  a ← read best;
  k ← st_lift (score_solution users uavs a);
  mret (solutions, fitness ++ [k]).

Definition n_solutions : nat := 100.
Definition rounds : nat := 50.

(** The result is what [np.savetxt] writes: the positions moved by the first
    solution. *)
Definition gen_solutions (users : list User) (uavs : list UAV) : stm state (list vec * list Q) :=
  solutions ← st_map (λ _, gen_movement_vector uavs) (seq 0 n_solutions);
  r ← st_fold (ga_round users uavs) (solutions, []) (seq 0 rounds);
  let '(solutions, fitness) := r in
  best ← st_lift (res_of_option IndexError (solutions !! 0%nat));
  a ← read best;
  mret (zip_with (λ u m, vadd (coords (uav_position u)) m) uavs a, fitness).

Definition main (uav_status ue_status : pystr) : stm state (list vec * list Q) :=
  r ← load_scenario uav_status ue_status;
  let '(uavs, users, _) := r in
  gen_solutions users uavs.
End radio.

(** ** The nearest UAV *)

Lemma argmin_spec (l : list Q) :
  l ≠ [] → ∃ n x, argmin l = Ok n ∧ l !! n = Some x ∧
    (∀ m y, l !! m = Some y → (x <= y)%Q) ∧ (∀ m y, (m < n)%nat → l !! m = Some y → (x < y)%Q).
Proof.
  destruct l as [|x0 l]; [done|]. intros _. cbn [argmin].
  enough (∀ k pre b, (pre ++ k) !! b.1 = Some b.2 → (b.1 < length pre)%nat →
    (∀ m y, (m < length pre)%nat → (pre ++ k) !! m = Some y → (b.2 <= y)%Q) →
    (∀ m y, (m < b.1)%nat → (pre ++ k) !! m = Some y → (b.2 < y)%Q) →
    let r := fold_left (λ b e, if Qlt_bool e.2 b.2 then e else b) (zip (seq (length pre) (length k)) k) b in
    (pre ++ k) !! r.1 = Some r.2 ∧ (∀ m y, (pre ++ k) !! m = Some y → (r.2 <= y)%Q) ∧
    (∀ m y, (m < r.1)%nat → (pre ++ k) !! m = Some y → (r.2 < y)%Q)) as H.
  { destruct (H l [x0] (0%nat, x0)) as (H1 & H2 & H3); cbn [fst snd length app];
      [done|lia| | |].
    - intros [|m] y Hm; [|lia]. intros [= <-]. apply Qle_refl.
    - intros m y Hm; lia.
    - eexists _, _. split; [reflexivity|]. split_and!; [exact H1|exact H2|exact H3]. }
  intros k. induction k as [|y k IH]; intros pre [i x] Hb Hi Hle Hlt; cbn [fst snd] in *.
  { cbn. split_and!; [done| |done]. intros m y Hm. apply (Hle m y); [|done].
    apply lookup_lt_Some in Hm. rewrite length_app in Hm. cbn in Hm. lia. }
  cbn [length seq zip_with fold_left fst snd].
  assert (∀ m, (pre ++ y :: k) !! m = ((pre ++ [y]) ++ k) !! m) as Hassoc by (intros; by rewrite <-app_assoc).
  assert ((pre ++ y :: k) !! length pre = Some y) as Hy by (by apply list_lookup_middle).
  assert (length (pre ++ [y]) = S (length pre)) as Hlen by (rewrite length_app; cbn; lia).
  setoid_rewrite Hassoc. rewrite <-Hlen.
  destruct (Qlt_bool y x) eqn:Hyx; apply IH; cbn [fst snd]; rewrite ?Hlen.
  - by rewrite <-Hassoc.
  - lia.
  - apply Qlt_bool_iff in Hyx. intros m z Hm. rewrite <-Hassoc. intros Hz.
    destruct (decide (m = length pre)) as [->|].
    + rewrite Hy in Hz. injection Hz as <-. apply Qle_refl.
    + apply Qlt_le_weak, (Qlt_le_trans _ x); [done|]. apply (Hle m z); [lia|done].
  - apply Qlt_bool_iff in Hyx. intros m z Hm. rewrite <-Hassoc. intros Hz.
    apply (Qlt_le_trans _ x); [done|]. by apply (Hle m z).
  - by rewrite <-Hassoc.
  - lia.
  - apply Qlt_bool_false in Hyx. intros m z Hm. rewrite <-Hassoc. intros Hz.
    destruct (decide (m = length pre)) as [->|].
    + rewrite Hy in Hz. by injection Hz as <-.
    + apply (Hle m z); [lia|done].
  - intros m z Hm. rewrite <-Hassoc. by apply Hlt.
Qed.

Definition is_array (p : position) : Prop := match p with PArray _ => True | PTuple _ _ => False end.

(** Two positions can be subtracted unless both are tuples. *)
Definition comparable (a b : position) : Prop := is_array a ∨ is_array b.
Lemma psub_ok a b : comparable a b → psub a b = Ok (vsub (coords a) (coords b)).
Proof. intros [Ha|Hb]; destruct a, b; done. Qed.

Section radio_facts.
Context (log10 : Q → Q) (pi : Q) (norm : vec → Q).

Definition dist (a b : position) : Q := norm (vsub (coords a) (coords b)).

Lemma distances_ok p uavs :
  Forall (λ u, comparable p (uav_position u)) uavs →
  distances norm p uavs = Ok ((λ u, dist p (uav_position u)) <$> uavs).
Proof.
  induction 1 as [|u uavs Hu _ IH]; cbn; [done|].
  unfold distance. rewrite psub_ok by done. cbn. by rewrite IH.
Qed.

Lemma nearest_ok user uavs :
  uavs ≠ [] → Forall (λ u, comparable (user_position user) (uav_position u)) uavs →
  ∃ i u, get_closest_uav norm user uavs = Ok i ∧ uavs !! i = Some u ∧
    (∀ u', u' ∈ uavs → (dist (user_position user) (uav_position u) <=
                        dist (user_position user) (uav_position u'))%Q) ∧
    (∀ j u', (j < i)%nat → uavs !! j = Some u' →
       (dist (user_position user) (uav_position u) < dist (user_position user) (uav_position u'))%Q).
Proof.
  intros Hne Hc. unfold get_closest_uav. rewrite distances_ok by done. cbn [mbind res_bind].
  destruct (argmin_spec ((λ u, dist (user_position user) (uav_position u)) <$> uavs)) as (i & x & -> & Hi & Hle & Hlt).
  { by intros ?%fmap_nil_inv. }
  apply list_lookup_fmap_Some in Hi as (u & -> & Hu). exists i, u. split_and!; try done.
  - intros u' [j Hj]%list_elem_of_lookup. apply (Hle j). by rewrite list_lookup_fmap, Hj.
  - intros j u' Hji Hj. apply (Hlt j); [done|]. by rewrite list_lookup_fmap, Hj.
Qed.

Lemma received_ok user uavs :
  uavs ≠ [] → Forall (λ u, comparable (user_position user) (uav_position u)) uavs →
  ∃ i u, get_closest_uav norm user uavs = Ok i ∧ uavs !! i = Some u ∧
    received_signal log10 pi norm user uavs =
      Ok (i, received_power_calculation log10 pi (dist (user_position user) (uav_position u))).
Proof.
  intros Hne Hc. destruct (nearest_ok user uavs Hne Hc) as (i & u & Hi & Hu & _).
  exists i, u. split_and!; [done..|]. unfold received_signal. rewrite Hi. cbn [mbind res_bind].
  rewrite Hu. cbn [mbind res_bind res_of_option]. unfold distance.
  rewrite psub_ok; [done|]. by apply (Forall_lookup_1 _ _ _ _ Hc Hu).
Qed.

(** More distance means no more power. *)
Lemma power_decreases d e :
  (∀ x y, (1 <= x)%Q → (x <= y)%Q → (log10 x <= log10 y)%Q) → (d <= e)%Q →
  (received_power_calculation log10 pi e <= received_power_calculation log10 pi d)%Q.
Proof.
  intros Hlog Hde. unfold received_power_calculation.
  set (d' := if Qlt_bool d 1 then 1%Q else d). set (e' := if Qlt_bool e 1 then 1%Q else e).
  assert (log10 d' <= log10 e')%Q.
  { apply Hlog; unfold d', e'; destruct (Qlt_bool d 1) eqn:Hd, (Qlt_bool e 1) eqn:He;
      rewrite ?Qlt_bool_iff, ?Qlt_bool_false in *; lra. }
  cbn zeta. lra.
Qed.

(** The best power that a user can get. *)
Fixpoint best_power (p : position) (first : UAV) (uavs : list UAV) : Q :=
  let power := received_power_calculation log10 pi (dist p (uav_position first)) in
  match uavs with
  | [] => power
  | u :: uavs => Qmax power (best_power p u uavs)
  end.

Lemma best_power_spec p first uavs :
  (∃ u, u ∈ first :: uavs ∧
     best_power p first uavs = received_power_calculation log10 pi (dist p (uav_position u))) ∧
  ∀ u, u ∈ first :: uavs →
    (received_power_calculation log10 pi (dist p (uav_position u)) <= best_power p first uavs)%Q.
Proof.
  revert first. induction uavs as [|v uavs IH]; intros first; cbn [best_power].
  - split; [exists first; split; [by left|done]|].
    intros u ->%list_elem_of_singleton. apply Qle_refl.
  - destruct (IH v) as ((w & Hw & Hpw) & Hle). split.
    + set (pf := received_power_calculation log10 pi (dist p (uav_position first))).
      unfold Qmax, GenericMinMax.gmax. destruct (pf ?= best_power p v uavs)%Q.
      1,3: exists first; split; [by left|done].
      exists w. split; [by right|done].
    + intros u [->|Hu]%elem_of_cons; [apply Q.le_max_l|].
      eapply Qle_trans; [by apply Hle|]. apply Q.le_max_r.
Qed.
End radio_facts.

Section fitness_facts.
Context (log10 : Q → Q) (pi : Q) (norm : vec → Q).

Definition all_comparable (users : list User) (uavs : list UAV) : Prop :=
  ∀ user u, user ∈ users → u ∈ uavs → comparable (user_position user) (uav_position u).

Lemma all_comparable_cons user users uavs :
  all_comparable (user :: users) uavs ↔
  Forall (λ u, comparable (user_position user) (uav_position u)) uavs ∧ all_comparable users uavs.
Proof.
  unfold all_comparable. rewrite Forall_forall. split.
  - intros H. split; [intros u; apply H; by left|intros w u Hw; apply H; by right].
  - intros [H1 H2] w u [-> | Hw]%elem_of_cons; [apply H1|by apply H2].
Qed.

(** The sum, over the users, of the power from the nearest UAV. *)
Lemma fitness_ok users uavs :
  uavs ≠ [] → all_comparable users uavs → ∀ q, ∃ r,
    fold_res (λ sum_signals user, r ← received_signal log10 pi norm user uavs;
                                  mret (sum_signals + r.2)%Q) q users = Ok r.
Proof.
  intros Hne. induction users as [|user users IH]; intros Hc q; cbn; [by eexists|].
  apply all_comparable_cons in Hc as [Hu Hc].
  destruct (received_ok log10 pi norm user uavs Hne Hu) as (i & u & _ & _ & ->). cbn. by apply IH.
Qed.

(** C40: The nearest UAV is the best one: when a longer distance never gives more
    power, the fitness of a scenario is the sum over the users of the largest
    power that any UAV would give them; the code, which only looks at the nearest,
    needs no UAV's power but one. *)
Theorem fitness_is_best_power users first uavs
    (Hlog : ∀ x y, (1 <= x)%Q → (x <= y)%Q → (log10 x <= log10 y)%Q)
    (Hc : all_comparable users (first :: uavs)) :
  ∃ q, scenario_fitness log10 pi norm users (first :: uavs) = Ok q ∧
    (q == fold_left (λ s user, s + best_power log10 pi norm (user_position user) first uavs) users 0)%Q.
Proof.
  unfold scenario_fitness.
  enough (∀ a b, (a == b)%Q → ∃ q,
    fold_res (λ sum_signals user, r ← received_signal log10 pi norm user (first :: uavs);
                                  mret (sum_signals + r.2)%Q) a users = Ok q ∧
    (q == fold_left (λ s user, s + best_power log10 pi norm (user_position user) first uavs) users b)%Q)
    as H by by apply H.
  induction users as [|user users IH]; intros a b Hab; cbn [fold_res fold_left]; [by exists a|].
  apply all_comparable_cons in Hc as [Hu Hc].
  destruct (nearest_ok norm user (first :: uavs) ltac:(done) Hu) as (i & u & Hi & Hui & Hmin & _).
  destruct (received_ok log10 pi norm user (first :: uavs) ltac:(done) Hu) as (i' & u' & Hi' & Hui' & ->).
  rewrite Hi in Hi'. injection Hi' as <-. rewrite Hui in Hui'. injection Hui' as <-.
  cbn [mbind res_bind mret res_ret snd]. apply IH; [done|]. rewrite Hab.
  assert (received_power_calculation log10 pi (dist norm (user_position user) (uav_position u)) ==
          best_power log10 pi norm (user_position user) first uavs)%Q as ->; [|reflexivity].
  destruct (best_power_spec log10 pi norm (user_position user) first uavs) as ((w & Hw & Hpw) & Hle).
  apply Qle_antisym; [apply Hle; by eapply list_elem_of_lookup_2|].
  rewrite Hpw. apply power_decreases; [done|]. by apply Hmin.
Qed.

(** ** Coverage *)

Definition entry (m : list (list Z)) (i j : nat) : option Z := row ← m !! i; row !! j.
Definition shaped (m : list (list Z)) (rows cols : nat) : Prop :=
  length m = rows ∧ ∀ i row, m !! i = Some row → length row = cols.

Lemma set_entry_spec m i j rows cols :
  shaped m rows cols → (i < rows)%nat → (j < cols)%nat →
  shaped (set_entry m i j) rows cols ∧
  ∀ i' j', entry (set_entry m i j) i' j' = if decide (i' = i ∧ j' = j) then Some 1 else entry m i' j'.
Proof.
  intros [Hl Hr] Hi Hj. unfold set_entry, entry.
  destruct (lookup_lt_is_Some_2 m i) as [row Hrow]; [lia|]. rewrite Hrow. split.
  - split; [by rewrite length_insert|]. intros i' row'. rewrite list_lookup_insert_Some.
    intros [(<- & <- & _)|[_ Hr']]; [rewrite length_insert; eauto|eauto].
  - intros i' j'. destruct (decide (i' = i)) as [->|Hne].
    + rewrite list_lookup_insert_eq, Hrow by lia. cbn. destruct (decide (j' = j)) as [->|].
      * rewrite decide_True by done. apply list_lookup_insert_eq. by rewrite (Hr i row).
      * rewrite decide_False by tauto. by apply list_lookup_insert_ne.
    + rewrite decide_False by tauto. by rewrite list_lookup_insert_ne.
Qed.

(** [get_coverage] gives a matrix with a row per UAV and a column per user,
    in which the column of each user holds a 1 at the nearest UAV, the first one
    when several are equally near, and 0 elsewhere: every user is connected to
    exactly one UAV, however weak the signal. *)
Theorem coverage_connects users uavs
    (Hne : uavs ≠ []) (Hc : all_comparable users uavs) :
  ∃ m, get_coverage log10 pi norm users uavs = Ok m ∧ shaped m (length uavs) (length users) ∧
    ∀ j user, users !! j = Some user → ∃ i, get_closest_uav norm user uavs = Ok i ∧ (i < length uavs)%nat ∧
      ∀ i', (i' < length uavs)%nat → entry m i' j = Some (if decide (i' = i) then 1 else 0).
Proof.
  unfold get_coverage.
  set (I := λ (pre post : list (nat * User)) (m : list (list Z)),
    shaped m (length uavs) (length users) ∧ pre ++ post = zip (seq 0 (length users)) users ∧
    (∀ j user, (j < length pre)%nat → users !! j = Some user → ∃ i,
       get_closest_uav norm user uavs = Ok i ∧ (i < length uavs)%nat ∧
       ∀ i', (i' < length uavs)%nat → entry m i' j = Some (if decide (i' = i) then 1 else 0)) ∧
    (∀ i j, (i < length uavs)%nat → (length pre ≤ j < length users)%nat → entry m i j = Some 0)).
  destruct (fold_res_inv (λ m e, r ← received_signal log10 pi norm e.2 uavs; mret (set_entry m r.1 e.1)) I)
    with (l := zip (seq 0 (length users)) users) (pre := @nil (nat * User))
         (s := replicate (length uavs) (replicate (length users) 0)) as (m & Hm & HI).
  - intros pre [j user] post m (Hs & Hsplit & Hdone & Hzero).
    assert (zip (seq 0 (length users)) users !! length pre = Some (j, user)) as Hj.
    { rewrite <-Hsplit. by apply list_lookup_middle. }
    apply lookup_zip_Some in Hj as [Hj Huser]. apply lookup_seq in Hj as [-> Hlt]. cbn [Nat.add] in *.
    assert (Forall (λ u, comparable (user_position user) (uav_position u)) uavs) as Hcu.
    { apply Forall_forall. intros u Hu. apply Hc; [|done]. by eapply list_elem_of_lookup_2. }
    destruct (received_ok log10 pi norm user uavs Hne Hcu) as (i & u & Hi & Hu & Hr).
    cbn [snd fst]. rewrite Hr. cbn [mbind res_bind fst snd]. eexists. split; [done|].
    apply lookup_lt_Some in Hu.
    destruct (set_entry_spec m i (length pre) _ _ Hs Hu Hlt) as [Hs' He].
    split_and!; [done|by rewrite <-app_assoc| |].
    + intros j user' Hj Huser'. rewrite length_app in Hj. cbn in Hj.
      destruct (decide (j = length pre)) as [->|Hjne].
      * rewrite Huser in Huser'. injection Huser' as <-. exists i. split_and!; [done..|].
        intros i' Hi'. rewrite He. destruct (decide (i' = i)) as [->|].
        -- by rewrite decide_True.
        -- rewrite decide_False by tauto. by apply Hzero.
      * destruct (Hdone j user') as (i0 & Hi0 & Hlt0 & Hent); [lia|done|]. exists i0. split_and!; [done..|].
        intros i' Hi'. rewrite He, decide_False by tauto. by apply Hent.
    + intros i' j Hi' Hj. rewrite length_app in Hj. cbn in Hj. rewrite He, decide_False by lia.
      apply Hzero; [done|lia].
  - split_and!; [|done|cbn; lia|].
    + split; [by rewrite length_replicate|]. intros i row [-> _]%lookup_replicate. apply length_replicate.
    + intros i j Hi Hj. unfold entry. rewrite lookup_replicate_2 by lia. cbn.
      by rewrite lookup_replicate_2 by lia.
  - exists m. destruct HI as (Hs & Hsplit & Hdone & _). split_and!; [done..|].
    intros j user Hj. apply Hdone; [|done]. apply lookup_lt_Some in Hj. cbn [app].
    rewrite length_zip, length_seq. lia.
Qed.
End fitness_facts.

(** ** Populations

    A movement within reach: no component longer than the UAV flies in a time
    step.  An array is typed when it has a movement within reach for every UAV. *)
Definition reach : Q := speed * timestep.
Definition in_reach (v : vec) : Prop := (- reach <= v.1 <= reach)%Q ∧ (- reach <= v.2 <= reach)%Q.
Definition typed (n : nat) (a : array) : Prop := length a = n ∧ Forall in_reach a.

Record pop (n : nat) (sols : list nat) (s : state) : Prop := {
  pop_nodup : NoDup sols;
  pop_typed : ∀ r, r ∈ sols → ∃ a, heap s !! r = Some a ∧ typed n a;
  pop_fresh : ∀ r, is_Some (heap s !! r) → (r < next s)%nat;
  pop_rand : ∀ k, (0 <= rand s k)%Q ∧ (rand s k < 1)%Q;
}.

Definition with_heap (s : state) (h : gmap nat array) : state :=
  State h (next s) (rand s) (rand_pos s) (choice s) (choice_pos s) (randint s) (randint_pos s).

Lemma NoDup_insert_fresh (l : list nat) i x : NoDup l → x ∉ l → NoDup (<[i := x]> l).
Proof.
  intros Hnd Hx. destruct (decide (i < length l)%nat) as [Hi|]; [|by rewrite list_insert_ge by lia].
  destruct (lookup_lt_is_Some_2 l i Hi) as [y Hy]. rewrite insert_take_drop by done.
  rewrite <-(take_drop_middle l i y Hy) in Hnd, Hx. rewrite NoDup_app, NoDup_cons in Hnd |- *.
  set_solver.
Qed.

Lemma read_ok s r a : heap s !! r = Some a → read r s = (Ok a, s).
Proof. intros Ha. unfold read. by rewrite Ha. Qed.

(** Same generators. *)
Definition same_rand (s s' : state) : Prop := rand s' = rand s.

Lemma pop_swap n sols s i a s' :
  pop n sols s → typed n a → heap s' = <[next s := a]> (heap s) → next s' = S (next s) →
  same_rand s s' → pop n (<[i := next s]> sols) s'.
Proof.
  intros [Hnd Ht Hf Hr] Ha Hh Hn Hrand. split.
  - apply NoDup_insert_fresh; [done|]. intros (b & Hb & _)%Ht.
    specialize (Hf (next s) ltac:(by rewrite Hb)). lia.
  - intros r Hin. rewrite Hh. destruct (decide (r = next s)) as [->|Hne].
    + exists a. by rewrite lookup_insert_eq.
    + rewrite lookup_insert_ne by done. apply Ht.
      apply list_elem_of_lookup in Hin as [j Hj]. apply list_lookup_insert_Some in Hj as [(_ & <- & _)|[_ Hj]];
        [done|by eapply list_elem_of_lookup_2].
  - intros r. rewrite Hh, Hn. destruct (decide (r = next s)) as [->|Hne]; [lia|].
    rewrite lookup_insert_ne by done. intros Hs%Hf. lia.
  - intros k. rewrite Hrand. apply Hr.
Qed.

(** ** Movements *)

Lemma gen_new_position_spec s :
  (∀ k, (0 <= rand s k)%Q ∧ (rand s k < 1)%Q) →
  ∃ v s', gen_new_position timestep s = (Ok v, s') ∧ in_reach v ∧
    heap s' = heap s ∧ next s' = next s ∧ same_rand s s'.
Proof.
  intros Hr. unfold gen_new_position, draw_sign, draw_rand.
  cbn [mbind stm_bind mret stm_ret rand rand_pos choice choice_pos heap next randint randint_pos].
  eexists _, _. split; [reflexivity|]. cbn [heap next rand]. split_and!; try done.
  unfold in_reach. cbn [fst snd rand rand_pos choice choice_pos].
  destruct (Hr (rand_pos s)) as [H1 H2], (Hr (S (rand_pos s))) as [H3 H4].
  unfold reach, speed, timestep.
  destruct (choice s (choice_pos s) =? 0)%nat, (choice s (S (choice_pos s)) =? 0)%nat;
    (split; split; lra).
Qed.

Lemma gen_movement_spec uavs s :
  (∀ k, (0 <= rand s k)%Q ∧ (rand s k < 1)%Q) →
  ∃ a s', gen_movement_vector uavs s = (Ok (next s), s') ∧ typed (length uavs) a ∧
    heap s' = <[next s := a]> (heap s) ∧ next s' = S (next s) ∧ same_rand s s'.
Proof.
  intros Hr. unfold gen_movement_vector.
  destruct (st_map_inv (λ _ : UAV, gen_new_position timestep)
    (λ vs s', Forall in_reach vs ∧ heap s' = heap s ∧ next s' = next s ∧ same_rand s s') uavs)
    with (ys := @nil vec) (s := s) as (a & s' & Ha & Hl & (Hf & Hh & Hn & Hs)).
  - intros vs u s1 _ (Hf & Hh & Hn & Hs).
    destruct (gen_new_position_spec s1) as (v & s2 & -> & Hv & Hh' & Hn' & Hs'); [by rewrite Hs|].
    exists v, s2. split; [done|]. split_and!; [by apply Forall_app_2, Forall_singleton|congruence..].
  - split_and!; [constructor|done..].
  - rewrite (st_bind_step _ _ _ _ _ Ha). unfold alloc. cbn in Hf.
    eexists a, _. rewrite Hn. split; [done|]. cbn [heap next]. by rewrite Hh.
Qed.

(** ** Scores are defined on populations *)
Section scores.
Context (log10 : Q → Q) (pi : Q) (norm : vec → Q) (users : list User) (uavs : list UAV) (Huavs : uavs ≠ []).

Lemma move_uavs_ok us a :
  length a = length us →
  ∃ us', move_uavs us a = Ok us' ∧ length us' = length us ∧ Forall (λ u, is_array (uav_position u)) us'.
Proof.
  revert us. induction a as [|m a IH]; intros [|u us] Hl; cbn; try done.
  - by exists [].
  - destruct (IH us) as (us' & -> & Hl' & Hf); [by injection Hl|].
    exists (set_new_position u m :: us'). split_and!; [done|by cbn; f_equal|by constructor].
Qed.

Lemma score_ok a : length a = length uavs → ∃ q, score_solution log10 pi norm users uavs a = Ok q.
Proof.
  intros Ha. unfold score_solution. destruct (move_uavs_ok uavs a Ha) as (us & -> & Hl & Hf). cbn.
  apply fitness_ok; [by destruct us, uavs|]. intros user u _ Hu. right.
  by eapply Forall_forall in Hf.
Qed.

Definition score_of (a : array) : Q :=
  match score_solution log10 pi norm users uavs a with Ok q => q | Raise _ => 0%Q end.
Lemma score_of_ok n a : n = length uavs → typed n a →
  score_solution log10 pi norm users uavs a = Ok (score_of a).
Proof.
  intros -> [Ha _]. unfold score_of. by destruct (score_ok a Ha) as [q ->].
Qed.

Context (n : nat) (Hn : n = length uavs).

(** The scores of the elements of a list of references. *)
Definition array_at (s : state) (r : nat) : array :=
  match heap s !! r with Some a => a | None => [] end.
Definition score_at (s : state) (r : nat) : Q := score_of (array_at s r).

Lemma pop_array sols s r : pop n sols s → r ∈ sols → heap s !! r = Some (array_at s r) ∧ typed n (array_at s r).
Proof. intros Hp Hr. destruct (pop_typed _ _ _ Hp r Hr) as (a & Ha & Ht). unfold array_at. by rewrite Ha. Qed.

Lemma pop_perm sols sols' s : sols' ≡ₚ sols → pop n sols s → pop n sols' s.
Proof.
  intros Hp [Hnd Ht Hf Hr]. split; [by rewrite Hp|intros r; rewrite Hp; apply Ht|done|done].
Qed.

Lemma score_weak : WeakOrder (λ _ : Q * nat, True) (λ x y, Qlt_bool y.1 x.1).
Proof.
  split.
  - intros x _. apply Qlt_bool_false, Qle_refl.
  - intros x y _ _ H%Qlt_bool_iff. apply Qlt_bool_false. by apply Qlt_le_weak.
  - intros x y z _ _ _ H1%Qlt_bool_false H2%Qlt_bool_false. apply Qlt_bool_false. by apply (Qle_trans _ y.1).
Qed.

Lemma sort_solutions_spec sols s :
  pop n sols s → ∃ sols', sort_solutions log10 pi norm users uavs sols s = (Ok sols', s) ∧ sols' ≡ₚ sols ∧
    ∀ best, sols' !! 0%nat = Some best → ∀ r, r ∈ sols → (score_at s r <= score_at s best)%Q.
Proof.
  intros Hp. unfold sort_solutions.
  set (keyed := (λ r, (score_at s r, r)) <$> sols).
  exists (sort_by (λ x y, Qlt_bool y.1 x.1) keyed).*2. split_and!.
  - rewrite (st_bind_step _ _ _ keyed s); [done|]. apply st_map_read. intros r Hr.
    destruct (pop_array _ _ _ Hp Hr) as [Ha Ht].
    rewrite (st_bind_step _ _ _ _ _ (read_ok s r _ Ha)).
    rewrite (st_bind_step _ _ s (score_at s r) s); [done|].
    unfold st_lift. by rewrite (score_of_ok n).
  - assert (keyed.*2 = sols) as Hk.
    { unfold keyed. clear. induction sols as [|r l IH]; cbn; [done|]. by f_equal. }
    by rewrite sort_perm, Hk.
  - intros best Hb r Hr. rewrite list_lookup_fmap in Hb.
    assert (Forall (λ _ : Q * nat, True) keyed) as Htrue by (by apply Forall_true).
    destruct keyed as [|x k] eqn:Ek; [done|].
    destruct (sort_by_head (λ x y : Q * nat, Qlt_bool y.1 x.1) x k) as (l' & Hl'). rewrite Hl' in Hb.
    cbn in Hb. injection Hb as <-.
    pose proof score_weak as Hw. apply Forall_cons in Htrue as Ht. destruct Ht as [_ Hk].
    pose proof (min_by_first (λ _ : Q * nat, True) (λ x y : Q * nat, Qlt_bool y.1 x.1) k x I Hk) as Hmin.
    set (m := min_by _ x k) in *.
    assert ((score_at s r, r) ∈ x :: k) as Hin.
    { rewrite <-Ek. apply list_elem_of_fmap. by exists r. }
    pose proof (first_min_min (λ _ : Q * nat, True) (λ x y : Q * nat, Qlt_bool y.1 x.1) (x :: k) m
      (score_at s r, r) Htrue Hmin Hin) as Hle.
    pose proof (first_min_elem _ _ _ Hmin) as Hm. rewrite <-Ek in Hm.
    apply list_elem_of_fmap in Hm as (r' & Hm & _).
    rewrite Hm in Hle |- *. cbn in Hle |- *. by apply Qlt_bool_false.
Qed.

(** ** What an operator keeps: the population, and its first solution *)
Record keeps_best (sols : list nat) (s : state) (sols' : list nat) (s' : state) : Prop := {
  kb_pop : pop n sols' s';
  kb_length : length sols' = length sols;
  kb_first : sols' !! 0%nat = sols !! 0%nat;
  kb_best : ∀ r, sols !! 0%nat = Some r → heap s' !! r = heap s !! r;
}.
Lemma keeps_best_refl sols s : pop n sols s → keeps_best sols s sols s.
Proof. by split. Qed.
Lemma keeps_best_trans sols1 s1 sols2 s2 sols3 s3 :
  keeps_best sols1 s1 sols2 s2 → keeps_best sols2 s2 sols3 s3 → keeps_best sols1 s1 sols3 s3.
Proof.
  intros [P1 L1 F1 B1] [P2 L2 F2 B2]. split; [done|congruence..|].
  intros r Hr. rewrite B2, B1; [done|done|congruence].
Qed.

(** Replacing a solution other than the first by a new one. *)
Lemma replace_keeps sols0 s0 sols s i :
  keeps_best sols0 s0 sols s → i ≠ 0%nat →
  ∃ sols' s', (new ← gen_movement_vector uavs; mret (<[i := new]> sols)) s = (Ok sols', s') ∧
    keeps_best sols0 s0 sols' s'.
Proof.
  intros Hk Hi. destruct (gen_movement_spec uavs s (pop_rand _ _ _ (kb_pop _ _ _ _ Hk)))
    as (a & s' & Hs' & Ha & Hh & Hnx & Hr). rewrite <-Hn in Ha.
  exists (<[i := next s]> sols), s'. rewrite (st_bind_step _ _ _ _ _ Hs'). split; [done|].
  apply (keeps_best_trans _ _ sols s); [done|]. destruct Hk as [Hp _ _ _]. split.
  - by apply (pop_swap n sols s i a).
  - by rewrite length_insert.
  - by rewrite list_lookup_insert_ne by done.
  - intros r Hr0%list_elem_of_lookup_2. rewrite Hh, lookup_insert_ne; [done|].
    destruct (pop_array _ _ _ Hp Hr0) as [Hra _].
    pose proof (pop_fresh _ _ _ Hp r ltac:(by rewrite Hra)). lia.
Qed.

Lemma draw_rand_keeps sols0 s0 sols s :
  keeps_best sols0 s0 sols s → ∃ q s', draw_rand s = (Ok q, s') ∧ keeps_best sols0 s0 sols s'.
Proof.
  intros [[Hnd Ht Hf Hr] Hl H0 Hb]. eexists _, _. split; [reflexivity|]. by split; [split|..].
Qed.

Lemma mutate_keeps sols s :
  pop n sols s → ∃ sols' s', mutate uavs sols s = (Ok sols', s') ∧ keeps_best sols s sols' s'.
Proof.
  intros Hp. unfold mutate. apply (st_fold_inv _ (λ sols' s', keeps_best sols s sols' s')).
  - intros sols1 i s1 _ Hk. destruct (draw_rand_keeps _ _ _ _ Hk) as (q & s2 & Hq & Hk2).
    rewrite (st_bind_step _ _ _ _ _ Hq). destruct (Qlt_bool q _ && _) eqn:Hb; [|by eexists _, _].
    apply andb_true_iff in Hb as [_ Hi]. apply replace_keeps; [done|]. by intros ->.
  - by apply keeps_best_refl.
Qed.

Lemma prune_keeps sols s :
  pop n sols s → ∃ sols' s', prune uavs sols s = (Ok sols', s') ∧ keeps_best sols s sols' s'.
Proof.
  intros Hp. unfold prune. apply (st_fold_inv _ (λ sols' s', keeps_best sols s sols' s')).
  - intros sols1 i s1 _ Hk. destruct (Qlt_bool _ _) eqn:Hb; [|by eexists _, _].
    apply replace_keeps; [done|]. intros ->. apply Qlt_bool_iff in Hb.
    unfold inject_Z, Qlt in Hb. cbn in Hb. lia.
  - by apply keeps_best_refl.
Qed.
End scores.

(** ** Crossover *)

(** The exchange of the rows from [g] on: both views end up with the second
    solution's rows. *)
Lemma swap_rows_spec s r1 r2 a1 a2 g v :
  r1 ≠ r2 → heap s !! r1 = Some a1 → heap s !! r2 = Some a2 → (g < length a1)%nat → a2 !! g = Some v →
  swap_rows r1 r2 g s = (Ok tt, with_heap s (<[r1 := <[g := v]> a1]> (heap s))).
Proof.
  intros Hne H1 H2 Hg Hv. unfold swap_rows.
  destruct (lookup_lt_is_Some_2 a1 g Hg) as [w Hw].
  rewrite (st_bind_step _ _ s v s).
  2: { unfold read_row. rewrite (st_bind_step _ _ _ _ _ (read_ok s r2 _ H2)). unfold st_lift. by rewrite Hv. }
  rewrite (st_bind_step _ _ s w s).
  2: { unfold read_row. rewrite (st_bind_step _ _ _ _ _ (read_ok s r1 _ H1)). unfold st_lift. by rewrite Hw. }
  set (s1 := with_heap s (<[r1 := <[g := v]> a1]> (heap s))).
  rewrite (st_bind_step _ _ s tt s1).
  2: { unfold write_row. rewrite H1, decide_True by done. done. }
  assert (heap s1 !! r1 = Some (<[g := v]> a1)) as H1' by apply lookup_insert_eq.
  assert (heap s1 !! r2 = Some a2) as H2' by (cbn; by rewrite lookup_insert_ne).
  rewrite (st_bind_step _ _ s1 v s1).
  2: { unfold read_row. rewrite (st_bind_step _ _ _ _ _ (read_ok s1 r1 _ H1')). unfold st_lift.
       by rewrite list_lookup_insert_eq. }
  unfold write_row. rewrite H2', decide_True by (by eapply lookup_lt_Some).
  rewrite (list_insert_id _ _ _ Hv). unfold s1 at 2, with_heap. cbn [heap next rand rand_pos choice choice_pos randint randint_pos].
  by rewrite (insert_id _ _ _ H2').
Qed.

Lemma exchange_spec sols i r1 r2 a2 : ∀ k s g a1,
  sols !! i = Some r1 → sols !! S i = Some r2 → r1 ≠ r2 →
  heap s !! r1 = Some a1 → heap s !! r2 = Some a2 → length a1 = length a2 → (g + k = length a1)%nat →
  take g a1 = take g a2 →
  exchange sols i g k s = (Ok tt, with_heap s (<[r1 := a2]> (heap s))).
Proof.
  induction k as [|k IH]; intros s g a1 Hr1 Hr2 Hne H1 H2 Hl Hk Ht; cbn [exchange].
  - assert (a1 = a2) as -> by (rewrite <-(take_ge a1 g), <-(take_ge a2 g) by lia; done).
    rewrite insert_id by done. by destruct s.
  - destruct (lookup_lt_is_Some_2 a2 g) as [v Hv]; [lia|].
    rewrite (st_bind_step _ _ s r2 s) by (unfold st_lift; by rewrite Hr2).
    rewrite (st_bind_step _ _ s r1 s) by (unfold st_lift; by rewrite Hr1).
    rewrite (st_bind_step _ _ _ _ _ (swap_rows_spec s r1 r2 a1 a2 g v Hne H1 H2 ltac:(lia) Hv)).
    rewrite (IH _ (S g) (<[g := v]> a1)); try done.
    + unfold with_heap. cbn [heap next rand rand_pos choice choice_pos randint randint_pos].
      by rewrite insert_insert_eq.
    + cbn. apply lookup_insert_eq.
    + cbn. by rewrite lookup_insert_ne.
    + by rewrite length_insert.
    + rewrite length_insert. lia.
    + rewrite (take_S_r _ _ v) by (apply list_lookup_insert_eq; lia).
      by rewrite take_insert_ge, Ht, (take_S_r _ _ _ Hv) by lia.
Qed.

(** Whether the loop of [crossover] copies over the solution at position [i]; the
    even positions from 2 on each draw one number. *)
Definition crosses (s : state) (len i : nat) : bool :=
  (i mod 2 =? 0)%nat && (0 <? i)%nat && (S i <? len)%nat &&
  Qlt_bool (rand s (rand_pos s + (i - 1) / 2)%nat) (2 # 10).
Definition crossed (s : state) (sols : list nat) (i r : nat) : option array :=
  if crosses s (length sols) i then r2 ← sols !! S i; heap s !! r2 else heap s !! r.

Lemma even_half i : (i mod 2 =? 0)%nat = true → (0 < i)%nat → ((S i - 1) / 2 = S ((i - 1) / 2))%nat.
Proof.
  intros Hi%Nat.eqb_eq Hpos. pose proof (Nat.div_mod i 2 ltac:(lia)) as Hd.
  assert (∃ h, i = (1 + h) * 2)%nat as [h ->] by (exists (i / 2 - 1)%nat; lia).
  replace (S ((1 + h) * 2) - 1)%nat with ((1 + h) * 2)%nat by lia.
  replace ((1 + h) * 2 - 1)%nat with (1 + h * 2)%nat by lia.
  rewrite Nat.div_mul, Nat.div_add by lia. change (1 / 2)%nat with 0%nat. lia.
Qed.
Lemma odd_half i : (i mod 2 =? 0)%nat && (0 <? i)%nat = false → ((S i - 1) / 2 = (i - 1) / 2)%nat.
Proof.
  intros Hi. replace (S i - 1)%nat with i by lia. destruct i as [|i]; [done|].
  cbn [Nat.ltb Nat.leb] in Hi. rewrite andb_true_r in Hi. apply Nat.eqb_neq in Hi.
  pose proof (Nat.mod_upper_bound (S i) 2 ltac:(lia)).
  pose proof (Nat.div_mod (S i) 2 ltac:(lia)) as Hd.
  assert (∃ h, i = h * 2)%nat as [h ->] by (exists (S i / 2)%nat; lia).
  replace (S (h * 2) - 1)%nat with (h * 2)%nat by lia.
  replace (S (h * 2)) with (1 + h * 2)%nat by lia. rewrite Nat.div_add, Nat.div_mul by lia. done.
Qed.

Section crossing.
Context (n : nat).

(** After the first [p] positions. *)
Record crossing (sols : list nat) (s : state) (p : nat) (s' : state) : Prop := {
  cr_rand : same_rand s s';
  cr_pos : rand_pos s' = (rand_pos s + (p - 1) / 2)%nat;
  cr_next : next s' = next s;
  cr_done : ∀ i r, (i < p)%nat → sols !! i = Some r → heap s' !! r = crossed s sols i r;
  cr_todo : ∀ i r, (p ≤ i)%nat → sols !! i = Some r → heap s' !! r = heap s !! r;
  cr_other : ∀ r, r ∉ sols → heap s' !! r = heap s !! r;
}.

Definition cross_step (sols : list nat) (i : nat) : stm state unit :=
  if (i mod 2 =? 0)%nat && (0 <? i)%nat then
    r ← draw_rand;
    if Qlt_bool r (2 # 10) then
      s ← st_lift (res_of_option IndexError (sols !! i));
      a ← read s;
      ignore_index_error (exchange sols i 0 (length a))
    else mret tt
  else mret tt.

Lemma cross_skip sols s p s' :
  crossing sols s p s' → (p mod 2 =? 0)%nat && (0 <? p)%nat = false → crossing sols s (S p) s'.
Proof.
  intros [Hr Hp Hn Hd Ht Ho] Hskip. split; try done.
  - by rewrite odd_half.
  - intros i r Hi Hs. destruct (decide (i = p)) as [->|]; [|apply Hd; [lia|done]].
    rewrite (Ht p r) by done. unfold crossed, crosses. by rewrite Hskip.
  - intros i r Hi. apply Ht. lia.
Qed.

Lemma cross_step_spec sols s p s' :
  pop n sols s → crossing sols s p s' → (p < length sols)%nat →
  ∃ s'', cross_step sols p s' = (Ok tt, s'') ∧ crossing sols s (S p) s''.
Proof.
  intros Hpop Hc Hp. unfold cross_step. destruct (_ && _) eqn:Heven; [|exists s'; split; [done|by apply cross_skip]].
  apply andb_true_iff in Heven as He. destruct He as [He Hpos]. apply Nat.ltb_lt in Hpos.
  destruct Hc as [Hr Hrp Hn Hd Ht Ho].
  destruct (lookup_lt_is_Some_2 sols p Hp) as [r1 Hr1].
  destruct (pop_typed _ _ _ Hpop r1) as (a1 & Ha1 & [Hl1 _]); [by eapply list_elem_of_lookup_2|].
  set (s1 := State (heap s') (next s') (rand s') (S (rand_pos s')) (choice s') (choice_pos s')
    (randint s') (randint_pos s')).
  rewrite (st_bind_step _ _ s' (rand s' (rand_pos s')) s1) by done. rewrite Hr, Hrp.
  assert (Hcross : crosses s (length sols) p =
    (S p <? length sols)%nat && Qlt_bool (rand s (rand_pos s + (p - 1) / 2)%nat) (2 # 10)).
  { unfold crosses. by rewrite Heven. }
  destruct (Qlt_bool (rand s _) _) eqn:Hq.
  2: { eexists. split; [done|]. split; try done.
       - change (S (rand_pos s') = (rand_pos s + (S p - 1) / 2)%nat).
       rewrite Hrp, even_half, Nat.add_succ_r by done. done.
       - intros i r Hi Hi'. destruct (decide (i = p)) as [->|]; [|apply Hd; [lia|done]].
         cbn. rewrite (Ht p r) by done. unfold crossed. by rewrite Hcross, andb_false_r.
       - intros i r Hi. apply Ht. lia. }
  rewrite (st_bind_step _ _ s1 r1 s1) by (unfold st_lift; by rewrite Hr1).
  assert (heap s1 !! r1 = Some a1) as Ha1' by (cbn; by rewrite (Ht p r1)).
  rewrite (st_bind_step _ _ _ _ _ (read_ok s1 r1 a1 Ha1')).
  destruct (sols !! S p) as [r2|] eqn:Hr2.
  - destruct (pop_typed _ _ _ Hpop r2) as (a2 & Ha2 & [Hl2 _]); [by eapply list_elem_of_lookup_2|].
    assert (heap s1 !! r2 = Some a2) as Ha2' by (cbn; rewrite (Ht (S p) r2); [done|lia|done]).
    assert (r1 ≠ r2) as Hne.
    { intros ->. pose proof (NoDup_lookup _ _ _ _ (pop_nodup _ _ _ Hpop) Hr1 Hr2). lia. }
    unfold ignore_index_error.
    rewrite (exchange_spec sols p r1 r2 a2 (length a1) s1 0 a1); [|done..|congruence|done|done].
    eexists. split; [done|]. split; try done.
    + change (S (rand_pos s') = (rand_pos s + (S p - 1) / 2)%nat).
       rewrite Hrp, even_half, Nat.add_succ_r by done. done.
    + intros i r Hi Hi'. cbn. destruct (decide (i = p)) as [->|Hip].
      * rewrite Hr1 in Hi'. injection Hi' as <-. rewrite lookup_insert_eq. unfold crossed.
        apply lookup_lt_Some in Hr2 as Hlt. rewrite Hcross, (proj2 (Nat.ltb_lt _ _) Hlt). cbn.
        by rewrite Hr2.
      * rewrite lookup_insert_ne; [apply Hd; [lia|done]|]. intros ->.
        by pose proof (NoDup_lookup _ _ _ _ (pop_nodup _ _ _ Hpop) Hr1 Hi').
    + intros i r Hi Hi'. cbn. rewrite lookup_insert_ne; [apply (Ht i); [lia|done]|]. intros ->.
      pose proof (NoDup_lookup _ _ _ _ (pop_nodup _ _ _ Hpop) Hr1 Hi'). lia.
    + intros r Hin. cbn. rewrite lookup_insert_ne; [by apply Ho|]. intros ->. apply Hin.
      by eapply list_elem_of_lookup_2.
  - assert (ignore_index_error (exchange sols p 0 (length a1)) s1 = (Ok tt, s1)) as ->.
    { unfold ignore_index_error. destruct (length a1); cbn [exchange]; [done|].
      rewrite (st_bind_raise _ _ s1 IndexError s1); [done|]. unfold st_lift. by rewrite Hr2. }
    eexists. split; [done|]. split; try done.
    + change (S (rand_pos s') = (rand_pos s + (S p - 1) / 2)%nat).
       rewrite Hrp, even_half, Nat.add_succ_r by done. done.
    + intros i r Hi Hi'. destruct (decide (i = p)) as [->|]; [|apply Hd; [lia|done]].
      cbn. rewrite (Ht p r) by done. unfold crossed. rewrite Hcross.
      apply lookup_ge_None in Hr2. by rewrite (proj2 (Nat.ltb_ge _ _) Hr2).
    + intros i r Hi. apply Ht. lia.
Qed.

Lemma cross_loop sols s : ∀ k p s',
  pop n sols s → crossing sols s p s' → (p + k = length sols)%nat →
  ∃ s'', st_for (cross_step sols) (seq p k) s' = (Ok tt, s'') ∧ crossing sols s (length sols) s''.
Proof.
  induction k as [|k IH]; intros p s' Hpop Hc Hk; cbn.
  - rewrite Nat.add_0_r in Hk. subst. by exists s'.
  - destruct (cross_step_spec sols s p s' Hpop Hc ltac:(lia)) as (s1 & H1 & Hc1).
    rewrite (st_bind_step _ _ _ _ _ H1). apply IH; [done|done|lia].
Qed.

Lemma crossover_result sols s :
  pop n sols s → ∃ s', crossover sols s = (Ok sols, s') ∧ crossing sols s (length sols) s'.
Proof.
  intros Hpop. unfold crossover. fold (cross_step sols).
  destruct (cross_loop sols s (length sols) 0 s Hpop) as (s' & Hs' & Hc); [|done|].
  - split; try done. cbn. lia.
  - exists s'. split; [|done]. unfold enumerate. by rewrite (st_bind_step _ _ _ _ _ Hs').
Qed.

(** Crossover does not cross.  On a population of separate arrays it ends
    without an exception, leaves the list of solutions as it is, and for every
    even position from 2 on with a successor whose draw is below 0.2 it replaces
    the solution by a copy of the next one, which, after sorting, is the worse of
    the two; every other solution, the next one included, keeps its contents. *)
Theorem crossover_copies sols s (Hpop : pop n sols s) :
  ∃ s', crossover sols s = (Ok sols, s') ∧
    (∀ i r, sols !! i = Some r → heap s' !! r =
       if (i mod 2 =? 0)%nat && (0 <? i)%nat && (S i <? length sols)%nat &&
          Qlt_bool (rand s (rand_pos s + (i - 1) / 2)%nat) (2 # 10)
       then r2 ← sols !! S i; heap s !! r2 else heap s !! r) ∧
    (∀ r, r ∉ sols → heap s' !! r = heap s !! r).
Proof.
  destruct (crossover_result sols s Hpop) as (s' & Hs' & [_ _ _ Hd _ Ho]). exists s'. split_and!; try done.
  intros i r Hi. apply Hd; [|done]. by eapply lookup_lt_Some.
Qed.

Lemma crossover_keeps sols s :
  pop n sols s → ∃ s', crossover sols s = (Ok sols, s') ∧ keeps_best n sols s sols s'.
Proof.
  intros Hpop. destruct (crossover_result sols s Hpop) as (s' & Hs' & [Hr _ Hn Hd _ Ho]).
  exists s'. split; [done|]. destruct Hpop as [Hnd Ht Hf Hb].
  assert (∀ i r, sols !! i = Some r → heap s' !! r = crossed s sols i r) as Hd'.
  { intros i r Hi. apply Hd; [|done]. by eapply lookup_lt_Some. }
  split; try done; [split; try done| ].
  - intros r [i Hi]%list_elem_of_lookup. rewrite (Hd' i r Hi). unfold crossed, crosses.
    destruct (_ && _) eqn:Hc; [|apply Ht; by eapply list_elem_of_lookup_2].
    rewrite !andb_true_iff, !Nat.ltb_lt in Hc. destruct Hc as [[_ Hlt] _].
    destruct (lookup_lt_is_Some_2 sols (S i) Hlt) as [r2 Hr2]. rewrite Hr2. cbn.
    apply Ht. by eapply list_elem_of_lookup_2.
  - intros r Hs. rewrite Hn. destruct (decide (r ∈ sols)) as [Hin|Hin].
    + destruct (Ht r Hin) as (a & Ha & _). apply Hf. by rewrite Ha.
    + rewrite Ho in Hs by done. by apply Hf.
  - intros k. rewrite Hr. apply Hb.
  - intros r H0. rewrite (Hd' 0%nat r H0). done.
Qed.
End crossing.

(** ** The genetic algorithm *)
Section genetic.
Context (log10 : Q → Q) (pi : Q) (norm : vec → Q) (users : list User) (uavs : list UAV) (Huavs : uavs ≠ []).
Local Abbreviation n := (length uavs).
Local Abbreviation score := (score_of log10 pi norm users uavs).
Local Abbreviation best_of := (score_at log10 pi norm users uavs).

(** C30: The operators are type safe: on a list of distinct references to arrays with
    one movement within reach per UAV, [sort_solutions], [mutate], [crossover] and
    [prune] never raise, and give such a list again, of the same length; the last
    three keep the first solution and its contents. *)
Theorem operators_typed sols s (Hpop : pop n sols s) :
  (∃ sols', sort_solutions log10 pi norm users uavs sols s = (Ok sols', s) ∧ pop n sols' s ∧
     length sols' = length sols) ∧
  Forall (λ op : list nat → stm state (list nat),
    ∃ sols' s', op sols s = (Ok sols', s') ∧ pop n sols' s' ∧ length sols' = length sols ∧
      sols' !! 0%nat = sols !! 0%nat ∧ ∀ r, sols !! 0%nat = Some r → heap s' !! r = heap s !! r)
    [mutate uavs; crossover; prune uavs].
Proof.
  split.
  - destruct (sort_solutions_spec log10 pi norm users uavs Huavs n eq_refl sols s Hpop) as (sols' & Hs & Hp & _).
    exists sols'. split_and!; [done|by apply (pop_perm n sols)|by apply Permutation_length].
  - assert (∀ op : list nat → stm state (list nat), (∃ sols' s', op sols s = (Ok sols', s') ∧ keeps_best n sols s sols' s') →
      ∃ sols' s', op sols s = (Ok sols', s') ∧ pop n sols' s' ∧ length sols' = length sols ∧
        sols' !! 0%nat = sols !! 0%nat ∧ ∀ r, sols !! 0%nat = Some r → heap s' !! r = heap s !! r) as H.
    { intros op (sols' & s' & Ho & [? ? ? ?]). by exists sols', s'. }
    repeat constructor; apply H.
    + by apply mutate_keeps.
    + destruct (crossover_keeps n sols s Hpop) as (s' & ? & ?). by exists sols, s'.
    + by apply prune_keeps.
Qed.

Lemma round_spec sols fitness r s :
  pop n sols s → sols ≠ [] → ∃ sols' s' best,
    ga_round log10 pi norm users uavs (sols, fitness) r s = (Ok (sols', fitness ++ [best_of s' best]), s') ∧
    pop n sols' s' ∧ length sols' = length sols ∧ sols' !! 0%nat = Some best ∧
    ∀ r, r ∈ sols → (best_of s r <= best_of s' best)%Q.
Proof.
  intros Hpop Hne.
  destruct (sort_solutions_spec log10 pi norm users uavs Huavs n eq_refl sols s Hpop) as (s1 & H1 & Hp1 & Hbest).
  pose proof (pop_perm n sols s1 s Hp1 Hpop) as Hpop1. pose proof (Permutation_length Hp1) as L1.
  destruct (mutate_keeps uavs n eq_refl s1 s Hpop1) as (s2 & t2 & H2 & K2).
  destruct (crossover_keeps n s2 t2 (kb_pop _ _ _ _ _ K2)) as (t3 & H3 & K3).
  destruct (prune_keeps uavs n eq_refl s2 t3 (kb_pop _ _ _ _ _ K3)) as (s4 & t4 & H4 & K4).
  pose proof (keeps_best_trans n _ _ _ _ _ _ K2 (keeps_best_trans n _ _ _ _ _ _ K3 K4)) as [Hp Hl Hf Hb].
  destruct s1 as [|best s1']; [by destruct sols|]. exists s4, t4, best.
  specialize (Hb best eq_refl). cbn in Hf.
  destruct (pop_array n s4 t4 best Hp) as [Ha Ht]; [by eapply list_elem_of_lookup_2|].
  unfold ga_round.
  rewrite (st_bind_step _ _ _ _ _ H1), (st_bind_step _ _ _ _ _ H2), (st_bind_step _ _ _ _ _ H3),
    (st_bind_step _ _ _ _ _ H4).
  rewrite (st_bind_step _ _ t4 best t4) by (unfold st_lift; by rewrite Hf).
  rewrite (st_bind_step _ _ _ _ _ (read_ok t4 best _ Ha)).
  rewrite (st_bind_step _ _ t4 (best_of t4 best) t4).
  2: { unfold st_lift. by rewrite (score_of_ok log10 pi norm users uavs Huavs n). }
  split_and!; [done|done|congruence|done|].
  intros r' Hr'. replace (best_of t4 best) with (best_of s best); [by apply Hbest|].
  unfold score_at, array_at. by rewrite Hb.
Qed.

(** The fitness values so far do not decrease, and the last is the score of the
    first solution. *)
Definition history (p : list nat * list Q) (s : state) : Prop :=
  pop n p.1 s ∧ length p.1 = n_solutions ∧
  (∀ i j x y, (i ≤ j)%nat → p.2 !! i = Some x → p.2 !! j = Some y → (x <= y)%Q) ∧
  (∀ x, last p.2 = Some x → ∃ best, p.1 !! 0%nat = Some best ∧ best_of s best = x).

Lemma round_history p r s :
  history p s → ∃ p' s', ga_round log10 pi norm users uavs p r s = (Ok p', s') ∧ history p' s' ∧
    length p'.2 = S (length p.2).
Proof.
  destruct p as [sols fitness]. intros (Hpop & Hl & Hmono & Hlast). cbn [fst snd] in *.
  destruct (round_spec sols fitness r s Hpop) as (sols' & s' & best & Hr & Hp' & Hl' & Hb & Hge).
  { by intros ->. }
  eexists _, s'. split; [exact Hr|]. split; [|cbn; rewrite length_app; cbn; lia]. split_and!; cbn [fst snd].
  - done.
  - congruence.
  - intros i j x y Hij Hx Hy. destruct (decide (j < length fitness)%nat) as [Hj|Hj].
    + rewrite lookup_app_l in Hx, Hy by lia. by apply (Hmono i j).
    + assert (j = length fitness) as -> by (apply lookup_lt_Some in Hy; rewrite length_app in Hy; cbn in Hy; lia).
      rewrite list_lookup_middle in Hy by done. injection Hy as <-.
      destruct (decide (i = length fitness)) as [->|Hne].
      * rewrite list_lookup_middle in Hx by done. injection Hx as <-. apply Qle_refl.
      * rewrite lookup_app_l in Hx by lia.
        destruct (last fitness) as [z|] eqn:Ez.
        -- destruct (Hlast z eq_refl) as (b0 & Hb0 & <-).
           apply (Qle_trans _ (best_of s b0)).
           ++ rewrite last_lookup in Ez. apply (Hmono i (pred (length fitness))); [lia|done|done].
           ++ apply Hge. by eapply list_elem_of_lookup_2.
        -- apply last_None in Ez. subst. by rewrite lookup_nil in Hx.
  - intros x Hx. rewrite last_snoc in Hx. injection Hx as <-. by exists best.
Qed.

Lemma rounds_history l p s :
  history p s → ∃ p' s', st_fold (ga_round log10 pi norm users uavs) p l s = (Ok p', s') ∧ history p' s' ∧
    length p'.2 = (length p.2 + length l)%nat.
Proof.
  revert p s. induction l as [|r l IH]; intros p s Hh; cbn.
  - exists p, s. split_and!; [done|done|lia].
  - destruct (round_history p r s Hh) as (p1 & s1 & H1 & Hh1 & L1).
    rewrite (st_bind_step _ _ _ _ _ H1). destruct (IH p1 s1 Hh1) as (p2 & s2 & H2 & Hh2 & L2).
    exists p2, s2. split_and!; [done|done|lia].
Qed.

Definition init_state (rand : nat → Q) (choice : nat → nat) (randint : nat → Z → Z → Z) : state :=
  State ∅ 0 rand 0 choice 0 randint 0.

Lemma initial_population s k :
  pop n [] s → ∃ sols s', st_map (λ _ : nat, gen_movement_vector uavs) (seq 0 k) s = (Ok sols, s') ∧
    length sols = k ∧ pop n sols s'.
Proof.
  intros Hp. destruct (st_map_inv (λ _ : nat, gen_movement_vector uavs) (pop n) (seq 0 k)) with
    (ys := @nil nat) (s := s) as (sols & s' & Hs & Hl & Hpop); [|done|].
  - intros sols x t _ Hpop.
    destruct (gen_movement_spec uavs t (pop_rand _ _ _ Hpop)) as (a & t' & Ht' & Ha & Hh & Hn & Hr).
    exists (next t), t'. split; [done|]. destruct Hpop as [Hnd Ht Hf Hb].
    assert (next t ∉ sols) as Hfresh.
    { intros (b & Hb' & _)%Ht. specialize (Hf (next t) ltac:(by rewrite Hb')). lia. }
    split.
    + apply NoDup_app. split_and!; [done| |by apply NoDup_singleton].
      intros y Hy ->%list_elem_of_singleton. done.
    + intros r [Hr' | ->%list_elem_of_singleton]%elem_of_app; rewrite Hh.
      * rewrite lookup_insert_ne by (by intros <-). by apply Ht.
      * exists a. by rewrite lookup_insert_eq.
    + intros r. rewrite Hh, Hn. destruct (decide (r = next t)) as [->|]; [lia|].
      rewrite lookup_insert_ne by done. intros Hs%Hf. lia.
    + intros i. rewrite Hr. apply Hb.
  - rewrite length_seq in Hl. by exists sols, s'.
Qed.

(** C29: The whole search, from any random numbers in [[0, 1)] and for at least one
    UAV: it ends without an exception, records the fitness of fifty rounds, which
    never decreases (the best solution survives every operator), and writes one
    position per UAV, each coordinate at most speed times time step away from
    where the UAV was. *)
Theorem gen_solutions_improves rand choice randint
    (Hrand : ∀ k, (0 <= rand k)%Q ∧ (rand k < 1)%Q) :
  ∃ centroids fitness s',
    gen_solutions log10 pi norm users uavs (init_state rand choice randint) = (Ok (centroids, fitness), s') ∧
    length fitness = rounds ∧
    (∀ i j x y, (i ≤ j)%nat → fitness !! i = Some x → fitness !! j = Some y → (x <= y)%Q) ∧
    length centroids = length uavs ∧
    ∀ k u c, uavs !! k = Some u → centroids !! k = Some c →
      (Qabs (c.1 - (coords (uav_position u)).1) <= speed * timestep)%Q ∧
      (Qabs (c.2 - (coords (uav_position u)).2) <= speed * timestep)%Q.
Proof.
  destruct (initial_population (init_state rand choice randint) n_solutions) as (sols & s1 & H1 & L1 & P1).
  { split; [constructor|by intros r ?%elem_of_nil| |done].
    intros r [a Ha]. cbn in Ha. by rewrite lookup_empty in Ha. }
  destruct (rounds_history (seq 0 rounds) (sols, []) s1) as ([sols' fitness] & s2 & H2 & (P2 & L2 & Hmono & _) & Lf).
  { split_and!; [done|done| |done]. intros i j x y _ Hx. cbn [snd] in Hx. by rewrite lookup_nil in Hx. }
  cbn [fst snd] in *. rewrite length_seq in Lf. cbn [length] in Lf.
  destruct (lookup_lt_is_Some_2 sols' 0) as [best Hb]; [rewrite L2; unfold n_solutions; lia|].
  destruct (pop_array n sols' s2 best P2) as [Ha [Hta Hreach]]; [by eapply list_elem_of_lookup_2|].
  eexists _, fitness, s2. split_and!.
  - unfold gen_solutions. rewrite (st_bind_step _ _ _ _ _ H1), (st_bind_step _ _ _ _ _ H2).
    rewrite (st_bind_step _ _ s2 best s2) by (unfold st_lift; by rewrite Hb).
    rewrite (st_bind_step _ _ _ _ _ (read_ok s2 best _ Ha)). reflexivity.
  - rewrite Lf. done.
  - exact Hmono.
  - rewrite length_zip_with, Hta. lia.
  - intros k u c Hu Hc. apply lookup_zip_with_Some in Hc as (u' & m & -> & Hu' & Hm).
    rewrite Hu in Hu'. injection Hu' as <-.
    apply (Forall_lookup_1 _ _ _ _ Hreach) in Hm as [[Hx1 Hx2] [Hy1 Hy2]]. fold reach.
    unfold vadd. cbn [fst snd]. split; apply Qabs_Qle_condition; split; lra.
Qed.
End genetic.

(** ** Samples *)

Definition sample_rand (k : nat) : Q := (Z.of_nat (k * 7 mod 10) # 10)%Q.
Lemma sample_rand_range k : (0 <= sample_rand k)%Q ∧ (sample_rand k < 1)%Q.
Proof.
  unfold sample_rand, Qle, Qlt. cbn. pose proof (Nat.mod_upper_bound (k * 7) 10 ltac:(lia)). lia.
Qed.
Definition sample_state : state := init_state sample_rand (λ k, (k mod 3)%nat) (λ _ lo _, lo).
Definition sample_uav (x y : Z) : UAV := MkUAV (FStr (str "1")) (PTuple x y) (FStr (str "90")) 100 100.
Definition sample_moved (x y : Z) : UAV := MkUAV (FStr (str "1")) (PArray (inject_Z x, inject_Z y)) (FStr (str "90")) 100 100.
Definition sample_user (x y : Z) : User := MkUser (FStr (str "7")) (PTuple x y).
(** The larger coordinate, and the logarithm to base 2 rounded down, scaled. *)
Definition sample_norm (v : vec) : Q := Qmax (Qabs v.1) (Qabs v.2).
Definition sample_log10 (x : Q) : Q := (inject_Z (Z.log2 (Qfloor x)) * (3 # 10))%Q.
Lemma sample_log10_mono x y : (1 <= x)%Q → (x <= y)%Q → (sample_log10 x <= sample_log10 y)%Q.
Proof.
  intros _ Hxy. unfold sample_log10. apply Qmult_le_compat_r; [|done].
  rewrite <-Zle_Qle. apply Z.log2_le_mono. by apply Qfloor_resp_le.
Qed.

(** A scenario that was just read cannot be scored before its UAVs move: both
    positions are tuples. *)
Example loaded_scenario_not_scored :
  scenario_fitness sample_log10 3 sample_norm [sample_user 1 2] [sample_uav 3 4] = Raise TypeError.
Proof. reflexivity. Qed.

(** The signs are drawn per axis, so a UAV can fly further than its maximum speed
    allows in a time step: 200 to the side and 200 up in five seconds at 50. *)
Example diagonal_too_fast :
  ∃ v s, gen_new_position timestep (init_state (λ _, 8 # 10) (λ _, 1%nat) (λ _ lo _, lo)) = (Ok v, s) ∧
    (v.1 == 200)%Q ∧ (v.2 == 200)%Q ∧ ((speed * timestep) * (speed * timestep) < v.1 * v.1 + v.2 * v.2)%Q.
Proof. eexists _, _. split; [reflexivity|]. vm_compute. split_and!; reflexivity. Qed.

Lemma fitness_is_best_power_witness :
  ∃ q, scenario_fitness sample_log10 3 sample_norm [sample_user 1 2; sample_user 900 10]
         [sample_moved 0 0; sample_moved 800 0] = Ok q.
Proof.
  destruct (fitness_is_best_power sample_log10 3 sample_norm [sample_user 1 2; sample_user 900 10]
    (sample_moved 0 0) [sample_moved 800 0] sample_log10_mono) as (q & Hq & _).
  - intros user u _ [-> | ->%list_elem_of_singleton]%elem_of_cons; right; exact I.
  - exists q. exact Hq.
Defined.

Lemma coverage_connects_witness :
  ∃ m, get_coverage sample_log10 3 sample_norm [sample_user 1 2; sample_user 900 10]
         [sample_moved 0 0; sample_moved 800 0] = Ok m ∧ m = [[1; 0]; [0; 1]].
Proof.
  destruct (coverage_connects sample_log10 3 sample_norm [sample_user 1 2; sample_user 900 10]
    [sample_moved 0 0; sample_moved 800 0]) as (m & Hm & _).
  - discriminate.
  - intros user u _ [-> | ->%list_elem_of_singleton]%elem_of_cons; right; exact I.
  - exists m. split; [exact Hm|]. vm_compute in Hm. injection Hm as <-. reflexivity.
Defined.

Definition sample_solutions : list nat := [0%nat; 1%nat; 2%nat; 3%nat].
Definition sample_population : state :=
  State (<[3%nat := [(4, 4)%Q]]> (<[2%nat := [(3, 3)%Q]]> (<[1%nat := [(2, 2)%Q]]> (<[0%nat := [(1, 1)%Q]]> ∅))))
    4 (λ _, 0%Q) 0 (λ _, 0%nat) 0 (λ _ lo _, lo) 0.
Lemma sample_pop : pop 1 sample_solutions sample_population.
Proof.
  assert (∀ q, (- reach <= q <= reach)%Q → typed 1 [(q, q)]) as Ht.
  { intros q Hq. split; [done|]. apply Forall_singleton. split; exact Hq. }
  split.
  - apply (bool_decide_unpack _). vm_compute. exact I.
  - intros r Hr. unfold sample_solutions in Hr.
    repeat (apply elem_of_cons in Hr as [-> | Hr]; [eexists; split; [vm_compute; reflexivity|apply Ht; vm_compute; split; discriminate]|]).
    by apply elem_of_nil in Hr.
  - intros r [a Ha]. cbn [heap sample_population next] in Ha |- *.
    repeat (apply lookup_insert_Some in Ha as [[<- _]|[_ Ha]]; [lia|]). by rewrite lookup_empty in Ha.
  - intros k. cbn. split; [apply Qle_refl|done].
Qed.

Lemma crossover_copies_witness :
  ∃ s', crossover sample_solutions sample_population = (Ok sample_solutions, s') ∧
    heap s' !! 2%nat = Some [(4, 4)%Q] ∧ heap s' !! 3%nat = Some [(4, 4)%Q].
Proof.
  destruct (crossover_copies 1 sample_solutions sample_population sample_pop) as (s' & Hs' & Hd & _).
  exists s'. split_and!; [exact Hs'|..].
  - etransitivity; [apply (Hd 2%nat 2%nat eq_refl)|vm_compute; reflexivity].
  - etransitivity; [apply (Hd 3%nat 3%nat eq_refl)|vm_compute; reflexivity].
Defined.

Lemma operators_typed_witness :
  ∃ sols', sort_solutions sample_log10 3 sample_norm [sample_user 1 2] [sample_uav 3 4] sample_solutions
             sample_population = (Ok sols', sample_population) ∧ length sols' = 4%nat.
Proof.
  destruct (operators_typed sample_log10 3 sample_norm [sample_user 1 2] [sample_uav 3 4] ltac:(discriminate)
    sample_solutions sample_population sample_pop) as [(sols' & Hs & _ & Hl) _].
  exists sols'. split; [exact Hs|exact Hl].
Defined.

Lemma gen_solutions_improves_witness :
  ∃ centroids fitness s',
    gen_solutions sample_log10 3 sample_norm [sample_user 1 2] [sample_uav 3 4; sample_uav 500 6] sample_state
      = (Ok (centroids, fitness), s') ∧ length fitness = 50%nat ∧ length centroids = 2%nat.
Proof.
  destruct (gen_solutions_improves sample_log10 3 sample_norm [sample_user 1 2] [sample_uav 3 4; sample_uav 500 6]
    ltac:(discriminate) sample_rand (λ k, (k mod 3)%nat) (λ _ lo _, lo) sample_rand_range)
    as (c & fit & s' & Hs' & Hf & _ & Hc & _).
  exists c, fit, s'. split; [exact Hs'|]. split; [exact Hf|exact Hc].
Defined.
