(* ===== verification/RunSims.v ===== *)
(** * Running many simulations: src/Fog4VR/Run.py

    The script starts the same simulation a number of times, in batches that
    leave some processors free.  The record [options] is what argparse returns.
    The load average, read once per round, is a stream of numbers, the processes
    of a batch are the list of commands started, in order. *)
From Stdlib Require Import Ascii String.
From S2P Require Export PyFloat.
Open Scope Z_scope.

Record options : Type := Options {
  o_script : pystr;
  o_arguments : option (list pystr);
  o_cores : Q;
  o_runs : Z;
  o_id : option pystr;
  o_seed : option pystr;
  o_UseGraph : bool;
  o_graph : option pystr;
  o_GraphArgs : option (list pystr);
  o_CopyArgs : option (list pystr);
  o_RepeatArgs : option (list pystr);
}.

(** [parser.error] ends the process with status 2. *)
Definition parser_error {A} : res exn A := Raise (SystemExit 2).

Definition check_options (o : options) : res exn unit :=
  if Qlt_bool 1 (o_cores o) || Qlt_bool (o_cores o) 0 then parser_error
  else if o_runs o <=? 0 then parser_error
  else mret tt.

(** ** The commands *)

(** [a.split('=', 1)] *)
Definition split_eq (a : pystr) : list pystr :=
  match split_once "=" a with Some (l, r) => [l; r] | None => [a] end.
Definition part (l : list pystr) (n : nat) : res exn pystr := res_of_option IndexError (l !! n).

Definition add_argument (script : pystr) (a : pystr) : pystr := script ++ str " --" ++ a.
Definition sim_script (o : options) : pystr :=
  let script := fold_left add_argument (default [] (o_arguments o)) (o_script o) in
  let script := match o_id o with Some id => add_argument script id | None => script end in
  str "./waf --run=" ++ [dquote] ++ script.

Definition add_flag (gscript name value : pystr) : pystr := gscript ++ str " -" ++ name ++ str " " ++ value.

Definition graph_arg (gscript a : pystr) : res exn pystr :=
  let aux := split_eq a in
  x ← part aux 0; y ← part aux 1;
  mret (add_flag gscript x y).

(** The value of an argument of the simulation under another name: the argument
    is split at every equals sign. *)
Definition copy_arg (args : option (list pystr)) (gscript a : pystr) : res exn pystr :=
  let aux := split_eq a in
  args ← res_of_option TypeError args;
  fold_res (λ gscript i,
    let aux2 := split_char "=" i in
    x2 ← part aux2 0; x ← part aux 0;
    if bool_decide (x2 = x) then
      y ← part aux 1; y2 ← part aux2 1;
      mret (add_flag gscript y y2)
    else mret gscript) gscript args.

Definition repeat_arg (runs : Z) (gscript a : pystr) : res exn pystr :=
  let aux := split_eq a in
  x ← part aux 0;
  if bool_decide (x = str "runs") then
    y ← part aux 1;
    mret (add_flag gscript y (str_of_Z runs))
  else mret gscript.

(** The command of the graph script; None stays None. *)
Definition graph_script (o : options) : res exn (option pystr) :=
  if o_UseGraph o then
    match o_graph o with
    | None => parser_error
    | Some g =>
        let gscript := str "python3 " ++ g in
        gscript ← fold_res graph_arg gscript (default [] (o_GraphArgs o));
        gscript ← fold_res (copy_arg (o_arguments o)) gscript (default [] (o_CopyArgs o));
        gscript ← fold_res (repeat_arg (o_runs o)) gscript (default [] (o_RepeatArgs o));
        mret (Some gscript)
    end
  else mret (o_graph o).

(** [callFunction]: the command that the process with the given number runs. *)
Definition callFunction (o : options) (num : Z) (script : pystr) : pystr :=
  let script := match o_id o with
                | Some _ => script ++ str "=" ++ str_of_Z num | None => script end in
  let script := match o_seed o with
                | Some seed => script ++ str " --" ++ seed ++ str "=" ++ str_of_Z num | None => script end in
  script ++ [dquote].

(** ** The batches *)

Section batches.
Context (o : options) (NumCores : Z).

(** [int(x)] of the product of an integer and a float. *)
Definition share (n : Z) : Z := Qtrunc (inject_Z n * o_cores o).
Definition MaxCores : Z := share NumCores.

(** The dictionary [Cores] keeps the keys core0, core1, ...; only how many there
    are matters, as [list(Cores)[i]] takes the [i]-th key. *)
Definition core_keys : nat := Z.to_nat MaxCores.

(** How many simulations the round starts. *)
Definition use_cores (load : Q) (j : Z) : Z :=
  let freeCores := Qceiling (inject_Z NumCores - load) in
  let useCores := share freeCores in
  if o_runs o <? useCores + j then o_runs o - j else useCores.

(** One round from run [j] on: the processes created; an [IndexError] when there
    are more of them than keys. *)
Definition batch (load : Q) (j : Z) : res exn (list Z) :=
  let n := Z.to_nat (use_cores load j) in
  if decide (n ≤ core_keys)%nat then mret (seqZ j (Z.of_nat n)) else Raise IndexError.

(** The [while] loop for at most [fuel] rounds; None when runs are left. *)
Fixpoint run_batches (fuel : nat) (loads : nat → Q) (j : Z) : option (res exn (list (list Z))) :=
  if j <? o_runs o then
    match fuel with
    | O => None
    | S fuel =>
        match batch (loads 0%nat) j with
        | Raise e => Some (Raise e)
        | Ok b =>
            match run_batches fuel (λ n, loads (S n)) (j + Z.of_nat (length b)) with
            | Some (Ok bs) => Some (Ok (b :: bs))
            | r => r
            end
        end
    end
  else Some (Ok []).

(** What happens before [main]: the options are checked and the command of the
    graph script is put together. *)
Definition prepare_run : res exn (option pystr) := _ ← check_options o; graph_script o.

(** The whole script: the commands started, batch by batch, and then the one of
    the graph script; [os.system(None)] is a [TypeError], but the options rule it
    out. *)
Definition run_main (fuel : nat) (loads : nat → Q) : option (res exn (list (list pystr) * option pystr)) :=
  match prepare_run with
  | Raise e => Some (Raise e)
  | Ok gscript =>
      match run_batches fuel loads 0 with
      | None => None
      | Some (Raise e) => Some (Raise e)
      | Some (Ok bs) =>
          Some (Ok (map (map (λ num, callFunction o num (sim_script o))) bs,
                    if o_UseGraph o then gscript else None))
      end
  end.
End batches.

(** ** The rounds of the loop *)

Section rounds.
Context (o : options) (NumCores : Z).
Hypothesis Hcores : (0 <= o_cores o)%Q.

(** The processors that the load leaves for one round, and for the first rounds
    together. *)
Definition free_share (load : Q) : Z := share o (Qceiling (inject_Z NumCores - load)).
Fixpoint capacity (fuel : nat) (loads : nat → Q) : Z :=
  match fuel with
  | O => 0
  | S fuel => Z.max 0 (free_share (loads 0%nat)) + capacity fuel (λ n, loads (S n))
  end.

Lemma share_mono n m : n ≤ m → share o n ≤ share o m.
Proof.
  intros H. unfold share, Qtrunc. destruct (o_cores o) as [a d] eqn:E. cbn.
  unfold Qle in Hcores. cbn in Hcores. apply Z.quot_le_mono; [lia|]. nia.
Qed.
Lemma free_share_le load : (0 <= load)%Q → free_share load ≤ MaxCores o NumCores.
Proof.
  intros H. apply share_mono. rewrite <-(Qceiling_Z NumCores) at 2.
  apply Qceiling_resp_le. apply Qplus_le_l with load. ring_simplify.
  rewrite <-(Qplus_0_r (inject_Z NumCores)) at 1. by apply Qplus_le_r.
Qed.
Lemma use_cores_min load j : use_cores o NumCores load j = Z.min (free_share load) (o_runs o - j).
Proof. unfold use_cores. fold (free_share load). destruct (Z.ltb_spec (o_runs o) (free_share load + j)); lia. Qed.

Lemma batch_ok load j : (0 <= load)%Q →
  batch o NumCores load j = Ok (seqZ j (Z.max 0 (Z.min (free_share load) (o_runs o - j)))).
Proof.
  intros H. pose proof (free_share_le load H). unfold batch, core_keys. rewrite use_cores_min.
  rewrite decide_True by lia. f_equal. f_equal. lia.
Qed.

Lemma run_batches_spec fuel loads j : (∀ n, (0 <= loads n)%Q) → 0 ≤ j ≤ o_runs o →
  match run_batches o NumCores fuel loads j with
  | None => capacity fuel loads < o_runs o - j
  | Some (Ok bs) =>
      o_runs o - j ≤ capacity fuel loads ∧
      concat bs = seqZ j (o_runs o - j) ∧
      Forall (λ b, (length b ≤ core_keys o NumCores)%nat) bs
  | Some (Raise _) => False
  end.
Proof.
  assert (∀ f l, 0 ≤ capacity f l) as Hpos by (intros f; induction f; intros l; cbn; [lia|]; specialize (IHf (λ n, l (S n))); lia).
  revert loads j. induction fuel as [|fuel IH]; intros loads j Hl Hj; cbn [run_batches];
    destruct (Z.ltb_spec j (o_runs o)) as [Hlt|Hge].
  - cbn. lia.
  - cbn. rewrite seqZ_nil by lia. split_and!; [lia|done..].
  - rewrite batch_ok by done. rewrite length_seqZ. cbn [capacity].
    pose proof (free_share_le _ (Hl 0%nat)) as Hle.
    set (k := Z.max 0 (Z.min _ _)) in *.
    specialize (IH (λ n, loads (S n)) (j + Z.of_nat (Z.to_nat k)) (λ n, Hl (S n)) ltac:(lia)).
    pose proof (Hpos fuel (λ n, loads (S n))).
    destruct (run_batches _ _ _ _ _) as [[bs|e]|]; [|done|lia].
    destruct IH as (H1 & H2 & H3). cbn. split_and!; [lia| |].
    + rewrite H2. rewrite Z2Nat.id by lia. rewrite <-seqZ_app by lia. f_equal. lia.
    + constructor; [|done]. rewrite length_seqZ. unfold core_keys. lia.
  - rewrite seqZ_nil by lia. split_and!; [specialize (Hpos (S fuel) loads); lia|done..].
Qed.

Lemma capacity_starved fuel loads : (∀ n, (0 <= loads n)%Q) → MaxCores o NumCores ≤ 0 → capacity fuel loads = 0.
Proof.
  intros Hl Hm. revert loads Hl. induction fuel as [|fuel IH]; intros loads Hl; [done|].
  cbn [capacity]. rewrite IH by (intros n; apply Hl). pose proof (free_share_le _ (Hl 0%nat)). lia.
Qed.
End rounds.

Lemma check_options_ok o : check_options o = Ok tt → (0 <= o_cores o <= 1)%Q ∧ 0 < o_runs o.
Proof.
  unfold check_options. destruct (Qlt_bool 1 _) eqn:E1; [done|]. destruct (Qlt_bool (o_cores o) 0) eqn:E2; [done|].
  cbn. destruct (Z.leb_spec (o_runs o) 0); [done|]. intros _.
  apply not_true_iff_false in E1, E2. rewrite Qlt_bool_iff in E1, E2.
  split; [split; by apply Qnot_lt_le|done].
Qed.

Lemma prepare_run_ok o g : prepare_run o = Ok g → check_options o = Ok tt ∧ graph_script o = Ok g.
Proof. unfold prepare_run. destruct (check_options o) as [[]|]; done. Qed.

(** C31: once the options are accepted and the graph command is built, and the
    load average is never negative, [main] raises nothing in the loop: it is
    still in the loop after a number of rounds exactly when the processors left
    free in those rounds do not add up to the number of runs; otherwise it has
    started the command of every run exactly once and in order, in batches
    that hold no more processes than [Cores] has keys, and has then started
    the graph command exactly when it was asked for. *)
Theorem runs_started o NumCores fuel loads g :
  prepare_run o = Ok g → (∀ n, (0 <= loads n)%Q) →
  (run_main o NumCores fuel loads = None ↔ capacity o NumCores fuel loads < o_runs o) ∧
  ∀ r, run_main o NumCores fuel loads = Some r →
    ∃ bs, r = Ok (bs, if o_UseGraph o then g else None) ∧
      concat bs = map (λ num, callFunction o num (sim_script o)) (seqZ 0 (o_runs o)) ∧
      Forall (λ b, (length b ≤ core_keys o NumCores)%nat) bs.
Proof.
  intros Hp Hl. destruct (prepare_run_ok o g Hp) as [[Hc Hr]%check_options_ok _].
  pose proof (run_batches_spec o NumCores (proj1 Hc) fuel loads 0 Hl ltac:(lia)) as H.
  unfold run_main. rewrite Hp. destruct (run_batches _ _ _ _ _) as [[bs|e]|]; [|done|].
  - destruct H as (H1 & H2 & H3). split; [split; [done|lia]|]. intros r [= <-]. eexists. split; [done|].
    rewrite <-concat_map, H2, Z.sub_0_r. split; [done|].
    rewrite Forall_map. apply (Forall_impl _ _ _ H3). intros b. cbn. by rewrite length_map.
  - split; [split; [lia|done]|done].
Qed.

Definition sample_run : options :=
  Options (str "scratch/sim") (Some [str "politica=1"; str "clients=5"]) (1 # 2) 3 (Some (str "id")) None
    true (Some (str "plot.py")) None (Some [str "clients=c"]) (Some [str "runs=r"]).
Definition sample_loads (n : nat) : Q := match n with O => 17 # 10 | _ => 3 # 10 end.


Lemma runs_started_witness :
  let cmd n := str "./waf --run=" ++ [dquote] ++ str "scratch/sim --politica=1 --clients=5 --id=" ++ str n ++ [dquote] in
  prepare_run sample_run = Ok (Some (str "python3 plot.py -c 5 -r 3")) ∧
  run_main sample_run 4 1 sample_loads = None ∧
  run_main sample_run 4 3 sample_loads =
    Some (Ok ([[cmd "0"]; [cmd "1"; cmd "2"]], Some (str "python3 plot.py -c 5 -r 3"))) ∧
  capacity sample_run 4 1 sample_loads < 3.
Proof.
  assert (prepare_run sample_run = Ok (Some (str "python3 plot.py -c 5 -r 3"))) as Hp by (vm_compute; reflexivity).
  assert (∀ n, (0 <= sample_loads n)%Q) as Hl by (intros [|n]; vm_compute; discriminate).
  split; [exact Hp|]. split; [vm_compute; reflexivity|]. split; [vm_compute; reflexivity|].
  apply (runs_started sample_run 4 1 sample_loads _ Hp Hl). vm_compute. reflexivity.
Defined.

(** A machine whose share of processors rounds down to none (one processor
    and the default share of one half, or a share of zero, which the check of
    the options admits) never starts a run, and the loop never ends. *)
Theorem no_core_never_ends o NumCores loads g :
  prepare_run o = Ok g → (∀ n, (0 <= loads n)%Q) → MaxCores o NumCores ≤ 0 →
  ∀ fuel, run_main o NumCores fuel loads = None.
Proof.
  intros Hp Hl Hm fuel. destruct (prepare_run_ok o g Hp) as [[Hc Hr]%check_options_ok _].
  pose proof (run_batches_spec o NumCores (proj1 Hc) fuel loads 0 Hl ltac:(lia)) as H.
  rewrite (capacity_starved o NumCores (proj1 Hc)) in H by done. unfold run_main. rewrite Hp.
  destruct (run_batches _ _ _ _ _) as [[bs|e]|]; [lia|done..].
Qed.

Lemma no_core_never_ends_witness :
  MaxCores sample_run 1 = 0 ∧ run_main sample_run 1 1000 sample_loads = None.
Proof.
  split; [vm_compute; reflexivity|].
  apply (no_core_never_ends sample_run 1 sample_loads (Some (str "python3 plot.py -c 5 -r 3"))).
  - vm_compute. reflexivity.
  - intros [|n]; vm_compute; discriminate.
  - vm_compute. discriminate.
Defined.
