(* ===== verification/Workers.v ===== *)
(** * [test.py]: jobs, worker threads and the queues between them

    [Job] and its setters, the command a worker runs for a job
    ([run_job_synchronously]), the loop of [worker_thread.run], and the main
    thread of [run_tests] from the start of the threads to the last [join].
    The threads are a step relation: one step is one operation on a queue, the
    end of one external process, one [join], or the delivery of a SIGINT, in
    any interleaving.  The external processes are a parameter. *)
From Stdlib Require Import Ascii QArith.
From S2P Require Export PyOs.
Open Scope Z_scope.

(** ** Jobs *)

(** [returncode] starts as [False], which Python compares as 0. *)
Record Job := MkJob {
  is_break : bool; is_skip : bool; skip_reason : pystr; is_example : bool;
  is_pyexample : bool; shell_command : pystr; display_name : pystr; basedir : pystr;
  tempdir : pystr; cwd : pystr; tmp_file_name : pystr; returncode : Z;
  elapsed_time : Q; build_path : pystr }.

#[export] Instance Q_eq_dec : EqDecision Q.
Proof. solve_decision. Defined.
#[export] Instance Job_eq_dec : EqDecision Job.
Proof. solve_decision. Defined.

Definition new_Job : Job := MkJob false false [] false false [] [] [] [] [] [] 0 0 [].

Definition set_is_break (b : bool) (j : Job) : Job :=
  MkJob b (is_skip j) (skip_reason j) (is_example j) (is_pyexample j) (shell_command j)
    (display_name j) (basedir j) (tempdir j) (cwd j) (tmp_file_name j) (returncode j)
    (elapsed_time j) (build_path j).
Definition set_is_skip (b : bool) (j : Job) : Job :=
  MkJob (is_break j) b (skip_reason j) (is_example j) (is_pyexample j) (shell_command j)
    (display_name j) (basedir j) (tempdir j) (cwd j) (tmp_file_name j) (returncode j)
    (elapsed_time j) (build_path j).
Definition set_skip_reason (s : pystr) (j : Job) : Job :=
  MkJob (is_break j) (is_skip j) s (is_example j) (is_pyexample j) (shell_command j)
    (display_name j) (basedir j) (tempdir j) (cwd j) (tmp_file_name j) (returncode j)
    (elapsed_time j) (build_path j).
Definition set_is_example (b : bool) (j : Job) : Job :=
  MkJob (is_break j) (is_skip j) (skip_reason j) b (is_pyexample j) (shell_command j)
    (display_name j) (basedir j) (tempdir j) (cwd j) (tmp_file_name j) (returncode j)
    (elapsed_time j) (build_path j).
Definition set_is_pyexample (b : bool) (j : Job) : Job :=
  MkJob (is_break j) (is_skip j) (skip_reason j) (is_example j) b (shell_command j)
    (display_name j) (basedir j) (tempdir j) (cwd j) (tmp_file_name j) (returncode j)
    (elapsed_time j) (build_path j).
Definition set_shell_command (s : pystr) (j : Job) : Job :=
  MkJob (is_break j) (is_skip j) (skip_reason j) (is_example j) (is_pyexample j) s
    (display_name j) (basedir j) (tempdir j) (cwd j) (tmp_file_name j) (returncode j)
    (elapsed_time j) (build_path j).
Definition set_build_path (s : pystr) (j : Job) : Job :=
  MkJob (is_break j) (is_skip j) (skip_reason j) (is_example j) (is_pyexample j)
    (shell_command j) (display_name j) (basedir j) (tempdir j) (cwd j) (tmp_file_name j)
    (returncode j) (elapsed_time j) s.
Definition set_display_name (s : pystr) (j : Job) : Job :=
  MkJob (is_break j) (is_skip j) (skip_reason j) (is_example j) (is_pyexample j)
    (shell_command j) s (basedir j) (tempdir j) (cwd j) (tmp_file_name j) (returncode j)
    (elapsed_time j) (build_path j).
Definition set_basedir (s : pystr) (j : Job) : Job :=
  MkJob (is_break j) (is_skip j) (skip_reason j) (is_example j) (is_pyexample j)
    (shell_command j) (display_name j) s (tempdir j) (cwd j) (tmp_file_name j)
    (returncode j) (elapsed_time j) (build_path j).
Definition set_tempdir (s : pystr) (j : Job) : Job :=
  MkJob (is_break j) (is_skip j) (skip_reason j) (is_example j) (is_pyexample j)
    (shell_command j) (display_name j) (basedir j) s (cwd j) (tmp_file_name j)
    (returncode j) (elapsed_time j) (build_path j).
Definition set_cwd (s : pystr) (j : Job) : Job :=
  MkJob (is_break j) (is_skip j) (skip_reason j) (is_example j) (is_pyexample j)
    (shell_command j) (display_name j) (basedir j) (tempdir j) s (tmp_file_name j)
    (returncode j) (elapsed_time j) (build_path j).
Definition set_tmp_file_name (s : pystr) (j : Job) : Job :=
  MkJob (is_break j) (is_skip j) (skip_reason j) (is_example j) (is_pyexample j)
    (shell_command j) (display_name j) (basedir j) (tempdir j) (cwd j) s
    (returncode j) (elapsed_time j) (build_path j).
Definition set_returncode (n : Z) (j : Job) : Job :=
  MkJob (is_break j) (is_skip j) (skip_reason j) (is_example j) (is_pyexample j)
    (shell_command j) (display_name j) (basedir j) (tempdir j) (cwd j) (tmp_file_name j)
    n (elapsed_time j) (build_path j).
Definition set_elapsed_time (q : Q) (j : Job) : Job :=
  MkJob (is_break j) (is_skip j) (skip_reason j) (is_example j) (is_pyexample j)
    (shell_command j) (display_name j) (basedir j) (tempdir j) (cwd j) (tmp_file_name j)
    (returncode j) q (build_path j).

Definition break_job : Job := set_is_break true new_Job.

(** ** Running one job *)

(** The command-line options that a worker reads, and the configuration that
    [read_ns3_config] leaves in the globals. *)
Record options := MkOptions {
  buildpath : pystr; constrain : pystr; duration : bool; example : pystr;
  update_data : bool; fullness : pystr; valgrind : bool; kinds : bool; list_tests : bool;
  multiple : bool; no_build : bool; pyexample : pystr; retain : bool; suite : pystr;
  text : pystr; verbose : bool; html : pystr; xml : pystr; process_limit : Z }.

Record config := MkConfig {
  NS3_BASEDIR : pystr; NS3_BUILDDIR : pystr; NS3_ENABLED_MODULES : list pystr;
  NS3_ENABLED_CONTRIBUTED_MODULES : list pystr; NS3_MODULE_PATH : list pystr;
  ENABLE_EXAMPLES : bool; ENABLE_TESTS : bool; EXAMPLE_DIRECTORIES : list pystr;
  ENABLE_PYTHON_BINDINGS : bool; APPNAME : pystr; BUILD_PROFILE : pystr;
  VERSION : pystr; PYTHON : list pystr; VALGRIND_FOUND : bool }.

(** What [communicate] and the clock give for a process that ended. *)
Record process := MkProcess {
  p_returncode : Z; p_stdout : pystr; p_stderr : pystr; p_elapsed : Q }.

Definition VALGRIND_SUPPRESSIONS_FILE : pystr := str "testpy.supp".

(** The command line of [run_job_synchronously]. *)
Definition job_command (cfg : config) (shell_command : pystr) (valgrind is_python : bool)
    (build_path : pystr) : res exn pystr :=
  let suppressions_path := path_join (NS3_BASEDIR cfg) VALGRIND_SUPPRESSIONS_FILE in
  path_cmd ←
    (if is_python then
       python ← res_of_option IndexError (py_get (PYTHON cfg) 0);
       Ok (python ++ str " " ++ path_join (NS3_BASEDIR cfg) shell_command)
     else if bool_decide (build_path ≠ []) then Ok (path_join build_path shell_command)
     else Ok (path_join (NS3_BUILDDIR cfg) shell_command));
  Ok (if valgrind then
        str "valgrind --suppressions=" ++ suppressions_path
          ++ str " --leak-check=full --show-reachable=yes --error-exitcode=2"
          ++ str " --errors-for-leak-kinds=all " ++ path_cmd
      else path_cmd).

(** A stream of the process after the [try] around [decode]: the text to print
    later, whether it was decoded, and what the handler prints. *)
Definition decode_stream (name cmd bytes : pystr) : pystr * bool * list pystr :=
  match decode bytes with
  | Some t => (t, true, [])
  | None => (bytes_repr bytes, false,
             [println (str "Non-decodable character in " ++ name ++ str " output of " ++ cmd);
              println (bytes_repr bytes)])
  end.

(** What [run_job_synchronously] returns for a process, and what it prints:
    [(retval, stdout, stderr, elapsed)] and the printed strings. *)
Definition job_result (opt : options) (cmd : pystr) (p : process) :
    Z * pystr * pystr * Q * list pystr :=
  let '(out, out_ok, out_prints) := decode_stream (str "stdout") cmd (p_stdout p) in
  let '(err, err_ok, err_prints) := decode_stream (str "stderr") cmd (p_stderr p) in
  let retval := if out_ok && err_ok then p_returncode p else 1 in
  (retval, out, err, p_elapsed p,
   (if verbose opt then [println (str "Synchronously execute " ++ cmd)] else [])
     ++ out_prints ++ err_prints
     ++ (if verbose opt
         then [println (str "Return code =  " ++ str_of_Z retval); println (str "stderr =  " ++ err)]
         else [])).

(** The arguments a worker gives to [run_job_synchronously]: the command, and
    whether it is a Python script, and the build path. *)
Definition job_args (opt : options) (j : Job) : pystr * bool * pystr :=
  if is_example j || is_pyexample j then (shell_command j, is_pyexample j, build_path j)
  else
    let upd := if update_data opt then str "--update-data" else [] in
    (shell_command j ++ str " --xml --tempdir=" ++ tempdir j ++ str " --out="
       ++ tmp_file_name j ++ str " " ++ upd, false, []).

Definition worker_command (opt : options) (cfg : config) (j : Job) : res exn pystr :=
  let '(cmd, is_python, bp) := job_args opt j in
  job_command cfg cmd (valgrind opt) is_python bp.

(** The rest of the loop's body once the process has ended. *)
Definition finish_job (opt : options) (cmd : pystr) (p : process) (j : Job) : Job * list pystr :=
  let '(retval, out, err, et, prints) := job_result opt cmd p in
  let j' := set_elapsed_time et (set_returncode retval j) in
  (j', prints ++
     (if verbose opt
      then [println (str "returncode = " ++ str_of_Z (returncode j'));
            println (str "---------- begin standard out ----------"); println out;
            println (str "---------- begin standard err ----------"); println err;
            println (str "---------- end standard err ----------")]
      else [])).

(** ** The threads *)

(** A worker waits in [input_queue.get], waits for the process of a job, has
    returned from [run], or was ended by an exception. *)
Inductive worker : Type :=
  | Waiting
  | Launched (j : Job)
  | Returned
  | Died.

(** The main thread: queueing the jobs, queueing the break jobs, reading [k]
    more results, joining the [i]th thread, past the last [join]. *)
Inductive main_pc : Type :=
  | Dispatch (todo : list Job)
  | Breaks (k : nat)
  | Collect (k : nat)
  | Join (i : nat)
  | Exited.

Record system := MkSystem {
  thread_exit : bool; input_queue : list Job; output_queue : list Job;
  threads : list worker; main : main_pc; jobs : nat; got : list Job;
  printed : list pystr }.

(** The threads are started before anything is queued. *)
Definition start (js : list Job) (processors : nat) : system :=
  MkSystem false [] [] (replicate processors Waiting) (Dispatch js) 0 [] [].

Definition on_main (pc : main_pc) (s : system) : system :=
  MkSystem (thread_exit s) (input_queue s) (output_queue s) (threads s) pc (jobs s) (got s)
    (printed s).
Definition put_input (j : Job) (s : system) : system :=
  MkSystem (thread_exit s) (input_queue s ++ [j]) (output_queue s) (threads s) (main s)
    (jobs s) (got s) (printed s).
Definition take_input (q : list Job) (s : system) : system :=
  MkSystem (thread_exit s) q (output_queue s) (threads s) (main s) (jobs s) (got s) (printed s).
Definition put_output (j : Job) (s : system) : system :=
  MkSystem (thread_exit s) (input_queue s) (output_queue s ++ [j]) (threads s) (main s)
    (jobs s) (got s) (printed s).
Definition on_thread (i : nat) (w : worker) (s : system) : system :=
  MkSystem (thread_exit s) (input_queue s) (output_queue s) (<[i := w]> (threads s)) (main s)
    (jobs s) (got s) (printed s).
Definition prints (ps : list pystr) (s : system) : system :=
  MkSystem (thread_exit s) (input_queue s) (output_queue s) (threads s) (main s) (jobs s)
    (got s) (printed s ++ ps).
Definition count_job (s : system) : system :=
  MkSystem (thread_exit s) (input_queue s) (output_queue s) (threads s) (main s)
    (S (jobs s)) (got s) (printed s).
Definition sigint_hook (s : system) : system :=
  MkSystem true (input_queue s) (output_queue s) (threads s) (main s) (jobs s) (got s) (printed s).

(** [output_queue.get()] of the collecting loop. *)
Definition get_output (j : Job) (o : list Job) (s : system) : system :=
  MkSystem (thread_exit s) (input_queue s) o (threads s) (main s) (jobs s) (got s ++ [j])
    (printed s).

(** What worker [i] does with a job it has just read, up to the external
    process. *)
Definition worker_take (opt : options) (i : nat) (j : Job) (s : system) : system :=
  if is_break j then on_thread i Returned s
  else if thread_exit s then put_output (set_is_break true j) s
  else if is_skip j then
    put_output j (if verbose opt then prints [println (str "Skip " ++ shell_command j)] s else s)
  else
    on_thread i (Launched j)
      (if verbose opt then prints [println (str "Launch " ++ shell_command j)] s else s).

Section threads.
Context (opt : options) (cfg : config).
(** [popen cmd cwd r]: running [cmd] in the directory [cwd] can give [r]: a
    process that ends, or an exception of [Popen]. *)
Context (popen : pystr → pystr → res exn process → Prop).

(** What a launched job can come to. *)
Inductive job_runs (j : Job) : res exn (Job * list pystr) → Prop :=
  | runs_ok cmd p :
      worker_command opt cfg j = Ok cmd → popen cmd (cwd j) (Ok p) →
      job_runs j (Ok (finish_job opt cmd p j))
  | runs_raise cmd e :
      worker_command opt cfg j = Ok cmd → popen cmd (cwd j) (Raise e) → job_runs j (Raise e)
  | runs_no_command e :
      worker_command opt cfg j = Raise e → job_runs j (Raise e).

Inductive step (s : system) : system → Prop :=
  | main_put j todo :
      main s = Dispatch (j :: todo) →
      step s (on_main (Dispatch todo) (count_job (put_input j s)))
  | main_dispatched :
      main s = Dispatch [] → step s (on_main (Breaks (length (threads s))) s)
  | main_break k :
      main s = Breaks (S k) → step s (on_main (Breaks k) (put_input break_job s))
  | main_broken :
      main s = Breaks 0 → step s (on_main (Collect (jobs s)) s)
  | main_get k j o :
      main s = Collect (S k) → output_queue s = j :: o →
      step s (on_main (Collect k) (get_output j o s))
  | main_collected :
      main s = Collect 0 → step s (on_main (Join 0) s)
  | main_join i w :
      main s = Join i → threads s !! i = Some w → (w = Returned ∨ w = Died) →
      step s (on_main (Join (S i)) s)
  | main_exit :
      main s = Join (length (threads s)) → step s (on_main Exited s)
  | worker_get i j q :
      threads s !! i = Some Waiting → input_queue s = j :: q →
      step s (worker_take opt i j (take_input q s))
  | worker_done i j j' ps :
      threads s !! i = Some (Launched j) → job_runs j (Ok (j', ps)) →
      step s (put_output j' (prints ps (on_thread i Waiting s)))
  | worker_dies i j e :
      threads s !! i = Some (Launched j) → job_runs j (Raise e) →
      step s (on_thread i Died s)
  | sigint :
      thread_exit s = false → step s (sigint_hook s).

Definition reachable (js : list Job) (processors : nat) : system → Prop :=
  rtc step (start js processors).

(** ** Termination: a measure that every step lowers *)

Definition pc_weight (n : nat) (pc : main_pc) : nat :=
  match pc with
  | Dispatch todo => 4 * length todo + 5 * n + 5
  | Breaks k => 4 * k + n + 4
  | Collect _ => n + 3
  | Join i => (n - i) + 1
  | Exited => 0
  end.
Definition worker_weight (w : worker) : nat :=
  match w with Launched _ => 2 | _ => 0 end.
Definition weight (s : system) : nat :=
  pc_weight (length (threads s)) (main s) + 3 * length (input_queue s)
  + sum_list (map worker_weight (threads s)) + length (output_queue s)
  + (if thread_exit s then 0 else 1).
End threads.

Lemma sum_insert (l : list worker) i w w' :
  l !! i = Some w →
  (sum_list (map worker_weight (<[i := w']> l)) + worker_weight w
   = sum_list (map worker_weight l) + worker_weight w')%nat.
Proof.
  revert i. induction l as [|x l IH]; intros [|i] Hi; simplify_eq/=; [lia|].
  specialize (IH i Hi). lia.
Qed.

Section termination.
Context (opt : options) (cfg : config) (popen : pystr → pystr → res exn process → Prop).

Lemma take_weight i j q s :
  threads s !! i = Some Waiting → input_queue s = j :: q →
  (weight (worker_take opt i j (take_input q s)) < weight s)%nat.
Proof.
  intros Hi Hq. unfold worker_take. cbn [thread_exit take_input].
  destruct (is_break j); [|destruct (thread_exit s) eqn:Hx; [|destruct (is_skip j)]];
    try destruct (verbose opt); unfold weight;
    cbn [thread_exit input_queue output_queue threads main take_input on_thread put_output prints];
    rewrite ?Hq, ?Hx, ?length_app, ?length_insert; cbn [length];
    try pose proof (sum_insert _ _ _ Returned Hi);
    try pose proof (sum_insert _ _ _ (Launched j) Hi); cbn [worker_weight] in *; lia.
Qed.

Lemma step_weight s s' : step opt cfg popen s s' → (weight s' < weight s)%nat.
Proof.
  destruct 1; try (by apply take_weight); unfold weight;
    cbn [thread_exit input_queue output_queue threads main on_main put_input put_output count_job
         get_output on_thread prints sigint_hook] in *;
    repeat match goal with
    | H : main s = _ |- _ => rewrite H; clear H
    | H : output_queue s = _ |- _ => rewrite H; clear H
    | H : thread_exit s = _ |- _ => rewrite H; clear H
    end; cbn [pc_weight length]; rewrite ?length_app, ?length_insert; cbn [length]; try lia.
  - apply lookup_lt_Some in H0. lia.
  - pose proof (sum_insert _ _ _ Waiting H). cbn [worker_weight] in *. lia.
  - pose proof (sum_insert _ _ _ Died H). cbn [worker_weight] in *. lia.
Qed.

(** Every execution ends: there is no infinite sequence of steps. *)
Lemma steps_end s : Acc (flip (step opt cfg popen)) s.
Proof.
  assert (∀ n s, (weight s < n)%nat → Acc (flip (step opt cfg popen)) s) as Hacc.
  { intros n. induction n as [|n IH]; intros s' Hn; [lia|].
    constructor. intros s'' Hs. apply IH. apply step_weight in Hs. lia. }
  eapply Hacc, Nat.lt_succ_diag_r.
Qed.
End termination.

(** ** The invariant: where the jobs are *)

(** What comes back for a dispatched job. *)
Inductive delivered (opt : options) (cfg : config)
    (popen : pystr → pystr → res exn process → Prop) (interrupted : bool) (j : Job) : Job → Prop :=
  | delivered_interrupted :
      interrupted = true → delivered opt cfg popen interrupted j (set_is_break true j)
  | delivered_skipped :
      is_skip j = true → delivered opt cfg popen interrupted j j
  | delivered_ran j' ps :
      is_skip j = false → job_runs opt cfg popen j (Ok (j', ps)) →
      delivered opt cfg popen interrupted j j'.

Definition running (w : worker) : list Job := match w with Launched j => [j] | _ => [] end.
Definition running_jobs (l : list worker) : list Job := concat (map running l).
Definition live (w : worker) : nat := match w with Waiting | Launched _ => 1 | _ => 0 end.
Definition lives (l : list worker) : nat := sum_list (map live l).

Definition todo (s : system) : list Job := match main s with Dispatch t => t | _ => [] end.
(** The break jobs that main has still to queue. *)
Definition pending (s : system) : nat :=
  match main s with Dispatch _ => length (threads s) | Breaks k => k | _ => 0 end.

Lemma lives_insert l i w w' :
  l !! i = Some w → (lives (<[i := w']> l) + live w = lives l + live w')%nat.
Proof.
  unfold lives. revert i. induction l as [|x l IH]; intros [|i] Hi; simplify_eq/=; [lia|].
  specialize (IH i Hi). lia.
Qed.

Lemma running_insert x l i w w' :
  l !! i = Some w →
  (count x (running_jobs (<[i := w']> l)) + count x (running w)
   = count x (running_jobs l) + count x (running w'))%nat.
Proof.
  unfold running_jobs. revert i.
  induction l as [|y l IH]; intros [|i] Hi; simplify_eq/=; rewrite !count_app; [lia|].
  specialize (IH i Hi). lia.
Qed.

Lemma lives_replicate n : lives (replicate n Waiting) = n.
Proof. unfold lives. induction n; cbn; auto. Qed.
Lemma running_replicate n : running_jobs (replicate n Waiting) = [].
Proof. unfold running_jobs. induction n; cbn; auto. Qed.

Lemma lives_le l : (lives l ≤ length l)%nat.
Proof. unfold lives. induction l as [|w l IH]; cbn; [lia|]. destruct w; cbn; lia. Qed.

Lemma lives_lookup l i w : l !! i = Some w → (live w ≤ lives l)%nat.
Proof.
  unfold lives. revert i. induction l as [|x l IH]; intros [|i] Hi; simplify_eq/=; [lia|].
  specialize (IH i Hi). lia.
Qed.

Lemma lives_pos l : (0 < lives l)%nat → ∃ i w, l !! i = Some w ∧ live w = 1%nat.
Proof.
  unfold lives. induction l as [|x l IH]; cbn; [lia|]. intros Hl.
  destruct (live x) eqn:Hx.
  - destruct IH as (i & w & ? & ?); [lia|]. by exists (S i), w.
  - exists 0%nat, x. split; [done|]. destruct x; cbn in *; lia.
Qed.

Section protocol.
Context (opt : options) (cfg : config) (popen : pystr → pystr → res exn process → Prop).
Context (js : list Job) (n : nat).

Local Abbreviation step := (step opt cfg popen).
Local Abbreviation delivered := (delivered opt cfg popen).

Definition main_count (s : system) : Prop :=
  match main s with
  | Dispatch _ | Breaks _ => got s = []
  | Collect k => (k + length (got s) = length js)%nat
  | _ => length (got s) = length js
  end.
Definition joined (s : system) : nat :=
  match main s with Join i => i | Exited => length (threads s) | _ => 0%nat end.

(** [reals] and [b]: the jobs and the break jobs in the input queue; [ds]: the
    jobs that have reached the output queue, in that order. *)
Record placed (s : system) (reals : list Job) (b : nat) (ds : list Job) : Prop := {
  placed_threads : length (threads s) = n;
  placed_alive : Died ∉ threads s;
  placed_input : input_queue s = reals ++ replicate b break_job;
  placed_real_todo : Forall (λ j, is_break j = false) (todo s);
  placed_reals : Forall (λ j, is_break j = false) reals;
  placed_lives : (b + pending s)%nat = lives (threads s);
  placed_first : reals ≠ [] → (b + pending s)%nat = n;
  placed_dispatch : pending s = n → b = 0%nat;
  placed_todo : todo s ≠ [] → pending s = n;
  placed_skip : Forall (λ j, is_skip j = false) (running_jobs (threads s));
  placed_jobs x : count x js = (count x (todo s) + count x reals
                    + count x (running_jobs (threads s)) + count x ds)%nat;
  placed_out : Forall2 (delivered (thread_exit s)) ds (got s ++ output_queue s);
  placed_number : (jobs s + length (todo s))%nat = length js;
  placed_count : main_count s;
  placed_bound : (joined s ≤ n)%nat;
  placed_joined i w : (i < joined s)%nat → threads s !! i = Some w → live w = 0%nat;
}.

Lemma delivered_mono b j j' : delivered b j j' → delivered true j j'.
Proof. destruct 1; [by apply delivered_interrupted|by apply delivered_skipped|by eapply delivered_ran]. Qed.

Lemma placed_start :
  Forall (λ j, is_break j = false) js → placed (start js n) [] 0 [].
Proof.
  intros Hjs. pose proof (lives_replicate n) as Hl. pose proof (running_replicate n) as Hr.
  split; unfold todo, pending, main_count, joined;
    cbn [start threads main input_queue output_queue got jobs length]; rewrite ?Hl, ?Hr, ?length_replicate; try done.
  - intros (? & ?)%elem_of_replicate. done.
  - intros x. rewrite !count_nil. lia.
  - lia.
  - lia.
Qed.

(** The fields of a new state, with main's position known. *)
Ltac placed_fields Hm :=
  split; unfold todo, pending, main_count, joined in *;
  cbn [thread_exit input_queue output_queue threads main jobs got on_main put_input take_input
       put_output on_thread prints count_job sigint_hook get_output length] in *;
  rewrite ?Hm in *; try done.

Lemma placed_put s reals b ds j t :
  placed s reals b ds → main s = Dispatch (j :: t) →
  placed (on_main (Dispatch t) (count_job (put_input j s))) (reals ++ [j]) 0 ds.
Proof.
  intros [] Hm. assert (b = 0%nat) as ->.
  { apply placed_dispatch0. unfold pending. by rewrite Hm. }
  placed_fields Hm.
  - rewrite placed_input0. cbn. by rewrite !app_nil_r.
  - by inversion placed_real_todo0.
  - apply Forall_app. split; [done|]. inversion placed_real_todo0; auto.
  - intros x. rewrite placed_jobs0, count_app, !count_cons, count_nil. lia.
  - cbn [length] in *. lia.
Qed.

Lemma placed_main s reals b ds pc :
  placed s reals b ds →
  match main s, pc with
  | Dispatch [], Breaks k => k = length (threads s)
  | Breaks O, Collect k => k = jobs s
  | Collect O, Join O => True
  | Join i, Join i' => i' = S i ∧ ∃ w, threads s !! i = Some w ∧ (w = Returned ∨ w = Died)
  | Join i, Exited => i = length (threads s)
  | _, _ => False
  end → placed (on_main pc s) reals b ds.
Proof.
  intros [] Hpc.
  destruct (main s) as [[|j t]|[|k]|[|k]|i|] eqn:Hm, pc as [t'|k'|k'|i'|];
    try done; try subst; try (destruct i'; [|done]); placed_fields Hm; cbn [length] in *;
    rewrite ?placed_count0; cbn [length]; try lia; try done.
  { destruct Hpc as (-> & w & Hw & _). apply lookup_lt_Some in Hw. lia. }
  destruct Hpc as (-> & w & Hw & Hdead).
  intros k w' Hk Hw'. destruct (decide (k = i)) as [->|]; [|apply (placed_joined0 k); [lia|done]].
  simplify_eq. by destruct Hdead as [-> | ->].
Qed.

Lemma placed_break s reals b ds k :
  placed s reals b ds → main s = Breaks (S k) →
  placed (on_main (Breaks k) (put_input break_job s)) reals (S b) ds.
Proof.
  intros [] Hm. assert (lives (threads s) ≤ n)%nat as Hl.
  { rewrite <-placed_threads0. apply lives_le. }
  placed_fields Hm.
  - rewrite placed_input0, <-app_assoc. f_equal. symmetry. apply replicate_S_end.
  - lia.
  - intros Hr. specialize (placed_first0 Hr). lia.
  - lia.
Qed.

Lemma placed_get s reals b ds k j o :
  placed s reals b ds → main s = Collect (S k) → output_queue s = j :: o →
  placed (on_main (Collect k) (get_output j o s)) reals b ds.
Proof.
  intros [] Hm Ho. placed_fields Hm; rewrite ?Ho in *.
  - by rewrite <-app_assoc.
  - rewrite length_app. cbn. lia.
Qed.

Lemma placed_sigint s reals b ds :
  placed s reals b ds → placed (sigint_hook s) reals b ds.
Proof.
  intros []. split; try done. cbn. eapply Forall2_impl; [done|].
  intros j j'. apply delivered_mono.
Qed.

(** A worker changes from [w0] to [w]; the jobs it takes or gives back move
    between the queues. *)
Lemma placed_update s reals b ds s' reals' b' ds' i w0 w :
  placed s reals b ds → threads s !! i = Some w0 → live w0 = 1%nat →
  w ≠ Died → Forall (λ j, is_skip j = false) (running w) →
  main s' = main s → jobs s' = jobs s → got s' = got s → threads s' = <[i := w]> (threads s) →
  input_queue s' = reals' ++ replicate b' break_job → (∀ j, j ∈ reals' → j ∈ reals) →
  (b' + 1 = b + live w)%nat → (reals' ≠ [] → live w = 1%nat) →
  (∀ x, count x reals' + count x (running w) + count x ds'
        = count x reals + count x (running w0) + count x ds)%nat →
  Forall2 (delivered (thread_exit s')) ds' (got s' ++ output_queue s') →
  placed s' reals' b' ds'.
Proof.
  intros [] Hi Hw0 Hw Hskip Hm Hj Hg Ht Hq Hin Hb Hr Hc Hout.
  pose proof (lives_insert _ _ _ w Hi) as Hl.
  pose proof (lives_le (threads s)) as Hle. rewrite placed_threads0 in Hle.
  assert (reals' ≠ [] → reals ≠ []) as Hne.
  { intros Hr' ->. destruct reals' as [|x ?]; [done|].
    specialize (Hin x ltac:(left)). by apply elem_of_nil in Hin. }
  split; unfold todo, pending, main_count, joined in *;
    rewrite ?Hm, ?Hj, ?Hg, ?Ht, ?length_insert in *; try done.
  - intros [k Hd]%list_elem_of_lookup. apply list_lookup_insert_Some in Hd as [(_ & ? & _)|[_ Hd]];
      [done|]. by apply list_elem_of_lookup_2 in Hd.
  - rewrite Forall_forall in *. auto.
  - lia.
  - intros Hr'. specialize (placed_first0 (Hne Hr')). specialize (Hr Hr'). lia.
  - intros Hp. specialize (placed_dispatch0 Hp). destruct w; cbn in *; lia.
  - apply Forall_forall. intros x Hx. rewrite Forall_forall in placed_skip0.
    apply count_pos in Hx. pose proof (running_insert x _ _ _ w Hi).
    destruct (decide (x ∈ running w)) as [Hxw|Hxw%count_0].
    + rewrite Forall_forall in Hskip. auto.
    + apply placed_skip0, count_pos. lia.
  - intros x. pose proof (running_insert x _ _ _ w Hi). specialize (placed_jobs0 x).
    specialize (Hc x). lia.
  - intros k w' Hk. destruct (decide (k = i)) as [->|Hne'].
    + specialize (placed_joined0 i w0 Hk Hi). lia.
    + rewrite list_lookup_insert_ne by done. eauto.
Qed.

Lemma placed_take s reals b ds i j q :
  placed s reals b ds → threads s !! i = Some Waiting → input_queue s = j :: q →
  ∃ reals' b' ds', placed (worker_take opt i j (take_input q s)) reals' b' ds'.
Proof.
  intros Hp Hi Hq. pose proof Hp as []. rewrite placed_input0 in Hq.
  destruct reals as [|j0 reals].
  - destruct b as [|b]; [done|]. injection Hq as <- <-. exists [], b, ds.
    by eapply (placed_update s [] (S b) ds _ [] b ds i Waiting Returned); try done; cbn; lia.
  - injection Hq as -> <-. unfold worker_take.
    apply Forall_cons in placed_reals0 as [-> _]. cbn [thread_exit take_input].
    pose proof (list_insert_id _ _ _ Hi) as Hid.
    destruct (thread_exit s) eqn:Hx; [|destruct (is_skip j) eqn:Hskip].
    + exists reals, b, (ds ++ [j]).
      eapply (placed_update s (j :: reals) b ds _ _ _ _ i Waiting Waiting); try done; [set_solver|..].
      * intros x. rewrite count_cons, count_app, count_cons, count_nil. lia.
      * cbn. rewrite app_assoc, Hx. apply Forall2_app; [done|]. constructor; [|done].
        by apply delivered_interrupted.
    + exists reals, b, (ds ++ [j]).
      eapply (placed_update s (j :: reals) b ds _ _ _ _ i Waiting Waiting);
        try (by destruct (verbose opt)); try done; [set_solver|..].
      * intros x. rewrite count_cons, count_app, count_cons, count_nil. lia.
      * destruct (verbose opt); cbn; rewrite app_assoc, Hx; apply Forall2_app; try done;
          (constructor; [|done]); by apply delivered_skipped.
    + exists reals, b, ds.
      eapply (placed_update s (j :: reals) b ds _ _ _ _ i Waiting (Launched j));
        try (by destruct (verbose opt)); try done; [by repeat constructor|set_solver|..].
      * intros x. cbn [running]. rewrite !count_cons, count_nil. lia.
      * destruct (verbose opt); cbn; by rewrite Hx.
Qed.

Lemma placed_done s reals b ds i j j' ps :
  placed s reals b ds → threads s !! i = Some (Launched j) →
  job_runs opt cfg popen j (Ok (j', ps)) →
  placed (put_output j' (prints ps (on_thread i Waiting s))) reals b (ds ++ [j]).
Proof.
  intros Hp Hi Hrun. pose proof Hp as [].
  eapply (placed_update s reals b ds _ _ _ _ i (Launched j) Waiting); try done.
  - intros x. cbn [running]. rewrite count_app, count_cons, count_nil. lia.
  - cbn. rewrite app_assoc. apply Forall2_app; [done|]. constructor; [|done].
    eapply delivered_ran; [|done]. rewrite Forall_forall in placed_skip0. apply placed_skip0.
    apply count_pos. pose proof (running_insert j _ _ _ Waiting Hi) as Hc.
    cbn [running] in Hc. rewrite count_cons, decide_True in Hc by done. lia.
Qed.

(** No process that the dispatched jobs start ends in an exception. *)
Definition no_raise : Prop := ∀ j e, j ∈ js → ¬ job_runs opt cfg popen j (Raise e).

Lemma placed_running s reals b ds i j :
  placed s reals b ds → threads s !! i = Some (Launched j) → j ∈ js.
Proof.
  intros [] Hi. apply count_pos. rewrite placed_jobs0.
  pose proof (running_insert j _ _ _ Waiting Hi) as Hc. cbn [running] in Hc.
  rewrite count_cons, decide_True in Hc by done. lia.
Qed.

Lemma placed_step s reals b ds s' :
  no_raise → placed s reals b ds → step s s' → ∃ reals' b' ds', placed s' reals' b' ds'.
Proof.
  intros Hno Hp. destruct 1 as [j t Hm|Hm|k Hm|Hm|k j o Hm Ho|Hm|i w Hm Hw Hd|Hm|i j q Hi Hq
    |i j j' ps Hi Hr|i j e Hi Hr|Hx];
    try (exists reals, b, ds; apply placed_main; [done|rewrite Hm; eauto]; fail).
  - do 3 eexists. by eapply placed_put.
  - do 3 eexists. by eapply placed_break.
  - do 3 eexists. by eapply placed_get.
  - by eapply placed_take.
  - do 3 eexists. by eapply placed_done.
  - destruct (Hno j e); [|done]. by eapply placed_running.
  - do 3 eexists. by apply placed_sigint.
Qed.

Lemma placed_reachable s :
  Forall (λ j, is_break j = false) js → no_raise →
  reachable opt cfg popen js n s → ∃ reals b ds, placed s reals b ds.
Proof.
  intros Hjs Hno Hs. unfold reachable in Hs.
  assert (∃ reals b ds, placed (start js n) reals b ds) as Hp by eauto using placed_start.
  revert Hp. induction Hs as [|s1 s2 s3 H12 _ IH]; [done|].
  intros (reals & b & ds & Hp). apply IH. by eapply placed_step.
Qed.

(** ** Progress *)

(** Every external process comes to something. *)
Definition popen_total : Prop := ∀ cmd dir, ∃ r, popen cmd dir r.

(** A step of the program itself: not the delivery of a signal. *)
Definition moves (s : system) : Prop := ∃ s', step s s' ∧ thread_exit s' = thread_exit s.

Lemma job_runs_total j : popen_total → ∃ r, job_runs opt cfg popen j r.
Proof.
  intros Ht. destruct (worker_command opt cfg j) as [cmd|e] eqn:Hc.
  - destruct (Ht cmd (cwd j)) as [[p|e] Hp]; eexists; [by eapply runs_ok|by eapply runs_raise].
  - eexists. by apply runs_no_command.
Qed.

Lemma launched_moves s i j : popen_total → threads s !! i = Some (Launched j) → moves s.
Proof.
  intros Ht Hi. destruct (job_runs_total j Ht) as [[[j' ps]|e] Hr]; eexists; split.
  - by eapply worker_done.
  - done.
  - by eapply worker_dies.
  - done.
Qed.

Lemma running_moves s : popen_total → running_jobs (threads s) ≠ [] → moves s.
Proof.
  intros Ht Hr. destruct (running_jobs (threads s)) as [|j l] eqn:Hj; [done|].
  assert (j ∈ running_jobs (threads s)) as Hin by (rewrite Hj; left).
  unfold running_jobs in Hin. apply list_elem_of_In, in_concat in Hin as (l' & Hl' & Hin).
  apply in_map_iff in Hl' as (w & <- & Hw'). destruct w as [|j'| |]; try done.
  apply list_elem_of_In, list_elem_of_lookup in Hw' as [i Hi]. by eapply launched_moves.
Qed.

Lemma take_exit i j s : thread_exit (worker_take opt i j s) = thread_exit s.
Proof.
  unfold worker_take. destruct (is_break j), (thread_exit s) eqn:?, (is_skip j), (verbose opt);
    done.
Qed.

Lemma live_moves s :
  popen_total → (0 < lives (threads s))%nat →
  input_queue s ≠ [] ∨ running_jobs (threads s) ≠ [] → moves s.
Proof.
  intros Ht Hl Hw. destruct (decide (running_jobs (threads s) = [])) as [Hr|Hr].
  - destruct Hw as [Hq|]; [|done]. destruct (lives_pos _ Hl) as (i & w & Hi & Hlive).
    destruct w as [|j| |]; try done; [|by eapply launched_moves].
    destruct (input_queue s) as [|j q] eqn:Hq'; [done|].
    exists (worker_take opt i j (take_input q s)). split; [by apply worker_get|].
    by rewrite take_exit.
  - by apply running_moves.
Qed.

(** The numbers behind [placed_jobs]. *)
Lemma placed_perm s reals b ds :
  placed s reals b ds → js ≡ₚ todo s ++ reals ++ running_jobs (threads s) ++ ds.
Proof.
  intros []. apply count_perm. intros x. rewrite placed_jobs0, !count_app. lia.
Qed.

Lemma placed_lengths s reals b ds :
  placed s reals b ds →
  (length js = length (todo s) + length reals + length (running_jobs (threads s))
               + length (got s) + length (output_queue s))%nat.
Proof.
  intros Hp. pose proof (Permutation_length (placed_perm _ _ _ _ Hp)) as Hl. destruct Hp as [].
  apply Forall2_length in placed_out0. rewrite !length_app in *. lia.
Qed.

Lemma live_thread l i w :
  l !! i = Some w → w ≠ Returned → w ≠ Died → (0 < lives l)%nat.
Proof. intros Hi ? ?. pose proof (lives_lookup l i w Hi). destruct w; cbn in *; lia || done. Qed.

Lemma placed_moves s reals b ds :
  popen_total → (0 < n)%nat ∨ js = [] → placed s reals b ds → main s = Exited ∨ moves s.
Proof.
  intros Ht Hn Hp. pose proof (placed_lengths _ _ _ _ Hp) as Hlen. destruct Hp as [].
  destruct (main s) as [[|j t]|[|k]|[|k]|i|] eqn:Hm; [right..|by left].
  - eexists. split; [by apply main_dispatched|done].
  - eexists. split; [by eapply main_put|done].
  - eexists. split; [by apply main_broken|done].
  - eexists. split; [by eapply main_break|done].
  - eexists. split; [by apply main_collected|done].
  - unfold main_count, todo, pending in *. rewrite Hm in *.
    destruct (output_queue s) as [|j o] eqn:Ho; [|eexists; split; [by eapply main_get|done]].
    cbn [length] in Hlen.
    assert (length reals + length (running_jobs (threads s)) ≠ 0)%nat by lia.
    destruct Hn as [Hn| ->]; [|cbn in *; lia].
    destruct (decide (running_jobs (threads s) = [])) as [Hr|Hr]; [|by apply running_moves].
    destruct reals as [|j l]; [rewrite Hr in *; cbn in *; lia|].
    specialize (placed_first0 ltac:(done)).
    apply live_moves; [done|lia|]. left. by rewrite placed_input0.
  - unfold joined, pending in *. rewrite Hm in *.
    destruct (threads s !! i) as [w|] eqn:Hi.
    + destruct w as [|j| |]; try (eexists; split; [by eapply main_join; eauto|done]);
        [|by eapply launched_moves].
      pose proof (live_thread _ _ _ Hi ltac:(done) ltac:(done)) as Hl.
      apply live_moves; [done..|]. left. rewrite placed_input0.
      destruct b; [lia|]. intros [_ ?]%app_eq_nil. done.
    + apply lookup_ge_None in Hi. eexists. split; [apply main_exit; rewrite Hm; f_equal; lia|done].
Qed.
End protocol.

(** ** What the threads guarantee *)

Lemma placed_exited opt cfg popen js n s reals b ds :
  placed opt cfg popen js n s reals b ds → main s = Exited →
  ds ≡ₚ js ∧ Forall2 (delivered opt cfg popen (thread_exit s)) ds (got s)
  ∧ input_queue s = [] ∧ output_queue s = [] ∧ threads s = replicate n Returned.
Proof.
  intros Hp Hm. pose proof (placed_lengths _ _ _ _ _ _ _ _ _ Hp) as Hlen.
  pose proof (placed_perm _ _ _ _ _ _ _ _ _ Hp) as Hperm. destruct Hp as [].
  unfold main_count, joined, pending, todo in *. rewrite Hm in *. cbn [length] in Hlen.
  destruct reals as [|? ?]; [|cbn in Hlen; lia].
  destruct (running_jobs (threads s)) as [|? ?]; [|cbn in Hlen; lia].
  destruct (output_queue s) as [|? ?]; [|cbn in Hlen; lia]. rewrite app_nil_r in placed_out0.
  assert (threads s = replicate n Returned) as Ht.
  { apply list_eq_same_length with n; [apply length_replicate|done|..]. intros i w w' Hi Hw Hw'.
    apply lookup_replicate in Hw' as [-> _].
    pose proof (placed_joined0 i w ltac:(lia) Hw). apply list_elem_of_lookup_2 in Hw.
    destruct w; cbn in *; done. }
  split_and!; [by symmetry|done| |done|done].
  rewrite Ht in placed_lives0. rewrite placed_input0.
  assert (lives (replicate n Returned) = 0%nat) as Hz by (unfold lives; by clear; induction n).
  by assert (b = 0%nat) as -> by lia.
Qed.

(** C1: whatever the interleaving and whenever an interrupt arrives, when the
    main thread has joined every worker, each dispatched job has come back
    exactly once, as it was if it is to be skipped, marked as a break if the run
    was interrupted, and otherwise with the result of one run of its command;
    both queues are empty and every worker has returned. *)
Theorem workers_deliver opt cfg popen js n s :
  Forall (λ j, is_break j = false) js → no_raise opt cfg popen js →
  reachable opt cfg popen js n s → main s = Exited →
  (∃ ds, ds ≡ₚ js ∧ Forall2 (delivered opt cfg popen (thread_exit s)) ds (got s))
  ∧ input_queue s = [] ∧ output_queue s = []
  ∧ threads s = replicate n Returned.
Proof.
  intros Hjs Hno Hs Hm. destruct (placed_reachable _ _ _ _ _ _ Hjs Hno Hs) as (reals & b & ds & Hp).
  destruct (placed_exited _ _ _ _ _ _ _ _ _ Hp Hm) as (? & ? & ? & ? & ?). eauto 6.
Qed.

(** C2: the run always ends.  Whatever the interleaving, no execution is
    infinite; and if there is a worker or nothing to do, and no command that is
    launched raises, a state that has not passed the last [join] always has a
    next step other than a signal: the threads never wait for each other. *)
Theorem workers_finish opt cfg popen js n s :
  Forall (λ j, is_break j = false) js → no_raise opt cfg popen js → popen_total popen →
  (0 < n)%nat ∨ js = [] → reachable opt cfg popen js n s →
  Acc (flip (step opt cfg popen)) s ∧ (main s = Exited ∨ moves opt cfg popen s).
Proof.
  intros Hjs Hno Ht Hn Hs. split; [apply steps_end|].
  destruct (placed_reachable _ _ _ _ _ _ Hjs Hno Hs) as (reals & b & ds & Hp).
  by eapply placed_moves.
Qed.

(** With no worker nothing comes back. *)
Definition idle (js : list Job) (s : system) : Prop :=
  threads s = [] ∧ output_queue s = [] ∧
  match main s with
  | Dispatch t => (jobs s + length t)%nat = length js
  | Breaks k => jobs s = length js
  | Collect k => k = length js
  | _ => False
  end.

Lemma idle_step opt cfg popen js s s' :
  js ≠ [] → idle js s → step opt cfg popen s s' → idle js s'.
Proof.
  intros Hjs (Ht & Ho & Hm). unfold idle.
  assert (length js ≠ 0%nat) by (by destruct js). destruct 1; rewrite ?Ht in *; try done;
    repeat match goal with
    | H : main s = _ |- _ => rewrite H in *; clear H
    end; cbn [threads output_queue main jobs on_main put_input count_job sigint_hook length] in *;
    split_and!; try done; try lia.
  all: congruence.
Qed.

(** A negative [--jobs] starts no worker, and then the main thread never
    gets past collecting results if there is anything to run: every execution
    ends with the program waiting for ever. *)
Theorem no_worker_hangs opt cfg popen js s :
  js ≠ [] → reachable opt cfg popen js 0 s →
  main s ≠ Exited ∧ Acc (flip (step opt cfg popen)) s.
Proof.
  intros Hjs Hs. split; [|apply steps_end].
  assert (idle js (start js 0)) as Hi by done. revert Hi.
  induction Hs as [s|s1 s2 s3 H12 _ IH]; intros Hi.
  - destruct Hi as (_ & _ & Hm). by destruct (main s).
  - apply IH. by eapply idle_step.
Qed.

(** ** An executable scheduler

    When the external processes are a function [run], a step is the choice of
    who moves. *)
Inductive label : Type :=
  | LMain
  | LWorker (i : nat)
  | LSignal.

Section scheduler.
Context (opt : options) (cfg : config) (run : pystr → pystr → res exn process).

Definition job_result_of (j : Job) : res exn (Job * list pystr) :=
  cmd ← worker_command opt cfg j;
  p ← run cmd (cwd j);
  Ok (finish_job opt cmd p j).

Definition main_step (s : system) : option system :=
  match main s with
  | Dispatch (j :: t) => Some (on_main (Dispatch t) (count_job (put_input j s)))
  | Dispatch [] => Some (on_main (Breaks (length (threads s))) s)
  | Breaks (S k) => Some (on_main (Breaks k) (put_input break_job s))
  | Breaks O => Some (on_main (Collect (jobs s)) s)
  | Collect (S k) =>
      match output_queue s with
      | j :: o => Some (on_main (Collect k) (get_output j o s))
      | [] => None
      end
  | Collect O => Some (on_main (Join 0) s)
  | Join i =>
      match threads s !! i with
      | Some Returned | Some Died => Some (on_main (Join (S i)) s)
      | Some _ => None
      | None => if decide (i = length (threads s)) then Some (on_main Exited s) else None
      end
  | Exited => None
  end.

Definition worker_step (i : nat) (s : system) : option system :=
  match threads s !! i with
  | Some Waiting =>
      match input_queue s with
      | j :: q => Some (worker_take opt i j (take_input q s))
      | [] => None
      end
  | Some (Launched j) =>
      match job_result_of j with
      | Ok (j', ps) => Some (put_output j' (prints ps (on_thread i Waiting s)))
      | Raise _ => Some (on_thread i Died s)
      end
  | _ => None
  end.

Definition sched (l : label) (s : system) : option system :=
  match l with
  | LMain => main_step s
  | LWorker i => worker_step i s
  | LSignal => if thread_exit s then None else Some (sigint_hook s)
  end.

Fixpoint sched_all (ls : list label) (s : system) : option system :=
  match ls with
  | [] => Some s
  | l :: ls => s' ← sched l s; sched_all ls s'
  end.

Definition popen_of (cmd dir : pystr) (r : res exn process) : Prop := r = run cmd dir.

Lemma job_runs_of j r : job_runs opt cfg popen_of j r ↔ r = job_result_of j.
Proof.
  unfold job_result_of. split.
  - destruct 1 as [cmd p Hc Hp|cmd e Hc Hp|e Hc]; rewrite Hc; cbn; [..|done];
      unfold popen_of in Hp; by rewrite <-Hp.
  - intros ->. destruct (worker_command opt cfg j) as [cmd|e] eqn:Hc; cbn.
    + destruct (run cmd (cwd j)) as [p|e] eqn:Hr; cbn; [by eapply runs_ok|by eapply runs_raise].
    + by apply runs_no_command.
Qed.

Lemma sched_step l s s' : sched l s = Some s' → step opt cfg popen_of s s'.
Proof.
  destruct l as [|i|]; cbn.
  - unfold main_step. intros Hs. repeat case_match; simplify_eq.
    all: first [by eapply main_put|by apply main_dispatched|by apply main_break|by apply main_broken
      |by eapply main_get|by apply main_collected|by eapply main_join; eauto|by apply main_exit].
  - unfold worker_step. intros Hs. destruct (threads s !! i) as [[|j| |]|] eqn:Hi; try done.
    + destruct (input_queue s) as [|j q] eqn:Hq; simplify_eq. by apply worker_get.
    + destruct (job_result_of j) as [[j' ps]|e] eqn:Hr; simplify_eq.
      * eapply worker_done; [done|]. by apply job_runs_of.
      * eapply (worker_dies _ _ _ _ _ j e); [done|]. by apply job_runs_of.
  - destruct (thread_exit s) eqn:Hx; intros; simplify_eq. by apply sigint.
Qed.

(** The scheduler takes exactly the steps of the relation. *)
Lemma step_sched s s' : step opt cfg popen_of s s' ↔ ∃ l, sched l s = Some s'.
Proof.
  split; [|intros [l Hl]; by eapply sched_step].
  destruct 1 as [j t Hm|Hm|k Hm|Hm|k j o Hm Ho|Hm|i w Hm Hw Hd|Hm|i j q Hi Hq
    |i j j' ps Hi Hr|i j e Hi Hr|Hx];
    try (exists LMain; cbn; unfold main_step; rewrite Hm; try done);
    try (exists (LWorker i); cbn; unfold worker_step; rewrite Hi).
  - by rewrite Ho.
  - rewrite Hw. by destruct Hd as [-> | ->].
  - rewrite (lookup_ge_None_2 (threads s)) by lia. by rewrite decide_True.
  - by rewrite Hq.
  - apply job_runs_of in Hr. by rewrite <-Hr.
  - apply job_runs_of in Hr. by rewrite <-Hr.
  - exists LSignal. cbn. by rewrite Hx.
Qed.

Lemma sched_all_reachable ls s s' :
  sched_all ls s = Some s' → rtc (step opt cfg popen_of) s s'.
Proof.
  revert s. induction ls as [|l ls IH]; cbn; intros s Hs; [simplify_eq; apply rtc_refl|].
  destruct (sched l s) as [s1|] eqn:Hl; [|done]. cbn in Hs.
  eapply rtc_l; [by eapply sched_step|]. by apply IH.
Qed.
End scheduler.

(** ** A sample run: one worker, two jobs, the second to be skipped *)

Definition sample_options : options :=
  MkOptions [] [] false [] false (str "QUICK") false false false false false [] false [] []
    false [] [] 0.
Definition sample_config : config :=
  MkConfig (str "/ns3") (str "/ns3/build") [] [] [] true true [] true (str "ns") (str "debug")
    (str "3-dev") [str "python3"] true.
Definition sample_run (cmd dir : pystr) : res exn process :=
  Ok (MkProcess (if decide (cmd = str "/ns3/build/fails") then 1 else 0) [] [] (1 # 2)).
Definition sample_popen := popen_of sample_run.
Definition sample_example (name : pystr) : Job :=
  set_shell_command name (set_display_name name (set_is_example true new_Job)).
Definition sample_jobs : list Job :=
  [sample_example (str "fails"); set_is_skip true (sample_example (str "udp"))].

Lemma sample_no_raise : no_raise sample_options sample_config sample_popen sample_jobs.
Proof.
  intros j e Hj Hr. inversion Hr as [|cmd e' Hc Hp|e' Hc]; subst; [discriminate|].
  apply elem_of_cons in Hj as [->|[->|Hj%elem_of_nil]%elem_of_cons]; [discriminate..|done].
Qed.

Lemma sample_popen_total : popen_total sample_popen.
Proof. intros cmd dir. by eexists. Qed.

(** The end of one execution. *)
Definition sample_end : system :=
  MkSystem false [] [] [Returned] Exited 2
    [set_elapsed_time (1 # 2) (set_returncode 1 (sample_example (str "fails")));
     set_is_skip true (sample_example (str "udp"))] [].

Definition sample_schedule : list label :=
  [LMain; LMain; LWorker 0; LMain; LMain; LWorker 0; LMain; LMain; LWorker 0; LMain; LMain;
   LWorker 0; LMain; LMain].

Lemma sample_reachable : reachable sample_options sample_config sample_popen sample_jobs 1 sample_end.
Proof. apply (sched_all_reachable _ _ _ sample_schedule). by vm_compute. Qed.

Lemma workers_deliver_witness :
  main sample_end = Exited
  ∧ ∃ ds, ds ≡ₚ sample_jobs
      ∧ Forall2 (delivered sample_options sample_config sample_popen false) ds (got sample_end).
Proof.
  split; [reflexivity|].
  apply (workers_deliver sample_options sample_config sample_popen sample_jobs 1 sample_end);
    [by repeat constructor|apply sample_no_raise|apply sample_reachable|reflexivity].
Defined.

Lemma workers_finish_witness :
  moves sample_options sample_config sample_popen (start sample_jobs 1).
Proof.
  destruct (workers_finish sample_options sample_config sample_popen sample_jobs 1
              (start sample_jobs 1)) as [_ [H|H]];
    [by repeat constructor|apply sample_no_raise|apply sample_popen_total|left; lia
    |apply rtc_refl|discriminate|exact H].
Defined.

Lemma no_worker_hangs_witness :
  main (start sample_jobs 0) ≠ Exited.
Proof.
  apply (no_worker_hangs sample_options sample_config sample_popen sample_jobs); [done|apply rtc_refl].
Defined.

(** A Python example when the configuration names no interpreter: the exception
    ends the only worker, and main waits for a result that never comes. *)
Definition no_python : config :=
  MkConfig (str "/ns3") (str "/ns3/build") [] [] [] true true [] true [] [] [] [] true.
Definition sample_pyexample : Job :=
  set_shell_command (str "first.py") (set_is_pyexample true new_Job).
Definition killed : system :=
  MkSystem false [break_job] [] [Died] (Collect 1) 1 [] [].

Lemma killed_worker_hangs :
  reachable sample_options no_python sample_popen [sample_pyexample] 1 killed
  ∧ ∀ s, step sample_options no_python sample_popen killed s → s = sigint_hook killed.
Proof.
  split.
  - apply (sched_all_reachable _ _ _ [LMain; LWorker 0; LMain; LMain; LWorker 0; LMain]).
    by vm_compute.
  - destruct 1 as [| | | | | |? ? Hm| |i ? ? Hi|i ? ? ? Hi|i ? ? Hi|]; try done;
      destruct i as [|[|i]]; discriminate Hi.
Qed.
