(* ===== verification/WorkersSpec.v ===== *)
(** * [test.py]: what the worker threads promise

    A specification of the threads and queues of Workers.v without threads and
    queues: a pool of jobs that are waiting and a list of the outcomes so far,
    and a proof that the threads refine it.  Unlike the theorems of Workers.v
    these also cover commands that raise and so kill the worker that ran them. *)
From Stdlib Require Import Ascii.
From S2P Require Export Workers.
Open Scope Z_scope.

(** ** The pool *)

Record pool := Pool { closing : bool; waiting : list Job; finished : list Job }.

(** Two pools are the same if the same jobs wait in them, in any order. *)
#[export] Instance pool_equiv : Equiv pool := λ p q,
  closing p = closing q ∧ waiting p ≡ₚ waiting q ∧ finished p = finished q.
#[export] Instance pool_equivalence : Equivalence (≡@{pool}).
Proof.
  split.
  - done.
  - by intros p q (? & ? & ?).
  - intros p q r (? & Hpq & ?) (? & Hqr & ?). split_and!; [congruence|by rewrite Hpq|congruence].
Qed.
#[export] Instance closing_proper : Proper ((≡) ==> (=)) closing.
Proof. by intros p q (? & ? & ?). Qed.
#[export] Instance waiting_proper : Proper ((≡) ==> (≡ₚ)) waiting.
Proof. by intros p q (? & ? & ?). Qed.
#[export] Instance finished_proper : Proper ((≡) ==> (=)) finished.
Proof. by intros p q (? & ? & ?). Qed.

Section pool.
Context (opt : options) (cfg : config) (popen : pystr → pystr → res exn process → Prop).
Local Abbreviation step := (step opt cfg popen).
Local Abbreviation reachable := (reachable opt cfg popen).
Local Abbreviation delivered := (delivered opt cfg popen).
Local Abbreviation job_runs := (job_runs opt cfg popen).

(** A waiting job gets its outcome, or is lost because its command raised; and
    the pool may be told, once, to close. *)
Inductive pool_step (p : pool) : pool → Prop :=
  | pool_finish j rest j' :
      waiting p ≡ₚ j :: rest → delivered (closing p) j j' →
      pool_step p (Pool (closing p) rest (finished p ++ [j']))
  | pool_lose j rest e :
      waiting p ≡ₚ j :: rest → job_runs j (Raise e) →
      pool_step p (Pool (closing p) rest (finished p))
  | pool_close :
      closing p = false → pool_step p (Pool true (waiting p) (finished p)).

Lemma pool_step_equiv p q p' : p ≡ q → pool_step p p' → ∃ q', pool_step q q' ∧ p' ≡ q'.
Proof.
  intros Hpq. destruct 1 as [j rest j' Hw Hd|j rest e Hw Hr|Hc].
  - eexists. rewrite Hpq in Hw, Hd. split; [by eapply pool_finish|]. by rewrite Hpq.
  - eexists. rewrite Hpq in Hw. split; [by eapply pool_lose|]. by rewrite Hpq.
  - eexists. split; [apply pool_close; by rewrite <-Hpq|]. destruct Hpq as (? & ? & ?). by split_and!.
Qed.

(** What a pool guarantees: each job is waiting, has its outcome, or is lost. *)
Definition accounted (js : list Job) (p : pool) : Prop :=
  ∃ ds lost, js ≡ₚ ds ++ lost ++ waiting p ∧ Forall2 (delivered (closing p)) ds (finished p)
    ∧ Forall (λ j, ∃ e, job_runs j (Raise e)) lost.

Lemma accounted_start js : accounted js (Pool false js []).
Proof. exists [], []. by split_and!. Qed.

Lemma accounted_step js p p' : pool_step p p' → accounted js p → accounted js p'.
Proof.
  intros Hs (ds & lost & Hj & Hd & Hl). destruct Hs as [j rest j' Hw Hj'|j rest e Hw Hr|Hc]; rewrite ?Hw in Hj.
  - exists (ds ++ [j]), lost. cbn. split_and!; [|by apply Forall2_app; auto|done].
    rewrite Hj, <-(assoc_L (++)). f_equiv. cbn. by rewrite Permutation_middle.
  - exists ds, (j :: lost). cbn. split_and!; [|done|by constructor; eauto].
    rewrite Hj. f_equiv. by rewrite Permutation_middle.
  - exists ds, lost. cbn. split_and!; [done| |done].
    eapply Forall2_impl; [done|]. intros ??. by apply delivered_mono.
Qed.

Lemma accounted_steps js p : rtc pool_step (Pool false js []) p → accounted js p.
Proof.
  intros H. pose proof (accounted_start js) as Ha. revert Ha.
  induction H; eauto using accounted_step.
Qed.

(** ** The pool that the threads implement *)

Definition real (j : Job) : Prop := is_break j = false.
#[local] Instance real_dec j : Decision (real j).
Proof. unfold real. apply _. Defined.

(** The jobs that main still holds, that are in the input queue, or that a
    worker runs are waiting; an outcome counts as soon as it is queued. *)
Definition abs (s : system) : pool :=
  Pool (thread_exit s) (filter real (todo s ++ input_queue s) ++ running_jobs (threads s))
    (got s ++ output_queue s).

Definition launched_ok (s : system) : Prop := Forall (λ j, is_skip j = false) (running_jobs (threads s)).

Lemma running_change l i w w' :
  l !! i = Some w →
  ∃ k, running_jobs l ≡ₚ running w ++ k ∧ running_jobs (<[i := w']> l) ≡ₚ running w' ++ k.
Proof.
  intros Hi. rewrite insert_take_drop by by eapply lookup_lt_Some.
  pose proof (take_drop_middle l i w Hi) as E. revert E.
  generalize (take i l), (drop (S i) l). intros l1 l2 <-. unfold running_jobs.
  rewrite !map_app, !concat_app. cbn. eexists. split; by rewrite Permutation_app_swap_app.
Qed.

Lemma launched_ok_change l i w w' :
  l !! i = Some w → Forall (λ j, is_skip j = false) (running_jobs l) →
  Forall (λ j, is_skip j = false) (running w') →
  Forall (λ j, is_skip j = false) (running_jobs (<[i := w']> l)).
Proof.
  intros Hi Hl Hw. destruct (running_change l i w w' Hi) as (k & H1 & H2).
  rewrite H1 in Hl. rewrite H2. apply Forall_app in Hl as [_ ?]. by apply Forall_app.
Qed.

(** The simulation: a step of the threads is no step or one step of the pool. *)
Lemma abs_taken s j q :
  input_queue s = j :: q → is_break j = false →
  waiting (abs s) ≡ₚ j :: filter real (todo s ++ q) ++ running_jobs (threads s).
Proof.
  intros Hq Hj. cbn. rewrite Hq, !filter_app, filter_cons, decide_True by done.
  by rewrite <-Permutation_middle.
Qed.

Definition simulated (s s' : system) : Prop :=
  (abs s' ≡ abs s ∨ ∃ p, pool_step (abs s) p ∧ abs s' ≡ p) ∧ launched_ok s'.

Lemma take_simulated s i j q :
  threads s !! i = Some Waiting → input_queue s = j :: q → launched_ok s →
  simulated s (worker_take opt i j (take_input q s)).
Proof.
  intros Hi Hq Hl. unfold worker_take. cbn [thread_exit take_input].
  destruct (is_break j) eqn:Hb; [|pose proof (abs_taken s j q Hq Hb) as Hw;
    destruct (thread_exit s) eqn:Hx; [|destruct (is_skip j) eqn:Hk]].
  - destruct (running_change _ _ _ Returned Hi) as (k & H1 & H2). split.
    + left. split_and!; cbn; [done| |done].
      rewrite H1, H2, Hq, !filter_app, filter_cons, decide_False; [done|unfold real; congruence].
    + by apply launched_ok_change with Waiting.
  - split; [right|done]. eexists. split; [eapply pool_finish; [done|by apply delivered_interrupted]|].
    split_and!; cbn; [done|done|by rewrite (assoc_L (++))].
  - split; [right|by destruct (verbose opt)].
    eexists. split; [eapply pool_finish; [done|by apply delivered_skipped]|].
    split_and!; destruct (verbose opt); cbn; rewrite ?(assoc_L (++)); done.
  - destruct (running_change _ _ _ (Launched j) Hi) as (k & H1 & H2). split.
    + left. transitivity (Pool (thread_exit s)
        (filter real (todo s ++ q) ++ running_jobs (<[i:=Launched j]> (threads s))) (got s ++ output_queue s));
        [by destruct (verbose opt)|].
      split_and!; [done| |done]. rewrite Hw. cbn [waiting]. rewrite H1, H2. cbn.
      by rewrite Permutation_middle.
    + assert (launched_ok (on_thread i (Launched j) s)) as Hl'; [|by destruct (verbose opt)].
      apply launched_ok_change with Waiting; [done..|]. by constructor.
Qed.

(** A worker that stops running [j]. *)
Lemma abs_running s i j w :
  threads s !! i = Some (Launched j) → running w = [] →
  waiting (abs s) ≡ₚ j :: filter real (todo s ++ input_queue s) ++ running_jobs (<[i := w]> (threads s)).
Proof.
  intros Hi Hw. destruct (running_change _ _ _ w Hi) as (k & H1 & H2). cbn.
  rewrite H1, H2, Hw. cbn. by rewrite Permutation_middle.
Qed.
Lemma launched_not_skip s i j : threads s !! i = Some (Launched j) → launched_ok s → is_skip j = false.
Proof.
  intros Hi Hl. destruct (running_change _ _ _ Waiting Hi) as (k & H1 & _).
  unfold launched_ok in Hl. rewrite H1 in Hl. by inversion Hl.
Qed.

Lemma step_simulated s s' : step s s' → launched_ok s → simulated s s'.
Proof.
  intros Hs Hl.
  destruct Hs as [j t Hm|Hm|k Hm|Hm|k j o Hm Ho|Hm|i w Hm Hw Hd|Hm|i j q Hi Hq
    |i j j' ps Hi Hr|i j e Hi Hr|Hx].
  1-8: split; [left|done]; split_and!; cbn; unfold todo; cbn; rewrite ?Hm, ?Ho; try done.
  - apply Permutation_app_tail, filter_Permutation. by rewrite (assoc_L (++)), <-Permutation_cons_append.
  - rewrite filter_app. cbn. by rewrite app_nil_r.
  - by rewrite <-(assoc_L (++)).
  - by apply take_simulated.
  - split; [right|by apply launched_ok_change with (Launched j)].
    eexists. split; [eapply pool_finish; [by apply (abs_running s i j Waiting)|]|].
    + eapply delivered_ran; [by eapply launched_not_skip|done].
    + split_and!; cbn; [done|done|by rewrite (assoc_L (++))].
  - split; [right|by apply launched_ok_change with (Launched j)].
    eexists. split; [eapply pool_lose; [by apply (abs_running s i j Died)|done]|]. by split_and!.
  - split; [right|done]. eexists. split; [by apply pool_close|]. by split_and!.
Qed.

Lemma steps_simulated s s' p :
  rtc step s s' → launched_ok s → abs s ≡ p → ∃ p', rtc pool_step p p' ∧ abs s' ≡ p'.
Proof.
  intros Hs. revert p. induction Hs as [s|s1 s2 s3 H12 _ IH]; intros p Hl Hp; [by exists p|].
  destruct (step_simulated _ _ H12 Hl) as [[Hst|(q & Hq & Hsq)] Hl2].
  - apply (IH p Hl2). by rewrite Hst.
  - destruct (pool_step_equiv _ _ _ Hp Hq) as (q' & Hq' & Hqq).
    destruct (IH q' Hl2 ltac:(by rewrite Hsq)) as (p' & Hp' & ?). exists p'. split; [|done].
    by eapply rtc_l.
Qed.

Lemma abs_start js n : abs (start js n) ≡ Pool false (filter real js) [].
Proof.
  split_and!; [done| |done]. unfold abs, start. cbn [waiting threads todo input_queue main].
  by rewrite running_replicate, !app_nil_r.
Qed.
Lemma launched_ok_start js n : launched_ok (start js n).
Proof. unfold launched_ok, start. cbn [threads]. by rewrite running_replicate. Qed.

Lemma filter_real js : Forall (λ j, is_break j = false) js → filter real js = js.
Proof. induction 1; [done|]. rewrite filter_cons, decide_True by done. by f_equal. Qed.

Lemma reachable_pool js n s :
  Forall (λ j, is_break j = false) js → reachable js n s →
  ∃ p, rtc pool_step (Pool false js []) p ∧ abs s ≡ p.
Proof.
  intros Hjs Hs. rewrite <-(filter_real js Hjs). apply (steps_simulated _ _ _ Hs).
  - apply launched_ok_start.
  - apply abs_start.
Qed.
End pool.

(** C3: the worker threads and their two queues refine a pool of jobs: after
    any interleaving, with any number of workers, processes that raise
    included, the jobs not yet finished and the outcomes so far, in order, are
    those of a pool that has taken steps of its own, each of which gives one
    waiting job its prescribed outcome, loses one whose command raised, or
    closes the pool; a single step of the threads is at most one such step. *)
Theorem workers_refine_pool opt cfg popen js n s :
  Forall (λ j, is_break j = false) js → reachable opt cfg popen js n s →
  (∃ p, rtc (pool_step opt cfg popen) (Pool false js []) p ∧ abs s ≡ p) ∧
  ∀ s', step opt cfg popen s s' →
    abs s' ≡ abs s ∨ ∃ p, pool_step opt cfg popen (abs s) p ∧ abs s' ≡ p.
Proof.
  intros Hjs Hs. split; [by eapply reachable_pool|]. intros s' Hss.
  apply step_simulated; [done|].
  assert (∀ s1 s2, rtc (step opt cfg popen) s1 s2 → launched_ok s1 → launched_ok s2) as Hrtc.
  { induction 1 as [|s1 s2 s3 H12 _ IH]; [done|]. intros Hl. apply IH. by apply (step_simulated _ _ _ _ _ H12). }
  by apply (Hrtc _ _ Hs), launched_ok_start.
Qed.

(** No job is lost without an exception, doubled or invented: at every
    moment each dispatched job is still to be queued, in the input queue or
    being run, or exactly one outcome for it, the prescribed one, has been put
    on the output queue, or the command of the job raised. *)
Theorem jobs_accounted opt cfg popen js n s :
  Forall (λ j, is_break j = false) js → reachable opt cfg popen js n s →
  ∃ ds lost,
    js ≡ₚ ds ++ lost ++ filter real (todo s ++ input_queue s) ++ running_jobs (threads s) ∧
    Forall2 (delivered opt cfg popen (thread_exit s)) ds (got s ++ output_queue s) ∧
    Forall (λ j, ∃ e, job_runs opt cfg popen j (Raise e)) lost.
Proof.
  intros Hjs Hs. destruct (reachable_pool _ _ _ _ _ _ Hjs Hs) as (p & Hp & Habs).
  destruct (accounted_steps _ _ _ _ _ Hp) as (ds & lost & H1 & H2 & H3).
  exists ds, lost. rewrite <-Habs in H1, H2. done.
Qed.

Lemma workers_refine_pool_witness :
  ∃ p, rtc (pool_step sample_options sample_config sample_popen) (Pool false sample_jobs []) p
    ∧ closing p = false ∧ waiting p ≡ₚ [] ∧ finished p = got sample_end.
Proof.
  destruct (workers_refine_pool sample_options sample_config sample_popen sample_jobs 1 sample_end)
    as [(p & Hp & H1 & H2 & H3) _]; [by repeat constructor|apply sample_reachable|].
  exists p. split; [exact Hp|]. split; [by rewrite <-H1|]. split; [by rewrite <-H2|].
  rewrite <-H3. vm_compute. reflexivity.
Defined.

(** The Python example that kills the only worker is the lost one. *)
Lemma jobs_accounted_witness :
  ∃ ds lost, [sample_pyexample] ≡ₚ ds ++ lost
    ∧ Forall2 (delivered sample_options no_python sample_popen false) ds []
    ∧ Forall (λ j, ∃ e, job_runs sample_options no_python sample_popen j (Raise e)) lost.
Proof.
  destruct (jobs_accounted sample_options no_python sample_popen [sample_pyexample] 1 killed)
    as (ds & lost & H1 & H2 & H3); [by repeat constructor|apply killed_worker_hangs|].
  exists ds, lost. split; [|exact (conj H2 H3)]. rewrite H1. cbn. by rewrite app_nil_r.
Defined.
