(* ===== verification/ExamplesFile.v ===== *)
(** * Reading lists and flags out of files: [utils.py], and the examples of [test.py]

    [get_list_from_file] and [get_bool_from_file] find an assignment in a file,
    cut comments, and [eval] its right-hand side; [read_config_file] reads the
    [.ns3rc] file with them, and [parse_examples_to_run_file] turns the lists of
    an [examples-to-run.py] file into the examples that were built.

    The file system is a function from paths to contents, and [eval] is a
    parameter: it runs arbitrary Python. *)
From Stdlib Require Import Ascii.
From S2P Require Export Workers.
Open Scope Z_scope.

(** [if '#' in line: (line, comment) = line.split('#', 1)] *)
Definition uncomment (line : pystr) : pystr :=
  match split_once "#" line with Some (l, _) => l | None => line end.

Definition filesystem : Type := pystr → option pystr.
Definition path_exists (fs : filesystem) (p : pystr) : bool := bool_decide (is_Some (fs p)).

(** [eval(s.split('=', 1)[1].strip())] *)
Definition eval_rhs {V} (eval : pystr → res exn V) (s : pystr) : res exn V :=
  match split_once "=" s with
  | Some (_, rhs) => eval (strip rhs)
  | None => Raise IndexError
  end.

(** The loop over the lines of [get_list_from_file]: [None] when the list does
    not end before the file does. *)
Fixpoint list_loop {V} (eval : pystr → res exn V) (list_name : pystr)
    (list_string : pystr) (parsing_multiline_list : bool) (lines : list pystr) :
    res exn (option V) :=
  match lines with
  | [] => Ok None
  | line :: lines =>
      let line := uncomment line in
      if contains list_name line || parsing_multiline_list then
        let list_string := list_string ++ line in
        if contains (str "]") list_string then Some <$> eval_rhs eval list_string
        else list_loop eval list_name list_string true lines
      else list_loop eval list_name list_string parsing_multiline_list lines
  end.

(** [empty] is Python's empty list. *)
Definition get_list_from_file {V} (fs : filesystem) (eval : pystr → res exn V) (empty : V)
    (file_path list_name : pystr) : res exn V :=
  match fs file_path with
  | Some content => default empty <$> list_loop eval list_name [] false (readlines content)
  | None => Ok empty
  end.

Fixpoint bool_loop {V} (eval : pystr → res exn V) (bool_name : pystr) (lines : list pystr) :
    res exn (option V) :=
  match lines with
  | [] => Ok None
  | line :: lines =>
      let line := uncomment line in
      if contains bool_name line then Some <$> eval_rhs eval line
      else bool_loop eval bool_name lines
  end.

(** [bool_found] is assigned only when the file exists. *)
Definition get_bool_from_file {V} (fs : filesystem) (eval : pystr → res exn V)
    (file_path bool_name : pystr) (value_if_missing : V) : res exn V :=
  match fs file_path with
  | Some content => default value_if_missing <$> bool_loop eval bool_name (readlines content)
  | None => Raise UnboundLocalError
  end.

(** [read_config_file]: [home] is [os.path.expanduser('~/')]. *)
Definition read_config_file (fs : filesystem) (home : pystr)
    (eval_list : pystr → res exn (list pystr)) (eval_bool : pystr → res exn bool) :
    res exn (bool * list pystr * bool * bool) :=
  let all := [str "all_modules"] in
  let dot_ns3rc_name := str ".ns3rc" in
  let read (dot_ns3rc_path : pystr) :=
    modules_enabled ← get_list_from_file fs eval_list [] dot_ns3rc_path (str "modules_enabled");
    let modules_enabled := if bool_decide (modules_enabled = []) then all else modules_enabled in
    examples_enabled ← get_bool_from_file fs eval_bool dot_ns3rc_path (str "examples_enabled") false;
    tests_enabled ← get_bool_from_file fs eval_bool dot_ns3rc_path (str "tests_enabled") false;
    Ok (true, modules_enabled, examples_enabled, tests_enabled) in
  if path_exists fs dot_ns3rc_name then read dot_ns3rc_name
  else if path_exists fs (home ++ dot_ns3rc_name) then read (home ++ dot_ns3rc_name)
  else Ok (false, all, false, false).

(** ** The examples of [test.py] *)

(** The module variable that [run_tests] sets first. *)
Definition BUILD_PROFILE_SUFFIX (cfg : config) : pystr :=
  if bool_decide (BUILD_PROFILE cfg = str "release") then [] else str "-" ++ BUILD_PROFILE cfg.

(** ["%s%s-%s%s" % (APPNAME, VERSION, name, BUILD_PROFILE_SUFFIX)] *)
Definition program_name (cfg : config) (name : pystr) : pystr :=
  APPNAME cfg ++ VERSION cfg ++ str "-" ++ name ++ BUILD_PROFILE_SUFFIX cfg.

Record cpp_example := MkCpp {
  cpp_name : pystr; cpp_path : pystr; cpp_do_run : pystr; cpp_do_valgrind_run : pystr }.

(** The three lists that [parse_examples_to_run_file] appends to. *)
Record examples := MkExamples {
  example_tests : list cpp_example; example_names_original : list pystr;
  python_tests : list (pystr * pystr) }.

(** The example name and its arguments: [name.split(' ', 1)]. *)
Definition with_args (example_name s : pystr) : pystr :=
  match split_once " " example_name with
  | Some (_, arguments) => s ++ str " " ++ arguments
  | None => s
  end.
Definition without_args (example_name : pystr) : pystr :=
  match split_once " " example_name with Some (name, _) => name | None => example_name end.

Definition add_cpp_example (fs : filesystem) (cfg : config) (here cpp_executable_dir : pystr)
    (ex : examples) (tuple : list pystr) : res exn examples :=
  match tuple with
  | [example_name_original; do_run; do_valgrind_run] =>
      let name := without_args example_name_original in
      let example_path := path_join cpp_executable_dir (program_name cfg name) in
      rel ← relpath here cpp_executable_dir (NS3_BUILDDIR cfg);
      let example_name := path_join rel name in
      if path_exists fs example_path then
        Ok (MkExamples
              (example_tests ex ++
                 [MkCpp (with_args example_name_original example_name)
                        (with_args example_name_original example_path) do_run do_valgrind_run])
              (example_names_original ex ++ [example_name_original]) (python_tests ex))
      else Ok ex
  | _ => Raise ValueError
  end.

Definition add_python_example (fs : filesystem) (python_script_dir : pystr)
    (ex : examples) (tuple : list pystr) : res exn examples :=
  match tuple with
  | [example_name; do_run] =>
      let example_path := path_join python_script_dir (without_args example_name) in
      if path_exists fs example_path then
        Ok (MkExamples (example_tests ex) (example_names_original ex)
              (python_tests ex ++ [(with_args example_name example_path, do_run)]))
      else Ok ex
  | _ => Raise ValueError
  end.

(** [eval] gives a list of tuples of strings; [here] is the working directory. *)
Definition parse_examples_to_run_file (fs : filesystem) (eval : pystr → res exn (list (list pystr)))
    (cfg : config) (here examples_to_run_path cpp_executable_dir python_script_dir : pystr)
    (ex : examples) : res exn examples :=
  if path_exists fs examples_to_run_path then
    cpp_examples ← get_list_from_file fs eval [] examples_to_run_path (str "cpp_examples");
    ex ← fold_res (add_cpp_example fs cfg here cpp_executable_dir) ex cpp_examples;
    python_examples ← get_list_from_file fs eval [] examples_to_run_path (str "python_examples");
    fold_res (add_python_example fs python_script_dir) ex python_examples
  else Ok ex.

(** ** What the readers promise *)

(** The text of an assignment: from the first line that names it to the first
    line at or after it with a closing bracket. *)
Definition list_text (list_name : pystr) (lines : list pystr) : option pystr :=
  '(i, _) ← list_find (λ l : pystr, contains list_name l = true) lines;
  '(k, _) ← list_find (λ l : pystr, contains (str "]") l = true) (drop i lines);
  Some (concat (take (S k) (drop i lines))).

Lemma list_find_cons_if {A} (P : A → Prop) `{∀ x, Decision (P x)} x l :
  list_find P (x :: l) = if decide (P x) then Some (0%nat, x) else prod_map S id <$> list_find P l.
Proof. reflexivity. Qed.

Lemma contains_bracket_app s t :
  contains (str "]") (s ++ t) = contains (str "]") s || contains (str "]") t.
Proof.
  change (str "]") with ["]"%char]. rewrite !contains_char.
  apply Bool.eq_iff_eq_true. rewrite orb_true_iff, !bool_decide_eq_true. apply elem_of_app.
Qed.

(** The loop inside a list whose text so far is not closed. *)
Lemma list_loop_inside {V} (eval : pystr → res exn V) name acc lines :
  contains (str "]") acc = false →
  list_loop eval name acc true lines
  = match list_find (λ l : pystr, contains (str "]") l = true) (map uncomment lines) with
    | Some (k, _) => Some <$> eval_rhs eval (acc ++ concat (take (S k) (map uncomment lines)))
    | None => Ok None
    end.
Proof.
  revert acc. induction lines as [|l ls IH]; intros acc Hacc; [done|].
  cbn [list_loop map]. rewrite orb_true_r, list_find_cons_if, contains_bracket_app, Hacc.
  cbn [orb]. destruct (contains (str "]") (uncomment l)) eqn:Hl.
  - rewrite decide_True by done. cbn. by rewrite app_nil_r.
  - rewrite decide_False by done. rewrite IH by (by rewrite contains_bracket_app, Hacc).
    destruct (list_find _ (map uncomment ls)) as [[k x]|]; [|done].
    cbn [fmap option_fmap option_map prod_map]. cbn [fst id take concat]. by rewrite <-app_assoc.
Qed.

Lemma list_loop_text {V} (eval : pystr → res exn V) name lines :
  list_loop eval name [] false lines
  = match list_text name (map uncomment lines) with
    | Some t => Some <$> eval_rhs eval t
    | None => Ok None
    end.
Proof.
  unfold list_text. induction lines as [|l ls IH]; [done|].
  cbn [list_loop map]. rewrite orb_false_r, list_find_cons_if.
  destruct (contains name (uncomment l)) eqn:Hn.
  - rewrite decide_True by done. cbn [mbind option_bind drop app]. rewrite list_find_cons_if.
    destruct (contains (str "]") (uncomment l)) eqn:Hl.
    + rewrite decide_True by done. cbn. by rewrite app_nil_r.
    + rewrite decide_False, list_loop_inside by done.
      by destruct (list_find (λ l : pystr, contains (str "]") l = true) (map uncomment ls))
        as [[k x]|].
  - rewrite decide_False, IH by done.
    by destruct (list_find (λ l : pystr, contains name l = true) (map uncomment ls)) as [[k x]|].
Qed.

(** [get_list_from_file] gives [eval] the right-hand side of the text of
    the named assignment with its comments cut, and returns the empty list when
    the file or the assignment is missing or the list is never closed. *)
Theorem get_list_from_file_correct {V} fs (eval : pystr → res exn V) empty path name :
  get_list_from_file fs eval empty path name
  = match fs path ≫= λ content, list_text name (map uncomment (readlines content)) with
    | Some t => eval_rhs eval t
    | None => Ok empty
    end.
Proof.
  unfold get_list_from_file. destruct (fs path) as [content|]; [|done].
  rewrite list_loop_text. cbn. destruct (list_text _ _) as [t|]; [|done].
  by destruct (eval_rhs eval t).
Qed.

(** A raised exception of a reader is its own [IndexError], for an assignment
    without an equals sign, or comes out of [eval]. *)
Lemma eval_rhs_raise {V} (eval : pystr → res exn V) s e :
  eval_rhs eval s = Raise e → e = IndexError ∨ ∃ t, eval t = Raise e.
Proof. unfold eval_rhs. destruct (split_once "=" s) as [[l r]|]; intros He; simplify_eq; eauto. Qed.

Lemma get_list_raise {V} fs (eval : pystr → res exn V) empty path name e :
  get_list_from_file fs eval empty path name = Raise e → e = IndexError ∨ ∃ t, eval t = Raise e.
Proof.
  unfold get_list_from_file. destruct (fs path) as [content|]; [|done]. rewrite list_loop_text.
  destruct (list_text _ _) as [t|]; [|done]. destruct (eval_rhs eval t) eqn:He; [done|].
  cbn. intros. simplify_eq. by eapply eval_rhs_raise.
Qed.

Lemma get_bool_raise {V} fs (eval : pystr → res exn V) path name (v : V) e :
  path_exists fs path = true → get_bool_from_file fs eval path name v = Raise e →
  e = IndexError ∨ ∃ t, eval t = Raise e.
Proof.
  unfold path_exists, get_bool_from_file. destruct (fs path) as [content|]; [|done]. intros _.
  induction (readlines content) as [|l ls IH]; [done|]. cbn [bool_loop].
  destruct (contains name (uncomment l)); [|done].
  destruct (eval_rhs eval (uncomment l)) eqn:He; [done|]. cbn. intros. simplify_eq.
  by eapply eval_rhs_raise.
Qed.

(** The flag of a missing file is not [value_if_missing]: the function's local
    variable is never assigned. *)
Lemma get_bool_missing_file {V} fs (eval : pystr → res exn V) path name (v : V) :
  fs path = None → get_bool_from_file fs eval path name v = Raise UnboundLocalError.
Proof. unfold get_bool_from_file. by intros ->. Qed.

(** [read_config_file] always has modules to enable, says that a
    configuration was found exactly when one of the two files exists, and never
    reaches the unassigned variable of [get_bool_from_file]: it raises only what
    [eval] raises, or an [IndexError] for a line that names an item and has no
    equals sign. *)
Theorem read_config_file_correct fs home eval_list eval_bool :
  match read_config_file fs home eval_list eval_bool with
  | Ok (found, modules_enabled, _, _) =>
      modules_enabled ≠ []
      ∧ found = path_exists fs (str ".ns3rc") || path_exists fs (home ++ str ".ns3rc")
  | Raise e => e = IndexError ∨ (∃ t, eval_list t = Raise e) ∨ ∃ t, eval_bool t = Raise e
  end.
Proof.
  unfold read_config_file.
  assert (∀ p, path_exists fs p = true →
    match (modules_enabled ← get_list_from_file fs eval_list [] p (str "modules_enabled");
           let modules_enabled := if bool_decide (modules_enabled = []) then [str "all_modules"]
                                  else modules_enabled in
           examples_enabled ← get_bool_from_file fs eval_bool p (str "examples_enabled") false;
           tests_enabled ← get_bool_from_file fs eval_bool p (str "tests_enabled") false;
           Ok (true, modules_enabled, examples_enabled, tests_enabled)) : res exn _ with
    | Ok (found, ms, _, _) => ms ≠ [] ∧ found = true
    | Raise e => e = IndexError ∨ (∃ t, eval_list t = Raise e) ∨ ∃ t, eval_bool t = Raise e
    end) as Hread.
  { intros p Hp. destruct (get_list_from_file _ _ _ _ _) as [ms|e] eqn:Hl; cbn [mbind res_bind].
    2:{ apply get_list_raise in Hl as [?|[t ?]]; eauto. }
    destruct (get_bool_from_file fs eval_bool p (str "examples_enabled") false) as [b|e] eqn:Hb; cbn [mbind res_bind].
    2:{ apply get_bool_raise in Hb as [?|[t ?]]; eauto. }
    destruct (get_bool_from_file fs eval_bool p (str "tests_enabled") false) as [t|e] eqn:Ht; cbn [mbind res_bind].
    2:{ apply get_bool_raise in Ht as [?|[t ?]]; eauto. }
    split; [|done]. by case_bool_decide. }
  destruct (path_exists fs (str ".ns3rc")) eqn:H1; [by apply Hread|].
  destruct (path_exists fs (home ++ str ".ns3rc")) eqn:H2; [by apply Hread|]. done.
Qed.

(** ** The examples that are run *)

(** The path of the program of a C++ tuple, and of the script of a Python one. *)
Definition cpp_program (cfg : config) (dir name : pystr) : pystr :=
  path_join dir (program_name cfg (without_args name)).
Definition tuple_name (t : list pystr) : pystr := default [] (head t).

Definition cpp_built (fs : filesystem) (cfg : config) (dir : pystr) (t : list pystr) : bool :=
  path_exists fs (cpp_program cfg dir (tuple_name t)).
Definition python_found (fs : filesystem) (dir : pystr) (t : list pystr) : bool :=
  path_exists fs (path_join dir (without_args (tuple_name t))).

(** The entry of a tuple, [rel] being the path from the build directory. *)
Definition cpp_entry (cfg : config) (rel dir : pystr) (t : list pystr) : cpp_example :=
  let n := tuple_name t in
  MkCpp (with_args n (path_join rel (without_args n))) (with_args n (cpp_program cfg dir n))
    (nth 1 t []) (nth 2 t []).
Definition python_entry (dir : pystr) (t : list pystr) : pystr * pystr :=
  (with_args (tuple_name t) (path_join dir (without_args (tuple_name t))), nth 1 t []).

Lemma add_cpp_examples fs cfg here dir rel ts ex :
  relpath here dir (NS3_BUILDDIR cfg) = Ok rel → Forall (λ t, length t = 3%nat) ts →
  fold_res (add_cpp_example fs cfg here dir) ex ts
  = Ok (MkExamples
          (example_tests ex ++ map (cpp_entry cfg rel dir) (List.filter (cpp_built fs cfg dir) ts))
          (example_names_original ex ++ map tuple_name (List.filter (cpp_built fs cfg dir) ts))
          (python_tests ex)).
Proof.
  intros Hrel Hts. revert ex. induction Hts as [|t ts Ht _ IH]; intros ex; cbn [fold_res].
  { cbn. rewrite !app_nil_r. by destruct ex. }
  destruct t as [|a [|b [|c [|]]]]; try done. unfold add_cpp_example at 1. rewrite Hrel.
  cbn [mbind res_bind List.filter]. unfold cpp_built at 1 4, cpp_program at 1 2.
  cbn [tuple_name head default]. 
  destruct (path_exists fs _); rewrite IH; cbn [example_tests example_names_original python_tests map];
    by rewrite <-?app_assoc.
Qed.

Lemma add_python_examples fs dir ts ex :
  Forall (λ t, length t = 2%nat) ts →
  fold_res (add_python_example fs dir) ex ts
  = Ok (MkExamples (example_tests ex) (example_names_original ex)
          (python_tests ex ++ map (python_entry dir) (List.filter (python_found fs dir) ts))).
Proof.
  intros Hts. revert ex. induction Hts as [|t ts Ht _ IH]; intros ex; cbn [fold_res].
  { cbn. rewrite !app_nil_r. by destruct ex. }
  destruct t as [|a [|b [|]]]; try done. unfold add_python_example at 1.
  cbn [List.filter]. unfold python_found at 1. cbn [tuple_name head default].
  destruct (path_exists fs _); rewrite IH; cbn [example_tests example_names_original python_tests map];
    by rewrite <-?app_assoc.
Qed.

(** For a file whose two lists have tuples of the right widths, exactly
    the C++ examples whose program was built and the Python examples whose
    script exists are appended, in the order of the file, with their arguments
    on the path and the name; the original names stay in step with the C++
    entries. *)
Theorem parse_examples_correct fs eval cfg here path cpp_dir python_dir ex cpps pythons rel :
  path_exists fs path = true →
  get_list_from_file fs eval [] path (str "cpp_examples") = Ok cpps →
  get_list_from_file fs eval [] path (str "python_examples") = Ok pythons →
  Forall (λ t, length t = 3%nat) cpps → Forall (λ t, length t = 2%nat) pythons →
  relpath here cpp_dir (NS3_BUILDDIR cfg) = Ok rel →
  let built := List.filter (cpp_built fs cfg cpp_dir) cpps in
  parse_examples_to_run_file fs eval cfg here path cpp_dir python_dir ex
  = Ok (MkExamples (example_tests ex ++ map (cpp_entry cfg rel cpp_dir) built)
          (example_names_original ex ++ map tuple_name built)
          (python_tests ex
             ++ map (python_entry python_dir) (List.filter (python_found fs python_dir) pythons))).
Proof.
  intros Hp Hc Hpy Hc3 Hp2 Hrel built. unfold parse_examples_to_run_file. rewrite Hp, Hc, Hpy.
  cbn [mbind res_bind]. rewrite (add_cpp_examples _ _ _ _ rel) by done. cbn [mbind res_bind].
  by rewrite add_python_examples.
Qed.

(** A file with two C++ examples, one of them built, and no Python example. *)
Definition sample_file : pystr :=
  join [newline]
    [str "# examples"; str "cpp_examples = [   # (name, run, valgrind)";
     str "  ('udp --fast', 'True', 'False'), ('tcp', 'True', 'True'),"; str "]"; str "python_examples = []"; []].
Definition sample_program : pystr := str "/ns3/build/examples/udp/ns3-dev-udp-debug".
Definition sample_fs : filesystem := λ p,
  if decide (p = str "x/examples-to-run.py") then Some sample_file
  else if decide (p = sample_program) then Some [] else None.

(** [eval], on the texts of the sample file. *)
Definition sample_eval (s : pystr) : res exn (list (list pystr)) :=
  if decide (s = str "[]") then Ok []
  else Ok [[str "udp --fast"; str "True"; str "False"]; [str "tcp"; str "True"; str "True"]].

Lemma parse_examples_correct_witness :
  parse_examples_to_run_file sample_fs sample_eval sample_config (str "/ns3")
    (str "x/examples-to-run.py") (str "/ns3/build/examples/udp") (str "examples/udp")
    (MkExamples [] [] [])
  = Ok (MkExamples [MkCpp (str "examples/udp/udp --fast") (sample_program ++ str " --fast")
                      (str "True") (str "False")]
          [str "udp --fast"] []).
Proof.
  rewrite (parse_examples_correct _ _ _ _ _ _ _ _
             [[str "udp --fast"; str "True"; str "False"]; [str "tcp"; str "True"; str "True"]]
             [] (str "examples/udp"));
    [by vm_compute|by vm_compute|by vm_compute|by vm_compute|by repeat constructor
    |by constructor|by vm_compute].
Defined.
