(* ===== verification/Report.v ===== *)
(** * [test.py]: the text and HTML reports

    [read_test], [node_to_text], [translate_to_text] and [translate_to_html]
    over the element tree of the results file.  A report is the list of the
    strings that are written to its file, in order; a missing child element
    raises the [AttributeError] of [None.text], after what was written before.
    [xml.etree.ElementTree.parse] is a parameter. *)
From Stdlib Require Import Ascii.
From stdpp Require Import gmap countable.
From S2P Require Export PyOs PyXml.
Open Scope Z_scope.

(** [e.find(t).text] *)
Definition find_text (t : pystr) (e : element) : res exn (option pystr) :=
  etext <$> res_of_option AttributeError (find_elem t e).

(** A value as [%s] shows it. *)
Definition show (o : option pystr) : pystr := default (str "None") o.

(** Result, name, reason and time of a test. *)
Record test_info := MkInfo {
  t_result : option pystr; t_name : option pystr; t_reason : option pystr;
  t_time : option pystr }.

Definition read_test (test : element) : res exn test_info :=
  result ← find_text (str "Result") test;
  name ← find_text (str "Name") test;
  let reason := match find_elem (str "Reason") test with Some e => etext e | None => Some [] end in
  let time_real := match find_elem (str "Time") test with
                   | Some e => get_attrib (str "real") e
                   | None => Some []
                   end in
  Ok (MkInfo result name reason time_real).

(** ** The text report *)

(** What a file receives. *)
Definition writer : Type → Type := stm (list pystr).
Definition write (s : pystr) : writer unit := st_modify (λ w, w ++ [s]).

Definition quoted (s : pystr) : pystr := [dquote] ++ s ++ [dquote].
Definition is_text (s : pystr) (o : option pystr) : bool := bool_decide (o = Some s).
Definition truthy_text (o : option pystr) : bool :=
  match o with Some (_ :: _) => true | _ => false end.

Definition header_line (test_type : pystr) (i : test_info) : pystr :=
  let reason := if truthy_text (t_reason i) then str " (" ++ show (t_reason i) ++ str ")"
                else show (t_reason i) in
  show (t_result i) ++ str ": Test " ++ test_type ++ str " " ++ quoted (show (t_name i))
    ++ str " (" ++ show (t_time i) ++ str ")" ++ reason ++ [newline].

(** One line of a failure's details. *)
Definition write_field (label field : pystr) (details : element) : writer unit :=
  t ← st_lift (find_text field details);
  write (str "      " ++ label ++ show t ++ [newline]).

Definition text_fields : list (pystr * pystr) :=
  [(str "Message:   ", str "Message"); (str "Condition: ", str "Condition");
   (str "Actual:    ", str "Actual"); (str "Limit:     ", str "Limit");
   (str "File:      ", str "File"); (str "Line:      ", str "Line")].

Definition details_to_text (details : element) : writer unit :=
  _ ← write (str "    Details:" ++ [newline]);
  st_for (λ lf, write_field lf.1 lf.2 details) text_fields.

Fixpoint node_to_text (test : element) (test_type : pystr) : writer unit :=
  i ← st_lift (read_test test);
  _ ← write (header_line test_type i);
  _ ← st_for details_to_text (findall (str "FailureDetails") test);
  let 'Element _ _ _ cs := test in
  (fix go (cs : list element) : writer unit :=
     match cs with
     | [] => mret tt
     | c :: cs =>
         _ ← (if has_tag (str "Test") c then node_to_text c (str "Case") else mret tt);
         go cs
     end) cs.

Definition example_to_text (example : element) : writer unit :=
  result ← st_lift (find_text (str "Result") example);
  name ← st_lift (find_text (str "Name") example);
  let time_real := match find_elem (str "Time") example with
                   | Some e => get_attrib (str "real") e
                   | None => Some []
                   end in
  write (show result ++ str ": Example " ++ quoted (show name) ++ str " ("
           ++ show time_real ++ str ")" ++ [newline]).

(** The body of the [with] block; [et] is the parsed tree. *)
Definition text_report (et : element) : writer unit :=
  _ ← st_for (λ test, node_to_text test (str "Suite")) (findall (str "Test") et);
  st_for example_to_text (findall (str "Example") et).

(** ** The HTML report *)

Definition write_line (s : pystr) : writer unit := write (s ++ [newline]).

(** An element with a style attribute. *)
Definition styled (name color : pystr) (body : pystr) (closing : pystr) : pystr :=
  str "<" ++ name ++ str " style=" ++ quoted (str "color:" ++ color) ++ str ">" ++ body ++ closing.
Definition cell (body : pystr) : pystr := str "<td>" ++ body ++ str "</td>".

Definition html_field (label field suffix : pystr) (details : element) : writer unit :=
  t ← st_lift (find_text field details);
  write (str "<b>" ++ label ++ str ": </b>" ++ show t ++ suffix).

Definition html_fields : list (pystr * pystr) :=
  [(str "Message", str ", "); (str "Condition", str ", "); (str "Actual", str ", ");
   (str "Limit", str ", "); (str "File", str ", "); (str "Line", [])].

(** One failure of a test case: the row ends with [</td>]. *)
Definition html_details (i : test_info) (first_row : bool) (details : element) : writer bool :=
  _ ← write_line (str "<tr>");
  _ ← (if first_row then
         _ ← write_line (styled (str "td") (str "red") (show (t_result i)) (str "</td>"));
         _ ← write_line (cell (show (t_name i)));
         write_line (cell (show (t_time i)))
       else
         _ ← write_line (str "<td></td>");
         _ ← write_line (str "<td></td>");
         write_line (str "<td></td>"));
  _ ← write (str "<td>");
  _ ← st_for (λ ls, html_field ls.1 ls.1 ls.2 details) html_fields;
  _ ← write_line (str "</td>");
  _ ← write_line (str "</td>");
  mret false.

Definition html_case (case : element) : writer unit :=
  i ← st_lift (read_test case);
  if is_text (str "FAIL") (t_result i) then
    _ ← st_fold (html_details i) true (findall (str "FailureDetails") case);
    mret tt
  else
    _ ← write_line (str "<tr>");
    _ ← write_line (styled (str "td") (str "green") (show (t_result i)) (str "</td>"));
    _ ← write_line (cell (show (t_name i)));
    _ ← write_line (cell (show (t_time i)));
    _ ← write_line (cell (show (t_reason i)));
    write_line (str "</tr>").

(** ["%s: %s (%s)"] *)
Definition suite_title (i : test_info) : pystr :=
  show (t_result i) ++ str ": " ++ show (t_name i) ++ str " (" ++ show (t_time i) ++ str ")".

Definition no_cases (i : test_info) : bool :=
  is_text (str "CRASH") (t_result i) || is_text (str "SKIP") (t_result i)
  || is_text (str "VALGR") (t_result i).

Definition html_suite (suite : element) : writer unit :=
  i ← st_lift (read_test suite);
  _ ← (if is_text (str "PASS") (t_result i) then
         write_line (styled (str "h3") (str "green") (suite_title i) (str "</h3>"))
       else if is_text (str "SKIP") (t_result i) then
         write_line (styled (str "h3") (str "#ff6600")
           (suite_title i ++ str " (" ++ show (t_reason i) ++ str ")") (str "</h3>"))
       else write_line (styled (str "h3") (str "red") (suite_title i) (str "</h3>")));
  _ ← write_line (str "<table border=" ++ quoted (str "1") ++ str ">");
  _ ← write_line (str "<th> Result </th>");
  if no_cases i then
    _ ← write_line (str "<tr>");
    _ ← (if is_text (str "SKIP") (t_result i) then
           write_line (styled (str "td") (str "#ff6600") (show (t_result i)) (str "</td>"))
         else write_line (styled (str "td") (str "red") (show (t_result i)) (str "</td>")));
    _ ← write_line (str "</tr>");
    write_line (str "</table>")
  else
    _ ← write_line (str "<th>Test Case Name</th>");
    _ ← write_line (str "<th> Time </th>");
    _ ← (if is_text (str "FAIL") (t_result i) then write_line (str "<th>Failure Details</th>")
         else mret tt);
    _ ← st_for html_case (findall (str "Test") suite);
    write_line (str "</table>").

(** A skipped example's cell ends with [</fd>]. *)
Definition html_example (example : element) : writer unit :=
  _ ← write_line (str "<tr>");
  i ← st_lift (read_test example);
  _ ← (if is_text (str "PASS") (t_result i) then
         write_line (styled (str "td") (str "green") (show (t_result i)) (str "</td>"))
       else if is_text (str "SKIP") (t_result i) then
         write_line (styled (str "td") (str "#ff6600") (show (t_result i)) (str "</fd>"))
       else write_line (styled (str "td") (str "red") (show (t_result i)) (str "</td>")));
  _ ← write_line (cell (show (t_name i)));
  _ ← write_line (cell (show (t_time i)));
  _ ← write_line (cell (show (t_reason i)));
  write_line (str "</tr>").

(** The body of the [with] block: the results are parsed after the first lines
    are written. *)
Definition html_report (parsed : res exn element) : writer unit :=
  _ ← write_line (str "<html>");
  _ ← write_line (str "<body>");
  _ ← write_line (str "<center><h1>ns-3 Test Results</h1></center>");
  et ← st_lift parsed;
  _ ← write_line (str "<h2>Test Suites</h2>");
  _ ← st_for html_suite (findall (str "Test") et);
  _ ← write_line (str "<h2>Examples</h2>");
  _ ← write_line (str "<table border=" ++ quoted (str "1") ++ str ">");
  _ ← write_line (str "<th> Result </th>");
  _ ← write_line (str "<th>Example Name</th>");
  _ ← write_line (str "<th>Elapsed Time</th>");
  _ ← write_line (str "<th>Details</th>");
  _ ← st_for html_example (findall (str "Example") et);
  _ ← write_line (str "</table>");
  _ ← write_line (str "</body>");
  write_line (str "</html>").

(** ** Files and the terminal *)

Record world := MkWorld {
  files : gmap pystr pystr; stdout : list pystr; stderr : list pystr;
  environ : gmap pystr pystr }.

Definition set_file (path text : pystr) : stm world unit :=
  st_modify (λ w, MkWorld (<[path := text]> (files w)) (stdout w) (stderr w) (environ w)).
Definition read_file (path : pystr) : stm world pystr :=
  w ← st_get; st_lift (res_of_option OSError (files w !! path)).
(** [open(path, 'a')], which creates a missing file, and one [write]. *)
Definition append_file (path text : pystr) : stm world unit :=
  st_modify (λ w, MkWorld (<[path := default [] (files w !! path) ++ text]> (files w))
                    (stdout w) (stderr w) (environ w)).
(** [print(s, end='')]; [print(s)] ends the line; [print(s, file=sys.stderr)]. *)
Definition print_end (s : pystr) : stm world unit :=
  st_modify (λ w, MkWorld (files w) (stdout w ++ [s]) (stderr w) (environ w)).
Definition print (s : pystr) : stm world unit := print_end (println s).
Definition print_err (s : pystr) : stm world unit :=
  st_modify (λ w, MkWorld (files w) (stdout w) (stderr w ++ [println s]) (environ w)).

(** [with open(path, 'w') as f]: the file holds what was written, also when
    the block raises. *)
Definition with_open_w (path : pystr) (body : writer unit) : stm world unit :=
  let '(r, ws) := body [] in
  _ ← set_file path (concat ws);
  st_lift r.

Section translate.
(** [ET.parse], on the contents of a file. *)
Context (parse_xml : pystr → res exn element).

Definition et_parse (path : pystr) (w : world) : res exn element :=
  text ← res_of_option OSError (files w !! path); parse_xml text.

Definition translate_to_text (results_file text_file : pystr) : stm world unit :=
  let text_file := text_file ++ str ".txt" in
  _ ← print_end (str "Writing results to text file " ++ quoted text_file ++ str "...");
  w ← st_get;
  et ← st_lift (et_parse results_file w);
  _ ← with_open_w text_file (text_report et);
  print (str "done.").

(** The HTML file is truncated before the results are read. *)
Definition translate_to_html (results_file html_file : pystr) : stm world unit :=
  let html_file := html_file ++ str ".html" in
  _ ← print_end (str "Writing results to html file " ++ html_file ++ str "...");
  _ ← set_file html_file [];
  w ← st_get;
  _ ← with_open_w html_file (html_report (et_parse results_file w));
  print (str "done.").
End translate.

(** ** The writers' rule *)

(** [writes m ok ls]: [m] writes [ls] if [ok], and otherwise writes a prefix of
    [ls] and raises [AttributeError]. *)
Definition writes (m : writer unit) (ok : bool) (ls : list pystr) : Prop :=
  ∀ ws, if ok then m ws = (Ok tt, ws ++ ls)
        else ∃ w, m ws = (Raise AttributeError, ws ++ w) ∧ w `prefix_of` ls.

Lemma writes_ret : writes (mret tt) true [].
Proof. intros ws. by rewrite app_nil_r. Qed.

Lemma writes_write s : writes (write s) true [s].
Proof. by intros ws. Qed.

Lemma writes_lift {A} (r : res exn A) (f : A → writer unit) ok ls :
  match r with
  | Ok a => writes (f a) ok ls
  | Raise e => e = AttributeError ∧ ok = false
  end → writes (st_lift r ≫= f) ok ls.
Proof.
  destruct r as [a|e]; [by intros Hw ws; apply Hw|]. intros [-> ->] ws. exists [].
  rewrite app_nil_r. split; [done|apply prefix_nil].
Qed.

Lemma writes_bind m f ok1 ok2 ls1 ls2 :
  writes m ok1 ls1 → writes (f tt) ok2 ls2 → writes (m ≫= f) (ok1 && ok2) (ls1 ++ ls2).
Proof.
  intros H1 H2 ws. specialize (H1 ws). destruct ok1; cbn [andb].
  - specialize (H2 (ws ++ ls1)). rewrite (st_bind_step _ _ _ _ _ H1). destruct ok2.
    + rewrite H2. by rewrite app_assoc.
    + destruct H2 as (w & -> & Hw). exists (ls1 ++ w). rewrite app_assoc.
      split; [done|]. by apply prefix_app.
  - destruct H1 as (w & Hm & Hw). exists w. rewrite (st_bind_raise _ _ _ _ _ Hm).
    split; [done|]. by apply prefix_app_r.
Qed.

Lemma writes_for {A} (f : A → writer unit) (ok : A → bool) (ls : A → list pystr) l :
  (∀ x, x ∈ l → writes (f x) (ok x) (ls x)) →
  writes (st_for f l) (forallb ok l) (concat (map ls l)).
Proof.
  induction l as [|x l IH]; intros Hf; [apply writes_ret|].
  apply (writes_bind (f x)); [apply Hf; left|apply IH]. intros y Hy. apply Hf. by right.
Qed.

(** ** The text report, as a list of lines *)

(** A tree that the reports can read: the elements that are asked for exist. *)
Definition has_child (t : pystr) (e : element) : bool := bool_decide (is_Some (find_elem t e)).
Definition has_fields (details : element) : bool :=
  forallb (λ lf, has_child lf.2 details) text_fields.
Definition readable (test : element) : bool :=
  has_child (str "Result") test && has_child (str "Name") test
  && forallb has_fields (findall (str "FailureDetails") test).
Definition readable_example (example : element) : bool :=
  has_child (str "Result") example && has_child (str "Name") example.

(** The tests of a tree, a parent before its children, each with its type. *)
Fixpoint preorder (test_type : pystr) (test : element) : list (pystr * element) :=
  let 'Element _ _ _ cs := test in
  (test_type, test) ::
  (fix go (cs : list element) : list (pystr * element) :=
     match cs with
     | [] => []
     | c :: cs => (if has_tag (str "Test") c then preorder (str "Case") c else []) ++ go cs
     end) cs.

Definition text_of (t : pystr) (e : element) : pystr := show (find_elem t e ≫= etext).
Definition field_line (details : element) (lf : pystr * pystr) : pystr :=
  str "      " ++ lf.1 ++ text_of lf.2 details ++ [newline].
Definition details_lines (details : element) : list pystr :=
  (str "    Details:" ++ [newline]) :: map (field_line details) text_fields.
Definition info_of (test : element) : test_info :=
  match read_test test with Ok i => i | Raise _ => MkInfo None None None None end.
Definition test_lines (te : pystr * element) : list pystr :=
  header_line te.1 (info_of te.2)
  :: concat (map details_lines (findall (str "FailureDetails") te.2)).
Definition example_line (example : element) : pystr :=
  text_of (str "Result") example ++ str ": Example "
    ++ quoted (text_of (str "Name") example) ++ str " ("
    ++ show (match find_elem (str "Time") example with
             | Some e => get_attrib (str "real") e | None => Some [] end)
    ++ str ")" ++ [newline].

Lemma find_text_cases t e :
  (has_child t e = true ∧ find_text t e = Ok (find_elem t e ≫= etext))
  ∨ (has_child t e = false ∧ find_text t e = Raise AttributeError).
Proof.
  unfold has_child, find_text. destruct (find_elem t e) as [c|]; [left|right]; done.
Qed.

Lemma writes_field d lf :
  writes (write_field lf.1 lf.2 d) (has_child lf.2 d) [field_line d lf].
Proof.
  apply writes_lift. destruct (find_text_cases lf.2 d) as [[-> ->]|[-> ->]]; [|done].
  apply writes_write.
Qed.

Lemma concat_singletons {A B} (f : A → B) l : concat (map (λ x, [f x]) l) = map f l.
Proof. induction l as [|x l IH]; cbn; [done|]. by rewrite IH. Qed.

Lemma writes_details d : writes (details_to_text d) (has_fields d) (details_lines d).
Proof.
  unfold details_to_text, details_lines, has_fields.
  apply (writes_bind _ _ true _ [_]); [apply writes_write|].
  rewrite <-concat_singletons.
  apply (writes_for _ (λ lf, has_child lf.2 d) (λ lf, [field_line d lf]) text_fields).
  intros lf _. apply writes_field.
Qed.

Lemma readable_cases e :
  (readable e = forallb has_fields (findall (str "FailureDetails") e)
   ∧ read_test e = Ok (info_of e))
  ∨ (readable e = false ∧ read_test e = Raise AttributeError).
Proof.
  unfold readable, info_of, read_test.
  destruct (find_text_cases (str "Result") e) as [[-> ->]|[-> ->]]; [|by right].
  destruct (find_text_cases (str "Name") e) as [[-> ->]|[-> ->]]; [by left|by right].
Qed.

(** The children of a node, with the loop of [findall]. *)
Definition child_to_text (c : element) : writer unit :=
  if has_tag (str "Test") c then node_to_text c (str "Case") else mret tt.
Definition child_preorder (c : element) : list (pystr * element) :=
  if has_tag (str "Test") c then preorder (str "Case") c else [].

Lemma node_to_text_eq e test_type :
  node_to_text e test_type
  = i ← st_lift (read_test e);
    _ ← write (header_line test_type i);
    _ ← st_for details_to_text (findall (str "FailureDetails") e);
    st_for child_to_text (children e).
Proof.
  destruct e as [t a x cs]. cbn [node_to_text children].
  match goal with |- context [?g cs] => assert (∀ l, g l = st_for child_to_text l) as -> end; [|done].
  induction l as [|c l IH]; [done|]. cbn [st_for]. by rewrite <-IH.
Qed.

Lemma preorder_eq e test_type :
  preorder test_type e = (test_type, e) :: concat (map child_preorder (children e)).
Proof.
  destruct e as [t a x cs]. cbn [preorder children]. f_equal.
  induction cs as [|c cs IH]; [done|]. cbn [map concat]. by rewrite <-IH.
Qed.

Lemma forallb_concat {A B} (P : B → bool) (f : A → list B) l :
  forallb P (concat (map f l)) = forallb (λ x, forallb P (f x)) l.
Proof. induction l as [|x l IH]; cbn; [done|]. by rewrite forallb_app, IH. Qed.

Lemma concat_map_concat {A B C} (g : B → list C) (f : A → list B) l :
  concat (map g (concat (map f l))) = concat (map (λ x, concat (map g (f x))) l).
Proof. induction l as [|x l IH]; cbn; [done|]. by rewrite map_app, concat_app, IH. Qed.

Definition all_readable (l : list (pystr * element)) : bool := forallb (λ te, readable te.2) l.
Definition all_lines (l : list (pystr * element)) : list pystr := concat (map test_lines l).

Lemma writes_node e test_type :
  writes (node_to_text e test_type) (all_readable (preorder test_type e))
    (all_lines (preorder test_type e)).
Proof.
  revert test_type. induction e as [t a x cs IH] using element_induction. intros test_type.
  rewrite node_to_text_eq, preorder_eq. set (e := Element t a x cs). unfold all_readable, all_lines.
  cbn [map concat forallb fst snd]. unfold test_lines at 1. cbn [fst snd]. rewrite forallb_concat, concat_map_concat.
  apply writes_lift. destruct (readable_cases e) as [[-> ->]|[-> ->]]; [|done].
  rewrite <-app_comm_cons.
  apply (writes_bind _ _ true _ [_]); [apply writes_write|].
  apply writes_bind; [apply writes_for; intros; apply writes_details|].
  apply writes_for. intros c Hc. rewrite Forall_forall in IH. unfold child_to_text, child_preorder.
  destruct (has_tag (str "Test") c); [by apply IH|apply writes_ret].
Qed.

Lemma writes_example e :
  writes (example_to_text e) (readable_example e) [example_line e].
Proof.
  apply writes_lift. unfold readable_example.
  destruct (find_text_cases (str "Result") e) as [[-> ->]|[-> ->]]; [|done]. apply writes_lift.
  destruct (find_text_cases (str "Name") e) as [[-> ->]|[-> ->]]; [|done]. apply writes_write.
Qed.

(** The text report has one line for every test of the tree, suites and
    nested cases in document order, each followed by the lines of its failures,
    and then one line for every example.  If an element that is asked for is
    missing, a prefix of that is written and [AttributeError] is raised; nothing
    else is ever raised. *)
Theorem text_report_correct et :
  let tests := concat (map (preorder (str "Suite")) (findall (str "Test") et)) in
  let examples := findall (str "Example") et in
  let lines := all_lines tests ++ map example_line examples in
  if all_readable tests && forallb readable_example examples
  then text_report et [] = (Ok tt, lines)
  else ∃ ws, text_report et [] = (Raise AttributeError, ws) ∧ ws `prefix_of` lines.
Proof.
  cbn zeta. unfold all_readable, all_lines. rewrite forallb_concat, concat_map_concat.
  rewrite <-(concat_singletons example_line). apply (λ H : writes _ _ _, H []).
  apply writes_bind; apply writes_for; intros x _; [apply writes_node|apply writes_example].
Qed.

(** ** The tags of an HTML text

    A scanner that keeps the stack of open elements: outside a tag, inside one
    (with the characters read so far), or stopped at a closing tag that does not
    match the element it is in. *)
Inductive scanner : Type :=
  | Outside (open : list pystr)
  | Inside (read : pystr) (open : list pystr)
  | Mismatch.

(** The end of a tag: [/name] closes, [name attributes] opens. *)
Definition end_tag (read : pystr) (open : list pystr) : scanner :=
  match rev read with
  | c :: name =>
      if decide (c = "/"%char) then
        match open with
        | n :: open => if decide (n = name) then Outside open else Mismatch
        | [] => Mismatch
        end
      else Outside (match split_once " " (c :: name) with Some (n, _) => n | None => c :: name end :: open)
  | [] => Mismatch
  end.

Definition scan (s : scanner) (c : ascii) : scanner :=
  match s with
  | Outside open => if decide (c = "<"%char) then Inside [] open else s
  | Inside read open => if decide (c = ">"%char) then end_tag read open else Inside (c :: read) open
  | Mismatch => Mismatch
  end.
Definition scan_text (s : scanner) (text : pystr) : scanner := fold_left scan text s.

(** Every tag is closed, in the order of nesting. *)
Definition balanced (text : pystr) : bool :=
  match scan_text (Outside []) text with Outside [] => true | _ => false end.

(** No text or attribute of the tree holds a tag of its own. *)
Definition plain (s : pystr) : bool := bool_decide ("<"%char ∉ s).
Fixpoint clean (e : element) : bool :=
  let 'Element _ a x cs := e in
  forallb (λ kv, plain kv.2) a && plain (show x)
  && (fix go (cs : list element) : bool := match cs with [] => true | c :: cs => clean c && go cs end) cs.

(** The trees whose report is balanced. *)
Definition case_balanced (case : element) : bool :=
  negb (is_text (str "FAIL") (t_result (info_of case)))
  || bool_decide (findall (str "FailureDetails") case = []).
Definition suite_balanced (suite : element) : bool :=
  no_cases (info_of suite) || forallb case_balanced (findall (str "Test") suite).
Definition example_balanced (example : element) : bool :=
  negb (is_text (str "SKIP") (t_result (info_of example))).

Lemma scan_app s a b : scan_text s (a ++ b) = scan_text (scan_text s a) b.
Proof. apply fold_left_app. Qed.

Lemma scan_mismatch a : scan_text Mismatch a = Mismatch.
Proof. by induction a. Qed.

Lemma scan_plain open a : plain a = true → scan_text (Outside open) a = Outside open.
Proof.
  unfold plain. rewrite bool_decide_eq_true. induction a as [|c a IH]; [done|].
  intros [Hc Ha]%not_elem_of_cons. cbn. rewrite decide_False by auto. by apply IH.
Qed.

Lemma plain_app a b : plain (a ++ b) = plain a && plain b.
Proof.
  unfold plain. apply Bool.eq_iff_eq_true. rewrite andb_true_iff, !bool_decide_eq_true.
  rewrite not_elem_of_app. done.
Qed.

(** [scans m s s']: when [m] succeeds, what it writes takes the scanner from [s]
    to [s']. *)
Definition scans {A} (m : writer A) (s s' : scanner) : Prop :=
  ∀ ws a ws', m ws = (Ok a, ws') → ∃ new, ws' = ws ++ new ∧ scan_text s (concat new) = s'.

Lemma html_ret {A} (a : A) s : scans (mret a) s s.
Proof. intros ws b ws' [= -> <-]. exists []. by rewrite app_nil_r. Qed.

Lemma html_write t s s' : scan_text s t = s' → scans (write t) s s'.
Proof.
  intros Ht ws [] ws' [= <-]. exists [t]. cbn. by rewrite app_nil_r.
Qed.

Lemma html_bind {A B} (m : writer A) (f : A → writer B) s s1 s' :
  scans m s s1 → (∀ a, scans (f a) s1 s') → scans (m ≫= f) s s'.
Proof.
  intros Hm Hf ws b ws' (a & ws1 & H1 & H2)%stm_bind_ok.
  apply Hm in H1 as (n1 & -> & <-). apply Hf in H2 as (n2 & -> & <-).
  exists (n1 ++ n2). by rewrite app_assoc, concat_app, scan_app.
Qed.

Lemma html_lift {A B} (r : res exn A) (f : A → writer B) s s' :
  (∀ a, r = Ok a → scans (f a) s s') → scans (st_lift r ≫= f) s s'.
Proof.
  intros Hf ws b ws' (a & ws1 & [= -> ->] & H2)%stm_bind_ok. by eapply Hf.
Qed.

(** After a mismatch nothing is balanced again. *)
Lemma html_mismatch {A} (m : writer A) s s' : scans m s s' → scans m Mismatch Mismatch.
Proof.
  intros Hm ws a ws' H. apply Hm in H as (n & -> & _). exists n. split; [done|apply scan_mismatch].
Qed.

Lemma html_for {A} (f : A → writer unit) (ok : A → bool) open l :
  (∀ x, x ∈ l → scans (f x) (Outside open) (if ok x then Outside open else Mismatch)) →
  scans (st_for f l) (Outside open) (if forallb ok l then Outside open else Mismatch).
Proof.
  intros Hf. induction l as [|x l IH]; [apply html_ret|]. cbn [st_for forallb].
  assert (scans (st_for f l) (Outside open) (if forallb ok l then Outside open else Mismatch)) as Hl.
  { apply IH. intros y Hy. apply Hf. by right. }
  eapply html_bind; [apply Hf; left|]. intros _. destruct (ok x); [done|].
  by eapply html_mismatch.
Qed.

(** The texts of a clean tree. *)
Lemma clean_eq e :
  clean e = forallb (λ kv, plain kv.2) (attrib e) && plain (show (etext e))
            && forallb clean (children e).
Proof. by destruct e. Qed.

Lemma clean_text e : clean e = true → plain (show (etext e)) = true.
Proof. rewrite clean_eq, !andb_true_iff. tauto. Qed.

Lemma clean_findall t e c : clean e = true → c ∈ findall t e → clean c = true.
Proof.
  rewrite clean_eq, !andb_true_iff. intros [_ Hc] Hin. rewrite forallb_forall in Hc. apply Hc.
  by apply list_elem_of_In, filter_In in Hin as [? _].
Qed.

Lemma clean_find t e c : clean e = true → find_elem t e = Some c → clean c = true.
Proof.
  intros He Hf. apply (clean_findall t e); [done|]. unfold find_elem in Hf.
  destruct (findall t e); simplify_eq/=. by left.
Qed.

Lemma clean_attrib k e : clean e = true → plain (show (get_attrib k e)) = true.
Proof.
  rewrite clean_eq, !andb_true_iff. intros [[Ha _] _]. unfold get_attrib.
  destruct (List.find _ (attrib e)) as [kv|] eqn:Hf; [|reflexivity]. apply find_some in Hf as [Hin _].
  rewrite forallb_forall in Ha. by apply Ha.
Qed.

Lemma clean_find_text t e x : clean e = true → find_text t e = Ok x → plain (show x) = true.
Proof.
  unfold find_text. intros He Hx. res_inv. apply clean_text. by eapply clean_find.
Qed.

Definition plain_info (i : test_info) : Prop :=
  plain (show (t_result i)) = true ∧ plain (show (t_name i)) = true
  ∧ plain (show (t_reason i)) = true ∧ plain (show (t_time i)) = true.

Lemma clean_read e i : clean e = true → read_test e = Ok i → plain_info i ∧ info_of e = i.
Proof.
  intros He Hr. split; [|unfold info_of; by rewrite Hr].
  unfold read_test in Hr. res_inv. unfold plain_info. cbn [t_result t_name t_reason t_time].
  split_and!; [by eapply clean_find_text..| |].
  - case_match; [|reflexivity]. eapply clean_text, clean_find; eauto.
  - case_match; [|reflexivity]. eapply clean_attrib, clean_find; eauto.
Qed.

(** Running the scanner over a text made of literals and plain texts. *)
Ltac scan_by s x :=
  let r := eval vm_compute in (scan_text s x) in change (scan_text s x) with r.
Ltac scan_literal :=
  match goal with
  | |- context [scan_text (Outside ?o) (str ?x)] => scan_by (Outside o) (str x)
  | |- context [scan_text (Inside ?r ?o) (str ?x)] => scan_by (Inside r o) (str x)
  | |- context [scan_text (Outside ?o) [?c]] => scan_by (Outside o) [c]
  | |- context [scan_text (Inside ?r ?o) [?c]] => scan_by (Inside r o) [c]
  | |- context [scan_text Mismatch ?x] => rewrite (scan_mismatch x)
  end.
Ltac scan_all :=
  unfold styled, cell, suite_title, quoted;
  repeat first [rewrite scan_app|rewrite scan_plain by assumption|scan_literal]; reflexivity.
Ltac html_next := eapply html_bind; [apply html_write; scan_all|intros _].

(** The six fields leave the scanner where it is. *)
Lemma html_fields_plain d open :
  clean d = true →
  scans (st_for (λ ls, html_field ls.1 ls.1 ls.2 d) html_fields) (Outside open) (Outside open).
Proof.
  intros Hd. unfold html_fields, html_field. cbn [st_for fst snd].
  repeat (eapply html_bind;
    [apply html_lift; intros ? Hx; apply (clean_find_text _ _ _ Hd) in Hx;
     apply html_write; scan_all|intros _]).
  apply html_ret.
Qed.

(** A failure's row is opened as [<tr>] and closed as [</td>]. *)
Lemma html_details_mismatch i first_row d open :
  plain_info i → clean d = true →
  scans (html_details i first_row d) (Outside open) Mismatch.
Proof.
  intros (? & ? & ? & ?) Hd. unfold html_details, write_line. html_next.
  eapply (html_bind _ _ _ (Outside (str "tr" :: open))).
  { destruct first_row; repeat html_next; apply html_write; scan_all. }
  intros _. html_next. eapply html_bind; [by apply html_fields_plain|]. intros _.
  html_next. html_next. apply html_ret.
Qed.

Lemma html_more_details i b ds :
  plain_info i → Forall (λ d, clean d = true) ds →
  scans (st_fold (html_details i) b ds) Mismatch Mismatch.
Proof.
  intros Hi Hds. revert b. induction Hds as [|d ds Hd _ IH]; intros b; [apply html_ret|].
  eapply html_bind; [|exact IH]. by eapply html_mismatch, (html_details_mismatch i b d []).
Qed.

Lemma html_case_effect case open :
  clean case = true →
  scans (html_case case) (Outside open) (if case_balanced case then Outside open else Mismatch).
Proof.
  intros Hc. apply html_lift. intros i Hi. destruct (clean_read _ _ Hc Hi) as [Hp Hio].
  unfold case_balanced. rewrite Hio. destruct (is_text (str "FAIL") (t_result i)); cbn [negb orb].
  - destruct (findall (str "FailureDetails") case) as [|d ds] eqn:Hds.
    + rewrite bool_decide_true by done. eapply html_bind; [apply html_ret|]. intros _. apply html_ret.
    + rewrite bool_decide_false by done. eapply html_bind; [|intros _; apply html_ret].
      assert (Forall (λ d, clean d = true) (d :: ds)) as Hcl.
      { rewrite <-Hds. apply Forall_forall. intros x. by apply clean_findall. }
      apply Forall_cons in Hcl as [Hd Hcl]. cbn [st_fold].
      eapply html_bind; [by apply html_details_mismatch|]. intros b. by apply html_more_details.
  - destruct Hp as (? & ? & ? & ?). unfold write_line. repeat html_next. apply html_write. scan_all.
Qed.

Lemma html_suite_effect suite open :
  clean suite = true →
  scans (html_suite suite) (Outside open) (if suite_balanced suite then Outside open else Mismatch).
Proof.
  intros Hc. apply html_lift. intros i Hi. destruct (clean_read _ _ Hc Hi) as [Hp Hio].
  unfold suite_balanced. rewrite Hio. destruct Hp as (? & ? & ? & ?). unfold write_line.
  eapply (html_bind _ _ _ (Outside open)).
  { destruct (is_text (str "PASS") (t_result i)), (is_text (str "SKIP") (t_result i));
      apply html_write; scan_all. }
  intros _. html_next. html_next. destruct (no_cases i); cbn [orb].
  - html_next. eapply (html_bind _ _ _ (Outside (str "tr" :: str "table" :: open))).
    { destruct (is_text (str "SKIP") (t_result i)); apply html_write; scan_all. }
    intros _. html_next. apply html_write. scan_all.
  - html_next. html_next. eapply (html_bind _ _ _ (Outside (str "table" :: open))).
    { destruct (is_text (str "FAIL") (t_result i)); [apply html_write; scan_all|apply html_ret]. }
    intros _. eapply html_bind.
    { apply html_for. intros c Hin. apply html_case_effect. by eapply clean_findall. }
    intros _. apply html_write. destruct (forallb _ _); [scan_all|apply scan_mismatch].
Qed.

Lemma html_example_effect e open :
  clean e = true →
  scans (html_example e) (Outside open) (if example_balanced e then Outside open else Mismatch).
Proof.
  intros Hc. unfold html_example, write_line. html_next. apply html_lift. intros i Hi.
  destruct (clean_read _ _ Hc Hi) as [(? & ? & ? & ?) Hio]. unfold example_balanced. rewrite Hio.
  eapply (html_bind _ _ _ (if negb (is_text (str "SKIP") (t_result i))
                           then Outside (str "tr" :: open) else Mismatch)).
  { unfold is_text. destruct (decide (t_result i = Some (str "PASS"))) as [Hr|Hr].
    - rewrite Hr. rewrite bool_decide_true by done. rewrite bool_decide_false by done.
      apply html_write. scan_all.
    - rewrite bool_decide_false by done.
      destruct (bool_decide (t_result i = Some (str "SKIP"))); apply html_write; scan_all. }
  intros _. destruct (negb _).
  - repeat html_next. apply html_write. scan_all.
  - repeat (eapply html_bind; [apply html_write; apply scan_mismatch|intros _]).
    apply html_write, scan_mismatch.
Qed.

(** The trees whose report is balanced: no failing case with details in a suite
    whose cases are shown, and no skipped example. *)
Definition report_balanced (et : element) : bool :=
  forallb suite_balanced (findall (str "Test") et)
  && forallb example_balanced (findall (str "Example") et).

(** If no text of the results holds a tag and the HTML report is written to
    its end, every tag of it is closed in order exactly when no test case with
    failure details is reported and no example was skipped: the rows of the
    former end with [</td>] instead of [</tr>], and the cells of the latter
    with [</fd>]. *)
Theorem html_report_balanced et ws :
  clean et = true → html_report (Ok et) [] = (Ok tt, ws) →
  balanced (concat ws) = report_balanced et.
Proof.
  intros Hc Hr.
  assert (scans (html_report (Ok et)) (Outside [])
            (if report_balanced et then Outside [] else Mismatch)) as Hh.
  { unfold html_report, write_line. do 3 html_next. apply html_lift. intros ? [= <-].
    html_next. eapply html_bind.
    { apply html_for. intros x Hx. apply html_suite_effect. by eapply clean_findall. }
    intros _. unfold report_balanced. destruct (forallb suite_balanced _); cbn [andb].
    - do 6 html_next. eapply html_bind.
      { apply html_for. intros x Hx. apply html_example_effect. by eapply clean_findall. }
      intros _. destruct (forallb example_balanced _).
      + do 2 html_next. apply html_write. scan_all.
      + repeat (eapply html_bind; [apply html_write; apply scan_mismatch|intros _]).
        apply html_write, scan_mismatch.
    - repeat (eapply html_bind; [apply html_write; apply scan_mismatch|intros _]).
      eapply html_bind.
      { apply (html_mismatch _ (Outside [])
          (if forallb example_balanced (findall (str "Example") et) then Outside [] else Mismatch)).
        apply html_for. intros x Hx. apply html_example_effect. by eapply clean_findall. }
      intros _. repeat (eapply html_bind; [apply html_write; apply scan_mismatch|intros _]).
      apply html_write, scan_mismatch. }
  apply Hh in Hr as (new & -> & Hs). unfold balanced. cbn [app]. rewrite Hs.
  by destruct (report_balanced et).
Qed.

(** ** Sample results *)

Definition leaf (t body : pystr) : element := Element t [] (Some body) [].
Definition sample_test (t result name : pystr) (more : list element) : element :=
  Element t [] (Some [newline])
    ([leaf (str "Name") name; leaf (str "Result") result;
      Element (str "Time") [(str "real", str "0.010")] None []] ++ more).
Definition sample_details : element :=
  Element (str "FailureDetails") [] None
    (map (λ lf, leaf lf.2 (str "x")) text_fields).
Definition results (tests : list element) : element :=
  Element (str "Results") [] None tests.

Definition passing : element :=
  results [sample_test (str "Test") (str "PASS") (str "suite")
             [sample_test (str "Test") (str "PASS") (str "case") []];
           sample_test (str "Test") (str "CRASH") (str "other") [];
           sample_test (str "Example") (str "FAIL") (str "udp") []].
Definition failing : element :=
  results [sample_test (str "Test") (str "FAIL") (str "suite")
             [sample_test (str "Test") (str "FAIL") (str "case") [sample_details]]].
Definition skipping : element := results [sample_test (str "Example") (str "SKIP") (str "udp") []].

Lemma html_report_balanced_witness :
  balanced (concat (html_report (Ok passing) []).2) = true
  ∧ balanced (concat (html_report (Ok failing) []).2) = false
  ∧ balanced (concat (html_report (Ok skipping) []).2) = false.
Proof.
  split_and!.
  - rewrite (html_report_balanced passing); vm_compute; reflexivity.
  - rewrite (html_report_balanced failing); vm_compute; reflexivity.
  - rewrite (html_report_balanced skipping); vm_compute; reflexivity.
Defined.

Example failing_text :
  (text_report failing []).2
  = [str "FAIL: Test Suite " ++ quoted (str "suite") ++ str " (0.010)" ++ [newline];
     str "FAIL: Test Case " ++ quoted (str "case") ++ str " (0.010)" ++ [newline];
     str "    Details:" ++ [newline]]
    ++ map (λ lf, str "      " ++ lf.1 ++ str "x" ++ [newline]) text_fields.
Proof. by vm_compute. Qed.
