(* ===== verification/Runner.v ===== *)
(** * [test.py]: [run_tests]

    The main thread: the build, the environment of the tests, the choice of what
    to run, the jobs, and the collection of the results once the workers of
    [Workers] have given them back, up to the exit status.

    The world is the files, the terminal and [os.environ].  Directories are not
    modelled: a path exists when a file has it.  External programs are the
    parameter [run], which gives a process for a command and a directory; the
    clock, the platform and the number of processors are a [host]. *)
From Stdlib Require Import Ascii QArith.
From stdpp Require Import gmap countable.
From S2P Require Export Dict ExamplesFile Report.
Open Scope Z_scope.

Record host := MkHost {
  platform : pystr; executable : pystr; getcwd : pystr; date_and_time : pystr;
  online : option Z }.

Definition core_kinds : list pystr := [str "core"; str "performance"; str "system"; str "unit"].
Definition core_valgrind_skip_tests : list pystr :=
  [str "routing-click"; str "lte-rr-ff-mac-scheduler"; str "lte-tdmt-ff-mac-scheduler";
   str "lte-fdmt-ff-mac-scheduler"; str "lte-pf-ff-mac-scheduler";
   str "lte-tta-ff-mac-scheduler"; str "lte-fdbet-ff-mac-scheduler";
   str "lte-ttbet-ff-mac-scheduler"; str "lte-fdtbfq-ff-mac-scheduler";
   str "lte-tdtbfq-ff-mac-scheduler"; str "lte-pss-ff-mac-scheduler"].

Definition truthy (s : pystr) : bool := negb (bool_decide (s = [])).

(** ** The build and the environment *)

Definition test_runner_name (cfg : config) : pystr := program_name cfg (str "test-runner").

Definition build_cmd (opt : options) (h : host) : pystr :=
  let cmd :=
    if kinds opt || list_tests opt
       || (truthy (constrain opt) && bool_decide (constrain opt ∈ core_kinds))
    then str "./ns3 build test-runner"
    else if truthy (example opt) then str "./ns3 build " ++ basename (example opt)
    else str "./ns3" in
  if bool_decide (platform h = str "win32") then executable h ++ str " " ++ cmd else cmd.

(** [os.environ[key] += s], for a key that is set. *)
Definition env_append (key s : pystr) (env : gmap pystr pystr) : gmap pystr pystr :=
  <[key := default [] (env !! key) ++ s]> env.
(** [if not have_key: os.environ[key] = ''], then [sep + path] for every path. *)
Definition env_paths (key sep : pystr) (paths : list pystr) (have_key : bool)
    (env : gmap pystr pystr) : gmap pystr pystr :=
  fold_left (λ env path, env_append key (sep ++ path) env) paths
    (if have_key then env else <[key := []]> env).

Definition make_paths (cfg : config) (h : host) (env : gmap pystr pystr) : gmap pystr pystr :=
  let have (key : pystr) := bool_decide (is_Some (env !! key)) in
  let have_DYLD_LIBRARY_PATH := have (str "DYLD_LIBRARY_PATH") in
  let have_LD_LIBRARY_PATH := have (str "LD_LIBRARY_PATH") in
  let have_PATH := have (str "PATH") in
  let have_PYTHONPATH := have (str "PYTHONPATH") in
  let pypath := path_join (path_join (NS3_BUILDDIR cfg) (str "bindings")) (str "python") in
  let env := <[str "PYTHONPATH" := pypath]> env in
  let env := if have_PYTHONPATH then env_append (str "PYTHONPATH") (str ":" ++ pypath) env
             else <[str "PYTHONPATH" := pypath]> env in
  let paths := NS3_MODULE_PATH cfg in
  if bool_decide (platform h = str "darwin") then
    env_paths (str "DYLD_LIBRARY_PATH") (str ":") paths have_DYLD_LIBRARY_PATH env
  else if bool_decide (platform h = str "win32") then
    env_paths (str "PATH") (str ";") paths have_PATH env
  else if bool_decide (platform h = str "cygwin") then
    env_paths (str "PATH") (str ":") paths have_PATH env
  else env_paths (str "LD_LIBRARY_PATH") (str ":") paths have_LD_LIBRARY_PATH env.

(** The variable that [make_paths] prints when verbose. *)
Definition library_path_name (h : host) : pystr :=
  if bool_decide (platform h = str "darwin") then str "DYLD_LIBRARY_PATH"
  else if bool_decide (platform h = str "win32") || bool_decide (platform h = str "cygwin")
       then str "PATH" else str "LD_LIBRARY_PATH".

Definition show_env (key : pystr) : stm world unit :=
  w ← st_get;
  print (str "os.environ[" ++ quoted key ++ str "] == " ++ default [] (environ w !! key)).

Definition set_environ (f : gmap pystr pystr → gmap pystr pystr) : stm world unit :=
  st_modify (λ w, MkWorld (files w) (stdout w) (stderr w) (f (environ w))).

Definition setup_paths (opt : options) (cfg : config) (h : host) : stm world unit :=
  _ ← set_environ (make_paths cfg h);
  _ ← st_when (verbose opt) (show_env (str "PYTHONPATH"));
  st_when (verbose opt) (show_env (library_path_name h)).

(** ** What can be run *)

(** [ns3_runnable_programs_dictionary]: the path of a program by its name. *)
Definition programs_dictionary (programs : list pystr) : PyDict pystr pystr :=
  fold_left (λ d program, dset (basename program) program d) programs dempty.

(** The three loops over the example directories, the modules and the
    contributed modules; a module is named [ns3-module]. *)
Definition parse_directory (fs : filesystem) (eval : pystr → res exn (list (list pystr)))
    (cfg : config) (h : host) (example_directory examples_to_run_path : pystr)
    (ex : examples) : res exn examples :=
  parse_examples_to_run_file fs eval cfg (getcwd h) examples_to_run_path
    (path_join (NS3_BUILDDIR cfg) example_directory) example_directory ex.

Definition parse_example_directory fs eval cfg h (ex : examples) (directory : pystr) :=
  let example_directory := path_join (str "examples") directory in
  parse_directory fs eval cfg h example_directory
    (path_join example_directory (str "examples-to-run.py")) ex.

Definition parse_module fs eval cfg h (top : pystr) (ex : examples) (module : pystr) :=
  let module_directory := path_join top (drop 4 module) in
  parse_directory fs eval cfg h (path_join module_directory (str "examples"))
    (path_join (path_join module_directory (str "test")) (str "examples-to-run.py")) ex.

Definition find_examples fs eval cfg h : res exn examples :=
  ex ← fold_res (parse_example_directory fs eval cfg h) (MkExamples [] [] [])
         (EXAMPLE_DIRECTORIES cfg);
  ex ← fold_res (parse_module fs eval cfg h (str "src")) ex (NS3_ENABLED_MODULES cfg);
  fold_res (parse_module fs eval cfg h (str "contrib")) ex (NS3_ENABLED_CONTRIBUTED_MODULES cfg).

(** [l.remove(x)] if [x in l]: the first occurrence goes. *)
Fixpoint remove_first (x : pystr) (l : list pystr) : list pystr :=
  match l with
  | [] => []
  | y :: l => if decide (y = x) then l else y :: remove_first x l
  end.
Definition remove_performance (performance_test_list suite_list : list pystr) : list pystr :=
  fold_left (λ l performance_test, remove_first performance_test l) performance_test_list suite_list.

(** ** The jobs *)

Definition suite_job (opt : options) (cfg : config) (h : host) (testpy_output_dir test : pystr) :
    Job :=
  let job := set_is_pyexample false (set_is_example false new_Job) in
  let job := set_display_name test job in
  let job := set_tmp_file_name (path_join testpy_output_dir (test ++ str ".xml")) job in
  let job := set_cwd (getcwd h) job in
  let job := set_basedir (getcwd h) job in
  let job := set_tempdir testpy_output_dir job in
  let multiple := if multiple opt then [] else str " --stop-on-failure" in
  let fullness := if truthy (fullness opt) then str " --fullness=" ++ upper (fullness opt)
                  else str " --fullness=QUICK" in
  let path_cmd := path_join (str "utils")
                    (test_runner_name cfg ++ str " --test-name=" ++ test ++ multiple ++ fullness) in
  let job := set_shell_command path_cmd job in
  if valgrind opt && bool_decide (test ∈ core_valgrind_skip_tests)
  then set_skip_reason (str "crashes valgrind") (set_is_skip true job)
  else job.

Definition example_job (opt : options) (h : host) (testpy_output_dir name test : pystr) : Job :=
  let job := set_is_pyexample false (set_is_example true new_Job) in
  let job := set_tmp_file_name [] (set_display_name name job) in
  let job := set_basedir (getcwd h) (set_cwd testpy_output_dir job) in
  let job := set_shell_command test (set_tempdir testpy_output_dir job) in
  set_build_path (buildpath opt) job.

Definition pyexample_job (h : host) (testpy_output_dir test : pystr) : Job :=
  let job := set_is_pyexample true (set_is_example false new_Job) in
  let job := set_tmp_file_name [] (set_display_name test job) in
  let job := set_basedir (getcwd h) (set_cwd testpy_output_dir job) in
  let job := set_shell_command test (set_tempdir testpy_output_dir job) in
  set_build_path [] job.

(** ** Dispatch: the jobs in the order in which they are queued *)

Definition queue_job (opt : options) (name : pystr) (job : Job) : stm world (list Job) :=
  _ ← st_when (verbose opt) (print (str "Queue " ++ name));
  mret [job].

Definition st_concat_map {S A B} (f : A → stm S (list B)) (l : list A) : stm S (list B) :=
  ls ← st_map f l; mret (concat ls).

Definition dispatch_suite (opt : options) (cfg : config) (h : host) (dir test : pystr) :
    stm world (list Job) :=
  let test := strip test in
  if truthy test then queue_job opt test (suite_job opt cfg h dir test) else mret [].

(** Nothing was asked for by name. *)
Definition no_selection (opt : options) : bool :=
  negb (truthy (suite opt)) && negb (truthy (example opt)) && negb (truthy (pyexample opt)).
Definition kind_selected (opt : options) (kind : pystr) : bool :=
  negb (truthy (constrain opt)) || bool_decide (constrain opt = kind).

Section dispatch.
(** [eval] of the conditions of the examples. *)
Context (eval_cond : pystr → res exn bool).
Context (opt : options) (cfg : config) (h : host) (dir : pystr).

Definition dispatch_example (programs : PyDict pystr pystr) (e : cpp_example) :
    stm world (list Job) :=
  let test_name := basename (without_args (cpp_path e)) in
  if dhas test_name programs then
    do_run ← st_lift (eval_cond (cpp_do_run e));
    if do_run : bool then
      let job := example_job opt h dir (cpp_name e) (cpp_path e) in
      do_valgrind_run ← (if valgrind opt then st_lift (eval_cond (cpp_do_valgrind_run e))
                         else mret true);
      let job := if do_valgrind_run : bool then job
                 else set_skip_reason (str "skip in valgrind runs") (set_is_skip true job) in
      queue_job opt (cpp_path e) job
    else mret []
  else mret [].

Definition dispatch_named_example (programs : PyDict pystr pystr) (example_name_iter : pystr) :
    stm world (list Job) :=
  example_path ← st_lift (dlookup example_name_iter programs);
  let example_path := abspath (getcwd h) example_path in
  queue_job opt example_name_iter (example_job opt h dir example_path example_path).

Definition dispatch_examples (programs : PyDict pystr pystr) (ex : examples) :
    stm world (list Job) :=
  if no_selection opt then
    if kind_selected opt (str "example") && ENABLE_EXAMPLES cfg
    then st_concat_map (dispatch_example programs) (example_tests ex)
    else mret []
  else if truthy (example opt) then
    match fnmatch_filter (dkeys programs) (program_name cfg (example opt)) with
    | [] =>
        _ ← print (str "No example matching the name " ++ example opt);
        mret []
    | names => st_concat_map (dispatch_named_example programs) names
    end
  else mret [].

Definition dispatch_pyexample (scripts : list pystr) (test : pystr * pystr) :
    stm world (list Job) :=
  let test_name := basename (without_args test.1) in
  if bool_decide (test_name ∈ scripts) then
    do_run ← st_lift (eval_cond test.2);
    if do_run : bool then
      let job := pyexample_job h dir test.1 in
      let job := if valgrind opt
                 then set_skip_reason (str "skip in valgrind runs") (set_is_skip true job)
                 else job in
      let job := if ENABLE_PYTHON_BINDINGS cfg then job
                 else set_skip_reason (str "requires Python bindings") (set_is_skip true job) in
      queue_job opt test.1 job
    else mret []
  else mret [].

Definition dispatch_pyexamples (scripts : list pystr) (ex : examples) : stm world (list Job) :=
  if no_selection opt then
    if kind_selected opt (str "pyexample") && ENABLE_EXAMPLES cfg
    then st_concat_map (dispatch_pyexample scripts) (python_tests ex)
    else mret []
  else if truthy (pyexample opt) then
    let example_name := basename (pyexample opt) in
    if bool_decide (example_name ∈ scripts) then
      queue_job opt (pyexample opt) (pyexample_job h dir (pyexample opt))
    else
      _ ← print (str "Example " ++ example_name ++ str " is not runnable.");
      mret []
  else mret [].

(** The three dispatching loops of [run_tests]. *)
Definition dispatch_jobs (suite_list : list pystr) (programs : PyDict pystr pystr)
    (scripts : list pystr) (ex : examples) : stm world (list Job) :=
  suites ← st_concat_map (dispatch_suite opt cfg h dir) suite_list;
  examples ← dispatch_examples programs ex;
  pyexamples ← dispatch_pyexamples scripts ex;
  mret (suites ++ examples ++ pyexamples).
End dispatch.

(** ** Before the workers start *)

(** What is left to do after the choice of the tests. *)
Record plan := MkPlan {
  plan_jobs : list Job; plan_processors : Z; plan_dir : pystr; plan_xml : pystr }.

Section prepare.
Context (run : pystr → pystr → res exn process).
Context (eval_list : pystr → res exn (list (list pystr)))
        (eval_names : pystr → res exn (list pystr)) (eval_cond : pystr → res exn bool).
Context (opt : options) (cfg : config) (h : host).

(** [run_job_synchronously] in the main thread: return code and standard
    output. *)
Definition run_sync (shell_command : pystr) : stm world (Z * pystr) :=
  cmd ← st_lift (job_command cfg shell_command false false []);
  p ← st_lift (run cmd (getcwd h));
  let '(rc, out, _, _, ps) := job_result opt cmd p in
  _ ← st_for print_end ps;
  mret (rc, out).

Definition runner_cmd (arguments : pystr) : pystr :=
  path_join (str "utils") (test_runner_name cfg ++ arguments).

(** The names of the suites to run, and whether one was asked for. *)
Definition choose_suites : stm world (pystr * bool) :=
  if truthy (suite opt) then
    '(_, suites) ← run_sync (runner_cmd (str " --print-test-name-list"));
    match fnmatch_filter (split_char newline suites) (suite opt) with
    | [] =>
        _ ← print_err (str "The test suite was not run because an unknown test suite name was requested.");
        st_raise (SystemExit 2)
    | [s] => mret (s, true)
    | suites_found => mret (join [newline] suites_found, false)
    end
  else if negb (truthy (example opt)) && negb (truthy (pyexample opt)) then
    '(_, suites) ← run_sync
      (if truthy (constrain opt)
       then runner_cmd (str " --print-test-name-list --test-type=" ++ constrain opt)
       else runner_cmd (str " --print-test-name-list"));
    mret (suites, false)
  else mret ([], false).

Definition choose_suite_list : stm world (list pystr) :=
  '(suites, single_suite) ← choose_suites;
  let suite_list := split_char newline suites in
  if negb single_suite && negb (bool_decide (constrain opt = str "performance")) then
    '(_, performance_tests) ← run_sync
      (runner_cmd (str " --print-test-name-list --test-type=performance"));
    mret (remove_performance (split_char newline performance_tests) suite_list)
  else mret suite_list.

(** The number of threads; [range] of a negative number is empty. *)
Definition count_processors : stm world Z :=
  n ← (if bool_decide (platform h = str "win32") then mret 1
       else match online h with
            | Some n => mret n
            | None =>
                p ← st_lift (run (str "sysctl -n hw.ncpu") (getcwd h));
                out ← st_lift (res_of_option ValueError (decode (p_stdout p)));
                err ← st_lift (res_of_option ValueError (decode (p_stderr p)));
                if truthy err then mret 1 else st_lift (py_int 10 out)
            end);
  if process_limit opt =? 0 then mret n
  else if n <? process_limit opt then
    _ ← print (str "Using all " ++ str_of_Z n ++ str " processors"); mret n
  else
    _ ← print (str "Limiting to " ++ str_of_Z (process_limit opt) ++ str " worker processes");
    mret (process_limit opt).

(** The [--kinds] and [--list] options: print and return. *)
Definition print_kinds : stm world unit :=
  '(_, out) ← run_sync (runner_cmd (str " --print-test-type-list")); print out.

Definition print_list (names : list pystr) : stm world unit :=
  '(rc, out) ← run_sync (runner_cmd
    (str " --print-test-name-list --print-test-types"
       ++ (if truthy (constrain opt) then str " --test-type=" ++ constrain opt else [])));
  if rc =? 0 then
    _ ← print (str "Test Type    Test Name");
    _ ← print (str "---------    ---------");
    _ ← st_for (λ item, st_when (truthy (strip item)) (print item))
          (py_sort (split_char newline out));
    _ ← st_for (λ item, print (str "example      " ++ item)) (py_sort names);
    print []
  else
    _ ← print (str "test.py error:  test-runner return code returned " ++ str_of_Z rc);
    print (str "To debug, try running './ns3 run " ++ quoted (str "test-runner --print-test-name-list")
             ++ str "'" ++ [newline]).

Definition TMP_OUTPUT_DIR : pystr := str "testpy-output".
Definition testpy_output_dir : pystr := path_join TMP_OUTPUT_DIR (date_and_time h).
Definition lock_filename : pystr := str ".lock-ns3_" ++ platform h ++ str "_build".

(** The build: the return code that ends the run, if it failed. *)
Definition build : stm world (option Z) :=
  if no_build opt then mret None
  else
    _ ← st_when (verbose opt) (print (str "Building: " ++ build_cmd opt h));
    p ← st_lift (run (build_cmd opt h) (getcwd h));
    if p_returncode p =? 0 then mret None
    else
      _ ← print_err (str "ns3 died. Not running tests");
      mret (Some (p_returncode p)).

(** The programs and scripts of the build status file. *)
Definition read_lock_file : stm world (list pystr * list pystr) :=
  w ← st_get;
  let fs : filesystem := λ p, files w !! p in
  if path_exists fs lock_filename then
    programs ← st_lift (get_list_from_file fs eval_names [] lock_filename (str "ns3_runnable_programs"));
    scripts ← st_lift (get_list_from_file fs eval_names [] lock_filename (str "ns3_runnable_scripts"));
    mret (programs, map basename scripts)
  else
    _ ← print_err
      (str "The build status file was not found.  You must configure before running test.py.");
    st_raise (SystemExit 2).

(** [run_tests] up to the start of the workers.  [inl r]: it returns [r] (Python's
    [None] when it only prints). *)
Definition prepare : stm world (option Z + plan) :=
  failed ← build;
  match failed with
  | Some rc => mret (inl (Some rc))
  | None =>
      _ ← setup_paths opt cfg h;
      '(programs, scripts) ← read_lock_file;
      w ← st_get;
      ex ← st_lift (find_examples (λ p, files w !! p) eval_list cfg h);
      _ ← set_environ (λ env, <[str "NS_LOG" := []]> env);
      _ ← st_when (kinds opt) print_kinds;
      _ ← st_when (list_tests opt) (print_list (example_names_original ex));
      if kinds opt || list_tests opt then mret (inl None)
      else
        let xml_results_file := path_join testpy_output_dir (str "results.xml") in
        _ ← set_file xml_results_file
              (println (str "<?xml version=" ++ quoted (str "1.0") ++ str "?>")
                 ++ println (str "<Results>"));
        suite_list ← choose_suite_list;
        processors ← count_processors;
        js ← dispatch_jobs eval_cond opt cfg h testpy_output_dir suite_list
               (programs_dictionary programs) scripts ex;
        mret (inr (MkPlan js processors testpy_output_dir xml_results_file))
  end.
End prepare.

(** ** After the workers: counting and reporting the results *)

Record summary := MkSummary {
  passed_tests : Z; failed_tests : Z; skipped_tests : Z; crashed_tests : Z; valgrind_errors : Z;
  failed_testnames : list pystr; skipped_testnames : list pystr;
  crashed_testnames : list pystr; valgrind_testnames : list pystr }.

Definition no_results : summary := MkSummary 0 0 0 0 0 [] [] [] [].

Inductive status := PASS | FAIL | VALGR | CRASH | SKIP.
#[export] Instance status_eq_dec : EqDecision status.
Proof. solve_decision. Defined.

Definition status_name (s : status) : pystr :=
  match s with
  | PASS => str "PASS" | FAIL => str "FAIL" | VALGR => str "VALGR" | CRASH => str "CRASH"
  | SKIP => str "SKIP"
  end.

Definition job_status (j : Job) : status :=
  if is_skip j then SKIP
  else if returncode j =? 0 then PASS
  else if returncode j =? 1 then FAIL
  else if returncode j =? 2 then VALGR
  else CRASH.

Definition count_result (j : Job) (s : summary) : summary :=
  let 'MkSummary p f k c v fn kn cn vn := s in
  match job_status j with
  | SKIP => MkSummary p f (k + 1) c v fn
              (kn ++ [display_name j ++ str " (" ++ skip_reason j ++ str ")"]) cn vn
  | PASS => MkSummary (p + 1) f k c v fn kn cn vn
  | FAIL => MkSummary p (f + 1) k c v (fn ++ [display_name j]) kn cn vn
  | VALGR => MkSummary p f k c (v + 1) fn kn cn (vn ++ [display_name j])
  | CRASH => MkSummary p f k (c + 1) v fn kn (cn ++ [display_name j]) vn
  end.

(** [colors.X], for [colors_lst['USE']]. *)
Definition color_code (use : bool) (code : pystr) : pystr :=
  if use then ["027"%char] ++ str "[" ++ code ++ str "m" else [].
Definition status_print (use : bool) (s : status) : pystr :=
  color_code use
    (match s with
     | PASS => str "32" | FAIL => str "01;31" | VALGR => str "36" | CRASH => str "35"
     | SKIP => str "37"
     end) ++ status_name s ++ color_code use (str "0").

(** The line that is printed for a result, and the XML that is appended for an
    example, a skipped suite and a crashed suite. *)
Definition progress_line (opt : options) (use : bool) (total_tests : Z) (s : summary) (j : Job) :
    pystr :=
  let kind := if is_example j || is_pyexample j then str "Example" else str "TestSuite" in
  str "[" ++ str_of_Z (passed_tests s + failed_tests s + skipped_tests s + crashed_tests s)
    ++ str "/" ++ str_of_Z total_tests ++ str "] "
    ++ status_print use (job_status j)
    ++ (if duration opt || bool_decide (constrain opt = str "performance")
        then str " (" ++ fmt3 (elapsed_time j) ++ str ")" else [])
    ++ str ": " ++ kind ++ str " " ++ display_name j.

Definition xml_element (tag body : pystr) : pystr :=
  str "<" ++ tag ++ str ">" ++ body ++ str "</" ++ tag ++ str ">".
Definition example_xml (j : Job) : pystr :=
  println (str "<Example>")
    ++ println (str "  " ++ xml_element (str "Name") (display_name j))
    ++ println (str "  " ++ xml_element (str "Result") (status_name (job_status j)))
    ++ println (str "  <Time real=" ++ quoted (fmt3 (elapsed_time j)) ++ str "/>")
    ++ println (str "</Example>").
Definition test_xml (result : pystr) (reason : option pystr) (j : Job) : pystr :=
  println (str "<Test>")
    ++ println (str "  " ++ xml_element (str "Name") (display_name j))
    ++ println (str "  " ++ xml_element (str "Result") result)
    ++ match reason with
       | Some r => println (str "  " ++ xml_element (str "Reason") r)
       | None => []
       end
    ++ println (str "</Test>").

(** What a result adds to the results file: [open(xml, 'a')] comes before
    [open(job.tmp_file_name)]. *)
Definition append_result (xml_results_file : pystr) (j : Job) : stm world unit :=
  if is_example j || is_pyexample j then append_file xml_results_file (example_xml j)
  else if is_skip j then
    append_file xml_results_file (test_xml (str "SKIP") (Some (skip_reason j)) j)
  else if (returncode j =? 0) || (returncode j =? 1) || (returncode j =? 2) then
    _ ← append_file xml_results_file [];
    text ← read_file (tmp_file_name j);
    append_file xml_results_file text
  else append_file xml_results_file (test_xml (str "CRASH") None j).

(** One iteration of the collecting loop. *)
Definition collect_result (opt : options) (use : bool) (total_tests : Z) (xml_results_file : pystr)
    (s : summary) (j : Job) : stm world summary :=
  if is_break j then mret s
  else
    let s := count_result j s in
    _ ← print (progress_line opt use total_tests s j);
    _ ← append_result xml_results_file j;
    mret s.

Definition summary_line (total_tests : Z) (s : summary) : pystr :=
  str_of_Z (passed_tests s) ++ str " of " ++ str_of_Z total_tests ++ str " tests passed ("
    ++ str_of_Z (passed_tests s) ++ str " passed, " ++ str_of_Z (skipped_tests s)
    ++ str " skipped, " ++ str_of_Z (failed_tests s) ++ str " failed, "
    ++ str_of_Z (crashed_tests s) ++ str " crashed, " ++ str_of_Z (valgrind_errors s)
    ++ str " valgrind errors)".

Definition print_names (title : pystr) (names : list pystr) : stm world unit :=
  match names with
  | [] => mret tt
  | _ => print (str "List of " ++ title ++ str ":" ++ [newline] ++ str "    "
                  ++ join ([newline] ++ str "    ") (py_sort names))
  end.

Definition note (line : pystr) : stm world unit := print (str "***  " ++ line).
Definition print_notes (opt : options) (cfg : config) : stm world unit :=
  _ ← st_when (negb (ENABLE_TESTS cfg) || negb (ENABLE_EXAMPLES cfg)) (print []);
  _ ← st_when (negb (ENABLE_TESTS cfg))
        (_ ← note (str "Note: ns-3 tests are currently disabled. Enable them by adding");
         _ ← note (quoted (str "--enable-tests") ++ str " to ./ns3 configure or modifying your .ns3rc file.");
         print []);
  _ ← st_when (negb (ENABLE_EXAMPLES cfg))
        (_ ← note (str "Note: ns-3 examples are currently disabled. Enable them by adding");
         _ ← note (quoted (str "--enable-examples") ++ str " to ./ns3 configure or modifying your .ns3rc file.");
         print []);
  st_when (valgrind opt && negb (VALGRIND_FOUND cfg))
    (_ ← print [];
     _ ← note (str "Note: you are trying to use valgrind, but valgrind could not be found");
     _ ← note (str "on your machine.  All tests and examples will crash or be skipped.");
     print []).

(** [shutil.rmtree(d)]: the files below [d]. *)
Definition rmtree (d : pystr) : stm world unit :=
  st_modify (λ w, MkWorld (filter (λ kv, startswith (d ++ str "/") kv.1 = false) (files w))
                    (stdout w) (stderr w) (environ w)).

Section finish.
Context (parse_xml : pystr → res exn element).
Context (opt : options) (cfg : config) (use : bool).

(** The reports that were asked for. *)
Definition write_reports (xml_results_file : pystr) : stm world unit :=
  _ ← st_when (truthy (html opt) || truthy (text opt) || truthy (xml opt)) (print []);
  _ ← st_when (truthy (html opt)) (translate_to_html parse_xml xml_results_file (html opt));
  _ ← st_when (truthy (text opt)) (translate_to_text parse_xml xml_results_file (text opt));
  st_when (truthy (xml opt))
    (_ ← print_end (str "Writing results to xml file " ++ xml opt ++ str ".xml...");
     content ← read_file xml_results_file;
     _ ← set_file (xml opt ++ str ".xml") content;
     print (str "done.")).

(** The collecting loop, and the end of the XML document. *)
Definition collect_all (total_tests : Z) (xml_results_file : pystr) (got : list Job) :
    stm world summary :=
  s ← st_fold (collect_result opt use total_tests xml_results_file) no_results got;
  _ ← append_file xml_results_file (println (str "</Results>"));
  mret s.

(** [run_tests] from the first result to its return value; [got] is what the
    workers gave back. *)
Definition finish_tests (p : plan) (got : list Job) : stm world Z :=
  let total_tests := Z.of_nat (length (plan_jobs p)) in
  s ← collect_all total_tests (plan_xml p) got;
  _ ← print (summary_line total_tests s);
  _ ← print_names (str "SKIPped tests") (skipped_testnames s);
  _ ← print_names (str "FAILed tests") (failed_testnames s);
  _ ← print_names (str "CRASHed tests") (crashed_testnames s);
  _ ← print_names (str "VALGR failures") (valgrind_testnames s);
  _ ← write_reports (plan_xml p);
  _ ← print_notes opt cfg;
  _ ← st_when (negb (retain opt)) (rmtree (plan_dir p));
  mret (if passed_tests s + skipped_tests s =? total_tests then 0 else 1).
End finish.

(** ** The counters *)

Definition add_result (s : summary) (j : Job) : summary :=
  if is_break j then s else count_result j s.
(** The results that count: those that no interrupt cut short. *)
Definition finished (got : list Job) : list Job := List.filter (λ j, negb (is_break j)) got.
Definition with_status (st : status) (got : list Job) : list Job :=
  List.filter (λ j, bool_decide (job_status j = st)) (finished got).
Definition number (st : status) (got : list Job) : Z := Z.of_nat (length (with_status st got)).

(** The counters of a list of results. *)
Definition summary_of (got : list Job) : summary :=
  MkSummary (number PASS got) (number FAIL got) (number SKIP got) (number CRASH got)
    (number VALGR got) (map display_name (with_status FAIL got))
    (map (λ j, display_name j ++ str " (" ++ skip_reason j ++ str ")") (with_status SKIP got))
    (map display_name (with_status CRASH got)) (map display_name (with_status VALGR got)).

Lemma with_status_snoc st got j :
  with_status st (got ++ [j])
  = with_status st got
    ++ (if negb (is_break j) && bool_decide (job_status j = st) then [j] else []).
Proof.
  unfold with_status, finished. rewrite !List.filter_app. f_equal. cbn [List.filter].
  destruct (is_break j); [done|]. cbn [negb andb List.filter]. done.
Qed.

Lemma summary_of_snoc got j : add_result (summary_of got) j = summary_of (got ++ [j]).
Proof.
  unfold summary_of, number. rewrite !with_status_snoc. unfold add_result.
  destruct (is_break j); [by rewrite !app_nil_r|]. unfold count_result.
  destruct (job_status j); cbn [negb andb]; repeat (case_bool_decide; try done);
    rewrite ?app_nil_r, ?length_app, ?map_app; f_equal; cbn [length]; lia.
Qed.

Lemma summary_of_fold got : fold_left add_result got no_results = summary_of got.
Proof.
  induction got as [|j got IH] using rev_ind; [done|].
  by rewrite fold_left_app, IH, <-summary_of_snoc.
Qed.

(** Every finished result is counted once. *)
Lemma summary_of_total got :
  number PASS got + number SKIP got + number FAIL got + number CRASH got + number VALGR got
  = Z.of_nat (length (finished got)).
Proof.
  unfold number, with_status. induction (finished got) as [|j l IH]; [done|].
  cbn [List.filter]. destruct (job_status j); repeat (case_bool_decide; try done);
    cbn [length]; lia.
Qed.

Lemma finished_length got : (length (finished got) ≤ length got)%nat.
Proof. apply List.filter_length_le. Qed.

(** ** Collecting *)

(** The file a result is copied from, if it is one that is copied. *)
Definition copies (j : Job) : bool :=
  negb (is_example j) && negb (is_pyexample j) && negb (is_skip j)
  && ((returncode j =? 0) || (returncode j =? 1) || (returncode j =? 2)).
Definition entry (fs : gmap pystr pystr) (j : Job) : pystr :=
  if is_example j || is_pyexample j then example_xml j
  else if is_skip j then test_xml (str "SKIP") (Some (skip_reason j)) j
  else if copies j then default [] (fs !! tmp_file_name j)
  else test_xml (str "CRASH") None j.
Definition has_output (fs : gmap pystr pystr) (j : Job) : bool :=
  negb (copies j) || bool_decide (is_Some (fs !! tmp_file_name j)).

Definition put_files (f : gmap pystr pystr → gmap pystr pystr) (w : world) : world :=
  MkWorld (f (files w)) (stdout w) (stderr w) (environ w).

Lemma append_result_cases xml j w old :
  files w !! xml = Some old → tmp_file_name j ≠ xml →
  if has_output (files w) j
  then append_result xml j w = (Ok tt, put_files <[xml := old ++ entry (files w) j]> w)
  else ∃ w', append_result xml j w = (Raise OSError, w').
Proof.
  intros Hx Ht. unfold append_result, has_output, entry, copies.
  destruct (is_example j || is_pyexample j) eqn:He.
  { apply orb_true_iff in He as [-> | ->]; rewrite ?andb_false_r; cbn [negb andb orb];
      unfold append_file, st_modify, put_files; by rewrite Hx. }
  apply orb_false_iff in He as [-> ->]. cbn [negb andb].
  destruct (is_skip j); cbn [negb andb orb].
  { unfold append_file, st_modify, put_files. by rewrite Hx. }
  destruct ((returncode j =? 0) || (returncode j =? 1) || (returncode j =? 2)); cbn [negb orb].
  2:{ unfold append_file, st_modify, put_files. by rewrite Hx. }
  unfold append_file, read_file, st_modify, st_get, st_lift, put_files, mbind, stm_bind.
  cbn [files]. rewrite Hx. cbn [default from_option id]. rewrite app_nil_r.
  rewrite lookup_insert_ne by done. destruct (files w !! tmp_file_name j) as [text|] eqn:Hf.
  - rewrite bool_decide_true by eauto. cbn [res_of_option files stdout stderr environ].
    rewrite lookup_insert. rewrite decide_True by done. cbn. by rewrite insert_insert_eq.
  - rewrite bool_decide_false by (by intros []). cbn. eauto.
Qed.

Section collecting.
Context (opt : options) (use : bool) (total : Z) (xml : pystr).

Lemma collect_step s j w old :
  files w !! xml = Some old → tmp_file_name j ≠ xml → is_break j = false →
  if has_output (files w) j
  then ∃ w', collect_result opt use total xml s j w = (Ok (add_result s j), w')
       ∧ files w' = <[xml := old ++ entry (files w) j]> (files w)
  else ∃ w', collect_result opt use total xml s j w = (Raise OSError, w').
Proof.
  intros Hx Hj Hb. unfold collect_result, add_result. rewrite Hb.
  set (pw := MkWorld (files w)
               (stdout w ++ [println (progress_line opt use total (count_result j s) j)])
               (stderr w) (environ w)).
  pose proof (append_result_cases xml j pw old Hx Hj) as Happ.
  change (files pw) with (files w) in Happ.
  destruct (has_output (files w) j).
  - exists (put_files <[xml := old ++ entry (files w) j]> pw). split; [|done].
    erewrite st_bind_step by reflexivity.
    by erewrite st_bind_step by apply Happ.
  - destruct Happ as [w' Hw']. exists w'. erewrite st_bind_step by reflexivity.
    by erewrite st_bind_raise by apply Hw'.
Qed.

Lemma entry_insert fs text j :
  tmp_file_name j ≠ xml →
  entry (<[xml := text]> fs) j = entry fs j ∧ has_output (<[xml := text]> fs) j = has_output fs j.
Proof. intros Hj. unfold entry, has_output. by rewrite lookup_insert_ne by done. Qed.

Lemma entries_insert fs text got :
  Forall (λ j, tmp_file_name j ≠ xml) got →
  map (entry (<[xml := text]> fs)) (finished got) = map (entry fs) (finished got)
  ∧ forallb (has_output (<[xml := text]> fs)) (finished got)
    = forallb (has_output fs) (finished got).
Proof.
  unfold finished. induction 1 as [|j got Hj _ [IH1 IH2]]; [done|]. cbn [List.filter].
  destruct (is_break j); [done|]. cbn [negb map forallb]. rewrite IH1, IH2.
  by destruct (entry_insert fs text j Hj) as [-> ->].
Qed.

(** The fold from any summary and any contents of the results file. *)
Lemma collect_fold got s w old :
  files w !! xml = Some old → Forall (λ j, tmp_file_name j ≠ xml) got →
  if forallb (has_output (files w)) (finished got)
  then ∃ w', st_fold (collect_result opt use total xml) s got w = (Ok (fold_left add_result got s), w')
       ∧ files w' = <[xml := old ++ concat (map (entry (files w)) (finished got))]> (files w)
  else ∃ w', st_fold (collect_result opt use total xml) s got w = (Raise OSError, w').
Proof.
  intros Hx Hall. revert s w old Hx. induction Hall as [|j got Hj Hall IH]; intros s w old Hx.
  { cbn. exists w. by rewrite app_nil_r, insert_id by done. }
  cbn [st_fold fold_left]. destruct (is_break j) eqn:Hb.
  { unfold finished. cbn [List.filter]. rewrite Hb. cbn [negb]. fold (finished got).
    rewrite (st_bind_step _ _ _ s w) by (unfold collect_result; by rewrite Hb).
    unfold add_result at 2. rewrite Hb. by apply IH. }
  pose proof (collect_step s j w old Hx Hj Hb) as Hstep.
  unfold finished. cbn [List.filter]. rewrite Hb. cbn [negb forallb map concat]. fold (finished got).
  destruct (has_output (files w) j); cbn [andb].
  2:{ destruct Hstep as [w' Hw']. exists w'. by erewrite st_bind_raise by apply Hw'. }
  destruct Hstep as (w2 & Hw2 & Hf2). specialize (IH (add_result s j) w2 (old ++ entry (files w) j)).
  rewrite Hf2 in IH. destruct (entries_insert (files w) (old ++ entry (files w) j) got Hall) as [He Ho].
  rewrite He, Ho, lookup_insert in IH. rewrite decide_True in IH by done. specialize (IH eq_refl).
  rewrite (st_bind_step _ _ _ _ _ Hw2). destruct (forallb _ _); destruct IH as [w' IH]; exists w'; [|done].
  destruct IH as [-> ->]. split; [done|]. by rewrite insert_insert_eq, <-app_assoc.
Qed.
End collecting.

(** ** What the collection guarantees *)

(** C5: the loop over the results gives each counter the number of finished
    results with its status and each list their names in order of arrival; jobs
    that an interrupt sent back are not counted.  The results file is what it was
    followed by one entry per finished result, in order, and the closing tag: an
    example's or a skipped or crashed suite's own element, or the whole file that
    the suite wrote.  A suite that returned 0, 1 or 2 and has no such file ends
    the run with an [OSError]. *)
Theorem collect_all_correct opt use total xml got w old :
  files w !! xml = Some old → Forall (λ j, tmp_file_name j ≠ xml) got →
  if forallb (has_output (files w)) (finished got)
  then ∃ w', collect_all opt use total xml got w = (Ok (summary_of got), w')
       ∧ files w' = <[xml := old ++ concat (map (entry (files w)) (finished got))
                             ++ println (str "</Results>")]> (files w)
  else ∃ w', collect_all opt use total xml got w = (Raise OSError, w').
Proof.
  intros Hx Hall. pose proof (collect_fold opt use total xml got no_results w old Hx Hall) as Hfold.
  unfold collect_all. destruct (forallb _ _); destruct Hfold as [w' Hfold].
  - destruct Hfold as [Hfold Hf]. rewrite summary_of_fold in Hfold.
    eexists. rewrite (st_bind_step _ _ _ _ _ Hfold). split; [reflexivity|]. cbn.
    rewrite Hf, lookup_insert. rewrite decide_True by done. cbn [default from_option id].
    by rewrite insert_insert_eq, <-app_assoc.
  - exists w'. by rewrite (st_bind_raise _ _ _ _ _ Hfold).
Qed.

(** A result that fails nothing. *)
Definition success (j : Job) : bool := is_skip j || (returncode j =? 0).

Lemma success_status j :
  success j = bool_decide (job_status j = PASS) || bool_decide (job_status j = SKIP).
Proof.
  unfold success, job_status. destruct (is_skip j); [done|].
  destruct (returncode j =? 0); [done|]. by destruct (returncode j =? 1), (returncode j =? 2).
Qed.

Lemma summary_of_success got :
  number PASS got + number SKIP got = Z.of_nat (length (List.filter success (finished got))).
Proof.
  unfold number, with_status. induction (finished got) as [|j l IH]; [done|].
  cbn [List.filter]. rewrite success_status.
  destruct (job_status j); repeat (case_bool_decide; try done); cbn [orb length]; lia.
Qed.

Lemma filter_length_all {A} (P : A → bool) l :
  length (List.filter P l) = length l ↔ forallb P l = true.
Proof.
  induction l as [|x l IH]; [done|]. cbn. pose proof (List.filter_length_le P l).
  destruct (P x); cbn; [|split; [lia|done]]. rewrite <-IH. lia.
Qed.

(** The counters show success exactly when every result came back, finished and
    succeeded. *)
Lemma summary_verdict got n :
  length got = n →
  number PASS got + number SKIP got = Z.of_nat n
  ↔ forallb (λ j, negb (is_break j) && success j) got = true.
Proof.
  intros <-. rewrite summary_of_success. unfold finished. split.
  - intros Hn. apply Nat2Z.inj in Hn.
    pose proof (List.filter_length_le success (List.filter (λ j, negb (is_break j)) got)).
    pose proof (List.filter_length_le (λ j, negb (is_break j)) got).
    assert (forallb (λ j, negb (is_break j)) got = true) as Hb by (apply filter_length_all; lia).
    assert (List.filter (λ j, negb (is_break j)) got = got) as Hid.
    { clear -Hb. induction got as [|j got IH]; [done|]. cbn in *.
      destruct (is_break j); [done|]. cbn. f_equal. by apply IH. }
    rewrite Hid in Hn. apply filter_length_all in Hn.
    rewrite forallb_forall in *. intros j Hj. by rewrite Hb, Hn.
  - intros Hall. f_equal. induction got as [|j got IH]; [done|]. cbn in *.
    apply andb_true_iff in Hall as [[Hb Hs]%andb_true_iff Hall].
    rewrite Hb. cbn. rewrite Hs. cbn. by rewrite IH.
Qed.

(** ** The jobs that are dispatched *)

(** [yields P m]: what [m] returns satisfies [P]. *)
Definition yields {S A} (P : A → Prop) (m : stm S A) : Prop :=
  ∀ w a w', m w = (Ok a, w') → P a.

Lemma yields_ret {S A} (P : A → Prop) (a : A) : P a → yields P (mret a : stm S A).
Proof. intros HP w b w' [= <- _]. done. Qed.

Lemma yields_bind {S A B} (P : B → Prop) (m : stm S A) (f : A → stm S B) :
  (∀ a, yields P (f a)) → yields P (m ≫= f).
Proof. intros Hf w b w' (a & w1 & _ & Hb)%stm_bind_ok. by eapply Hf. Qed.

Lemma yields_bind_with {S A B} (Q : A → Prop) (P : B → Prop) (m : stm S A) (f : A → stm S B) :
  yields Q m → (∀ a, Q a → yields P (f a)) → yields P (m ≫= f).
Proof. intros Hm Hf w b w' (a & w1 & Ha & Hb)%stm_bind_ok. eapply Hf; [|done]. by eapply Hm. Qed.

Lemma yields_concat_map {S A B} (P : B → Prop) (f : A → stm S (list B)) l :
  (∀ x, yields (Forall P) (f x)) → yields (Forall P) (st_concat_map f l).
Proof.
  intros Hf. apply (yields_bind_with (Forall (Forall P))).
  - induction l as [|x l IH]; [by apply yields_ret|]. eapply yields_bind_with; [apply Hf|].
    intros ys Hys. eapply yields_bind_with; [apply IH|]. intros yss Hyss. apply yields_ret.
    by constructor.
  - intros ls Hls. apply yields_ret. by apply Forall_concat.
Qed.

Definition real (j : Job) : Prop := is_break j = false.

Lemma queue_job_real opt name j : real j → yields (Forall real) (queue_job opt name j).
Proof. intros Hj. apply yields_bind. intros _. apply yields_ret. by repeat constructor. Qed.

Ltac yields_tac :=
  repeat match goal with
  | |- yields _ (if ?b then _ else _) => destruct b
  | |- yields _ (_ ≫= _) => apply yields_bind; intros ?
  | |- yields _ (mret []) => apply yields_ret; constructor
  end.

Lemma dispatch_jobs_real eval_cond opt cfg h dir suites programs scripts ex :
  yields (Forall real) (dispatch_jobs eval_cond opt cfg h dir suites programs scripts ex).
Proof.
  unfold dispatch_jobs. eapply (yields_bind_with (Forall real)).
  { apply yields_concat_map. intros test. unfold dispatch_suite. case_match; yields_tac.
    apply queue_job_real. unfold suite_job. by case_match. }
  intros l1 H1. eapply (yields_bind_with (Forall real)).
  { unfold dispatch_examples. destruct (no_selection opt); [|destruct (truthy (example opt))];
      [| |yields_tac].
    - yields_tac. apply yields_concat_map. intros e. unfold dispatch_example.
      yields_tac; apply queue_job_real; by repeat case_match.
    - case_match; yields_tac. apply yields_concat_map. intros e. unfold dispatch_named_example.
      yields_tac. by apply queue_job_real. }
  intros l2 H2. eapply (yields_bind_with (Forall real)).
  { unfold dispatch_pyexamples. destruct (no_selection opt); yields_tac; [|by apply queue_job_real].
    apply yields_concat_map. intros e. unfold dispatch_pyexample.
    yields_tac; apply queue_job_real; by repeat case_match. }
  intros l3 H3. apply yields_ret. by rewrite !Forall_app.
Qed.

(** How the build ended: [rc] is its return code, and it is not run at all with
    [--no-build]. *)
Definition build_died (run : pystr → pystr → res exn process) opt h (rc : Z) : Prop :=
  no_build opt = false ∧ rc ≠ 0 ∧
  ∃ p, run (build_cmd opt h) (getcwd h) = Ok p ∧ p_returncode p = rc.
Definition build_passed (run : pystr → pystr → res exn process) opt h : Prop :=
  no_build opt = true ∨ ∃ p, run (build_cmd opt h) (getcwd h) = Ok p ∧ p_returncode p = 0.

Lemma build_cases run opt h :
  yields (λ r, match r with Some rc => build_died run opt h rc | None => build_passed run opt h end)
    (build run opt h).
Proof.
  unfold build, build_died, build_passed. destruct (no_build opt); [apply yields_ret; by left|].
  apply yields_bind. intros _.
  eapply (yields_bind_with (λ p, run (build_cmd opt h) (getcwd h) = Ok p)).
  { intros w a w' Hr. unfold st_lift in Hr. by injection Hr as -> _. }
  intros p Hp. destruct (Z.eqb_spec (p_returncode p) 0) as [H0|H0].
  - apply yields_ret. right. eauto.
  - apply yields_bind. intros _. apply yields_ret. eauto.
Qed.

(** When [run_tests] returns before it starts the threads. *)
Lemma prepare_cases run eval_list eval_names eval_cond opt cfg h :
  yields (λ r, match r with
               | inl (Some rc) => build_died run opt h rc
               | inl None => build_passed run opt h ∧ kinds opt || list_tests opt = true
               | inr p => build_passed run opt h ∧ kinds opt || list_tests opt = false
                          ∧ Forall real (plan_jobs p) end)
    (prepare run eval_list eval_names eval_cond opt cfg h).
Proof.
  unfold prepare. eapply yields_bind_with; [apply build_cases|].
  intros [rc|] Hb; [by apply yields_ret|].
  apply yields_bind. intros _. apply yields_bind. intros [programs scripts].
  do 5 (apply yields_bind; intros ?). destruct (kinds opt || list_tests opt) eqn:Hk.
  { by apply yields_ret. }
  do 3 (apply yields_bind; intros ?).
  eapply yields_bind_with; [apply dispatch_jobs_real|]. intros js Hjs. by apply yields_ret.
Qed.

(** ** The verdict *)

Lemma collect_result_ok opt use total xml s j :
  yields (λ s', s' = add_result s j) (collect_result opt use total xml s j).
Proof.
  unfold collect_result, add_result. destruct (is_break j); [by apply yields_ret|].
  do 2 (apply yields_bind; intros ?). by apply yields_ret.
Qed.

Lemma collect_all_ok opt use total xml got :
  yields (λ s, s = summary_of got) (collect_all opt use total xml got).
Proof.
  unfold collect_all. eapply (yields_bind_with (λ s, s = fold_left add_result got no_results)).
  - generalize no_results. induction got as [|j got IH]; intros s; [by apply yields_ret|].
    eapply yields_bind_with; [apply collect_result_ok|]. intros s' ->. apply IH.
  - intros s ->. apply yields_bind. intros _. apply yields_ret. apply summary_of_fold.
Qed.

Lemma finish_tests_ok parse_xml opt cfg use p got :
  yields (λ code, code = if number PASS got + number SKIP got =? Z.of_nat (length (plan_jobs p))
                         then 0 else 1) (finish_tests parse_xml opt cfg use p got).
Proof.
  unfold finish_tests. eapply yields_bind_with; [apply collect_all_ok|]. intros s ->.
  do 8 (apply yields_bind; intros ?). by apply yields_ret.
Qed.

Lemma finish_job_flags opt cmd p j :
  is_skip (finish_job opt cmd p j).1 = is_skip j ∧ is_break (finish_job opt cmd p j).1 = is_break j.
Proof. unfold finish_job. by destruct (job_result opt cmd p) as [[[[? ?] ?] ?] ?]. Qed.

(** A job that is to be skipped, or whose command returns 0. *)
Definition succeeds (opt : options) (cfg : config) (run : pystr → pystr → res exn process)
    (j : Job) : Prop :=
  is_skip j = true ∨ ∃ j' ps, job_result_of opt cfg run j = Ok (j', ps) ∧ returncode j' = 0.

Lemma delivered_good opt cfg run b j j' :
  is_break j = false → delivered opt cfg (popen_of run) b j j' →
  (negb (is_break j') && success j' = true → succeeds opt cfg run j)
  ∧ (b = false → succeeds opt cfg run j → negb (is_break j') && success j' = true).
Proof.
  intros Hb Hd. unfold success, succeeds. destruct Hd as [->|Hs|j' ps Hs Hr].
  - cbn. done.
  - rewrite Hs, Hb. auto.
  - pose proof Hr as Hr'. apply job_runs_of in Hr'.
    assert (is_skip j' = false ∧ is_break j' = false) as [-> ->].
    { inversion Hr as [cmd p Hc Hp Heq| |]. destruct (finish_job_flags opt cmd p j) as [H1 H2].
      rewrite Heq in *. cbn in *. by rewrite H1, H2. }
    cbn. rewrite Z.eqb_eq. split; [eauto|]. intros _ [?|(j2 & ps2 & Hj2 & ?)]; congruence.
Qed.

Lemma delivered_all_good opt cfg run b ds got :
  Forall real ds → Forall2 (delivered opt cfg (popen_of run) b) ds got →
  (forallb (λ j, negb (is_break j) && success j) got = true → Forall (succeeds opt cfg run) ds)
  ∧ (b = false → Forall (succeeds opt cfg run) ds →
     forallb (λ j, negb (is_break j) && success j) got = true).
Proof.
  intros Hreal Hd. revert Hreal. induction Hd as [|j j' ds got Hj _ IH]; intros Hreal; [done|].
  apply Forall_cons in Hreal as [Hb Hreal]. destruct (IH Hreal) as [IH1 IH2].
  destruct (delivered_good _ _ _ _ _ _ Hb Hj) as [Hg1 Hg2]. cbn [forallb].
  rewrite andb_true_iff, Forall_cons. tauto.
Qed.

(** ** The whole of [run_tests] *)

Section run_tests.
Context (run : pystr → pystr → res exn process).
Context (eval_list : pystr → res exn (list (list pystr)))
        (eval_names : pystr → res exn (list pystr)) (eval_cond : pystr → res exn bool)
        (parse_xml : pystr → res exn element).
Context (opt : options) (cfg : config) (h : host) (use : bool).

(** A run of [run_tests] from the world [w] that returns: either before the
    threads are started, or after them.  [w2] is what the processes of the jobs
    have left. *)
Inductive run_tests (w : world) : option Z → Prop :=
  | run_early r w1 :
      prepare run eval_list eval_names eval_cond opt cfg h w = (Ok (inl r), w1) → run_tests w r
  | run_jobs p w1 s w2 code w3 :
      prepare run eval_list eval_names eval_cond opt cfg h w = (Ok (inr p), w1) →
      reachable opt cfg (popen_of run) (plan_jobs p) (Z.to_nat (plan_processors p)) s →
      main s = Exited →
      finish_tests parse_xml opt cfg use p (got s) w2 = (Ok code, w3) →
      run_tests w (Some code).
End run_tests.

(** The verdict on the jobs of a plan. *)
Lemma jobs_verdict run eval_list eval_names eval_cond parse_xml opt cfg h use w p w1 s w2 code w3 :
  prepare run eval_list eval_names eval_cond opt cfg h w = (Ok (inr p), w1) →
  no_raise opt cfg (popen_of run) (plan_jobs p) →
  reachable opt cfg (popen_of run) (plan_jobs p) (Z.to_nat (plan_processors p)) s →
  main s = Exited →
  finish_tests parse_xml opt cfg use p (got s) w2 = (Ok code, w3) →
  (code = 0 ∨ code = 1)
  ∧ (code = 0 → Forall (succeeds opt cfg run) (plan_jobs p))
  ∧ (thread_exit s = false → Forall (succeeds opt cfg run) (plan_jobs p) → code = 0).
Proof.
  intros Hprep Hno Hs Hm Hfin. apply prepare_cases in Hprep as (_ & _ & Hprep).
  apply finish_tests_ok in Hfin.
  destruct (placed_reachable _ _ _ _ _ _ Hprep Hno Hs) as (reals & b & ds & Hp).
  destruct (placed_exited _ _ _ _ _ _ _ _ _ Hp Hm) as (Hperm & Hd & _).
  assert (Forall real ds) as Hreal by (rewrite Hperm; exact Hprep).
  destruct (delivered_all_good _ _ _ _ _ _ Hreal Hd) as [Hg1 Hg2]. rewrite Hperm in Hg1, Hg2.
  assert (length (got s) = length (plan_jobs p)) as Hlen.
  { rewrite <-(Forall2_length _ _ _ Hd). by apply Permutation_length. }
  rewrite <-(summary_verdict _ _ Hlen), <-Z.eqb_eq in Hg1, Hg2. rewrite Hfin.
  destruct (_ =? _); split_and!; auto; try done. intros Hx Hall. by specialize (Hg2 Hx Hall).
Qed.

(** C4: what a run that returns can return, when no launched command raises: the
    status of a build that failed; nothing, if the build passed and only kinds or
    tests are listed; otherwise 0 or 1, whatever the interleaving of the workers.
    It is 0 only if every dispatched job was skipped or its command returned 0,
    and when no interrupt arrived it is 0 whenever that is so. *)
Theorem run_tests_verdict run eval_list eval_names eval_cond parse_xml opt cfg h use w r :
  (∀ p w1, prepare run eval_list eval_names eval_cond opt cfg h w = (Ok (inr p), w1) →
     no_raise opt cfg (popen_of run) (plan_jobs p)) →
  run_tests run eval_list eval_names eval_cond parse_xml opt cfg h use w r →
  (∃ rc, r = Some rc ∧ build_died run opt h rc) ∨
  build_passed run opt h ∧ kinds opt || list_tests opt = true ∧ r = None ∨
  build_passed run opt h ∧ kinds opt || list_tests opt = false ∧
  ∃ p w1 s, prepare run eval_list eval_names eval_cond opt cfg h w = (Ok (inr p), w1) ∧
    reachable opt cfg (popen_of run) (plan_jobs p) (Z.to_nat (plan_processors p)) s ∧ main s = Exited ∧
    (r = Some 0 ∨ r = Some 1) ∧
    (r = Some 0 → Forall (succeeds opt cfg run) (plan_jobs p)) ∧
    (thread_exit s = false → Forall (succeeds opt cfg run) (plan_jobs p) → r = Some 0).
Proof.
  intros Hno Hrun. destruct Hrun as [r w1 Hprep|p w1 s w2 code w3 Hprep Hs Hm Hfin].
  - apply prepare_cases in Hprep. destruct r as [rc|]; [left; eauto|right; left; tauto].
  - right; right. pose proof Hprep as (Hb & Hk & _)%prepare_cases. split_and!; [done|done|].
    destruct (jobs_verdict _ _ _ _ _ _ _ _ _ _ _ _ _ _ _ _ Hprep (Hno _ _ Hprep) Hs Hm Hfin)
      as (H01 & H0 & Hall).
    exists p, w1, s. split_and!; [done|done|done|destruct H01; subst; auto| |].
    + intros [= ->]. auto.
    + intros. f_equal. auto.
Qed.

(** ** A sample run: one suite, one worker *)

Definition sample_host : host :=
  MkHost (str "linux") (str "python3") (str "/ns3") (str "now") (Some 1).
Definition sample_lock : pystr :=
  println (str "ns3_runnable_programs = []") ++ println (str "ns3_runnable_scripts = []").
Definition sample_world : world :=
  MkWorld {[ str ".lock-ns3_linux_build" := sample_lock ]} [] []
    {[ str "PYTHONPATH" := str "/home/user/lib" ]}.
Definition run_options : options :=
  MkOptions [] [] false [] false (str "QUICK") false false false false true [] false [] []
    false [] [] 0.

(** The test runner knows two suites, one of them a performance test; the
    other passes. *)
Definition sample_runner (cmd dir : pystr) : res exn process :=
  Ok (MkProcess 0
        (if endswith (str "--test-type=performance") cmd then println (str "speed")
         else if endswith (str "--print-test-name-list") cmd
              then println (str "object") ++ println (str "speed") else []) [] (1 # 4)).

Definition sample_prepare : res exn (option Z + plan) * world :=
  prepare sample_runner (λ _, Ok []) (λ _, Ok []) (λ _, Ok true) run_options sample_config
    sample_host sample_world.
Definition sample_plan : plan :=
  match sample_prepare.1 with Ok (inr p) => p | _ => MkPlan [] 0 [] [] end.
Definition sample_final : system :=
  default (start [] 0)
    (sched_all run_options sample_config sample_runner
       [LMain; LMain; LWorker 0; LMain; LMain; LWorker 0; LMain; LMain; LWorker 0; LMain; LMain]
       (start (plan_jobs sample_plan) 1)).

(** The file that the suite writes. *)
Definition sample_after : world :=
  put_files <[str "testpy-output/now/object.xml" := println (str "<Test/>")]> sample_prepare.2.

Lemma sample_plan_jobs :
  map (λ j, (display_name j, shell_command j, tmp_file_name j)) (plan_jobs sample_plan)
  = [(str "object",
      str "utils/ns3-dev-test-runner-debug --test-name=object --stop-on-failure --fullness=QUICK",
      str "testpy-output/now/object.xml")].
Proof. by vm_compute. Qed.

Lemma sample_plan_no_raise :
  no_raise run_options sample_config (popen_of sample_runner) (plan_jobs sample_plan).
Proof.
  intros j e Hj Hr. apply job_runs_of in Hr. revert e Hr. apply list_elem_of_lookup in Hj as [i Hi].
  destruct i as [|i]; [|by destruct i]. vm_compute in Hi. injection Hi as <-. intros e Hr.
  vm_compute in Hr. discriminate Hr.
Qed.

Definition sample_finish : res exn Z * world :=
  finish_tests (λ _, Raise ValueError) run_options sample_config true sample_plan
    (got sample_final) sample_after.

Lemma sample_prepared : sample_prepare = (Ok (inr sample_plan), sample_prepare.2).
Proof. vm_compute. reflexivity. Qed.
Lemma sample_planned p w1 :
  prepare sample_runner (λ _, Ok []) (λ _, Ok []) (λ _, Ok true) run_options sample_config
    sample_host sample_world = (Ok (inr p), w1) → p = sample_plan.
Proof.
  intros Hp. change (sample_prepare = (Ok (inr p), w1)) in Hp. rewrite sample_prepared in Hp.
  by injection Hp.
Qed.
Lemma sample_finished : sample_finish = (Ok 0, sample_finish.2).
Proof. vm_compute. reflexivity. Qed.
Lemma sample_exited : main sample_final = Exited.
Proof. vm_compute. reflexivity. Qed.

Lemma sample_final_reachable :
  reachable run_options sample_config (popen_of sample_runner) (plan_jobs sample_plan)
    (Z.to_nat (plan_processors sample_plan)) sample_final.
Proof.
  apply (sched_all_reachable _ _ _
    [LMain; LMain; LWorker 0; LMain; LMain; LWorker 0; LMain; LMain; LWorker 0; LMain; LMain]).
  by vm_compute.
Qed.

Lemma run_tests_verdict_witness :
  run_tests sample_runner (λ _, Ok []) (λ _, Ok []) (λ _, Ok true) (λ _, Raise ValueError)
    run_options sample_config sample_host true sample_world (Some 0)
  ∧ Forall (succeeds run_options sample_config sample_runner) (plan_jobs sample_plan).
Proof.
  assert (run_tests sample_runner (λ _, Ok []) (λ _, Ok []) (λ _, Ok true) (λ _, Raise ValueError)
    run_options sample_config sample_host true sample_world (Some 0)) as Hrun.
  { eapply run_jobs; [exact sample_prepared|exact sample_final_reachable|exact sample_exited|].
    exact sample_finished. }
  split; [exact Hrun|].
  destruct (run_tests_verdict sample_runner (λ _, Ok []) (λ _, Ok []) (λ _, Ok true)
           (λ _, Raise ValueError) run_options sample_config sample_host true sample_world (Some 0))
    as [(rc & _ & Hb & _)|[(_ & Hk & _)|(_ & _ & p & w1 & s & Hp & _ & _ & _ & H & _)]].
  - intros p w1 Hp. rewrite (sample_planned _ _ Hp). exact sample_plan_no_raise.
  - exact Hrun.
  - discriminate Hb.
  - discriminate Hk.
  - rewrite <-(sample_planned _ _ Hp). exact (H eq_refl).
Defined.

Lemma collect_all_correct_witness :
  ∃ w', collect_all run_options true 1 (plan_xml sample_plan) (got sample_final) sample_after
        = (Ok (summary_of (got sample_final)), w')
    ∧ files w' !! plan_xml sample_plan
      = Some (println (str "<?xml version=" ++ quoted (str "1.0") ++ str "?>")
                ++ println (str "<Results>") ++ println (str "<Test/>")
                ++ println (str "</Results>")).
Proof.
  destruct (collect_all_correct run_options true 1 (plan_xml sample_plan) (got sample_final)
              sample_after (println (str "<?xml version=" ++ quoted (str "1.0") ++ str "?>")
                 ++ println (str "<Results>"))) as (w' & Hw & Hf);
    [by vm_compute|by vm_compute; repeat constructor; discriminate|].
  exists w'. split; [exact Hw|]. rewrite Hf. by vm_compute.
Defined.

(** ** The suites that are dispatched *)

Lemma remove_first_filter x l :
  NoDup l → remove_first x l = List.filter (λ y, negb (bool_decide (y = x))) l.
Proof.
  induction 1 as [|y l Hy Hnd IH]; [done|]. cbn. case_decide as Hyx.
  - subst. rewrite bool_decide_true by done. cbn. symmetry.
    clear -Hy. induction l as [|z l IH]; [done|]. apply not_elem_of_cons in Hy as [? ?]. cbn.
    rewrite bool_decide_false by done. cbn. f_equal. by apply IH.
  - rewrite bool_decide_false by done. cbn. by rewrite IH.
Qed.

Lemma filter_andb {A} (P Q : A → bool) l :
  List.filter P (List.filter Q l) = List.filter (λ x, Q x && P x) l.
Proof. induction l as [|x l IH]; cbn; [done|]. destruct (Q x); cbn; by rewrite IH. Qed.

Lemma remove_performance_filter perf l :
  NoDup l → remove_performance perf l = List.filter (λ y, negb (bool_decide (y ∈ perf))) l.
Proof.
  unfold remove_performance. revert l. induction perf as [|x perf IH]; intros l Hl; cbn [fold_left].
  { induction l as [|y l IH]; [done|]. cbn. rewrite bool_decide_false by apply not_elem_of_nil.
    cbn. f_equal. apply NoDup_cons in Hl as [_ Hl]. by apply IH. }
  rewrite remove_first_filter by done. rewrite IH.
  - rewrite filter_andb. apply List.filter_ext. intros y. rewrite <-negb_orb. f_equal.
    apply Bool.eq_iff_eq_true. rewrite orb_true_iff, !bool_decide_eq_true, elem_of_cons. done.
  - clear -Hl. induction Hl as [|y l Hy _ IH]; cbn; [constructor|]. case_match; [|done].
    constructor; [|done]. intros Hin. apply Hy. apply list_elem_of_In, filter_In in Hin as [Hin _].
    by apply list_elem_of_In.
Qed.

(** The names that are dispatched: stripped, and not empty. *)
Definition suite_names (suite_list : list pystr) : list pystr :=
  List.filter truthy (map strip suite_list).

Lemma dispatch_suites_eq opt cfg h dir suites w :
  ∃ w', st_concat_map (dispatch_suite opt cfg h dir) suites w
        = (Ok (map (suite_job opt cfg h dir) (suite_names suites)), w').
Proof.
  unfold st_concat_map. 
  assert (∃ ls w', st_map (dispatch_suite opt cfg h dir) suites w = (Ok ls, w')
    ∧ concat ls = map (suite_job opt cfg h dir) (suite_names suites)) as (ls & w' & Hls & <-).
  2:{ exists w'. by rewrite (st_bind_step _ _ _ _ _ Hls). }
  unfold suite_names. revert w. induction suites as [|s suites IH]; intros w; [by exists [], w|].
  cbn [st_map map List.filter].
  assert (∃ w1, dispatch_suite opt cfg h dir s w
    = (Ok (if truthy (strip s) then [suite_job opt cfg h dir (strip s)] else []), w1)) as [w1 H1].
  { unfold dispatch_suite. destruct (truthy (strip s)); [|by exists w].
    unfold queue_job. destruct (verbose opt); eexists; reflexivity. }
  destruct (IH w1) as (ls & w' & Hls & Hc). rewrite (st_bind_step _ _ _ _ _ H1).
  rewrite (st_bind_step _ _ _ _ _ Hls). eexists _, w'. split; [reflexivity|]. cbn [concat].
  rewrite Hc. by destruct (truthy (strip s)).
Qed.

(** When the test runner lists every suite once, the suites that are left
    after the removal of the performance tests are those that are not in the
    list of performance tests, in the runner's order, and each of their
    non-empty names is dispatched as one job: its own results file in the output
    directory, and skipped exactly under valgrind when it is one of the suites
    known to crash there. *)
Theorem suites_dispatched opt cfg h dir suites perf w :
  NoDup suites →
  ∃ js w', st_concat_map (dispatch_suite opt cfg h dir) (remove_performance perf suites) w
           = (Ok js, w')
    ∧ map display_name js
      = suite_names (List.filter (λ s, negb (bool_decide (s ∈ perf))) suites)
    ∧ Forall (λ j, is_example j = false ∧ is_pyexample j = false ∧ is_break j = false
        ∧ tmp_file_name j = path_join dir (display_name j ++ str ".xml")
        ∧ is_skip j = valgrind opt && bool_decide (display_name j ∈ core_valgrind_skip_tests)) js.
Proof.
  intros Hnd. rewrite remove_performance_filter by done.
  destruct (dispatch_suites_eq opt cfg h dir
    (List.filter (λ s, negb (bool_decide (s ∈ perf))) suites) w) as [w' Hw].
  eexists _, w'. split; [exact Hw|].
  assert (∀ s, display_name (suite_job opt cfg h dir s) = s) as Hname.
  { intros s. unfold suite_job. by case_match. }
  split.
  - rewrite map_map, (map_ext _ id Hname). apply map_id.
  - apply Forall_forall. intros j (s & -> & _)%list_elem_of_fmap. rewrite Hname. unfold suite_job.
    by destruct (valgrind opt && bool_decide (s ∈ core_valgrind_skip_tests)).
Qed.

Lemma suites_dispatched_witness :
  ∃ js w', st_concat_map (dispatch_suite run_options sample_config sample_host (str "out"))
             (remove_performance [str "speed"] [str "object"; str "speed"; []]) sample_world
           = (Ok js, w')
    ∧ map display_name js = [str "object"].
Proof.
  destruct (suites_dispatched run_options sample_config sample_host (str "out")
              [str "object"; str "speed"; []] [str "speed"] sample_world) as (js & w' & Hw & Hn & _).
  - by apply (bool_decide_eq_true_1 (NoDup [str "object"; str "speed"; []])).
  - exists js, w'. split; [exact Hw|]. rewrite Hn. by vm_compute.
Defined.

(** ** The environment of the tests *)

Lemma env_append_lookup key s env k :
  env_append key s env !! k = if decide (k = key) then Some (default [] (env !! key) ++ s) else env !! k.
Proof.
  unfold env_append. case_decide; subst; [by rewrite lookup_insert_eq|by rewrite lookup_insert_ne].
Qed.

Lemma env_paths_lookup key sep paths have env k :
  env_paths key sep paths have env !! k
  = if decide (k = key)
    then match (if have then env !! key else Some []), paths with
         | None, [] => None
         | o, _ => Some (default [] o ++ concat (map (λ p, sep ++ p) paths))
         end
    else env !! k.
Proof.
  unfold env_paths. set (env0 := if have then env else <[key := []]> env).
  assert (env0 !! key = if have then env !! key else Some []) as Hkey.
  { subst env0. destruct have; [done|apply lookup_insert_eq]. }
  assert (k ≠ key → env0 !! k = env !! k) as Hother.
  { intros Hk. subst env0. destruct have; [done|by apply lookup_insert_ne]. }
  rewrite <-Hkey. destruct (decide (k = key)) as [->|Hk].
  - clear Hkey Hother. generalize env0. clear env0.
    induction paths as [|p paths IH]; intros e; cbn [fold_left map concat].
    + destruct (e !! key); [by rewrite app_nil_r|done].
    + rewrite IH, env_append_lookup, decide_True by done.
      destruct (e !! key), paths; cbn; by rewrite <-?app_assoc, ?app_nil_r.
  - rewrite <-Hother by done. clear Hkey Hother. generalize env0. clear env0.
    induction paths as [|p paths IH]; intros e; cbn [fold_left]; [done|].
    by rewrite IH, env_append_lookup, decide_False.
Qed.

(** On Linux [make_paths] appends every module path, after a colon, to
    [LD_LIBRARY_PATH] (which is the empty string when it was not set), and
    leaves every other variable alone but [PYTHONPATH]; the user's [PYTHONPATH]
    is not kept: it is replaced by the bindings' directory, written twice if the
    variable was set. *)
Theorem make_paths_correct cfg h env k :
  platform h = str "linux" →
  let pypath := path_join (path_join (NS3_BUILDDIR cfg) (str "bindings")) (str "python") in
  make_paths cfg h env !! k
  = if decide (k = str "PYTHONPATH") then
      Some (match env !! str "PYTHONPATH" with
            | Some _ => pypath ++ str ":" ++ pypath
            | None => pypath
            end)
    else if decide (k = str "LD_LIBRARY_PATH") then
      Some (default [] (env !! str "LD_LIBRARY_PATH")
              ++ concat (map (λ p, str ":" ++ p) (NS3_MODULE_PATH cfg)))
    else env !! k.
Proof.
  intros Hh pypath. unfold make_paths. rewrite Hh. rewrite !bool_decide_false by done.
  fold pypath. rewrite env_paths_lookup.
  assert (∀ k, k ≠ str "PYTHONPATH" →
    (if bool_decide (is_Some (env !! str "PYTHONPATH"))
     then env_append (str "PYTHONPATH") (str ":" ++ pypath) (<[str "PYTHONPATH" := pypath]> env)
     else <[str "PYTHONPATH" := pypath]> (<[str "PYTHONPATH" := pypath]> env)) !! k = env !! k) as Ho.
  { intros k' Hk'. case_bool_decide; rewrite ?env_append_lookup, ?decide_False by done;
      by rewrite !lookup_insert_ne by done. }
  destruct (decide (k = str "PYTHONPATH")) as [->|Hk].
  - rewrite decide_False by done. destruct (env !! str "PYTHONPATH") as [v|].
    + rewrite bool_decide_true by done. rewrite env_append_lookup, decide_True by done.
      by rewrite lookup_insert_eq.
    + rewrite bool_decide_false by (by intros []). by rewrite lookup_insert_eq.
  - destruct (decide (k = str "LD_LIBRARY_PATH")) as [->|Hk2]; [|by apply Ho].
    rewrite Ho by done. destruct (env !! str "LD_LIBRARY_PATH") as [v|].
    + by rewrite bool_decide_true.
    + by rewrite bool_decide_false by (by intros []).
Qed.

Lemma make_paths_correct_witness :
  make_paths sample_config sample_host (environ sample_world) !! str "PYTHONPATH"
  = Some (str "/ns3/build/bindings/python:/ns3/build/bindings/python").
Proof. rewrite make_paths_correct by reflexivity. by vm_compute. Defined.

(** A suite with valgrind errors leaves in the results what a passing one
    leaves: no entry says [VALGR]. *)
Lemma valgrind_error_not_reported fs j :
  is_example j = false → is_pyexample j = false → is_skip j = false →
  entry fs (set_returncode 2 j) = entry fs (set_returncode 0 j).
Proof. intros H1 H2 H3. unfold entry, copies. cbn. by rewrite H1, H2, H3. Qed.

(** The progress counter does not count valgrind errors. *)
Lemma progress_without_valgrind opt j :
  is_skip j = false → returncode j = 2 → is_example j = true → duration opt = false →
  constrain opt = [] →
  progress_line opt false 1 (count_result j no_results) j
  = str "[0/1] VALGR: Example " ++ display_name j.
Proof.
  intros Hs Hr He Hd Hc. unfold progress_line, count_result, job_status. rewrite Hs, Hr, He, Hd, Hc.
  reflexivity.
Qed.
