(* ===== verification/TestOptions.v ===== *)
(** * [test.py]: options, configuration and [main]

    The table of options of [main] over [optparse] ([PyOptparse]); [read_ns3_config],
    which takes the configuration from the lock file that cmake writes (the function
    [write_lock] of build-support/custom-modules/ns3-lock.cmake); and [main] around
    [run_tests].  The options of check-style.py use the same parser. *)
From Stdlib Require Import Ascii QArith.
From stdpp Require Import gmap countable.
From S2P Require Export PyOptparse Runner.
From S2P Require CheckStyle.
Open Scope Z_scope.

(** ** The options *)

(** What [parse_args] returns: the options that [run_tests] reads, and [nocolor]. *)
Record values : Type := Values { parsed : options; nocolor : bool }.

Definition put_buildpath (x : pystr) (v : values) : values :=
  let o := parsed v in
  Values (MkOptions x (constrain o) (duration o) (example o) (update_data o) (fullness o) (valgrind o) (kinds o)
    (list_tests o) (multiple o) (no_build o) (pyexample o) (retain o) (suite o) (text o) (verbose o) (html o)
    (xml o) (process_limit o)) (nocolor v).
Definition put_constrain (x : pystr) (v : values) : values :=
  let o := parsed v in
  Values (MkOptions (buildpath o) x (duration o) (example o) (update_data o) (fullness o) (valgrind o) (kinds o)
    (list_tests o) (multiple o) (no_build o) (pyexample o) (retain o) (suite o) (text o) (verbose o) (html o)
    (xml o) (process_limit o)) (nocolor v).
Definition put_duration (x : bool) (v : values) : values :=
  let o := parsed v in
  Values (MkOptions (buildpath o) (constrain o) x (example o) (update_data o) (fullness o) (valgrind o)
    (kinds o) (list_tests o) (multiple o) (no_build o) (pyexample o) (retain o) (suite o) (text o) (verbose o)
    (html o) (xml o) (process_limit o)) (nocolor v).
Definition put_example (x : pystr) (v : values) : values :=
  let o := parsed v in
  Values (MkOptions (buildpath o) (constrain o) (duration o) x (update_data o) (fullness o) (valgrind o)
    (kinds o) (list_tests o) (multiple o) (no_build o) (pyexample o) (retain o) (suite o) (text o) (verbose o)
    (html o) (xml o) (process_limit o)) (nocolor v).
Definition put_update_data (x : bool) (v : values) : values :=
  let o := parsed v in
  Values (MkOptions (buildpath o) (constrain o) (duration o) (example o) x (fullness o) (valgrind o) (kinds o)
    (list_tests o) (multiple o) (no_build o) (pyexample o) (retain o) (suite o) (text o) (verbose o) (html o)
    (xml o) (process_limit o)) (nocolor v).
Definition put_fullness (x : pystr) (v : values) : values :=
  let o := parsed v in
  Values (MkOptions (buildpath o) (constrain o) (duration o) (example o) (update_data o) x (valgrind o)
    (kinds o) (list_tests o) (multiple o) (no_build o) (pyexample o) (retain o) (suite o) (text o) (verbose o)
    (html o) (xml o) (process_limit o)) (nocolor v).
Definition put_valgrind (x : bool) (v : values) : values :=
  let o := parsed v in
  Values (MkOptions (buildpath o) (constrain o) (duration o) (example o) (update_data o) (fullness o) x
    (kinds o) (list_tests o) (multiple o) (no_build o) (pyexample o) (retain o) (suite o) (text o) (verbose o)
    (html o) (xml o) (process_limit o)) (nocolor v).
Definition put_kinds (x : bool) (v : values) : values :=
  let o := parsed v in
  Values (MkOptions (buildpath o) (constrain o) (duration o) (example o) (update_data o) (fullness o)
    (valgrind o) x (list_tests o) (multiple o) (no_build o) (pyexample o) (retain o) (suite o) (text o)
    (verbose o) (html o) (xml o) (process_limit o)) (nocolor v).
Definition put_list_tests (x : bool) (v : values) : values :=
  let o := parsed v in
  Values (MkOptions (buildpath o) (constrain o) (duration o) (example o) (update_data o) (fullness o)
    (valgrind o) (kinds o) x (multiple o) (no_build o) (pyexample o) (retain o) (suite o) (text o) (verbose o)
    (html o) (xml o) (process_limit o)) (nocolor v).
Definition put_multiple (x : bool) (v : values) : values :=
  let o := parsed v in
  Values (MkOptions (buildpath o) (constrain o) (duration o) (example o) (update_data o) (fullness o)
    (valgrind o) (kinds o) (list_tests o) x (no_build o) (pyexample o) (retain o) (suite o) (text o) (verbose o)
    (html o) (xml o) (process_limit o)) (nocolor v).
Definition put_no_build (x : bool) (v : values) : values :=
  let o := parsed v in
  Values (MkOptions (buildpath o) (constrain o) (duration o) (example o) (update_data o) (fullness o)
    (valgrind o) (kinds o) (list_tests o) (multiple o) x (pyexample o) (retain o) (suite o) (text o) (verbose o)
    (html o) (xml o) (process_limit o)) (nocolor v).
Definition put_pyexample (x : pystr) (v : values) : values :=
  let o := parsed v in
  Values (MkOptions (buildpath o) (constrain o) (duration o) (example o) (update_data o) (fullness o)
    (valgrind o) (kinds o) (list_tests o) (multiple o) (no_build o) x (retain o) (suite o) (text o) (verbose o)
    (html o) (xml o) (process_limit o)) (nocolor v).
Definition put_retain (x : bool) (v : values) : values :=
  let o := parsed v in
  Values (MkOptions (buildpath o) (constrain o) (duration o) (example o) (update_data o) (fullness o)
    (valgrind o) (kinds o) (list_tests o) (multiple o) (no_build o) (pyexample o) x (suite o) (text o)
    (verbose o) (html o) (xml o) (process_limit o)) (nocolor v).
Definition put_suite (x : pystr) (v : values) : values :=
  let o := parsed v in
  Values (MkOptions (buildpath o) (constrain o) (duration o) (example o) (update_data o) (fullness o)
    (valgrind o) (kinds o) (list_tests o) (multiple o) (no_build o) (pyexample o) (retain o) x (text o)
    (verbose o) (html o) (xml o) (process_limit o)) (nocolor v).
Definition put_text (x : pystr) (v : values) : values :=
  let o := parsed v in
  Values (MkOptions (buildpath o) (constrain o) (duration o) (example o) (update_data o) (fullness o)
    (valgrind o) (kinds o) (list_tests o) (multiple o) (no_build o) (pyexample o) (retain o) (suite o) x
    (verbose o) (html o) (xml o) (process_limit o)) (nocolor v).
Definition put_verbose (x : bool) (v : values) : values :=
  let o := parsed v in
  Values (MkOptions (buildpath o) (constrain o) (duration o) (example o) (update_data o) (fullness o)
    (valgrind o) (kinds o) (list_tests o) (multiple o) (no_build o) (pyexample o) (retain o) (suite o) (text o)
    x (html o) (xml o) (process_limit o)) (nocolor v).
Definition put_html (x : pystr) (v : values) : values :=
  let o := parsed v in
  Values (MkOptions (buildpath o) (constrain o) (duration o) (example o) (update_data o) (fullness o)
    (valgrind o) (kinds o) (list_tests o) (multiple o) (no_build o) (pyexample o) (retain o) (suite o) (text o)
    (verbose o) x (xml o) (process_limit o)) (nocolor v).
Definition put_xml (x : pystr) (v : values) : values :=
  let o := parsed v in
  Values (MkOptions (buildpath o) (constrain o) (duration o) (example o) (update_data o) (fullness o)
    (valgrind o) (kinds o) (list_tests o) (multiple o) (no_build o) (pyexample o) (retain o) (suite o) (text o)
    (verbose o) (html o) x (process_limit o)) (nocolor v).
Definition put_process_limit (x : Z) (v : values) : values :=
  let o := parsed v in
  Values (MkOptions (buildpath o) (constrain o) (duration o) (example o) (update_data o) (fullness o)
    (valgrind o) (kinds o) (list_tests o) (multiple o) (no_build o) (pyexample o) (retain o) (suite o) (text o)
    (verbose o) (html o) (xml o) x) (nocolor v).
Definition put_nocolor (x : bool) (v : values) : values := Values (parsed v) x.
Definition default_values : values :=
  Values (MkOptions [] [] false [] false (str "QUICK") false false false false false [] false [] [] false [] [] 0) false.
Definition fullness_choices : list pystr := [str "QUICK"; str "EXTENSIVE"; str "TAKES_FOREVER"].
(** Every parser has the option of the help text before its own. *)
Definition main_options : list (opt values) := [
  Opt [str "-b"; str "--buildpath"] (store_string put_buildpath);
  Opt [str "-c"; str "--constrain"] (store_string put_constrain);
  Opt [str "-d"; str "--duration"] (Flag (put_duration true));
  Opt [str "-e"; str "--example"] (store_string put_example);
  Opt [str "-u"; str "--update-data"] (Flag (put_update_data true));
  Opt [str "-f"; str "--fullness"] (store_choice fullness_choices put_fullness);
  Opt [str "-g"; str "--grind"] (Flag (put_valgrind true));
  Opt [str "-k"; str "--kinds"] (Flag (put_kinds true));
  Opt [str "-l"; str "--list"] (Flag (put_list_tests true));
  Opt [str "-m"; str "--multiple"] (Flag (put_multiple true));
  Opt [str "-n"; str "--no-build"] (Flag (put_no_build true));
  Opt [str "-p"; str "--pyexample"] (store_string put_pyexample);
  Opt [str "-r"; str "--retain"] (Flag (put_retain true));
  Opt [str "-s"; str "--suite"] (store_string put_suite);
  Opt [str "-t"; str "--text"] (store_string put_text);
  Opt [str "-v"; str "--verbose"] (Flag (put_verbose true));
  Opt [str "-w"; str "--web"; str "--html"] (store_string put_html);
  Opt [str "-x"; str "--xml"] (store_string put_xml);
  Opt [str "--nocolor"] (Flag (put_nocolor true));
  Opt [str "--jobs"] (store_int put_process_limit)].
Definition parse_main (args : list pystr) : res exn values := fst <$> parse_args main_options args default_values.

(** A command line for given values: each option by its long name. *)
Definition joined (name : pystr) (x : pystr) : pystr := name ++ "="%char :: x.
Definition given (name : pystr) (b : bool) : list pystr := if b then [name] else [].
Definition written (v : values) : list pystr :=
  let o := parsed v in
  [joined (str "--buildpath") (buildpath o)] ++ [joined (str "--constrain") (constrain o)] ++
  given (str "--duration") (duration o) ++ [joined (str "--example") (example o)] ++
  given (str "--update-data") (update_data o) ++ [joined (str "--fullness") (fullness o)] ++
  given (str "--grind") (valgrind o) ++ given (str "--kinds") (kinds o) ++ given (str "--list") (list_tests o) ++
  given (str "--multiple") (multiple o) ++ given (str "--no-build") (no_build o) ++
  [joined (str "--pyexample") (pyexample o)] ++ given (str "--retain") (retain o) ++
  [joined (str "--suite") (suite o)] ++ [joined (str "--text") (text o)] ++ given (str "--verbose") (verbose o) ++
  [joined (str "--html") (html o)] ++ [joined (str "--xml") (xml o)] ++ given (str "--nocolor") (nocolor v) ++
  [joined (str "--jobs") (str_of_Z (process_limit o))].

Section steps.
Context {V : Type} (table : list (opt V)).
Context (no_dashes : option_of table (str "--") = None).

Lemma joined_step name x set f rest v :
  is_long name = true → names_long table name (Store set) → set x = Some f →
  process_args table ([joined name x] ++ rest) v = process_args table rest (f v).
Proof. intros. apply process_spelled; [done|]. by apply long_joined with (set := set). Qed.
Lemma given_step name (set : bool → V → V) (get : V → bool) b rest v :
  is_long name = true → name ≠ str "--" → names_long table name (Flag (set true)) →
  (∀ v, get v = false → set false v = v) → get v = false →
  process_args table (given name b ++ rest) v = process_args table rest (set b v).
Proof.
  intros Hl Hne Hn Hf Hv. destruct b; cbn [given]; [|by rewrite Hf].
  apply process_spelled; [done|]. by apply long_flag.
Qed.
(** An option by its full name. *)
Lemma names_exact name a :
  bool_decide ("="%char ∉ name) = true → bool_decide (name ∈ words table) = true →
  opt_action <$> option_of table name = Some a → names_long table name a.
Proof.
  intros He%bool_decide_eq_true Hw%bool_decide_eq_true Ha. split; [done|]. exists name.
  unfold match_abbrev. by rewrite decide_True.
Qed.
End steps.

(** The steps of [written] one after another. *)
Ltac exact_name := apply names_exact; reflexivity.
Ltac take_joined set := erewrite (joined_step (help_option :: main_options) eq_refl _ _ set); [|reflexivity|exact_name|reflexivity].
Ltac take_given set get :=
  rewrite (given_step (help_option :: main_options) eq_refl _ set get);
    [|reflexivity|discriminate|exact_name|by intros [[] ?] [=]; cbn in *; subst|reflexivity].

(** C36: the options reach [run_tests] as they are written: whatever the values, among the
    three choices of fullness, the command line that names each option with its value
    is read back as these values. *)
Theorem test_options_roundtrip (v : values) :
  fullness (parsed v) ∈ fullness_choices → parse_main (written v) = Ok v.
Proof.
  intros Hf. set (take s := if decide (s ∈ fullness_choices) then Some (put_fullness s) else None).
  assert (take (fullness (parsed v)) = Some (put_fullness (fullness (parsed v)))) as Ht.
  { unfold take. apply decide_True. exact Hf. }
  unfold parse_main, parse_args, written.
  take_joined (λ s, Some (put_buildpath s)). take_joined (λ s, Some (put_constrain s)).
  take_given put_duration (λ v, duration (parsed v)). take_joined (λ s, Some (put_example s)). take_given put_update_data (λ v, update_data (parsed v)).
  erewrite (joined_step (help_option :: main_options) eq_refl _ _ take);
    [|reflexivity|exact_name|exact Ht].
  take_given put_valgrind (λ v, valgrind (parsed v)). take_given put_kinds (λ v, kinds (parsed v)). take_given put_list_tests (λ v, list_tests (parsed v)). take_given put_multiple (λ v, multiple (parsed v)).
  take_given put_no_build (λ v, no_build (parsed v)). take_joined (λ s, Some (put_pyexample s)). take_given put_retain (λ v, retain (parsed v)).
  take_joined (λ s, Some (put_suite s)). take_joined (λ s, Some (put_text s)). take_given put_verbose (λ v, verbose (parsed v)).
  take_joined (λ s, Some (put_html s)). take_joined (λ s, Some (put_xml s)). take_given put_nocolor nocolor.
  rewrite <-(app_nil_r [joined (str "--jobs") _]).
  erewrite (joined_step (help_option :: main_options) eq_refl _ _ (λ s, put_process_limit <$> parse_num s));
    [|reflexivity|exact_name|rewrite parse_num_printed; reflexivity].
  destruct v as [[] c]. vm_compute. reflexivity.
Qed.
Definition some_values : values :=
  Values (MkOptions (str "build=x") [] true (str "--wifi") false (str "EXTENSIVE") false false false true false
            [] false (str "tcp") [] true (str "out") [] (-3)) true.
Lemma test_options_roundtrip_witness : parse_main (written some_values) = Ok some_values.
Proof. apply (test_options_roundtrip some_values). apply (bool_decide_unpack _). vm_compute. exact I. Defined.

(** The options that are accepted are exactly the command lines of the table: long
    options in full or by a prefix that no other option has, their values after an
    equals sign or in the next argument, bundles of short options, other arguments
    anywhere, and anything after two dashes; their effects come in order, so the last
    of two values stays.  Anything else ends the script with status 2, or 0 for the
    help text. *)
Theorem test_options_language (args : list pystr) :
  (∀ v, parse_main args = Ok v ↔
     ∃ fs ps, command_line (help_option :: main_options) args fs ps ∧ v = fold_left (λ v f, f v) fs default_values) ∧
  (∀ e, parse_main args = Raise e → e = SystemExit 0 ∨ e = SystemExit 2).
Proof.
  unfold parse_main, parse_args. split.
  - intros v. pose proof (process_args_correct (help_option :: main_options) eq_refl args default_values) as H. split.
    + intros ([w ps] & E & ->)%fmap_ok_inv. apply H in E as (fs & Hc & E). by exists fs, ps.
    + intros (fs & ps & Hc & ->). rewrite (proj2 (H (fold_left (λ v f, f v) fs default_values) ps)); [done|]. by exists fs.
  - intros e. destruct (process_args _ args default_values) as [|e'] eqn:E; [done|]. cbn. intros [= <-].
    by apply process_args_exits in E.
Qed.

(** Abbreviations, bundles, values in the next argument; [--no] and [--h] each are the
    beginning of two options. *)
Example some_lines :
  (λ args, (λ v, (fullness (parsed v), verbose (parsed v), suite (parsed v), process_limit (parsed v))) <$> parse_main args) <$>
  [[str "-dvfEXTENSIVE"; str "x"; str "--sui"; str "tcp"]; [str "--jobs=0x10"; str "--jobs=4"; str "--"; str "-q"];
   [str "--no"]; [str "--h"]; [str "--help"]; [str "--verbose=1"]; [str "-f"; str "quick"]; [str "-s"]; [str "-s"; str "-v"]] =
  [Ok (str "EXTENSIVE", true, str "tcp", 0); Ok (str "QUICK", false, [], 4);
   Raise (SystemExit 2); Raise (SystemExit 2); Raise (SystemExit 0); Raise (SystemExit 2); Raise (SystemExit 2);
   Raise (SystemExit 2); Ok (str "QUICK", false, str "-v", 0)].
Proof. vm_compute. reflexivity. Qed.

(** ** Colors and [main] *)

(** [envcolor]: the third string can not be chosen, the second is not empty. *)
Definition envcolor (env : gmap pystr pystr) : pystr :=
  let no := if truthy (default [] (env !! str "NOCOLOR")) then str "no" else [] in
  if truthy no then no else if truthy (str "auto") then str "auto" else str "yes".
Definition use_color (v : values) (env : gmap pystr pystr) : bool :=
  negb (nocolor v || bool_decide (envcolor env = str "no")).
(** [main]: [run_tests] is called with the options and [colors_lst['USE']]. *)
Definition main {A} (run_tests : options → bool → stm world A) (args : list pystr) : stm world A :=
  v ← st_lift (parse_main args);
  w ← st_get;
  run_tests (parsed v) (use_color v (environ w)).

Lemma use_color_spec v env :
  use_color v env = true ↔ nocolor v = false ∧ (env !! str "NOCOLOR" = None ∨ env !! str "NOCOLOR" = Some []).
Proof.
  unfold use_color, envcolor. destruct (nocolor v); cbn [orb negb]; [by split; [|intros [? _]]|].
  destruct (env !! str "NOCOLOR") as [[|c s]|]; cbn; split; try done; intros; try by (split; [|auto]).
  by destruct H as [_ [H|H]].
Qed.
(** On a command line that is refused nothing is run (the message is not modelled). *)
Lemma main_refused {A} (run_tests : options → bool → stm world A) args e w :
  parse_main args = Raise e → main run_tests args w = (Raise e, w).
Proof. intros H. unfold main. rewrite H. done. Qed.

(** ** The configuration *)

(** The values that the lock file assigns. *)
Inductive value : Type := VStr (s : pystr) | VBool (b : bool) | VList (l : list pystr).
Definition globals : Type := gmap pystr value.

Definition interesting_config_items : list pystr :=
  [str "NS3_ENABLED_MODULES"; str "NS3_ENABLED_CONTRIBUTED_MODULES"; str "NS3_MODULE_PATH"; str "ENABLE_REAL_TIME";
   str "ENABLE_EXAMPLES"; str "ENABLE_TESTS"; str "EXAMPLE_DIRECTORIES"; str "ENABLE_PYTHON_BINDINGS"; str "NSCLICK";
   str "ENABLE_BRITE"; str "ENABLE_OPENFLOW"; str "APPNAME"; str "BUILD_PROFILE"; str "VERSION"; str "PYTHON";
   str "VALGRIND_FOUND"].
(** The assignments at the top of the file. *)
Definition initial_globals : globals := list_to_map [
  (str "ENABLE_REAL_TIME", VBool false); (str "ENABLE_EXAMPLES", VBool true); (str "ENABLE_TESTS", VBool true);
  (str "NSCLICK", VBool false); (str "ENABLE_BRITE", VBool false); (str "ENABLE_OPENFLOW", VBool false);
  (str "EXAMPLE_DIRECTORIES", VList []); (str "APPNAME", VStr []); (str "BUILD_PROFILE", VStr []);
  (str "BUILD_PROFILE_SUFFIX", VStr []); (str "VERSION", VStr []); (str "PYTHON", VStr []);
  (str "VALGRIND_FOUND", VBool true)].

(** Python's literals as far as the lock file has them: strings in single quotes
    without escapes, truth values, and lists of strings. *)
Inductive list_mode : Type := Before | Inside (w : pystr) | After.
Definition quote : ascii := "'"%char.
Definition plain (c : ascii) : bool := negb (bool_decide (c ∈ [quote; "\"%char; newline])).
Fixpoint list_literal (m : list_mode) (s : pystr) : option (list pystr) :=
  match s with
  | [] => None
  | c :: s =>
      match m with
      | Before =>
          if decide (c = quote) then list_literal (Inside []) s
          else if decide (c = "]"%char) then (if decide (s = []) then Some [] else None)
          else if decide (c = " "%char) then list_literal Before s else None
      | Inside w =>
          if decide (c = quote) then (w ::.) <$> list_literal After s
          else if plain c then list_literal (Inside (w ++ [c])) s else None
      | After =>
          if decide (c = ","%char) then list_literal Before s
          else if decide (c = "]"%char) then (if decide (s = []) then Some [] else None)
          else if decide (c = " "%char) then list_literal After s else None
      end
  end.
Fixpoint string_literal (s : pystr) : option pystr :=
  match s with
  | [] => None
  | c :: s =>
      if decide (c = quote) then (if decide (s = []) then Some [] else None)
      else if plain c then (c ::.) <$> string_literal s else None
  end.
Definition literal (s : pystr) : option value :=
  if decide (s = str "True") then Some (VBool true)
  else if decide (s = str "False") then Some (VBool false)
  else match s with
       | c :: s =>
           if decide (c = quote) then VStr <$> string_literal s
           else if decide (c = "["%char) then VList <$> list_literal Before s else None
       | [] => None
       end.
Definition name_char (c : ascii) : bool := is_digit_in 36 c || bool_decide (c = "_"%char).
(** [name = literal] at the beginning of a line. *)
Definition assignment (line : pystr) : option (pystr * value) :=
  '(l, r) ← split_once "=" line;
  match rev (lstrip (rev l)) with
  | c :: n => if forallb name_char (c :: n) && negb (is_digit_in 10 c) then v ← literal (strip r); Some (c :: n, v) else None
  | [] => None
  end.

Section configuration.
(** [eval] and [exec] of what is no literal; how [print] shows a value. *)
Context (eval_other : pystr → res exn value) (exec_other : pystr → globals → res exn globals) (show : value → pystr).

Definition eval (s : pystr) : res exn value :=
  match literal s with Some v => Ok v | None => eval_other s end.
Definition exec (line : pystr) (g : globals) : res exn globals :=
  match assignment line with Some (n, v) => Ok (<[n := v]> g) | None => exec_other line g end.

(** One of the two assignments that are read by hand. *)
Definition read_assignment (key line : pystr) (old : option value) : res exn (option value) :=
  if startswith key line then
    match split_char "=" line with
    | [_; val] => v ← eval (strip val); mret (Some v)
    | _ => Raise ValueError
    end
  else mret old.
Definition read_dirs (dirs : option value * option value) (line : pystr) : res exn (option value * option value) :=
  top_dir ← read_assignment (str "top_dir =") line dirs.1;
  out_dir ← read_assignment (str "out_dir =") line dirs.2;
  mret (top_dir, out_dir).
Definition exec_item (line : pystr) (g : globals) (item : pystr) : res exn globals :=
  if startswith item line then exec line g else mret g.
Definition exec_line (g : globals) (line : pystr) : res exn globals :=
  fold_res (exec_item line) g interesting_config_items.
Definition print_item (g : globals) (item : pystr) : stm world unit :=
  v ← st_lift (res_of_option NameError (g !! item));
  print (item ++ str " == " ++ show v).

Definition read_ns3_config (h : host) (verbose : bool) (g : globals) : stm world globals :=
  let lock_filename := str ".lock-ns3_" ++ platform h ++ str "_build" in
  w ← st_get;
  match files w !! lock_filename with
  | None =>
      _ ← print_err (str "The .lock-ns3 file was not found.  You must configure before running test.py.");
      st_raise (SystemExit 2)
  | Some content =>
      '(top_dir, out_dir) ← st_lift (fold_res read_dirs (None, None) (readlines content));
      top_dir ← st_lift (res_of_option UnboundLocalError top_dir);
      out_dir ← st_lift (res_of_option UnboundLocalError out_dir);
      let g := <[str "NS3_BUILDDIR" := out_dir]> (<[str "NS3_BASEDIR" := top_dir]> g) in
      g ← st_lift (fold_res exec_line g (readlines content));
      _ ← (if verbose then st_for (print_item g) interesting_config_items else mret tt);
      mret g
  end.
End configuration.

(** What the globals give the rest of the script, when each has the type it is used
    with; a string in place of the list [PYTHON] is indexed by its characters. *)
Definition get_str (k : pystr) (g : globals) : option pystr :=
  match g !! k with Some (VStr s) => Some s | _ => None end.
Definition get_bool (k : pystr) (g : globals) : option bool :=
  match g !! k with Some (VBool b) => Some b | _ => None end.
Definition get_list (k : pystr) (g : globals) : option (list pystr) :=
  match g !! k with Some (VList l) => Some l | _ => None end.
Definition get_python (k : pystr) (g : globals) : option (list pystr) :=
  match g !! k with Some (VList l) => Some l | Some (VStr s) => Some ((λ c, [c]) <$> s) | _ => None end.
Definition config_of (g : globals) : option config :=
  basedir ← get_str (str "NS3_BASEDIR") g;
  builddir ← get_str (str "NS3_BUILDDIR") g;
  modules ← get_list (str "NS3_ENABLED_MODULES") g;
  contributed ← get_list (str "NS3_ENABLED_CONTRIBUTED_MODULES") g;
  path ← get_list (str "NS3_MODULE_PATH") g;
  examples ← get_bool (str "ENABLE_EXAMPLES") g;
  tests ← get_bool (str "ENABLE_TESTS") g;
  directories ← get_list (str "EXAMPLE_DIRECTORIES") g;
  bindings ← get_bool (str "ENABLE_PYTHON_BINDINGS") g;
  appname ← get_str (str "APPNAME") g;
  profile ← get_str (str "BUILD_PROFILE") g;
  version ← get_str (str "VERSION") g;
  python ← get_python (str "PYTHON") g;
  valgrind ← get_bool (str "VALGRIND_FOUND") g;
  Some (MkConfig basedir builddir modules contributed path examples tests directories bindings appname profile version python valgrind).

(** ** The lock file *)

(** [string(APPEND)] of the pieces. *)
Definition in_quotes (s : pystr) : pystr := quote :: s ++ [quote].
Definition cache_cmake_flag (entry : pystr) (flag : bool) : pystr :=
  entry ++ str " = " ++ (if flag then str "True" else str "False").
Definition quoted_list (name : pystr) (l : list pystr) : pystr :=
  name ++ str " = [" ++ concat ((λ s, in_quotes s ++ str ", ") <$> l) ++ str "]".
(** The flags that test.py does not use. *)
Record lock_flags : Type := LockFlags {
  f_realtime : bool; f_openflow : bool; f_click : bool; f_brite : bool; f_sudo : bool; f_scan : bool }.
(** The lines of [lock_contents]; [execs] and [scripts] are what can be run. *)
Definition lock_lines (c : config) (python : pystr) (f : lock_flags) (execs scripts : list pystr) : list pystr :=
  let dir := in_quotes (NS3_BASEDIR c) in [
  str "#! /usr/bin/env python3"; [];
  str "launch_dir = " ++ dir; str "run_dir = " ++ dir; str "top_dir = " ++ dir;
  str "out_dir = " ++ in_quotes (NS3_BUILDDIR c); []; [];
  quoted_list (str "NS3_ENABLED_MODULES") (NS3_ENABLED_MODULES c);
  quoted_list (str "NS3_ENABLED_CONTRIBUTED_MODULES") (NS3_ENABLED_CONTRIBUTED_MODULES c);
  str "NS3_MODULE_PATH = [" ++ in_quotes (join (str "', '") (NS3_MODULE_PATH c)) ++ str "]";
  cache_cmake_flag (str "ENABLE_REAL_TIME") (f_realtime f); cache_cmake_flag (str "ENABLE_EXAMPLES") (ENABLE_EXAMPLES c);
  cache_cmake_flag (str "ENABLE_TESTS") (ENABLE_TESTS c); cache_cmake_flag (str "ENABLE_OPENFLOW") (f_openflow f);
  cache_cmake_flag (str "NSCLICK") (f_click f); cache_cmake_flag (str "ENABLE_BRITE") (f_brite f);
  cache_cmake_flag (str "ENABLE_SUDO") (f_sudo f);
  cache_cmake_flag (str "ENABLE_PYTHON_BINDINGS") (ENABLE_PYTHON_BINDINGS c);
  cache_cmake_flag (str "ENABLE_SCAN_PYTHON_BINDINGS") (f_scan f);
  quoted_list (str "EXAMPLE_DIRECTORIES") (EXAMPLE_DIRECTORIES c);
  str "APPNAME = " ++ in_quotes (APPNAME c); str "BUILD_PROFILE = " ++ in_quotes (BUILD_PROFILE c);
  str "VERSION = " ++ in_quotes (VERSION c) ++ str " "; str "PYTHON = [" ++ in_quotes python ++ str "]";
  str "VALGRIND_FOUND = " ++ (if VALGRIND_FOUND c then str "True " else str "False "); []; [];
  quoted_list (str "ns3_runnable_programs") execs; []; quoted_list (str "ns3_runnable_scripts") scripts; []].
(** The argument of [file(WRITE ...)] is not quoted, so CMake takes it as a list and
    loses semicolons: the text is the concatenation of the lines when they have none. *)
Definition write_lock (c : config) (python : pystr) (f : lock_flags) (execs scripts : list pystr) : pystr :=
  concat (println <$> lock_lines c python f execs scripts).

(** ** The configuration: facts *)

Lemma readlines_line l s : newline ∉ l → readlines (println l ++ s) = println l :: readlines s.
Proof.
  unfold println. induction l as [|c l IH]; intros Hl; cbn [app readlines]; [by rewrite decide_True|].
  apply not_elem_of_cons in Hl as [Hc Hl]. rewrite decide_False by congruence. by rewrite (IH Hl).
Qed.
Lemma readlines_lines ls : Forall (λ l, newline ∉ l) ls → readlines (concat (println <$> ls)) = println <$> ls.
Proof. induction 1 as [|l ls Hl Hls IH]; [done|]. cbn [fmap list_fmap concat]. by rewrite readlines_line, IH. Qed.

Lemma strip_around a m b l r :
  is_space a = false → is_space b = false → Forall (λ c, is_space c = true) l → Forall (λ c, is_space c = true) r →
  strip (l ++ a :: m ++ b :: r) = a :: m ++ [b].
Proof.
  intros Ha Hb Hl Hr. unfold strip. rewrite lstrip_spaces by done. cbn [lstrip]. rewrite Ha.
  assert (rev (a :: m ++ b :: r) = rev r ++ b :: rev (a :: m)) as ->.
  { change (a :: m ++ b :: r) with ((a :: m) ++ b :: r). rewrite rev_app_distr. cbn. by rewrite <-!app_assoc. }
  rewrite lstrip_spaces by (by rewrite <-Permutation_rev). cbn [lstrip]. rewrite Hb.
  cbn [rev]. rewrite rev_app_distr, rev_involutive. done.
Qed.

Definition plain_string (s : pystr) : Prop := Forall (λ c, plain c = true) s.
Lemma string_literal_plain s : plain_string s → string_literal (s ++ [quote]) = Some s.
Proof.
  induction 1 as [|c s Hc Hs IH]; cbn [app string_literal]; [done|].
  rewrite decide_False by (intros ->; discriminate Hc). by rewrite Hc, IH.
Qed.
Lemma list_item w s tl : plain_string s →
  list_literal (Inside w) (s ++ quote :: tl) = ((w ++ s) ::.) <$> list_literal After tl.
Proof.
  intros Hs. revert w. induction Hs as [|c s Hc Hs IH]; intros w; cbn [app list_literal].
  - rewrite decide_True by done. by rewrite app_nil_r.
  - rewrite decide_False by (intros ->; discriminate Hc). rewrite Hc, IH. by rewrite <-app_assoc.
Qed.
Lemma list_literal_items l : Forall plain_string l →
  list_literal Before (concat ((λ s, in_quotes s ++ str ", ") <$> l) ++ str "]") = Some l.
Proof.
  induction 1 as [|s l Hs Hl IH]; [done|]. cbn [fmap list_fmap concat]. unfold in_quotes at 1.
  cbn [app list_literal]. rewrite decide_True by done. rewrite <-!app_assoc. cbn [app]. rewrite list_item by done.
  assert (∀ t, list_literal After (str ", " ++ t) = list_literal Before t) as -> by done. by rewrite IH.
Qed.
Lemma list_literal_join l : l ≠ [] → Forall plain_string l →
  list_literal Before (in_quotes (join (str "', '") l) ++ str "]") = Some l.
Proof.
  intros Hne Hl. unfold in_quotes. cbn [app list_literal]. rewrite decide_True by done.
  assert (list_literal (Inside []) ((join (str "', '") l ++ [quote]) ++ str "]") = Some l) as H; [|exact H].
  induction Hl as [|s l Hs Hl IH]; [done|]. destruct l as [|s2 l].
  - cbn [join]. rewrite <-app_assoc. cbn [app]. by rewrite list_item.
  - assert (join (str "', '") (s :: s2 :: l) = s ++ quote :: str ", '" ++ join (str "', '") (s2 :: l)) as -> by done.
    rewrite <-!app_assoc in *. cbn [app]. rewrite <-!app_assoc, list_item by done.
    assert (∀ t, list_literal After (str ", '" ++ t) = list_literal (Inside []) t) as -> by done.
    cbn [app] in *. by rewrite IH.
Qed.

Lemma name_char_facts c : name_char c = true → is_space c = false ∧ c ≠ "="%char.
Proof. destruct c as [[] [] [] [] [] [] [] []]; vm_compute; intros [=]; done. Qed.
(** A line [name = literal], with spaces at its end. *)
Lemma assignment_line n a m b r v :
  forallb name_char n = true → (∃ c n', n = c :: n' ∧ is_digit_in 10 c = false) →
  is_space a = false → is_space b = false → Forall (λ c, is_space c = true) r →
  literal (a :: m ++ [b]) = Some v → assignment (n ++ str " = " ++ a :: m ++ b :: r) = Some (n, v).
Proof.
  intros Hn (c & n' & E & Hc) Ha Hb Hr Hv. assert (Forall (λ c, is_space c = false ∧ c ≠ "="%char) n) as Hn2.
  { apply Forall_forall. intros d Hd%list_elem_of_In. apply name_char_facts. by apply (proj1 (forallb_forall _ _) Hn). }
  unfold assignment. assert (split_once "=" (n ++ str " = " ++ a :: m ++ b :: r) = Some (n ++ str " ", str " " ++ a :: m ++ b :: r)) as ->.
  { apply split_once_spec. split; [by rewrite <-app_assoc|]. intros [Hin|Hin]%elem_of_app.
    - by destruct (proj1 (Forall_forall _ _) Hn2 _ Hin).
    - change (str " ") with [" "%char] in Hin. by apply list_elem_of_singleton in Hin. }
  cbn [mbind option_bind]. rewrite rev_app_distr. change (rev (str " ")) with (str " ").
  rewrite lstrip_spaces by (by repeat constructor). rewrite lstrip_id.
  2:{ rewrite <-Permutation_rev. eapply Forall_impl; [exact Hn2|]. by intros d [? _]. }
  rewrite rev_involutive, E. rewrite <-E, Hn, Hc. cbn [andb negb].
  rewrite strip_around; [|done|done|by repeat constructor|done]. by rewrite Hv, E.
Qed.

Section reading.
Context (eval_other : pystr → res exn value) (exec_other : pystr → globals → res exn globals) (show : value → pystr).
Local Abbreviation ex_line := (exec_line exec_other).

Lemma exec_line_items g line :
  ex_line g line = fold_res (λ g (_ : pystr), exec exec_other line g) g
                       (base.filter (λ item, startswith item line = true) interesting_config_items).
Proof.
  unfold exec_line. revert g. induction interesting_config_items as [|item l IH]; intros g; [done|].
  cbn [fold_res]. unfold exec_item at 1. destruct (startswith item line) eqn:E.
  - rewrite filter_cons_True by done. cbn [fold_res]. destruct (exec exec_other line g); [apply IH|done].
  - rewrite filter_cons_False by congruence. apply IH.
Qed.
Lemma exec_line_skip g line :
  base.filter (λ item, startswith item line = true) interesting_config_items = [] → ex_line g line = Ok g.
Proof. intros H. by rewrite exec_line_items, H. Qed.
Lemma exec_line_set g n v line :
  base.filter (λ item, startswith item line = true) interesting_config_items = [n] →
  assignment line = Some (n, v) → ex_line g line = Ok (<[n := v]> g).
Proof. intros H Ha. rewrite exec_line_items, H. cbn. unfold exec. by rewrite Ha. Qed.

(** The lines of the lock file. *)
Lemma string_line n x sp : Forall (λ c, is_space c = true) sp → plain_string x →
  forallb name_char n = true → (∃ c n', n = c :: n' ∧ is_digit_in 10 c = false) →
  assignment (println (n ++ str " = " ++ in_quotes x ++ sp)) = Some (n, VStr x).
Proof.
  intros Hsp Hx Hn Hc. unfold println, in_quotes.
  replace ((n ++ str " = " ++ (quote :: x ++ [quote]) ++ sp) ++ ["010"%char])
    with (n ++ str " = " ++ quote :: x ++ quote :: (sp ++ ["010"%char])).
  2:{ rewrite <-!app_assoc. cbn [app]. by rewrite <-!app_assoc. }
  apply assignment_line; [done|done|done|done| |].
  - apply Forall_app. split; [done|by repeat constructor].
  - unfold literal. cbn [app]. rewrite !decide_False by done. rewrite decide_True by done.
    by rewrite string_literal_plain.
Qed.
Lemma list_line n body l : forallb name_char n = true → (∃ c n', n = c :: n' ∧ is_digit_in 10 c = false) →
  list_literal Before (body ++ str "]") = Some l →
  assignment (println (n ++ str " = [" ++ body ++ str "]")) = Some (n, VList l).
Proof.
  intros Hn Hc Hl. unfold println.
  replace ((n ++ str " = [" ++ body ++ str "]") ++ ["010"%char])
    with (n ++ str " = " ++ "["%char :: body ++ "]"%char :: ["010"%char]).
  2:{ rewrite <-!app_assoc. done. }
  apply assignment_line; [done|done|done|done|by repeat constructor|].
  unfold literal. cbn [app]. rewrite !decide_False by done. rewrite decide_True by done.
  change ["]"%char] with (str "]"). by rewrite Hl.
Qed.
Lemma flag_line n (f : bool) sp : Forall (λ c, is_space c = true) sp →
  forallb name_char n = true → (∃ c n', n = c :: n' ∧ is_digit_in 10 c = false) →
  assignment (println (n ++ str " = " ++ (if f then str "True" else str "False") ++ sp)) = Some (n, VBool f).
Proof.
  intros Hsp Hn Hc. unfold println.
  assert (Forall (λ c, is_space c = true) (sp ++ ["010"%char])) as Hr.
  { apply Forall_app. split; [done|by repeat constructor]. }
  rewrite <-!app_assoc. destruct f.
  - by apply (assignment_line n "T"%char (str "ru") "e"%char).
  - by apply (assignment_line n "F"%char (str "als") "e"%char).
Qed.

(** Concatenations with the same characters. *)
Local Ltac flat_app := repeat (progress (cbn [app str String.list_ascii_of_string]; rewrite <-?app_assoc)); done.

(** The two directories. *)
Lemma dir_value n x old : startswith (n ++ str " =") (println (n ++ str " = " ++ in_quotes x)) = true →
  "="%char ∉ n → "="%char ∉ x → plain_string x →
  read_assignment eval_other (n ++ str " =") (println (n ++ str " = " ++ in_quotes x)) old = Ok (Some (VStr x)).
Proof.
  intros Hs Hn Hx Hp. unfold read_assignment. rewrite Hs. unfold println, in_quotes.
  assert ((n ++ str " = " ++ quote :: x ++ [quote]) ++ ["010"%char]
    = (n ++ str " ") ++ "="%char :: (str " " ++ quote :: x ++ quote :: ["010"%char])) as ->.
  { flat_app. }
  rewrite split_char_app, split_char_no.
  - rewrite strip_around; [|done|done|by repeat constructor|by repeat constructor].
    unfold eval, literal. rewrite !decide_False by done. rewrite decide_True by done. by rewrite string_literal_plain.
  - rewrite !not_elem_of_app, not_elem_of_cons, not_elem_of_app. split_and!; first [done|by_decision].
  - rewrite not_elem_of_app. split; [done|by_decision].
Qed.
Lemma split_char_length ch s : (1 <= length (split_char ch s))%nat.
Proof. pose proof (split_char_nonnil ch s). destruct (split_char ch s); cbn; [done|lia]. Qed.
Lemma dir_equals n x old : startswith (n ++ str " =") (println (n ++ str " = " ++ in_quotes x)) = true →
  "="%char ∈ x →
  read_assignment eval_other (n ++ str " =") (println (n ++ str " = " ++ in_quotes x)) old = Raise ValueError.
Proof.
  intros Hs Hx. unfold read_assignment. rewrite Hs. apply list_elem_of_split in Hx as (l1 & l2 & ->). unfold println, in_quotes.
  assert ((n ++ str " = " ++ quote :: (l1 ++ "="%char :: l2) ++ [quote]) ++ ["010"%char]
    = (n ++ str " ") ++ "="%char :: ((str " " ++ quote :: l1) ++ "="%char :: (l2 ++ quote :: ["010"%char]))) as ->.
  { flat_app. }
  rewrite !split_char_app_sep. set (parts := _ ++ _ ++ _). assert (3 <= length parts)%nat as Hlen.
  { unfold parts. rewrite !length_app. pose proof (split_char_length "=" (n ++ str " ")).
    pose proof (split_char_length "=" (str " " ++ quote :: l1)). pose proof (split_char_length "=" (l2 ++ [quote; "010"%char])). lia. }
  destruct parts as [|a [|b [|k parts]]]; cbn in Hlen; try lia. done.
Qed.
Lemma read_dirs_skip d line :
  startswith (str "top_dir =") line = false → startswith (str "out_dir =") line = false →
  read_dirs eval_other d line = Ok d.
Proof. intros H1 H2. unfold read_dirs, read_assignment. rewrite H1, H2. by destruct d. Qed.
Lemma read_dirs_top d x : "="%char ∉ x → plain_string x →
  read_dirs eval_other d (println (str "top_dir = " ++ in_quotes x)) = Ok (Some (VStr x), d.2).
Proof.
  intros. unfold read_dirs. pose proof (dir_value (str "top_dir") x d.1 eq_refl ltac:(by_decision)) as H1.
  change (str "top_dir" ++ str " = " ++ in_quotes x) with (str "top_dir = " ++ in_quotes x) in H1.
  change (str "top_dir" ++ str " =") with (str "top_dir =") in H1. by rewrite H1.
Qed.
Lemma read_dirs_out d x : "="%char ∉ x → plain_string x →
  read_dirs eval_other d (println (str "out_dir = " ++ in_quotes x)) = Ok (d.1, Some (VStr x)).
Proof.
  intros. unfold read_dirs. pose proof (dir_value (str "out_dir") x d.2 eq_refl ltac:(by_decision)) as H1.
  change (str "out_dir" ++ str " = " ++ in_quotes x) with (str "out_dir = " ++ in_quotes x) in H1.
  change (str "out_dir" ++ str " =") with (str "out_dir =") in H1. cbn [mbind res_bind]. by rewrite H1.
Qed.

(** The strings of the configuration hold no quotes, backslashes or ends of line. *)
Record lock_ok (c : config) (python : pystr) (execs scripts : list pystr) : Prop := LockOk {
  ok_basedir : plain_string (NS3_BASEDIR c); ok_builddir : plain_string (NS3_BUILDDIR c);
  ok_modules : Forall plain_string (NS3_ENABLED_MODULES c);
  ok_contributed : Forall plain_string (NS3_ENABLED_CONTRIBUTED_MODULES c);
  ok_path : NS3_MODULE_PATH c ≠ [] ∧ Forall plain_string (NS3_MODULE_PATH c);
  ok_directories : Forall plain_string (EXAMPLE_DIRECTORIES c);
  ok_appname : plain_string (APPNAME c); ok_profile : plain_string (BUILD_PROFILE c);
  ok_version : plain_string (VERSION c); ok_python : plain_string python ∧ PYTHON c = [python];
  ok_execs : Forall plain_string execs; ok_scripts : Forall plain_string scripts }.

Lemma plain_no_newline s : plain_string s → newline ∉ s.
Proof. intros Hs Hin. pose proof (proj1 (Forall_forall _ _) Hs _ Hin) as H. discriminate H. Qed.
Lemma in_quotes_no_newline s : plain_string s → newline ∉ in_quotes s.
Proof.
  intros Hs%plain_no_newline. unfold in_quotes. rewrite not_elem_of_cons, not_elem_of_app.
  split_and!; [by_decision|done|by_decision].
Qed.
Lemma items_no_newline l : Forall plain_string l → newline ∉ concat ((λ s, in_quotes s ++ str ", ") <$> l).
Proof.
  induction 1 as [|s l Hs Hl IH]; [by_decision|]. cbn [fmap list_fmap concat]. rewrite !not_elem_of_app.
  split_and!; [by apply in_quotes_no_newline|by_decision|done].
Qed.
Lemma join_plain sep l : (∀ c, c ∈ sep → c ≠ newline) → Forall plain_string l → newline ∉ join sep l.
Proof.
  intros Hsep. induction 1 as [|s l Hs Hl IH]; [by_decision|]. destruct l as [|s2 l].
  - by apply plain_no_newline.
  - change (join sep (s :: s2 :: l)) with (s ++ sep ++ join sep (s2 :: l)). rewrite !not_elem_of_app.
    split_and!; [by apply plain_no_newline| |done]. intros Hin. by apply Hsep in Hin.
Qed.
Lemma quoted_list_no_newline n l : newline ∉ n → Forall plain_string l → newline ∉ quoted_list n l.
Proof.
  intros Hn Hl. unfold quoted_list. rewrite !not_elem_of_app.
  split_and!; [done|by_decision|by apply items_no_newline|by_decision].
Qed.
Lemma flag_no_newline n f : newline ∉ n → newline ∉ cache_cmake_flag n f.
Proof. intros Hn. unfold cache_cmake_flag. rewrite !not_elem_of_app. split_and!; [done|by_decision|destruct f; by_decision]. Qed.
Lemma lock_lines_no_newline c python f execs scripts : lock_ok c python execs scripts →
  Forall (λ l, newline ∉ l) (lock_lines c python f execs scripts).
Proof.
  intros []. unfold lock_lines.
  repeat (apply Forall_cons; split; [first [by_decision|apply quoted_list_no_newline; [by_decision|done]
    |apply flag_no_newline; by_decision|idtac]|]); try apply Forall_nil_2.
  all: repeat (rewrite not_elem_of_app; split); try by_decision; try (by apply in_quotes_no_newline).
  - unfold in_quotes. rewrite not_elem_of_cons, not_elem_of_app. split_and!; [by_decision| |by_decision].
    apply join_plain; [|tauto]. intros ch Hch ->. revert Hch. by_decision.
  - apply in_quotes_no_newline. tauto.
  - destruct (VALGRIND_FOUND c); by_decision.
Qed.

(** What the lines assign, in their order. *)
Definition lock_globals (c : config) (f : lock_flags) (g : globals) : globals :=
  fold_left (λ g kv, <[kv.1 := kv.2]> g) [
    (str "NS3_BASEDIR", VStr (NS3_BASEDIR c)); (str "NS3_BUILDDIR", VStr (NS3_BUILDDIR c));
    (str "NS3_ENABLED_MODULES", VList (NS3_ENABLED_MODULES c));
    (str "NS3_ENABLED_CONTRIBUTED_MODULES", VList (NS3_ENABLED_CONTRIBUTED_MODULES c));
    (str "NS3_MODULE_PATH", VList (NS3_MODULE_PATH c)); (str "ENABLE_REAL_TIME", VBool (f_realtime f));
    (str "ENABLE_EXAMPLES", VBool (ENABLE_EXAMPLES c)); (str "ENABLE_TESTS", VBool (ENABLE_TESTS c));
    (str "ENABLE_OPENFLOW", VBool (f_openflow f)); (str "NSCLICK", VBool (f_click f)); (str "ENABLE_BRITE", VBool (f_brite f));
    (str "ENABLE_PYTHON_BINDINGS", VBool (ENABLE_PYTHON_BINDINGS c));
    (str "EXAMPLE_DIRECTORIES", VList (EXAMPLE_DIRECTORIES c)); (str "APPNAME", VStr (APPNAME c));
    (str "BUILD_PROFILE", VStr (BUILD_PROFILE c)); (str "VERSION", VStr (VERSION c));
    (str "PYTHON", VList (PYTHON c)); (str "VALGRIND_FOUND", VBool (VALGRIND_FOUND c))] g.

Lemma fold_step {A S} (h : S → A → res exn S) s s' x l :
  h s x = Ok s' → fold_res h s (x :: l) = fold_res h s' l.
Proof. intros H. cbn [fold_res]. by rewrite H. Qed.
Ltac good_name := first [reflexivity|do 2 eexists; split; reflexivity].
Ltac skip_line := erewrite fold_step by (apply exec_line_skip; reflexivity).
Ltac set_line tac := erewrite fold_step by (eapply exec_line_set; [reflexivity|tac]).
Lemma exec_lock_lines c python f execs scripts g : lock_ok c python execs scripts →
  fold_res ex_line (<[str "NS3_BUILDDIR" := VStr (NS3_BUILDDIR c)]> (<[str "NS3_BASEDIR" := VStr (NS3_BASEDIR c)]> g))
    (println <$> lock_lines c python f execs scripts) = Ok (lock_globals c f g).
Proof.
  intros []. destruct ok_path0 as [Hne Hpath], ok_python0 as [Hpy Epy].
  assert (∀ n l, Forall plain_string l → forallb name_char n = true → (∃ c n', n = c :: n' ∧ is_digit_in 10 c = false) →
    assignment (println (quoted_list n l)) = Some (n, VList l)) as Hlist.
  { intros n l Hl Hn Hc. unfold quoted_list. apply list_line; [done|done|by apply list_literal_items]. }
  assert (∀ n x, plain_string x → forallb name_char n = true → (∃ c n', n = c :: n' ∧ is_digit_in 10 c = false) →
    assignment (println (n ++ str " = " ++ in_quotes x)) = Some (n, VStr x)) as Hstr.
  { intros n x Hx Hn Hc. pose proof (string_line n x [] (Forall_nil_2 _) Hx Hn Hc) as H. by rewrite app_nil_r in H. }
  assert (∀ n b, forallb name_char n = true → (∃ c n', n = c :: n' ∧ is_digit_in 10 c = false) →
    assignment (println (cache_cmake_flag n b)) = Some (n, VBool b)) as Hflag.
  { intros n b Hn Hc. pose proof (flag_line n b [] (Forall_nil_2 _) Hn Hc) as H. by rewrite app_nil_r in H. }
  unfold lock_lines. cbn [fmap list_fmap]. do 8 skip_line.
  do 2 (set_line ltac:(apply Hlist; [done|good_name|good_name])).
  set_line ltac:(apply (list_line (str "NS3_MODULE_PATH")); [good_name|good_name|by apply list_literal_join]).
  do 6 (set_line ltac:(apply Hflag; good_name)). skip_line. set_line ltac:(apply Hflag; good_name). skip_line.
  set_line ltac:(apply Hlist; [done|good_name|good_name]).
  set_line ltac:(apply (Hstr (str "APPNAME")); [done|good_name|good_name]).
  set_line ltac:(apply (Hstr (str "BUILD_PROFILE")); [done|good_name|good_name]).
  set_line ltac:(apply (string_line (str "VERSION") _ (str " ")); [by repeat constructor|done|good_name|good_name]).
  set_line ltac:(apply (list_line (str "PYTHON") _ (PYTHON c)); [good_name|good_name|]; rewrite Epy;
    apply (list_literal_join [python]); [done|by repeat constructor]).
  replace (if VALGRIND_FOUND c then str "True " else str "False ")
    with ((if VALGRIND_FOUND c then str "True" else str "False") ++ str " ") by (by destruct (VALGRIND_FOUND c)).
  set_line ltac:(apply (flag_line (str "VALGRIND_FOUND") _ (str " ")); [by repeat constructor|good_name|good_name]).
  do 6 skip_line. reflexivity.
Qed.

Ltac skip_dir := erewrite fold_step by (apply read_dirs_skip; reflexivity).
Lemma read_dirs_lock c python f execs scripts : lock_ok c python execs scripts →
  fold_res (read_dirs eval_other) (None, None) (println <$> lock_lines c python f execs scripts) =
  (if decide ("="%char ∈ NS3_BASEDIR c ∨ "="%char ∈ NS3_BUILDDIR c) then Raise ValueError
   else Ok (Some (VStr (NS3_BASEDIR c)), Some (VStr (NS3_BUILDDIR c)))).
Proof.
  intros []. unfold lock_lines. cbn [fmap list_fmap]. do 4 skip_dir.
  destruct (decide ("="%char ∈ NS3_BASEDIR c)) as [Hb|Hb].
  { rewrite decide_True by (by left). cbn [fold_res]. unfold read_dirs at 1.
    pose proof (dir_equals (str "top_dir") (NS3_BASEDIR c) (None, None : option value).1 eq_refl Hb) as H. cbn [fst] in *.
    change (str "top_dir" ++ str " = " ++ in_quotes (NS3_BASEDIR c)) with (str "top_dir = " ++ in_quotes (NS3_BASEDIR c)) in H.
    change (str "top_dir" ++ str " =") with (str "top_dir =") in H. by rewrite H. }
  erewrite fold_step by (by apply read_dirs_top). destruct (decide ("="%char ∈ NS3_BUILDDIR c)) as [Ho|Ho].
  { rewrite decide_True by (by right). cbn [fold_res]. unfold read_dirs at 1.
    pose proof (dir_equals (str "out_dir") (NS3_BUILDDIR c) None eq_refl Ho) as H.
    change (str "out_dir" ++ str " = " ++ in_quotes (NS3_BUILDDIR c)) with (str "out_dir = " ++ in_quotes (NS3_BUILDDIR c)) in H.
    change (str "out_dir" ++ str " =") with (str "out_dir =") in H. cbn [snd]. rewrite H. done. }
  erewrite fold_step by (by apply read_dirs_out). rewrite decide_False by tauto. do 19 skip_dir.
  erewrite fold_step by (apply read_dirs_skip; by destruct (VALGRIND_FOUND c)). do 6 skip_dir. done.
Qed.

Lemma lock_globals_config c f python : PYTHON c = [python] → config_of (lock_globals c f initial_globals) = Some c.
Proof. intros H. destruct c. cbn in H. subst. vm_compute. reflexivity. Qed.
Lemma lock_globals_items c f :
  Forall (λ item, is_Some (lock_globals c f initial_globals !! item)) interesting_config_items.
Proof. destruct c, f. repeat (apply Forall_cons; split; [eexists; vm_compute; reflexivity|]). by apply Forall_nil. Qed.

Lemma print_items_ok g items w : Forall (λ item, is_Some (g !! item)) items →
  ∃ w', st_for (print_item show g) items w = (Ok tt, w') ∧ files w' = files w.
Proof.
  intros Hg. apply (st_for_inv (print_item show g) (λ w', files w' = files w)); [|done].
  intros item s Hin Hs. destruct (proj1 (Forall_forall _ _) Hg item Hin) as [v Hv].
  unfold print_item. rewrite Hv. by eexists.
Qed.

(** C37: what cmake writes into the lock file is the configuration that test.py reads
    from it, when its strings hold no quotes, backslashes or ends of line ([lock_ok],
    for an apostrophe, say, ends the literal) and no semicolons.  The one other
    exception is an equals sign in the directory of the sources or of the build: these
    two lines are split at it, and ValueError ends the script; one in another path,
    such as an entry of PATH, does no harm.  Without a lock file the script ends with
    status 2. *)
Theorem config_roundtrip (h : host) (c : config) (python : pystr) (f : lock_flags) (execs scripts : list pystr)
    (verbose : bool) (w : world) :
  let lock := str ".lock-ns3_" ++ platform h ++ str "_build" in
  let read := read_ns3_config eval_other exec_other show h verbose initial_globals in
  (lock_ok c python execs scripts → Forall (λ l, ";"%char ∉ l) (lock_lines c python f execs scripts) →
   files w !! lock = Some (write_lock c python f execs scripts) →
   ("="%char ∉ NS3_BASEDIR c → "="%char ∉ NS3_BUILDDIR c →
    ∃ g w', read w = (Ok g, w') ∧ config_of g = Some c ∧ files w' = files w) ∧
   ("="%char ∈ NS3_BASEDIR c ∨ "="%char ∈ NS3_BUILDDIR c → read w = (Raise ValueError, w))) ∧
  (files w !! lock = None → (read w).1 = Raise (SystemExit 2)).
Proof.
  intros lock read. unfold read, read_ns3_config. cbv zeta. fold lock. split.
  - intros Hok _ Hlock. pose proof (read_dirs_lock c python f execs scripts Hok) as Hd.
    assert (readlines (write_lock c python f execs scripts) = println <$> lock_lines c python f execs scripts) as Hl.
    { apply readlines_lines. by eapply lock_lines_no_newline. }
    split.
    + intros Hb Ho. rewrite decide_False in Hd by tauto.
      pose proof (exec_lock_lines c python f execs scripts initial_globals Hok) as He.
      destruct (print_items_ok (lock_globals c f initial_globals) interesting_config_items w) as (w' & Hp & Hw).
      { apply lock_globals_items. }
      exists (lock_globals c f initial_globals), (if verbose then w' else w).
      unfold st_get, st_lift, mbind, stm_bind. rewrite Hlock. cbn [fst snd]. rewrite Hl, Hd. cbn [res_of_option].
      rewrite He. split_and!.
      * destruct verbose; [by rewrite Hp|done].
      * by eapply lock_globals_config, (ok_python _ _ _ _ Hok).
      * by destruct verbose.
    + intros Heq. rewrite decide_True in Hd by done. unfold st_get, st_lift, mbind, stm_bind. rewrite Hlock.
      by rewrite Hl, Hd.
  - intros Hlock. unfold st_get, mbind, stm_bind. by rewrite Hlock.
Qed.
End reading.

(** No line of the lock file that is written needs more than the literals. *)
Definition no_eval (s : pystr) : res exn value := Raise NameError.
Definition no_exec (s : pystr) (g : globals) : res exn globals := Raise NameError.
Definition show_value (v : value) : pystr := match v with VStr s => s | VBool b => if b then str "True" else str "False" | VList l => concat l end.
Definition some_config (basedir : pystr) : config :=
  MkConfig basedir (basedir ++ str "/build") [str "ns3-core"; str "ns3-wifi"] [] [str "/usr/bin"; str "/ns3/build"]
    true false [str "wireless"; str "tcp"] false (str "ns") (str "default") (str "3.36") [str "/usr/bin/python3"] true.
Definition some_lock (basedir : pystr) : pystr :=
  write_lock (some_config basedir) (str "/usr/bin/python3") (LockFlags true false true false false false)
    [str "/ns3/build/test"] [].
Definition lock_world (text : pystr) : world := MkWorld {[ str ".lock-ns3_linux_build" := text ]} [] [] ∅.
Definition linux : host := MkHost (str "linux") (str "python3") (str "/ns3") (str "now") None.
Lemma config_roundtrip_witness : ∃ g w',
  read_ns3_config no_eval no_exec show_value linux true initial_globals (lock_world (some_lock (str "/ns3"))) = (Ok g, w') ∧
  config_of g = Some (some_config (str "/ns3")).
Proof.
  pose proof (config_roundtrip no_eval no_exec show_value linux (some_config (str "/ns3")) (str "/usr/bin/python3")
    (LockFlags true false true false false false) [str "/ns3/build/test"] [] true (lock_world (some_lock (str "/ns3")))) as H.
  cbv zeta in H. destruct H as [H _]. destruct H as [H _].
  - split; unfold plain_string; by_decision.
  - by_decision.
  - vm_compute. reflexivity.
  - destruct H as (g & w' & H1 & H2 & _); [by_decision|by_decision|]. exists g, w'. split; [exact H1|exact H2].
Defined.
(** A checkout in a directory with an equals sign; a lock file without [out_dir]; with
    [--verbose], one without the list of modules. *)
Example config_errors :
  let read text verbose := (read_ns3_config no_eval no_exec show_value linux verbose initial_globals (lock_world text)).1 in
  let dirs := str "top_dir = '/a'" ++ [newline] ++ str "out_dir = '/b'" in
  read (some_lock (str "/a=b")) false = Raise ValueError ∧ read (str "top_dir = '/a'") false = Raise UnboundLocalError ∧
  is_ok (read dirs false) = true ∧ read dirs true = Raise NameError.
Proof. vm_compute. done. Qed.

(** ** The options of check-style.py *)

Definition put_debug (o : CheckStyle.options) : CheckStyle.options :=
  CheckStyle.MkOptions true (CheckStyle.opt_level o) (CheckStyle.opt_git o) (CheckStyle.opt_file o) (CheckStyle.opt_diff o) (CheckStyle.opt_in_place o).
Definition put_level (x : Z) (o : CheckStyle.options) : CheckStyle.options :=
  CheckStyle.MkOptions (CheckStyle.opt_debug o) x (CheckStyle.opt_git o) (CheckStyle.opt_file o) (CheckStyle.opt_diff o) (CheckStyle.opt_in_place o).
Definition put_git (o : CheckStyle.options) : CheckStyle.options :=
  CheckStyle.MkOptions (CheckStyle.opt_debug o) (CheckStyle.opt_level o) true (CheckStyle.opt_file o) (CheckStyle.opt_diff o) (CheckStyle.opt_in_place o).
Definition put_file (x : pystr) (o : CheckStyle.options) : CheckStyle.options :=
  CheckStyle.MkOptions (CheckStyle.opt_debug o) (CheckStyle.opt_level o) (CheckStyle.opt_git o) x (CheckStyle.opt_diff o) (CheckStyle.opt_in_place o).
Definition put_diff (o : CheckStyle.options) : CheckStyle.options :=
  CheckStyle.MkOptions (CheckStyle.opt_debug o) (CheckStyle.opt_level o) (CheckStyle.opt_git o) (CheckStyle.opt_file o) true (CheckStyle.opt_in_place o).
Definition put_in_place (o : CheckStyle.options) : CheckStyle.options :=
  CheckStyle.MkOptions (CheckStyle.opt_debug o) (CheckStyle.opt_level o) (CheckStyle.opt_git o) (CheckStyle.opt_file o) (CheckStyle.opt_diff o) true.
Definition style_defaults : CheckStyle.options := CheckStyle.MkOptions false 0 false [] false false.
Definition style_options : list (opt CheckStyle.options) := [
  Opt [str "--debug"] (Flag put_debug);
  Opt [str "-l"; str "--level"] (store_int put_level);
  Opt [str "--check-git"] (Flag put_git);
  Opt [str "-f"; str "--check-file"] (store_string put_file);
  Opt [str "--diff"] (Flag put_diff);
  Opt [str "-i"; str "--in-place"] (Flag put_in_place)].
(** The exit status of the script, for that of [run_as_main] on parsed options; an
    error of the parser is no [Exception]. *)
Definition style_status (status : CheckStyle.options → Z) (args : list pystr) : Z :=
  match fst <$> parse_args style_options args style_defaults with
  | Ok o => status o
  | Raise (SystemExit n) => n
  | Raise _ => 1
  end.
(** A bad command line gives status 2, where a file that has to be indented gives 1. *)
Lemma style_status_values status args :
  (∃ fs ps, command_line (help_option :: style_options) args fs ps ∧
     style_status status args = status (fold_left (λ v f, f v) fs style_defaults)) ∨
  style_status status args = 0 ∨ style_status status args = 2.
Proof.
  unfold style_status, parse_args. destruct (process_args _ args style_defaults) as [[o ps]|e] eqn:E; cbn.
  - left. apply process_args_correct in E as (fs & Hc & ->); [|done]. by exists fs, ps.
  - right. apply process_args_exits in E as [-> | ->]; auto.
Qed.
Example style_lines :
  (λ args, (λ r, (CheckStyle.opt_level r.1, CheckStyle.opt_file r.1, CheckStyle.opt_in_place r.1)) <$> parse_args style_options args style_defaults) <$>
  [[str "-il3"; str "--check-f"; str "a.cc"]; [str "--check"]; [str "--level=three"]] =
  [Ok (3, str "a.cc", true); Raise (SystemExit 2); Raise (SystemExit 2)].
Proof. vm_compute. reflexivity. Qed.
